(* ===== verification/_CoqProject ===== *)
-Q . S2P
Prelude.v
GoStrings.v
OsVersion.v
Support.v
StateStore.v
Sha256.v
Mdm.v
Storage.v
Replacement.v
InMem.v
InMemQueue.v
InMemDelivery.v
InMemRegistry.v
InMemSafety.v
InMemSamples.v
InMemPaging.v
RateLimit.v
Cbor.v
CborGrammar.v
CborRoundtrip.v
Utf8.v
Float64.v
Validation.v
PredLexer.v
PredParser.v
PredEval.v
PredProgress.v
PredText.v
PredRoundtrip.v
PredParsed.v
Json.v
Canonjson.v
CanonjsonRead.v
CanonjsonSpec.v
DdmTypes.v
DdmStore.v
DdmDecl.v
DdmEngine.v
DdmStatus.v
DdmInv.v
DdmNotify.v
DdmDelivery.v
DdmServing.v
DdmCodec.v
DdmReports.v
ServiceBase.v
Service.v
ServiceFlow.v
ServiceUserAuth.v
ServiceSafety.v
ServiceDelivery.v
ServiceHandshake.v
ServiceSamples.v
Base64.v
Jose.v
Attest.v
AcmeTypes.v
AcmeStore.v
AcmeBase.v
AcmeServer.v
AcmeIssue.v
AcmeInv.v
AcmeSteps.v
AcmeTransactions.v
AcmeHandlers.v
AcmeSafety.v
AcmeSamples.v
StateClient.v
Revocation.v
RevocationSafety.v
Der.v
Ca.v
ScepChallenge.v
ScepGrants.v
ScepSafety.v
Crypt.v
AcmeIdentifier.v
