(* ===== verification/Prelude.v ===== *)
(** * A verification of the Apple device management library

    The program is a Go library and server for Apple's device management protocols. A
    device enrolls over MDM ([mdmprotocol/mdm]), presents a client certificate, receives
    commands from a queue ([storage], [storage/inmem]) and answers them; its identity
    certificate can be replaced while it stays enrolled ([storage/replacement.go]). The
    service ([server/service]) stands between the transports and the store: it authorizes
    devices by their certificates, runs hooks, queues and selects commands and publishes
    events, and authenticates users with a digest handshake.
    Declarations ([mdmprotocol/ddm], [storage/ddm/inmem]) are published in sets, assigned
    to enrollments, advertised in manifests and fetched by devices, which report their
    status; they are activated by predicates ([mdmprotocol/ddm/predicate]) and apply to
    operating system releases ([osversion], [schema/support]). Requests are limited
    ([ratelimit]) over a small transactional store ([state]), and hardware attestations
    are CBOR ([internal/cbor]). Device identity certificates come from an ACME server
    ([pki/acme], [storage/acme/inmem]) that asks for such an attestation, or by SCEP under
    challenges and grants ([pki/scep]); the certificate authority ([pki/ca]) signs them and a
    registry ([pki/revocation]) records them, revokes them and publishes their status. Secrets
    are sealed at rest ([storage/crypt]). Paths below are relative to [devicemanagement/] unless
    they start with [server/].

    ** Conventions

    A Go [string] or [[]byte] is a [list Z] of byte values ([bs] spells a literal), a
    [time.Time] is the [Z] of its nanoseconds, an [int] is a [Z] with its bounds written out
    where the code depends on them. A function that can fail returns [result E A]; the error
    is the sentinel that [errors.Is] recognises, message texts are not modelled. A method on a
    mutable object is a function from its state to a result and the new state; a method that
    holds a mutex is one step, so a statement about every sequence of calls is one about every
    schedule. A clock is an argument. Code outside the repository is a type class with the
    hypotheses the code relies on: [Mdm.PlistDecoder] (the property list decoder),
    [Storage.PushCertParser] (X.509 push certificates), [PredEval.UnicodeCase] (lower-casing
    beyond ASCII), [DdmDecl.DdmSchema] and [DdmStatus.StatusSchema] (the generated schema),
    [Mdm.CheckinCodec], [Mdm.CommandCodec] and [Service.CommandSchema] (the wire form of
    messages and commands and their generated validators), [Jose.Crypto], [Attest.X509] and
    [AcmeBase.Acme] (signatures, certificates, and the clock, random source, policies,
    authority and registries of the ACME server), [Revocation.StatusCrypto] and [Ca.CaCrypto]
    (X.509 of the registry and of the authority), [Crypt.AEAD] (AES-GCM), [StateClient.Codec]
    and [ScepGrants.GrantCodec] (the JSON of stored records). SHA-256, HMAC, HKDF, base64 and
    DER are computed. An operation of the service is an [srv]: a result and the world it
    leaves, that is the store, the events published and the number of clock readings, since it
    makes several store calls and can fail between them. [DdmDecl.JsonCodec] is the JSON text
    layer the declaration engine is written against; [DdmCodec] gives its instance. A tag
    [@src file lines symbol] before a definition names the code it translates.

    ** Files

    - [Prelude]: error results, tactics ([go_inv], [go_binds], [bool_hyps],
      [split_ifs]), byte strings, record update, sorting, the hint database [go].
    - [GoStrings]: the parts of the packages strings and strconv that the code calls.
    - [OsVersion]: [osversion/], versions and their order.
    - [Support]: [schema/support/support.go], the availability rules of schema keys.
    - [Validation]: [schema/validation/], the collector the generated validators call.
    - [Mdm]: [mdmprotocol/mdm/], channels, identities, push credentials,
      responses; check-in messages, requests and the wire form of commands.
    - [Storage]: [storage/*.go] and [paging/], the data of the storage contract and the
      decisions every store shares.
    - [Replacement]: [storage/replacement.go], the certificate replacement handshake.
    - [InMem]: [storage/inmem/], the whole reference store. [InMemQueue] makes it a transition
      system, states the abstract queue machine and proves the refinement; [InMemDelivery],
      [InMemRegistry], [InMemSafety], [InMemPaging] what follows; [InMemSamples] runs it.
    - [StateStore]: [state/state.go], the transactional store, against the interface
      class its clients use. [RateLimit]: [ratelimit/ratelimit.go], a client of it;
      [Sha256] is the hash of its keys.
    - [Cbor]: [internal/cbor/], decoder, walker and encoder; [CborGrammar] and
      [CborRoundtrip] its theorems.
    - [Utf8], [Float64]: the parts of unicode/utf8, unicode/utf16, float64 and strconv that
      predicates and canonical JSON use.
    - [Json]: the token decoder of encoding/json, the values it reads, and objects read
      into structs. [Canonjson]:
      [internal/canonjson/], canonical JSON; [CanonjsonRead], [CanonjsonSpec] its
      theorems.
    - [PredLexer], [PredParser], [PredEval]: the files of
      [mdmprotocol/ddm/predicate/]; [PredProgress], [PredText], [PredRoundtrip],
      [PredParsed] their theorems.
    - [DdmTypes], [DdmDecl], [DdmEngine], [DdmStatus]: the files of [mdmprotocol/ddm/]:
      rows, tokens and endpoints; declarations as documents and what a device can be sent;
      administration, publication, manifests and what devices are served; status reports. [DdmStore]: [storage/ddm/inmem/], the store under them.
      An engine operation is an [act]: a result and the state it leaves, since it can
      fail after a transaction has committed. [DdmInv], [DdmNotify], [DdmServing],
      [DdmDelivery], [DdmReports] their theorems. [DdmCodec] puts canonical JSON under the
      engine: stored bytes render, and the rendered text reads as the declaration.
    - [ServiceBase], [Service], [ServiceFlow], [ServiceUserAuth]: [server/service/]: errors,
      effects and configuration; authorization, messages and queueing; check-ins,
      connections, replacement and selection as a whole; the digest handshake, with MD5.
      [ServiceSafety] shows that every operation is a run of the store and, with
      [ServiceDelivery] and [ServiceHandshake], what the service guarantees;
      [ServiceSamples] runs it.
    - [Base64]: base64url. [Jose], [Attest]: [pki/acme/jose/] and [pki/acme/attest/].
      [AcmeTypes], [AcmeStore]: the records and policies of [pki/acme/], and
      [storage/acme/inmem/]. [AcmeBase], [AcmeServer], [AcmeIssue]: the handlers of
      [pki/acme/] as programs of atomic actions on a shared world. [AcmeInv]: schedules of
      such programs, a rely-guarantee logic for them, the invariant and the guarantee;
      [AcmeSteps], [AcmeTransactions]: every action keeps them; [AcmeHandlers]: the rules and
      what each handler establishes; [AcmeSafety] the theorems; [AcmeSamples] a device that
      gets its certificate. [AcmeIdentifier]: [pki/acme/identifier.go].
    - [StateClient]: transaction callbacks as a monad and what one that commits has done, on
      which the next components are built. [Revocation]: [pki/revocation/];
      [RevocationSafety] its histories, theorems and a run. [Der]: the
      part of encoding/asn1 that is used; [Ca]: [pki/ca/]. [ScepChallenge],
      [ScepGrants]: [pki/scep/challenge.go] and [grants.go]; [ScepSafety] the histories of
      grants, theorems and a run. [Crypt]: [storage/crypt/].

    ** What is shown

    - Store: every run refines the queue machine (no command is lost, reordered or
      reopened); [Next] hands out the first ready command; a device that polls and
      acknowledges receives every open command once, in order; dedupe keys are unique
      among open commands; a certificate names at most one enrollment and its lookup is
      exact; disabling stops delivery to a device and its user channels; authenticating
      again leaves nothing of the previous enrollment behind; following list cursors
      visits every match once.
    - Replacement: a commit goes back to accepted changes of the attempt begun last; an
      invariant of the handshake; a finished attempt stays finished.
    - State store and rate limiter: an update is all or nothing, listings and pruning are
      exact; the number of admissions in any window is bounded by burst and rate, and an
      error or a refusal charges nothing.
    - CBOR: [Wellformed] accepts exactly a declarative grammar, [Unmarshal] accepts no
      more, values round-trip, the encoding does not depend on the order of map entries.
    - Predicates: parsing ends on every input, the canonical text of a parsed predicate
      parses back to it, evaluation depends on the references only, [IN] is a
      disjunction, the behaviour on nil.
    - Canonical JSON: canonicalization ends, is idempotent, and two texts have the same
      canonical form exactly when they read as the same value.
    - Versions, support rules, identities, responses: order and round trip, equivalence
      with declarative rules, validity of what is resolved or decoded.
    - Declarations: the store stays consistent under every sequence of calls; no
      administrative operation changes what an enrollment is assigned without queueing a
      notification for it; what a manifest advertises is what is served, as a document
      that reads as the declaration with the advertised token, until the declaration is
      deleted, the enrollment asks again or leaves, or its target no longer passes the
      manifest; the compatibility filter ends, delivers with each
      declaration what it refers to and reports what it withholds; tokens name manifests;
      endpoints are read as they are printed; what a status report leaves.
    - Service: in every history of requests a certificate belongs to one device, when imports
      list the certificate they pin in their history and the handler of user authentication
      keeps to the operations of the store; a request with another certificate is refused and
      changes nothing, but for a replacement attempt of the device found to be expired;
      selecting a command
      ends, delivers only what the target supports and discards only what it does not;
      queueing keeps to targets that support the command and reports each; a user's
      challenge is answered once, and the verifier accepts exactly the right digest.

    - ACME: for every number of requests and sweeps and every interleaving of their actions,
      provided distinct draws of the random source differ: a client identifier has at most
      one certificate; every certificate is backed by the attestation, the binding and the
      policy, or by an explicit exemption; a chain is handed out only to the account that
      owns it and once the registries know it; a nonce lets in one request. Requests: what
      is read of one is what its signature covers, short signatures are completed to exactly
      the pairs they come from, a key has one thumbprint.

    - Certificates: a revocation is final; a revocation list served names exactly the
      certificates revoked now, a list number is used for one list, and a list is always to
      be had; a certificate stays within policy and issuer, and its otherNames read back; a
      SCEP grant is worth one request and one certificate, a single-use challenge lets in one
      request. These hold of every history of transactions of any number of replicas and of
      other users of the store, with pruning. Identifiers and HMAC challenges are accepted as
      what they were minted for, until they expire; sealed values open through key rotation.

    ** Bounds and fuel

    Recursion over nested input is structural on the levels the code still allows: in
    [Cbor] [MaxDepth + 1 - depth], in the parser [maxDepth - depth]. The parser's loops
    read a token per round and get the length of the rest of the source plus two as
    fuel; [PredProgress.Parse_total] shows that no input exhausts it, and that more fuel
    changes nothing. [InMemPaging] follows list cursors, and [InMemDelivery] drains a
    queue, with fuel the number of rows or commands left plus one, which the theorems
    show to be enough. [Canonjson] nests on [MaxDepth - depth] and its loops get the length
    of the rest of the text plus one; [CanonjsonSpec.Canonicalize_idempotent] shows that no
    text exhausts it. Shortest float formatting searches precisions up to seventeen
    digits, which always read back. Every round of [ServiceFlow.next_loop] that goes on
    clears an open command, so their number plus one is enough
    ([ServiceDelivery.nextEligible_spec]); [ServiceUserAuth.digest_loop] takes at least one
    byte per round and gets the length of the text. The listing of certificates for a
    revocation list gets one page more than there are records
    ([RevocationSafety.CRL_served]); DER names take two octets or more and [Ca.san_loop]
    gets the length of the text.
    [DdmDecl.asset_loop] gets one pass more than there are entries;
    [DdmDelivery.asset_loop_greatest] shows that it has then reached its fixed point.

    ** Not modelled

    Generated schema types and their validators, the schema generator, HTTP handlers and
    clients, SQL stores, cryptography (CMS, SCEP messages, X.509), the rollover of managed
    certificates ([pki/lifecycle]), logging and configuration are input and output, generated,
    or thin layers over libraries. The coordinator of SQL transactions under the service is
    not modelled: its operations run directly, as they do for a store in memory. Of the ACME
    server the texts of problems, and headers other than the nonce and the location are left
    out; a page loop of revocation gets its number of pages as fuel, and the theorems hold for
    every number. The enrollment flows, the remaining in-memory stores and the blueprint
    builder are the next candidates. *)
From stdpp Require Export gmap strings list sorting.
From Stdlib Require Export ZArith Lia.
From Stdlib Require Import Ascii.

#[global] Open Scope Z_scope.

(** ** Error results

    A Go function that returns [(T, error)] is a [result E T]: the error value
    is the sentinel that [errors.Is] recognises, the formatted text is not
    modelled. *)

Inductive result (E A : Type) : Type :=
| Ok (a : A)
| Err (e : E).
Arguments Ok {E A} _.
Arguments Err {E A} _.

#[export] Instance result_ret E : MRet (result E) := fun A a => Ok a.
#[export] Instance result_bind E : MBind (result E) := fun A B f r =>
  match r with Ok a => f a | Err e => Err e end.

#[export] Instance result_eq_dec `{EqDecision E, EqDecision A} :
  EqDecision (result E A).
Proof. solve_decision. Defined.

(** [reject c e]: the early return [if c { return e }]. *)
Definition reject {E} (c : bool) (e : E) : result E unit :=
  if c then Err e else Ok tt.

Lemma bind_Ok_inv {E A B} (r : result E A) (f : A → result E B) b :
  (r ≫= f) = Ok b → ∃ a, r = Ok a ∧ f a = Ok b.
Proof. destruct r; cbn; [eauto | discriminate]. Qed.

Lemma bind_Err_inv {E A B} (r : result E A) (f : A → result E B) e :
  (r ≫= f) = Err e → r = Err e ∨ ∃ a, r = Ok a ∧ f a = Err e.
Proof. destruct r; cbn; [eauto |]. intros [= ->]. by left. Qed.

Lemma Ok_inv {E A} (a b : A) : @Ok E A a = Ok b → a = b.
Proof. by intros [= ->]. Qed.

Lemma Ok_pair_inv {E A B} (a a' : A) (b b' : B) :
  @Ok E (A * B) (a, b) = Ok (a', b') → a = a' ∧ b = b'.
Proof. by intros [= -> ->]. Qed.

Lemma reject_Ok_inv {E} c (e : E) u : reject c e = Ok u → c = false.
Proof. by destruct c. Qed.

Lemma reject_Err_inv {E} c (e e' : E) : reject c e = Err e' → c = true ∧ e' = e.
Proof. destruct c; cbn; naive_solver. Qed.

(** ** Tactics

    [go_inv H] takes apart a successful run of monadic code: every bind, every
    early return and every match in [H : code = Ok _] is resolved.  *)
Ltac go_step H :=
  lazymatch type of H with
  | (_ ≫= _) = Ok _ =>
      let a := fresh "a" in let H1 := fresh "Hb" in
      apply bind_Ok_inv in H; destruct H as (a & H1 & H)
  | Ok _ = Ok _ => injection H; clear H; intros; subst
  | Err _ = Err _ => injection H; clear H; intros; subst
  | Ok _ = Err _ => discriminate H
  | Err _ = Ok _ => discriminate H
  | reject _ _ = Ok _ => apply reject_Ok_inv in H
  | context [match ?x with _ => _ end] =>
      let E := fresh "Hm" in destruct x eqn:E; simpl in H
  end.
Ltac go_inv H := repeat (go_step H; simplify_eq/=).

(** [go_binds H]: only the binds and the early returns, the branches are left. *)
Ltac go_binds H :=
  lazymatch type of H with
  | (_ ≫= _) = Ok _ =>
      let a := fresh "a" in let H1 := fresh "Hb" in
      apply bind_Ok_inv in H; destruct H as (a & H1 & H);
      lazymatch type of H1 with
      | reject _ _ = Ok _ => apply reject_Ok_inv in H1; try clear a
      | _ => idtac
      end;
      cbv beta in H; go_binds H
  | Ok (_, _) = Ok (_, _) => apply Ok_pair_inv in H; destruct H; subst
  | Ok _ = Ok _ => apply Ok_inv in H; subst
  | _ => idtac
  end.

(** [bool_hyps]: every boolean guard among the hypotheses as the proposition it
    decides. *)
Ltac bool_hyps :=
  repeat match goal with
  | H : _ || _ = false |- _ => apply orb_false_iff in H as [? ?]
  | H : _ && _ = true |- _ => apply andb_true_iff in H as [? ?]
  | H : negb _ = false |- _ => apply negb_false_iff in H
  | H : negb _ = true |- _ => apply negb_true_iff in H
  | H : bool_decide (¬ _) = false |- _ => apply bool_decide_eq_false, dec_stable in H
  | H : bool_decide _ = false |- _ => apply bool_decide_eq_false in H
  | H : bool_decide _ = true |- _ => apply bool_decide_eq_true in H
  | H : (_ =? _) = false |- _ => apply Z.eqb_neq in H
  | H : (_ =? _) = true |- _ => apply Z.eqb_eq in H
  | H : (_ <? _) = false |- _ => apply Z.ltb_ge in H
  | H : (_ <? _) = true |- _ => apply Z.ltb_lt in H
  | H : (_ <=? _) = false |- _ => apply Z.leb_gt in H
  | H : (_ <=? _) = true |- _ => apply Z.leb_le in H
  end.

(** [split_ifs]: case analysis on every remaining conditional of the goal. *)
Ltac split_ifs := repeat (case_match; simplify_eq/=); try done.

(** ** Byte strings

    A Go [string] or [[]byte] is a list of byte values. [bs] spells a literal. *)
Abbreviation bytes := (list Z).

Definition bs (s : string) : bytes :=
  Z.of_nat ∘ nat_of_ascii <$> String.list_ascii_of_string s.

Arguments bs : simpl never.

Definition is_byte (z : Z) : Prop := 0 ≤ z < 256.
#[export] Instance is_byte_dec z : Decision (is_byte z).
Proof. unfold is_byte. apply _. Defined.

(** Lexicographic byte order: Go's [<] on strings. *)
Fixpoint bytes_ltb (x y : bytes) : bool :=
  match x, y with
  | [], [] => false
  | [], _ :: _ => true
  | _ :: _, [] => false
  | a :: x', c :: y' => (a <? c) || ((a =? c) && bytes_ltb x' y')
  end.
Definition bytes_leb (x y : bytes) : bool := negb (bytes_ltb y x).

Lemma bytes_ltb_irrefl x : bytes_ltb x x = false.
Proof.
  induction x as [|a x IH]; [done|]; cbn.
  by rewrite Z.ltb_irrefl, Z.eqb_refl, IH.
Qed.

Lemma bytes_ltb_trans x y z :
  bytes_ltb x y = true → bytes_ltb y z = true → bytes_ltb x z = true.
Proof.
  revert y z; induction x as [|a x IH]; intros [|c y] [|d z]; cbn; try done.
  rewrite !orb_true_iff, !andb_true_iff, !Z.ltb_lt, !Z.eqb_eq.
  intros [?|[-> ?]] [?|[-> ?]]; [left; lia.. | right; eauto].
Qed.

Lemma bytes_ltb_total x y :
  bytes_ltb x y = false → bytes_ltb y x = false → x = y.
Proof.
  revert y; induction x as [|a x IH]; intros [|c y]; cbn; try done.
  rewrite !orb_false_iff, !andb_false_iff, !Z.ltb_ge, !Z.eqb_neq.
  intros [? [?|?]] [? [?|?]]; try lia.
  f_equal; [lia | eauto].
Qed.

(** The non-strict order that [sort.Strings] sorts by. *)
Definition bytes_le (x y : bytes) : Prop := bytes_leb x y = true.
#[export] Instance bytes_le_dec : RelDecision bytes_le.
Proof. intros x y. unfold bytes_le. apply _. Defined.

#[export] Instance bytes_le_total : Total bytes_le.
Proof.
  intros x y. unfold bytes_le, bytes_leb.
  destruct (bytes_ltb y x) eqn:H1; [|by left].
  right. destruct (bytes_ltb x y) eqn:H2; [|done].
  pose proof (bytes_ltb_trans _ _ _ H1 H2) as H.
  by rewrite bytes_ltb_irrefl in H.
Qed.
#[export] Instance bytes_le_trans : Transitive bytes_le.
Proof.
  intros x y z. unfold bytes_le, bytes_leb. rewrite !negb_true_iff. intros H1 H2.
  destruct (bytes_ltb z x) eqn:H; [|done].
  destruct (bytes_ltb y z) eqn:H3.
  - by rewrite (bytes_ltb_trans _ _ _ H3 H) in H1.
  - pose proof (bytes_ltb_total _ _ H3 H2) as ->. congruence.
Qed.
#[export] Instance bytes_le_antisymm : AntiSymm (=) bytes_le.
Proof.
  intros x y. unfold bytes_le, bytes_leb. rewrite !negb_true_iff.
  intros. by apply bytes_ltb_total.
Qed.

Definition sort_strings : list bytes → list bytes := merge_sort bytes_le.

Lemma sort_strings_sorted l : StronglySorted bytes_le (sort_strings l).
Proof. apply Sorted_StronglySorted; [apply _|]. apply Sorted_merge_sort; apply _. Qed.
Lemma sort_strings_perm l : sort_strings l ≡ₚ l.
Proof. apply merge_sort_Permutation. Qed.

(** ** Sorted key lists

    Listings by a cursor: the keys after a key of a sorted list are what follows it. *)
Section FilterLists.
Context {A : Type} (P : A → Prop) `{!∀ x, Decision (P x)}.

Lemma filter_all (l : list A) : Forall P l → filter P l = l.
Proof. induction 1; [done|]. rewrite filter_cons_True by done. by f_equal. Qed.
Lemma filter_none (l : list A) : Forall (λ x, ¬ P x) l → filter P l = [].
Proof. induction 1; [done|]. by rewrite filter_cons_False. Qed.
Lemma filter_sorted (R : relation A) (l : list A) :
  StronglySorted R l → StronglySorted R (filter P l).
Proof.
  induction 1 as [|x l Hl IH Hx]; [constructor|]. rewrite filter_cons.
  case_decide; [|done]. constructor; [done|].
  apply Forall_forall. intros y [_ Hy]%list_elem_of_filter. by eapply (proj1 (Forall_forall _ _)).
Qed.
End FilterLists.

Lemma bytes_lt_le_ne x y : bytes_ltb x y = true ↔ bytes_le x y ∧ x ≠ y.
Proof.
  unfold bytes_le, bytes_leb. rewrite negb_true_iff. split.
  - intros H. split.
    + destruct (bytes_ltb y x) eqn:H'; [|done].
      pose proof (bytes_ltb_trans _ _ _ H H'). by rewrite bytes_ltb_irrefl in *.
    + intros ->. by rewrite bytes_ltb_irrefl in H.
  - intros [H Hne]. destruct (bytes_ltb x y) eqn:H'; [done|]. by destruct Hne; apply bytes_ltb_total.
Qed.

Lemma sort_strings_unique l l' : l ≡ₚ l' → StronglySorted bytes_le l' → sort_strings l = l'.
Proof.
  intros Hp Hs. apply (StronglySorted_unique bytes_le); [apply sort_strings_sorted|done|].
  by rewrite sort_strings_perm.
Qed.

Lemma filter_after_key pre c rest :
  StronglySorted bytes_le (pre ++ c :: rest) → NoDup (pre ++ c :: rest) →
  filter (λ k, bytes_ltb c k = true) (pre ++ c :: rest) = rest.
Proof.
  intros Hs Hn. apply StronglySorted_app in Hs as (Hle & _ & [_ Hc]%StronglySorted_inv).
  apply NoDup_app in Hn as (_ & Hd & [Hck _]%NoDup_cons).
  rewrite filter_app, filter_cons_False by (by rewrite bytes_ltb_irrefl).
  rewrite filter_none, filter_all; [done| |]; apply Forall_forall; intros k Hk.
  - apply bytes_lt_le_ne. split; [by eapply (proj1 (Forall_forall _ _))|]. by intros ->.
  - rewrite bytes_lt_le_ne. intros [H1 H2]. apply H2. apply (anti_symm bytes_le); [done|].
    apply Hle; [done|by left].
Qed.

(** ** Field update

    [r <| f := v |>] is the record [r] with field [f] replaced, the Go assignment
    [r.f = v]. A record declares its [Eta] expansion once; the setters follow. *)
Class Eta (R : Type) := eta : R → R.
Class Setter {R T : Type} (p : R → T) := setf : (T → T) → R → R.
Arguments setf {R T} p {_} _ !_ /.

Ltac solve_setter :=
  lazymatch goal with
  | |- @Setter ?R ?T ?p =>
      let f := fresh "f" in let r := fresh "r" in
      intros f r;
      let e := eval hnf in (@eta R _ r) in
      lazymatch eval pattern (p r) in e with
      | ?F _ => let t := eval cbv beta in (F (f (p r))) in exact t
      end
  end.
#[export] Hint Extern 0 (Setter _) => solve_setter : typeclass_instances.

Declare Scope go_scope.
Delimit Scope go_scope with go.
#[global] Open Scope go_scope.
Notation "r <| p := v |>" := (setf p (λ _, v) r)
  (at level 8, left associativity, format "r <| p := v |>") : go_scope.

(** ** Time

    A [time.Time] is the number of nanoseconds since the zero time, so
    [IsZero] is equality with [0], [Before] and [After] are the integer orders,
    and a [time.Duration] is a number of nanoseconds. *)
Abbreviation Time := Z.
Definition time_is_zero (t : Time) : bool := t =? 0.
Definition Microsecond : Z := 1000.
Definition Second : Z := 1000000000.
Definition Minute : Z := 60 * Second.
Definition Hour : Z := 60 * Minute.

(** ** Stable sorting

    [sort.SliceStable] and, on unique keys, [sort.Slice] and [slices.SortFunc]:
    the stable insertion sort of a boolean comparison. *)
Section StableSort.
Context {A : Type} (leb : A → A → bool).

Fixpoint insert_sorted (x : A) (l : list A) : list A :=
  match l with
  | [] => [x]
  | y :: l' => if leb x y then x :: l else y :: insert_sorted x l'
  end.
Definition stable_sort (l : list A) : list A := foldr insert_sorted [] l.

Lemma insert_sorted_perm x l : insert_sorted x l ≡ₚ x :: l.
Proof.
  induction l as [|y l IH]; cbn; [done|]. destruct (leb x y); [done|].
  rewrite IH. by rewrite Permutation_swap.
Qed.
Lemma stable_sort_perm l : stable_sort l ≡ₚ l.
Proof. induction l as [|x l IH]; cbn; [done|]. by rewrite insert_sorted_perm, IH. Qed.

Context (leb_total : ∀ x y, leb x y = true ∨ leb y x = true)
        (leb_trans : ∀ x y z, leb x y = true → leb y z = true → leb x z = true).

Lemma insert_sorted_sorted x l :
  StronglySorted (λ a b, leb a b = true) l →
  StronglySorted (λ a b, leb a b = true) (insert_sorted x l).
Proof using leb_total leb_trans.
  induction 1 as [|y l Hl IH Hy]; cbn; [by repeat constructor|].
  destruct (leb x y) eqn:Hxy.
  - constructor; [by constructor|]. constructor; [done|].
    eapply Forall_impl; [done|]. cbn. eauto.
  - constructor; [done|]. rewrite insert_sorted_perm. constructor; [|done].
    destruct (leb_total x y); [congruence | done].
Qed.
Lemma stable_sort_sorted l : StronglySorted (λ a b, leb a b = true) (stable_sort l).
Proof using leb_total leb_trans.
  induction l as [|x l IH]; cbn; [constructor|]. by apply insert_sorted_sorted.
Qed.
End StableSort.

(** A sorted list stays as it is. *)
Lemma stable_sort_sorted_id {A} (leb : A → A → bool) l :
  StronglySorted (λ a b, leb a b = true) l → stable_sort leb l = l.
Proof.
  induction 1 as [|x l Hl IH Hx]; [done|]. unfold stable_sort in *. cbn [foldr]. rewrite IH. destruct l as [|y l]; [done|].
  apply Forall_cons in Hx as [Hxy _]. cbn. by rewrite Hxy.
Qed.

(** ** Automation

    The database [go]: facts on orders, sorting and results that close common side
    conditions. *)
Create HintDb go.
#[export] Hint Resolve sort_strings_sorted sort_strings_perm stable_sort_perm : go.
#[export] Hint Rewrite bytes_ltb_irrefl Z.eqb_refl Z.ltb_irrefl : go.
