(* ===== verification/GoStrings.v ===== *)
(** * Go's string helpers

    The parts of the Go packages [strings] and [strconv] that the modelled code
    calls, on byte strings: trimming, splitting, prefix, suffix and substring
    tests, ASCII case mapping, [strconv.Atoi] and [strconv.Itoa]. They are the
    language's library, so no definition of this file maps to a line of the
    repository; the components below are written against them. *)
From S2P Require Import Prelude.

(** ** Characters *)

Definition is_digit (c : Z) : bool := (48 <=? c) && (c <=? 57).
Definition is_upper (c : Z) : bool := (65 <=? c) && (c <=? 90).
Definition is_lower (c : Z) : bool := (97 <=? c) && (c <=? 122).
Definition upper_char (c : Z) : Z := if is_lower c then c - 32 else c.
Definition lower_char (c : Z) : Z := if is_upper c then c + 32 else c.

(** [strings.ToUpper] and [strings.ToLower] on ASCII input. *)
Definition ascii_upper (s : bytes) : bytes := upper_char <$> s.
Definition ascii_lower (s : bytes) : bytes := lower_char <$> s.

(** ** Prefixes, suffixes, substrings *)

Fixpoint has_prefix (s p : bytes) {struct p} : bool :=
  match p, s with
  | [], _ => true
  | _ :: _, [] => false
  | a :: p', c :: s' => (a =? c) && has_prefix s' p'
  end.
Definition has_suffix (s p : bytes) : bool := has_prefix (reverse s) (reverse p).
Fixpoint contains (s p : bytes) : bool :=
  has_prefix s p || match s with [] => false | _ :: s' => contains s' p end.

Lemma has_prefix_spec s p : has_prefix s p = true ↔ ∃ r, s = p ++ r.
Proof.
  revert s; induction p as [|a p IH]; intros s; cbn.
  - split; [eauto | done].
  - destruct s as [|c s]; [split; [done | by intros [r ?]]|].
    rewrite andb_true_iff, Z.eqb_eq, IH. split.
    + intros [-> [r ->]]. by exists r.
    + intros [r [= -> ->]]. eauto.
Qed.

Lemma has_prefix_app p r : has_prefix (p ++ r) p = true.
Proof. apply has_prefix_spec. eauto. Qed.

Lemma has_suffix_spec s p : has_suffix s p = true ↔ ∃ r, s = r ++ p.
Proof.
  unfold has_suffix. rewrite has_prefix_spec. split; intros [r Hr].
  - exists (reverse r). apply (f_equal reverse) in Hr.
    by rewrite reverse_involutive, reverse_app, reverse_involutive in Hr.
  - exists (reverse r). by rewrite Hr, reverse_app.
Qed.

Lemma contains_spec s p : contains s p = true ↔ ∃ u v, s = u ++ p ++ v.
Proof.
  induction s as [|c s IH]; cbn; rewrite orb_true_iff, has_prefix_spec.
  - split; [intros [[r Hr]|?]; [|done] | intros (u & v & H); left].
    + exists [], r. done.
    + symmetry in H. apply app_eq_nil in H as [-> H].
      apply app_eq_nil in H as [-> ->]. by exists [].
  - rewrite IH. split.
    + intros [[r Hr]|(u & v & ->)]; [exists [], r; done | by exists (c :: u), v].
    + intros ([|d u] & v & H); cbn in H; [left; eauto | right].
      injection H as <- ->. eauto.
Qed.

(** ** Space trimming

    [unicode.IsSpace] holds of fourteen ranges of runes; [space_encodings] lists
    their UTF-8 encodings. UTF-8 is self-synchronising, so dropping an encoding
    from either end is what [strings.TrimSpace] does. *)
Definition space_encodings : list bytes :=
  [[9]; [10]; [11]; [12]; [13]; [32]; [194; 133]; [194; 160]; [225; 154; 128];
   [226; 128; 128]; [226; 128; 129]; [226; 128; 130]; [226; 128; 131];
   [226; 128; 132]; [226; 128; 133]; [226; 128; 134]; [226; 128; 135];
   [226; 128; 136]; [226; 128; 137]; [226; 128; 138]; [226; 128; 168];
   [226; 128; 169]; [226; 128; 175]; [226; 129; 159]; [227; 128; 128]].

Fixpoint strip_first (es : list bytes) (s : bytes) : option bytes :=
  match es with
  | [] => None
  | e :: es' => if has_prefix s e then Some (drop (length e) s) else strip_first es' s
  end.
Fixpoint trim_fuel (es : list bytes) (fuel : nat) (s : bytes) : bytes :=
  match fuel with
  | O => s
  | S f => match strip_first es s with None => s | Some s' => trim_fuel es f s' end
  end.
Definition trim_left (s : bytes) : bytes := trim_fuel space_encodings (length s) s.
Definition trim_right (s : bytes) : bytes :=
  reverse (trim_fuel (reverse <$> space_encodings) (length s) (reverse s)).
Definition trim_space (s : bytes) : bytes := trim_right (trim_left s).

(** ** Splitting *)

(** [strings.Split(s, sep)] for a one-byte separator; never empty. *)
Fixpoint split_on (sep : Z) (s : bytes) : list bytes :=
  match s with
  | [] => [[]]
  | c :: s' =>
      if c =? sep then [] :: split_on sep s'
      else match split_on sep s' with
           | [] => [[c]]
           | w :: ws => (c :: w) :: ws
           end
  end.

(** The part of [s] before the first [sep]: the [before] of [strings.Cut]. *)
Fixpoint cut_before (sep : Z) (s : bytes) : bytes :=
  match s with
  | [] => []
  | c :: s' => if c =? sep then [] else c :: cut_before sep s'
  end.

Lemma split_on_nonempty sep s : split_on sep s ≠ [].
Proof. destruct s; cbn; [done|]. by split_ifs. Qed.

Lemma split_on_cons_ne sep c s w ws :
  c ≠ sep → split_on sep s = w :: ws → split_on sep (c :: s) = (c :: w) :: ws.
Proof. intros Hc Hs. cbn. by rewrite (proj2 (Z.eqb_neq _ _) Hc), Hs. Qed.

Lemma split_on_app sep w s :
  Forall (λ c, c ≠ sep) w → split_on sep (w ++ sep :: s) = w :: split_on sep s.
Proof.
  induction 1 as [|c w Hc _ IH]; cbn; [by rewrite Z.eqb_refl|].
  by rewrite (proj2 (Z.eqb_neq _ _) Hc), IH.
Qed.
Lemma split_on_last sep w : Forall (λ c, c ≠ sep) w → split_on sep w = [w].
Proof.
  induction 1 as [|c w Hc _ IH]; cbn; [done|].
  by rewrite (proj2 (Z.eqb_neq _ _) Hc), IH.
Qed.

(** ** Decimal integers *)

Definition max_int64 : Z := 9223372036854775807.
Definition min_int64 : Z := -9223372036854775808.

Definition dec_value (ds : bytes) : Z := foldl (λ a d, a * 10 + (d - 48)) 0 ds.
Definition all_digits (ds : bytes) : bool := forallb is_digit ds.

(** An optional leading sign: whether it is a minus, and the rest. *)
Definition split_sign (s : bytes) : bool * bytes :=
  match s with
  | [] => (false, [])
  | c :: r => if c =? 45 then (true, r) else if c =? 43 then (false, r) else (false, s)
  end.

(** [strconv.Atoi]: an optional sign, at least one digit, within [int]. *)
Definition atoi (s : bytes) : option Z :=
  let '(neg, ds) := split_sign s in
  if bool_decide (ds = []) || negb (all_digits ds) then None
  else
    let v := if (neg : bool) then - dec_value ds else dec_value ds in
    if (v <? min_int64) || (max_int64 <? v) then None else Some v.

Lemma atoi_range s n : atoi s = Some n → min_int64 ≤ n ≤ max_int64.
Proof.
  unfold atoi. destruct (split_sign s) as [neg ds]. destruct (_ || _); [done|].
  set (v := if neg then _ else _). destruct ((v <? min_int64) || (max_int64 <? v)) eqn:E; [done|].
  intros [= <-]. apply orb_false_iff in E as [E1 E2]. apply Z.ltb_ge in E1, E2. lia.
Qed.

(** Decimal digits of a non-negative integer. *)
Fixpoint utoa_fuel (fuel : nat) (n : Z) (acc : bytes) : bytes :=
  match fuel with
  | O => acc
  | S f =>
      let acc' := (48 + n mod 10) :: acc in
      if n <? 10 then acc' else utoa_fuel f (n / 10) acc'
  end.
Definition utoa (n : Z) : bytes := utoa_fuel (S (Z.to_nat (Z.log2 n))) n [].

(** [strconv.Itoa] and the verb [%d]. *)
Definition itoa (n : Z) : bytes := if n <? 0 then 45 :: utoa (- n) else utoa n.

Lemma dec_value_app ds d : dec_value (ds ++ [d]) = dec_value ds * 10 + (d - 48).
Proof. unfold dec_value. by rewrite foldl_app. Qed.

Lemma foldl_dec_value a ds :
  foldl (λ a d, a * 10 + (d - 48)) a ds = a * 10 ^ Z.of_nat (length ds) + dec_value ds.
Proof.
  induction ds as [|d ds IH] using rev_ind.
  - cbn. lia.
  - rewrite foldl_app, dec_value_app, length_app. cbn [foldl]. rewrite IH.
    rewrite Nat2Z.inj_add, Z.pow_add_r by lia. cbn. lia.
Qed.

Lemma is_digit_spec c : is_digit c = true ↔ 48 ≤ c ≤ 57.
Proof. unfold is_digit. rewrite andb_true_iff, !Z.leb_le. lia. Qed.

Lemma utoa_fuel_spec fuel n acc :
  0 ≤ n < 2 ^ Z.of_nat fuel →
  ∃ ds, utoa_fuel fuel n acc = ds ++ acc ∧ (1 ≤ fuel → ds ≠ [])%nat ∧
        all_digits ds = true ∧ dec_value ds = n.
Proof.
  revert n acc; induction fuel as [|f IH]; intros n acc Hn.
  { exists []. cbn in *. repeat split; try lia. }
  cbn [utoa_fuel].
  assert (Hd : is_digit (48 + n mod 10) = true).
  { apply is_digit_spec. pose proof (Z.mod_pos_bound n 10). lia. }
  destruct (Z.ltb_spec n 10).
  - exists [48 + n mod 10]. rewrite Z.mod_small by lia.
    rewrite Z.mod_small in Hd by lia.
    split; [done|]. split; [done|]. cbn. rewrite Hd. split; [done|]. lia.
  - destruct (IH (n / 10) (48 + n mod 10 :: acc)) as (ds & -> & _ & Ha & Hv).
    { rewrite Nat2Z.inj_succ, Z.pow_succ_r in Hn by lia.
      split; [apply Z.div_pos; lia|]. apply Z.div_lt_upper_bound; lia. }
    exists (ds ++ [48 + n mod 10]). rewrite <-app_assoc. split; [done|].
    split; [by destruct ds|]. unfold all_digits in *.
    rewrite forallb_app, Ha, dec_value_app, Hv. cbn. rewrite Hd.
    split; [done|]. pose proof (Z.div_mod n 10). lia.
Qed.

Lemma itoa_spec n :
  0 ≤ n → itoa n ≠ [] ∧ all_digits (itoa n) = true ∧ dec_value (itoa n) = n.
Proof.
  intros Hn. unfold itoa. rewrite (proj2 (Z.ltb_ge n 0)) by lia. unfold utoa.
  destruct (utoa_fuel_spec (S (Z.to_nat (Z.log2 n))) n []) as (ds & -> & H1 & H2 & H3).
  { split; [done|]. rewrite Nat2Z.inj_succ, Z2Nat.id by apply Z.log2_nonneg.
    destruct (decide (n = 0)) as [->|]; [done|]. apply Z.log2_spec. lia. }
  rewrite app_nil_r. split; [apply H1; lia | done].
Qed.

(** No leading zero. *)
Lemma utoa_fuel_head fuel : ∀ n acc, 0 < n < 2 ^ Z.of_nat fuel → head (utoa_fuel fuel n acc) ≠ Some 48.
Proof.
  induction fuel as [|f IH]; intros n acc Hn; [cbn in Hn; lia|]. cbn [utoa_fuel]. destruct (Z.ltb_spec n 10).
  - cbn. rewrite Z.mod_small by lia. intros [= E]. lia.
  - apply IH. rewrite Nat2Z.inj_succ, Z.pow_succ_r in Hn by lia.
    split; [apply Z.div_str_pos; lia|apply Z.div_lt_upper_bound; lia].
Qed.

Lemma itoa_head n : 0 < n → head (itoa n) ≠ Some 48.
Proof.
  intros Hn. unfold itoa. rewrite (proj2 (Z.ltb_ge n 0)) by lia. apply utoa_fuel_head. split; [done|].
  rewrite Nat2Z.inj_succ, Z2Nat.id by apply Z.log2_nonneg. apply Z.log2_spec. lia.
Qed.

Lemma all_digits_Forall ds : all_digits ds = true ↔ Forall (λ c, 48 ≤ c ≤ 57) ds.
Proof.
  unfold all_digits. rewrite forallb_forall, Forall_forall.
  split; intros H x Hx; apply is_digit_spec, H; by apply list_elem_of_In.
Qed.

Lemma split_sign_digits ds : all_digits ds = true → split_sign ds = (false, ds).
Proof.
  intros H%all_digits_Forall. destruct H as [|c ds Hc _]; [done|]; cbn.
  rewrite (proj2 (Z.eqb_neq c 45)) by lia. by rewrite (proj2 (Z.eqb_neq c 43)) by lia.
Qed.

(** Reading back what [itoa] prints. *)
Lemma atoi_itoa n : 0 ≤ n ≤ max_int64 → atoi (itoa n) = Some n.
Proof.
  intros Hn. destruct (itoa_spec n) as (Hne & Hd & Hv); [lia|].
  unfold atoi. rewrite split_sign_digits by done.
  rewrite Hd, bool_decide_false, Hv by done. cbn.
  rewrite (proj2 (Z.ltb_ge n min_int64)) by (unfold min_int64; lia).
  by rewrite (proj2 (Z.ltb_ge max_int64 n)) by lia.
Qed.

(** ** Trimming leaves printable ASCII alone *)

Definition is_graph (c : Z) : Prop := 33 ≤ c ≤ 126.

Lemma strip_first_none es c s :
  forallb (λ e, match e with [] => false | d :: _ => (d <=? 32) || (127 <? d) end) es = true →
  is_graph c → strip_first es (c :: s) = None.
Proof.
  intros Hes Hc. induction es as [|e es IH]; [done|].
  cbn in Hes. apply andb_true_iff in Hes as [He Hes]. destruct e as [|d e]; [done|].
  cbn. rewrite orb_true_iff, Z.leb_le, Z.ltb_lt in He. unfold is_graph in Hc.
  rewrite (proj2 (Z.eqb_neq d c)) by lia. cbn. by apply IH.
Qed.

Lemma trim_fuel_none es n s : strip_first es s = None → trim_fuel es n s = s.
Proof. intros H. destruct n; [done|]. cbn. by rewrite H. Qed.

Lemma trim_space_graph c s d t :
  c :: s = t ++ [d] → is_graph c → is_graph d → trim_space (c :: s) = c :: s.
Proof.
  intros E Hc Hd. unfold trim_space, trim_left.
  rewrite trim_fuel_none by (by apply strip_first_none). rewrite E.
  unfold trim_right. rewrite reverse_app. cbn [app reverse].
  rewrite trim_fuel_none; [by rewrite reverse_app, reverse_involutive|].
  by apply (strip_first_none (reverse <$> space_encodings) d (reverse t)).
Qed.

Arguments itoa : simpl never.
Arguments atoi : simpl never.
Arguments trim_space : simpl never.

(** ** Prefixes *)

(** The longest prefix of characters that satisfy [p], and the rest. *)
Fixpoint span (p : Z → bool) (s : bytes) : bytes * bytes :=
  match s with
  | c :: s' => if p c then let '(w, r) := span p s' in (c :: w, r) else ([], s)
  | [] => ([], [])
  end.

(** Text at which a run of [p] characters ends. *)
Definition stops (p : Z → bool) (r : bytes) : Prop := match r with [] => True | c :: _ => p c = false end.

Lemma span_stop p w r : forallb p w = true → stops p r → span p (w ++ r) = (w, r).
Proof.
  intros Hw Hr. induction w as [|c w IH]; cbn in *.
  - destruct r as [|c r]; [done|]. cbn in *. by rewrite Hr.
  - apply andb_true_iff in Hw as [-> Hw]. by rewrite (IH Hw).
Qed.

Lemma span_app p s : ∀ w r, span p s = (w, r) → s = w ++ r ∧ forallb p w = true ∧ stops p r.
Proof.
  induction s as [|c s IH]; intros w r H; cbn in H; [by simplify_eq|].
  destruct (p c) eqn:Hp; [|simplify_eq; by cbn].
  destruct (span p s) as [w' r'] eqn:E. destruct (IH w' r' eq_refl) as (-> & Hw & Hr).
  injection H as <- <-. cbn. by rewrite Hp, Hw.
Qed.
