(* ===== verification/OsVersion.v ===== *)
(** * Operating system versions: [devicemanagement/osversion]

    Parsing, printing and comparing dotted Apple OS versions. The theorems: the
    comparison is a total order whose equality is equality of versions, every
    parsed component is a non-negative [int], and parsing reads back what
    [String] prints. *)
From S2P Require Import Prelude GoStrings.

(* @src devicemanagement/osversion/version.go 11-13 Version *)
Record Version := mkVersion { Major : Z; Minor : Z; Patch : Z }.
#[export] Instance Version_eq_dec : EqDecision Version.
Proof. solve_decision. Defined.

(* @src devicemanagement/osversion/version.go 16-16 ErrVersion *)
Inductive verr := ErrVersion.

(** The body of the loop of [Parse] over the dotted parts: the [i]th part is
    assigned to the [i]th component. *)
(* @src devicemanagement/osversion/version.go 29-42 Parse *)
Fixpoint parse_parts (i : nat) (parts : list bytes) (v : Version) : result verr Version :=
  match parts with
  | [] => Ok v
  | p :: ps =>
      match atoi p with
      | None => Err ErrVersion
      | Some n =>
          if n <? 0 then Err ErrVersion
          else parse_parts (S i) ps
                 match i with
                 | 0%nat => mkVersion n (Minor v) (Patch v)
                 | 1%nat => mkVersion (Major v) n (Patch v)
                 | 2%nat => mkVersion (Major v) (Minor v) n
                 | _ => v
                 end
      end
  end.

(* @src devicemanagement/osversion/version.go 19-44 Parse *)
Definition Parse (s0 : bytes) : result verr Version :=
  let s := trim_space s0 in
  if bool_decide (s = []) then Err ErrVersion
  else
    let parts := split_on 46 s in
    if (3 <? Z.of_nat (length parts)) then Err ErrVersion
    else parse_parts 0 parts (mkVersion 0 0 0).

(* @src devicemanagement/osversion/version.go 56-56 New *)
Definition New (major minor patch : Z) : Version := mkVersion major minor patch.

(* @src devicemanagement/osversion/version.go 59-59 Version.IsZero *)
Definition IsZero (v : Version) : bool := bool_decide (v = mkVersion 0 0 0).

(* @src devicemanagement/osversion/version.go 62-67 Version.String *)
Definition String (v : Version) : bytes :=
  if negb (Patch v =? 0)
  then itoa (Major v) ++ 46 :: itoa (Minor v) ++ 46 :: itoa (Patch v)
  else itoa (Major v) ++ 46 :: itoa (Minor v).

(* @src devicemanagement/osversion/version.go 82-90 cmp *)
Definition cmp (a b : Z) : Z := if a <? b then -1 else if b <? a then 1 else 0.

(* @src devicemanagement/osversion/version.go 70-79 Version.Compare *)
Definition Compare (v o : Version) : Z :=
  if negb (Major v =? Major o) then cmp (Major v) (Major o)
  else if negb (Minor v =? Minor o) then cmp (Minor v) (Minor o)
  else cmp (Patch v) (Patch o).

(** ** Order *)

(** The specification of [Compare]: the lexicographic order on components. *)
Definition version_lt (v o : Version) : Prop :=
  Major v < Major o ∨
  (Major v = Major o ∧ (Minor v < Minor o ∨ (Minor v = Minor o ∧ Patch v < Patch o))).

Lemma cmp_spec a b :
  (a < b ∧ cmp a b = -1) ∨ (a = b ∧ cmp a b = 0) ∨ (b < a ∧ cmp a b = 1).
Proof. unfold cmp. destruct (Z.ltb_spec a b), (Z.ltb_spec b a); lia. Qed.

Lemma Compare_cases v o :
  (Compare v o = -1 ∧ version_lt v o) ∨ (Compare v o = 0 ∧ v = o) ∨
  (Compare v o = 1 ∧ version_lt o v).
Proof.
  destruct v as [a b c], o as [a' b' c']. unfold Compare, version_lt; cbn.
  destruct (Z.eqb_spec a a'); cbn;
    [destruct (Z.eqb_spec b b'); cbn; [pose proof (cmp_spec c c') | pose proof (cmp_spec b b')]
    | pose proof (cmp_spec a a')]; subst;
    repeat (match goal with H : _ ∨ _ |- _ => destruct H as [H|H] end);
    destruct_and?; simplify_eq; try lia.
  right; left. by subst.
Qed.

Lemma version_lt_irrefl v : ¬ version_lt v v.
Proof. unfold version_lt. lia. Qed.
Lemma version_lt_trans u v w : version_lt u v → version_lt v w → version_lt u w.
Proof. unfold version_lt. lia. Qed.

(** [Version.Compare] is exactly the three-way comparison of the lexicographic
    order on (major, minor, patch): -1, 0 and 1 characterise strictly older, equal
    and strictly newer versions, and swapping the arguments negates the result. *)
Theorem Compare_total_order v o :
  (Compare v o = -1 ↔ version_lt v o) ∧ (Compare v o = 0 ↔ v = o) ∧
  (Compare v o = 1 ↔ version_lt o v) ∧ Compare o v = - Compare v o.
Proof.
  pose proof (version_lt_irrefl v). pose proof (version_lt_trans v o v).
  assert (v = o → ¬ version_lt v o ∧ ¬ version_lt o v) by (intros <-; done).
  destruct (Compare_cases v o) as [[-> ?]|[[-> ?]|[-> ?]]],
    (Compare_cases o v) as [[-> ?]|[[-> ?]|[-> ?]]]; naive_solver.
Qed.

(** ** Parsing *)

Lemma parse_parts_range i ps v w :
  parse_parts i ps v = Ok w →
  (0 ≤ Major v ≤ max_int64 ∧ 0 ≤ Minor v ≤ max_int64 ∧ 0 ≤ Patch v ≤ max_int64) →
  0 ≤ Major w ≤ max_int64 ∧ 0 ≤ Minor w ≤ max_int64 ∧ 0 ≤ Patch w ≤ max_int64.
Proof.
  revert i v; induction ps as [|p ps IH]; intros i v H Hv; cbn in H; [by simplify_eq|].
  destruct (atoi p) as [n|] eqn:Ha; [|done]. destruct (Z.ltb_spec n 0); [done|].
  eapply IH; [exact H|].
  assert (n ≤ max_int64).
  { by apply atoi_range in Ha as [_ ?]. }
  destruct i as [|[|[|?]]]; cbn; lia.
Qed.

(** Every component that [Parse] accepts is a non-negative [int]. *)
Lemma Parse_range s v :
  Parse s = Ok v →
  0 ≤ Major v ≤ max_int64 ∧ 0 ≤ Minor v ≤ max_int64 ∧ 0 ≤ Patch v ≤ max_int64.
Proof.
  unfold Parse. case_match; [done|]. case_match; [done|]. intros H2.
  eapply parse_parts_range; [done|]. cbn. unfold max_int64. lia.
Qed.

Lemma itoa_graph n : 0 ≤ n → Forall (λ c, 48 ≤ c ≤ 57) (itoa n) ∧ itoa n ≠ [].
Proof. intros Hn. destruct (itoa_spec n Hn) as (? & H & ?). by rewrite <-all_digits_Forall. Qed.

Lemma itoa_no_dot n : 0 ≤ n → Forall (λ c, c ≠ 46) (itoa n).
Proof. intros Hn. eapply Forall_impl; [by apply itoa_graph|]. cbn. lia. Qed.

Lemma trim_space_dotted a r b :
  0 ≤ a → 0 ≤ b → trim_space (itoa a ++ r ++ itoa b) = itoa a ++ r ++ itoa b.
Proof.
  intros Ha Hb. destruct (itoa_graph a Ha) as [Fa Na], (itoa_graph b Hb) as [Fb Nb].
  destruct (itoa a) as [|c s]; [done|].
  destruct (exists_last Nb) as (t & d & E). rewrite E in *.
  rewrite <-app_comm_cons.
  apply (trim_space_graph c _ d (c :: s ++ r ++ t)).
  - cbn. by rewrite <-!app_assoc.
  - inversion Fa; subst. unfold is_graph. lia.
  - apply Forall_app in Fb as [_ Fb]. inversion Fb; subst. unfold is_graph. lia.
Qed.

(** Parsing reads back what [String] prints, for every version whose
    components are non-negative [int]s. *)
Theorem Parse_String a b c :
  0 ≤ a ≤ max_int64 → 0 ≤ b ≤ max_int64 → 0 ≤ c ≤ max_int64 →
  Parse (String (New a b c)) = Ok (New a b c).
Proof.
  intros Ha Hb Hc. unfold Parse, String, New; cbn [Major Minor Patch].
  destruct (Z.eqb_spec c 0) as [->|Hc0]; cbn [negb].
  - change (46 :: itoa b) with ([46] ++ itoa b). rewrite trim_space_dotted by lia.
    rewrite bool_decide_false by (destruct (itoa a); done). cbn [app].
    rewrite split_on_app, split_on_last by (apply itoa_no_dot; lia). cbn.
    rewrite !atoi_itoa by lia. by rewrite !(proj2 (Z.ltb_ge _ 0)) by lia.
  - change (46 :: itoa b ++ 46 :: itoa c) with ((46 :: itoa b) ++ [46] ++ itoa c).
    rewrite (app_assoc (46 :: itoa b)). rewrite trim_space_dotted by lia.
    rewrite bool_decide_false by (destruct (itoa a); done).
    rewrite <-app_assoc. cbn [app].
    rewrite !split_on_app, split_on_last by (apply itoa_no_dot; lia). cbn.
    rewrite !atoi_itoa by lia. by rewrite !(proj2 (Z.ltb_ge _ 0)) by lia.
Qed.

Lemma Parse_String_witness : Parse (String (New 26 4 1)) = Ok (New 26 4 1).
Proof. apply (Parse_String 26 4 1); unfold max_int64; lia. Defined.
