(* ===== verification/Support.v ===== *)
(** * Platform support metadata: [devicemanagement/schema/support]

    The availability check every command, profile key and declaration goes
    through before it is queued for a device ([Entry.Check]), the support tier of
    a release ([Target.Tier]), the table registry and the mapping from product
    types to operating systems. The theorems: the check accepts a target exactly
    when the declarative availability conditions hold; a verdict, its rule and its
    deprecation flag are consistent; tiers are upward closed. *)
From S2P Require Import Prelude GoStrings OsVersion.

(* @src devicemanagement/schema/support/support.go 14-23 OS *)
Definition IOS : bytes := bs "iOS".
Definition MacOS : bytes := bs "macOS".
Definition TvOS : bytes := bs "tvOS".
Definition VisionOS : bytes := bs "visionOS".
Definition WatchOS : bytes := bs "watchOS".

(* @src devicemanagement/schema/support/support.go 26-26 AllOS *)
Definition AllOS : list bytes := [IOS; MacOS; TvOS; VisionOS; WatchOS].

(* @src devicemanagement/schema/support/support.go 29-35 Channel *)
Definition ChannelDevice : bytes := bs "device".
Definition ChannelUser : bytes := bs "user".

(* @src devicemanagement/schema/support/support.go 39-47 Mode *)
Definition ModeAllowed : bytes := bs "allowed".
Definition ModeRequired : bytes := bs "required".
Definition ModeForbidden : bytes := bs "forbidden".
Definition ModeIgnored : bytes := bs "ignored".

(** A nil slice is [None]: the check distinguishes a missing list from an empty
    one. A [*bool] is an [option bool]. *)
(* @src devicemanagement/schema/support/support.go 51-80 OSSupport *)
Record OSSupport := mkOSSupport {
  NotAvailable : bool;
  Introduced : Version;
  Deprecated : Version;
  Removed : Version;
  AccessRights : bytes;
  Beta : bool;
  Multiple : option bool;
  DeviceChannel : option bool;
  UserChannel : option bool;
  Supervised : option bool;
  RequiresDEP : option bool;
  UserApprovedMDM : option bool;
  AllowManualInstall : option bool;
  AlwaysSkippable : option bool;
  AllowedEnrollments : option (list bytes);
  AllowedScopes : option (list bytes);
  SharedIPadMode : bytes;
  SharedIPadDeviceChannel : option bool;
  SharedIPadUserChannel : option bool;
  SharedIPadScopes : option (list bytes);
  UserEnrollmentMode : bytes;
  UserEnrollmentBehavior : bytes
}.

(* @src devicemanagement/schema/support/support.go 83-86 Entry *)
Record Entry := mkEntry { Path : bytes; OSTable : gmap bytes (option OSSupport) }.

(* @src devicemanagement/schema/support/support.go 90-99 Target *)
Record Target := mkTarget {
  TOS : bytes;
  TVersion : Version;
  TChannel : bytes;
  TSupervised : bool;
  TSharedIPad : bool;
  TUserEnrollment : bool;
  TDEP : bool;
  TUserApproved : bool
}.

(* @src devicemanagement/schema/support/support.go 103-112 Tier *)
Definition TierGuaranteed : bytes := bs "guaranteed".
Definition TierBestEffort : bytes := bs "best-effort".

(* @src devicemanagement/osversion/macos.go 6-15 MacOS26 *)
Definition MacOS26 : Z := 26.
(* @src devicemanagement/osversion/supported.go 8-10 MacOSSupportedVersionFloor *)
Definition MacOSSupportedVersionFloor : Z := MacOS26.
(* @src devicemanagement/osversion/supported.go 11-12 IOSSupportedVersionFloor *)
Definition IOSSupportedVersionFloor : Z := 26.
(* @src devicemanagement/osversion/supported.go 13-14 TvOSSupportedVersionFloor *)
Definition TvOSSupportedVersionFloor : Z := 26.
(* @src devicemanagement/osversion/supported.go 15-16 VisionOSSupportedVersionFloor *)
Definition VisionOSSupportedVersionFloor : Z := 26.
(* @src devicemanagement/osversion/supported.go 17-19 WatchOSSupportedVersionFloor *)
Definition WatchOSSupportedVersionFloor : Z := 26.

(* @src devicemanagement/schema/support/support.go 116-122 supportedVersionFloors *)
Definition supportedVersionFloors : gmap bytes Z :=
  list_to_map [(IOS, IOSSupportedVersionFloor); (MacOS, MacOSSupportedVersionFloor);
               (TvOS, TvOSSupportedVersionFloor); (VisionOS, VisionOSSupportedVersionFloor);
               (WatchOS, WatchOSSupportedVersionFloor)].

(* @src devicemanagement/schema/support/support.go 128-138 Target.Tier *)
Definition Tier (t : Target) : bytes :=
  match supportedVersionFloors !! TOS t with
  | None => []
  | Some floor =>
      if IsZero (TVersion t) then []
      else if 0 <=? Compare (TVersion t) (New floor 0 0) then TierGuaranteed
      else TierBestEffort
  end.

(* @src devicemanagement/schema/support/support.go 143-171 Rule *)
Inductive Rule :=
| RuleNone | RuleNotAvailable | RuleIntroduced | RuleRemoved | RuleDeprecated
| RuleChannel | RuleScope | RuleEnrollment | RuleContext | RuleUnvalidated.
#[export] Instance Rule_eq_dec : EqDecision Rule.
Proof. solve_decision. Defined.

(* @src devicemanagement/schema/support/support.go 175-181 Result *)
Record Result := mkResult {
  RSupported : bool;
  RDeprecated : bool;
  RRule : Rule;
  RReason : bytes;
  ROS : option OSSupport
}.

(** A rejection: [Result{OS: os, Rule: rule, Reason: reason}]. *)
Definition refuse (os : option OSSupport) (r : Rule) (reason : bytes) : Result :=
  mkResult false false r reason os.

(* @src devicemanagement/schema/support/support.go 273-286 modeCheck *)
Definition modeCheck (path what m : bytes) (inEffect : bool) : bytes :=
  if decide (m = ModeRequired) then
    if negb inEffect then path ++ bs ": only valid when " ++ what ++ bs " is in effect" else []
  else if decide (m = ModeForbidden) then
    if inEffect then path ++ bs ": not valid when " ++ what ++ bs " is in effect" else []
  else [].

Definition is_false (o : option bool) : bool := match o with Some b => negb b | None => false end.
Definition is_true (o : option bool) : bool := match o with Some b => b | None => false end.
Definition fmt_bool (b : bool) : bytes := if b then bs "true" else bs "false".
Definition slices_contains (l : list bytes) (x : bytes) : bool := bool_decide (x ∈ l).

(** The version window: the [Introduced] and [Removed] refusals, else the result
    with its deprecation mark. *)
(* @src devicemanagement/schema/support/support.go 198-210 Entry.Check *)
Definition check_version (path : bytes) (t : Target) (os : OSSupport) : Result :=
  let r := mkResult true false RuleNone [] (Some os) in
  if negb (IsZero (TVersion t)) then
    if negb (IsZero (Introduced os)) && (Compare (TVersion t) (Introduced os) <? 0) then
      refuse (Some os) RuleIntroduced
        (path ++ bs ": requires " ++ TOS t ++ bs " " ++ String (Introduced os)
           ++ bs ", target is " ++ String (TVersion t))
    else if negb (IsZero (Removed os)) && (0 <=? Compare (TVersion t) (Removed os)) then
      refuse (Some os) RuleRemoved
        (path ++ bs ": removed in " ++ TOS t ++ bs " " ++ String (Removed os))
    else if negb (IsZero (Deprecated os)) && (0 <=? Compare (TVersion t) (Deprecated os)) then
      mkResult true true RuleDeprecated
        (path ++ bs ": deprecated in " ++ TOS t ++ bs " " ++ String (Deprecated os)) (Some os)
    else r
  else r.

(** The legacy channel booleans. *)
(* @src devicemanagement/schema/support/support.go 211-220 Entry.Check *)
Definition check_channel (path : bytes) (t : Target) (os : OSSupport) : option Result :=
  if decide (TChannel t = ChannelDevice) then
    if is_false (DeviceChannel os) then
      Some (refuse (Some os) RuleChannel
              (path ++ bs ": not supported on the device channel on " ++ TOS t))
    else None
  else if decide (TChannel t = ChannelUser) then
    if is_false (UserChannel os) then
      Some (refuse (Some os) RuleChannel
              (path ++ bs ": not supported on the user channel on " ++ TOS t))
    else None
  else None.

(** The declaration scopes and enrollments, checked only on a known channel. *)
(* @src devicemanagement/schema/support/support.go 224-245 Entry.Check *)
Definition check_scope (path : bytes) (t : Target) (os : OSSupport) : option Result :=
  if bool_decide (TChannel t = ChannelDevice) || bool_decide (TChannel t = ChannelUser) then
    let scope := if decide (TChannel t = ChannelUser) then bs "user" else bs "system" in
    let scopes :=
      match TSharedIPad t, SharedIPadScopes os with
      | true, Some l => Some l
      | _, _ => AllowedScopes os
      end in
    if match scopes with Some l => negb (slices_contains l scope) | None => false end then
      Some (refuse (Some os) RuleScope
              (path ++ bs ": not supported in " ++ scope ++ bs " scope on " ++ TOS t
                 ++ bs " (shared iPad: " ++ fmt_bool (TSharedIPad t) ++ bs ")"))
    else
      let enrollment :=
        if TUserEnrollment t then bs "user"
        else if TSupervised t then bs "supervised" else bs "device" in
      if match AllowedEnrollments os with
         | Some l => negb (slices_contains l enrollment) | None => false end then
        Some (refuse (Some os) RuleEnrollment
                (path ++ bs ": not supported with " ++ enrollment ++ bs " enrollment on " ++ TOS t))
      else None
  else None.

(** Management context, enrollment modes and the shared iPad channels. *)
(* @src devicemanagement/schema/support/support.go 246-268 Entry.Check *)
Definition check_context (path : bytes) (t : Target) (os : OSSupport) : option Result :=
  if is_true (Supervised os) && negb (TSupervised t) then
    Some (refuse (Some os) RuleContext (path ++ bs ": requires supervision on " ++ TOS t))
  else if is_true (RequiresDEP os) && negb (TDEP t) then
    Some (refuse (Some os) RuleContext
            (path ++ bs ": requires Automated Device Enrollment on " ++ TOS t))
  else if is_true (UserApprovedMDM os) && negb (TUserApproved t) then
    Some (refuse (Some os) RuleContext (path ++ bs ": requires user-approved MDM on " ++ TOS t))
  else if bool_decide (modeCheck path (bs "shared iPad") (SharedIPadMode os) (TSharedIPad t) ≠ []) then
    Some (refuse (Some os) RuleContext
            (modeCheck path (bs "shared iPad") (SharedIPadMode os) (TSharedIPad t)))
  else if bool_decide (modeCheck path (bs "user enrollment") (UserEnrollmentMode os)
                         (TUserEnrollment t) ≠ []) then
    Some (refuse (Some os) RuleContext
            (modeCheck path (bs "user enrollment") (UserEnrollmentMode os) (TUserEnrollment t)))
  else if TSharedIPad t then
    if bool_decide (TChannel t = ChannelDevice) && is_false (SharedIPadDeviceChannel os) then
      Some (refuse (Some os) RuleChannel
              (path ++ bs ": not supported on the device channel of a shared iPad"))
    else if bool_decide (TChannel t = ChannelUser) && is_false (SharedIPadUserChannel os) then
      Some (refuse (Some os) RuleChannel
              (path ++ bs ": not supported on the user channel of a shared iPad"))
    else None
  else None.

(** A nil [*Entry] is [None]. *)
(* @src devicemanagement/schema/support/support.go 187-270 Entry.Check *)
Definition Check (e : option Entry) (t : Target) : Result :=
  match e with
  | None => mkResult true false RuleNone (bs "no support data") None
  | Some e =>
      if bool_decide (TOS t = []) then mkResult true false RuleNone (bs "no target OS") None
      else
        match OSTable e !! TOS t with
        | None | Some None =>
            refuse None RuleNotAvailable (Path e ++ bs ": not available on " ++ TOS t)
        | Some (Some os) =>
            if NotAvailable os then
              refuse None RuleNotAvailable (Path e ++ bs ": not available on " ++ TOS t)
            else
              let r := check_version (Path e) t os in
              if negb (RSupported r) then r
              else match check_channel (Path e) t os with Some x => x | None =>
                   match check_scope (Path e) t os with Some x => x | None =>
                   match check_context (Path e) t os with Some x => x | None => r
                   end end end
        end
  end.

(** ** The table registry

    The package variable [families] is the state; [Register] replaces a family's
    table. *)
Abbreviation families := (gmap bytes (gmap bytes Entry)).

(* @src devicemanagement/schema/support/support.go 295-299 Register *)
Definition Register (family : bytes) (table : gmap bytes Entry) (st : families) : families :=
  <[family := table]> st.

(* @src devicemanagement/schema/support/support.go 302-306 Lookup *)
Definition Lookup (st : families) (family path : bytes) : option Entry :=
  default ∅ (st !! family) !! path.

(* @src devicemanagement/schema/support/support.go 309-318 Families *)
Definition Families (st : families) : list bytes := sort_strings (map_to_list st).*1.

(* @src devicemanagement/schema/support/support.go 321-331 Paths *)
Definition Paths (st : families) (family : bytes) : list bytes :=
  sort_strings (map_to_list (default ∅ (st !! family))).*1.

(* @src devicemanagement/schema/support/support.go 338-352 OSFromProduct *)
Definition OSFromProduct (product : bytes) : bytes :=
  let p x := has_prefix product (bs x) in
  if p "iPhone" || p "iPad" || p "iPod" then IOS
  else if p "Mac" || p "iMac" || p "VirtualMac" then MacOS
  else if p "AppleTV" then TvOS
  else if p "RealityDevice" then VisionOS
  else if p "Watch" then WatchOS
  else [].

(** ** What the check decides

    [available] states the availability conditions declaratively, without the
    order in which the code tests them. *)

Definition in_window (t : Target) (os : OSSupport) : Prop :=
  IsZero (TVersion t) = true ∨
  ((IsZero (Introduced os) = true ∨ ¬ version_lt (TVersion t) (Introduced os)) ∧
   (IsZero (Removed os) = true ∨ version_lt (TVersion t) (Removed os))).

Definition on_channel (t : Target) (os : OSSupport) : Prop :=
  (TChannel t = ChannelDevice → DeviceChannel os ≠ Some false) ∧
  (TChannel t = ChannelUser → UserChannel os ≠ Some false).

(** The effective scope list: the shared iPad one replaces the general one. *)
Definition scopes_of (t : Target) (os : OSSupport) : option (list bytes) :=
  if TSharedIPad t then match SharedIPadScopes os with Some l => Some l | None => AllowedScopes os end
  else AllowedScopes os.
Definition enrollment_of (t : Target) : bytes :=
  if TUserEnrollment t then bs "user" else if TSupervised t then bs "supervised" else bs "device".

Definition in_scope (t : Target) (os : OSSupport) : Prop :=
  (TChannel t = ChannelDevice → ∀ l, scopes_of t os = Some l → bs "system" ∈ l) ∧
  (TChannel t = ChannelUser → ∀ l, scopes_of t os = Some l → bs "user" ∈ l) ∧
  (TChannel t = ChannelDevice ∨ TChannel t = ChannelUser →
     ∀ l, AllowedEnrollments os = Some l → enrollment_of t ∈ l).

Definition mode_ok (m : bytes) (inEffect : bool) : Prop :=
  (m = ModeRequired → inEffect = true) ∧ (m = ModeForbidden → inEffect = false).

Definition in_context (t : Target) (os : OSSupport) : Prop :=
  (Supervised os = Some true → TSupervised t = true) ∧
  (RequiresDEP os = Some true → TDEP t = true) ∧
  (UserApprovedMDM os = Some true → TUserApproved t = true) ∧
  mode_ok (SharedIPadMode os) (TSharedIPad t) ∧
  mode_ok (UserEnrollmentMode os) (TUserEnrollment t) ∧
  (TSharedIPad t = true →
     (TChannel t = ChannelDevice → SharedIPadDeviceChannel os ≠ Some false) ∧
     (TChannel t = ChannelUser → SharedIPadUserChannel os ≠ Some false)).

Definition available (t : Target) (os : OSSupport) : Prop :=
  NotAvailable os = false ∧ in_window t os ∧ on_channel t os ∧ in_scope t os ∧ in_context t os.

Lemma Compare_ltb v o : (Compare v o <? 0) = true ↔ version_lt v o.
Proof.
  rewrite Z.ltb_lt. pose proof (version_lt_irrefl v). pose proof (version_lt_trans v o v).
  destruct (Compare_cases v o) as [[-> ?]|[[-> <-]|[-> ?]]]; intuition lia.
Qed.
Lemma Compare_leb v o : (0 <=? Compare v o) = true ↔ ¬ version_lt v o.
Proof.
  rewrite <-Compare_ltb. destruct (Z.leb_spec 0 (Compare v o)), (Z.ltb_spec (Compare v o) 0);
    intuition (lia || done).
Qed.

Lemma check_version_supported path t os :
  RSupported (check_version path t os) = true ↔ in_window t os.
Proof.
  unfold check_version, in_window.
  destruct (IsZero (TVersion t)); cbn; [by intuition|].
  pose proof (Compare_ltb (TVersion t) (Introduced os)) as H1.
  pose proof (Compare_leb (TVersion t) (Removed os)) as H2.
  destruct (Z.ltb_spec (Compare (TVersion t) (Introduced os)) 0),
    (Z.leb_spec 0 (Compare (TVersion t) (Removed os))),
    (IsZero (Introduced os)), (IsZero (Removed os)); cbn in *; split_ifs; cbn;
    pose proof (Compare_cases (TVersion t) (Removed os)); intuition (done || lia).
Qed.

Lemma check_channel_none path t os : check_channel path t os = None ↔ on_channel t os.
Proof.
  assert (ChannelDevice ≠ ChannelUser) by done.
  unfold check_channel, on_channel.
  destruct (decide (TChannel t = ChannelDevice)) as [->|];
    [|destruct (decide (TChannel t = ChannelUser)) as [->|]];
    destruct (DeviceChannel os) as [[]|], (UserChannel os) as [[]|]; cbn;
    intuition congruence.
Qed.

Lemma check_scope_none path t os : check_scope path t os = None ↔ in_scope t os.
Proof.
  unfold check_scope, in_scope.
  set (sc := match TSharedIPad t, SharedIPadScopes os with
             | true, Some l => Some l | _, _ => AllowedScopes os end).
  replace (scopes_of t os) with sc
    by (unfold sc, scopes_of; destruct (TSharedIPad t), (SharedIPadScopes os); done).
  fold (enrollment_of t). unfold slices_contains.
  assert (Hdu : ChannelDevice ≠ ChannelUser) by done.
  assert (Hl : ∀ (o : option (list bytes)) x,
    match o with Some l => negb (bool_decide (x ∈ l)) | None => false end = false ↔
    (∀ l, o = Some l → x ∈ l)).
  { intros [l|] x; [|done]. rewrite negb_false_iff, bool_decide_eq_true.
    split; [by intros ? ? [= <-] | auto]. }
  pose proof (Hl sc (bs "system")) as H1. pose proof (Hl sc (bs "user")) as H2.
  pose proof (Hl (AllowedEnrollments os) (enrollment_of t)) as H3. clear Hl.
  destruct (decide (TChannel t = ChannelDevice)) as [->|Hd].
  { rewrite (decide_False (P := ChannelDevice = ChannelUser)) by done.
    rewrite (bool_decide_true (ChannelDevice = ChannelDevice)) by done. cbn [orb].
    destruct (match sc with Some l => negb (bool_decide (bs "system" ∈ l)) | None => false end),
      (match AllowedEnrollments os with Some l => _ | None => false end);
      intuition congruence. }
  destruct (decide (TChannel t = ChannelUser)) as [->|Hu].
  { rewrite (bool_decide_true (ChannelUser = ChannelUser)), orb_true_r by done.
    destruct (match sc with Some l => negb (bool_decide (bs "user" ∈ l)) | None => false end),
      (match AllowedEnrollments os with Some l => _ | None => false end);
      intuition congruence. }
  rewrite !bool_decide_false by done. cbn. intuition congruence.
Qed.

Lemma modeCheck_none path what m b : modeCheck path what m b = [] ↔ mode_ok m b.
Proof.
  assert (∀ x y, path ++ bs x ++ what ++ bs y = [] → bs x = []) as Hne.
  { intros x y H. by apply app_eq_nil in H as [_ [? _]%app_eq_nil]. }
  assert (ModeRequired ≠ ModeForbidden) by done.
  unfold modeCheck, mode_ok.
  destruct (decide (m = ModeRequired)) as [->|]; [|destruct (decide (m = ModeForbidden)) as [->|]];
    destruct b; cbn [negb]; split; try (intros H'; apply Hne in H'; done); intuition congruence.
Qed.

Lemma if_some_none {A} (c : bool) (x : A) k :
  (if c then Some x else k) = None ↔ c = false ∧ k = None.
Proof. destruct c; intuition congruence. Qed.

Lemma requires_spec o b : is_true o && negb b = false ↔ (o = Some true → b = true).
Proof. destruct o as [[]|], b; cbn; intuition congruence. Qed.

Lemma refuses_spec (P : Prop) `{Decision P} o :
  bool_decide P && is_false o = false ↔ (P → o ≠ Some false).
Proof. case_bool_decide; destruct o as [[]|]; cbn; intuition congruence. Qed.

Lemma check_context_none path t os : check_context path t os = None ↔ in_context t os.
Proof.
  unfold check_context, in_context.
  rewrite !if_some_none, !requires_spec, !bool_decide_eq_false.
  rewrite <-(modeCheck_none path (bs "shared iPad") (SharedIPadMode os)).
  rewrite <-(modeCheck_none path (bs "user enrollment") (UserEnrollmentMode os)).
  assert (∀ l : bytes, ¬ (l ≠ []) ↔ l = []) as Hdn by (intros []; naive_solver).
  rewrite !Hdn. do 5 f_equiv.
  destruct (TSharedIPad t); [|intuition congruence].
  rewrite !if_some_none, !refuses_spec. intuition.
Qed.

(** Every later stage only refuses. *)
Definition refusal (r : Result) : Prop :=
  RSupported r = false ∧ RDeprecated r = false ∧
  RRule r ≠ RuleNone ∧ RRule r ≠ RuleDeprecated ∧ RRule r ≠ RuleUnvalidated.

Lemma check_channel_refuses path t os r : check_channel path t os = Some r → refusal r.
Proof. unfold check_channel. repeat case_match; intros [= <-]; done. Qed.
Lemma check_scope_refuses path t os r : check_scope path t os = Some r → refusal r.
Proof. unfold check_scope. cbv zeta. repeat case_match; intros [= <-]; done. Qed.
Lemma check_context_refuses path t os r : check_context path t os = Some r → refusal r.
Proof. unfold check_context. repeat case_match; intros [= <-]; done. Qed.

Lemma check_row_iff e t os : TOS t ≠ [] → OSTable e !! TOS t = Some (Some os) →
  RSupported (Check (Some e) t) = true ↔ available t os.
Proof.
  intros Hos He. unfold Check, available.
  rewrite bool_decide_false, He by done. destruct (NotAvailable os); cbn; [by intuition|].
  rewrite <-(check_version_supported (Path e)), <-(check_channel_none (Path e)),
    <-(check_scope_none (Path e)), <-(check_context_none (Path e)).
  destruct (RSupported (check_version (Path e) t os)) eqn:Hr; cbn; [|intuition congruence].
  destruct (check_channel _ _ _) eqn:H1; [apply check_channel_refuses in H1 as [? _]; intuition congruence|].
  destruct (check_scope _ _ _) eqn:H2; [apply check_scope_refuses in H2 as [? _]; intuition congruence|].
  destruct (check_context _ _ _) eqn:H3; [apply check_context_refuses in H3 as [? _]; intuition congruence|].
  intuition.
Qed.

(** C39 [Entry.Check] accepts every target when there are no support data or the target names
    no operating system; otherwise it accepts a target exactly when the entry has a row for
    its operating system and the declarative availability conditions of the row hold:
    release window, channel, scope, enrollment and management context. *)
Theorem Check_supported_iff e t :
  RSupported (Check e t) = true ↔
  match e with
  | None => True
  | Some e => TOS t = [] ∨ ∃ os, OSTable e !! TOS t = Some (Some os) ∧ available t os
  end.
Proof.
  destruct e as [e|]; [|done]. destruct (decide (TOS t = [])) as [Hos|Hos].
  - unfold Check. rewrite bool_decide_true by done. split; [by left|done].
  - destruct (OSTable e !! TOS t) as [[os|]|] eqn:He.
    1: rewrite (check_row_iff e t os Hos He); naive_solver.
    all: unfold Check; rewrite bool_decide_false, He by done; naive_solver.
Qed.

Lemma check_version_verdict path t os :
  let r := check_version path t os in
  (RSupported r = true ∧ RRule r = RuleNone ∧ RDeprecated r = false) ∨
  (RSupported r = true ∧ RRule r = RuleDeprecated ∧ RDeprecated r = true) ∨
  refusal r.
Proof.
  cbv zeta. unfold check_version.
  destruct (negb (IsZero (TVersion t))); [|by left].
  destruct (_ && _); [by right; right|]. destruct (_ && _); [by right; right|].
  destruct (_ && _); [by right; left | by left].
Qed.

(** A verdict is consistent with its rule: an accepted target carries no rule, or
    the deprecation rule together with the deprecation flag; a refusal carries a
    refusing rule, never the deprecation flag and never the rule reserved for
    validators. *)
Theorem Check_consistent e t :
  let r := Check e t in
  (RSupported r = true ∧ RRule r = RuleNone ∧ RDeprecated r = false) ∨
  (RSupported r = true ∧ RRule r = RuleDeprecated ∧ RDeprecated r = true) ∨
  refusal r.
Proof.
  cbv zeta. unfold Check. destruct e as [e|]; [|by left].
  case_bool_decide; [by left|].
  destruct (OSTable e !! TOS t) as [[os|]|]; [|by right; right..].
  destruct (NotAvailable os); [by right; right|].
  destruct (RSupported (check_version (Path e) t os)) eqn:Hv; cbn.
  - destruct (check_channel _ _ _) eqn:H1; [apply check_channel_refuses in H1; auto|].
    destruct (check_scope _ _ _) eqn:H2; [apply check_scope_refuses in H2; auto|].
    destruct (check_context _ _ _) eqn:H3; [apply check_context_refuses in H3; auto|].
    apply check_version_verdict.
  - apply check_version_verdict.
Qed.

(** Support tiers are upward closed: if a release is in the guaranteed tier, so is
    every newer release of the same OS. *)
Theorem Tier_upward_closed t v :
  Tier t = TierGuaranteed → version_lt (TVersion t) v → 0 ≤ Major v →
  Tier (mkTarget (TOS t) v (TChannel t) (TSupervised t) (TSharedIPad t)
          (TUserEnrollment t) (TDEP t) (TUserApproved t)) = TierGuaranteed.
Proof.
  unfold Tier; cbn [TOS TVersion].
  assert ([] ≠ TierGuaranteed) as H1 by done.
  assert (TierBestEffort ≠ TierGuaranteed) as H2 by done.
  destruct (supportedVersionFloors !! TOS t) as [floor|] eqn:Hf; [|by intros ?%H1].
  destruct (IsZero (TVersion t)) eqn:Hz; [by intros ?%H1|].
  destruct (0 <=? Compare (TVersion t) (New floor 0 0)) eqn:Hc; [|by intros ?%H2].
  intros _ Hlt Hm. apply Compare_leb in Hc.
  assert (0 < floor) as Hpos.
  { revert Hf. unfold supportedVersionFloors. intros Hf%elem_of_list_to_map_2.
    repeat (apply elem_of_cons in Hf as [Hf|Hf]; [by simplify_eq|]).
    by apply not_elem_of_nil in Hf. }
  assert (version_lt (New floor 0 0) v ∨ New floor 0 0 = v) as Hge.
  { destruct (Compare_cases (TVersion t) (New floor 0 0)) as [[_ ?]|[[_ He]|[_ ?]]];
      [done | rewrite <-He; auto | left; eapply version_lt_trans; eauto]. }
  assert (IsZero v = false) as ->.
  { unfold IsZero. apply bool_decide_eq_false. intros ->.
    destruct Hge as [H|H]; [unfold version_lt in H; cbn in H; lia | injection H; lia]. }
  rewrite (proj2 (Compare_leb v _)); [done|]. intros H.
  destruct Hge as [H'| <-]; [|by apply version_lt_irrefl in H].
  eapply version_lt_irrefl, version_lt_trans; eauto.
Qed.

(** The registry returns the table registered last for a family, leaves every
    other family alone, and lists each family once in byte order. *)
Theorem Register_Lookup st f g path table :
  Lookup (Register f table st) g path = (if decide (f = g) then table !! path else Lookup st g path) ∧
  StronglySorted bytes_le (Families (Register f table st)) ∧
  NoDup (Families (Register f table st)) ∧
  (g ∈ Families (Register f table st) ↔ g = f ∨ g ∈ Families st).
Proof.
  assert (∀ st' : families, ∀ x, x ∈ Families st' ↔ is_Some (st' !! x)) as HF.
  { intros st' x. unfold Families. rewrite sort_strings_perm, list_elem_of_fmap. split.
    - intros ([k v] & -> & H). apply elem_of_map_to_list in H. by exists v.
    - intros [v H]. exists (x, v). by rewrite elem_of_map_to_list. }
  repeat split.
  - unfold Lookup, Register. rewrite lookup_insert. by case_decide.
  - apply sort_strings_sorted.
  - unfold Families. rewrite sort_strings_perm. apply NoDup_fst_map_to_list.
  - rewrite !HF. unfold Register. rewrite lookup_insert. case_decide; intuition; subst; eauto.
  - rewrite !HF. unfold Register. rewrite lookup_insert. case_decide; intuition; subst; eauto; done.
Qed.

(** A concrete table row and targets used by the witnesses. *)
Definition sample_support : OSSupport :=
  mkOSSupport false (New 13 0 0) (mkVersion 0 0 0) (New 28 0 0) [] false None
    (Some true) (Some false) (Some true) None None None None
    (Some [bs "supervised"]) (Some [bs "system"]) [] None None None ModeForbidden [].
Definition sample_entry : Entry :=
  mkEntry (bs "Restart") (<[MacOS := Some sample_support]> ∅).
Definition sample_target : Target :=
  mkTarget MacOS (New 26 4 1) ChannelDevice true false false true true.

Example sample_accepted : RSupported (Check (Some sample_entry) sample_target) = true.
Proof. vm_compute. reflexivity. Qed.
Example sample_refused :
  RSupported (Check (Some sample_entry) (mkTarget IOS (New 26 4 1) ChannelDevice true false false true true)) = false.
Proof. vm_compute. reflexivity. Qed.

Lemma Tier_upward_closed_witness :
  Tier (mkTarget MacOS (New 27 0 0) ChannelDevice true false false true true) = TierGuaranteed.
Proof.
  apply (Tier_upward_closed sample_target (New 27 0 0));
    [vm_compute; reflexivity | left; vm_compute; reflexivity | vm_compute; discriminate].
Defined.
