(* ===== verification/StateStore.v ===== *)
(** * Transactional state: [devicemanagement/state]

    The store of opaque records that protocol components share, and its in-memory
    implementation with a private write set. A transaction callback is a [txprog]: a
    program over the [Tx] interface, so that a theorem about every [txprog] is one
    about every callback. The specification runs the same program directly on a map;
    [TxStore] is the contract clients rely on, [Memory] implements it.

    The context can be cancelled at any time: [cancelled n] says whether the n-th
    check of [ctx.Err()] finds it cancelled. *)
From S2P Require Import Prelude GoStrings.

(* @src devicemanagement/state/state.go 12-15 errors *)
Inductive terr := TNotFound | TInvalid | TCanceled | TFail (what : bytes).
#[export] Instance terr_eq_dec : EqDecision terr.
Proof. solve_decision. Defined.

(* @src devicemanagement/state/state.go - Record *)
Record Rec := mkRec { Key : bytes; Value : bytes; ExpiresAt : Time }.
#[export] Instance Rec_eq_dec : EqDecision Rec.
Proof. solve_decision. Defined.

(* @src devicemanagement/state/state.go - ValidKey *)
Definition ValidKey (k : bytes) : bool :=
  negb (bool_decide (k = []) || (255 <? Z.of_nat (length k)))
  && forallb (λ c, negb ((c <? 33) || (126 <? c))) k.

(** The programs a callback can be: what it does depends on what it reads. *)
(* @src devicemanagement/state/state.go 25-42 Tx *)
Inductive txprog (A : Type) : Type :=
| Return (a : A)
| Now (k : Time → txprog A)
| TGet (key : bytes) (k : result terr Rec → txprog A)
| TList (prefix after : bytes) (limit : Z) (k : result terr (list Rec) → txprog A)
| TPut (r : Rec) (k : result terr unit → txprog A)
| TDelete (key : bytes) (k : result terr unit → txprog A).
Arguments Return {A} _.
Arguments Now {A} _.
Arguments TGet {A} _ _.
Arguments TList {A} _ _ _ _.
Arguments TPut {A} _ _.
Arguments TDelete {A} _ _.

Section WithContext.
Variable cancelled : nat → bool.

(** ** The private write set *)

(** [writes] maps a key to the record written, or to [None] once deleted; [checks]
    counts the checks of the context made so far. *)
(* @src devicemanagement/state/state.go - memoryTx *)
Record memoryTx := mkTx {
  records : gmap bytes Rec;
  writes : gmap bytes (option Rec);
  now : Time;
  checks : nat
}.

Definition tick (t : memoryTx) : memoryTx :=
  mkTx (records t) (writes t) (now t) (S (checks t)).
Definition with_writes (ws : gmap bytes (option Rec)) (t : memoryTx) : memoryTx :=
  mkTx (records t) ws (now t) (checks t).

(* @src devicemanagement/state/state.go - memoryTx.Get *)
Definition tx_Get (k : bytes) (t : memoryTx) : result terr Rec * memoryTx :=
  if cancelled (checks t) then (Err TCanceled, tick t)
  else
    (if negb (ValidKey k) then Err TInvalid
     else match writes t !! k with
     | Some None => Err TNotFound
     | Some (Some r) => Ok r
     | None => match records t !! k with Some r => Ok r | None => Err TNotFound end
     end, tick t).

(** The keys [List] selects: the live ones of records and writes, by prefix and after
    the cursor. *)
(* @src devicemanagement/state/state.go 198-211 memoryTx.List *)
Definition list_keys (prefix after : bytes) (t : memoryTx) : list bytes :=
  let keys : gmap bytes bool :=
    ((λ r : option Rec, bool_decide (r ≠ None)) <$> writes t) ∪ ((λ _ : Rec, true) <$> records t) in
  sort_strings (map_to_list (filter (λ '(k, live),
    live = true ∧ has_prefix k prefix = true ∧ bytes_ltb after k = true) keys)).*1.

(** The loop that reads the selected records, stopping at the first error. *)
(* @src devicemanagement/state/state.go 212-220 memoryTx.List *)
Fixpoint list_loop (ks : list bytes) (t : memoryTx) : result terr (list Rec) * memoryTx :=
  match ks with
  | [] => (Ok [], t)
  | k :: ks' =>
      match tx_Get k t with
      | (Err e, t') => (Err e, t')
      | (Ok r, t') =>
          match list_loop ks' t' with
          | (Ok rs, t'') => (Ok (r :: rs), t'')
          | (Err e, t'') => (Err e, t'')
          end
      end
  end.

(* @src devicemanagement/state/state.go - memoryTx.List *)
Definition tx_List (prefix after : bytes) (limit : Z) (t : memoryTx)
  : result terr (list Rec) * memoryTx :=
  if cancelled (checks t) then (Err TCanceled, tick t)
  else if (limit <=? 0) || (10000 <? limit) then (Err TInvalid, tick t)
  else list_loop (take (Z.to_nat limit) (list_keys prefix after t)) (tick t).

(* @src devicemanagement/state/state.go - memoryTx.Put *)
Definition tx_Put (r : Rec) (t : memoryTx) : result terr unit * memoryTx :=
  if cancelled (checks t) then (Err TCanceled, tick t)
  else if negb (ValidKey (Key r)) then (Err TInvalid, tick t)
  else (Ok tt, tick (with_writes (<[Key r := Some r]> (writes t)) t)).

(* @src devicemanagement/state/state.go - memoryTx.Delete *)
Definition tx_Delete (k : bytes) (t : memoryTx) : result terr unit * memoryTx :=
  if cancelled (checks t) then (Err TCanceled, tick t)
  else if negb (ValidKey k) then (Err TInvalid, tick t)
  else (Ok tt, tick (with_writes (<[k := None]> (writes t)) t)).

(** Running a callback. *)
Fixpoint tx_exec {A} (p : txprog A) (t : memoryTx) : A * memoryTx :=
  match p with
  | Return a => (a, t)
  | Now k => tx_exec (k (now t)) t
  | TGet key k => let '(r, t) := tx_Get key t in tx_exec (k r) t
  | TList prefix after limit k => let '(r, t) := tx_List prefix after limit t in tx_exec (k r) t
  | TPut r k => let '(x, t) := tx_Put r t in tx_exec (k x) t
  | TDelete key k => let '(x, t) := tx_Delete key t in tx_exec (k x) t
  end.

(** ** The store *)

(* @src devicemanagement/state/state.go - Memory *)
Record Memory := mkMemory { mrecords : gmap bytes Rec }.

(* @src devicemanagement/state/state.go 77-77 NewMemory *)
Definition NewMemory : Memory := mkMemory ∅.

(* @src devicemanagement/state/state.go - Memory.Get *)
Definition Memory_Get (m : Memory) (key : bytes) : result terr Rec :=
  (tx_Get key (mkTx (mrecords m) ∅ 0 0)).1.

(* @src devicemanagement/state/state.go - Memory.List *)
Definition Memory_List (m : Memory) (prefix after : bytes) (limit : Z) : result terr (list Rec) :=
  (tx_List prefix after limit (mkTx (mrecords m) ∅ 0 0)).1.

(** The records after the write set is applied. *)
(* @src devicemanagement/state/state.go 127-133 Memory.Update *)
Definition commit_writes (ws : gmap bytes (option Rec)) (rs : gmap bytes Rec) : gmap bytes Rec :=
  merge (λ w r, match w with Some o => o | None => r end) ws rs.

(** [clock] is the store's clock. A nil callback is [None]. *)
(* @src devicemanagement/state/state.go - Memory.Update *)
Definition Update {A} (clock : Time) (keys : list bytes) (fn : option (txprog (result terr A)))
  (m : Memory) : result terr A * Memory :=
  match fn with
  | None => (Err TInvalid, m)
  | Some fn =>
      if bool_decide (keys = []) || negb (forallb ValidKey keys) then (Err TInvalid, m)
      else if cancelled 0 then (Err TCanceled, m)
      else
        let '(r, t) := tx_exec fn (mkTx (mrecords m) ∅ clock 1) in
        match r with
        | Err e => (Err e, m)
        | Ok a =>
            if cancelled (checks t) then (Err TCanceled, m)
            else (Ok a, mkMemory (commit_writes (writes t) (mrecords m)))
        end
  end.

Definition expired (clock : Time) (r : Rec) : bool :=
  negb (time_is_zero (ExpiresAt r)) && negb (clock <? ExpiresAt r).

(** The loop of [Prune], over the keys in the order the map yields them; [left] is
    how many deletions remain allowed. *)
(* @src devicemanagement/state/state.go 147-157 Memory.Prune *)
Fixpoint prune_loop (clock : Time) (left : Z) (order : list bytes) (rs : gmap bytes Rec)
  : Z * gmap bytes Rec :=
  match order with
  | [] => (0, rs)
  | k :: order' =>
      match rs !! k with
      | Some r =>
          if expired clock r then
            if left =? 1 then (1, delete k rs)
            else let '(n, rs') := prune_loop clock (left - 1) order' (delete k rs) in (1 + n, rs')
          else prune_loop clock left order' rs
      | None => prune_loop clock left order' rs
      end
  end.

(* @src devicemanagement/state/state.go - Memory.Prune *)
Definition Prune (clock : Time) (order : list bytes) (limit : Z) (m : Memory)
  : result terr (Z * Memory) :=
  if (limit <=? 0) || (10000 <? limit) then Err TInvalid
  else if cancelled 0 then Err TCanceled
  else let '(n, rs) := prune_loop clock limit order (mrecords m) in Ok (n, mkMemory rs).

(** ** The specification

    The same program run directly on the committed map. *)
Record specTx := mkSpec { smap : gmap bytes Rec; schecks : nat }.

Definition spec_get (k : bytes) (s : specTx) : result terr Rec * specTx :=
  (if cancelled (schecks s) then Err TCanceled
   else if negb (ValidKey k) then Err TInvalid
   else match smap s !! k with Some r => Ok r | None => Err TNotFound end,
   mkSpec (smap s) (S (schecks s))).

Fixpoint spec_reads (ks : list bytes) (s : specTx) : result terr (list Rec) * specTx :=
  match ks with
  | [] => (Ok [], s)
  | k :: ks' =>
      match spec_get k s with
      | (Err e, s') => (Err e, s')
      | (Ok r, s') =>
          match spec_reads ks' s' with
          | (Ok rs, s'') => (Ok (r :: rs), s'')
          | (Err e, s'') => (Err e, s'')
          end
      end
  end.

(** The keys of a map with a prefix, after a cursor, in order. *)
Definition keys_after (prefix after : bytes) (m : gmap bytes Rec) : list bytes :=
  sort_strings (filter (λ k, has_prefix k prefix = true ∧ bytes_ltb after k = true)
                  (map_to_list m).*1).

Definition spec_list (prefix after : bytes) (limit : Z) (s : specTx)
  : result terr (list Rec) * specTx :=
  let s' := mkSpec (smap s) (S (schecks s)) in
  if cancelled (schecks s) then (Err TCanceled, s')
  else if (limit <=? 0) || (10000 <? limit) then (Err TInvalid, s')
  else spec_reads (take (Z.to_nat limit) (keys_after prefix after (smap s))) s'.

Definition spec_write (k : bytes) (f : gmap bytes Rec → gmap bytes Rec) (s : specTx)
  : result terr unit * specTx :=
  let n := S (schecks s) in
  if cancelled (schecks s) then (Err TCanceled, mkSpec (smap s) n)
  else if negb (ValidKey k) then (Err TInvalid, mkSpec (smap s) n)
  else (Ok tt, mkSpec (f (smap s)) n).

Fixpoint spec_exec {A} (clock : Time) (p : txprog A) (s : specTx) : A * specTx :=
  match p with
  | Return a => (a, s)
  | Now k => spec_exec clock (k clock) s
  | TGet key k => let '(r, s) := spec_get key s in spec_exec clock (k r) s
  | TList prefix after limit k =>
      let '(r, s) := spec_list prefix after limit s in spec_exec clock (k r) s
  | TPut r k =>
      let '(x, s) := spec_write (Key r) (<[Key r := r]>) s in spec_exec clock (k x) s
  | TDelete key k => let '(x, s) := spec_write key (delete key) s in spec_exec clock (k x) s
  end.

(** What [Update] promises: all of the callback's effect, or none of it. *)
Definition spec_update {A} (clock : Time) (keys : list bytes) (fn : option (txprog (result terr A)))
  (m : gmap bytes Rec) : result terr A * gmap bytes Rec :=
  match fn with
  | None => (Err TInvalid, m)
  | Some fn =>
      if bool_decide (keys = []) || negb (forallb ValidKey keys) then (Err TInvalid, m)
      else if cancelled 0 then (Err TCanceled, m)
      else match spec_exec clock fn (mkSpec m 1) with
      | (Err e, _) => (Err e, m)
      | (Ok a, s) => if cancelled (schecks s) then (Err TCanceled, m) else (Ok a, smap s)
      end
  end.
End WithContext.

(** ** The contract *)

Class TxStore (S : Type) := {
  store_view : S → gmap bytes Rec;
  store_update : ∀ {A}, (nat → bool) → Time → list bytes → option (txprog (result terr A)) → S →
    result terr A * S;
  store_update_spec : ∀ {A} cancelled clock keys (fn : option (txprog (result terr A))) s,
    let '(r, s') := store_update cancelled clock keys fn s in
    (r, store_view s') = spec_update cancelled clock keys fn (store_view s);
  store_get : (nat → bool) → bytes → S → result terr Rec;
  store_get_spec : ∀ cancelled k s, store_get cancelled k s = (spec_get cancelled k (mkSpec (store_view s) 0)).1
}.

(** ** The write set refines the map *)

Lemma lookup_commit ws rs k :
  commit_writes ws rs !! k = match ws !! k with Some o => o | None => rs !! k end.
Proof.
  unfold commit_writes. rewrite lookup_merge. by destruct (ws !! k), (rs !! k).
Qed.

(** What the transaction sees as the map. *)
Definition visible (t : memoryTx) : gmap bytes Rec := commit_writes (writes t) (records t).

Definition sim (clock : Time) (t : memoryTx) (s : specTx) : Prop :=
  visible t = smap s ∧ checks t = schecks s ∧ now t = clock.

Lemma list_keys_visible prefix after t :
  list_keys prefix after t = keys_after prefix after (visible t).
Proof.
  unfold list_keys, keys_after. apply (StronglySorted_unique bytes_le); [apply sort_strings_sorted..|].
  rewrite !sort_strings_perm. apply NoDup_Permutation.
  - apply NoDup_fst_map_to_list.
  - apply NoDup_filter, NoDup_fst_map_to_list.
  - intros k. rewrite list_elem_of_filter, !list_elem_of_fmap. split.
    + intros ([k' live] & -> & H). apply elem_of_map_to_list, map_lookup_filter_Some in H as [Hk [-> H]].
      split; [done|]. cbn. apply lookup_union_Some_raw in Hk.
      rewrite !lookup_fmap in Hk.
      assert (∃ r, visible t !! k' = Some r) as [r Hr].
      { unfold visible. rewrite lookup_commit. destruct (writes t !! k') as [[r|]|] eqn:Hw; cbn in Hk.
        - eauto.
        - by destruct Hk as [Hk|[? _]].
        - destruct Hk as [?|[_ Hk]]; [done|]. destruct (records t !! k'); [eauto|done]. }
      exists (k', r). split; [done|]. by apply elem_of_map_to_list.
    + intros [H ([k' r] & -> & Hr)]. apply elem_of_map_to_list in Hr. cbn in *.
      exists (k', true). split; [done|]. apply elem_of_map_to_list, map_lookup_filter_Some.
      split; [|done]. unfold visible in Hr. rewrite lookup_commit in Hr.
      apply lookup_union_Some_raw. rewrite !lookup_fmap.
      destruct (writes t !! k') as [[r'|]|]; [left; by cbn|done|right]. by rewrite Hr.
Qed.

Section Refinement.
Variable cancelled : nat → bool.

Lemma sim_get clock k t s :
  sim clock t s →
  (tx_Get cancelled k t).1 = (spec_get cancelled k s).1 ∧
  sim clock (tx_Get cancelled k t).2 (spec_get cancelled k s).2 ∧
  records (tx_Get cancelled k t).2 = records t.
Proof.
  intros (Hv & Hc & Hn). unfold tx_Get, spec_get. rewrite Hc, <-Hv.
  destruct (cancelled (schecks s)); cbn.
  - unfold sim, visible in *. cbn. rewrite Hc. by split_and!.
  - split_and!; [|unfold sim, visible in *; cbn; rewrite Hc; by split_and!|done].
    destruct (negb (ValidKey k)); [done|]. unfold visible. rewrite lookup_commit.
    by destruct (writes t !! k) as [[]|].
Qed.

Lemma sim_reads clock ks : ∀ t s,
  sim clock t s →
  (list_loop cancelled ks t).1 = (spec_reads cancelled ks s).1 ∧
  sim clock (list_loop cancelled ks t).2 (spec_reads cancelled ks s).2 ∧
  records (list_loop cancelled ks t).2 = records t.
Proof.
  induction ks as [|k ks IH]; intros t s H; cbn [list_loop spec_reads]; [done|].
  destruct (sim_get clock k t s H) as (H1 & H2 & Hr).
  destruct (tx_Get cancelled k t) as [[r|e] t'], (spec_get cancelled k s) as [[r'|e'] s'];
    simplify_eq/=; [|done]. rewrite <-Hr.
  destruct (IH t' s' H2) as (H3 & H4 & <-).
  by destruct (list_loop cancelled ks t') as [[] ?], (spec_reads cancelled ks s') as [[] ?]; simplify_eq/=.
Qed.

Lemma sim_list clock prefix after limit t s :
  sim clock t s →
  (tx_List cancelled prefix after limit t).1 = (spec_list cancelled prefix after limit s).1 ∧
  sim clock (tx_List cancelled prefix after limit t).2 (spec_list cancelled prefix after limit s).2 ∧
  records (tx_List cancelled prefix after limit t).2 = records t.
Proof.
  intros (Hv & Hc & Hn). unfold tx_List, spec_list. rewrite list_keys_visible, Hv, Hc.
  assert (sim clock (tick t) (mkSpec (smap s) (S (schecks s)))) as Ht
    by (unfold sim, visible in *; cbn; rewrite Hc; done).
  destruct (cancelled _); [done|]. destruct (_ || _); [done|].
  destruct (sim_reads clock (take (Z.to_nat limit) (keys_after prefix after (smap s))) _ _ Ht)
    as (? & ? & ->). by split_and!.
Qed.

(** A write to the set is a write to the visible map. *)
Lemma visible_write k o t :
  visible (tick (with_writes (<[k := o]> (writes t)) t)) =
  match o with Some r => <[k := r]> (visible t) | None => delete k (visible t) end.
Proof.
  apply map_eq. intros i. unfold visible, tick, with_writes; cbn. rewrite lookup_commit.
  destruct (decide (k = i)) as [<-|Hne].
  - rewrite lookup_insert_eq. destruct o; [by rewrite lookup_insert_eq | by rewrite lookup_delete_eq].
  - rewrite lookup_insert_ne by done.
    destruct o; [rewrite lookup_insert_ne by done | rewrite lookup_delete_ne by done];
      by rewrite lookup_commit.
Qed.

Lemma sim_write clock k o t s :
  sim clock t s →
  let ok := negb (cancelled (checks t)) && ValidKey k in
  let t' := if ok then tick (with_writes (<[k := o]> (writes t)) t) else tick t in
  let r := spec_write cancelled k (λ m, match o with Some r => <[k := r]> m | None => delete k m end) s in
  r.1 = (if cancelled (checks t) then Err TCanceled else if negb (ValidKey k) then Err TInvalid else Ok tt) ∧
  sim clock t' r.2 ∧ records t' = records t.
Proof.
  intros (Hv & Hc & Hn). cbv zeta. unfold spec_write. rewrite Hc.
  assert (sim clock (tick t) (mkSpec (smap s) (S (schecks s)))) as Ht
    by (unfold sim, visible in *; cbn; rewrite Hc; done).
  destruct (cancelled (schecks s)); cbn [negb andb fst snd]; [done|].
  destruct (ValidKey k); cbn [negb fst snd]; [|done]. split_and!; [done| |done].
  unfold sim. rewrite visible_write, Hv. cbn. by rewrite Hc.
Qed.

Lemma sim_exec {A} clock (p : txprog A) : ∀ t s,
  sim clock t s →
  (tx_exec cancelled p t).1 = (spec_exec cancelled clock p s).1 ∧
  sim clock (tx_exec cancelled p t).2 (spec_exec cancelled clock p s).2 ∧
  records (tx_exec cancelled p t).2 = records t.
Proof.
  induction p as [a|k IH|key k IH|pre aft lim k IH|r k IH|key k IH]; intros t s H;
    cbn [tx_exec spec_exec].
  - done.
  - destruct H as (Hv & Hc & <-). by apply IH.
  - destruct (sim_get clock key t s H) as (H1 & H2 & <-).
    destruct (tx_Get cancelled key t) as [x t'], (spec_get cancelled key s) as [x' s'].
    simplify_eq/=. by apply IH.
  - destruct (sim_list clock pre aft lim t s H) as (H1 & H2 & <-).
    destruct (tx_List cancelled pre aft lim t) as [x t'], (spec_list cancelled pre aft lim s) as [x' s'].
    simplify_eq/=. by apply IH.
  - destruct (sim_write clock (Key r) (Some r) t s H) as (H1 & H2 & <-). unfold tx_Put.
    destruct (spec_write _ _ _ s) as [x' s']. cbn in H1, H2. subst x'.
    destruct (cancelled (checks t)), (ValidKey (Key r)); by apply IH.
  - destruct (sim_write clock key None t s H) as (H1 & H2 & <-). unfold tx_Delete.
    destruct (spec_write _ _ _ s) as [x' s']. cbn in H1, H2. subst x'.
    destruct (cancelled (checks t)), (ValidKey key); by apply IH.
Qed.

Lemma Update_refines {A} clock keys (fn : option (txprog (result terr A))) m :
  let '(r, m') := Update cancelled clock keys fn m in
  (r, mrecords m') = spec_update cancelled clock keys fn (mrecords m).
Proof.
  unfold Update, spec_update. destruct fn as [fn|]; [|done].
  destruct (_ || _); [done|]. destruct (cancelled 0); [done|].
  assert (sim clock (mkTx (mrecords m) ∅ clock 1) (mkSpec (mrecords m) 1)) as Hs.
  { unfold sim, visible; cbn. split_and!; [|done..]. apply map_eq. intros k.
    by rewrite lookup_commit, lookup_empty. }
  destruct (sim_exec clock fn _ _ Hs) as (H1 & (H2 & H3 & _) & H4).
  destruct (tx_exec _ _ _) as [r t], (spec_exec _ _ _ _) as [r' s]. cbn in *. subst r'.
  destruct r as [a|e]; [|done]. rewrite H3. destruct (cancelled (schecks s)); [done|]. cbn.
  by rewrite <-H4, <-H2.
Qed.
End Refinement.

Lemma Memory_Get_refines cancelled k m : Memory_Get cancelled m k = (spec_get cancelled k (mkSpec (mrecords m) 0)).1.
Proof. unfold Memory_Get, tx_Get, spec_get. cbn. rewrite lookup_empty. by repeat case_match. Qed.

#[export] Instance Memory_store : TxStore Memory := {|
  store_view := mrecords;
  store_update := λ A cancelled, @Update cancelled A;
  store_update_spec := λ A cancelled clock keys fn s, Update_refines cancelled clock keys fn s;
  store_get := λ cancelled k m, Memory_Get cancelled m k;
  store_get_spec := Memory_Get_refines
|}.

(** A transaction commits all of its effect or none: for every callback, every store
    time and every moment of cancellation, either [Update] fails and the store is
    unchanged, or it returns the callback's result and the store is the one the
    callback would leave when run directly on it, reading its own writes. *)
Theorem Update_all_or_nothing {A} cancelled clock keys (fn : txprog (result terr A)) m :
  let '(r, m') := Update cancelled clock keys (Some fn) m in
  (∃ e, r = Err e ∧ m' = m) ∨
  (∃ a s, r = Ok a ∧ spec_exec cancelled clock fn (mkSpec (mrecords m) 1) = (Ok a, s) ∧
          mrecords m' = smap s ∧ keys ≠ [] ∧ forallb ValidKey keys = true).
Proof.
  pose proof (Update_refines cancelled clock keys (Some fn) m) as H.
  destruct (Update cancelled clock keys (Some fn) m) as [r m'] eqn:Hu. unfold spec_update in H.
  destruct (_ || _) eqn:Hk in H.
  { simplify_eq. left. exists TInvalid. destruct m, m'; cbn in *. by subst. }
  destruct (cancelled 0%nat).
  { simplify_eq. left. exists TCanceled. destruct m, m'; cbn in *. by subst. }
  destruct (spec_exec _ _ _ _) as [[a|e] s].
  - destruct (cancelled (schecks s)); simplify_eq.
    + left. exists TCanceled. destruct m, m'; cbn in *. by subst.
    + right. exists a, s. apply orb_false_iff in Hk as [? ?]. bool_hyps. by split_and!.
  - simplify_eq. left. exists e. destruct m, m'; cbn in *. by subst.
Qed.

(** ** Keys *)

(** Every record is stored under its own valid key. *)
Definition keys_ok (m : gmap bytes Rec) : Prop :=
  ∀ k r, m !! k = Some r → Key r = k ∧ ValidKey k = true.

Lemma spec_get_map cancelled k s : smap (spec_get cancelled k s).2 = smap s.
Proof. done. Qed.

Lemma spec_reads_map cancelled ks : ∀ s, smap (spec_reads cancelled ks s).2 = smap s.
Proof.
  induction ks as [|k ks IH]; intros s; cbn [spec_reads]; [done|].
  pose proof (spec_get_map cancelled k s) as Hg. destruct (spec_get cancelled k s) as [[r|e] s']; [|done].
  cbn in Hg. specialize (IH s'). destruct (spec_reads cancelled ks s') as [[] ?]; cbn in *; congruence.
Qed.

Lemma spec_list_map cancelled pre aft lim s : smap (spec_list cancelled pre aft lim s).2 = smap s.
Proof.
  unfold spec_list. destruct (cancelled _); [done|]. destruct (_ || _); [done|].
  by rewrite spec_reads_map.
Qed.

Lemma spec_exec_keys_ok {A} cancelled clock (p : txprog A) : ∀ s,
  keys_ok (smap s) → keys_ok (smap (spec_exec cancelled clock p s).2).
Proof.
  induction p as [a|k IH|key k IH|pre aft lim k IH|r k IH|key k IH]; intros s H; cbn [spec_exec].
  - done.
  - by apply IH.
  - pose proof (spec_get_map cancelled key s) as Hm. destruct (spec_get cancelled key s) as [x s'].
    apply IH. cbn in Hm. by rewrite Hm.
  - pose proof (spec_list_map cancelled pre aft lim s) as Hm.
    destruct (spec_list cancelled pre aft lim s). apply IH. cbn in Hm. by rewrite Hm.
  - unfold spec_write. destruct (cancelled _); [by apply IH|].
    destruct (ValidKey (Key r)) eqn:Hv; [|by apply IH]. apply IH. cbn.
    intros k' r'. rewrite lookup_insert_Some. intros [[<- <-]|[_ ?]]; auto.
  - unfold spec_write. destruct (cancelled _); [by apply IH|]. destruct (ValidKey key); [|by apply IH].
    apply IH. cbn. intros k' r'. rewrite lookup_delete_Some. intros [_ ?]; auto.
Qed.

Lemma spec_update_keys_ok {A} cancelled clock keys (fn : option (txprog (result terr A))) m :
  keys_ok m → keys_ok (spec_update cancelled clock keys fn m).2.
Proof.
  intros H. unfold spec_update. destruct fn as [fn|]; [|done]. destruct (_ || _); [done|].
  destruct (cancelled 0%nat); [done|].
  pose proof (spec_exec_keys_ok cancelled clock fn (mkSpec m 1) H) as Hk.
  destruct (spec_exec _ _ _ _) as [[a|e] s]; [|done]. by destruct (cancelled (schecks s)).
Qed.

Lemma spec_reads_ok cancelled ks : ∀ s,
  (∀ n, cancelled n = false) → keys_ok (smap s) → (∀ k, k ∈ ks → is_Some (smap s !! k)) →
  (spec_reads cancelled ks s).1 = Ok (omap (λ k, smap s !! k) ks).
Proof.
  induction ks as [|k ks IH]; intros s Hc Hk Hin; cbn [spec_reads]; [done|].
  destruct (Hin k) as [r Hr]; [by left|]. unfold spec_get.
  rewrite Hc, (proj2 (Hk _ _ Hr)), Hr. cbn [negb].
  specialize (IH (mkSpec (smap s) (S (schecks s))) Hc Hk).
  destruct (spec_reads _ _ _) as [x s']. cbn in IH. rewrite IH by (intros; apply Hin; by right).
  cbn. by rewrite Hr.
Qed.

Lemma keys_after_elem pre aft m k :
  k ∈ keys_after pre aft m ↔
  is_Some (m !! k) ∧ has_prefix k pre = true ∧ bytes_ltb aft k = true.
Proof.
  unfold keys_after. rewrite sort_strings_perm, list_elem_of_filter, list_elem_of_fmap. split.
  - intros [H ([k' r] & -> & Hr%elem_of_map_to_list)]. split; [by eexists|done].
  - intros [[r Hr] H]. split; [done|]. exists (k, r). split; [done|]. by apply elem_of_map_to_list.
Qed.

(** A listing returns the first [limit] records of the store, in key order, whose
    keys have the prefix and come strictly after the cursor; nothing is skipped or
    repeated. *)
Theorem Memory_List_spec m pre aft limit :
  keys_ok (mrecords m) → 0 < limit ≤ 10000 →
  Memory_List (λ _, false) m pre aft limit =
    Ok (omap (λ k, mrecords m !! k) (take (Z.to_nat limit) (keys_after pre aft (mrecords m)))) ∧
  StronglySorted bytes_le (keys_after pre aft (mrecords m)) ∧
  NoDup (keys_after pre aft (mrecords m)) ∧
  (∀ k, k ∈ keys_after pre aft (mrecords m) ↔
     is_Some (mrecords m !! k) ∧ has_prefix k pre = true ∧ bytes_ltb aft k = true).
Proof.
  intros Hk Hl. split_and!; [|apply sort_strings_sorted| |apply keys_after_elem].
  - unfold Memory_List.
    assert (visible (mkTx (mrecords m) ∅ 0 0) = mrecords m) as Hvis.
    { apply map_eq. intros k. unfold visible; cbn. by rewrite lookup_commit, lookup_empty. }
    assert (sim 0 (mkTx (mrecords m) ∅ 0 0) (mkSpec (mrecords m) 0)) as Hs by (by split_and!).
    destruct (sim_list (λ _, false) 0 pre aft limit _ _ Hs) as (-> & _).
    unfold spec_list. cbn [smap].
    rewrite (proj2 (Z.leb_gt limit 0)), (proj2 (Z.ltb_ge 10000 limit)) by lia. cbn [orb].
    rewrite spec_reads_ok; [done|done|done|].
    intros k Hin. apply (keys_after_elem pre aft). by eapply elem_of_take in Hin as (? & ? & ?);
      eapply list_elem_of_lookup_2.
  - unfold keys_after. rewrite sort_strings_perm. apply NoDup_filter, NoDup_fst_map_to_list.
Qed.

(** ** Pruning *)

Definition expired_in (clock : Time) (m : gmap bytes Rec) : gmap bytes Rec :=
  filter (λ '(_, r), expired clock r = true) m.

Lemma expired_in_delete clock k r m :
  m !! k = Some r → expired clock r = true →
  expired_in clock (delete k m) = delete k (expired_in clock m) ∧
  size (expired_in clock m) = S (size (expired_in clock (delete k m))).
Proof.
  intros Hk He.
  assert (expired_in clock m !! k = Some r) as Hf by (by apply map_lookup_filter_Some).
  unfold expired_in in *. rewrite map_filter_delete. split; [done|].
  rewrite map_size_delete_Some by eauto.
  assert (size (filter (λ '(_, r0), expired clock r0 = true) m) ≠ 0%nat); [|lia].
  intros H0%map_size_empty_inv. by rewrite H0, lookup_empty in Hf.
Qed.

(** The loop over an order that covers the expired keys. *)
Lemma prune_loop_spec clock order : ∀ left m,
  0 < left → (∀ k, is_Some (expired_in clock m !! k) → k ∈ order) → NoDup order →
  let '(n, m') := prune_loop clock left order m in
  n = Z.min left (Z.of_nat (size (expired_in clock m))) ∧ m' ⊆ m ∧
  (∀ k r, m !! k = Some r → m' !! k = Some r ∨ (m' !! k = None ∧ expired clock r = true)) ∧
  Z.of_nat (size m') + n = Z.of_nat (size m).
Proof.
  induction order as [|k order IH]; intros left m Hl Hin Hn; cbn.
  { assert (expired_in clock m = ∅) as ->.
    { apply map_empty. intros k. apply eq_None_not_Some. intros H%Hin. by apply elem_of_nil in H. }
    rewrite map_size_empty. split_and!; [lia|done|auto|lia]. }
  apply NoDup_cons in Hn as [Hk Hn].
  destruct (m !! k) as [r|] eqn:Hm; [destruct (expired clock r) eqn:He|].
  - destruct (expired_in_delete clock k r m Hm He) as [Hdel Hsize].
    assert (size m = S (size (delete k m))) as Hsm.
    { rewrite map_size_delete_Some by eauto. assert (size m ≠ 0%nat); [|lia].
      intros H0%map_size_empty_inv. by rewrite H0, lookup_empty in Hm. }
    assert (∀ k' r', m !! k' = Some r' → delete k m !! k' = Some r' ∨
              (delete k m !! k' = None ∧ expired clock r' = true)) as Hkeep.
    { intros k' r' Hk'. destruct (decide (k = k')) as [<-|].
      - rewrite lookup_delete_eq. right. by simplify_eq.
      - rewrite lookup_delete_ne by done. auto. }
    destruct (Z.eqb_spec left 1) as [->|Hl1].
    + split_and!; [lia|apply delete_subseteq|done|lia].
    + specialize (IH (left - 1) (delete k m)).
      destruct (prune_loop clock (left - 1) order (delete k m)) as [n m'].
      destruct IH as (H1 & H2 & H3 & H4); [lia| |done|].
      { intros k' Hs. rewrite Hdel in Hs. destruct (decide (k = k')) as [<-|Hne].
        - rewrite lookup_delete_eq in Hs. by destruct Hs.
        - rewrite lookup_delete_ne in Hs by done. apply Hin in Hs. set_solver. }
      split_and!; [lia|by etransitivity; [|apply delete_subseteq]| |lia].
      intros k' r' Hk'. destruct (Hkeep k' r' Hk') as [Hd|[Hd ?]]; [by apply H3|].
      right. split; [|done].
      destruct (m' !! k') as [r''|] eqn:Hm'; [|done].
      pose proof (lookup_weaken _ _ _ _ Hm' H2). congruence.
  - apply IH; [done| |done]. intros k' Hs. pose proof (Hin k' Hs) as H.
    apply elem_of_cons in H as [->|]; [|done]. destruct Hs as [r' [Hs ?]%map_lookup_filter_Some].
    simplify_eq. congruence.
  - apply IH; [done| |done]. intros k' Hs. pose proof (Hin k' Hs) as H.
    apply elem_of_cons in H as [->|]; [|done]. destruct Hs as [r' [Hs ?]%map_lookup_filter_Some].
    congruence.
Qed.

(** Pruning deletes expired records only, never more than asked and all of them when
    there are no more than that, and reports how many; live and immortal records stay
    as they are. This holds for every order in which the map is traversed. *)
Theorem Prune_spec clock order limit m n m' :
  order ≡ₚ (map_to_list (mrecords m)).*1 →
  Prune (λ _, false) clock order limit m = Ok (n, m') →
  n = Z.min limit (Z.of_nat (size (expired_in clock (mrecords m)))) ∧
  mrecords m' ⊆ mrecords m ∧
  (∀ k r, mrecords m !! k = Some r → expired clock r = false → mrecords m' !! k = Some r) ∧
  Z.of_nat (size (mrecords m')) = Z.of_nat (size (mrecords m)) - n.
Proof.
  intros Ho. unfold Prune. destruct (_ || _) eqn:Hl; [done|]. bool_hyps.
  pose proof (prune_loop_spec clock order limit (mrecords m)) as H'.
  destruct (prune_loop _ _ _ _) as [n' rs]. intros [= <- <-].
  destruct H' as (H1 & H2 & H3 & H4); [lia| | |].
  - intros k [r [Hr _]%map_lookup_filter_Some]. rewrite Ho. apply list_elem_of_fmap.
    exists (k, r). split; [done|]. by apply elem_of_map_to_list.
  - rewrite Ho. apply NoDup_fst_map_to_list.
  - cbn. split_and!; [done|done| |lia]. intros k r Hk He.
    destruct (H3 k r Hk) as [|[_ ?]]; congruence.
Qed.

(** ** A concrete store *)

Definition rec1 : Rec := mkRec (bs "a/1") (bs "x") 50.
Definition rec2 : Rec := mkRec (bs "a/2") (bs "y") 0.
Definition mem1 : Memory := mkMemory {[ bs "a/1" := rec1; bs "a/2" := rec2 ]}.

Lemma Memory_List_spec_witness :
  Memory_List (λ _, false) mem1 (bs "a/") (bs "a/1") 10 = Ok [rec2].
Proof.
  destruct (Memory_List_spec mem1 (bs "a/") (bs "a/1") 10) as [H _].
  - intros k r Hk. unfold mem1, mrecords in Hk. apply lookup_insert_Some in Hk as [[<- <-]|[_ Hk]]; [vm_compute; auto|].
    apply lookup_singleton_Some in Hk as [<- <-]. vm_compute. auto.
  - lia.
  - rewrite H. vm_compute. reflexivity.
Defined.

Lemma Prune_spec_witness :
  ∃ m', Prune (λ _, false) 60 ((map_to_list (mrecords mem1)).*1) 5 mem1 = Ok (1, m') ∧
        mrecords m' ⊆ mrecords mem1.
Proof.
  destruct (Prune (λ _, false) 60 ((map_to_list (mrecords mem1)).*1) 5 mem1) as [[n m']|] eqn:H;
    [|vm_compute in H; discriminate H].
  destruct (Prune_spec 60 ((map_to_list (mrecords mem1)).*1) 5 mem1 n m' (reflexivity _) H)
    as (Hn & Hs & _).
  exists m'. split; [|exact Hs]. rewrite Hn. vm_compute. reflexivity.
Defined.
