(* ===== verification/Sha256.v ===== *)
(** * SHA-256 and hexadecimal text

    The digest of the Go standard library ([crypto/sha256], FIPS 180-4) and
    [encoding/hex], with the byte-order helpers of [encoding/binary], as the rate
    limiter uses them. *)
From S2P Require Import Prelude GoStrings.

(** ** Big-endian integers *)

(** [binary.BigEndian.PutUint64] and its kin: the [n] low bytes of [z], most
    significant first. *)
Fixpoint put_be (n : nat) (z : Z) : bytes :=
  match n with
  | O => []
  | S n' => put_be n' (z / 256) ++ [z mod 256]
  end.
Definition get_be (l : bytes) : Z := foldl (λ a b, a * 256 + b) 0 l.

Lemma put_be_length n z : length (put_be n z) = n.
Proof. revert z. induction n as [|n IH]; intros z; cbn; [done|]. rewrite length_app, IH. cbn. lia. Qed.

Lemma get_put_be n z : get_be (put_be n z) = z mod 256 ^ Z.of_nat n.
Proof.
  revert z. induction n as [|n IH]; intros z; [cbn; by rewrite Z.mod_1_r|].
  cbn [put_be]. unfold get_be in *. rewrite foldl_app, IH. cbn [foldl].
  rewrite Nat2Z.inj_succ, Z.pow_succ_r by lia.
  rewrite Z.rem_mul_r by (try apply Z.pow_pos_nonneg; lia). lia.
Qed.

Lemma put_be_bytes n z : Forall is_byte (put_be n z).
Proof.
  revert z. induction n as [|n IH]; intros z; cbn; [constructor|].
  apply Forall_app; split; [done|]. constructor; [|constructor].
  unfold is_byte. apply Z.mod_pos_bound. lia.
Qed.

(** ** The digest *)

Definition w32 (z : Z) : Z := Z.land z 0xffffffff.
Definition rotr (n x : Z) : Z := Z.lor (Z.shiftr x n) (w32 (Z.shiftl x (32 - n))).

(** The round constants are the first 32 bits of the fractional parts of the cube roots
    of the first 64 primes, the initial state those of the square roots of the first
    eight (FIPS 180-4, 4.2.2 and 5.3.3); both are computed. *)
Definition sha_primes : list Z :=
  filter (λ n, forallb (λ d, negb (n mod d =? 0)) (seqZ 2 (n - 2)) = true) (seqZ 2 310).

(** The integer cube root, bit by bit from the top. *)
Fixpoint cube_root (bits : nat) (n acc : Z) : Z :=
  match bits with
  | O => acc
  | S b => let next := acc + 2 ^ Z.of_nat b in
           cube_root b n (if next ^ 3 <=? n then next else acc)
  end.

Definition sha_K : list Z := Eval vm_compute in
  (λ p, cube_root 36 (p * 2 ^ 96) 0 mod 2 ^ 32) <$> sha_primes.

Record sha_state := mkSha { sa : Z; sb : Z; sc : Z; sd : Z; se : Z; sf : Z; sg : Z; sh : Z }.

Definition sha_init : sha_state := Eval vm_compute in
  let root i := Z.sqrt (nth i sha_primes 0 * 2 ^ 64) mod 2 ^ 32 in
  mkSha (root 0%nat) (root 1%nat) (root 2%nat) (root 3%nat)
        (root 4%nat) (root 5%nat) (root 6%nat) (root 7%nat).

Definition sha_round (s : sha_state) (kw : Z * Z) : sha_state :=
  let '(k, w) := kw in
  let s1 := Z.lxor (rotr 6 (se s)) (Z.lxor (rotr 11 (se s)) (rotr 25 (se s))) in
  let ch := Z.lxor (Z.land (se s) (sf s)) (Z.land (Z.lxor (se s) 0xffffffff) (sg s)) in
  let t1 := sh s + s1 + ch + k + w in
  let s0 := Z.lxor (rotr 2 (sa s)) (Z.lxor (rotr 13 (sa s)) (rotr 22 (sa s))) in
  let maj := Z.lxor (Z.land (sa s) (sb s)) (Z.lxor (Z.land (sa s) (sc s)) (Z.land (sb s) (sc s))) in
  mkSha (w32 (t1 + s0 + maj)) (sa s) (sb s) (sc s) (w32 (sd s + t1)) (se s) (sf s) (sg s).

(** The message schedule, latest word first. *)
Fixpoint sha_schedule (n : nat) (ws : list Z) : list Z :=
  match n with
  | O => ws
  | S n' =>
      let w i := nth i ws 0 in
      let x := w 14%nat in let y := w 1%nat in
      let s0 := Z.lxor (rotr 7 x) (Z.lxor (rotr 18 x) (Z.shiftr x 3)) in
      let s1 := Z.lxor (rotr 17 y) (Z.lxor (rotr 19 y) (Z.shiftr y 10)) in
      sha_schedule n' (w32 (w 15%nat + s0 + w 6%nat + s1) :: ws)
  end.

Fixpoint sha_words (n : nat) (l : bytes) : list Z :=
  match n with O => [] | S n' => get_be (take 4 l) :: sha_words n' (drop 4 l) end.

Definition sha_block (s : sha_state) (block : bytes) : sha_state :=
  let ws := reverse (sha_schedule 48 (reverse (sha_words 16 block))) in
  let t := foldl sha_round s (zip sha_K ws) in
  mkSha (w32 (sa s + sa t)) (w32 (sb s + sb t)) (w32 (sc s + sc t)) (w32 (sd s + sd t))
    (w32 (se s + se t)) (w32 (sf s + sf t)) (w32 (sg s + sg t)) (w32 (sh s + sh t)).

Definition sha_pad (m : bytes) : bytes :=
  let n := Z.of_nat (length m) in
  m ++ 128 :: replicate (Z.to_nat ((55 - n) mod 64)) 0 ++ put_be 8 (8 * n).

Fixpoint sha_blocks (n : nat) (s : sha_state) (l : bytes) : sha_state :=
  match n with O => s | S n' => sha_blocks n' (sha_block s (take 64 l)) (drop 64 l) end.

Definition Sum256 (m : bytes) : bytes :=
  let p := sha_pad m in
  let s := sha_blocks (length p / 64) sha_init p in
  put_be 4 (sa s) ++ put_be 4 (sb s) ++ put_be 4 (sc s) ++ put_be 4 (sd s)
  ++ put_be 4 (se s) ++ put_be 4 (sf s) ++ put_be 4 (sg s) ++ put_be 4 (sh s).

(** ** Hexadecimal *)

Definition hex_digit (n : Z) : Z := if n <? 10 then 48 + n else 87 + n.
Fixpoint hex_EncodeToString (l : bytes) : bytes :=
  match l with
  | [] => []
  | b :: l' => hex_digit (b / 16) :: hex_digit (b mod 16) :: hex_EncodeToString l'
  end.

Example sha256_abc :
  hex_EncodeToString (Sum256 (bs "abc")) =
  bs "ba7816bf8f01cfea414140de5dae2223b00361a396177a9cb410ff61f20015ad".
Proof. vm_compute. reflexivity. Qed.

Definition is_hex (c : Z) : Prop := 48 ≤ c ≤ 57 ∨ 97 ≤ c ≤ 102.

Lemma hex_digit_hex n : 0 ≤ n < 16 → is_hex (hex_digit n).
Proof. unfold hex_digit, is_hex. destruct (Z.ltb_spec n 10); lia. Qed.

Lemma hex_spec l :
  Forall is_byte l →
  Forall is_hex (hex_EncodeToString l) ∧ length (hex_EncodeToString l) = (2 * length l)%nat.
Proof.
  induction 1 as [|b l [Hb1 Hb2] _ [IH1 IH2]]; cbn; [done|].
  split; [|lia].
  repeat (constructor; [apply hex_digit_hex|]); [..|done].
  - split; [apply Z.div_pos; lia|]. apply Z.div_lt_upper_bound; lia.
  - apply Z.mod_pos_bound. lia.
Qed.

Lemma Sum256_spec m : length (Sum256 m) = 32%nat ∧ Forall is_byte (Sum256 m).
Proof.
  unfold Sum256. cbv zeta. split.
  - rewrite !length_app, !put_be_length. done.
  - rewrite !Forall_app. auto 10 using put_be_bytes.
Qed.
