(* ===== verification/Mdm.v ===== *)
(** * MDM envelopes and identities: [devicemanagement/mdmprotocol/mdm]

    The enrollment channels, the identity keys a device sends and the enrollment
    identity they resolve to, push credentials, commands and command responses.
    Property-list decoding is code outside the repository ([micromdm/plist] under
    the generated schema registry), so it is the parameter [PlistDecoder].

    The theorems: an identity that [Resolve] returns always passes [Validate],
    and so does the device channel it belongs to, which is the identity the same
    keys resolve to without the user; a decoded response has a status Apple
    defines, names its command unless it is idle, and carries a valid identity. *)
From S2P Require Import Prelude GoStrings Sha256.

(** ** Channels *)

(** A channel is a [uint8]; values above [ChannelUserEnrollmentUser] exist but are
    not [Valid]. *)
Abbreviation Channel := Z.
(* @src devicemanagement/mdmprotocol/mdm/mdm.go 13-24 Channel *)
Definition ChannelUnknown : Channel := 0.
Definition ChannelDevice : Channel := 1.
Definition ChannelUser : Channel := 2.
Definition ChannelSharedIPadUser : Channel := 3.
Definition ChannelUserEnrollmentDevice : Channel := 4.
Definition ChannelUserEnrollmentUser : Channel := 5.

(* @src devicemanagement/mdmprotocol/mdm/mdm.go 27-42 Channel.String *)
Definition Channel_String (c : Channel) : bytes :=
  if c =? ChannelDevice then bs "device"
  else if c =? ChannelUser then bs "user"
  else if c =? ChannelSharedIPadUser then bs "shared-ipad-user"
  else if c =? ChannelUserEnrollmentDevice then bs "user-enrollment-device"
  else if c =? ChannelUserEnrollmentUser then bs "user-enrollment-user"
  else bs "unknown".

(* @src devicemanagement/mdmprotocol/mdm/mdm.go 45-47 Channel.IsUser *)
Definition IsUser (c : Channel) : bool :=
  (c =? ChannelUser) || (c =? ChannelSharedIPadUser) || (c =? ChannelUserEnrollmentUser).

(* @src devicemanagement/mdmprotocol/mdm/mdm.go 50-50 Channel.Valid *)
Definition Channel_Valid (c : Channel) : bool :=
  (ChannelUnknown <? c) && (c <=? ChannelUserEnrollmentUser).

(** ** Identities *)

(* @src devicemanagement/mdmprotocol/mdm/mdm.go 54-54 SharedIPadUserID *)
Definition SharedIPadUserID : bytes := bs "FFFFFFFF-FFFF-FFFF-FFFF-FFFFFFFFFFFF".

(* @src devicemanagement/mdmprotocol/mdm/mdm.go 58-65 Enrollment *)
Record IdentityKeys := mkKeys {
  UDID : bytes;
  UserID : bytes;
  UserShortName : bytes;
  UserLongName : bytes;
  EnrollmentID_ : bytes;
  EnrollmentUserID : bytes
}.
#[export] Instance IdentityKeys_eq_dec : EqDecision IdentityKeys.
Proof. solve_decision. Defined.

(* @src devicemanagement/mdmprotocol/mdm/mdm.go 70-74 EnrollmentID *)
Record EnrollmentID := mkID { IDChannel : Channel; ID : bytes; ParentID : bytes }.
#[export] Instance EnrollmentID_eq_dec : EqDecision EnrollmentID.
Proof. solve_decision. Defined.
#[export] Instance EnrollmentID_countable : Countable EnrollmentID.
Proof.
  refine (inj_countable' (λ e, (IDChannel e, ID e, ParentID e))
            (λ '(c, i, p), mkID c i p) _).
  by intros [].
Defined.

(** The zero [EnrollmentID]. *)
Definition noID : EnrollmentID := mkID ChannelUnknown [] [].

(* @src devicemanagement/mdmprotocol/mdm/mdm.go 77-84 errors *)
Inductive merr :=
| ErrNoEnrollmentID | ErrInvalidEnrollment | ErrSharedIPadNoUser
| ErrUnknownMessageType | ErrInvalidCommand | ErrInvalidResponse
| ErrPlist.
#[export] Instance merr_eq_dec : EqDecision merr.
Proof. solve_decision. Defined.

(* @src devicemanagement/mdmprotocol/mdm/mdm.go 91-100 EnrollmentID.Device *)
Definition Device (e : EnrollmentID) : EnrollmentID :=
  if negb (IsUser (IDChannel e)) then e
  else mkID (if IDChannel e =? ChannelUserEnrollmentUser then ChannelUserEnrollmentDevice
             else ChannelDevice) (ParentID e) [].

(* @src devicemanagement/mdmprotocol/mdm/mdm.go 103-115 EnrollmentID.Validate *)
Definition Validate (e : EnrollmentID) : result merr unit :=
  if negb (Channel_Valid (IDChannel e)) then Err ErrInvalidEnrollment
  else if bool_decide (ID e = []) then Err ErrInvalidEnrollment
  else if IsUser (IDChannel e) && bool_decide (ParentID e = []) then Err ErrInvalidEnrollment
  else if negb (IsUser (IDChannel e)) && bool_decide (ParentID e ≠ []) then
    Err ErrInvalidEnrollment
  else Ok tt.

(** The separator of a user channel's id, ["<device>:<user>"]. *)
Definition colon : Z := 58.

(* @src devicemanagement/mdmprotocol/mdm/mdm.go 125-145 Enrollment.Resolve *)
Definition Resolve (en : IdentityKeys) : result merr EnrollmentID :=
  if bool_decide (UDID en ≠ []) then
    if bool_decide (UserID en = []) then Ok (mkID ChannelDevice (UDID en) [])
    else if bool_decide (UserID en = SharedIPadUserID) then
      if bool_decide (UserShortName en = []) then Err ErrSharedIPadNoUser
      else Ok (mkID ChannelSharedIPadUser (UDID en ++ colon :: UserShortName en) (UDID en))
    else Ok (mkID ChannelUser (UDID en ++ colon :: UserID en) (UDID en))
  else if bool_decide (EnrollmentID_ en ≠ []) then
    if bool_decide (EnrollmentUserID en = []) then
      Ok (mkID ChannelUserEnrollmentDevice (EnrollmentID_ en) [])
    else Ok (mkID ChannelUserEnrollmentUser
               (EnrollmentID_ en ++ colon :: EnrollmentUserID en) (EnrollmentID_ en))
  else Err ErrNoEnrollmentID.

(** ** Push credentials *)

(* @src devicemanagement/mdmprotocol/mdm/mdm.go 148-152 Push *)
Record Push := mkPush { Topic : bytes; Token : bytes; Magic : bytes }.
#[export] Instance Push_eq_dec : EqDecision Push.
Proof. solve_decision. Defined.
Definition noPush : Push := mkPush [] [] [].

(* @src devicemanagement/mdmprotocol/mdm/mdm.go 155-155 Push.Valid *)
Definition Push_Valid (p : Push) : bool :=
  bool_decide (Topic p ≠ []) && bool_decide (Token p ≠ []) && bool_decide (Magic p ≠ []).

(** The generated check-in messages, with the fields the library reads. *)
(* @src devicemanagement/schema/checkin/types.gen.go 242-274 TokenUpdate *)
Record TokenUpdate := mkTokenUpdate {
  tu_NotOnConsole : bool;
  tu_MessageType : bytes;
  tu_Topic : bytes;
  tu_UDID : bytes;
  tu_EnrollmentID : bytes;
  tu_EnrollmentUserID : bytes;
  tu_UserShortName : option bytes;
  tu_UserID : option bytes;
  tu_UserLongName : bytes;
  tu_Token : bytes;
  tu_PushMagic : bytes;
  tu_UnlockToken : bytes;
  tu_AwaitingConfiguration : option bool
}.
#[export] Instance TokenUpdate_eq_dec : EqDecision TokenUpdate.
Proof. solve_decision. Defined.

(* @src devicemanagement/schema/checkin/types.gen.go 9-38 Authenticate *)
Record Authenticate := mkAuthenticate {
  au_DeviceName : bytes;
  au_ModelName : bytes;
  au_Model : bytes;
  au_MessageType : bytes;
  au_Topic : bytes;
  au_UDID : option bytes;
  au_EnrollmentID : option bytes;
  au_OSVersion : option bytes;
  au_BuildVersion : option bytes;
  au_ProductName : option bytes;
  au_SerialNumber : option bytes;
  au_IMEI : option bytes;
  au_MEID : option bytes
}.
#[export] Instance Authenticate_eq_dec : EqDecision Authenticate.
Proof. solve_decision. Defined.

(* @src devicemanagement/mdmprotocol/mdm/checkin.go 91-100 PushFromTokenUpdate *)
Definition PushFromTokenUpdate (m : option TokenUpdate) : result merr Push :=
  match m with
  | None => Err ErrInvalidEnrollment
  | Some m =>
      let p := mkPush (tu_Topic m) (tu_Token m) (tu_PushMagic m) in
      if negb (Push_Valid p) then Err ErrInvalidEnrollment else Ok p
  end.

(** ** Commands and responses *)

(** [Payload] is the typed command, which no modelled operation looks into: it is
    identified with its encoding, and a nil payload is [None]. *)
(* @src devicemanagement/mdmprotocol/mdm/command.go 14-22 Command *)
Record Command := mkCommand {
  UUID : bytes;
  RequestType : bytes;
  Payload : option bytes;
  CmdRaw : bytes
}.
#[export] Instance Command_eq_dec : EqDecision Command.
Proof. solve_decision. Defined.
#[export] Instance Command_eta : Eta Command :=
  λ c, mkCommand (UUID c) (RequestType c) (Payload c) (CmdRaw c).

Abbreviation Status := bytes.
(* @src devicemanagement/mdmprotocol/mdm/response.go 10-19 Status *)
Definition StatusAcknowledged : Status := bs "Acknowledged".
Definition StatusError : Status := bs "Error".
Definition StatusCommandFormatError : Status := bs "CommandFormatError".
Definition StatusIdle : Status := bs "Idle".
Definition StatusNotNow : Status := bs "NotNow".

(* @src devicemanagement/mdmprotocol/mdm/response.go 22-28 Status.Valid *)
Definition Status_Valid (s : Status) : bool :=
  bool_decide (s ∈ [StatusAcknowledged; StatusError; StatusCommandFormatError;
                    StatusIdle; StatusNotNow]).

(** The typed responses whose fields the library reads; any other registered type
    is [OtherResponse]. *)
Inductive ResponsePayload :=
| DeviceInformationResponse (IsSupervised IsAppleSilicon : option bool)
    (OSVersion ProductName BuildVersion : option bytes)
| SecurityInfoResponse (ManagementStatus : option (option bool * option bool))
| OtherResponse (requestType : bytes).
#[export] Instance ResponsePayload_eq_dec : EqDecision ResponsePayload.
Proof. solve_decision. Defined.

(* @src devicemanagement/mdmprotocol/mdm/response.go 31-36 ErrorChainItem *)
Record ErrorChainItem := mkErrorChainItem {
  ErrorCode : Z;
  ErrorDomain : bytes;
  LocalizedDescription : bytes;
  USEnglishDescription : bytes
}.
#[export] Instance ErrorChainItem_eq_dec : EqDecision ErrorChainItem.
Proof. solve_decision. Defined.

(* @src devicemanagement/mdmprotocol/mdm/response.go 39-49 Response *)
Record Response := mkResponse {
  rsp_Enrollment : IdentityKeys;
  rsp_ID : EnrollmentID;
  rsp_CommandUUID : bytes;
  rsp_Status : Status;
  rsp_ErrorChain : list ErrorChainItem;
  rsp_Payload : option ResponsePayload;
  rsp_Raw : bytes
}.
#[export] Instance Response_eq_dec : EqDecision Response.
Proof. solve_decision. Defined.

(* @src devicemanagement/mdmprotocol/mdm/response.go 52-52 Response.IsIdle *)
Definition IsIdle (r : Response) : bool := bool_decide (rsp_Status r = StatusIdle).

(* @src devicemanagement/mdmprotocol/mdm/response.go 54-59 responseHead *)
Record responseHead := mkHead {
  h_Enrollment : IdentityKeys;
  h_CommandUUID : bytes;
  h_Status : Status;
  h_ErrorChain : list ErrorChainItem
}.

(** The property-list decoder: the envelope of a response, whether the generated
    registry knows a request type, and the typed payload it decodes. *)
Class PlistDecoder := {
  unmarshal_head : bytes → option responseHead;
  response_known : bytes → bool;
  unmarshal_payload : bytes → bytes → option ResponsePayload
}.

Section WithDecoder.
Context `{!PlistDecoder}.

(* @src devicemanagement/mdmprotocol/mdm/response.go - DecodeResponse *)
Definition DecodeResponse (raw requestType : bytes) : result merr Response :=
  match unmarshal_head raw with
  | None => Err ErrPlist
  | Some head =>
      if bool_decide (h_Status head = []) then Err ErrInvalidResponse
      else if negb (Status_Valid (h_Status head)) then Err ErrInvalidResponse
      else if bool_decide (h_Status head ≠ StatusIdle) && bool_decide (h_CommandUUID head = [])
      then Err ErrInvalidResponse
      else
        id ← Resolve (h_Enrollment head);
        let r p := mkResponse (h_Enrollment head) id (h_CommandUUID head) (h_Status head)
                     (h_ErrorChain head) p raw in
        if bool_decide (requestType ≠ []) && bool_decide (h_Status head = StatusAcknowledged)
           && response_known requestType
        then match unmarshal_payload requestType raw with
             | None => Err ErrPlist
             | Some p => Ok (r (Some p))
             end
        else Ok (r None)
  end.
End WithDecoder.

(** ** Theorems *)

Lemma Validate_spec e :
  Validate e = Ok tt ↔
  1 ≤ IDChannel e ≤ 5 ∧ ID e ≠ [] ∧ (IsUser (IDChannel e) = true ↔ ParentID e ≠ []).
Proof.
  unfold Validate, Channel_Valid, ChannelUnknown, ChannelUserEnrollmentUser.
  destruct (Z.ltb_spec 0 (IDChannel e)), (Z.leb_spec (IDChannel e) 5); cbn;
    [|intuition (lia || done)..].
  case_bool_decide; [intuition (lia || done)|].
  destruct (IsUser _); cbn; repeat case_bool_decide; cbn;
    repeat case_bool_decide; intuition (done || lia).
Qed.

Lemma Device_not_user e : IsUser (IDChannel (Device e)) = false.
Proof.
  unfold Device. destruct (IsUser (IDChannel e)) eqn:H; cbn; [|done].
  by destruct (IDChannel e =? ChannelUserEnrollmentUser).
Qed.

Lemma Device_valid e : Validate e = Ok tt → Validate (Device e) = Ok tt.
Proof.
  rewrite !Validate_spec. intros (H1 & H2 & H3). unfold Device.
  destruct (IsUser (IDChannel e)) eqn:H; cbn; [|by rewrite H].
  destruct (IDChannel e =? ChannelUserEnrollmentUser); cbn; intuition (lia || done).
Qed.

Lemma Device_idem e : Device (Device e) = Device e.
Proof. unfold Device at 1. by rewrite Device_not_user. Qed.

(** The same identity keys with the user's keys cleared. *)
Definition device_keys (en : IdentityKeys) : IdentityKeys :=
  mkKeys (UDID en) [] [] [] (EnrollmentID_ en) [].

Lemma Resolve_facts en id :
  Resolve en = Ok id → Validate id = Ok tt ∧ Resolve (device_keys en) = Ok (Device id).
Proof.
  intros H. rewrite Validate_spec. revert H.
  unfold Resolve, device_keys; cbn [UDID UserID EnrollmentID_ EnrollmentUserID].
  rewrite !(bool_decide_true ([] = [])) by done.
  destruct (UDID en) as [|u us] eqn:Hu, (EnrollmentID_ en) as [|w ws] eqn:Hw;
    repeat case_bool_decide; try done; intros [= <-]; cbn;
    repeat split; try done; try lia; try (by destruct (_ : bytes)).
Qed.

(** Every identity [Resolve] returns is well formed, its device channel is well
    formed too, and that device channel is the identity the same keys resolve to
    once the user's keys are removed: user and device messages of one enrollment
    always meet in the same record. *)
Theorem Resolve_sound en id :
  Resolve en = Ok id →
  Validate id = Ok tt ∧ Validate (Device id) = Ok tt ∧
  Resolve (device_keys en) = Ok (Device id).
Proof. intros [? ?]%Resolve_facts. auto using Device_valid. Qed.


(** A response that decodes has one of the statuses Apple defines, names the
    command it answers unless it is an idle poll, and carries a valid identity;
    its typed payload is present only on an acknowledged answer to a known
    request type. *)
Theorem DecodeResponse_sound `{!PlistDecoder} raw requestType r :
  DecodeResponse raw requestType = Ok r →
  Status_Valid (rsp_Status r) = true ∧
  (IsIdle r = false → rsp_CommandUUID r ≠ []) ∧
  Validate (rsp_ID r) = Ok tt ∧ rsp_Raw r = raw ∧
  (rsp_Payload r ≠ None → rsp_Status r = StatusAcknowledged ∧ response_known requestType = true).
Proof.
  unfold DecodeResponse, IsIdle. destruct (unmarshal_head raw) as [h|]; [|done].
  case_bool_decide as H1; [done|].
  destruct (Status_Valid (h_Status h)) eqn:H2; cbn; [|done].
  destruct (_ && _) eqn:H3; [done|].
  destruct (Resolve (h_Enrollment h)) as [id|] eqn:H4; cbn; [|done].
  pose proof (Resolve_facts _ _ H4) as [Hv _].
  assert (bool_decide (h_Status h = StatusIdle) = false → h_CommandUUID h ≠ []) as H5.
  { rewrite bool_decide_eq_false. intros Hi.
    rewrite (bool_decide_true (h_Status h ≠ StatusIdle)) in H3 by done.
    by apply bool_decide_eq_false in H3. }
  destruct (_ && response_known requestType) eqn:H6.
  - destruct (unmarshal_payload _ _); [|done]. intros [= <-]; cbn.
    apply andb_true_iff in H6 as [[_ H6%bool_decide_eq_true]%andb_true_iff H7]. auto 10.
  - intros [= <-]; cbn. repeat split; try done.
Qed.

(** A decoder that knows one acknowledged reply, for the witnesses. *)
Definition sample_head : responseHead :=
  mkHead (mkKeys (bs "U1") [] [] [] [] []) (bs "CMD-1") StatusAcknowledged [].
#[local] Instance sample_decoder : PlistDecoder := {|
  unmarshal_head raw := if decide (raw = bs "reply") then Some sample_head else None;
  response_known t := bool_decide (t = bs "DeviceInformation");
  unmarshal_payload _ _ :=
    Some (DeviceInformationResponse (Some true) None (Some (bs "26.4")) None None)
|}.

Lemma DecodeResponse_sound_witness :
  ∃ r, DecodeResponse (bs "reply") (bs "DeviceInformation") = Ok r ∧
       Status_Valid (rsp_Status r) = true ∧ rsp_Raw r = bs "reply".
Proof.
  destruct (DecodeResponse (bs "reply") (bs "DeviceInformation")) as [r|e] eqn:H.
  - exists r. destruct (DecodeResponse_sound _ _ _ H) as (H1 & _ & _ & H2 & _). auto.
  - vm_compute in H. discriminate H.
Defined.

(** ** Check-in messages and commands: [mdmprotocol/mdm/checkin.go], [command.go]

    The messages a device checks in with, the requests that carry them, and the wire form
    of commands. Property lists are outside the repository: the classes [CheckinCodec] and
    [CommandCodec] are what the code uses of them and of the generated registries. *)

(** ** Messages *)

(** The generated check-in types, with the fields the library reads. *)
(* @src devicemanagement/schema/checkin/types.gen.go 282-293 UserAuthenticate *)
Record UserAuthenticate := mkUserAuthenticate { um_UserID : bytes; um_DigestResponse : bytes }.
(* @src devicemanagement/schema/checkin/registry.gen.go 64-74 Registry *)
Inductive Message :=
| MAuthenticate (m : Authenticate)
| MCheckOut
| MDeclarativeManagement (endpoint data : bytes)
| MGetBootstrapToken
| MGetToken (tokenServiceType : bytes)
| MReturnToService
| MSetBootstrapToken (token : bytes)
| MTokenUpdate (m : TokenUpdate)
| MUserAuthenticate (m : UserAuthenticate).

(** The wire identifier of a message. *)
(* @src devicemanagement/schema/checkin/registry.gen.go 40-59 wire identifiers *)
Definition MessageTypeName (m : Message) : bytes :=
  match m with
  | MAuthenticate _ => bs "Authenticate" | MCheckOut => bs "CheckOut"
  | MDeclarativeManagement _ _ => bs "DeclarativeManagement" | MGetBootstrapToken => bs "GetBootstrapToken"
  | MGetToken _ => bs "GetToken" | MReturnToService => bs "ReturnToService"
  | MSetBootstrapToken _ => bs "SetBootstrapToken" | MTokenUpdate _ => bs "TokenUpdate"
  | MUserAuthenticate _ => bs "UserAuthenticate"
  end.

(* @src devicemanagement/mdmprotocol/mdm/checkin.go 13-24 Checkin *)
Record Checkin := mkCheckin {
  ck_Type : bytes; ck_Message : option Message; ck_Enrollment : IdentityKeys; ck_ID : EnrollmentID; ck_Raw : bytes }.

(** The decoder's view of a check-in: its type, the message of that type, the identity keys. *)
Class CheckinCodec := {
  checkin_type : bytes → option bytes;
  checkin_known : bytes → bool;
  checkin_message : bytes → bytes → option Message;
  checkin_keys : bytes → option IdentityKeys }.

(* @src devicemanagement/mdmprotocol/mdm/checkin.go - checkinEnvelope.UnmarshalPlist *)
Definition unmarshal_checkin `{!CheckinCodec} (raw : bytes) : result merr (bytes * Message * IdentityKeys) :=
  match checkin_type raw with
  | None => Err ErrPlist
  | Some typ =>
      if negb (checkin_known typ) then Err ErrUnknownMessageType
      else match checkin_message typ raw, checkin_keys raw with
           | Some msg, Some keys => Ok (typ, msg, keys)
           | _, _ => Err ErrPlist
           end
  end.

(* @src devicemanagement/mdmprotocol/mdm/checkin.go - DecodeCheckin *)
Definition DecodeCheckin `{!CheckinCodec} (raw : bytes) : result merr Checkin :=
  '(typ, msg, keys) ← unmarshal_checkin raw;
  id ← Resolve keys;
  Ok (mkCheckin typ (Some msg) keys id raw).

(* @src devicemanagement/mdmprotocol/mdm/checkin.go 106-109 UserAuthenticateResponse *)
Record UserAuthenticateResponse := mkUserAuthResponse { DigestChallenge : option bytes; ur_AuthToken : option bytes }.

(** ** Requests *)

(** Of a certificate the library uses the DER and the validity. *)
Record Certificate := mkCertificate { cert_Raw : bytes; NotBefore : Time; CertNotAfter : Time }.

(* @src devicemanagement/mdmprotocol/cms/cms.go - Fingerprint *)
Definition Fingerprint (c : Certificate) : bytes := hex_EncodeToString (Sum256 (cert_Raw c)).

(** Bearer, parameters and peer are for transports. *)
(* @src devicemanagement/mdmprotocol/mdm/mdm.go 165-174 Request *)
Record Request := mkRequest { rq_ID : EnrollmentID; rq_Enrollment : IdentityKeys; rq_Certificate : option Certificate }.

Lemma Fingerprint_ne c : Fingerprint c ≠ [].
Proof.
  unfold Fingerprint. destruct (Sum256_spec (cert_Raw c)) as [Hl Hb]. destruct (hex_spec _ Hb) as [_ E]. rewrite Hl in E.
  intros H. by rewrite H in E.
Qed.

(** ** Commands *)

(** The field values of a command: text, or the encoding of anything else. *)
Inductive pval := PString (s : bytes) | PEncoded (b : bytes).
#[export] Instance pval_eq_dec : EqDecision pval.
Proof. solve_decision. Defined.

(** A typed payload is its encoding, as in [Command]. *)
Class CommandCodec := {
  RequestTypeName : bytes → bytes;
  payload_fields : bytes → option (gmap bytes pval);
  marshal_command : bytes → gmap bytes pval → option bytes;
  command_head : bytes → option (bytes * bytes);
  command_known : bytes → bool;
  command_payload : bytes → bytes → option bytes }.

Section Commands.
Context `{!CommandCodec}.

(** [explicit] is the option [WithUUID], [fresh] a new UUIDv7 as printed. *)
(* @src devicemanagement/mdmprotocol/mdm/command.go - NewCommand *)
Definition NewCommand (payload : option bytes) (explicit fresh : bytes) : result merr Command :=
  match payload with
  | None => Err ErrInvalidCommand
  | Some payload =>
      let requestType := RequestTypeName payload in
      let uuid := if bool_decide (explicit = []) then ascii_upper fresh else explicit in
      match payload_fields payload with
      | None => Err ErrInvalidCommand
      | Some fields =>
          match marshal_command uuid (<[bs "RequestType" := PString requestType]> fields) with
          | None => Err ErrInvalidCommand
          | Some raw => Ok (mkCommand uuid requestType (Some payload) raw)
          end
      end
  end.

(* @src devicemanagement/mdmprotocol/mdm/command.go - DecodeCommand *)
Definition DecodeCommand (raw : bytes) : result merr Command :=
  match command_head raw with
  | None => Err ErrPlist
  | Some (uuid, requestType) =>
      if bool_decide (uuid = []) || bool_decide (requestType = []) then Err ErrInvalidCommand
      else if command_known requestType then
        match command_payload requestType raw with
        | None => Err ErrPlist
        | Some payload => Ok (mkCommand uuid requestType (Some payload) raw)
        end
      else Ok (mkCommand uuid requestType None raw)
  end.

Lemma DecodeCommand_raw raw c : DecodeCommand raw = Ok c → CmdRaw c = raw ∧ UUID c ≠ [] ∧ RequestType c ≠ [].
Proof.
  unfold DecodeCommand. destruct (command_head raw) as [[u t]|]; [|done]. destruct (_ || _) eqn:E; [done|].
  apply orb_false_iff in E as [H1 H2]. apply bool_decide_eq_false in H1, H2.
  destruct (command_known t); [destruct (command_payload t raw); [|done]|]; by intros [= <-].
Qed.
End Commands.

(** What a decoded check-in carries: the message of its type, and a valid identity. *)
Lemma DecodeCheckin_sound {CC : CheckinCodec} raw ck : DecodeCheckin raw = Ok ck →
  Validate (ck_ID ck) = Ok tt ∧ ck_Raw ck = raw ∧ is_Some (ck_Message ck) ∧ Resolve (ck_Enrollment ck) = Ok (ck_ID ck).
Proof.
  unfold DecodeCheckin. intros H. apply bind_Ok_inv in H as ([[typ msg] keys] & _ & H). apply bind_Ok_inv in H as (id & Hr & [= <-]).
  cbn. split_and!; [by apply Resolve_facts in Hr as [? _]|done|eauto|done].
Qed.
