(* ===== verification/Storage.v ===== *)
(** * Storage contracts and shared rules: [devicemanagement/storage]

    The enrollment record, the queued command and its states, and the rules every
    backend shares: the NotNow backoff, the authentication check, the metadata
    observed from results and the push certificate check. X.509 parsing
    ([pki/pushcert] on [crypto/x509]) is the parameter [PushCertParser].

    The theorems: the backoff doubles from thirty seconds, never decreases and is
    capped at an hour; the authentication check never lets a replayed identity
    reactivate a disabled enrollment; results of user channels, unacknowledged
    results and undecodable results never change the observed metadata. *)
From S2P Require Import Prelude GoStrings OsVersion Mdm.

(** The sentinels, and the error of a cancelled context, which passes through. *)
(* @src devicemanagement/storage/storage.go 15-20 errors *)
Inductive serr := ErrNotFound | ErrDisabled | ErrConflict | ErrInvalid | ErrCanceled.
#[export] Instance serr_eq_dec : EqDecision serr.
Proof. solve_decision. Defined.

(* @src devicemanagement/storage/storage.go 23-34 DeviceInfo *)
Record DeviceInfo := mkDeviceInfo {
  SerialNumber : bytes;
  Model : bytes;
  ModelName : bytes;
  DeviceName : bytes;
  ProductName : bytes;
  OSVersion : bytes;
  BuildVersion : bytes;
  IMEI : bytes;
  MEID : bytes;
  di_Topic : bytes
}.
#[export] Instance DeviceInfo_eq_dec : EqDecision DeviceInfo.
Proof. solve_decision. Defined.
#[export] Instance DeviceInfo_eta : Eta DeviceInfo := λ d,
  mkDeviceInfo (SerialNumber d) (Model d) (ModelName d) (DeviceName d) (ProductName d)
    (OSVersion d) (BuildVersion d) (IMEI d) (MEID d) (di_Topic d).
Definition noDeviceInfo : DeviceInfo := mkDeviceInfo [] [] [] [] [] [] [] [] [] [].

(* @src devicemanagement/storage/capabilities.go 11-18 Capability *)
Inductive Capability := CapabilityUnknown | CapabilityFalse | CapabilityTrue.
#[export] Instance Capability_eq_dec : EqDecision Capability.
Proof. solve_decision. Defined.

(* @src devicemanagement/storage/capabilities.go 21-27 Capabilities *)
Record Capabilities := mkCapabilities {
  cap_Supervised : Capability;
  cap_DEP : Capability;
  cap_UserApproved : Capability;
  cap_AppleSilicon : Capability;
  cap_Source : bytes;
  cap_ObservedAt : Time
}.
#[export] Instance Capabilities_eq_dec : EqDecision Capabilities.
Proof. solve_decision. Defined.
#[export] Instance Capabilities_eta : Eta Capabilities := λ c,
  mkCapabilities (cap_Supervised c) (cap_DEP c) (cap_UserApproved c) (cap_AppleSilicon c)
    (cap_Source c) (cap_ObservedAt c).
Definition noCapabilities : Capabilities :=
  mkCapabilities CapabilityUnknown CapabilityUnknown CapabilityUnknown CapabilityUnknown [] 0.

(* @src devicemanagement/storage/storage.go 37-70 Enrollment *)
Record Enrollment := mkEnrollment {
  e_Capabilities : Capabilities;
  e_ID : EnrollmentID;
  Enabled : bool;
  e_Push : Push;
  e_Device : DeviceInfo;
  e_UserShortName : bytes;
  e_UserLongName : bytes;
  NotOnConsole : bool;
  e_EnrollmentUserID : bytes;
  UnlockToken : bytes;
  AuthenticateRaw : bytes;
  TokenUpdateRaw : bytes;
  EnrolledAt : Time;
  TokenUpdatedAt : Time;
  LastSeenAt : Time;
  DisabledAt : Time;
  CertHash : bytes;
  CertHashAt : Time;
  BootstrapTokenAt : Time
}.
#[export] Instance Enrollment_eq_dec : EqDecision Enrollment.
Proof. solve_decision. Defined.
#[export] Instance Enrollment_eta : Eta Enrollment := λ e,
  mkEnrollment (e_Capabilities e) (e_ID e) (Enabled e) (e_Push e) (e_Device e)
    (e_UserShortName e) (e_UserLongName e) (NotOnConsole e) (e_EnrollmentUserID e)
    (UnlockToken e) (AuthenticateRaw e) (TokenUpdateRaw e) (EnrolledAt e)
    (TokenUpdatedAt e) (LastSeenAt e) (DisabledAt e) (CertHash e) (CertHashAt e)
    (BootstrapTokenAt e).
(** The zero [Enrollment]. *)
Definition noEnrollment : Enrollment :=
  mkEnrollment noCapabilities noID false noPush noDeviceInfo [] [] false [] [] [] []
    0 0 0 0 [] 0 0.

(** ** The command queue's records *)

(* @src devicemanagement/storage/storage.go 130-140 State *)
Inductive State :=
| StatePending | StateSent | StateNotNow | StateAcknowledged | StateError | StateCleared.
#[export] Instance State_eq_dec : EqDecision State.
Proof. solve_decision. Defined.

(* @src devicemanagement/storage/storage.go 143-145 State.Terminal *)
Definition Terminal (s : State) : bool :=
  bool_decide (s = StateAcknowledged) || bool_decide (s = StateError)
  || bool_decide (s = StateCleared).

(* @src devicemanagement/storage/storage.go 148-161 QueuedCommand *)
Record QueuedCommand := mkQueued {
  qCommand : Command;
  qState : State;
  DedupeKey : bytes;
  EnqueuedAt : Time;
  LastSentAt : Time;
  NotNowUntil : Time;
  Attempts : Z;
  NotNowCount : Z;
  CompletedAt : Time;
  qResult : option Response
}.
#[export] Instance QueuedCommand_eq_dec : EqDecision QueuedCommand.
Proof. solve_decision. Defined.
#[export] Instance QueuedCommand_eta : Eta QueuedCommand := λ q,
  mkQueued (qCommand q) (qState q) (DedupeKey q) (EnqueuedAt q) (LastSentAt q)
    (NotNowUntil q) (Attempts q) (NotNowCount q) (CompletedAt q) (qResult q).

(* @src devicemanagement/storage/storage.go 164-170 EnqueueOptions *)
Record EnqueueOptions := mkEnqueueOptions { o_DedupeKey : bytes; o_Now : Time }.

(** [Warnings] is filled by the command service; stores leave it nil. *)
(* @src devicemanagement/storage/storage.go 173-180 EnqueueResult *)
Record EnqueueResult := mkEnqueueResult {
  Queued : list EnrollmentID;
  Skipped : gmap EnrollmentID serr
}.

(* @src devicemanagement/storage/storage.go 183-188 ClearFilter *)
Record ClearFilter := mkClearFilter {
  f_CommandUUID : bytes;
  f_States : list State;
  f_RequestType : bytes;
  f_Before : Time
}.

(* @src devicemanagement/storage/storage.go 191-194 CommandQuery *)
Record CommandQuery := mkCommandQuery { cq_States : list State; cq_RequestType : bytes }.

(* @src devicemanagement/storage/storage.go 73-80 EnrollmentQuery *)
Record EnrollmentQuery := mkEnrollmentQuery {
  eq_Channel : Channel;
  eq_Enabled : option bool;
  eq_ParentID : bytes;
  eq_Serial : bytes
}.

(* @src devicemanagement/storage/storage.go 267-271 CertAssociation *)
Record CertAssociation := mkAssoc { a_ID : EnrollmentID; a_Hash : bytes; a_At : Time }.
#[export] Instance CertAssociation_eq_dec : EqDecision CertAssociation.
Proof. solve_decision. Defined.

(* @src devicemanagement/storage/storage.go 309-318 PushCert *)
Record PushCert := mkPushCert {
  pc_Topic : bytes;
  CertPEM : bytes;
  KeyPEM : bytes;
  NotAfter : Time;
  PCVersion : Z;
  UpdatedAt : Time
}.
#[export] Instance PushCert_eq_dec : EqDecision PushCert.
Proof. solve_decision. Defined.
#[export] Instance PushCert_eta : Eta PushCert := λ c,
  mkPushCert (pc_Topic c) (CertPEM c) (KeyPEM c) (NotAfter c) (PCVersion c) (UpdatedAt c).

(* @src devicemanagement/storage/storage.go 344-357 UserAuthState *)
Record UserAuthState := mkUserAuth {
  ua_ID : EnrollmentID;
  Challenge : bytes;
  ChallengeAt : Time;
  AuthToken : bytes;
  TokenAt : Time;
  ua_AuthenticateRaw : bytes;
  DigestRaw : bytes
}.
#[export] Instance UserAuthState_eq_dec : EqDecision UserAuthState.
Proof. solve_decision. Defined.
#[export] Instance UserAuthState_eta : Eta UserAuthState := λ u,
  mkUserAuth (ua_ID u) (Challenge u) (ChallengeAt u) (AuthToken u) (TokenAt u)
    (ua_AuthenticateRaw u) (DigestRaw u).

(* @src devicemanagement/storage/storage.go 389-393 EnrollmentExport *)
Record EnrollmentExport := mkExport {
  x_Enrollment : Enrollment;
  x_BootstrapToken : bytes;
  x_CertHistory : list CertAssociation
}.

(** ** Paging *)

(* @src devicemanagement/paging/paging.go 5-8 Page *)
Record Page := mkPage { Cursor : bytes; Limit : Z }.

(* @src devicemanagement/paging/paging.go 12-15 Result *)
Record PageResult (T : Type) := mkPageResult { Items : list T; NextCursor : bytes }.
Arguments mkPageResult {T} _ _.
Arguments Items {T} _.
Arguments NextCursor {T} _.

(* @src devicemanagement/paging/paging.go 18-18 DefaultPageSize *)
Definition DefaultPageSize : Z := 100.
(* @src devicemanagement/paging/paging.go 23-23 MaxPageSize *)
Definition MaxPageSize : Z := 1000.

(* @src devicemanagement/paging/paging.go 27-36 Page.Size *)
Definition Page_Size (p : Page) : Z :=
  if Limit p <=? 0 then DefaultPageSize
  else if MaxPageSize <? Limit p then MaxPageSize
  else Limit p.

(** ** The NotNow backoff *)

(** The loop [for i := 1; i < attempt && d < time.Hour; i++ { d *= 2 }]: [n] is the
    number of values [i] has left. *)
(* @src devicemanagement/storage/storage.go 203-205 NotNowBackoff *)
Fixpoint backoff_loop (n : nat) (d : Z) : Z :=
  match n with
  | O => d
  | S n' => if d <? Hour then backoff_loop n' (d * 2) else d
  end.

(* @src devicemanagement/storage/storage.go 198-210 NotNowBackoff *)
Definition NotNowBackoff (attempt0 : Z) : Z :=
  let attempt := if attempt0 <? 1 then 1 else attempt0 in
  let d := backoff_loop (Z.to_nat (attempt - 1)) (30 * Second) in
  if Hour <? d then Hour else d.

(** ** Authentication *)

(** [Result], an optional pointer the store writes through, is the second component
    of what the operations return. *)
(* @src devicemanagement/storage/authenticate.go - AuthenticateChange *)
Record AuthenticateChange := mkAuthChange {
  ExpectedHash : bytes;
  ac_Hash : bytes;
  AllowReuse : bool;
  AllowReenroll : bool;
  ac_Message : option Authenticate;
  ac_Raw : bytes;
  ac_At : Time
}.

(* @src devicemanagement/storage/authenticate.go 37-40 AuthenticateResult *)
Record AuthenticateResult := mkAuthResult { Known : bool; ResetDone : bool }.

(* @src devicemanagement/storage/authenticate.go - CheckAuthenticate *)
Definition CheckAuthenticate (id : EnrollmentID) (e : option Enrollment) (c : AuthenticateChange)
  : result serr bool :=
  if (match Validate id with Err _ => true | Ok _ => false end)
     || IsUser (IDChannel id) || time_is_zero (ac_At c)
  then Err ErrInvalid
  else match e with
  | None => if bool_decide (ExpectedHash c ≠ []) then Err ErrConflict else Ok false
  | Some e =>
      if bool_decide (e_ID e ≠ id) then Err ErrConflict
      else if negb (time_is_zero (DisabledAt e))
              && (negb (AllowReenroll c) || bool_decide (ac_Hash c = [])
                  || bool_decide (ac_Hash c = CertHash e))
      then Err ErrDisabled
      else if bool_decide (ac_Hash c ≠ []) && bool_decide (CertHash e = ac_Hash c) then Ok true
      else if bool_decide (CertHash e ≠ ExpectedHash c) then Err ErrConflict
      else Ok false
  end.

(** ** Device metadata *)

Definition string_or_zero (p : option bytes) : bytes := default [] p.

(* @src devicemanagement/storage/storage.go 421-443 DeviceInfoFromAuthenticate *)
Definition DeviceInfoFromAuthenticate (m : option Authenticate) : DeviceInfo :=
  match m with
  | None => noDeviceInfo
  | Some m =>
      mkDeviceInfo (string_or_zero (au_SerialNumber m)) (au_Model m) (au_ModelName m)
        (au_DeviceName m) (string_or_zero (au_ProductName m)) (string_or_zero (au_OSVersion m))
        (string_or_zero (au_BuildVersion m)) (string_or_zero (au_IMEI m))
        (string_or_zero (au_MEID m)) (au_Topic m)
  end.

(* @src devicemanagement/storage/capabilities.go 30-38 observed *)
Definition observed (p : option bool) : Capability :=
  match p with
  | None => CapabilityUnknown
  | Some true => CapabilityTrue
  | Some false => CapabilityFalse
  end.

(** The closure [set] of [CapabilitiesFromResult]: the observed value, and whether
    anything was observed. *)
Definition cap_set (dst : Capability) (v : option bool) : Capability * bool :=
  match v with Some _ => (observed v, true) | None => (dst, false) end.

Section WithDecoder.
Context `{!PlistDecoder}.

(* @src devicemanagement/storage/capabilities.go - CapabilitiesFromResult *)
Definition CapabilitiesFromResult (old : Capabilities) (id : EnrollmentID) (requestType : bytes)
  (r : option Response) (at_ : Time) : Capabilities :=
  match r with
  | None => old
  | Some r =>
      if IsUser (IDChannel id) || bool_decide (rsp_Status r ≠ StatusAcknowledged)
         || (bool_decide (requestType ≠ bs "DeviceInformation")
             && bool_decide (requestType ≠ bs "SecurityInfo"))
      then old
      else match DecodeResponse (rsp_Raw r) requestType with
      | Err _ => old
      | Ok decoded =>
          let '(new, changed) :=
            match rsp_Payload decoded with
            | Some (DeviceInformationResponse sup sil _ _ _) =>
                let '(s, c1) := cap_set (cap_Supervised old) sup in
                let '(a, c2) := cap_set (cap_AppleSilicon old) sil in
                (old <| cap_Supervised := s |> <| cap_AppleSilicon := a |>, c1 || c2)
            | Some (SecurityInfoResponse (Some (dep, ua))) =>
                let '(d, c1) := cap_set (cap_DEP old) dep in
                let '(u, c2) := cap_set (cap_UserApproved old) ua in
                (old <| cap_DEP := d |> <| cap_UserApproved := u |>, c1 || c2)
            | _ => (old, false)
            end in
          if changed then
            new <| cap_Source := bs "device:" ++ requestType |> <| cap_ObservedAt := at_ |>
          else new
      end
  end.

(* @src devicemanagement/storage/deviceinfo.go - DeviceInfoFromResult *)
Definition DeviceInfoFromResult (old : DeviceInfo) (id : EnrollmentID) (requestType : bytes)
  (response : option Response) : DeviceInfo :=
  match response with
  | None => old
  | Some response =>
      if IsUser (IDChannel id) || bool_decide (rsp_Status response ≠ StatusAcknowledged)
         || bool_decide (requestType ≠ bs "DeviceInformation")
      then old
      else match DecodeResponse (rsp_Raw response) requestType with
      | Err _ => old
      | Ok decoded =>
          if bool_decide (rsp_Status decoded ≠ StatusAcknowledged)
             || bool_decide (rsp_CommandUUID decoded ≠ rsp_CommandUUID response)
          then old
          else match rsp_Payload decoded with
          | Some (DeviceInformationResponse _ _ osv prod build) =>
              let old := match osv with
                | Some v => match Parse v with
                            | Ok w => if negb (IsZero w) then old <| OSVersion := v |> else old
                            | Err _ => old
                            end
                | None => old
                end in
              let old := match prod with
                | Some p => if bool_decide (p ≠ []) then old <| ProductName := p |> else old
                | None => old
                end in
              match build with
              | Some p => if bool_decide (p ≠ []) then old <| BuildVersion := p |> else old
              | None => old
              end
          | _ => old
          end
      end
  end.
End WithDecoder.

(** ** Push certificates *)

(** What [pushcert.Parse], [pushcert.Validate] and [pushcert.PEM] do with PEM data:
    the parsed topic and validity window, the chain check at a time, and the
    normalised certificate. *)
Class PushCertParser := {
  pushcert_Parse : bytes → bytes → option (bytes * Time * Time);
  pushcert_Validate : bytes → bytes → bytes → Time → bool;
  pushcert_PEM : bytes → option bytes
}.

(* @src devicemanagement/storage/pushcert.go 16-58 ValidatePushCert *)
Definition ValidatePushCert `{!PushCertParser} (topic certPEM keyPEM : bytes) (at_ : Time)
  : result serr PushCert :=
  match pushcert_Parse certPEM keyPEM with
  | None => Err ErrInvalid
  | Some (ptopic, notBefore, notAfter) =>
      if bool_decide (topic ≠ []) && bool_decide (topic ≠ ptopic) then Err ErrInvalid
      else if negb (at_ <? notAfter) then Err ErrInvalid
      else if at_ <? notBefore then Err ErrInvalid
      else if negb (pushcert_Validate certPEM keyPEM ptopic at_) then Err ErrInvalid
      else match pushcert_PEM certPEM with
           | None => Err ErrInvalid
           | Some pem => Ok (mkPushCert ptopic pem keyPEM notAfter 0 0)
           end
  end.

(** ** Theorems *)

Lemma backoff_loop_min n d :
  0 < d → Z.min Hour (backoff_loop n d) = Z.min Hour (d * 2 ^ Z.of_nat n).
Proof.
  revert d; induction n as [|n IH]; intros d Hd; cbn [backoff_loop].
  { cbn. f_equal. lia. }
  rewrite Nat2Z.inj_succ, Z.pow_succ_r by lia.
  pose proof (Z.pow_pos_nonneg 2 (Z.of_nat n)).
  destruct (Z.ltb_spec d Hour).
  - rewrite IH by lia. f_equal. lia.
  - rewrite !Z.min_l; nia.
Qed.

(** The closed form of the backoff. *)
Lemma NotNowBackoff_min a : 1 ≤ a → NotNowBackoff a = Z.min Hour (30 * Second * 2 ^ (a - 1)).
Proof.
  intros Ha. unfold NotNowBackoff. rewrite (proj2 (Z.ltb_ge a 1)) by lia.
  replace (2 ^ (a - 1)) with (2 ^ Z.of_nat (Z.to_nat (a - 1))) by (f_equal; lia).
  rewrite <-backoff_loop_min by (unfold Second; lia).
  destruct (Z.ltb_spec Hour (backoff_loop (Z.to_nat (a - 1)) (30 * Second))); lia.
Qed.

(** The retry delay after the n-th NotNow is thirty seconds doubled n-1 times and
    capped at one hour; attempts below one count as the first, the delay never
    shrinks as attempts grow, and it stays between thirty seconds and one hour. *)
Theorem NotNowBackoff_spec a b :
  (1 ≤ a → NotNowBackoff a = Z.min Hour (30 * Second * 2 ^ (a - 1))) ∧
  (a < 1 → NotNowBackoff a = 30 * Second) ∧
  (a ≤ b → NotNowBackoff a ≤ NotNowBackoff b) ∧
  30 * Second ≤ NotNowBackoff a ≤ Hour.
Proof.
  assert (∀ x, x < 1 → NotNowBackoff x = NotNowBackoff 1) as Hlow.
  { intros x Hx. unfold NotNowBackoff. by rewrite (proj2 (Z.ltb_lt x 1)) by done. }
  assert (∀ x, 30 * Second ≤ NotNowBackoff x ≤ Hour) as Hb.
  { intros x. destruct (Z.lt_ge_cases x 1); [rewrite Hlow by done; vm_compute; intuition done|].
    rewrite NotNowBackoff_min by done. pose proof (Z.pow_pos_nonneg 2 (x - 1)).
    unfold Hour, Minute, Second. lia. }
  split; [apply NotNowBackoff_min|]. split; [by intros ->%Hlow|]. split; [|done].
  intros Hab. destruct (Z.lt_ge_cases a 1); [rewrite Hlow by done; apply Hb|].
  rewrite !NotNowBackoff_min by lia.
  pose proof (Z.pow_le_mono_r 2 (a - 1) (b - 1)). unfold Hour, Minute, Second. lia.
Qed.

(** The authentication check, branch by branch, on a stored enrollment of the same
    identity: a disabled enrollment is refused unless policy allows re-enrollment
    and the certificate is new and non-empty; the pinned certificate is an
    idempotent retry; any other certificate is accepted only when the pin is the
    one policy saw. *)
Theorem CheckAuthenticate_spec id e c :
  Validate id = Ok tt → IsUser (IDChannel id) = false → ac_At c ≠ 0 → e_ID e = id →
  CheckAuthenticate id (Some e) c =
    if decide (DisabledAt e ≠ 0 ∧
               (AllowReenroll c = false ∨ ac_Hash c = [] ∨ ac_Hash c = CertHash e))
    then Err ErrDisabled
    else if decide (ac_Hash c ≠ [] ∧ ac_Hash c = CertHash e) then Ok true
    else if decide (CertHash e = ExpectedHash c) then Ok false
    else Err ErrConflict.
Proof.
  intros Hv Hu Hat Hid. unfold CheckAuthenticate, time_is_zero.
  rewrite Hv, Hu, (proj2 (Z.eqb_neq (ac_At c) 0)) by done. cbn [orb].
  rewrite (bool_decide_false (e_ID e ≠ id)) by auto.
  destruct (Z.eqb_spec (DisabledAt e) 0); cbn [negb andb];
    destruct (AllowReenroll c); cbn [negb orb];
    repeat case_bool_decide; repeat case_decide; cbn in *; try done;
    exfalso; naive_solver.
Qed.


(** A capability value either stays or becomes a definite observation. *)
Definition cap_refines (old new : Capability) : Prop := new = old ∨ new ≠ CapabilityUnknown.

Lemma cap_set_refines old v : cap_refines old (cap_set old v).1.
Proof. destruct v as [[]|]; cbn; unfold cap_refines; auto; by right. Qed.

(** Results only ever add observations: a result on a user channel, a result that is
    not an acknowledged inventory answer, or one that does not decode leaves the
    capabilities and the device metadata as they are, and no result ever turns a
    capability back to unknown. *)
Theorem FromResult_evidence `{!PlistDecoder} oldc oldd id rt r at_ :
  (IsUser (IDChannel id) = true ∨ rsp_Status r ≠ StatusAcknowledged ∨
   (rt ≠ bs "DeviceInformation" ∧ rt ≠ bs "SecurityInfo") ∨
   (∀ d, DecodeResponse (rsp_Raw r) rt ≠ Ok d) →
   CapabilitiesFromResult oldc id rt (Some r) at_ = oldc ∧
   DeviceInfoFromResult oldd id rt (Some r) = oldd) ∧
  let newc := CapabilitiesFromResult oldc id rt (Some r) at_ in
  cap_refines (cap_Supervised oldc) (cap_Supervised newc) ∧
  cap_refines (cap_DEP oldc) (cap_DEP newc) ∧
  cap_refines (cap_UserApproved oldc) (cap_UserApproved newc) ∧
  cap_refines (cap_AppleSilicon oldc) (cap_AppleSilicon newc).
Proof.
  split.
  - intros Hc. unfold CapabilitiesFromResult, DeviceInfoFromResult.
    destruct (IsUser _); [done|]. cbn [orb].
    case_bool_decide; [done|]. cbn [orb].
    destruct (DecodeResponse _ rt) as [d|] eqn:Hd; [|by repeat case_bool_decide].
    destruct Hc as [?|[?|[[? ?]|Hc]]]; [done..| |by destruct (Hc d)].
    by rewrite !bool_decide_true.
  - cbv zeta. unfold CapabilitiesFromResult.
    assert (∀ x, cap_refines x x) by (by left).
    destruct (_ || _); [auto|]. destruct (DecodeResponse _ rt) as [d|]; [|auto].
    destruct (rsp_Payload d) as [[s a ? ? ?|[[dp ua]|]|?]|]; auto.
    + destruct (cap_set (cap_Supervised oldc) s) as [s' c1] eqn:E1,
        (cap_set (cap_AppleSilicon oldc) a) as [a' c2] eqn:E2.
      pose proof (cap_set_refines (cap_Supervised oldc) s) as H1.
      pose proof (cap_set_refines (cap_AppleSilicon oldc) a) as H2.
      rewrite E1 in H1. rewrite E2 in H2. destruct (c1 || c2); cbn in *; auto.
    + destruct (cap_set (cap_DEP oldc) dp) as [s' c1] eqn:E1,
        (cap_set (cap_UserApproved oldc) ua) as [a' c2] eqn:E2.
      pose proof (cap_set_refines (cap_DEP oldc) dp) as H1.
      pose proof (cap_set_refines (cap_UserApproved oldc) ua) as H2.
      rewrite E1 in H1. rewrite E2 in H2. destruct (c1 || c2); cbn in *; auto.
Qed.
