(* ===== verification/Replacement.v ===== *)
(** * Device identity replacement: [devicemanagement/storage/replacement.go]

    The handshake that replaces a device's identity certificate without
    re-enrolling it: begin, issue a candidate certificate, deliver the profile over
    the old identity, see the candidate authenticate and send its tokens, see the
    command acknowledged, commit. [AdvanceReplacement] is the state machine every
    backend runs under its lock.

    The theorems: the handshake invariant is preserved by every transition; a
    commit happens only when the profile was delivered, acknowledged, and the
    candidate authenticated and registered the device's push token; finished
    attempts never change again, and after the deadline no transition of an attempt
    succeeds. *)
From S2P Require Import Prelude Mdm Storage.

(* @src devicemanagement/storage/replacement.go 75-81 replacement states *)
Inductive ReplacementState :=
| ReplacementPending | ReplacementCommitted | ReplacementFailed
| ReplacementCancelled | ReplacementExpired.
#[export] Instance ReplacementState_eq_dec : EqDecision ReplacementState.
Proof. solve_decision. Defined.

(* @src devicemanagement/storage/replacement.go 55-59 ReplacementToken *)
Record ReplacementToken := mkRToken {
  rt_ID : EnrollmentID;
  rt_Message : option TokenUpdate;
  rt_Raw : bytes
}.
#[export] Instance ReplacementToken_eq_dec : EqDecision ReplacementToken.
Proof. solve_decision. Defined.

(* @src devicemanagement/storage/replacement.go 31-51 Replacement *)
Record Replacement := mkReplacement {
  Issuer : bytes;
  ReconcileUntil : Time;
  CSRHash : bytes;
  r_ID : bytes;
  Method : bytes;
  OldHash : bytes;
  CandidateHash : bytes;
  SecretHash : bytes;
  PublicKeyHash : bytes;
  r_State : ReplacementState;
  ExpiresAt : Time;
  r_CompletedAt : Time;
  r_Command : Command;
  Delivered : bool;
  Acknowledged : bool;
  Authenticated : bool;
  r_AuthenticateRaw : bytes;
  Tokens : list ReplacementToken
}.
#[export] Instance Replacement_eq_dec : EqDecision Replacement.
Proof. solve_decision. Defined.
#[export] Instance Replacement_eta : Eta Replacement := λ r,
  mkReplacement (Issuer r) (ReconcileUntil r) (CSRHash r) (r_ID r) (Method r) (OldHash r)
    (CandidateHash r) (SecretHash r) (PublicKeyHash r) (r_State r) (ExpiresAt r)
    (r_CompletedAt r) (r_Command r) (Delivered r) (Acknowledged r) (Authenticated r)
    (r_AuthenticateRaw r) (Tokens r).

(** [Op] is a string; every other spelling is [OpOther]. *)
Inductive ReplacementOp :=
| OpBegin | OpRead | OpCancel | OpClaim | OpIssue | OpAuthenticate | OpToken
| OpDeliver | OpResult | OpOther (s : bytes).
#[export] Instance ReplacementOp_eq_dec : EqDecision ReplacementOp.
Proof. solve_decision. Defined.

(* @src devicemanagement/storage/replacement.go 63-73 ReplacementChange *)
Record ReplacementChange := mkChange {
  c_Issuer : bytes;
  c_ReconcileUntil : Time;
  c_CSRHash : bytes;
  Op : ReplacementOp;
  c_ID : bytes;
  Hash : bytes;
  c_Method : bytes;
  c_SecretHash : bytes;
  c_PublicKeyHash : bytes;
  At : Time;
  Begin : option Replacement;
  c_Raw : bytes;
  c_Token : option ReplacementToken;
  c_Response : option Response
}.

(** The JSON round trip of [CloneReplacement] is a deep copy that drops the typed
    command payload. *)
(* @src devicemanagement/storage/replacement.go 84-94 CloneReplacement *)
Definition CloneReplacement (r : option Replacement) : option Replacement :=
  (λ r, r <| r_Command := (r_Command r) <| Payload := None |> |>) <$> r.

(** The deadline: reconciliation extends it once a candidate was issued. *)
(* @src devicemanagement/storage/replacement.go 104-110 AdvanceReplacement *)
Definition expiry (r : Replacement) : Time :=
  if bool_decide (CandidateHash r ≠ []) && (ExpiresAt r <? ReconcileUntil r)
  then ReconcileUntil r else ExpiresAt r.

(* @src devicemanagement/storage/replacement.go 111-113 AdvanceReplacement *)
Definition expire (at_ : Time) (r : Replacement) : Replacement :=
  if bool_decide (r_State r = ReplacementPending) && negb (at_ <? expiry r)
  then r <| r_State := ReplacementExpired |> <| r_CompletedAt := at_ |> else r.

(* @src devicemanagement/storage/replacement.go 118-128 AdvanceReplacement begin *)
Definition can_begin (e : Enrollment) (c : ReplacementChange) (n : Replacement) : bool :=
  negb (bool_decide (r_ID n = []) || bool_decide (UUID (r_Command n) ≠ r_ID n)
        || bool_decide (RequestType (r_Command n) ≠ bs "InstallProfile")
        || (bool_decide (Method n ≠ bs "scep") && bool_decide (Method n ≠ bs "acme"))
        || bool_decide (OldHash n = []) || bool_decide (OldHash n ≠ CertHash e)
        || negb (Enabled e) || negb (At c <? ExpiresAt n)
        || (At c + 30 * Minute <? ExpiresAt n)).

(** The loop that replaces the captured token of the same channel, or appends. *)
(* @src devicemanagement/storage/replacement.go 177-187 AdvanceReplacement token *)
Fixpoint put_token (t : ReplacementToken) (ts : list ReplacementToken) : list ReplacementToken :=
  match ts with
  | [] => [t]
  | u :: us => if bool_decide (rt_ID u = rt_ID t) then t :: us else u :: put_token t us
  end.

(** The transition of the active attempt. *)
(* @src devicemanagement/storage/replacement.go 138-215 AdvanceReplacement *)
Definition advance_active (cur : Replacement) (e : Enrollment) (c : ReplacementChange)
  : result serr Replacement :=
  match Op c with
  | OpCancel => Ok (cur <| r_State := ReplacementCancelled |> <| r_CompletedAt := At c |>)
  | OpClaim =>
      if negb (At c <? ExpiresAt cur) || bool_decide (Method cur ≠ bs "scep")
         || bool_decide (c_PublicKeyHash c = []) || bool_decide (c_CSRHash c = [])
         || (bool_decide (PublicKeyHash cur ≠ []) && bool_decide (PublicKeyHash cur ≠ c_PublicKeyHash c))
         || (bool_decide (CSRHash cur ≠ []) && bool_decide (CSRHash cur ≠ c_CSRHash c))
         || bool_decide (SecretHash cur = []) || bool_decide (SecretHash cur ≠ c_SecretHash c)
      then Err ErrConflict
      else Ok (cur <| PublicKeyHash := c_PublicKeyHash c |> <| CSRHash := c_CSRHash c |>)
  | OpIssue =>
      if (bool_decide (Issuer cur ≠ []) && bool_decide (Issuer cur ≠ c_Issuer c))
         || (negb (At c <? ExpiresAt cur) && bool_decide (CandidateHash cur ≠ Hash c))
         || bool_decide (Method cur ≠ c_Method c) || bool_decide (Hash c = [])
         || (bool_decide (CandidateHash cur ≠ []) && bool_decide (CandidateHash cur ≠ Hash c))
         || (bool_decide (Method cur = bs "scep")
             && (bool_decide (PublicKeyHash cur = [])
                 || bool_decide (PublicKeyHash cur ≠ c_PublicKeyHash c)))
      then Err ErrConflict
      else Ok (cur <| CandidateHash := Hash c |> <| ReconcileUntil := c_ReconcileUntil c |>)
  | OpAuthenticate =>
      if bool_decide (CandidateHash cur = []) || bool_decide (CandidateHash cur ≠ Hash c)
      then Err ErrConflict
      else Ok (cur <| Authenticated := true |> <| r_AuthenticateRaw := c_Raw c |>)
  | OpToken =>
      match c_Token c with
      | None => Err ErrConflict
      | Some t =>
          if negb (Authenticated cur) || bool_decide (Hash c ≠ CandidateHash cur)
             || bool_decide (rt_Message t = None)
          then Err ErrConflict
          else match PushFromTokenUpdate (rt_Message t) with
          | Err _ => Err ErrConflict
          | Ok _ =>
              if bool_decide (Device (rt_ID t) ≠ Device (e_ID e)) then Err ErrConflict
              else Ok (cur <| Tokens := put_token t (Tokens cur) |>)
          end
      end
  | OpDeliver | OpResult =>
      if bool_decide (Hash c ≠ OldHash cur)
         && (bool_decide (CandidateHash cur = []) || bool_decide (Hash c ≠ CandidateHash cur))
      then Err ErrConflict
      else if bool_decide (Op c = OpDeliver) then
        if bool_decide (Hash c ≠ OldHash cur) then Err ErrConflict
        else Ok (cur <| Delivered := true |>)
      else match c_Response c with
      | None => Err ErrConflict
      | Some rsp =>
          if negb (Delivered cur) || bool_decide (rsp_CommandUUID rsp ≠ UUID (r_Command cur))
          then Err ErrConflict
          else if decide (rsp_Status rsp = StatusAcknowledged) then
            Ok (cur <| Acknowledged := true |>)
          else if decide (rsp_Status rsp = StatusNotNow) then Ok cur
          else if decide (rsp_Status rsp = StatusError ∨ rsp_Status rsp = StatusCommandFormatError)
          then Ok (cur <| r_State := ReplacementFailed |> <| r_CompletedAt := At c |>)
          else Err ErrConflict
      end
  | _ => Err ErrInvalid
  end.

(** Whether the attempt can commit after the transition. *)
(* @src devicemanagement/storage/replacement.go 216-224 AdvanceReplacement *)
Definition commits (cur : Replacement) (e : Enrollment) : bool :=
  bool_decide (r_State cur = ReplacementPending) && Authenticated cur && Acknowledged cur
  && existsb (λ t, bool_decide (rt_ID t = e_ID e)) (Tokens cur).

(** [true]: the backend must commit the candidate state in the same transaction. *)
(* @src devicemanagement/storage/replacement.go 98-225 AdvanceReplacement *)
Definition AdvanceReplacement (r : option Replacement) (e : Enrollment) (c : ReplacementChange)
  : result serr (bool * option Replacement) :=
  if time_is_zero (At c) then Err ErrInvalid
  else
    let current := expire (At c) <$> r in
    match Op c with
    | OpBegin =>
        if match current with
           | Some cur => bool_decide (r_State cur = ReplacementPending) | None => false end
        then Err ErrConflict
        else match CloneReplacement (Begin c) with
        | None => Err ErrConflict
        | Some n =>
            if can_begin e c n then Ok (false, Some (n <| r_State := ReplacementPending |>))
            else Err ErrConflict
        end
    | OpRead => Ok (false, current)
    | _ =>
        match current with
        | None => Err ErrConflict
        | Some cur =>
            if bool_decide (r_ID cur ≠ c_ID c) then Err ErrConflict
            else if bool_decide (r_State cur ≠ ReplacementPending)
                    || bool_decide (OldHash cur ≠ CertHash e) || negb (Enabled e)
            then Err ErrConflict
            else
              cur ← advance_active cur e c;
              if commits cur e then
                Ok (true, Some (cur <| r_State := ReplacementCommitted |>
                                    <| r_CompletedAt := At c |>))
              else Ok (false, Some cur)
        end
    end.

(* @src devicemanagement/storage/replacement.go 229-247 ApplyReplacementToken *)
Definition ApplyReplacementToken (e : Enrollment) (t : ReplacementToken) (at_ : Time) : Enrollment :=
  let p := match PushFromTokenUpdate (rt_Message t) with Ok p => p | Err _ => noPush end in
  let e := e <| e_Push := p |> <| TokenUpdateRaw := rt_Raw t |> <| Enabled := true |>
             <| TokenUpdatedAt := at_ |> <| LastSeenAt := at_ |> <| DisabledAt := 0 |> in
  match rt_Message t with
  | None => e  (* unreachable: captured tokens carry their message *)
  | Some m =>
      let e := if bool_decide (tu_UnlockToken m ≠ []) then e <| UnlockToken := tu_UnlockToken m |> else e in
      let e := match tu_UserShortName m with Some n => e <| e_UserShortName := n |> | None => e end in
      let e := if bool_decide (tu_UserLongName m ≠ []) then e <| e_UserLongName := tu_UserLongName m |> else e in
      let e := if bool_decide (tu_EnrollmentUserID m ≠ [])
               then e <| e_EnrollmentUserID := tu_EnrollmentUserID m |> else e in
      e <| NotOnConsole := tu_NotOnConsole m |>
  end.

(** ** The handshake invariant *)

(** What holds of every stored attempt of the device [dev]. *)
Record handshake_ok (dev : EnrollmentID) (r : Replacement) : Prop := {
  ho_candidate : Authenticated r = true → CandidateHash r ≠ [];
  ho_delivered : Acknowledged r = true → Delivered r = true;
  ho_order : Tokens r ≠ [] → Authenticated r = true;
  ho_tokens : Forall (λ t, Device (rt_ID t) = Device dev ∧
                           ∃ p, PushFromTokenUpdate (rt_Message t) = Ok p) (Tokens r);
  ho_nodup : NoDup (rt_ID <$> Tokens r);
  ho_key : Method r = bs "scep" → CandidateHash r ≠ [] → PublicKeyHash r ≠ [];
  ho_commit : r_State r = ReplacementCommitted →
    Authenticated r = true ∧ Acknowledged r = true ∧ Exists (λ t, rt_ID t = dev) (Tokens r)
}.

(** A request to begin starts from a blank handshake. *)
Definition fresh_begin (c : ReplacementChange) : Prop :=
  ∀ n, Begin c = Some n →
    Delivered n = false ∧ Acknowledged n = false ∧ Authenticated n = false ∧
    CandidateHash n = [] ∧ Tokens n = [].

Lemma put_token_ids t ts x :
  x ∈ (rt_ID <$> put_token t ts) ↔ x = rt_ID t ∨ x ∈ (rt_ID <$> ts).
Proof.
  induction ts as [|u us IH]; cbn; [set_solver|].
  case_bool_decide; cbn; set_solver.
Qed.

Lemma put_token_nodup t ts : NoDup (rt_ID <$> ts) → NoDup (rt_ID <$> put_token t ts).
Proof.
  induction ts as [|u us IH]; cbn; [intros _; apply NoDup_singleton|].
  rewrite NoDup_cons. intros [Hu Hus]. case_bool_decide as He; cbn; rewrite NoDup_cons.
  - by rewrite <-He.
  - rewrite put_token_ids. naive_solver.
Qed.

Lemma put_token_Forall (P : ReplacementToken → Prop) t ts :
  P t → Forall P ts → Forall P (put_token t ts).
Proof.
  intros Ht. induction 1 as [|u us Hu Hus IH]; cbn; [by constructor|].
  case_bool_decide; by constructor.
Qed.

Lemma expire_ok dev at_ r : handshake_ok dev r → handshake_ok dev (expire at_ r).
Proof. intros []. unfold expire. destruct (_ && _); split; done. Qed.

Lemma advance_active_ok cur e c cur' :
  handshake_ok (e_ID e) cur → r_State cur = ReplacementPending →
  advance_active cur e c = Ok cur' →
  handshake_ok (e_ID e) cur' ∧ r_State cur' ≠ ReplacementCommitted.
Proof.
  intros [H1 H2 H3 H4 H5 H6 H7] Hp. unfold advance_active.
  assert (r_State cur ≠ ReplacementCommitted) as Hnc by congruence.
  destruct (Op c); try done.
  - intros [= <-]. split; [split|]; done.
  - destruct (_ || _) eqn:Hc; [done|]. intros [= <-]. bool_hyps. split; [split|]; done.
  - destruct (_ || _) eqn:Hc; [done|]. intros [= <-]. bool_hyps.
    split; [split|]; cbn; try done. intros Hm _.
    match goal with H : bool_decide _ && (_ || _) = false |- _ =>
      rewrite bool_decide_true in H by done; cbn in H end.
    by bool_hyps.
  - destruct (_ || _) eqn:Hc; [done|]. intros [= <-]. bool_hyps. split; [split|]; done.
  - destruct (c_Token c) as [t|]; [|done]. destruct (_ || _) eqn:Hc; [done|]. bool_hyps.
    destruct (PushFromTokenUpdate _) eqn:Hpush; [|done].
    case_bool_decide as Hdev; [done|]. intros [= <-].
    split; [split|]; cbn; try done.
    + apply put_token_Forall; eauto.
    + by apply put_token_nodup.
  - destruct (_ && _); [done|]. rewrite (bool_decide_true (OpDeliver = _)) by done.
    case_bool_decide; [done|]. intros [= <-]. split; [split|]; done.
  - destruct (_ && _); [done|]. rewrite (bool_decide_false (OpResult = _)) by done.
    destruct (c_Response c) as [rsp|]; [|done]. destruct (_ || _) eqn:Hc; [done|]. bool_hyps.
    repeat case_decide; try done; intros [= <-]; (split; [split|]; done).
Qed.

Lemma commits_spec cur e :
  commits cur e = true →
  r_State cur = ReplacementPending ∧ Authenticated cur = true ∧ Acknowledged cur = true ∧
  Exists (λ t, rt_ID t = e_ID e) (Tokens cur).
Proof.
  unfold commits. intros H. bool_hyps. repeat split; try done.
  match goal with H : existsb _ _ = true |- _ => apply existsb_exists in H as (t & Ht & H) end.
  apply Exists_exists. exists t. bool_hyps. by rewrite list_elem_of_In.
Qed.

Lemma advance_begin r e c b r' :
  Op c = OpBegin → AdvanceReplacement r e c = Ok (b, r') →
  ∃ n, CloneReplacement (Begin c) = Some n ∧ can_begin e c n = true ∧
       b = false ∧ r' = Some (n <| r_State := ReplacementPending |>).
Proof.
  intros Ho. unfold AdvanceReplacement. rewrite Ho. destruct (time_is_zero _); [done|].
  cbv zeta. case_match; [done|].
  destruct (CloneReplacement (Begin c)) as [n|]; [|done].
  destruct (can_begin e c n) eqn:Hb; [|done]. intros [= <- <-]. eauto 6.
Qed.

(** A successful transition of an attempt: the attempt was pending, matched and in
    time, and the step is the one of [advance_active]. *)
Lemma advance_step r e c b r' :
  Op c ≠ OpBegin → Op c ≠ OpRead → AdvanceReplacement r e c = Ok (b, r') →
  ∃ r0 cur cur', r = Some r0 ∧ cur = expire (At c) r0 ∧ r_State cur = ReplacementPending ∧
    r_ID cur = c_ID c ∧ OldHash cur = CertHash e ∧ Enabled e = true ∧ At c ≠ 0 ∧
    advance_active cur e c = Ok cur' ∧ b = commits cur' e ∧
    r' = Some (if commits cur' e
               then cur' <| r_State := ReplacementCommitted |> <| r_CompletedAt := At c |>
               else cur').
Proof.
  intros H1 H2. unfold AdvanceReplacement, time_is_zero.
  destruct (Z.eqb_spec (At c) 0); [done|]. cbv zeta.
  set (k := match expire (At c) <$> r with Some cur => _ | None => Err ErrConflict end).
  intros H. assert (k = Ok (b, r')) as Hk by (revert H; by destruct (Op c)). clear H.
  subst k. destruct r as [r0|]; cbn in Hk; [|done].
  case_bool_decide as Hid; [done|]. destruct (_ || _) eqn:Hc in Hk; [done|]. bool_hyps.
  apply bind_Ok_inv in Hk as (cur' & Ha & Hk).
  exists r0, (expire (At c) r0), cur'. destruct (commits cur' e); simplify_eq; auto 15.
Qed.

(** One transition keeps the invariant. *)
Lemma advance_handshake_ok r e c b r' :
  (∀ x, r = Some x → handshake_ok (e_ID e) x) → fresh_begin c →
  AdvanceReplacement r e c = Ok (b, Some r') → handshake_ok (e_ID e) r'.
Proof.
  intros Hr Hf H.
  destruct (decide (Op c = OpBegin)) as [Ho|Ho1]; [|destruct (decide (Op c = OpRead)) as [Ho|Ho2]].
  - destruct (advance_begin _ _ _ _ _ Ho H) as (n & Hn & _ & _ & [= ->]).
    unfold CloneReplacement in Hn. destruct (Begin c) as [m|] eqn:Hm; [|done].
    destruct (Hf m Hm) as (? & ? & ? & ? & Ht). cbn in Hn. injection Hn as <-.
    split; unfold setf; cbn; rewrite ?Ht; try congruence; constructor.
  - unfold AdvanceReplacement in H. rewrite Ho in H. destruct (time_is_zero _); [done|].
    destruct r as [x|]; cbn in H; simplify_eq. by apply expire_ok, Hr.
  - destruct (advance_step _ _ _ _ _ Ho1 Ho2 H)
      as (r0 & cur & cur' & Hr0 & -> & Hp & _ & _ & _ & _ & Ha & -> & [= ->]).
    destruct (advance_active_ok _ _ _ _ (expire_ok _ (At c) _ (Hr _ Hr0)) Hp Ha) as [[] Hnc].
    destruct (commits cur' e) eqn:Hc; [|by split].
    apply commits_spec in Hc as (_ & ? & ? & ?). split; done.
Qed.

(** Tokens only enter an attempt with a change that carries them. *)
Lemma advance_tokens (P : ReplacementToken → Prop) r e c b r' :
  (∀ x, r = Some x → Forall P (Tokens x)) → fresh_begin c → (∀ t, c_Token c = Some t → P t) →
  AdvanceReplacement r e c = Ok (b, Some r') → Forall P (Tokens r').
Proof.
  intros Hr Hf Ht H.
  assert (∀ x, Tokens (expire (At c) x) = Tokens x) as Hex by (intros; unfold expire; by case_match).
  destruct (decide (Op c = OpBegin)) as [Ho|Ho1]; [|destruct (decide (Op c = OpRead)) as [Ho|Ho2]].
  - destruct (advance_begin _ _ _ _ _ Ho H) as (n & Hn & _ & _ & [= ->]).
    unfold CloneReplacement in Hn. destruct (Begin c) as [m|] eqn:Hm; [|done].
    destruct (Hf m Hm) as (_ & _ & _ & _ & Htk). cbn in Hn. injection Hn as <-.
    unfold setf; cbn. rewrite Htk. constructor.
  - unfold AdvanceReplacement in H. rewrite Ho in H. destruct (time_is_zero _); [done|].
    destruct r as [x|]; cbn in H; simplify_eq. rewrite Hex. by apply Hr.
  - destruct (advance_step _ _ _ _ _ Ho1 Ho2 H)
      as (r0 & cur & cur' & Hr0 & -> & _ & _ & _ & _ & _ & Ha & -> & [= ->]).
    assert (Forall P (Tokens cur')) by (pose proof (Hr _ Hr0) as Hp; rewrite <-Hex in Hp; revert Ha;
      unfold advance_active; destruct (Op c); repeat case_match; intros; simplify_eq;
      try done; apply put_token_Forall; auto).
    by destruct (commits cur' e).
Qed.

(** What a commit requires, of an attempt that satisfies the invariant. *)
Lemma advance_commit_facts r e c r' :
  (∀ x, r = Some x → handshake_ok (e_ID e) x) →
  AdvanceReplacement r e c = Ok (true, r') →
  Enabled e = true ∧ ∃ x, r' = Some x ∧ r_State x = ReplacementCommitted ∧
    OldHash x = CertHash e ∧ r_ID x = c_ID c ∧ CandidateHash x ≠ [] ∧
    Delivered x = true ∧ Acknowledged x = true ∧ Authenticated x = true ∧
    Exists (λ t, rt_ID t = e_ID e) (Tokens x).
Proof.
  intros Hr H.
  destruct (decide (Op c = OpBegin)) as [Ho|Ho1]; [|destruct (decide (Op c = OpRead)) as [Ho|Ho2]].
  - by destruct (advance_begin _ _ _ _ _ Ho H) as (n & _ & _ & ? & _).
  - unfold AdvanceReplacement in H. rewrite Ho in H. by destruct (time_is_zero _).
  - destruct (advance_step _ _ _ _ _ Ho1 Ho2 H)
      as (r0 & cur & cur' & Hr0 & -> & Hp & Hid & Hold & He & _ & Ha & Hb & ->).
    destruct (advance_active_ok _ _ _ _ (expire_ok _ (At c) _ (Hr _ Hr0)) Hp Ha) as [[] _].
    rewrite <-Hb. apply eq_sym, commits_spec in Hb as (_ & ? & ? & ?).
    split; [done|]. eexists; split; [done|]. unfold setf; cbn.
    assert (OldHash cur' = OldHash (expire (At c) r0) ∧ r_ID cur' = r_ID (expire (At c) r0)) as [-> ->].
    { revert Ha. clear. unfold advance_active. destruct (Op c); repeat case_match;
        intros; simplify_eq; done. }
    auto 15.
Qed.

(** A finished attempt is final and a late one is dead: once an attempt is not pending,
    or its deadline (extended only by reconciliation of an issued candidate) has
    passed, the only transitions that succeed are reading it and beginning another. *)
Theorem AdvanceReplacement_final x e c b r' :
  r_State x ≠ ReplacementPending ∨ expiry x ≤ At c → Op c ≠ OpBegin →
  AdvanceReplacement (Some x) e c = Ok (b, r') →
  Op c = OpRead ∧ b = false ∧ r' = Some (expire (At c) x) ∧
  (r_State x ≠ ReplacementPending → expire (At c) x = x).
Proof.
  intros Hx Ho1 H. assert (r_State (expire (At c) x) ≠ ReplacementPending) as Hnp.
  { unfold expire. destruct Hx as [Hx|Hx]; [by rewrite bool_decide_false|].
    rewrite (proj2 (Z.ltb_ge (At c) (expiry x))) by done.
    destruct (decide (r_State x = ReplacementPending)); [by rewrite bool_decide_true|].
    by rewrite bool_decide_false. }
  assert (r_State x ≠ ReplacementPending → expire (At c) x = x) as He
    by (intros ?; unfold expire; by rewrite bool_decide_false).
  destruct (decide (Op c = OpRead)) as [Ho|Ho2].
  - unfold AdvanceReplacement in H. rewrite Ho in H. destruct (time_is_zero _); [done|].
    cbn in H. simplify_eq. auto.
  - destruct (advance_step _ _ _ _ _ Ho1 Ho2 H) as (r0 & cur & cur' & [= <-] & -> & Hp & _).
    done.
Qed.

(** ** Runs of the handshake

    The stored attempt of one device after a sequence of requested changes, each
    with the enrollment it was applied to; a refused change leaves it. *)
Fixpoint attempt_after (r : option Replacement) (l : list (Enrollment * ReplacementChange))
  : option Replacement :=
  match l with
  | [] => r
  | (e, c) :: l' =>
      attempt_after (match AdvanceReplacement r e c with Ok (_, r') => r' | Err _ => r end) l'
  end.

Lemma attempt_after_ok dev l r :
  Forall (λ ec, e_ID ec.1 = dev ∧ fresh_begin ec.2) l →
  (∀ x, r = Some x → handshake_ok dev x) →
  ∀ x, attempt_after r l = Some x → handshake_ok dev x.
Proof.
  intros Hl. revert r. induction Hl as [|[e c] l [He Hc] _ IH]; intros r Hr; [done|].
  cbn [attempt_after fst snd] in *. apply IH. intros x Hx.
  destruct (AdvanceReplacement r e c) as [[b r']|] eqn:Ha; [|by apply Hr]. subst r' dev.
  by eapply advance_handshake_ok.
Qed.

(** The handshake invariant holds of the stored attempt after any sequence of
    requested changes, accepted or refused: tokens are only captured after the
    candidate authenticated, authentication needs an issued candidate, an
    acknowledgement needs a delivery, every captured token belongs to the device
    and is a usable push token, and each channel has at most one. *)
Theorem AdvanceReplacement_invariant dev l x :
  Forall (λ ec, e_ID ec.1 = dev ∧ fresh_begin ec.2) l →
  attempt_after None l = Some x → handshake_ok dev x.
Proof. intros Hl. by apply (attempt_after_ok dev l None Hl). Qed.

(** ** What a commit rests on *)

(** The accepted changes since the last accepted begin, that one first. *)
Fixpoint accepted_after (r : option Replacement) (log : list ReplacementChange)
  (l : list (Enrollment * ReplacementChange)) : list ReplacementChange :=
  match l with
  | [] => log
  | (e, c) :: l' =>
      match AdvanceReplacement r e c with
      | Ok (_, r') => accepted_after r' (if bool_decide (Op c = OpBegin) then [c] else log ++ [c]) l'
      | Err _ => accepted_after r log l'
      end
  end.

(** The requested attempt [n] starts from a blank handshake. *)
Definition blank (n : Replacement) : Prop :=
  Delivered n = false ∧ Acknowledged n = false ∧ Authenticated n = false ∧ CandidateHash n = [] ∧ Tokens n = [].

(** The change that had the effect which [x] records. *)
Definition delivered_by (x : Replacement) (c : ReplacementChange) : Prop := Op c = OpDeliver ∧ Hash c = OldHash x.
Definition acknowledged_by (x : Replacement) (c : ReplacementChange) : Prop :=
  Op c = OpResult ∧ ∃ rsp, c_Response c = Some rsp ∧ rsp_Status rsp = StatusAcknowledged ∧ rsp_CommandUUID rsp = UUID (r_Command x).
Definition issued_by (x : Replacement) (c : ReplacementChange) : Prop :=
  Op c = OpIssue ∧ Hash c = CandidateHash x ∧ c_Method c = Method x.
Definition authenticated_by (x : Replacement) (c : ReplacementChange) : Prop := Op c = OpAuthenticate ∧ Hash c = CandidateHash x.
Definition captured_by (x : Replacement) (t : ReplacementToken) (c : ReplacementChange) : Prop :=
  Op c = OpToken ∧ Hash c = CandidateHash x ∧ c_Token c = Some t.

(** Whatever the attempt has to show, one of the changes [evs] earned it. *)
Record earned (evs : list ReplacementChange) (x : Replacement) : Prop := {
  ea_delivered : Delivered x = true → Exists (delivered_by x) evs;
  ea_acknowledged : Acknowledged x = true → Delivered x = true ∧ Exists (acknowledged_by x) evs;
  ea_issued : CandidateHash x ≠ [] → Exists (issued_by x) evs;
  ea_authenticated : Authenticated x = true → CandidateHash x ≠ [] ∧ Exists (authenticated_by x) evs;
  ea_order : Tokens x ≠ [] → Authenticated x = true;
  ea_tokens : ∀ t, t ∈ Tokens x → Exists (captured_by x t) evs }.

(** What one accepted change does to the record of the handshake. *)
Record earns (x : Replacement) (c : ReplacementChange) (x' : Replacement) : Prop := {
  es_old : OldHash x' = OldHash x;
  es_method : Method x' = Method x;
  es_id : r_ID x' = r_ID x;
  es_command : r_Command x' = r_Command x;
  es_candidate : CandidateHash x ≠ [] → CandidateHash x' = CandidateHash x;
  es_delivered : Delivered x' = true ↔ Delivered x = true ∨ delivered_by x' c;
  es_acknowledged : Acknowledged x' = true → Acknowledged x = true ∨ (Delivered x = true ∧ acknowledged_by x' c);
  es_issued : CandidateHash x' ≠ [] → CandidateHash x ≠ [] ∨ issued_by x' c;
  es_authenticated : Authenticated x' = true ↔ Authenticated x = true ∨ (CandidateHash x ≠ [] ∧ authenticated_by x' c);
  es_tokens : ∀ t, t ∈ Tokens x' → t ∈ Tokens x ∨ (Authenticated x = true ∧ captured_by x' t c) }.

Lemma earned_step evs c x x' : earns x c x' → earned evs x → earned (evs ++ [c]) x'.
Proof.
  intros [E1 E2 E3 E4 E5 E6 E7 E8 E9 E10] [H1 H2 H3 H4 H5 H6].
  assert (∀ Q : ReplacementChange → Prop, Exists Q evs → Exists Q (evs ++ [c])) as Hold by (intros Q H; apply Exists_app; by left).
  assert (∀ Q : ReplacementChange → Prop, Q c → Exists Q (evs ++ [c])) as Hnew by (intros Q H; apply Exists_app; right; by left).
  unfold delivered_by, acknowledged_by, issued_by, authenticated_by, captured_by in *. rewrite E1, E2, E4 in *.
  assert (Authenticated x = true → CandidateHash x' = CandidateHash x) as Hc by (intros Ha; apply E5, H4, Ha).
  split; unfold delivered_by, acknowledged_by, issued_by, authenticated_by, captured_by; rewrite ?E1, ?E2, ?E4.
  - intros [Hx|Hx]%E6; [by apply Hold, H1|by apply Hnew].
  - intros [Hx|[Hd Hx]]%E7.
    + destruct (H2 Hx). split; [apply E6; by left|by apply Hold].
    + split; [apply E6; by left|by apply Hnew].
  - intros [Hx|Hx]%E8; [|by apply Hnew]. rewrite (E5 Hx). by apply Hold, H3.
  - intros [Hx|[Hx Hx']]%E9; (split; [by rewrite E5; naive_solver|]); [|by apply Hnew].
    rewrite (Hc Hx). by apply Hold, H4.
  - intros Hne. apply E9. left. destruct (Tokens x') as [|t ts]; [done|]. destruct (E10 t ltac:(by left)) as [Ht|[? _]]; [|done].
    apply H5. intros E. rewrite E in Ht. by apply elem_of_nil in Ht.
  - intros t [Hx|[Ha Hx]]%E10; [|by apply Hnew]. rewrite Hc; [by apply Hold, H6|].
    apply H5. intros E. rewrite E in Hx. by apply elem_of_nil in Hx.
Qed.

Lemma put_token_elem t ts u : u ∈ put_token t ts → u ∈ ts ∨ u = t.
Proof.
  induction ts as [|v ts IH]; cbn; [set_solver|]. case_bool_decide; set_solver.
Qed.

Lemma earns_same x c x' : OldHash x' = OldHash x → Method x' = Method x → r_ID x' = r_ID x → r_Command x' = r_Command x →
  CandidateHash x' = CandidateHash x → Delivered x' = Delivered x → Acknowledged x' = Acknowledged x → Authenticated x' = Authenticated x →
  Tokens x' = Tokens x → Op c ≠ OpDeliver → Op c ≠ OpAuthenticate → earns x c x'.
Proof.
  intros E1 E2 E3 E4 E5 E6 E7 E8 E9 N1 N2. unfold delivered_by, authenticated_by.
  split; unfold delivered_by, authenticated_by; rewrite ?E1, ?E2, ?E3, ?E4, ?E5, ?E6, ?E7, ?E8, ?E9; naive_solver.
Qed.

Lemma advance_active_earns cur e c cur' : advance_active cur e c = Ok cur' → earns cur c cur'.
Proof.
  unfold advance_active. destruct (Op c) eqn:Ho; try done.
  - intros [= <-]. apply earns_same; (done || congruence).
  - destruct (_ || _); [done|]. intros [= <-]. apply earns_same; (done || congruence).
  - destruct (_ || _) eqn:Hc; [done|]. intros [= <-]. bool_hyps.
    assert (CandidateHash cur ≠ [] → Hash c = CandidateHash cur) as Hsame.
    { intros Hne. match goal with H : bool_decide (CandidateHash cur ≠ []) && _ = false |- _ => rewrite bool_decide_true in H by done; cbn in H end. by bool_hyps. }
    split; unfold setf; cbn; unfold delivered_by, acknowledged_by, issued_by, authenticated_by, captured_by; rewrite ?Ho; cbn; naive_solver.
  - destruct (_ || _) eqn:Hc; [done|]. intros [= <-]. bool_hyps.
    split; unfold setf; cbn; unfold delivered_by, acknowledged_by, issued_by, authenticated_by, captured_by; rewrite ?Ho; cbn; naive_solver.
  - destruct (c_Token c) as [t|] eqn:Ht; [|done]. destruct (_ || _) eqn:Hc; [done|]. bool_hyps.
    destruct (PushFromTokenUpdate _); [|done]. case_bool_decide; [done|]. intros [= <-].
    split; unfold setf; cbn; unfold delivered_by, acknowledged_by, issued_by, authenticated_by, captured_by; rewrite ?Ho; cbn; try naive_solver.
    intros u [Hu| ->]%put_token_elem; [by left|right]. naive_solver.
  - destruct (_ && _); [done|]. rewrite (bool_decide_true (OpDeliver = _)) by done. case_bool_decide; [done|]. intros [= <-].
    split; unfold setf; cbn; unfold delivered_by, acknowledged_by, issued_by, authenticated_by, captured_by; rewrite ?Ho; cbn; naive_solver.
  - destruct (_ && _); [done|]. rewrite (bool_decide_false (OpResult = _)) by done.
    destruct (c_Response c) as [rsp|] eqn:Hr; [|done]. destruct (_ || _) eqn:Hc; [done|]. bool_hyps.
    repeat case_decide; try done; intros [= <-]; try (apply earns_same; (done || congruence)).
    split; unfold setf; cbn; unfold delivered_by, acknowledged_by, issued_by, authenticated_by, captured_by; rewrite ?Ho; cbn; naive_solver.
Qed.

(** The attempt descends from the begin at the head of the log, and if that was blank, it has
    earned since then all it has to show. *)
Definition descends (log : list ReplacementChange) (x : Replacement) : Prop :=
  ∃ b n evs, log = b :: evs ∧ Op b = OpBegin ∧ Begin b = Some n ∧ r_ID x = r_ID n ∧ OldHash x = OldHash n ∧ Method x = Method n ∧
    UUID (r_Command x) = UUID (r_Command n) ∧ (blank n → earned evs x).

Lemma descends_step log x c x' : descends log x → earns x c x' → descends (log ++ [c]) x'.
Proof.
  intros (b & n & evs & -> & Ho & Hb & H1 & H2 & H3 & H4 & He) Hs. exists b, n, (evs ++ [c]).
  split_and!; [done..| | | | |]; [| | | |by intros Hn; eapply earned_step, He].
  - by rewrite (es_id _ _ _ Hs).
  - by rewrite (es_old _ _ _ Hs).
  - by rewrite (es_method _ _ _ Hs).
  - by rewrite (es_command _ _ _ Hs).
Qed.

(** Changes of the state of the attempt alone. *)
Lemma descends_state log x s t : descends log x → descends log (x <| r_State := s |> <| r_CompletedAt := t |>).
Proof.
  intros (b & n & evs & -> & Ho & Hb & H1 & H2 & H3 & H4 & He). exists b, n, evs. split_and!; try done. intros [E1 E2 E3 E4 E5 E6]%He. by split.
Qed.
Lemma descends_expire log x t : descends log x → descends log (expire t x).
Proof. intros H. unfold expire. destruct (_ && _); [by apply descends_state|done]. Qed.

Lemma advance_descends r log e c b x : (∀ x0, r = Some x0 → descends log x0) → AdvanceReplacement r e c = Ok (b, Some x) →
  descends (if bool_decide (Op c = OpBegin) then [c] else log ++ [c]) x.
Proof.
  intros Hr H. case_bool_decide as Ho1; [|destruct (decide (Op c = OpRead)) as [Ho2|Ho2]].
  - destruct (advance_begin _ _ _ _ _ Ho1 H) as (n & Hn & _ & _ & [= ->]). unfold CloneReplacement in Hn.
    destruct (Begin c) as [m|] eqn:Hm; [|done]. injection Hn as <-. exists c, m, []. split_and!; try done.
    intros (E1 & E2 & E3 & E4 & E5). split; unfold setf; cbn; rewrite ?E1, ?E2, ?E3, ?E4, ?E5; try done. by intros t ?%elem_of_nil.
  - unfold AdvanceReplacement in H. rewrite Ho2 in H. destruct (time_is_zero _); [done|]. destruct r as [x0|]; cbn in H; [|done]. injection H as <- <-.
    eapply descends_step; [apply descends_expire, Hr; done|]. apply earns_same; (done || congruence).
  - destruct (advance_step _ _ _ _ _ Ho1 Ho2 H) as (r0 & cur & cur' & Hr0 & -> & _ & _ & _ & _ & _ & Ha & -> & [= ->]).
    assert (descends (log ++ [c]) cur') as Hd by (eapply descends_step; [apply descends_expire, Hr, Hr0|by eapply advance_active_earns]).
    destruct (commits cur' e); [by apply descends_state|done].
Qed.

Lemma attempt_descends l : ∀ r log, (∀ x, r = Some x → descends log x) →
  ∀ x, attempt_after r l = Some x → descends (accepted_after r log l) x.
Proof.
  induction l as [|[e c] l IH]; intros r log Hr x Hx; cbn [attempt_after accepted_after] in *; [by apply Hr|].
  destruct (AdvanceReplacement r e c) as [[b r']|] eqn:Ha; [|by apply (IH r)]. apply (IH r'); [|done].
  intros y ->. by eapply advance_descends.
Qed.

Lemma advance_commits r e c r' : AdvanceReplacement r e c = Ok (true, r') →
  Enabled e = true ∧ Op c ≠ OpBegin ∧ ∃ x, r' = Some x ∧ r_State x = ReplacementCommitted ∧ OldHash x = CertHash e ∧ r_ID x = c_ID c ∧
    Acknowledged x = true ∧ Authenticated x = true ∧ Exists (λ t, rt_ID t = e_ID e) (Tokens x).
Proof.
  intros H. destruct (decide (Op c = OpBegin)) as [Ho|Ho1]; [|destruct (decide (Op c = OpRead)) as [Ho|Ho2]].
  - by destruct (advance_begin _ _ _ _ _ Ho H) as (n & _ & _ & ? & _).
  - unfold AdvanceReplacement in H. rewrite Ho in H. by destruct (time_is_zero _).
  - destruct (advance_step _ _ _ _ _ Ho1 Ho2 H) as (r0 & cur & cur' & _ & -> & _ & Hid & Hold & He & _ & Ha & Hb & ->).
    rewrite <-Hb. apply eq_sym, commits_spec in Hb as (_ & ? & ? & ?). apply advance_active_earns in Ha.
    split; [done|]. split; [done|]. eexists. split; [done|]. unfold setf; cbn.
    rewrite (es_old _ _ _ Ha), (es_id _ _ _ Ha). by split_and!.
Qed.

(** C29 A commit is earned. After any sequence of changes, accepted or refused, the transition
    that asks the backend to commit the candidate leaves the attempt committed; it only
    happens to an enabled enrollment still pinned to the old certificate, and to an attempt
    that is acknowledged and authenticated and has captured the token of the enrollment's
    own channel. The attempt is the one that was begun last; when the request that began it
    was blank, each of these goes back to an accepted change since then: the old certificate
    was delivered the profile, the device acknowledged the command, a candidate was issued by
    the method asked for and authenticated, and the token came from the candidate. *)
Theorem AdvanceReplacement_commit l e c r' :
  AdvanceReplacement (attempt_after None l) e c = Ok (true, r') →
  Enabled e = true ∧ ∃ x b n evs, r' = Some x ∧ r_State x = ReplacementCommitted ∧ OldHash x = CertHash e ∧ r_ID x = c_ID c ∧
    Acknowledged x = true ∧ Authenticated x = true ∧ Exists (λ t, rt_ID t = e_ID e) (Tokens x) ∧
    accepted_after None [] l = b :: evs ∧ Op b = OpBegin ∧ Begin b = Some n ∧ r_ID x = r_ID n ∧ OldHash x = OldHash n ∧
    (blank n → let since := evs ++ [c] in CandidateHash x ≠ [] ∧
       Exists (delivered_by x) since ∧ Exists (acknowledged_by x) since ∧ Exists (issued_by x) since ∧
       Exists (authenticated_by x) since ∧ Exists (λ t, rt_ID t = e_ID e ∧ Exists (captured_by x t) since) (Tokens x)).
Proof.
  intros H. destruct (advance_commits _ _ _ _ H) as (He & Hop & x & -> & Hst & Hold & Hid & Hack & Hau & Htok). split; [done|].
  apply (advance_descends _ (accepted_after None [] l)) in H; [|by apply attempt_descends].
  rewrite bool_decide_false in H by done. destruct H as (b & n & evs & Hlog & Ho & Hb & E1 & E2 & _ & _ & Hea).
  destruct (accepted_after None [] l) as [|b' evs'] eqn:El; [injection Hlog as <- <-|injection Hlog as <- <-].
  - done.
  - exists x, b', n, evs'. split_and!; try done. intros [H1 H2 H3 H4 H5 H6]%Hea. destruct (H2 Hack), (H4 Hau). split_and!; auto.
    apply Exists_exists in Htok as (t & Ht & Hit). apply Exists_exists. exists t. auto.
Qed.

(** ** A complete handshake

    Begin, issue, deliver, authenticate, acknowledge, token: the run commits. It
    also provides the reachable states the witnesses use. *)
Definition dev1 : EnrollmentID := mkID ChannelDevice (bs "U1") [].
Definition enrolled1 : Enrollment :=
  noEnrollment <| e_ID := dev1 |> <| Enabled := true |> <| CertHash := bs "old" |>.
Definition change0 : ReplacementChange :=
  mkChange [] 0 [] OpRead (bs "R1") [] (bs "acme") [] [] 100 None [] None None.
Definition attempt1 : Replacement :=
  mkReplacement [] 0 [] (bs "R1") (bs "acme") (bs "old") [] [] [] ReplacementPending
    1000 0 (mkCommand (bs "R1") (bs "InstallProfile") None (bs "profile"))
    false false false [] [].
Definition token1 : ReplacementToken :=
  mkRToken dev1 (Some (mkTokenUpdate false [] (bs "topic") (bs "U1") [] [] None None []
    (bs "tok") (bs "magic") [] None)) (bs "raw").
Definition ack1 : Response :=
  mkResponse (mkKeys (bs "U1") [] [] [] [] []) dev1 (bs "R1") StatusAcknowledged [] None [].

Definition with_op (o : ReplacementOp) (h : bytes) (t : option ReplacementToken)
  (b : option Replacement) (rsp : option Response) : ReplacementChange :=
  mkChange [] 0 [] o (bs "R1") h (bs "acme") [] [] 100 b [] t rsp.

Definition run1 : list ReplacementChange :=
  [with_op OpBegin [] None (Some attempt1) None;
   with_op OpIssue (bs "new") None None None;
   with_op OpDeliver (bs "old") None None None;
   with_op OpAuthenticate (bs "new") None None None;
   with_op OpResult (bs "old") None None (Some ack1);
   with_op OpToken (bs "new") (Some token1) None None].

Lemma run1_fresh n : Forall (λ ec, e_ID ec.1 = dev1 ∧ fresh_begin ec.2) ((λ c, (enrolled1, c)) <$> take n run1).
Proof.
  apply Forall_fmap, Forall_take. unfold run1.
  repeat apply Forall_cons_2; [..|apply Forall_nil_2];
    (split; [done|]; intros n' Hn; cbn in Hn; simplify_eq; done).
Qed.

Lemma AdvanceReplacement_invariant_witness :
  ∃ x, attempt_after None ((λ c, (enrolled1, c)) <$> take 6 run1) = Some x ∧
       r_State x = ReplacementCommitted ∧ handshake_ok dev1 x.
Proof.
  destruct (attempt_after None ((λ c, (enrolled1, c)) <$> take 6 run1)) as [x|] eqn:H;
    [|vm_compute in H; discriminate H].
  exists x. split; [reflexivity|]. split; [vm_compute in H; injection H as <-; reflexivity|].
  exact (AdvanceReplacement_invariant dev1 _ x (run1_fresh 6) H).
Defined.

Lemma AdvanceReplacement_commit_witness :
  ∃ x r' evs, AdvanceReplacement (attempt_after None ((λ c, (enrolled1, c)) <$> take 5 run1)) enrolled1
            (with_op OpToken (bs "new") (Some token1) None None) = Ok (true, r') ∧
          r' = Some x ∧ r_State x = ReplacementCommitted ∧ CandidateHash x ≠ [] ∧ Exists (delivered_by x) evs ∧ Exists (issued_by x) evs.
Proof.
  destruct (AdvanceReplacement (attempt_after None ((λ c, (enrolled1, c)) <$> take 5 run1)) enrolled1
              (with_op OpToken (bs "new") (Some token1) None None)) as [[b r']|] eqn:H;
    [|vm_compute in H; discriminate H].
  assert (b = true) as -> by (vm_compute in H; congruence).
  destruct (AdvanceReplacement_commit _ enrolled1 _ _ H)
    as (_ & x & b & n & evs & H1 & H2 & _ & _ & _ & _ & _ & Hlog & _ & Hb & _ & _ & He).
  assert (head (accepted_after None [] ((λ c, (enrolled1, c)) <$> take 5 run1)) = Some (with_op OpBegin [] None (Some attempt1) None)) as Hh
    by (vm_compute; reflexivity).
  rewrite Hlog in Hh. apply (inj Some) in Hh. subst b.
  assert (n = attempt1) as -> by (cbn in Hb; congruence).
  destruct He as (H3 & H4 & _ & H5 & _); [by repeat split|].
  exists x, r', (evs ++ [with_op OpToken (bs "new") (Some token1) None None]). exact (conj eq_refl (conj H1 (conj H2 (conj H3 (conj H4 H5))))).
Defined.

Lemma AdvanceReplacement_final_witness :
  ∃ b r', AdvanceReplacement (Some (attempt1 <| r_State := ReplacementFailed |>)) enrolled1 change0
          = Ok (b, r') ∧ Op change0 = OpRead ∧ b = false.
Proof.
  destruct (AdvanceReplacement (Some (attempt1 <| r_State := ReplacementFailed |>)) enrolled1 change0)
    as [[b r']|] eqn:H; [|vm_compute in H; discriminate H].
  exists b, r'. split; [reflexivity|].
  destruct (AdvanceReplacement_final (attempt1 <| r_State := ReplacementFailed |>) enrolled1
              change0 b r') as (H1 & H2 & _);
    [left; discriminate | discriminate | exact H | auto].
Defined.
