(* ===== verification/InMem.v ===== *)
(** * The in-memory store: [devicemanagement/storage/inmem]

    Every operation of the reference store, as a function from the store's state to
    a result and the new state. The mutex makes each call atomic, so a call is one
    step; an operation that returns an error leaves the state as it was, which the
    type [result serr (A * Store)] records. [time.Now()] is an argument. Byte
    slices are copied on the way in and out by the code, so values suffice.

    [InMemQueue] and the [InMem] files after it state what the operations guarantee. *)
From S2P Require Import Prelude GoStrings Mdm Storage Replacement.

(* @src devicemanagement/storage/inmem/inmem.go - record *)
Record record := mkRecord { Enr : Enrollment; queue : list QueuedCommand }.
#[export] Instance record_eq_dec : EqDecision record.
Proof. solve_decision. Defined.
#[export] Instance record_eta : Eta record := λ r, mkRecord (Enr r) (queue r).
(** [&record{}] *)
Definition noRecord : record := mkRecord noEnrollment [].

(* @src devicemanagement/storage/inmem/inmem.go - Store *)
Record Store := mkStore {
  enrollments : gmap bytes record;
  certs : gmap bytes EnrollmentID;
  bootstrap : gmap bytes bytes;
  history : list CertAssociation;
  pushCerts : gmap bytes PushCert;
  userAuth : gmap bytes UserAuthState;
  replacements : gmap bytes Replacement
}.
#[export] Instance Store_eta : Eta Store := λ s,
  mkStore (enrollments s) (certs s) (bootstrap s) (history s) (pushCerts s) (userAuth s)
    (replacements s).

(* @src devicemanagement/storage/inmem/inmem.go - New *)
Definition New : Store := mkStore ∅ ∅ ∅ [] ∅ ∅ ∅.

Definition put_record (k : bytes) (r : record) (s : Store) : Store :=
  s <| enrollments := <[k := r]> (enrollments s) |>.
Definition disabled (e : Enrollment) : bool := negb (time_is_zero (DisabledAt e)).

(** ** Lookups *)

(* @src devicemanagement/storage/inmem/inmem.go - Store.get *)
Definition get (s : Store) (id : EnrollmentID) : result serr record :=
  match Validate id with
  | Err _ => Err ErrInvalid
  | Ok _ =>
      match enrollments s !! ID id with
      | None => Err ErrNotFound
      | Some r => if bool_decide (e_ID (Enr r) ≠ id) then Err ErrNotFound else Ok r
      end
  end.

(* @src devicemanagement/storage/inmem/authenticate.go - Store.deviceRecordLocked *)
Definition deviceRecordLocked (s : Store) (id : EnrollmentID) : result serr record :=
  match Validate id with
  | Err _ => Err ErrInvalid
  | Ok _ =>
      if match enrollments s !! ID id with
         | Some r => bool_decide (e_ID (Enr r) ≠ id) | None => false end
      then Err ErrNotFound
      else get s (Device id)
  end.

(* @src devicemanagement/storage/inmem/inmem.go - Store.Get *)
Definition Get (s : Store) (id : EnrollmentID) : result serr Enrollment :=
  r ← get s id; Ok (Enr r).

(* @src devicemanagement/storage/inmem/authenticate.go - Store.EnrollmentByID *)
Definition EnrollmentByID (s : Store) (id : bytes) : result serr Enrollment :=
  match enrollments s !! id with
  | None => Err ErrNotFound
  | Some r => Get s (e_ID (Enr r))
  end.

(** ** Clearing what an identity owned *)

(** One queue entry, cleared unless it is terminal. *)
Definition clear_entry (at_ : Time) (q : QueuedCommand) : QueuedCommand :=
  if negb (Terminal (qState q))
  then q <| qState := StateCleared |> <| CompletedAt := at_ |> else q.

(* @src devicemanagement/storage/inmem/authenticate.go - clearPendingLocked *)
Definition clearPendingLocked (at_ : Time) (r : record) : record :=
  r <| queue := clear_entry at_ <$> queue r |>.

(* @src devicemanagement/storage/inmem/inmem.go - Store.dropCertLocked *)
Definition dropCertLocked (deviceID : bytes) (s : Store) : Store :=
  s <| certs := filter (λ '(_, owner), ID owner ≠ deviceID) (certs s) |>.

(* @src devicemanagement/storage/inmem/parity.go - Store.clearUserAuthOfDeviceLocked *)
Definition clearUserAuthOfDeviceLocked (deviceID : bytes) (s : Store) : Store :=
  s <| userAuth := filter (λ '(_, st), ParentID (ua_ID st) ≠ deviceID) (userAuth s) |>.

(* @src devicemanagement/storage/inmem/inmem.go - Store.disableChildrenLocked *)
Definition disableChildrenLocked (deviceID : bytes) (at_ : Time) (s : Store) : Store :=
  s <| enrollments :=
       (λ child, if bool_decide (ParentID (e_ID (Enr child)) = deviceID)
                 then clearPendingLocked at_
                        (child <| Enr := (Enr child) <| Enabled := false |> <| DisabledAt := at_ |> |>)
                 else child) <$> enrollments s |>.

(** The user channels of a device that authenticates again: pending rows, with
    nothing of the previous enrollment left. *)
(* @src devicemanagement/storage/inmem/inmem.go 120-125 Store.resetAuthenticateLocked *)
Definition resetChildren (deviceID : bytes) (at_ : Time) (s : Store) : Store :=
  s <| enrollments :=
       (λ child, if bool_decide (ParentID (e_ID (Enr child)) = deviceID)
                 then (clearPendingLocked at_ child)
                        <| Enr := noEnrollment <| e_ID := e_ID (Enr child) |>
                                    <| EnrolledAt := at_ |> <| LastSeenAt := at_ |> |>
                 else child) <$> enrollments s |>.

(** [r] is the record at [id.ID], already present in the map. *)
(* @src devicemanagement/storage/inmem/inmem.go - Store.resetAuthenticateLocked *)
Definition resetAuthenticateLocked (s : Store) (r : record) (id : EnrollmentID)
  (msg : option Authenticate) (raw : bytes) (at_ : Time) : Store :=
  let r := clearPendingLocked at_ r in
  let s :=
    if negb (IsUser (IDChannel id)) then
      clearUserAuthOfDeviceLocked (ID id)
        (resetChildren (ID id) at_
           ((dropCertLocked (ID id) s) <| bootstrap := delete (ID id) (bootstrap s) |>))
    else s in
  put_record (ID id)
    (r <| Enr := noEnrollment <| e_ID := id |> <| e_Device := DeviceInfoFromAuthenticate msg |>
                   <| AuthenticateRaw := raw |> <| EnrolledAt := at_ |> <| LastSeenAt := at_ |> |>) s.

(** ** Enrollment *)

(* @src devicemanagement/storage/inmem/inmem.go - Store.UpsertAuthenticate *)
Definition UpsertAuthenticate (s : Store) (id : EnrollmentID) (msg : option Authenticate)
  (raw : bytes) (at_ : Time) : result serr (unit * Store) :=
  match Validate id with
  | Err _ => Err ErrInvalid
  | Ok _ =>
      let o := enrollments s !! ID id in
      _ ← reject match o with Some r => bool_decide (e_ID (Enr r) ≠ id) | None => false end ErrConflict;
      _ ← (if IsUser (IDChannel id) then
             parent ← deviceRecordLocked s id;
             reject (disabled (Enr parent)) ErrDisabled
           else Ok tt);
      let r := default noRecord o in
      Ok (tt, resetAuthenticateLocked s r id msg raw at_)
  end.

(** Appends to the history unless the pair is already there. *)
(* @src devicemanagement/storage/inmem/inmem.go - Store.recordAssociationLocked *)
Definition recordAssociationLocked (dev : EnrollmentID) (hash : bytes) (at_ : Time) (s : Store)
  : Store :=
  if existsb (λ a, bool_decide (ID (a_ID a) = ID dev) && bool_decide (a_Hash a = hash)) (history s)
  then s
  else s <| history := history s ++ [mkAssoc dev hash at_] |>.

(* @src devicemanagement/storage/inmem/authenticate.go - Store.AuthenticateEnrollment *)
Definition AuthenticateEnrollment (s : Store) (cancelled : bool) (id : EnrollmentID)
  (c : AuthenticateChange) : result serr (AuthenticateResult * Store) :=
  _ ← reject cancelled ErrCanceled;
  let r := enrollments s !! ID id in
  retry ← CheckAuthenticate id (Enr <$> r) c;
  if (retry : bool) then Ok (mkAuthResult true false, s)
  else
    _ ← reject (bool_decide (ac_Hash c ≠ []) &&
                match certs s !! ac_Hash c with
                | Some owner => bool_decide (owner ≠ id) | None => false end) ErrConflict;
    _ ← reject (bool_decide (ac_Hash c ≠ []) && negb (AllowReuse c) &&
                existsb (λ h, bool_decide (a_Hash h = ac_Hash c) && bool_decide (a_ID h ≠ id))
                  (history s)) ErrConflict;
    let s := resetAuthenticateLocked s (default noRecord r) id (ac_Message c) (ac_Raw c) (ac_At c) in
    let s :=
      if bool_decide (ac_Hash c ≠ []) then
        let r := default noRecord (enrollments s !! ID id) in
        let s := s <| certs := <[ac_Hash c := id]> (certs s) |> in
        let s := put_record (ID id)
                   (r <| Enr := (Enr r) <| CertHash := ac_Hash c |> <| CertHashAt := ac_At c |> |>) s in
        recordAssociationLocked id (ac_Hash c) (ac_At c) s
      else s in
    Ok (mkAuthResult true true, s).

(** The fields of a record that a [TokenUpdate] message carries. *)
(* @src devicemanagement/storage/inmem/inmem.go 201-213 Store.StoreTokenUpdate *)
Definition apply_token_update (m : TokenUpdate) (e : Enrollment) : Enrollment :=
  let e := if bool_decide (tu_UnlockToken m ≠ []) then e <| UnlockToken := tu_UnlockToken m |> else e in
  let e := match tu_UserShortName m with Some n => e <| e_UserShortName := n |> | None => e end in
  let e := if bool_decide (tu_UserLongName m ≠ []) then e <| e_UserLongName := tu_UserLongName m |> else e in
  let e := if bool_decide (tu_EnrollmentUserID m ≠ [])
           then e <| e_EnrollmentUserID := tu_EnrollmentUserID m |> else e in
  e <| NotOnConsole := tu_NotOnConsole m |>.

(* @src devicemanagement/storage/inmem/inmem.go - Store.StoreTokenUpdate *)
Definition StoreTokenUpdate (s : Store) (id : EnrollmentID) (push : Push) (msg : option TokenUpdate)
  (raw : bytes) (at_ : Time) : result serr (unit * Store) :=
  _ ← reject (negb (Push_Valid push)) ErrInvalid;
  r ← get s id;
  _ ← reject (disabled (Enr r)) ErrDisabled;
  _ ← (if IsUser (IDChannel id) then
         parent ← deviceRecordLocked s id;
         reject (disabled (Enr parent)) ErrDisabled
       else Ok tt);
  let e := (Enr r) <| e_Push := push |> in
  let e := if bool_decide (raw ≠ []) then e <| TokenUpdateRaw := raw |> else e in
  let e := e <| Enabled := true |> <| TokenUpdatedAt := at_ |> <| LastSeenAt := at_ |>
             <| DisabledAt := 0 |> in
  let e := match msg with Some m => apply_token_update m e | None => e end in
  Ok (tt, put_record (ID id) (r <| Enr := e |>) s).

(* @src devicemanagement/storage/inmem/inmem.go - Store.Disable *)
Definition Disable (s : Store) (id : EnrollmentID) (at_ : Time) : result serr (unit * Store) :=
  r ← get s id;
  let r := clearPendingLocked at_
             (r <| Enr := (Enr r) <| Enabled := false |> <| DisabledAt := at_ |> |>) in
  let s := put_record (ID id) r s in
  Ok (tt, if negb (IsUser (IDChannel id)) then disableChildrenLocked (ID id) at_ s else s).

(* @src devicemanagement/storage/inmem/inmem.go - Store.TouchLastSeen *)
Definition TouchLastSeen (s : Store) (id : EnrollmentID) (at_ : Time) : result serr (unit * Store) :=
  r ← get s id;
  Ok (tt, if LastSeenAt (Enr r) <? at_
          then put_record (ID id) (r <| Enr := (Enr r) <| LastSeenAt := at_ |> |>) s else s).

(* @src devicemanagement/storage/inmem/inmem.go 262-276 Store.List *)
Definition list_matches (q : EnrollmentQuery) (p : Page) (id : bytes) (r : record) : bool :=
  negb (negb (eq_Channel q =? ChannelUnknown) && negb (IDChannel (e_ID (Enr r)) =? eq_Channel q))
  && match eq_Enabled q with Some b => bool_decide (Enabled (Enr r) = b) | None => true end
  && negb (bool_decide (eq_ParentID q ≠ []) && bool_decide (ParentID (e_ID (Enr r)) ≠ eq_ParentID q))
  && negb (bool_decide (eq_Serial q ≠ [])
           && bool_decide (SerialNumber (e_Device (Enr r)) ≠ eq_Serial q))
  && negb (bool_decide (Cursor p ≠ []) && bytes_leb id (Cursor p)).

(** A page of a sorted key list: the loop that stops at [i == limit] and remembers
    the last key served. *)
(* @src devicemanagement/storage/inmem/inmem.go 280-291 Store.List *)
Definition page_of (limit0 : Z) (ids : list bytes) : list bytes * bytes :=
  let limit := if limit0 <=? 0 then DefaultPageSize else limit0 in
  if limit <? Z.of_nat (length ids)
  then (take (Z.to_nat limit) ids, default [] (last (take (Z.to_nat limit) ids)))
  else (ids, []).

(* @src devicemanagement/storage/inmem/inmem.go - Store.List *)
Definition List (s : Store) (q : EnrollmentQuery) (p : Page) : PageResult Enrollment :=
  let ids := sort_strings
    (map_to_list (filter (λ '(id, r), list_matches q p id r = true) (enrollments s))).*1 in
  let '(page, next) := page_of (Limit p) ids in
  mkPageResult (omap (λ id, Enr <$> enrollments s !! id) page) next.

(** ** The command queue *)

(* @src devicemanagement/storage/inmem/inmem.go - hasPendingKey *)
Definition hasPendingKey (r : record) (key : bytes) : bool :=
  existsb (λ q, bool_decide (DedupeKey q = key) && negb (Terminal (qState q))) (queue r).

(** The guards every queue operation applies: the enrollment, and the device a user
    channel belongs to, must be enabled and not disabled. *)
(* @src devicemanagement/storage/inmem/inmem.go 393-408 Store.Next *)
Definition activeRecord (s : Store) (id : EnrollmentID) : result serr record :=
  r ← get s id;
  _ ← reject (negb (Enabled (Enr r)) || disabled (Enr r)) ErrDisabled;
  _ ← (if IsUser (IDChannel id) then
         parent ← get s (Device id);
         reject (negb (Enabled (Enr parent)) || disabled (Enr parent)) ErrDisabled
       else Ok tt);
  Ok r.

(** The body of the loop of [Enqueue] for one enrollment. *)
(* @src devicemanagement/storage/inmem/inmem.go 330-369 Store.Enqueue *)
Definition enqueue_one (cmd : Command) (o : EnqueueOptions) (now : Time)
  (acc : Store * EnqueueResult) (id : EnrollmentID) : Store * EnqueueResult :=
  let '(s, res) := acc in
  let skip e := (s, mkEnqueueResult (Queued res) (<[id := e]> (Skipped res))) in
  match activeRecord s id with
  | Err e => skip e
  | Ok r =>
      if bool_decide (o_DedupeKey o ≠ []) && hasPendingKey r (o_DedupeKey o) then skip ErrConflict
      else
        (put_record (ID id)
           (r <| queue := queue r ++ [mkQueued cmd StatePending (o_DedupeKey o) now 0 0 0 0 0 None] |>) s,
         mkEnqueueResult (Queued res ++ [id]) (Skipped res))
  end.

(** [wall] is the value of [time.Now()]. A nil command is [None]. *)
(* @src devicemanagement/storage/inmem/inmem.go - Store.Enqueue *)
Definition Enqueue (s : Store) (ids : list EnrollmentID) (cmd : option Command)
  (o : EnqueueOptions) (wall : Time) : result serr (EnqueueResult * Store) :=
  match cmd with
  | None => Err ErrInvalid
  | Some cmd =>
      _ ← reject (bool_decide (UUID cmd = []) || bool_decide (RequestType cmd = [])) ErrInvalid;
      let now := if time_is_zero (o_Now o) then wall else o_Now o in
      let '(s', res) := foldl (enqueue_one cmd o now) (s, mkEnqueueResult [] ∅) ids in
      Ok (res, s')
  end.

(** Whether the loop of [Next] stops at an entry. *)
(* @src devicemanagement/storage/inmem/inmem.go 410-418 Store.Next *)
Definition deliverable (skipNotNow : bool) (now : Time) (q : QueuedCommand) : bool :=
  match qState q with
  | StatePending | StateSent => true
  | StateNotNow => negb (skipNotNow || (now <? NotNowUntil q))
  | StateAcknowledged | StateError | StateCleared => false
  end.

(* @src devicemanagement/storage/inmem/inmem.go 419-421 Store.Next *)
Definition mark_sent (now : Time) (q : QueuedCommand) : QueuedCommand :=
  q <| qState := StateSent |> <| LastSentAt := now |> <| Attempts := Attempts q + 1 |>.

(** Update of the first entry a predicate selects: the loops of [Next] and
    [StoreResult] return from there. *)
Fixpoint update_first (p : QueuedCommand → bool) (f : QueuedCommand → QueuedCommand)
  (qs : list QueuedCommand) : option (QueuedCommand * list QueuedCommand) :=
  match qs with
  | [] => None
  | q :: qs' =>
      if p q then Some (q, f q :: qs')
      else match update_first p f qs' with
           | Some (x, l) => Some (x, q :: l)
           | None => None
           end
  end.

(* @src devicemanagement/storage/inmem/inmem.go - Store.Next *)
Definition Next (s : Store) (id : EnrollmentID) (skipNotNow : bool) (now : Time)
  : result serr (option Command * Store) :=
  r ← activeRecord s id;
  match update_first (deliverable skipNotNow now) (mark_sent now) (queue r) with
  | Some (q, qs) => Ok (Some (qCommand q), put_record (ID id) (r <| queue := qs |>) s)
  | None => Ok (None, s)
  end.

(** How a result changes the entry it answers. *)
(* @src devicemanagement/storage/inmem/inmem.go 464-477 Store.StoreResult *)
Definition apply_result (resp : Response) (now : Time) (q : QueuedCommand) : QueuedCommand :=
  let q := q <| qResult := Some resp |> in
  if decide (rsp_Status resp = StatusAcknowledged) then
    q <| qState := StateAcknowledged |> <| CompletedAt := now |>
  else if decide (rsp_Status resp = StatusNotNow) then
    q <| NotNowCount := NotNowCount q + 1 |> <| qState := StateNotNow |>
      <| NotNowUntil := now + NotNowBackoff (NotNowCount q + 1) |>
  else q <| qState := StateError |> <| CompletedAt := now |>.

(** Whether an entry is the open command a response names. *)
(* @src devicemanagement/storage/inmem/inmem.go 461-463 Store.StoreResult *)
Definition answers (resp : Response) (q : QueuedCommand) : bool :=
  negb (bool_decide (UUID (qCommand q) ≠ rsp_CommandUUID resp) || Terminal (qState q)).

(* @src devicemanagement/storage/inmem/inmem.go - Store.StoreResult *)
Definition StoreResult `{!PlistDecoder} (s : Store) (id : EnrollmentID) (resp : option Response)
  (now : Time) : result serr (unit * Store) :=
  match resp with
  | None => Err ErrInvalid
  | Some resp =>
      _ ← reject (IsIdle resp || bool_decide (rsp_CommandUUID resp = [])) ErrInvalid;
      r ← activeRecord s id;
      match update_first (answers resp) (apply_result resp now) (queue r) with
      | None => Err ErrNotFound
      | Some (q, qs) =>
          let rt := RequestType (qCommand q) in
          let e := Enr r in
          let e := e <| e_Capabilities :=
                     CapabilitiesFromResult (e_Capabilities e) id rt (Some resp) now |> in
          let e := e <| e_Device := DeviceInfoFromResult (e_Device e) id rt (Some resp) |> in
          Ok (tt, put_record (ID id) (mkRecord e qs) s)
      end
  end.

(* @src devicemanagement/storage/inmem/inmem.go - containsState *)
Definition containsState (states : list State) (st : State) : bool := bool_decide (st ∈ states).

(** An error of [Commands], or the run-time panic of an out-of-range slice. *)
Inductive cerr := CErr (e : serr) | CPanic.

(* @src devicemanagement/storage/inmem/inmem.go 507-512 Store.Commands *)
Definition command_matches (q : CommandQuery) (c : QueuedCommand) : bool :=
  negb (bool_decide (cq_RequestType q ≠ [])
        && bool_decide (RequestType (qCommand c) ≠ cq_RequestType q))
  && negb (bool_decide (cq_States q ≠ []) && negb (containsState (cq_States q) (qState c))).

(** Two's complement wrap-around of an [int]. *)
Definition wrap64 (z : Z) : Z := (z - min_int64) mod 2 ^ 64 + min_int64.

(** The offset page of the matches, newest first. [offset+limit] is an [int]
    addition; a bound below the offset is a slice out of range. *)
(* @src devicemanagement/storage/inmem/inmem.go 527-540 Store.Commands *)
Definition commands_page (offset limit0 : Z) (ms : list QueuedCommand)
  : result cerr (PageResult QueuedCommand) :=
  let limit := if limit0 <=? 0 then DefaultPageSize else limit0 in
  let n := Z.of_nat (length ms) in
  if n <=? offset then Ok (mkPageResult [] [])
  else
    let end_ := Z.min (wrap64 (offset + limit)) n in
    if end_ <? offset then Err CPanic
    else Ok (mkPageResult (take (Z.to_nat (end_ - offset)) (drop (Z.to_nat offset) ms))
               (if end_ <? n then itoa end_ else [])).

(* @src devicemanagement/storage/inmem/inmem.go - Store.Commands *)
Definition Commands (s : Store) (id : EnrollmentID) (q : CommandQuery) (p : Page)
  : result cerr (PageResult QueuedCommand) :=
  match get s id with
  | Err e => Err (CErr e)
  | Ok r =>
      let ms := filter (λ c, command_matches q c = true) (reverse (queue r)) in
      offset ← (if bool_decide (Cursor p ≠ []) then
                  match atoi (Cursor p) with
                  | Some n => if n <? 0 then Err (CErr ErrInvalid) else Ok n
                  | None => Err (CErr ErrInvalid)
                  end
                else Ok 0);
      commands_page offset (Limit p) ms
  end.

(** Whether [Clear] marks an entry. *)
(* @src devicemanagement/storage/inmem/inmem.go 571-585 Store.Clear *)
Definition clear_selects (f : ClearFilter) (q : QueuedCommand) : bool :=
  negb (Terminal (qState q))
  && negb (bool_decide (f_States f ≠ []) && negb (containsState (f_States f) (qState q)))
  && negb (bool_decide (f_RequestType f ≠ []) && bool_decide (RequestType (qCommand q) ≠ f_RequestType f))
  && negb (bool_decide (f_CommandUUID f ≠ []) && bool_decide (UUID (qCommand q) ≠ f_CommandUUID f))
  && negb (negb (time_is_zero (f_Before f)) && negb (EnqueuedAt q <? f_Before f)).

(* @src devicemanagement/storage/inmem/inmem.go - Store.Clear *)
Definition Clear (s : Store) (id : EnrollmentID) (f : ClearFilter) (wall : Time)
  : result serr (Z * Store) :=
  r ← get s id;
  let qs := (λ q, if clear_selects f q
                  then q <| qState := StateCleared |> <| CompletedAt := wall |> else q) <$> queue r in
  let n := Z.of_nat (length (filter (λ q, clear_selects f q = true) (queue r))) in
  Ok (n, put_record (ID id) (r <| queue := qs |>) s).

(* @src devicemanagement/storage/inmem/inmem.go - Store.ClearCommand *)
Definition ClearCommand (s : Store) (id : EnrollmentID) (uuid : bytes) (wall : Time)
  : result serr (Z * Store) :=
  if bool_decide (uuid = []) then Err ErrInvalid
  else Clear s id (mkClearFilter uuid [] [] 0) wall.

(** ** Push, certificates, bootstrap tokens *)

(* @src devicemanagement/storage/inmem/inmem.go - Store.PushInfo *)
Definition PushInfo (s : Store) (ids : list EnrollmentID) : gmap EnrollmentID Push :=
  foldl (λ out id,
    match enrollments s !! ID id with
    | Some r =>
        if bool_decide (e_ID (Enr r) ≠ id) || negb (Enabled (Enr r)) || negb (Push_Valid (e_Push (Enr r)))
        then out else <[id := e_Push (Enr r)]> out
    | None => out
    end) ∅ ids.

(* @src devicemanagement/storage/inmem/inmem.go - Store.AssociateCert *)
Definition AssociateCert (s : Store) (id : EnrollmentID) (hash : bytes) (at_ : Time)
  : result serr (unit * Store) :=
  _ ← reject (bool_decide (hash = [])) ErrInvalid;
  let dev := Device id in
  r ← deviceRecordLocked s id;
  _ ← reject match certs s !! hash with
             | Some owner => bool_decide (ID owner ≠ ID dev) | None => false end ErrConflict;
  let s := dropCertLocked (ID dev) s in
  let s := s <| certs := <[hash := dev]> (certs s) |> in
  let s := put_record (ID dev)
             (r <| Enr := (Enr r) <| CertHash := hash |> <| CertHashAt := at_ |> |>) s in
  Ok (tt, recordAssociationLocked dev hash at_ s).

(** Oldest first, ties by hash and then by id. *)
(* @src devicemanagement/storage/inmem/inmem.go 666-674 Store.historyLocked *)
Definition assoc_leb (a b : CertAssociation) : bool :=
  if negb (a_At a =? a_At b) then a_At a <? a_At b
  else if bool_decide (a_Hash a ≠ a_Hash b) then bytes_ltb (a_Hash a) (a_Hash b)
  else bytes_leb (ID (a_ID a)) (ID (a_ID b)).

(* @src devicemanagement/storage/inmem/inmem.go - Store.historyLocked *)
Definition historyLocked (s : Store) (m : CertAssociation → bool) : list CertAssociation :=
  stable_sort assoc_leb (filter (λ a, m a = true) (history s)).

(* @src devicemanagement/storage/inmem/inmem.go - Store.CertHistory *)
Definition CertHistory (s : Store) (id : EnrollmentID) : result serr (list CertAssociation) :=
  let dev := Device id in
  _ ← deviceRecordLocked s id;
  Ok (historyLocked s (λ a, bool_decide (ID (a_ID a) = ID dev))).

(* @src devicemanagement/storage/inmem/inmem.go - Store.CertHashHistory *)
Definition CertHashHistory (s : Store) (hash : bytes) : result serr (list CertAssociation) :=
  if bool_decide (hash = []) then Err ErrInvalid
  else Ok (historyLocked s (λ a, bool_decide (a_Hash a = hash))).

(** Named [CertHashOf]: the record field has the method's name. *)
(* @src devicemanagement/storage/inmem/inmem.go - Store.CertHash *)
Definition CertHashOf (s : Store) (id : EnrollmentID) : result serr bytes :=
  r ← deviceRecordLocked s id; Ok (CertHash (Enr r)).

(* @src devicemanagement/storage/inmem/inmem.go - Store.EnrollmentByCertHash *)
Definition EnrollmentByCertHash (s : Store) (hash : bytes) : result serr EnrollmentID :=
  match certs s !! hash with None => Err ErrNotFound | Some id => Ok id end.

(* @src devicemanagement/storage/inmem/inmem.go - Store.StoreBootstrapToken *)
Definition StoreBootstrapToken (s : Store) (id : EnrollmentID) (token : bytes) (at_ : Time)
  : result serr (unit * Store) :=
  let dev := Device id in
  r ← deviceRecordLocked s id;
  _ ← reject (disabled (Enr r)) ErrDisabled;
  let s := s <| bootstrap := if bool_decide (token = []) then delete (ID dev) (bootstrap s)
                             else <[ID dev := token]> (bootstrap s) |> in
  Ok (tt, put_record (ID dev) (r <| Enr := (Enr r) <| BootstrapTokenAt := at_ |> |>) s).

(* @src devicemanagement/storage/inmem/inmem.go - Store.BootstrapToken *)
Definition BootstrapToken (s : Store) (id : EnrollmentID) : result serr bytes :=
  let dev := Device id in
  r ← deviceRecordLocked s id;
  _ ← reject (disabled (Enr r)) ErrDisabled;
  match bootstrap s !! ID dev with None => Err ErrNotFound | Some tok => Ok tok end.

(** ** Push certificates *)

(* @src devicemanagement/storage/inmem/parity.go - withoutKey *)
Definition withoutKey (c : PushCert) : PushCert := c <| KeyPEM := [] |>.

(* @src devicemanagement/storage/inmem/parity.go - Store.StorePushCert *)
Definition StorePushCert `{!PushCertParser} (s : Store) (topic certPEM keyPEM : bytes) (at_ : Time)
  : result serr (PushCert * Store) :=
  rec ← ValidatePushCert topic certPEM keyPEM at_;
  let v := match pushCerts s !! pc_Topic rec with Some prev => PCVersion prev + 1 | None => 1 end in
  let rec := rec <| PCVersion := v |> <| UpdatedAt := at_ |> in
  Ok (withoutKey rec, s <| pushCerts := <[pc_Topic rec := rec]> (pushCerts s) |>).

(** Named [PushCertFor]: the record type has the method's name. *)
(* @src devicemanagement/storage/inmem/parity.go - Store.PushCert *)
Definition PushCertFor (s : Store) (topic : bytes) : result serr PushCert :=
  match pushCerts s !! topic with None => Err ErrNotFound | Some c => Ok c end.

(* @src devicemanagement/storage/inmem/parity.go - Store.PushCerts *)
Definition PushCerts (s : Store) : list PushCert :=
  stable_sort (λ a b, bytes_leb (pc_Topic a) (pc_Topic b))
    (withoutKey <$> (map_to_list (pushCerts s)).*2).

(* @src devicemanagement/storage/inmem/parity.go - Store.PushCertVersion *)
Definition PushCertVersion (s : Store) (topic : bytes) : result serr Z :=
  match pushCerts s !! topic with None => Err ErrNotFound | Some c => Ok (PCVersion c) end.

(** ** UserAuthenticate state *)

(* @src devicemanagement/storage/inmem/parity.go - Store.userAuthTargetLocked *)
Definition userAuthTargetLocked (s : Store) (id : EnrollmentID) : result serr unit :=
  match Validate id with
  | Err _ => Err ErrInvalid
  | Ok _ =>
      _ ← reject (negb (IsUser (IDChannel id))) ErrInvalid;
      _ ← reject match enrollments s !! ID id with
                 | Some child => disabled (Enr child) | None => false end ErrDisabled;
      _ ← reject match userAuth s !! ID id with
                 | Some existing => bool_decide (ua_ID existing ≠ id) | None => false end ErrNotFound;
      parent ← deviceRecordLocked s id;
      reject (disabled (Enr parent)) ErrDisabled
  end.

(* @src devicemanagement/storage/inmem/parity.go - Store.StoreUserAuthChallenge *)
Definition StoreUserAuthChallenge (s : Store) (id : EnrollmentID) (challenge raw : bytes) (at_ : Time)
  : result serr (unit * Store) :=
  _ ← reject (bool_decide (challenge = [])) ErrInvalid;
  _ ← userAuthTargetLocked s id;
  let s := match enrollments s !! ID id with
           | None => put_record (ID id)
                       (mkRecord (noEnrollment <| e_ID := id |> <| EnrolledAt := at_ |>
                                    <| LastSeenAt := at_ |>) []) s
           | Some _ => s
           end in
  Ok (tt, s <| userAuth := <[ID id := mkUserAuth id challenge at_ [] 0 raw []]> (userAuth s) |>).

(* @src devicemanagement/storage/inmem/parity.go - Store.StoreUserAuthToken *)
Definition StoreUserAuthToken (s : Store) (id : EnrollmentID) (token raw : bytes) (at_ : Time)
  : result serr (unit * Store) :=
  _ ← reject (bool_decide (token = [])) ErrInvalid;
  _ ← userAuthTargetLocked s id;
  match userAuth s !! ID id with
  | None => Err ErrNotFound
  | Some st =>
      let st := st <| AuthToken := token |> <| TokenAt := at_ |> <| Challenge := [] |>
                   <| ChallengeAt := 0 |> <| DigestRaw := raw |> in
      Ok (tt, s <| userAuth := <[ID id := st]> (userAuth s) |>)
  end.

(* @src devicemanagement/storage/inmem/parity.go - Store.UserAuth *)
Definition UserAuth (s : Store) (id : EnrollmentID) : result serr UserAuthState :=
  _ ← userAuthTargetLocked s id;
  match userAuth s !! ID id with None => Err ErrNotFound | Some st => Ok st end.

(* @src devicemanagement/storage/inmem/parity.go - Store.ClearUserAuth *)
Definition ClearUserAuth (s : Store) (id : EnrollmentID) : result serr (unit * Store) :=
  _ ← userAuthTargetLocked s id;
  Ok (tt, s <| userAuth := delete (ID id) (userAuth s) |>).

(** ** Export and import *)

(* @src devicemanagement/storage/inmem/parity.go - exportCursor *)
Definition exportCursor (e : Enrollment) : bytes := ParentID (e_ID e) ++ 0 :: ID (e_ID e).

(* @src devicemanagement/storage/inmem/parity.go - Store.exportLocked *)
Definition exportLocked (s : Store) (r : record) : EnrollmentExport :=
  let e := Enr r in
  if negb (IsUser (IDChannel (e_ID e))) then
    mkExport e (default [] (bootstrap s !! ID (e_ID e)))
      (historyLocked s (λ a, bool_decide (ID (a_ID a) = ID (e_ID e))))
  else mkExport e [] [].

(* @src devicemanagement/storage/inmem/parity.go - Store.Export *)
Definition Export (s : Store) (p : Page) : result serr (PageResult EnrollmentExport) :=
  if bool_decide (Cursor p ≠ []) && negb (contains (Cursor p) [0]) then Err ErrInvalid
  else
    let recs := stable_sort (λ a b, bytes_leb (exportCursor (Enr a)) (exportCursor (Enr b)))
      (filter (λ r, Cursor p = [] ∨ bytes_ltb (Cursor p) (exportCursor (Enr r)) = true)
         (map_to_list (enrollments s)).*2) in
    let limit := if Limit p <=? 0 then DefaultPageSize else Limit p in
    let page := take (Z.to_nat limit) recs in
    Ok (mkPageResult (exportLocked s <$> page)
          (if limit <? Z.of_nat (length recs)
           then match last page with Some r => exportCursor (Enr r) | None => [] end
           else [])).

(* @src devicemanagement/storage/inmem/parity.go - Store.Import *)
Definition Import (s : Store) (rec : EnrollmentExport) : result serr (unit * Store) :=
  let e := x_Enrollment rec in
  let id := e_ID e in
  match Validate id with
  | Err _ => Err ErrInvalid
  | Ok _ =>
      _ ← reject (existsb (λ a, bool_decide (a_ID a ≠ id) || bool_decide (a_Hash a = []))
                    (x_CertHistory rec)) ErrInvalid;
      _ ← reject (IsUser (IDChannel id)
                  && (bool_decide (CertHash e ≠ []) || bool_decide (x_BootstrapToken rec ≠ [])
                      || bool_decide (x_CertHistory rec ≠ []))) ErrInvalid;
      _ ← (if IsUser (IDChannel id) then
             match get s (Device id) with Err _ => Err ErrInvalid | Ok _ => Ok tt end
           else Ok tt);
      _ ← reject (bool_decide (CertHash e ≠ []) &&
                  match certs s !! CertHash e with
                  | Some owner => bool_decide (ID owner ≠ ID id) | None => false end) ErrConflict;
      let o := enrollments s !! ID id in
      _ ← reject match o with Some r => bool_decide (e_ID (Enr r) ≠ id) | None => false end ErrConflict;
      let s := put_record (ID id) ((default noRecord o) <| Enr := e |>) s in
      if IsUser (IDChannel id) then Ok (tt, s)
      else
        let s := dropCertLocked (ID id) s in
        let s := if bool_decide (CertHash e ≠ [])
                 then s <| certs := <[CertHash e := id]> (certs s) |> else s in
        let s := s <| bootstrap := if bool_decide (x_BootstrapToken rec ≠ [])
                                   then <[ID id := x_BootstrapToken rec]> (bootstrap s)
                                   else delete (ID id) (bootstrap s) |> in
        Ok (tt, foldl (λ s a, recordAssociationLocked id (a_Hash a) (a_At a) s) s (x_CertHistory rec))
  end.

(** ** Identity replacement *)

(** The row a captured token belongs to, created when absent. *)
(* @src devicemanagement/storage/inmem/replacement.go 52-57 Store.TransitionReplacement *)
Definition apply_token (at_ : Time) (s : Store) (t : ReplacementToken) : Store :=
  let row := default (mkRecord (noEnrollment <| e_ID := rt_ID t |> <| EnrolledAt := at_ |>) [])
               (enrollments s !! ID (rt_ID t)) in
  put_record (ID (rt_ID t)) (row <| Enr := ApplyReplacementToken (Enr row) t at_ |>) s.

(* @src devicemanagement/storage/inmem/replacement.go 36-58 Store.TransitionReplacement *)
Definition commit_replacement (s : Store) (id : EnrollmentID) (e : record) (r : Replacement)
  (at_ : Time) : result serr Store :=
  _ ← reject (existsb (λ t, match enrollments s !! ID (rt_ID t) with
                            | Some row => bool_decide (e_ID (Enr row) ≠ rt_ID t)
                            | None => false end) (Tokens r)) ErrConflict;
  _ ← reject (existsb (λ h, bool_decide (a_Hash h = CandidateHash r) && bool_decide (a_ID h ≠ id))
                (history s)) ErrConflict;
  let s := dropCertLocked (ID id) s in
  let s := s <| certs := <[CandidateHash r := id]> (certs s) |> in
  let s := put_record (ID id)
             (e <| Enr := (Enr e) <| CertHash := CandidateHash r |> <| CertHashAt := at_ |>
                            <| AuthenticateRaw := r_AuthenticateRaw r |> |>) s in
  let s := s <| history := history s ++ [mkAssoc id (CandidateHash r) at_] |> in
  Ok (foldl (apply_token at_) s (Tokens r)).

(* @src devicemanagement/storage/inmem/replacement.go - Store.TransitionReplacement *)
Definition TransitionReplacement (s : Store) (cancelled : bool) (id : EnrollmentID)
  (change : ReplacementChange) : result serr (option Replacement * Store) :=
  _ ← reject cancelled ErrCanceled;
  _ ← reject (IsUser (IDChannel id)) ErrInvalid;
  e ← get s id;
  '(commit, r) ← AdvanceReplacement (CloneReplacement (replacements s !! ID id)) (Enr e) change;
  s ← match (commit : bool), r with
      | true, Some r => commit_replacement s id e r (At change)
      | _, _ => Ok s
      end;
  let stored := CloneReplacement r in
  Ok (stored, s <| replacements := match stored with
                                   | Some x => <[ID id := x]> (replacements s)
                                   | None => delete (ID id) (replacements s)
                                   end |>).
