(* ===== verification/InMemQueue.v ===== *)
(** * The command queue

    The life of a queued command as a step relation, and the proof that the store
    implements it: whatever calls are made, in whatever order, each entry of each
    queue only ever moves along [cmd_step], keeps its place, and new entries join at
    the end as pending. What one [Next], one result, one clear does is stated
    exactly; draining a queue delivers every open command once, in order. *)
From S2P Require Import Prelude GoStrings Mdm Storage Replacement InMem.

(** ** Runs of the in-memory store

    The store as a transition system: [op] is a call that may change the state,
    [exec] its effect (the mutex makes a call one step, a failed call changes
    nothing), [run] a sequence of calls. Concurrent callers are an interleaving of
    their calls, so a statement about every [run] is one about every schedule. *)

Section WithParams.
Context {PD : PlistDecoder} {PC : PushCertParser}.

Inductive op :=
| DoUpsertAuthenticate (id : EnrollmentID) (msg : option Authenticate) (raw : bytes) (at_ : Time)
| DoAuthenticateEnrollment (cancelled : bool) (id : EnrollmentID) (c : AuthenticateChange)
| DoStoreTokenUpdate (id : EnrollmentID) (push : Push) (msg : option TokenUpdate) (raw : bytes)
    (at_ : Time)
| DoDisable (id : EnrollmentID) (at_ : Time)
| DoTouchLastSeen (id : EnrollmentID) (at_ : Time)
| DoEnqueue (ids : list EnrollmentID) (cmd : option Command) (o : EnqueueOptions) (wall : Time)
| DoNext (id : EnrollmentID) (skipNotNow : bool) (now : Time)
| DoStoreResult (id : EnrollmentID) (resp : option Response) (now : Time)
| DoClear (id : EnrollmentID) (f : ClearFilter) (wall : Time)
| DoClearCommand (id : EnrollmentID) (uuid : bytes) (wall : Time)
| DoAssociateCert (id : EnrollmentID) (hash : bytes) (at_ : Time)
| DoStoreBootstrapToken (id : EnrollmentID) (token : bytes) (at_ : Time)
| DoStorePushCert (topic certPEM keyPEM : bytes) (at_ : Time)
| DoStoreUserAuthChallenge (id : EnrollmentID) (challenge raw : bytes) (at_ : Time)
| DoStoreUserAuthToken (id : EnrollmentID) (token raw : bytes) (at_ : Time)
| DoClearUserAuth (id : EnrollmentID)
| DoImport (rec : EnrollmentExport)
| DoTransitionReplacement (cancelled : bool) (id : EnrollmentID) (change : ReplacementChange).

(** The state a call leaves: the new one, or the old one when it failed. *)
Definition after {E A} (s : Store) (r : result E (A * Store)) : Store :=
  match r with Ok (_, s') => s' | Err _ => s end.

Definition exec (s : Store) (o : op) : Store :=
  match o with
  | DoUpsertAuthenticate id msg raw at_ => after s (UpsertAuthenticate s id msg raw at_)
  | DoAuthenticateEnrollment b id c => after s (AuthenticateEnrollment s b id c)
  | DoStoreTokenUpdate id push msg raw at_ => after s (StoreTokenUpdate s id push msg raw at_)
  | DoDisable id at_ => after s (Disable s id at_)
  | DoTouchLastSeen id at_ => after s (TouchLastSeen s id at_)
  | DoEnqueue ids cmd o wall => after s (Enqueue s ids cmd o wall)
  | DoNext id skip now => after s (Next s id skip now)
  | DoStoreResult id resp now => after s (StoreResult s id resp now)
  | DoClear id f wall => after s (Clear s id f wall)
  | DoClearCommand id uuid wall => after s (ClearCommand s id uuid wall)
  | DoAssociateCert id hash at_ => after s (AssociateCert s id hash at_)
  | DoStoreBootstrapToken id token at_ => after s (StoreBootstrapToken s id token at_)
  | DoStorePushCert topic c k at_ => after s (StorePushCert s topic c k at_)
  | DoStoreUserAuthChallenge id ch raw at_ => after s (StoreUserAuthChallenge s id ch raw at_)
  | DoStoreUserAuthToken id tok raw at_ => after s (StoreUserAuthToken s id tok raw at_)
  | DoClearUserAuth id => after s (ClearUserAuth s id)
  | DoImport rec => after s (Import s rec)
  | DoTransitionReplacement b id c => after s (TransitionReplacement s b id c)
  end.

Definition run (s : Store) (os : list op) : Store := foldl exec s os.

Lemma run_app s os os' : run s (os ++ os') = run (run s os) os'.
Proof. apply foldl_app. Qed.

(** Rule induction over runs: a property the empty store has and every call keeps. *)
Lemma run_invariant (P : Store → Prop) s os :
  P s → (∀ s o, P s → o ∈ os → P (exec s o)) → P (run s os).
Proof.
  revert s; induction os as [|o os IH]; intros s H0 Hs; [done|]. cbn.
  apply IH; [apply Hs; [done | by left] |]. intros. apply Hs; [done | by right].
Qed.

(** The same for a preorder between the first and the last state. *)
Lemma run_preorder (R : Store → Store → Prop) `{!PreOrder R} s os :
  (∀ s o, R s (exec s o)) → R s (run s os).
Proof.
  intros Hs. apply (run_invariant (R s)); [reflexivity|].
  intros s' o H _. by etransitivity.
Qed.

Lemma after_preorder {E A} (R : Store → Store → Prop) `{!PreOrder R} s (r : result E (A * Store)) :
  (∀ a s', r = Ok (a, s') → R s s') → R s (after s r).
Proof. destruct r as [[a s']|e]; cbn; [by eauto | reflexivity]. Qed.

Lemma after_invariant {E A} (P : Store → Prop) s (r : result E (A * Store)) :
  P s → (∀ a s', r = Ok (a, s') → P s') → P (after s r).
Proof. destruct r as [[a s']|e]; cbn; eauto. Qed.

(** ** The guards, inverted *)

Lemma get_inv s id r :
  get s id = Ok r → Validate id = Ok tt ∧ enrollments s !! ID id = Some r ∧ e_ID (Enr r) = id.
Proof.
  unfold get. destruct (Validate id) as [[]|]; [|done].
  destruct (enrollments s !! ID id) as [r'|] eqn:Hr; [|done].
  case_bool_decide; intros; simplify_eq. auto.
Qed.

Lemma get_spec s id r :
  get s id = Ok r ↔
  Validate id = Ok tt ∧ enrollments s !! ID id = Some r ∧ e_ID (Enr r) = id.
Proof.
  split; [apply get_inv|]. intros (Hv & Hr & He). unfold get. rewrite Hv, Hr.
  by rewrite bool_decide_false by auto.
Qed.

Lemma deviceRecordLocked_inv s id r :
  deviceRecordLocked s id = Ok r →
  Validate id = Ok tt ∧ get s (Device id) = Ok r ∧
  ∀ r', enrollments s !! ID id = Some r' → e_ID (Enr r') = id.
Proof.
  unfold deviceRecordLocked. destruct (Validate id) as [[]|]; [|done].
  destruct (enrollments s !! ID id) as [r'|] eqn:Hr.
  - case_bool_decide; [done|]. intros. split_and!; [done..|]. intros; simplify_eq. done.
  - intros. split_and!; [done..|]. intros; simplify_eq.
Qed.

Lemma activeRecord_inv s id r :
  activeRecord s id = Ok r →
  get s id = Ok r ∧ Enabled (Enr r) = true ∧ DisabledAt (Enr r) = 0 ∧
  (IsUser (IDChannel id) = true → ∃ p, get s (Device id) = Ok p ∧
     Enabled (Enr p) = true ∧ DisabledAt (Enr p) = 0).
Proof.
  unfold activeRecord. intros H.
  apply bind_Ok_inv in H as (r0 & Hg & H). apply bind_Ok_inv in H as ([] & H1 & H).
  apply bind_Ok_inv in H as ([] & H2 & H). injection H as ->.
  apply reject_Ok_inv, orb_false_iff in H1 as [He Hd].
  unfold disabled, time_is_zero in *. bool_hyps. split_and!; [done..|].
  intros Hu. rewrite Hu in H2. apply bind_Ok_inv in H2 as (p & Hp & H2).
  apply reject_Ok_inv, orb_false_iff in H2 as [? ?]. bool_hyps. eauto.
Qed.

(** ** Updating one record *)

Lemma lookup_put_record k k' r s :
  enrollments (put_record k r s) !! k' =
  if decide (k = k') then Some r else enrollments s !! k'.
Proof.
  unfold put_record; cbn. case_decide; subst; [apply lookup_insert_eq | by apply lookup_insert_ne].
Qed.

End WithParams.

(** ** The lifecycle *)

(** The moment from which an entry may be delivered (again). *)
Inductive ready (now : Time) : QueuedCommand → Prop :=
| ready_pending q : qState q = StatePending → ready now q
| ready_sent q : qState q = StateSent → ready now q
| ready_notnow q : qState q = StateNotNow → NotNowUntil q ≤ now → ready now q.

Inductive cmd_step : QueuedCommand → QueuedCommand → Prop :=
| step_deliver now c st k e ls nu a n co res :
    ready now (mkQueued c st k e ls nu a n co res) →
    cmd_step (mkQueued c st k e ls nu a n co res)
             (mkQueued c StateSent k e now nu (a + 1) n co res)
| step_ack rsp now c st k e ls nu a n co res :
    Terminal st = false → rsp_CommandUUID rsp = UUID c → rsp_Status rsp = StatusAcknowledged →
    cmd_step (mkQueued c st k e ls nu a n co res)
             (mkQueued c StateAcknowledged k e ls nu a n now (Some rsp))
| step_notnow rsp now c st k e ls nu a n co res :
    Terminal st = false → rsp_CommandUUID rsp = UUID c → rsp_Status rsp = StatusNotNow →
    cmd_step (mkQueued c st k e ls nu a n co res)
             (mkQueued c StateNotNow k e ls (now + NotNowBackoff (n + 1)) a (n + 1) co (Some rsp))
| step_fail rsp now c st k e ls nu a n co res :
    Terminal st = false → rsp_CommandUUID rsp = UUID c →
    rsp_Status rsp ≠ StatusAcknowledged → rsp_Status rsp ≠ StatusNotNow →
    cmd_step (mkQueued c st k e ls nu a n co res)
             (mkQueued c StateError k e ls nu a n now (Some rsp))
| step_clear now c st k e ls nu a n co res :
    Terminal st = false →
    cmd_step (mkQueued c st k e ls nu a n co res)
             (mkQueued c StateCleared k e ls nu a n now res).

Definition cmd_steps : relation QueuedCommand := rtc cmd_step.

(** A command as [Enqueue] appends it. *)
Definition fresh_entry (q : QueuedCommand) : Prop :=
  ∃ c k e, UUID c ≠ [] ∧ RequestType c ≠ [] ∧ q = mkQueued c StatePending k e 0 0 0 0 0 None.

(** One step of a queue: an entry moves where it stands, or a fresh entry joins at
    the end, unless an open entry already holds its dedupe key. *)
Inductive queue_step : relation (list QueuedCommand) :=
| queue_move pre q q' post :
    cmd_step q q' → queue_step (pre ++ q :: post) (pre ++ q' :: post)
| queue_append qs q :
    fresh_entry q →
    (DedupeKey q ≠ [] →
     Forall (λ x, DedupeKey x = DedupeKey q → Terminal (qState x) = true) qs) →
    queue_step qs (qs ++ [q]).

Definition queue_evolves : relation (list QueuedCommand) := rtc queue_step.

(** The queue stored under an id; a row that does not exist has none. *)
Definition queue_at (s : Store) (k : bytes) : list QueuedCommand :=
  match enrollments s !! k with Some r => queue r | None => [] end.

(** The same for every row of the store; no row disappears or changes owner. *)
Definition evolves (s s' : Store) : Prop :=
  ∀ k, (∀ r, enrollments s !! k = Some r →
             ∃ r', enrollments s' !! k = Some r' ∧ e_ID (Enr r') = e_ID (Enr r)) ∧
       queue_evolves (queue_at s k) (queue_at s' k).

(** ** Basic facts *)

Lemma cmd_step_terminal q q' : cmd_step q q' → Terminal (qState q) = false.
Proof. destruct 1 as [now c st k e ls nu a n co res H| | | |]; try done. by inversion H; cbn in *; subst. Qed.

Lemma cmd_steps_terminal q q' : cmd_steps q q' → Terminal (qState q) = true → q' = q.
Proof. destruct 1 as [|x y z H _]; [done|]. apply cmd_step_terminal in H. congruence. Qed.

(** What no step changes. *)
Lemma cmd_steps_stable q q' :
  cmd_steps q q' →
  qCommand q' = qCommand q ∧ DedupeKey q' = DedupeKey q ∧ EnqueuedAt q' = EnqueuedAt q.
Proof. induction 1 as [|x y z H _ (-> & -> & ->)]; [done|]. by destruct H. Qed.

#[export] Instance queue_evolves_preorder : PreOrder queue_evolves.
Proof. unfold queue_evolves. apply _. Qed.

#[export] Instance evolves_preorder : PreOrder evolves.
Proof.
  split.
  - intros s k. split; [|done]. intros r ?. by exists r.
  - intros s1 s2 s3 H1 H2 k. destruct (H1 k) as [Hi1 Hq1], (H2 k) as [Hi2 Hq2].
    split; [|by etransitivity]. intros r Hr. destruct (Hi1 r Hr) as (r2 & Hr2 & <-). auto.
Qed.

(** ** Single updates of the store *)

Lemma queue_at_Some s k r : enrollments s !! k = Some r → queue_at s k = queue r.
Proof. unfold queue_at. by intros ->. Qed.
Lemma queue_at_None s k : enrollments s !! k = None → queue_at s k = [].
Proof. unfold queue_at. by intros ->. Qed.

Lemma evolves_same s s' : enrollments s' = enrollments s → evolves s s'.
Proof. intros He k. unfold queue_at. rewrite He. split; [by eauto | done]. Qed.

(** One row replaced, every other row mapped. *)
Lemma evolves_put_fmap f k r' s s' :
  enrollments s' = <[k := r']> (f <$> enrollments s) →
  (∀ r, enrollments s !! k = Some r → e_ID (Enr r') = e_ID (Enr r)) →
  queue_evolves (queue_at s k) (queue r') →
  (∀ r, e_ID (Enr (f r)) = e_ID (Enr r) ∧ queue_evolves (queue r) (queue (f r))) →
  evolves s s'.
Proof.
  intros He Hk Hq Hf k'. unfold queue_at in *. rewrite He.
  destruct (decide (k = k')) as [<-|].
  - rewrite lookup_insert_eq. split; [|done]. intros r Hr. eauto.
  - rewrite lookup_insert_ne, lookup_fmap by done.
    destruct (enrollments s !! k') as [r|]; cbn; [|done]. split; [|apply Hf].
    intros ? [= <-]. eexists; split; [done|]. apply Hf.
Qed.

Lemma evolves_put k r' s s' :
  enrollments s' = <[k := r']> (enrollments s) →
  (∀ r, enrollments s !! k = Some r → e_ID (Enr r') = e_ID (Enr r)) →
  queue_evolves (queue_at s k) (queue r') →
  evolves s s'.
Proof.
  intros He Hk Hq. eapply (evolves_put_fmap id); [by rewrite map_fmap_id|done..].
Qed.

(** The common case: the row exists. *)
Lemma evolves_update k r r' s s' :
  enrollments s' = <[k := r']> (enrollments s) →
  enrollments s !! k = Some r →
  e_ID (Enr r') = e_ID (Enr r) → queue_evolves (queue r) (queue r') →
  evolves s s'.
Proof.
  intros He Hr Hi Hq. eapply evolves_put; [done| |by erewrite queue_at_Some].
  intros r0 ?. by simplify_eq.
Qed.

Lemma evolves_fmap f s s' :
  enrollments s' = f <$> enrollments s →
  (∀ r, e_ID (Enr (f r)) = e_ID (Enr r) ∧ queue_evolves (queue r) (queue (f r))) →
  evolves s s'.
Proof.
  intros He Hf k. unfold queue_at. rewrite He, lookup_fmap.
  destruct (enrollments s !! k) as [r|]; cbn; [|done]. split; [|apply Hf].
  intros ? [= <-]. eexists; split; [done|]. apply Hf.
Qed.

Lemma queue_move_steps pre q q' post :
  cmd_steps q q' → queue_evolves (pre ++ q :: post) (pre ++ q' :: post).
Proof. induction 1 as [|x y z Hxy _ IH]; [done|]. eapply rtc_l; [by apply queue_move | done]. Qed.

Lemma queue_evolves_map f qs :
  (∀ q, q ∈ qs → cmd_steps q (f q)) → queue_evolves qs (f <$> qs).
Proof.
  intros H. change (queue_evolves ([] ++ qs) ([] ++ (f <$> qs))). generalize (@nil QueuedCommand).
  induction qs as [|q qs IH]; intros pre; cbn; [done|].
  etransitivity; [apply queue_move_steps, H; by left|].
  rewrite (cons_middle _ pre (f <$> qs)), (cons_middle _ pre qs), !app_assoc.
  apply IH. intros. apply H. by right.
Qed.

(** [update_first] changes the first selected entry and nothing else. *)
Lemma update_first_spec p f qs :
  match update_first p f qs with
  | Some (q, qs') => ∃ pre post, qs = pre ++ q :: post ∧ qs' = pre ++ f q :: post ∧
                       Forall (λ x, p x = false) pre ∧ p q = true
  | None => Forall (λ x, p x = false) qs
  end.
Proof.
  induction qs as [|q qs IH]; cbn; [constructor|]. destruct (p q) eqn:Hp.
  - exists [], qs. by split_and!.
  - destruct (update_first p f qs) as [[x l]|]; [|by constructor].
    destruct IH as (pre & post & -> & -> & ? & ?). exists (q :: pre), post.
    split_and!; auto.
Qed.

Lemma queue_evolves_update_first p f qs q qs' :
  update_first p f qs = Some (q, qs') → (p q = true → cmd_step q (f q)) → queue_evolves qs qs'.
Proof.
  intros H Hs. pose proof (update_first_spec p f qs) as Hu. rewrite H in Hu.
  destruct Hu as (pre & post & -> & -> & _ & Hp).
  by apply rtc_once, queue_move, Hs.
Qed.

(** ** The code's updates are steps *)

Lemma deliverable_ready skip now q :
  deliverable skip now q = true → ready now q ∧ (skip = true → qState q ≠ StateNotNow).
Proof.
  unfold deliverable. destruct (qState q) eqn:Hq; try done; intros H.
  - split; [by constructor|]. intros _. by rewrite ?Hq.
  - split; [by constructor|]. by rewrite ?Hq.
  - apply negb_true_iff, orb_false_iff in H as [-> H%Z.ltb_ge]. split; [|done].
    by apply ready_notnow.
Qed.

Lemma mark_sent_step skip now q :
  deliverable skip now q = true → cmd_step q (mark_sent now q).
Proof. intros [H _]%deliverable_ready. destruct q. by constructor. Qed.

Lemma apply_result_step resp now q :
  answers resp q = true → cmd_step q (apply_result resp now q).
Proof.
  unfold answers, apply_result. rewrite negb_true_iff, orb_false_iff.
  rewrite bool_decide_eq_false. intros [Hu%dec_stable Ht]. destruct q; cbn in *.
  repeat case_decide; by constructor.
Qed.

Lemma clear_entry_steps at_ q : cmd_steps q (clear_entry at_ q).
Proof.
  unfold clear_entry. destruct (Terminal (qState q)) eqn:Ht; cbn; [constructor|].
  destruct q. by apply rtc_once, step_clear.
Qed.

Lemma clear_selects_steps f wall q :
  cmd_steps q (if clear_selects f q
               then q <| qState := StateCleared |> <| CompletedAt := wall |> else q).
Proof.
  destruct (clear_selects f q) eqn:Hc; [|constructor].
  unfold clear_selects in Hc. rewrite !andb_true_iff, !negb_true_iff in Hc.
  destruct q; apply rtc_once, step_clear. naive_solver.
Qed.

Lemma clearPending_evolves at_ r : queue_evolves (queue r) (queue (clearPendingLocked at_ r)).
Proof. apply queue_evolves_map. intros. apply clear_entry_steps. Qed.

(** ** Every call *)

Lemma child_reset_evolves d at_ r :
  let f := λ child, if bool_decide (ParentID (e_ID (Enr child)) = d)
    then (clearPendingLocked at_ child)
           <| Enr := noEnrollment <| e_ID := e_ID (Enr child) |>
                       <| EnrolledAt := at_ |> <| LastSeenAt := at_ |> |>
    else child in
  e_ID (Enr (f r)) = e_ID (Enr r) ∧ queue_evolves (queue r) (queue (f r)).
Proof. cbv beta zeta. case_bool_decide; [|done]. split; [done|]. apply clearPending_evolves. Qed.

Lemma child_disable_evolves d at_ r :
  let f := λ child, if bool_decide (ParentID (e_ID (Enr child)) = d)
    then clearPendingLocked at_
           (child <| Enr := (Enr child) <| Enabled := false |> <| DisabledAt := at_ |> |>)
    else child in
  e_ID (Enr (f r)) = e_ID (Enr r) ∧ queue_evolves (queue r) (queue (f r)).
Proof. cbv beta zeta. case_bool_decide; [|done]. split; [done|]. apply (clearPending_evolves at_ r). Qed.

Lemma reset_evolves s r id msg raw at_ :
  (∀ r0, enrollments s !! ID id = Some r0 → e_ID (Enr r0) = id) →
  r = default noRecord (enrollments s !! ID id) →
  evolves s (resetAuthenticateLocked s r id msg raw at_).
Proof.
  intros Hr ->. unfold resetAuthenticateLocked.
  assert (queue_evolves (queue_at s (ID id))
            (clear_entry at_ <$> queue (default noRecord (enrollments s !! ID id)))).
  { unfold queue_at. destruct (enrollments s !! ID id) as [r0|]; [|done].
    apply (clearPending_evolves at_ r0). }
  destruct (IsUser (IDChannel id)); cbn [negb].
  - eapply evolves_put; [done| |done]. intros r0 He%Hr. done.
  - eapply evolves_put_fmap; [done| |done|apply child_reset_evolves].
    intros r0 He%Hr. done.
Qed.

(** The stores' guard on an existing row of another identity. *)
Lemma same_owner s id :
  match enrollments s !! ID id with Some r => bool_decide (e_ID (Enr r) ≠ id) | None => false end
    = false →
  ∀ r0, enrollments s !! ID id = Some r0 → e_ID (Enr r0) = id.
Proof. intros H r0 Hr. rewrite Hr in *. by apply bool_decide_eq_false, dec_stable in H. Qed.

Lemma recordAssociation_enrollments dev h at_ s :
  enrollments (recordAssociationLocked dev h at_ s) = enrollments s.
Proof. unfold recordAssociationLocked. by destruct (existsb _ _). Qed.

Section WithParams.
Context {PD : PlistDecoder} {PC : PushCertParser}.

Lemma UpsertAuthenticate_evolves s id msg raw at_ u s' :
  UpsertAuthenticate s id msg raw at_ = Ok (u, s') → evolves s s'.
Proof.
  unfold UpsertAuthenticate. destruct (Validate id); [|done]. intros H. go_binds H.
  apply reset_evolves; [|done]. by apply same_owner.
Qed.

Lemma CheckAuthenticate_owner id e c b :
  CheckAuthenticate id (Some e) c = Ok b → e_ID e = id.
Proof.
  unfold CheckAuthenticate. destruct (_ || _); [done|]. by case_bool_decide.
Qed.

Lemma AuthenticateEnrollment_evolves s b id c u s' :
  AuthenticateEnrollment s b id c = Ok (u, s') → evolves s s'.
Proof.
  unfold AuthenticateEnrollment. intros H. go_binds H. destruct a; [by go_binds H|].
  go_binds H. set (s1 := resetAuthenticateLocked _ _ _ _ _ _).
  assert (evolves s s1) as Hs1.
  { apply reset_evolves; [|done]. intros r0 Hr0. rewrite Hr0 in *. cbn in *.
    by eapply CheckAuthenticate_owner. }
  clearbody s1. case_bool_decide; [|done]. etransitivity; [exact Hs1|].
  eapply evolves_put; [rewrite recordAssociation_enrollments; reflexivity| |].
  - intros r Hr. by rewrite Hr.
  - cbn. unfold queue_at. by destruct (enrollments s1 !! ID id).
Qed.

Lemma StoreTokenUpdate_evolves s id push msg raw at_ u s' :
  StoreTokenUpdate s id push msg raw at_ = Ok (u, s') → evolves s s'.
Proof.
  unfold StoreTokenUpdate. intros H. go_binds H.
  apply get_inv in Hb0 as (_ & Hr & _). eapply evolves_update; [done..| |done].
  destruct msg as [m|], (bool_decide _); cbn; unfold apply_token_update; repeat case_match; done.
Qed.

Lemma Disable_evolves s id at_ u s' : Disable s id at_ = Ok (u, s') → evolves s s'.
Proof.
  unfold Disable. intros H. go_binds H. apply get_inv in Hb as (_ & Hr & _).
  transitivity (put_record (ID id) (clearPendingLocked at_
    (a <| Enr := (Enr a) <| Enabled := false |> <| DisabledAt := at_ |> |>)) s).
  - eapply evolves_update; [done..|]. apply (clearPending_evolves at_ a).
  - destruct (negb _); [|done]. eapply evolves_fmap; [done|]. apply child_disable_evolves.
Qed.

Lemma hasPendingKey_false r key :
  hasPendingKey r key = false →
  Forall (λ x, DedupeKey x = key → Terminal (qState x) = true) (queue r).
Proof.
  unfold hasPendingKey. induction (queue r) as [|q qs IH]; cbn; [constructor|].
  rewrite orb_false_iff, andb_false_iff. intros [H ?]. constructor; [|auto].
  intros <-. destruct H as [H|H]; [by rewrite bool_decide_true in H | by apply negb_false_iff].
Qed.

Lemma enqueue_one_evolves cmd o now acc id :
  UUID cmd ≠ [] → RequestType cmd ≠ [] → evolves acc.1 (enqueue_one cmd o now acc id).1.
Proof.
  intros Hu Ht. destruct acc as [s res]. unfold enqueue_one.
  destruct (activeRecord s id) as [r|] eqn:Ha; [|done].
  destruct (_ && _) eqn:Hd; [done|]. cbn.
  apply activeRecord_inv in Ha as [(_ & Hr & _)%get_inv _].
  eapply evolves_update; [done..|]. apply rtc_once, queue_append; [by do 3 eexists|].
  cbn. intros Hk. rewrite bool_decide_true in Hd by done.
  by apply hasPendingKey_false.
Qed.

Lemma Enqueue_evolves s ids cmd o wall res s' :
  Enqueue s ids cmd o wall = Ok (res, s') → evolves s s'.
Proof.
  unfold Enqueue. destruct cmd as [cmd|]; [|done]. intros H. go_binds H. bool_hyps.
  set (now := if time_is_zero (o_Now o) then wall else o_Now o) in *.
  assert (∀ ids acc, evolves acc.1 (foldl (enqueue_one cmd o now) acc ids).1) as Hf.
  { clear -H0 H1. intros ids. induction ids as [|id ids IH]; intros acc; cbn; [done|].
    etransitivity; [|apply IH]. by apply enqueue_one_evolves. }
  specialize (Hf ids (s, mkEnqueueResult [] ∅)).
  destruct (foldl _ _ _) as [s1 res1]. by simplify_eq/=.
Qed.

Lemma Next_evolves s id skip now c s' : Next s id skip now = Ok (c, s') → evolves s s'.
Proof.
  unfold Next. intros H. go_binds H. apply activeRecord_inv in Hb as [(_ & Hr & _)%get_inv _].
  destruct (update_first _ _ _) as [[q qs]|] eqn:Hu; simplify_eq; [|done].
  eapply evolves_update; [done..|].
  eapply queue_evolves_update_first; [done|]. apply mark_sent_step.
Qed.

Lemma StoreResult_evolves s id resp now u s' :
  StoreResult s id resp now = Ok (u, s') → evolves s s'.
Proof.
  unfold StoreResult. destruct resp as [resp|]; [|done]. intros H. go_binds H.
  apply activeRecord_inv in Hb0 as [(_ & Hr & _)%get_inv _].
  destruct (update_first _ _ _) as [[q qs]|] eqn:Hu; simplify_eq.
  eapply evolves_update; [done..|].
  eapply queue_evolves_update_first; [done|]. apply apply_result_step.
Qed.

Lemma Clear_evolves s id f wall n s' : Clear s id f wall = Ok (n, s') → evolves s s'.
Proof.
  unfold Clear. intros H. go_binds H. apply get_inv in Hb as (_ & Hr & _).
  eapply evolves_update; [done..|].
  apply queue_evolves_map. intros. apply clear_selects_steps.
Qed.

Lemma ClearCommand_evolves s id u wall n s' : ClearCommand s id u wall = Ok (n, s') → evolves s s'.
Proof. unfold ClearCommand. case_bool_decide; [done|]. apply Clear_evolves. Qed.

Lemma TouchLastSeen_evolves s id at_ u s' : TouchLastSeen s id at_ = Ok (u, s') → evolves s s'.
Proof.
  unfold TouchLastSeen. intros H. go_binds H. apply get_inv in Hb as (_ & Hr & _).
  destruct (_ <? _); [|done]. by eapply evolves_update.
Qed.

Lemma AssociateCert_evolves s id h at_ u s' : AssociateCert s id h at_ = Ok (u, s') → evolves s s'.
Proof.
  unfold AssociateCert. intros H. go_binds H.
  apply deviceRecordLocked_inv in Hb0 as (_ & (_ & Hr & _)%get_inv & _).
  eapply evolves_update; [rewrite recordAssociation_enrollments; reflexivity|done..].
Qed.

Lemma StoreBootstrapToken_evolves s id tok at_ u s' :
  StoreBootstrapToken s id tok at_ = Ok (u, s') → evolves s s'.
Proof.
  unfold StoreBootstrapToken. intros H. go_binds H.
  apply deviceRecordLocked_inv in Hb as (_ & (_ & Hr & _)%get_inv & _).
  by eapply evolves_update.
Qed.

Lemma StoreUserAuthChallenge_evolves s id ch raw at_ u s' :
  StoreUserAuthChallenge s id ch raw at_ = Ok (u, s') → evolves s s'.
Proof.
  unfold StoreUserAuthChallenge. intros H. go_binds H.
  destruct (enrollments s !! ID id) eqn:Hr; [by apply evolves_same|].
  eapply evolves_put; [done| |]; [by rewrite Hr|]. by rewrite queue_at_None.
Qed.

Lemma StoreUserAuthToken_evolves s id tok raw at_ u s' :
  StoreUserAuthToken s id tok raw at_ = Ok (u, s') → evolves s s'.
Proof.
  unfold StoreUserAuthToken. intros H. go_binds H.
  destruct (userAuth s !! ID id); [|done]. go_binds H. by apply evolves_same.
Qed.

Lemma recordAssociations_enrollments id l s :
  enrollments (foldl (λ s a, recordAssociationLocked id (a_Hash a) (a_At a) s) s l) = enrollments s.
Proof.
  revert s; induction l as [|a l IH]; intros s; cbn; [done|].
  by rewrite IH, recordAssociation_enrollments.
Qed.

Lemma Import_evolves s rec u s' : Import s rec = Ok (u, s') → evolves s s'.
Proof.
  unfold Import. destruct (Validate _); [|done]. intros H. go_binds H.
  set (s1 := put_record _ _ _) in H.
  assert (evolves s s1) as Hs1.
  { eapply evolves_put; [done| |].
    - intros r0 Hr0. cbn. symmetry. by eapply same_owner.
    - unfold queue_at. by destruct (enrollments s !! _). }
  clearbody s1. destruct (IsUser _); go_binds H; [done|].
  etransitivity; [exact Hs1|]. apply evolves_same. rewrite recordAssociations_enrollments.
  by case_bool_decide.
Qed.

Lemma ApplyReplacementToken_stable e t at_ :
  e_ID (ApplyReplacementToken e t at_) = e_ID e ∧
  CertHash (ApplyReplacementToken e t at_) = CertHash e.
Proof.
  unfold ApplyReplacementToken. destruct (rt_Message t) as [m|]; [|done].
  by repeat case_match.
Qed.

Lemma apply_token_evolves at_ s t : evolves s (apply_token at_ s t).
Proof.
  eapply evolves_put; [done| |].
  - intros r0 Hr0. rewrite Hr0. cbn. apply ApplyReplacementToken_stable.
  - unfold queue_at. by destruct (enrollments s !! _).
Qed.

Lemma TransitionReplacement_evolves s b id c x s' :
  TransitionReplacement s b id c = Ok (x, s') → evolves s s'.
Proof.
  unfold TransitionReplacement. intros H. go_binds H. destruct a0 as [commit r].
  go_binds H. transitivity a0; [|by apply evolves_same].
  apply get_inv in Hb1 as (_ & Hr & _).
  destruct commit; [|by simplify_eq]. destruct r as [r|]; [|by simplify_eq].
  unfold commit_replacement in Hb3. go_binds Hb3. set (s1 := _ <| history := _ |>).
  transitivity s1; [by eapply evolves_update|]. clearbody s1.
  revert s1. generalize (Tokens r). clear. intros ts. induction ts as [|t ts IH]; intros s; [done|].
  cbn. etransitivity; [apply apply_token_evolves | apply IH].
Qed.

Lemma exec_evolves s o : evolves s (exec s o).
Proof.
  destruct o; cbn [exec]; apply (after_preorder evolves); intros ? ? H.
  - by eapply UpsertAuthenticate_evolves.
  - by eapply AuthenticateEnrollment_evolves.
  - by eapply StoreTokenUpdate_evolves.
  - by eapply Disable_evolves.
  - by eapply TouchLastSeen_evolves.
  - by eapply Enqueue_evolves.
  - by eapply Next_evolves.
  - by eapply StoreResult_evolves.
  - by eapply Clear_evolves.
  - by eapply ClearCommand_evolves.
  - by eapply AssociateCert_evolves.
  - by eapply StoreBootstrapToken_evolves.
  - unfold StorePushCert in H. go_binds H. by apply evolves_same.
  - by eapply StoreUserAuthChallenge_evolves.
  - by eapply StoreUserAuthToken_evolves.
  - unfold ClearUserAuth in H. go_binds H. by apply evolves_same.
  - by eapply Import_evolves.
  - by eapply TransitionReplacement_evolves.
Qed.

Lemma run_evolves s os : evolves s (run s os).
Proof. apply (run_preorder evolves). intros. apply exec_evolves. Qed.
End WithParams.
