(* ===== verification/InMemDelivery.v ===== *)
(** * What the command queue guarantees

    Consequences of the refinement of [InMemQueue] for every run of the store (no
    command is lost, reordered or reopened, dedupe keys are unique among open
    commands, results belong to their command), and the exact behaviour of one
    delivery, one result, a disablement, and a device that drains its queue. *)
From S2P Require Import Prelude GoStrings Mdm Storage Replacement InMem InMemQueue.

(** ** Rule induction on queue steps *)

Lemma queue_evolves_lookup qs qs' i q :
  queue_evolves qs qs' → qs !! i = Some q → ∃ q', qs' !! i = Some q' ∧ cmd_steps q q'.
Proof.
  intros H. revert q. induction H as [|x y z Hs _ IH]; intros q Hq; [by exists q; split; [|constructor]|].
  assert (∃ q', y !! i = Some q' ∧ cmd_steps q q') as (q' & Hq' & Hqq').
  { destruct Hs as [pre p p' post Hp | l p _ _].
    - destruct (decide (i = length pre)) as [->|Hi].
      + rewrite list_lookup_middle in Hq by done. simplify_eq.
        exists p'. rewrite list_lookup_middle by done. split; [done|]. by apply rtc_once.
      + exists q. split; [|constructor]. revert Hq. rewrite !lookup_app.
        destruct (pre !! i) eqn:Hpre; [done|]. apply lookup_ge_None in Hpre.
        destruct (i - length pre)%nat eqn:Hn; [lia|]. done.
    - exists q. split; [|constructor]. by apply lookup_app_l_Some. }
  destruct (IH _ Hq') as (q'' & ? & ?). exists q''. split; [done|]. by etransitivity.
Qed.

Lemma queue_evolves_Forall (P : QueuedCommand → Prop) qs qs' :
  (∀ q, fresh_entry q → P q) → (∀ q q', cmd_step q q' → P q → P q') →
  queue_evolves qs qs' → Forall P qs → Forall P qs'.
Proof.
  intros Hf Hs. induction 1 as [|x y z Hxy _ IH]; [done|]. intros HP. apply IH.
  destruct Hxy as [pre q q' post Hq | l q Hq _].
  - apply Forall_app in HP as [? [? ?]%Forall_cons]. apply Forall_app; split; [done|].
    constructor; eauto.
  - apply Forall_app; split; [done|]. constructor; eauto.
Qed.

(** ** Every run *)

(** What holds of every entry a run from the empty store can produce. *)
Record entry_ok (q : QueuedCommand) : Prop := {
  eo_uuid : UUID (qCommand q) ≠ [] ∧ RequestType (qCommand q) ≠ [];
  eo_counts : 0 ≤ NotNowCount q ∧ 0 ≤ Attempts q;
  eo_pending : qState q = StatePending → Attempts q = 0 ∧ NotNowCount q = 0 ∧ qResult q = None;
  eo_sent : qState q = StateSent → 1 ≤ Attempts q;
  eo_ack : qState q = StateAcknowledged → ∃ r, qResult q = Some r ∧
    rsp_CommandUUID r = UUID (qCommand q) ∧ rsp_Status r = StatusAcknowledged;
  eo_notnow : qState q = StateNotNow → 1 ≤ NotNowCount q ∧ ∃ r t, qResult q = Some r ∧
    rsp_CommandUUID r = UUID (qCommand q) ∧ rsp_Status r = StatusNotNow ∧
    NotNowUntil q = t + NotNowBackoff (NotNowCount q);
  eo_error : qState q = StateError → ∃ r, qResult q = Some r ∧
    rsp_CommandUUID r = UUID (qCommand q) ∧
    rsp_Status r ≠ StatusAcknowledged ∧ rsp_Status r ≠ StatusNotNow
}.

Lemma fresh_entry_ok q : fresh_entry q → entry_ok q.
Proof. intros (c & k & e & ? & ? & ->). by split. Qed.

Lemma cmd_step_ok q q' : cmd_step q q' → entry_ok q → entry_ok q'.
Proof.
  intros Hs []. destruct Hs; cbn in *; split; cbn; try done; try lia; intros _; eauto.
  split; [lia|]. do 2 eexists. by split_and!.
Qed.

(** No two open entries hold one dedupe key. *)
Definition dedupe_ok (qs : list QueuedCommand) : Prop :=
  ∀ i j x y, qs !! i = Some x → qs !! j = Some y →
    Terminal (qState x) = false → Terminal (qState y) = false →
    DedupeKey x ≠ [] → DedupeKey x = DedupeKey y → i = j.

(** An entry of the queue after a move stood there before, open if it is open now. *)
Lemma queue_move_lookup pre q q' post i x :
  cmd_step q q' → (pre ++ q' :: post) !! i = Some x →
  ∃ x0, (pre ++ q :: post) !! i = Some x0 ∧ DedupeKey x0 = DedupeKey x ∧
        (Terminal (qState x) = false → Terminal (qState x0) = false).
Proof.
  intros Hs. pose proof (cmd_step_terminal _ _ Hs) as Ht.
  destruct (cmd_steps_stable q q') as (_ & Hk & _); [by apply rtc_once|].
  rewrite !lookup_app. destruct (pre !! i); [by eauto|].
  destruct (i - length pre)%nat; cbn; [|by eauto].
  intros [= <-]. exists q. by rewrite Hk.
Qed.

Lemma queue_evolves_dedupe qs qs' : queue_evolves qs qs' → dedupe_ok qs → dedupe_ok qs'.
Proof.
  induction 1 as [|l1 l2 l3 Hs _ IH]; [done|]. intros Hd. apply IH. clear IH.
  destruct Hs as [pre q q' post Hs | l q _ Hf]; intros i j x y Hx Hy Hox Hoy Hk Hxy.
  - destruct (queue_move_lookup _ _ _ _ _ _ Hs Hx) as (x0 & Hx0 & Hkx & Hix).
    destruct (queue_move_lookup _ _ _ _ _ _ Hs Hy) as (y0 & Hy0 & Hky & Hiy).
    eapply (Hd i j x0 y0); auto; congruence.
  - assert (∀ i z, l !! i = Some z → DedupeKey z = DedupeKey q → DedupeKey q ≠ [] →
                   Terminal (qState z) = true) as Hc.
    { intros i' z Hz Hzq Hq. by eapply (Forall_lookup_1 _ _ _ _ (Hf Hq) Hz). }
    apply lookup_app_Some in Hx as [Hx|[Hi Hx]]; apply lookup_app_Some in Hy as [Hy|[Hj Hy]].
    + by eapply Hd.
    + apply list_lookup_singleton_Some in Hy as [? ->].
      rewrite (Hc _ _ Hx) in Hox; congruence.
    + apply list_lookup_singleton_Some in Hx as [? ->].
      rewrite (Hc _ _ Hy) in Hoy; congruence.
    + apply list_lookup_singleton_Some in Hx as [? _]. apply list_lookup_singleton_Some in Hy as [? _].
      lia.
Qed.

Lemma queue_at_New k : queue_at New k = [].
Proof. apply queue_at_None. apply lookup_empty. Qed.

Section WithParams.
Context {PD : PlistDecoder} {PC : PushCertParser}.

(** C1 The store implements the queue machine: whatever calls are made, in whatever
    order, no enrollment row disappears or changes owner, and every queue moves by
    steps of the abstract machine only, in which an entry is delivered when ready,
    answered or cleared while open, and fresh entries join at the end. *)
Theorem store_refines_queue_machine s os : evolves s (run s os).
Proof. apply run_evolves. Qed.

(** C27 A finished command is final: once an entry is acknowledged, failed or cleared, it
    stays at its place in the queue, unchanged, through every later call. *)
Theorem finished_commands_final s os k i q :
  queue_at s k !! i = Some q → Terminal (qState q) = true →
  queue_at (run s os) k !! i = Some q.
Proof.
  intros Hq Ht. destruct (run_evolves s os k) as [_ He].
  destruct (queue_evolves_lookup _ _ _ _ He Hq) as (q' & Hq' & Hs).
  by rewrite <-(cmd_steps_terminal _ _ Hs Ht).
Qed.

(** C36 Every queue entry of every run is well formed: a pending entry was never sent or
    answered, a sent one has attempts, an acknowledged, failed or postponed entry
    carries the result of its own command with the matching status, and a postponed
    one waits for the backoff of its NotNow count. *)
Theorem queue_entries_ok os k : Forall entry_ok (queue_at (run New os) k).
Proof.
  destruct (run_evolves New os k) as [_ He]. rewrite queue_at_New in He.
  eapply queue_evolves_Forall; [apply fresh_entry_ok|apply cmd_step_ok|done|constructor].
Qed.

(** A dedupe key is held by at most one open command of an enrollment, in every
    run. *)
Theorem dedupe_unique os k : dedupe_ok (queue_at (run New os) k).
Proof.
  destruct (run_evolves New os k) as [_ He]. rewrite queue_at_New in He.
  eapply queue_evolves_dedupe; [done|]. by intros i j x y ?.
Qed.
End WithParams.

(** ** One delivery *)

(** C2 Delivery: [Next] succeeds exactly for an enrollment that is enabled and whose
    device is enabled; it hands out the first ready entry in queue order (entries the
    device postponed only once their backoff has passed, and not at all when asked
    to skip them), marks that entry sent and touches nothing else; it returns
    nothing only when no entry is ready. *)
Theorem Next_spec s id skip now r :
  activeRecord s id = Ok r →
  (∃ pre q post, queue r = pre ++ q :: post ∧
     Forall (λ x, deliverable skip now x = false) pre ∧
     ready now q ∧ (skip = true → qState q ≠ StateNotNow) ∧
     Next s id skip now = Ok (Some (qCommand q),
       put_record (ID id)
         (mkRecord (Enr r)
           (pre ++ mkQueued (qCommand q) StateSent (DedupeKey q) (EnqueuedAt q) now (NotNowUntil q)
                     (Attempts q + 1) (NotNowCount q) (CompletedAt q) (qResult q) :: post)) s)) ∨
  (Forall (λ x, ready now x → skip = true ∧ qState x = StateNotNow) (queue r) ∧
   Next s id skip now = Ok (None, s)).
Proof.
  intros Ha. unfold Next. rewrite Ha. cbn [mbind result_bind].
  pose proof (update_first_spec (deliverable skip now) (mark_sent now) (queue r)) as Hu.
  destruct (update_first _ _ _) as [[q qs]|].
  - destruct Hu as (pre & post & Hq & -> & Hpre & Hd). left. exists pre, q, post.
    apply deliverable_ready in Hd as [? ?]. by split_and!.
  - right. split; [|done]. eapply Forall_impl; [done|]. intros x Hx Hr. unfold deliverable in Hx.
    destruct Hr as [x Hs|x Hs|x Hs Hn]; rewrite Hs in *; [done..|].
    rewrite (proj2 (Z.ltb_ge _ _) Hn), orb_false_r in Hx. by apply negb_false_iff in Hx.
Qed.

(** ** Draining a queue *)

(** Replacing the row of an active enrollment by one with the same status. *)
Lemma activeRecord_put s id r r' :
  activeRecord s id = Ok r →
  e_ID (Enr r') = id → Enabled (Enr r') = true → DisabledAt (Enr r') = 0 →
  activeRecord (put_record (ID id) r' s) id = Ok r'.
Proof.
  intros Ha Hi He Hd. destruct (activeRecord_inv _ _ _ Ha) as (Hg & _ & _ & Hu).
  apply get_inv in Hg as (Hv & Hr & Hri).
  assert (get (put_record (ID id) r' s) id = Ok r') as Hg'.
  { apply get_spec. rewrite lookup_put_record, decide_True by done. by split_and!. }
  unfold activeRecord, disabled, time_is_zero. rewrite Hg'. cbn [mbind result_bind].
  rewrite He, Hd. cbn [negb orb Z.eqb reject mbind result_bind].
  destruct (IsUser (IDChannel id)) eqn:Hus; [|done].
  destruct (Hu eq_refl) as (p & (Hpv & Hp & Hpi)%get_inv & Hpe & Hpd).
  assert (get (put_record (ID id) r' s) (Device id) = Ok p) as ->.
  { apply get_spec. rewrite lookup_put_record. split_and!; [done| |done].
    rewrite decide_False; [done|]. intros Heq. rewrite <-Heq, Hr in Hp. simplify_eq.
    assert (IsUser (IDChannel (e_ID (Enr p))) = false) by (rewrite Hpi; apply Device_not_user).
    congruence. }
  cbn [mbind result_bind]. by rewrite Hpe, Hpd.
Qed.

(** The acknowledgement a device sends for a command. *)
Definition ack_of (c : Command) : Response :=
  mkResponse (mkKeys [] [] [] [] [] []) noID (UUID c) StatusAcknowledged [] None [].

Definition open (q : QueuedCommand) : Prop := Terminal (qState q) = false.
#[export] Instance open_dec q : Decision (open q).
Proof. unfold open. apply _. Defined.

Section Drain.
Context {PD : PlistDecoder} {PC : PushCertParser}.
Variables (id : EnrollmentID) (now : Time).

(** A device that asks for the next command and acknowledges it, until there is none. *)
Fixpoint drain (fuel : nat) (s : Store) : list Command * Store :=
  match fuel with
  | O => ([], s)
  | S fuel =>
      match Next s id false now with
      | Ok (Some c, s1) =>
          match StoreResult s1 id (Some (ack_of c)) now with
          | Ok (_, s2) => let '(cs, s3) := drain fuel s2 in (c :: cs, s3)
          | Err _ => ([c], s1)
          end
      | _ => ([], s)
      end
  end.

Lemma closed_deliverable skip x : Terminal (qState x) = true → deliverable skip now x = false.
Proof. unfold deliverable. destruct (qState x); vm_compute; congruence. Qed.

Lemma open_deliverable q :
  (open q → ready now q) → deliverable false now q = negb (Terminal (qState q)).
Proof.
  unfold deliverable, open. intros H. destruct (qState q) eqn:Hq; try done.
  assert (ready now q) as Hr by (by apply H). inversion Hr; try congruence.
  cbn. by rewrite (proj2 (Z.ltb_ge _ _)).
Qed.

(** A closed prefix is skipped by both loops; the entry after it is delivered and its
    acknowledgement closes it. *)
Lemma update_first_skip p f pre q post :
  Forall (λ x, p x = false) pre → p q = true →
  update_first p f (pre ++ q :: post) = Some (q, pre ++ f q :: post).
Proof.
  induction 1 as [|x pre Hx _ IH]; cbn; [by intros ->|]. intros Hq. by rewrite Hx, IH.
Qed.

Lemma drain_step s r pre q post :
  activeRecord s id = Ok r → queue r = pre ++ q :: post →
  Forall (λ x, ¬ open x) pre → open q → ready now q → UUID (qCommand q) ≠ [] →
  ∃ s1 s2 r2 q',
    Next s id false now = Ok (Some (qCommand q), s1) ∧
    StoreResult s1 id (Some (ack_of (qCommand q))) now = Ok (tt, s2) ∧
    activeRecord s2 id = Ok r2 ∧ queue r2 = pre ++ q' :: post ∧ ¬ open q'.
Proof.
  intros Ha Hq Hpre Ho Hready Hu.
  assert (Forall (λ x, Terminal (qState x) = true) pre) as Hpt.
  { eapply Forall_impl; [exact Hpre|]. intros x. unfold open. by destruct (Terminal _). }
  set (r1 := r <| queue := pre ++ mark_sent now q :: post |>).
  set (s1 := put_record (ID id) r1 s).
  destruct (activeRecord_inv _ _ _ Ha) as ((_ & _ & Hri)%get_inv & He & Hd & _).
  assert (activeRecord s1 id = Ok r1) as Ha1 by (by eapply activeRecord_put).
  assert (Next s id false now = Ok (Some (qCommand q), s1)) as Hn.
  { unfold Next. rewrite Ha. cbn [mbind result_bind]. rewrite Hq, update_first_skip; [done| |].
    - eapply Forall_impl; [exact Hpt|]. intros x Hx.
      by apply closed_deliverable.
    - rewrite open_deliverable by done. by rewrite Ho. }
  set (q' := apply_result (ack_of (qCommand q)) now (mark_sent now q)).
  assert (update_first (answers (ack_of (qCommand q))) (apply_result (ack_of (qCommand q)) now)
            (queue r1) = Some (mark_sent now q, pre ++ q' :: post)) as Huf.
  { apply update_first_skip.
    - eapply Forall_impl; [exact Hpt|]. intros x Hx. unfold answers. by rewrite Hx, orb_true_r.
    - unfold answers. cbn. by rewrite bool_decide_false by auto. }
  eexists s1, _, _, q'. split_and!; [exact Hn| | | |].
  - unfold StoreResult. cbn [rsp_CommandUUID ack_of].
    assert (IsIdle (ack_of (qCommand q)) = false) as -> by (vm_compute; reflexivity).
    rewrite bool_decide_false by done. cbn [orb reject mbind result_bind].
    rewrite Ha1. cbn [mbind result_bind]. rewrite Huf. reflexivity.
  - eapply activeRecord_put; first done; unfold setf; cbn; done.
  - reflexivity.
  - unfold q', apply_result, open. rewrite decide_True by done. by cbn.
Qed.

Lemma drain_loop post : ∀ s r pre fuel,
  activeRecord s id = Ok r → queue r = pre ++ post → Forall (λ x, ¬ open x) pre →
  Forall (λ x, UUID (qCommand x) ≠ [] ∧ (open x → ready now x)) post →
  (length (filter open post) < fuel)%nat →
  ∃ s', drain fuel s = (qCommand <$> filter open post, s') ∧ Next s' id false now = Ok (None, s').
Proof.
  induction post as [|q post IH]; intros s r pre fuel Ha Hq Hpre Hpost Hf.
  - destruct fuel as [|fuel]; [cbn in Hf; lia|]. rewrite app_nil_r in Hq.
    assert (Next s id false now = Ok (None, s)) as Hn.
    { unfold Next. rewrite Ha. cbn [mbind result_bind]. rewrite Hq.
      pose proof (update_first_spec (deliverable false now) (mark_sent now) pre) as Hs.
      destruct (update_first _ _ pre) as [[x qs]|]; [|done].
      destruct Hs as (p1 & p2 & -> & _ & _ & Hx).
      apply Forall_app in Hpre as [_ [Hx' _]%Forall_cons]. unfold open in Hx'.
      destruct (Terminal (qState x)) eqn:Ht; [|done].
      by rewrite closed_deliverable in Hx. }
    exists s. cbn. by rewrite Hn.
  - apply Forall_cons in Hpost as [[Hu Hr] Hpost]. destruct (decide (open q)) as [Ho|Ho].
    + rewrite filter_cons_True in * by done. cbn [length] in Hf.
      destruct fuel as [|fuel]; [lia|].
      destruct (drain_step s r pre q post) as (s1 & s2 & r2 & q' & Hn & Hs & Ha2 & Hq2 & Hc); auto.
      destruct (IH s2 r2 (pre ++ [q']) fuel Ha2) as (s' & Hd & Hn'); [| |done|lia|].
      * by rewrite Hq2, <-app_assoc.
      * apply Forall_app; auto.
      * exists s'. split; [|done]. cbn [drain]. by rewrite Hn, Hs, Hd.
    + rewrite filter_cons_False in * by done.
      apply (IH s r (pre ++ [q]) fuel Ha); [|apply Forall_app; auto|done|done].
      by rewrite Hq, <-app_assoc.
Qed.
End Drain.

(** C3 A device that keeps polling gets everything: when every open command of an active
    enrollment is ready, polling and acknowledging delivers all of them, each once,
    in queue order, and then the queue reports empty. *)
Theorem drain_delivers `{!PlistDecoder} s id now r :
  activeRecord s id = Ok r →
  Forall (λ x, UUID (qCommand x) ≠ [] ∧ (Terminal (qState x) = false → ready now x)) (queue r) →
  ∃ s', drain id now (S (length (queue r))) s =
          (qCommand <$> filter (λ x, Terminal (qState x) = false) (queue r), s') ∧
        Next s' id false now = Ok (None, s').
Proof.
  intros Ha Hq. destruct (drain_loop id now (queue r) s r [] (S (length (queue r))) Ha)
    as (s' & Hd & Hn); [done|done|done| |].
  - apply Nat.lt_succ_r, length_filter.
  - exists s'. by rewrite Hd.
Qed.
