(* ===== verification/InMemRegistry.v ===== *)
(** * The identity registry

    Which identity owns which row, which certificate each device is pinned to, the
    reverse index from certificate to device and the append-only history: the part of
    the store that authentication relies on. [PinWF] is its invariant, stated on the
    registry alone; [ids] projects a store to it; every call is shown to act on the
    projection by registry steps that keep the invariant. *)
From S2P Require Import Prelude GoStrings Mdm Storage Replacement InMem InMemQueue.

(** ** The registry *)

Abbreviation pinmap := (gmap bytes (EnrollmentID * bytes)).

(** Rows carry their own key and a valid identity; a user channel has its device's
    row and no certificate; the index maps exactly the pinned certificates to the
    devices pinned to them; history rows name existing devices and every pin has one. *)
Record PinWF (m : pinmap) (c : gmap bytes EnrollmentID) (hs : list CertAssociation) : Prop := {
  pw_key : ∀ k id h, m !! k = Some (id, h) → ID id = k ∧ Validate id = Ok tt;
  pw_parent : ∀ k id h, m !! k = Some (id, h) → ∃ h', m !! ID (Device id) = Some (Device id, h');
  pw_user : ∀ k id h, m !! k = Some (id, h) → IsUser (IDChannel id) = true → h = [];
  pw_index : ∀ h id, c !! h = Some id ↔ h ≠ [] ∧ m !! ID id = Some (id, h);
  pw_hist : ∀ a, a ∈ hs → ∃ h', m !! ID (a_ID a) = Some (a_ID a, h');
  pw_pinned : ∀ k id h, m !! k = Some (id, h) → h ≠ [] → ∃ t, mkAssoc id h t ∈ hs
}.

(** The index without the certificates of one device. *)
Definition dropped (d : bytes) (c : gmap bytes EnrollmentID) : gmap bytes EnrollmentID :=
  filter (λ '(_, owner), ID owner ≠ d) c.

Lemma dropped_Some d c h o : dropped d c !! h = Some o ↔ c !! h = Some o ∧ ID o ≠ d.
Proof. unfold dropped. by rewrite map_lookup_filter_Some. Qed.

(** The history with an association recorded, once. *)
Definition record_assoc (dev : EnrollmentID) (h : bytes) (t : Time) (hs : list CertAssociation) :=
  if existsb (λ a, bool_decide (ID (a_ID a) = ID dev) && bool_decide (a_Hash a = h)) hs
  then hs else hs ++ [mkAssoc dev h t].

(** *** Registry steps *)

Lemma PinWF_empty : PinWF ∅ ∅ [].
Proof.
  split; try (intros *; rewrite lookup_empty; done).
  - intros h id. rewrite !lookup_empty. naive_solver.
  - intros a Ha. by apply elem_of_nil in Ha.
Qed.

Lemma Device_of_device id : IsUser (IDChannel id) = false → Device id = id.
Proof. unfold Device. by intros ->. Qed.

(** A row with no pin: new, or an existing one that loses its pin. *)
Lemma PinWF_reset m c hs id :
  PinWF m c hs → Validate id = Ok tt →
  (∀ p, m !! ID id = Some p → p.1 = id) →
  (IsUser (IDChannel id) = true → ∃ h', m !! ID (Device id) = Some (Device id, h')) →
  PinWF (<[ID id := (id, [])]> m) (dropped (ID id) c) hs.
Proof.
  intros [Hk Hp Hu Hi Hh Hpin] Hv Ho Hpar. split.
  - intros k i h. rewrite lookup_insert_Some. intros [[<- [= <- <-]]|[_ H]]; eauto.
  - intros k i h Hl.
    assert (∃ h', m !! ID (Device i) = Some (Device i, h') ∨ Device i = id) as (h' & Hd).
    { apply lookup_insert_Some in Hl as [[<- [= <- <-]]|[_ H]].
      - destruct (IsUser (IDChannel id)) eqn:Hus; [destruct (Hpar eq_refl); eauto|].
        exists []. right. by apply Device_of_device.
      - destruct (Hp _ _ _ H) as [h' ?]. eauto. }
    destruct (decide (ID (Device i) = ID id)) as [He|He].
    + assert (Device i = id) as ->.
      { destruct Hd as [Hd|]; [|done]. rewrite He in Hd. by apply (Ho _ Hd). }
      rewrite lookup_insert_eq. eauto.
    + rewrite lookup_insert_ne by done. destruct Hd as [|Hd]; [eauto|]. by rewrite Hd in He.
  - intros k i h. rewrite lookup_insert_Some. intros [[_ [= <- <-]]|[_ H]]; eauto.
  - intros h o. rewrite dropped_Some, Hi, lookup_insert_Some. split.
    + intros [[? ?] ?]. eauto.
    + intros [Hne [[He [= <- <-]]|[? ?]]]; [done|]. auto.
  - intros a Ha. destruct (Hh a Ha) as [h' Hl].
    destruct (decide (ID id = ID (a_ID a))) as [He|];
      [|exists h'; by rewrite lookup_insert_ne].
    rewrite <-He in Hl. apply Ho in Hl. cbn in Hl. rewrite Hl, lookup_insert_eq. eauto.
  - intros k i h. rewrite lookup_insert_Some. intros [[_ [= <- <-]]|[_ H]]; [done|eauto].
Qed.

Lemma dropped_unpinned m c hs id :
  PinWF m c hs → (∀ p, m !! ID id = Some p → p.2 = []) → dropped (ID id) c = c.
Proof.
  intros Hw Hn. apply map_filter_id. intros h o Ho He.
  apply (pw_index _ _ _ Hw) in Ho as [Hh Hm]. rewrite He in Hm. by apply Hn in Hm.
Qed.

(** A user row, new or existing. *)
Lemma PinWF_user m c hs id :
  PinWF m c hs → Validate id = Ok tt → IsUser (IDChannel id) = true →
  (∀ p, m !! ID id = Some p → p.1 = id) →
  (∃ h', m !! ID (Device id) = Some (Device id, h')) →
  PinWF (<[ID id := (id, [])]> m) c hs.
Proof.
  intros Hw Hv Hus Ho Hp. rewrite <-(dropped_unpinned m c hs id) at 1; [by apply PinWF_reset|done|].
  intros [i h] Hm. cbn. pose proof (Ho _ Hm) as Hi. cbn in Hi. subst i.
  by eapply (pw_user _ _ _ Hw).
Qed.

(** Pinning an unpinned device to a certificate nobody holds. *)
Lemma PinWF_pin m c hs id h t :
  PinWF m c hs → m !! ID id = Some (id, []) → IsUser (IDChannel id) = false → h ≠ [] →
  c !! h = None → mkAssoc id h t ∈ hs →
  PinWF (<[ID id := (id, h)]> m) (<[h := id]> c) hs.
Proof.
  intros [Hk Hp Hu Hi Hh Hpin] Hm Hus Hne Hc Ha.
  assert (∀ k i h', m !! k = Some (i, h') → ∃ h'', <[ID id := (id, h)]> m !! k = Some (i, h'')) as Hkeep.
  { intros k i h' H. destruct (decide (k = ID id)) as [->|].
    - rewrite H in Hm. simplify_eq. rewrite lookup_insert_eq. eauto.
    - rewrite lookup_insert_ne by done. eauto. }
  split.
  - intros k i h'. rewrite lookup_insert_Some. intros [[<- [= <- <-]]|[_ H]]; [|by eauto].
    split; [done|]. by destruct (Hk _ _ _ Hm).
  - intros k i h' Hl.
    assert (∃ h'', m !! ID (Device i) = Some (Device i, h'')) as [h'' H].
    { apply lookup_insert_Some in Hl as [[<- [= <- <-]]|[_ H]]; eauto. }
    eauto.
  - intros k i h'. rewrite lookup_insert_Some. intros [[_ [= <- <-]]|[_ H]]; [congruence|eauto].
  - intros h' o. rewrite !lookup_insert_Some, Hi. split.
    + intros [[<- <-]|[? [? Ho]]]; [auto|]. split; [done|].
      destruct (decide (ID id = ID o)) as [He|]; [|auto]. rewrite <-He, Hm in Ho. congruence.
    + intros [? [[He [= <- <-]]|[? Ho]]]; [auto|]. right. split; [|done]. intros <-.
      assert (c !! h = Some o) by (by apply Hi). congruence.
  - intros a Ha'. destruct (Hh a Ha') as [h' ?]. eauto.
  - intros k i h'. rewrite lookup_insert_Some. intros [[_ [= <- <-]]|[_ H]] ?; eauto.
Qed.

Lemma PinWF_assoc m c hs id h t h' :
  PinWF m c hs → m !! ID id = Some (id, h') → PinWF m c (hs ++ [mkAssoc id h t]).
Proof.
  intros [] Hm. split; try done.
  - intros a [?| ->%list_elem_of_singleton]%elem_of_app; cbn; eauto.
  - intros k i hh Hk Hne. destruct (pw_pinned0 _ _ _ Hk Hne) as [t' ?]. exists t'. set_solver.
Qed.

Lemma PinWF_record m c hs id h t h' :
  PinWF m c hs → m !! ID id = Some (id, h') →
  PinWF m c (record_assoc id h t hs) ∧ ∃ t', mkAssoc id h t' ∈ record_assoc id h t hs.
Proof.
  intros Hw Hm. unfold record_assoc. destruct (existsb _ hs) eqn:He.
  - split; [done|]. apply existsb_exists in He as (a & Ha & [H1 H2]%andb_true_iff).
    apply bool_decide_eq_true in H1, H2. apply list_elem_of_In in Ha.
    destruct (pw_hist _ _ _ Hw a Ha) as [h'' Hma]. rewrite H1, Hm in Hma.
    destruct a as [i hh tt']; cbn in *. simplify_eq. eauto.
  - split; [by eapply PinWF_assoc|]. exists t. set_solver.
Qed.

(** ** The projection of a store *)

Definition pin_of (r : record) : EnrollmentID * bytes := (e_ID (Enr r), CertHash (Enr r)).
Definition ids (s : Store) : pinmap := pin_of <$> enrollments s.

Definition registry_ok (s : Store) : Prop := PinWF (ids s) (certs s) (history s).

Lemma ids_lookup s k r : enrollments s !! k = Some r → ids s !! k = Some (pin_of r).
Proof. unfold ids. rewrite lookup_fmap. by intros ->. Qed.

Lemma ids_put k r s : ids (put_record k r s) = <[k := pin_of r]> (ids s).
Proof. unfold ids, put_record; cbn. apply fmap_insert. Qed.

Lemma ids_owner s id :
  (∀ r, enrollments s !! ID id = Some r → e_ID (Enr r) = id) →
  ∀ p, ids s !! ID id = Some p → p.1 = id.
Proof.
  unfold ids. intros H p. rewrite lookup_fmap_Some. intros (r & <- & Hr). by apply H.
Qed.

Lemma get_ids s id r : get s id = Ok r → Validate id = Ok tt ∧ ids s !! ID id = Some (id, CertHash (Enr r)).
Proof.
  intros (Hv & Hr & Hi)%get_inv. split; [done|]. rewrite (ids_lookup _ _ _ Hr). unfold pin_of.
  by rewrite Hi.
Qed.

(** Calls that leave the registry alone. *)
Record same_registry (s s' : Store) : Prop := {
  sr_ids : ids s' = ids s; sr_certs : certs s' = certs s; sr_history : history s' = history s
}.
#[export] Instance same_registry_preorder : PreOrder same_registry.
Proof.
  split; [done|]. intros a b c [] []. split; congruence.
Qed.
Lemma same_registry_ok s s' : same_registry s s' → registry_ok s → registry_ok s'.
Proof. intros []. unfold registry_ok. congruence. Qed.

Lemma same_registry_put k r r' s :
  enrollments s !! k = Some r → pin_of r' = pin_of r → same_registry s (put_record k r' s).
Proof.
  intros Hr Hp. split; [|done..]. rewrite ids_put, Hp. apply insert_id. by apply ids_lookup.
Qed.

Lemma same_registry_refl s s' :
  enrollments s' = enrollments s → certs s' = certs s → history s' = history s → same_registry s s'.
Proof. intros He Hc Hh. split; [unfold ids|..]; congruence. Qed.

Section WithParams.
Context {PD : PlistDecoder} {PC : PushCertParser}.

(** *** The calls that leave it alone *)

Lemma StoreTokenUpdate_registry s id push msg raw at_ u s' :
  StoreTokenUpdate s id push msg raw at_ = Ok (u, s') → same_registry s s'.
Proof.
  unfold StoreTokenUpdate. intros H. go_binds H. apply get_inv in Hb0 as (_ & Hr & _).
  eapply same_registry_put; [done|]. unfold pin_of.
  destruct msg as [m|], (bool_decide _); cbn; unfold apply_token_update; repeat case_match; done.
Qed.

Lemma disableChildren_registry d at_ s : same_registry s (disableChildrenLocked d at_ s).
Proof.
  split; [|done..]. apply map_eq. intros k.
  unfold ids, disableChildrenLocked, setf; cbn [enrollments]. rewrite !lookup_fmap.
  destruct (enrollments s !! k) as [r|]; cbn; [|done]. by case_bool_decide.
Qed.

Lemma Disable_registry s id at_ u s' : Disable s id at_ = Ok (u, s') → same_registry s s'.
Proof.
  unfold Disable. intros H. go_binds H. apply get_inv in Hb as (_ & Hr & _).
  destruct (negb _); [etransitivity; [|apply disableChildren_registry]|];
    by eapply same_registry_put.
Qed.

Lemma enqueue_one_registry cmd o now acc id :
  same_registry acc.1 (enqueue_one cmd o now acc id).1.
Proof.
  destruct acc as [s res]. unfold enqueue_one.
  destruct (activeRecord s id) as [r|] eqn:Ha; [|done]. destruct (_ && _); [done|]. cbn.
  apply activeRecord_inv in Ha as [(_ & Hr & _)%get_inv _]. by eapply same_registry_put.
Qed.

Lemma Enqueue_registry s idl cmd o wall res s' :
  Enqueue s idl cmd o wall = Ok (res, s') → same_registry s s'.
Proof.
  unfold Enqueue. destruct cmd as [cmd|]; [|done]. intros H. go_binds H.
  set (now := if time_is_zero (o_Now o) then wall else o_Now o) in *.
  assert (∀ l acc, same_registry acc.1 (foldl (enqueue_one cmd o now) acc l).1) as Hf.
  { clear. intros l. induction l as [|id l IH]; intros acc; cbn; [done|].
    etransitivity; [|apply IH]. apply enqueue_one_registry. }
  specialize (Hf idl (s, mkEnqueueResult [] ∅)).
  destruct (foldl _ _ _) as [s1 res1]. by simplify_eq/=.
Qed.

Lemma Next_registry s id skip now c s' : Next s id skip now = Ok (c, s') → same_registry s s'.
Proof.
  unfold Next. intros H. go_binds H. apply activeRecord_inv in Hb as [(_ & Hr & _)%get_inv _].
  destruct (update_first _ _ _) as [[q qs]|]; simplify_eq; [|done].
  by eapply same_registry_put.
Qed.

Lemma StoreResult_registry s id resp now u s' :
  StoreResult s id resp now = Ok (u, s') → same_registry s s'.
Proof.
  unfold StoreResult. destruct resp as [resp|]; [|done]. intros H. go_binds H.
  apply activeRecord_inv in Hb0 as [(_ & Hr & _)%get_inv _].
  destruct (update_first _ _ _) as [[q qs]|]; simplify_eq. by eapply same_registry_put.
Qed.

Lemma Clear_registry s id f wall n s' : Clear s id f wall = Ok (n, s') → same_registry s s'.
Proof.
  unfold Clear. intros H. go_binds H. apply get_inv in Hb as (_ & Hr & _).
  by eapply same_registry_put.
Qed.

Lemma TouchLastSeen_registry s id at_ u s' :
  TouchLastSeen s id at_ = Ok (u, s') → same_registry s s'.
Proof.
  unfold TouchLastSeen. intros H. go_binds H. apply get_inv in Hb as (_ & Hr & _).
  destruct (_ <? _); [|done]. by eapply same_registry_put.
Qed.

Lemma StoreBootstrapToken_registry s id tok at_ u s' :
  StoreBootstrapToken s id tok at_ = Ok (u, s') → same_registry s s'.
Proof.
  unfold StoreBootstrapToken. intros H. go_binds H.
  apply deviceRecordLocked_inv in Hb as (_ & (_ & Hr & _)%get_inv & _).
  transitivity (put_record (ID (Device id)) (a <| Enr := (Enr a) <| BootstrapTokenAt := at_ |> |>) s).
  - by eapply same_registry_put.
  - by apply same_registry_refl.
Qed.

Lemma StoreUserAuthToken_registry s id tok raw at_ u s' :
  StoreUserAuthToken s id tok raw at_ = Ok (u, s') → same_registry s s'.
Proof.
  unfold StoreUserAuthToken. intros H. go_binds H.
  destruct (userAuth s !! ID id); [|done]. go_binds H. by apply same_registry_refl.
Qed.

(** *** Resetting a row *)

Lemma certs_record dev h t s : certs (recordAssociationLocked dev h t s) = certs s.
Proof. unfold recordAssociationLocked. by destruct (existsb _ _). Qed.
Lemma history_record dev h t s :
  history (recordAssociationLocked dev h t s) = record_assoc dev h t (history s).
Proof. unfold recordAssociationLocked, record_assoc. by destruct (existsb _ _). Qed.
Lemma ids_record dev h t s : ids (recordAssociationLocked dev h t s) = ids s.
Proof. unfold ids. by rewrite recordAssociation_enrollments. Qed.

(** The rows of a device's users hold no pin, so resetting them changes none. *)
Lemma resetChildren_ids d at_ s s0 :
  registry_ok s → d ≠ [] → enrollments s0 = enrollments s → ids (resetChildren d at_ s0) = ids s.
Proof.
  intros Hw Hd He. apply map_eq. intros k.
  unfold ids, resetChildren, setf; cbn [enrollments]. rewrite He, !lookup_fmap.
  destruct (enrollments s !! k) as [r|] eqn:Hr; cbn; [|done].
  case_bool_decide as Hp; [|done]. unfold pin_of; cbn. do 2 f_equal.
  apply ids_lookup in Hr. unfold pin_of in Hr. symmetry.
  destruct (pw_key _ _ _ Hw _ _ _ Hr) as [_ (_ & _ & Hu)%Validate_spec].
  apply (pw_user _ _ _ Hw _ _ _ Hr). apply Hu. by rewrite Hp.
Qed.

Lemma reset_registry s r id msg raw at_ :
  registry_ok s → Validate id = Ok tt →
  (∀ r0, enrollments s !! ID id = Some r0 → e_ID (Enr r0) = id) →
  (IsUser (IDChannel id) = true → ∃ h', ids s !! ID (Device id) = Some (Device id, h')) →
  let s' := resetAuthenticateLocked s r id msg raw at_ in
  ids s' = <[ID id := (id, [])]> (ids s) ∧
  certs s' = (if IsUser (IDChannel id) then certs s else dropped (ID id) (certs s)) ∧
  history s' = history s ∧ registry_ok s'.
Proof.
  intros Hw Hv Ho Hp. cbv zeta. set (s' := resetAuthenticateLocked _ _ _ _ _ _).
  assert (ids s' = <[ID id := (id, [])]> (ids s)) as Hi.
  { unfold s', resetAuthenticateLocked. rewrite ids_put. f_equal.
    destruct (IsUser _); [done|]. cbn [negb]. 
    apply (resetChildren_ids (ID id) at_ s (_ <| bootstrap := _ |>)); [done| |done].
    by apply Validate_spec in Hv as (_ & ? & _). }
  assert (certs s' = (if IsUser (IDChannel id) then certs s else dropped (ID id) (certs s))) as Hc.
  { unfold s', resetAuthenticateLocked. by destruct (IsUser _). }
  assert (history s' = history s) as Hh.
  { unfold s', resetAuthenticateLocked. by destruct (IsUser _). }
  clearbody s'. split_and!; [done..|]. unfold registry_ok. rewrite Hi, Hc, Hh.
  destruct (IsUser (IDChannel id)) eqn:Hu.
  - apply PinWF_user; [done..|by apply ids_owner|by apply Hp].
  - apply PinWF_reset; [done..|by apply ids_owner|by rewrite Hu].
Qed.

Lemma device_row_ids s id r :
  deviceRecordLocked s id = Ok r → ∃ h', ids s !! ID (Device id) = Some (Device id, h').
Proof. intros (_ & [_ ?]%get_ids & _)%deviceRecordLocked_inv. eauto. Qed.

Lemma UpsertAuthenticate_registry s id msg raw at_ u s' :
  UpsertAuthenticate s id msg raw at_ = Ok (u, s') → registry_ok s → registry_ok s'.
Proof.
  unfold UpsertAuthenticate. destruct (Validate id) as [[]|] eqn:Hv; [|done].
  intros H Hw. go_binds H. apply reset_registry; [done..| |].
  - by apply same_owner.
  - intros Hu. rewrite Hu in *. go_binds Hb0. by eapply device_row_ids.
Qed.

(** Pinning after the row was reset, with an association in the history. *)
Lemma PinWF_repin m c hs id h t :
  PinWF (<[ID id := (id, [])]> m) c hs → IsUser (IDChannel id) = false → h ≠ [] →
  c !! h = None → mkAssoc id h t ∈ hs →
  PinWF (<[ID id := (id, h)]> m) (<[h := id]> c) hs.
Proof.
  intros Hw Hu Hne Hc Ha. rewrite <-(insert_insert_eq m (ID id) (id, h) (id, [])).
  by eapply PinWF_pin; [|apply lookup_insert_eq|..].
Qed.

Lemma PinWF_repin_record m c hs id h t :
  PinWF (<[ID id := (id, [])]> m) c hs → IsUser (IDChannel id) = false → h ≠ [] →
  c !! h = None →
  PinWF (<[ID id := (id, h)]> m) (<[h := id]> c) (record_assoc id h t hs).
Proof.
  intros Hw Hu Hne Hc.
  destruct (PinWF_record _ _ _ id h t [] Hw) as [Hw' [t' Ht]]; [apply lookup_insert_eq|].
  by eapply PinWF_repin.
Qed.

Lemma CheckAuthenticate_valid id e c b :
  CheckAuthenticate id e c = Ok b → Validate id = Ok tt ∧ IsUser (IDChannel id) = false.
Proof.
  unfold CheckAuthenticate. destruct (Validate id) as [[]|]; [|done].
  by destruct (IsUser (IDChannel id)).
Qed.

Lemma AuthenticateEnrollment_registry s b id c u s' :
  AuthenticateEnrollment s b id c = Ok (u, s') → registry_ok s → registry_ok s'.
Proof.
  unfold AuthenticateEnrollment. intros H Hw. go_binds H. destruct a; [by go_binds H|].
  go_binds H. destruct (CheckAuthenticate_valid _ _ _ _ Hb0) as [Hv Hu].
  destruct (reset_registry s (default noRecord (enrollments s !! ID id)) id (ac_Message c) (ac_Raw c)
              (ac_At c) Hw Hv) as (Hi & Hc & Hh & Hw1).
  { intros r0 Hr0. rewrite Hr0 in *. by eapply CheckAuthenticate_owner. }
  { by rewrite Hu. }
  set (s1 := resetAuthenticateLocked _ _ _ _ _ _) in *. clearbody s1. rewrite Hu in Hc.
  case_bool_decide as Hne; [|done].
  unfold registry_ok in *. rewrite ids_record, certs_record, history_record.
  match goal with |- context [put_record ?k ?r ?s0] =>
    assert (ids (put_record k r s0) = <[ID id := (id, ac_Hash c)]> (ids s)) as ->
  end.
  { rewrite ids_put. change (ids (s1 <| certs := <[ac_Hash c := id]> (certs s1) |>)) with (ids s1).
    rewrite Hi, insert_insert_eq. do 2 f_equal. unfold pin_of; cbn. f_equal.
    destruct (enrollments s1 !! ID id) as [r1|] eqn:Hr1.
    - apply ids_lookup in Hr1. rewrite Hi, lookup_insert_eq in Hr1. by injection Hr1.
    - assert (ids s1 !! ID id = None) as Hn by (unfold ids; by rewrite lookup_fmap, Hr1).
      by rewrite Hi, lookup_insert_eq in Hn. }
  cbn [certs history put_record setf]. unfold setf; cbn [certs history put_record].
  rewrite Hi in Hw1. apply PinWF_repin_record; [exact Hw1|done|done|].
  rewrite Hc. destruct (dropped _ _ !! _) as [o|] eqn:Ho; [|done].
  apply dropped_Some in Ho as [Ho Hid]. rewrite Ho in Hb1.
  by apply bool_decide_eq_false, dec_stable in Hb1 as ->.
Qed.

(** A certificate whose index entry, if any, belongs to this device is free once the
    device's entries are dropped. *)
Lemma dropped_free d c h :
  match c !! h with Some o => bool_decide (ID o ≠ d) | None => false end = false →
  dropped d c !! h = None.
Proof.
  intros H. destruct (dropped d c !! h) as [o|] eqn:Ho; [|done].
  apply dropped_Some in Ho as [Ho Hd]. rewrite Ho in H.
  by rewrite bool_decide_true in H.
Qed.

(** Resetting an existing device row. *)
Lemma PinWF_reset_row m c hs id h :
  PinWF m c hs → m !! ID id = Some (id, h) → IsUser (IDChannel id) = false →
  PinWF (<[ID id := (id, [])]> m) (dropped (ID id) c) hs.
Proof.
  intros Hw Hm Hu. apply PinWF_reset; [done| | |by rewrite Hu].
  - by destruct (pw_key _ _ _ Hw _ _ _ Hm).
  - intros p ?. by simplify_eq.
Qed.

Lemma AssociateCert_registry s id h at_ u s' :
  AssociateCert s id h at_ = Ok (u, s') → registry_ok s → registry_ok s'.
Proof.
  unfold AssociateCert. intros H Hw. go_binds H. bool_hyps.
  apply deviceRecordLocked_inv in Hb0 as (_ & Hg & _).
  destruct (get_inv _ _ _ Hg) as (_ & _ & Hi). apply get_ids in Hg as [_ Hm].
  unfold registry_ok. rewrite ids_record, certs_record, history_record, ids_put.
  unfold pin_of, dropCertLocked, put_record, setf; cbn [e_ID Enr CertHash certs history ids enrollments].
  rewrite Hi. apply PinWF_repin_record; [|apply Device_not_user|done|by apply dropped_free].
  eapply PinWF_reset_row; [done..|apply Device_not_user].
Qed.

Lemma StoreUserAuthChallenge_registry s id ch raw at_ u s' :
  StoreUserAuthChallenge s id ch raw at_ = Ok (u, s') → registry_ok s → registry_ok s'.
Proof.
  unfold StoreUserAuthChallenge. intros H Hw. go_binds H.
  destruct (enrollments s !! ID id) as [r|] eqn:Hr; [done|].
  unfold userAuthTargetLocked in Hb0. destruct (Validate id) as [[]|] eqn:Hv; [|done].
  go_binds Hb0. apply negb_false_iff in Hb1.
  unfold registry_ok. change (PinWF (ids (put_record (ID id) (mkRecord (noEnrollment <| e_ID := id |>
    <| EnrolledAt := at_ |> <| LastSeenAt := at_ |>) []) s)) (certs s) (history s)).
  rewrite ids_put. apply PinWF_user; [done..| |by eapply device_row_ids].
  apply ids_owner. by rewrite Hr.
Qed.

(** *** Import *)

Lemma PinWF_records m c id h0 l hs :
  PinWF m c hs → m !! ID id = Some (id, h0) →
  let hs' := foldl (λ hs a, record_assoc id (a_Hash a) (a_At a) hs) hs l in
  PinWF m c hs' ∧ (∀ a, a ∈ hs → a ∈ hs') ∧
  (∀ a, a ∈ l → ∃ t, mkAssoc id (a_Hash a) t ∈ hs').
Proof.
  cbv zeta. revert hs. induction l as [|a l IH]; intros hs Hw Hm; cbn.
  { split_and!; [done|done|]. intros a Ha. by apply elem_of_nil in Ha. }
  destruct (PinWF_record _ _ _ id (a_Hash a) (a_At a) h0 Hw Hm) as [Hw' [t Ht]].
  destruct (IH _ Hw' Hm) as (H1 & H2 & H3). split_and!; [done| |].
  - intros b Hb. apply H2. unfold record_assoc. case_match; set_solver.
  - intros b [->|Hb]%elem_of_cons; eauto.
Qed.

Lemma fold_record_fields id l s :
  let s' := foldl (λ s a, recordAssociationLocked id (a_Hash a) (a_At a) s) s l in
  ids s' = ids s ∧ certs s' = certs s ∧
  history s' = foldl (λ hs a, record_assoc id (a_Hash a) (a_At a) hs) (history s) l.
Proof.
  cbv zeta. revert s. induction l as [|a l IH]; intros s; cbn; [done|].
  destruct (IH (recordAssociationLocked id (a_Hash a) (a_At a) s)) as (-> & -> & ->).
  by rewrite ids_record, certs_record, history_record.
Qed.

(** An export that pins a certificate also lists it in its history. *)
Definition import_ok (rec : EnrollmentExport) : Prop :=
  CertHash (x_Enrollment rec) ≠ [] →
  Exists (λ a, a_Hash a = CertHash (x_Enrollment rec)) (x_CertHistory rec).

Lemma Import_registry s rec u s' :
  Import s rec = Ok (u, s') → import_ok rec → registry_ok s → registry_ok s'.
Proof.
  unfold Import. set (id := e_ID (x_Enrollment rec)).
  destruct (Validate id) as [[]|] eqn:Hv; [|done]. intros H Hok Hw. go_binds H.
  set (r1 := (default noRecord (enrollments s !! ID id)) <| Enr := x_Enrollment rec |>) in *.
  assert (pin_of r1 = (id, CertHash (x_Enrollment rec))) as Hpin by done.
  assert (∀ p, ids s !! ID id = Some p → p.1 = id) as Ho by (by apply ids_owner, same_owner).
  destruct (IsUser (IDChannel id)) eqn:Hu; go_binds H.
  - cbn [andb] in Hb0. bool_hyps. unfold registry_ok. rewrite ids_put, Hpin.
    match goal with E : CertHash _ = [] |- _ => rewrite E end.
    apply PinWF_user; [done..|]. destruct (get s (Device id)) as [p|] eqn:Hg; [|done].
    apply get_ids in Hg as [_ ?]. eauto.
  - match goal with |- registry_ok (foldl _ ?s0 _) =>
      destruct (fold_record_fields id (x_CertHistory rec) s0) as (Hi & Hc & Hh) end.
    unfold registry_ok. rewrite Hi, Hc, Hh. clear Hi Hc Hh.
    assert (PinWF (<[ID id := (id, [])]> (ids s)) (dropped (ID id) (certs s)) (history s)) as Hw1
      by (apply PinWF_reset; [done..|by rewrite Hu]).
    destruct (PinWF_records _ _ id [] (x_CertHistory rec) _ Hw1) as (Hw2 & _ & Hin);
      [apply lookup_insert_eq|].
    case_bool_decide as Hne; cbn zeta.
    + change (PinWF (ids (put_record (ID id) r1 s))
                (<[CertHash (x_Enrollment rec) := id]> (dropped (ID id) (certs s)))
                (foldl (λ hs a, record_assoc id (a_Hash a) (a_At a) hs) (history s) (x_CertHistory rec))).
      rewrite ids_put, Hpin. specialize (Hok Hne). apply Exists_exists in Hok as (x & Hx & Heq).
      destruct (Hin x Hx) as [t Ht]. rewrite Heq in Ht.
      eapply PinWF_repin; [exact Hw2|done|done| |exact Ht]. by apply dropped_free.
    + change (PinWF (ids (put_record (ID id) r1 s)) (dropped (ID id) (certs s))
                (foldl (λ hs a, record_assoc id (a_Hash a) (a_At a) hs) (history s) (x_CertHistory rec))).
      by rewrite ids_put, Hpin, Hne.
Qed.
End WithParams.
