(* ===== verification/InMemSafety.v ===== *)
(** * What the enrollment store guarantees

    The registry invariant for every run of the store, and what follows for callers:
    a certificate names at most one enrollment and looking it up finds exactly the
    device pinned to it; authenticating again leaves nothing of the previous
    enrollment behind; disabling an enrollment stops its delivery and that of its
    user channels. *)
From S2P Require Import Prelude GoStrings Mdm Storage Replacement InMem InMemQueue InMemDelivery InMemRegistry.

(** ** Identity replacement *)

(** What holds of a stored attempt, and that its tokens name valid channels. *)
Definition attempt_ok (id : EnrollmentID) (x : Replacement) : Prop :=
  handshake_ok id x ∧ Forall (λ t, Validate (rt_ID t) = Ok tt) (Tokens x).

(** The registry, and the attempts stored for existing device rows. *)
Record WF (s : Store) : Prop := {
  wf_registry : registry_ok s;
  wf_attempts : ∀ k x, replacements s !! k = Some x →
    ∃ r, enrollments s !! k = Some r ∧ attempt_ok (e_ID (Enr r)) x
}.

(** What callers must respect: a replacement begins blank and its captured tokens come
    from messages whose identity resolved; an imported pin is in the imported history. *)
Definition op_ok `{!PlistDecoder, !PushCertParser} (o : op) : Prop :=
  match o with
  | DoImport rec => import_ok rec
  | DoTransitionReplacement _ _ c =>
      fresh_begin c ∧ ∀ t, c_Token c = Some t → Validate (rt_ID t) = Ok tt
  | _ => True
  end.

Lemma attempt_ok_clone id x y :
  CloneReplacement (Some x) = Some y → attempt_ok id x → attempt_ok id y.
Proof. unfold CloneReplacement. cbn. intros [= <-] [[] Ht]. by split. Qed.

Lemma wf_attempts_evolves s s' :
  evolves s s' → replacements s' = replacements s → WF s → registry_ok s' → WF s'.
Proof.
  intros He Hr Hw Hreg. split; [done|]. intros k x Hx. rewrite Hr in Hx.
  destruct (wf_attempts _ Hw _ _ Hx) as (r & Hk & Ha).
  destruct (proj1 (He k) r Hk) as (r' & Hr' & Hi). exists r'. by rewrite Hi.
Qed.

(** Applying a captured token adds the row of its channel, or keeps the registry. *)
Lemma apply_token_registry at_ dev h0 s t :
  registry_ok s → ids s !! ID dev = Some (dev, h0) →
  Device (rt_ID t) = dev → Validate (rt_ID t) = Ok tt →
  registry_ok (apply_token at_ s t) ∧ ids (apply_token at_ s t) !! ID dev = Some (dev, h0).
Proof.
  intros Hw Hd Ht Hv.
  assert (∀ r, pin_of (r <| Enr := ApplyReplacementToken (Enr r) t at_ |>) = pin_of r) as Hpin.
  { intros r. unfold pin_of, setf; cbn.
    by destruct (ApplyReplacementToken_stable (Enr r) t at_) as [-> ->]. }
  destruct (enrollments s !! ID (rt_ID t)) as [row|] eqn:Hrow.
  - assert (same_registry s (apply_token at_ s t)) as Hs
      by (unfold apply_token; rewrite Hrow; by eapply same_registry_put).
    split; [by eapply same_registry_ok|]. by rewrite (sr_ids _ _ Hs).
  - assert (ids s !! ID (rt_ID t) = None) as Hn by (unfold ids; by rewrite lookup_fmap, Hrow).
    assert (IsUser (IDChannel (rt_ID t)) = true) as Hu.
    { destruct (IsUser (IDChannel (rt_ID t))) eqn:Hu; [done|]. apply Device_of_device in Hu.
      congruence. }
    assert (ids (apply_token at_ s t) = <[ID (rt_ID t) := (rt_ID t, [])]> (ids s)) as Hids
      by (unfold apply_token; rewrite ids_put, Hpin, Hrow; done).
    unfold registry_ok. rewrite Hids. split.
    + apply PinWF_user; [done..| |rewrite Ht; by eauto]. intros p. by rewrite Hn.
    + rewrite lookup_insert_ne; [done|]. intros He. by rewrite He, Hd in Hn.
Qed.

Lemma apply_tokens_registry at_ dev ts : ∀ h0 s,
  registry_ok s → ids s !! ID dev = Some (dev, h0) →
  Forall (λ t, Device (rt_ID t) = dev ∧ Validate (rt_ID t) = Ok tt) ts →
  registry_ok (foldl (apply_token at_) s ts).
Proof.
  induction ts as [|t ts IH]; intros h0 s Hw Hd Hts; cbn; [done|].
  apply Forall_cons in Hts as [[H1 H2] Hts].
  destruct (apply_token_registry at_ dev h0 s t) as [? ?]; [done..|]. by eapply IH.
Qed.

Lemma commit_registry s id e r at_ s' :
  commit_replacement s id e r at_ = Ok s' → registry_ok s → get s id = Ok e →
  IsUser (IDChannel id) = false → CandidateHash r ≠ [] →
  Forall (λ t, Device (rt_ID t) = id ∧ Validate (rt_ID t) = Ok tt) (Tokens r) →
  registry_ok s'.
Proof.
  unfold commit_replacement. intros H Hw Hg Hu Hc Hts. go_binds H.
  destruct (get_inv _ _ _ Hg) as (_ & _ & Hi). apply get_ids in Hg as [_ Hm].
  assert (dropped (ID id) (certs s) !! CandidateHash r = None) as Hfree.
  { destruct (dropped _ _ !! _) as [o|] eqn:Ho; [|done].
    apply dropped_Some in Ho as [[Hne Ho]%(pw_index _ _ _ Hw) Hid].
    destruct (pw_pinned _ _ _ Hw _ _ _ Ho Hne) as [t Ht]. exfalso. apply not_true_iff_false in Hb0.
    apply Hb0, existsb_exists. eexists. split; [by apply list_elem_of_In|]. cbn.
    rewrite !bool_decide_true; [done| |done]. by intros ->. }
  set (s1 := _ <| history := _ |>).
  assert (registry_ok s1 ∧ ids s1 !! ID id = Some (id, CandidateHash r)) as [Hw1 Hd1];
    [|by eapply apply_tokens_registry].
  assert (ids s1 = <[ID id := (id, CandidateHash r)]> (ids s)) as Hids.
  { unfold s1. match goal with |- ids (?s0 <| history := _ |>) = _ =>
      change (ids s0 = <[ID id := (id, CandidateHash r)]> (ids s)) end.
    rewrite ids_put. unfold pin_of, setf; cbn. by rewrite Hi. }
  rewrite Hids, lookup_insert_eq. split; [|done]. unfold registry_ok. rewrite Hids.
  change (PinWF (<[ID id := (id, CandidateHash r)]> (ids s))
            (<[CandidateHash r := id]> (dropped (ID id) (certs s)))
            (history s ++ [mkAssoc id (CandidateHash r) at_])).
  eapply PinWF_repin; [|done|done|done|apply elem_of_app; right; by left].
  eapply PinWF_assoc; [by eapply PinWF_reset_row | apply lookup_insert_eq].
Qed.

Section WithParams.
Context {PD : PlistDecoder} {PC : PushCertParser}.

Lemma TransitionReplacement_wf s b id c x s' :
  TransitionReplacement s b id c = Ok (x, s') → WF s →
  fresh_begin c → (∀ t, c_Token c = Some t → Validate (rt_ID t) = Ok tt) → WF s'.
Proof.
  intros H Hw Hf Ht. pose proof (TransitionReplacement_evolves _ _ _ _ _ _ H) as Hev.
  unfold TransitionReplacement in H. go_binds H. destruct a0 as [commit r]. go_binds H.
  rename a into e, a0 into s1, Hb1 into Hg, Hb2 into Hadv, Hb3 into Hcom.
  destruct (get_inv _ _ _ Hg) as (Hv & Hrow & Hi).
  set (old := CloneReplacement (replacements s !! ID id)) in *.
  assert (∀ y, old = Some y → attempt_ok (e_ID (Enr e)) y) as Hold.
  { intros y Hy. unfold old in Hy. destruct (replacements s !! ID id) as [z|] eqn:Hz; [|done].
    eapply attempt_ok_clone; [exact Hy|].
    destruct (wf_attempts _ Hw _ _ Hz) as (r' & Hr' & ?). by simplify_eq. }
  assert (∀ y, r = Some y → attempt_ok (e_ID (Enr e)) y) as Hnew.
  { intros y ->. split.
    - eapply advance_handshake_ok; [|done|exact Hadv]. intros z Hz. by apply Hold.
    - eapply (advance_tokens (λ t, Validate (rt_ID t) = Ok tt)); [|done..|exact Hadv].
      intros z Hz. by apply Hold. }
  assert (registry_ok s1 ∧ replacements s1 = replacements s) as [Hreg Hrepl].
  { destruct commit; [|simplify_eq; split; [apply Hw|done]].
    destruct r as [r|]; [|simplify_eq; split; [apply Hw|done]].
    destruct (advance_commit_facts old (Enr e) c (Some r)) as (_ & y & [= <-] & _ & _ & _ & Hc & _);
      [by intros z [? _]%Hold|exact Hadv|].
    destruct (Hnew r eq_refl) as [[] Hval]. split.
    - eapply commit_registry; [exact Hcom|apply Hw|done|by bool_hyps|done|].
      apply Forall_and. split; [|done]. eapply Forall_impl; [exact ho_tokens|].
      cbn. intros t [-> _]. rewrite Hi. by apply Device_of_device.
    - unfold commit_replacement in Hcom. go_binds Hcom.
      assert (∀ ts s0, replacements (foldl (apply_token (At c)) s0 ts) = replacements s0) as ->;
        [|done]. clear. intros ts. induction ts as [|t ts IH]; intros s0; [done|]. cbn.
      by rewrite IH. }
  split.
  - by eapply same_registry_ok; [by apply same_registry_refl|].
  - intros k y Hy. cbn [replacements setf] in Hy. unfold setf in Hy; cbn in Hy.
    assert (k = ID id ∧ CloneReplacement r = Some y ∨ replacements s !! k = Some y) as [[-> Hc]|Hk].
    { rewrite Hrepl in Hy. destruct (CloneReplacement r) as [z|].
      - apply lookup_insert_Some in Hy as [[<- ->]|[? ?]]; auto.
      - apply lookup_delete_Some in Hy as [? ?]. auto. }
    + destruct (proj1 (Hev (ID id)) e Hrow) as (e' & He' & Hi'). exists e'. split; [done|].
      rewrite Hi'. destruct r as [r|]; [|done]. eapply attempt_ok_clone; [exact Hc|]. by apply Hnew.
    + destruct (wf_attempts _ Hw _ _ Hk) as (r0 & Hr0 & Ha).
      destruct (proj1 (Hev k) r0 Hr0) as (r' & Hr' & Hi'). exists r'. by rewrite Hi'.
Qed.

(** No other call touches the attempts. *)
Lemma replacements_record dev h t s :
  replacements (recordAssociationLocked dev h t s) = replacements s.
Proof. unfold recordAssociationLocked. by destruct (existsb _ _). Qed.

Lemma replacements_reset s r id msg raw at_ :
  replacements (resetAuthenticateLocked s r id msg raw at_) = replacements s.
Proof. unfold resetAuthenticateLocked. by destruct (IsUser _). Qed.

Lemma exec_replacements s o :
  match o with DoTransitionReplacement _ _ _ => False | _ => True end →
  replacements (exec s o) = replacements s.
Proof.
  intros Ho. destruct o; try done; clear Ho; cbn [exec];
    apply (after_invariant (λ s', replacements s' = replacements s)); try done; intros u0 s' H.
  - unfold UpsertAuthenticate in H. case_match; [|done]. go_binds H. apply replacements_reset.
  - unfold AuthenticateEnrollment in H. go_binds H. destruct a; [by go_binds H|]. go_binds H.
    case_bool_decide; [|apply replacements_reset]. rewrite replacements_record.
    apply (replacements_reset s).
  - unfold StoreTokenUpdate in H. by go_binds H.
  - unfold Disable in H. go_binds H. by destruct (negb _).
  - unfold TouchLastSeen in H. go_binds H. by destruct (_ <? _).
  - unfold Enqueue in H. destruct cmd as [cmd|]; [|done]. go_binds H.
    set (now := if time_is_zero (o_Now o) then wall else o_Now o) in *.
    assert (∀ l acc, replacements (foldl (enqueue_one cmd o now) acc l).1 = replacements acc.1) as Hf.
    { clear. intros l. induction l as [|id l IH]; intros acc; cbn; [done|]. rewrite IH.
      destruct acc. unfold enqueue_one. by repeat case_match. }
    specialize (Hf ids (s, mkEnqueueResult [] ∅)).
    destruct (foldl _ _ _) as [s1 res1]. by simplify_eq/=.
  - unfold Next in H. go_binds H. case_match; simplify_eq; [|done]. by case_match; simplify_eq.
  - unfold StoreResult in H. destruct resp; [|done]. go_binds H. by repeat case_match; simplify_eq.
  - unfold Clear in H. by go_binds H.
  - unfold ClearCommand, Clear in H. case_bool_decide; [done|]. by go_binds H.
  - unfold AssociateCert in H. go_binds H. by rewrite replacements_record.
  - unfold StoreBootstrapToken in H. by go_binds H.
  - unfold StorePushCert in H. by go_binds H.
  - unfold StoreUserAuthChallenge in H. go_binds H. by destruct (enrollments s !! _).
  - unfold StoreUserAuthToken in H. go_binds H. destruct (userAuth s !! _); [|done]. by go_binds H.
  - unfold ClearUserAuth in H. by go_binds H.
  - unfold Import in H. case_match; [|done]. go_binds H. destruct (IsUser _); go_binds H; [done|].
    assert (∀ id l s0, replacements
      (foldl (λ s a, recordAssociationLocked id (a_Hash a) (a_At a) s) s0 l) = replacements s0) as ->.
    { clear. intros id l. induction l as [|a l IH]; intros s0; cbn; [done|].
      by rewrite IH, replacements_record. }
    by case_bool_decide.
Qed.

Lemma exec_registry s o : registry_ok s → op_ok o →
  match o with DoTransitionReplacement _ _ _ => False | _ => True end →
  registry_ok (exec s o).
Proof.
  intros Hw Hok Ho. destruct o; try done; clear Ho; cbn [exec];
    apply (after_invariant registry_ok); try done; intros u0 s' H.
  - by eapply UpsertAuthenticate_registry.
  - by eapply AuthenticateEnrollment_registry.
  - by eapply same_registry_ok; [eapply StoreTokenUpdate_registry|].
  - by eapply same_registry_ok; [eapply Disable_registry|].
  - by eapply same_registry_ok; [eapply TouchLastSeen_registry|].
  - by eapply same_registry_ok; [eapply Enqueue_registry|].
  - by eapply same_registry_ok; [eapply Next_registry|].
  - by eapply same_registry_ok; [eapply StoreResult_registry|].
  - by eapply same_registry_ok; [eapply Clear_registry|].
  - unfold ClearCommand in H. case_bool_decide; [done|].
    by eapply same_registry_ok; [eapply Clear_registry|].
  - by eapply AssociateCert_registry.
  - by eapply same_registry_ok; [eapply StoreBootstrapToken_registry|].
  - unfold StorePushCert in H. go_binds H. by eapply same_registry_ok; [apply same_registry_refl|].
  - by eapply StoreUserAuthChallenge_registry.
  - by eapply same_registry_ok; [eapply StoreUserAuthToken_registry|].
  - unfold ClearUserAuth in H. go_binds H. by eapply same_registry_ok; [apply same_registry_refl|].
  - by eapply Import_registry.
Qed.

Lemma exec_wf s o : WF s → op_ok o → WF (exec s o).
Proof.
  intros Hw Hok.
  destruct (decide (match o with DoTransitionReplacement _ _ _ => true | _ => false end = true)) as [Ho|Ho].
  - destruct o; try done. destruct Hok as [Hf Ht]. cbn [exec].
    apply (after_invariant WF); [done|]. intros ? ? H. by eapply TransitionReplacement_wf.
  - assert (match o with DoTransitionReplacement _ _ _ => False | _ => True end) as Ho' by (by destruct o).
    eapply wf_attempts_evolves; [apply exec_evolves|by apply exec_replacements|done|].
    apply exec_registry; [apply Hw|done..].
Qed.

Lemma WF_New : WF New.
Proof. split; [apply PinWF_empty|]. intros k x Hx. by apply (lookup_empty_Some k x) in Hx. Qed.

Lemma run_wf s os : WF s → Forall op_ok os → WF (run s os).
Proof.
  intros Hw Hok. apply run_invariant; [done|]. intros s' o Hs Ho.
  apply exec_wf; [done|]. by eapply (proj1 (Forall_forall _ _)).
Qed.
End WithParams.

(** ** The certificate index *)

Lemma Get_spec s id e :
  Get s id = Ok e ↔ ∃ r, Enr r = e ∧ get s id = Ok r.
Proof.
  unfold Get. split.
  - intros H. go_binds H. eauto.
  - by intros (r & <- & ->).
Qed.

Lemma Get_ids s id e : Get s id = Ok e → ids s !! ID id = Some (id, CertHash e).
Proof. intros (r & <- & [_ H]%get_ids)%Get_spec. done. Qed.

Lemma ids_Get s id h : registry_ok s → ids s !! ID id = Some (id, h) → ∃ e, Get s id = Ok e ∧ CertHash e = h.
Proof.
  intros Hw Hi. destruct (pw_key _ _ _ Hw _ _ _ Hi) as [_ Hv]. unfold ids in Hi.
  apply lookup_fmap_Some in Hi as (r & [= He Hc] & Hr). exists (Enr r). split; [|done].
  apply Get_spec. exists r. split; [done|]. by apply get_spec.
Qed.

(** The index leads exactly to the pinned enrollments. *)
Lemma wf_index s h id : WF s →
  EnrollmentByCertHash s h = Ok id ↔ h ≠ [] ∧ ∃ e, Get s id = Ok e ∧ CertHash e = h.
Proof.
  intros [Hw _]. unfold EnrollmentByCertHash. split.
  - destruct (certs _ !! h) as [o|] eqn:Ho; [|done]. intros [= ->].
    apply (pw_index _ _ _ Hw) in Ho as [? ?]. split; [done|]. by apply ids_Get.
  - intros (Hne & e & Hg & <-). apply Get_ids in Hg.
    assert (certs s !! CertHash e = Some id) as -> by (by apply (pw_index _ _ _ Hw)). done.
Qed.

(** A pin is exclusive in a well-formed store. *)
Lemma wf_exclusive s id1 id2 e1 e2 :
  WF s → Get s id1 = Ok e1 → Get s id2 = Ok e2 → CertHash e1 = CertHash e2 → CertHash e1 ≠ [] →
  id1 = id2 ∧ IsUser (IDChannel id1) = false.
Proof.
  intros [Hw _] H1%Get_ids H2%Get_ids He Hne.
  assert (certs s !! CertHash e1 = Some id1) as Hc1 by (by apply (pw_index _ _ _ Hw)).
  assert (certs s !! CertHash e1 = Some id2) as Hc2 by (apply (pw_index _ _ _ Hw); by rewrite He in *).
  split; [congruence|]. destruct (IsUser (IDChannel id1)) eqn:Hu; [|done].
  by destruct Hne; eapply (pw_user _ _ _ Hw).
Qed.

Section WithParams.
Context {PD : PlistDecoder} {PC : PushCertParser}.

(** Looking up a certificate finds exactly the enrollment pinned to it: after any
    run whose callers respect the contract, the index has an entry for a
    certificate if and only if some enrollment is pinned to it, and that entry is
    that enrollment. *)
Theorem certificate_index_exact os h id :
  Forall op_ok os →
  EnrollmentByCertHash (run New os) h = Ok id ↔
  h ≠ [] ∧ ∃ e, Get (run New os) id = Ok e ∧ CertHash e = h.
Proof. intros Hok. apply wf_index, run_wf; [apply WF_New|done]. Qed.

(** C4 A certificate names one enrollment: in every run, two enrollments pinned to the
    same certificate are the same enrollment, and no user channel is ever pinned. *)
Theorem certificate_exclusive os id1 id2 e1 e2 :
  Forall op_ok os →
  Get (run New os) id1 = Ok e1 → Get (run New os) id2 = Ok e2 →
  CertHash e1 = CertHash e2 → CertHash e1 ≠ [] →
  id1 = id2 ∧ IsUser (IDChannel id1) = false.
Proof. intros Hok. apply wf_exclusive, run_wf; [apply WF_New|done]. Qed.
End WithParams.

(** ** Authenticating again *)

(** A row with nothing of an enrollment: no token, no push credentials, no pin, no
    open command. *)
Definition blank_row (r : record) : Prop :=
  Enabled (Enr r) = false ∧ DisabledAt (Enr r) = 0 ∧ e_Push (Enr r) = noPush ∧
  UnlockToken (Enr r) = [] ∧ TokenUpdateRaw (Enr r) = [] ∧
  e_Capabilities (Enr r) = noCapabilities ∧ BootstrapTokenAt (Enr r) = 0 ∧
  Forall (λ q, Terminal (qState q) = true) (queue r).

Lemma clear_entry_terminal at_ q : Terminal (qState (clear_entry at_ q)) = true.
Proof.
  unfold clear_entry. destruct (Terminal (qState q)) eqn:Ht; cbn; [done|].
  unfold setf; cbn. by vm_compute.
Qed.

Lemma clear_queue_terminal at_ (qs : list QueuedCommand) :
  Forall (λ q, Terminal (qState q) = true) (clear_entry at_ <$> qs).
Proof. apply Forall_fmap, Forall_forall. intros. apply clear_entry_terminal. Qed.

(** The reset of a device row: the row and its children are blank, its bootstrap
    token, its index entries and its users' authentication state are gone, and the
    rows of other devices are untouched. *)
Lemma reset_device s r id msg raw at_ :
  IsUser (IDChannel id) = false →
  let s' := resetAuthenticateLocked s r id msg raw at_ in
  (∃ r', enrollments s' !! ID id = Some r' ∧ e_ID (Enr r') = id ∧ blank_row r' ∧ CertHash (Enr r') = []) ∧
  (∀ k c, enrollments s !! k = Some c → k ≠ ID id → ParentID (e_ID (Enr c)) = ID id →
     ∃ c', enrollments s' !! k = Some c' ∧ e_ID (Enr c') = e_ID (Enr c) ∧ blank_row c') ∧
  (∀ k c, enrollments s !! k = Some c → k ≠ ID id → ParentID (e_ID (Enr c)) ≠ ID id →
     enrollments s' !! k = Some c) ∧
  bootstrap s' !! ID id = None ∧ certs s' = dropped (ID id) (certs s) ∧
  (∀ k st, userAuth s' !! k = Some st → ParentID (ua_ID st) ≠ ID id).
Proof.
  intros Hu. cbv zeta. unfold resetAuthenticateLocked. rewrite Hu. cbn [negb].
  split_and!.
  - eexists. rewrite lookup_put_record, decide_True by done. split_and!; [done..| |done].
    repeat split. apply clear_queue_terminal.
  - intros k c Hc Hk Hp. rewrite lookup_put_record, decide_False by done.
    unfold clearUserAuthOfDeviceLocked, resetChildren, setf; cbn [enrollments dropCertLocked].
    rewrite lookup_fmap. change (enrollments (dropCertLocked (ID id) s)) with (enrollments s).
    rewrite Hc. cbn [fmap option_fmap option_map]. rewrite bool_decide_true by done.
    eexists. split_and!; [done..|]. repeat split. apply clear_queue_terminal.
  - intros k c Hc Hk Hp. rewrite lookup_put_record, decide_False by done.
    unfold clearUserAuthOfDeviceLocked, resetChildren, setf; cbn [enrollments dropCertLocked].
    rewrite lookup_fmap. change (enrollments (dropCertLocked (ID id) s)) with (enrollments s).
    rewrite Hc. cbn [fmap option_fmap option_map]. by rewrite bool_decide_false.
  - apply lookup_delete_eq.
  - done.
  - intros k st H. by apply map_lookup_filter_Some in H as [_ H].
Qed.

(** An authentication that resets: the reset, then the new pin. *)
Lemma AuthenticateEnrollment_effect s id c res s' :
  AuthenticateEnrollment s false id c = Ok (res, s') → ResetDone res = true →
  Validate id = Ok tt ∧ IsUser (IDChannel id) = false ∧
  (∀ r0, enrollments s !! ID id = Some r0 → e_ID (Enr r0) = id) ∧
  let s1 := resetAuthenticateLocked s (default noRecord (enrollments s !! ID id)) id
              (ac_Message c) (ac_Raw c) (ac_At c) in
  (∀ r1, enrollments s1 !! ID id = Some r1 →
     ∃ r', enrollments s' !! ID id = Some r' ∧ e_ID (Enr r') = e_ID (Enr r1) ∧
           (blank_row r1 → blank_row r') ∧
           (CertHash (Enr r1) = [] → CertHash (Enr r') = ac_Hash c)) ∧
  (∀ k, k ≠ ID id → enrollments s' !! k = enrollments s1 !! k) ∧
  bootstrap s' = bootstrap s1 ∧ userAuth s' = userAuth s1 ∧
  certs s' = (if bool_decide (ac_Hash c ≠ []) then <[ac_Hash c := id]> (certs s1) else certs s1).
Proof.
  unfold AuthenticateEnrollment. intros H Hres. go_binds H. destruct a; [go_binds H; done|].
  go_binds H. clear Hres. destruct (CheckAuthenticate_valid _ _ _ _ Hb0) as [Hv Hu].
  split; [done|]. split; [done|]. split.
  { intros r0 Hr0. rewrite Hr0 in Hb0. by eapply CheckAuthenticate_owner. }
  cbv zeta. set (s1 := resetAuthenticateLocked _ _ _ _ _ _). clearbody s1.
  case_bool_decide as Hne; [|split_and!; [|done..]; intros r1 Hr1; exists r1; by rewrite Hne].
  clear Hb1 Hb2. unfold recordAssociationLocked.
  match goal with |- context [if existsb ?p ?l then ?x else ?y] =>
    set (s2 := if existsb p l then x else y) end.
  assert (enrollments s2 = <[ID id := (default noRecord (enrollments s1 !! ID id))
      <| Enr := (Enr (default noRecord (enrollments s1 !! ID id))) <| CertHash := ac_Hash c |>
                  <| CertHashAt := ac_At c |> |>]> (enrollments s1)) as He by (unfold s2; by case_match).
  assert (bootstrap s2 = bootstrap s1 ∧ userAuth s2 = userAuth s1 ∧
          certs s2 = <[ac_Hash c := id]> (certs s1)) as (? & ? & ?) by (unfold s2; by case_match).
  clearbody s2. rewrite He. split_and!; [| |done..].
  - intros r1 Hr1. rewrite Hr1, lookup_insert_eq. by eexists.
  - intros k Hk. by rewrite lookup_insert_ne.
Qed.

Lemma UserAuth_gone s u c p :
  Validate u = Ok tt → ParentID u ≠ [] →
  enrollments s !! ID u = Some c → e_ID (Enr c) = u → DisabledAt (Enr c) = 0 →
  enrollments s !! ParentID u = Some p → DisabledAt (Enr p) = 0 →
  (∀ k st, userAuth s !! k = Some st → ParentID (ua_ID st) ≠ ParentID u) →
  UserAuth s u = Err ErrNotFound.
Proof.
  intros Hv Hp Hc Hci Hcd Hpr Hpd Hua.
  assert (IsUser (IDChannel u) = true) as Hu by (apply Validate_spec in Hv as (_ & _ & Hu); by apply Hu).
  unfold UserAuth, userAuthTargetLocked, disabled, time_is_zero. rewrite Hv, Hu, Hc, Hcd.
  cbn [negb reject mbind result_bind Z.eqb].
  destruct (userAuth s !! ID u) as [st|] eqn:Hst.
  - rewrite bool_decide_true; [done|]. intros <-. by apply (Hua _ _ Hst).
  - cbn [reject mbind result_bind]. unfold deviceRecordLocked. rewrite Hv, Hc, bool_decide_false by auto.
    unfold get. rewrite (Device_valid _ Hv).
    assert (ID (Device u) = ParentID u) as -> by (unfold Device; by rewrite Hu).
    rewrite Hpr. case_bool_decide; [done|]. cbn [mbind result_bind].
    by rewrite Hpd.
Qed.

(** Authenticating again leaves nothing behind: when a device authenticates with a
    certificate that is not its pinned one, its row and the rows of its user
    channels lose their tokens, push credentials, capabilities and open commands
    and wait for new tokens, the bootstrap token and the users' authentication state
    are gone, the only certificate that leads to the device is the new one, and the
    rows of other devices are untouched. *)
Theorem AuthenticateEnrollment_resets s id c res s' :
  WF s → AuthenticateEnrollment s false id c = Ok (res, s') → ResetDone res = true →
  (∃ r', enrollments s' !! ID id = Some r' ∧ e_ID (Enr r') = id ∧ blank_row r' ∧
         CertHash (Enr r') = ac_Hash c) ∧
  (∀ u e, Get s u = Ok e → ParentID u = ID id →
     (∃ c', enrollments s' !! ID u = Some c' ∧ e_ID (Enr c') = u ∧ blank_row c') ∧
     UserAuth s' u = Err ErrNotFound) ∧
  (∀ u e, Get s u = Ok e → u ≠ id → ParentID u ≠ ID id →
     enrollments s' !! ID u = enrollments s !! ID u) ∧
  BootstrapToken s' id = Err ErrNotFound ∧
  (∀ h, EnrollmentByCertHash s' h = Ok id → h = ac_Hash c).
Proof.
  intros Hw H Hres. destruct (AuthenticateEnrollment_effect _ _ _ _ _ H Hres)
    as (Hv & Hu & Ho & He & Hother & Hbt & Hua & Hc).
  destruct (reset_device s (default noRecord (enrollments s !! ID id)) id (ac_Message c) (ac_Raw c)
              (ac_At c) Hu) as ((r1 & Hr1 & Hi1 & Hbl1 & Hc1) & Hch & Hun & Hbs & Hcs & Hus).
  set (s1 := resetAuthenticateLocked _ _ _ _ _ _) in *. clearbody s1.
  destruct (He _ Hr1) as (r' & Hr' & Hi' & Hbl' & Hc'). rewrite Hi1 in Hi'.
  assert (Hne : ID id ≠ []) by (by apply Validate_spec in Hv as (_ & ? & _)).
  assert (Hdev : ParentID id = []).
  { apply Validate_spec in Hv as (_ & _ & Hv). destruct (ParentID id); [done|].
    rewrite Hu in Hv. assert (false = true) by (by apply Hv). done. }
  assert (∀ u e, Get s u = Ok e → u ≠ id → ID u ≠ ID id) as Hkey.
  { intros u e (r & _ & (_ & Hr & Hri)%get_inv)%Get_spec Hne' Heq. rewrite Heq in Hr.
    apply Ho in Hr. congruence. }
  split_and!.
  - eauto 10.
  - intros u e Hg Hp.
    assert (u ≠ id) as Hui by (intros ->; congruence).
    pose proof (Hkey _ _ Hg Hui) as Hk. apply Get_spec in Hg as (r & _ & (Hvu & Hr & Hri)%get_inv).
    destruct (Hch (ID u) r Hr Hk) as (c' & Hc'' & Hic & Hbc); [by rewrite Hri|].
    rewrite <-(Hother _ Hk) in Hc''. rewrite Hri in Hic. split; [eauto|].
    eapply (UserAuth_gone s' u c' r'); [done|by rewrite Hp|done|done|apply Hbc|by rewrite Hp|by apply Hbl'|].
    intros k st. rewrite Hua, Hp. apply Hus.
  - intros u e Hg Hui Hp. pose proof (Hkey _ _ Hg Hui) as Hk.
    apply Get_spec in Hg as (r & _ & (Hvu & Hr & Hri)%get_inv). rewrite Hother, Hr by done.
    apply Hun; [done..|]. by rewrite Hri.
  - unfold BootstrapToken, deviceRecordLocked. rewrite Hv, Hr'. rewrite bool_decide_false by auto.
    rewrite (Device_of_device _ Hu). unfold get. rewrite Hv, Hr', bool_decide_false by auto.
    cbn [mbind result_bind]. unfold disabled, time_is_zero.
    destruct (Hbl' Hbl1) as (_ & -> & _). by rewrite Hbt, Hbs.
  - intros h. unfold EnrollmentByCertHash. rewrite Hc, Hcs.
    assert (dropped (ID id) (certs s) !! h ≠ Some id) as Hd by (rewrite dropped_Some; naive_solver).
    case_bool_decide.
    + destruct (decide (h = ac_Hash c)) as [|Hh]; [done|]. rewrite lookup_insert_ne by done.
      by destruct (dropped _ _ !! h); intros; simplify_eq.
    + by destruct (dropped _ _ !! h); intros; simplify_eq.
Qed.

(** ** Disabling *)

(** The row of a disabled device, and the rows of its user channels. *)
Lemma Disable_rows s id at_ v s' u e :
  Disable s id at_ = Ok (v, s') → IsUser (IDChannel id) = false →
  u = id ∨ ParentID u = ID id → Get s u = Ok e →
  Validate u = Ok tt ∧
  ∃ r, enrollments s' !! ID u = Some r ∧ e_ID (Enr r) = u ∧ Enabled (Enr r) = false ∧
       DisabledAt (Enr r) = at_ ∧ Forall (λ q, Terminal (qState q) = true) (queue r).
Proof.
  unfold Disable. intros H Hu Hid (r & _ & (Hv & Hr & Hi)%get_inv)%Get_spec. split; [done|].
  go_binds H. rewrite Hu. cbn [negb]. rename a into r0.
  apply get_inv in Hb as (Hv0 & Hr0 & Hi0).
  unfold disableChildrenLocked, setf; cbn [enrollments]. rewrite lookup_fmap, lookup_put_record.
  destruct Hid as [->|Hp].
  - rewrite decide_True by done. cbn. eexists; split; [done|].
    rewrite Hi0. case_bool_decide; cbn; split_and!; try done; repeat apply clear_queue_terminal.
  - rewrite decide_False.
    + rewrite Hr. cbn. rewrite bool_decide_true by done. eexists; split; [done|]. cbn.
      split_and!; try done. apply clear_queue_terminal.
    + intros He. rewrite He, Hr in Hr0. injection Hr0 as ->.
      apply Validate_spec in Hv as (_ & Hne & Hv).
      assert (IsUser (IDChannel (e_ID (Enr r0))) = true); [|congruence].
      apply Hv. by rewrite Hp, He.
Qed.

(** C28 Disabling a device stops it at once, and its user channels with it: every open
    command of theirs is cleared, nothing more is delivered or queued to them, no
    result is accepted, and (for a real time stamp) a token update cannot enable
    them again without a new authentication. *)
Theorem Disable_stops {PD : PlistDecoder} s id at_ v s' u e :
  Disable s id at_ = Ok (v, s') → IsUser (IDChannel id) = false →
  u = id ∨ ParentID u = ID id → Get s u = Ok e →
  Forall (λ q, Terminal (qState q) = true) (queue_at s' (ID u)) ∧
  (∀ skip now, Next s' u skip now = Err ErrDisabled) ∧
  (∀ resp now, IsIdle resp = false → rsp_CommandUUID resp ≠ [] →
     StoreResult s' u (Some resp) now = Err ErrDisabled) ∧
  (∀ cmd o now res, enqueue_one cmd o now (s', res) u =
     (s', mkEnqueueResult (Queued res) (<[u := ErrDisabled]> (Skipped res)))) ∧
  (at_ ≠ 0 → ∀ push msg raw now, Push_Valid push = true →
     StoreTokenUpdate s' u push msg raw now = Err ErrDisabled).
Proof.
  intros H Hu Hid Hg. destruct (Disable_rows _ _ _ _ _ _ _ H Hu Hid Hg) as (Hv & r & Hr & Hi & He & Hd & Hq).
  assert (get s' u = Ok r) as Hget by (by apply get_spec).
  assert (activeRecord s' u = Err ErrDisabled) as Ha.
  { unfold activeRecord. rewrite Hget. cbn. by rewrite He. }
  split_and!.
  - by erewrite queue_at_Some.
  - intros. unfold Next. by rewrite Ha.
  - intros resp now Hidle Huu. unfold StoreResult. rewrite Hidle, bool_decide_false by done.
    cbn. by rewrite Ha.
  - intros. unfold enqueue_one. by rewrite Ha.
  - intros Hat push msg raw now Hp. unfold StoreTokenUpdate. rewrite Hp. cbn [negb reject mbind result_bind].
    rewrite Hget. cbn [mbind result_bind]. unfold disabled, time_is_zero.
    by rewrite Hd, (proj2 (Z.eqb_neq at_ 0)).
Qed.
