(* ===== verification/InMemSamples.v ===== *)
(** * A concrete run of the store

    One device with a user channel, authenticated, enabled, with commands queued,
    delivered and answered. The theorems of the store are applied to it. *)
From S2P Require Import Prelude GoStrings Mdm Storage Replacement InMem InMemQueue InMemDelivery InMemRegistry InMemSafety.

#[local] Instance no_decoder : PlistDecoder := {|
  unmarshal_head _ := None; response_known _ := false; unmarshal_payload _ _ := None |}.
#[local] Instance no_pushcert : PushCertParser := {|
  pushcert_Parse _ _ := None; pushcert_Validate _ _ _ _ := false; pushcert_PEM _ := None |}.

Definition devA : EnrollmentID := mkID ChannelDevice (bs "A") [].
Definition usrA : EnrollmentID := mkID ChannelUser (bs "A:501") (bs "A").
Definition pushA : Push := mkPush (bs "topic") (bs "token") (bs "magic").
Definition cmdA (n : string) : Command := mkCommand (bs n) (bs "DeviceInformation") None [].
Definition authA (old new : bytes) (at_ : Time) : AuthenticateChange :=
  mkAuthChange old new false false None (bs "raw") at_.

Definition opsA : list op :=
  [DoAuthenticateEnrollment false devA (authA [] (bs "h1") 10);
   DoStoreTokenUpdate devA pushA None (bs "tu") 20;
   DoStoreUserAuthChallenge usrA (bs "nonce") (bs "raw") 25;
   DoStoreTokenUpdate usrA pushA None (bs "tu") 30;
   DoStoreBootstrapToken devA (bs "bst") 31;
   DoEnqueue [devA; usrA] (Some (cmdA "C1")) (mkEnqueueOptions (bs "inventory") 40) 0;
   DoEnqueue [devA] (Some (cmdA "C2")) (mkEnqueueOptions [] 41) 0;
   DoNext devA false 50;
   DoStoreResult devA (Some (ack_of (cmdA "C1"))) 60].
Definition storeA : Store := run New opsA.

Lemma opsA_ok : Forall op_ok opsA.
Proof. by repeat constructor. Qed.

Lemma storeA_wf : WF storeA.
Proof. apply run_wf; [apply WF_New | apply opsA_ok]. Qed.

Definition rowA : record := default noRecord (enrollments storeA !! ID devA).

Lemma finished_commands_final_witness :
  ∃ q, queue_at storeA (bs "A") !! 0%nat = Some q ∧
       queue_at (run storeA [DoDisable devA 70; DoClear devA (mkClearFilter [] [] [] 0) 71])
         (bs "A") !! 0%nat = Some q.
Proof.
  destruct (queue_at storeA (bs "A") !! 0%nat) as [q|] eqn:H; [|vm_compute in H; discriminate H].
  exists q. split; [reflexivity|]. apply (finished_commands_final storeA _ _ _ _ H).
  vm_compute in H. injection H as <-. vm_compute. reflexivity.
Defined.

Lemma rowA_active : activeRecord storeA devA = Ok rowA.
Proof. vm_compute. reflexivity. Qed.

Lemma Next_spec_witness : ∃ c s', Next storeA devA false 80 = Ok (Some c, s').
Proof.
  destruct (Next_spec storeA devA false 80 rowA rowA_active)
    as [(pre & q & post & _ & _ & _ & _ & H) | [H _]]; [eauto|].
  exfalso. apply Forall_lookup_1 with (i := 1%nat) (x := default (clear_entry 0 (mkQueued (cmdA "C2") StatePending [] 41 0 0 0 0 0 None)) (queue rowA !! 1%nat)) in H.
  - destruct H as [? _]; [apply ready_pending; vm_compute; reflexivity | discriminate].
  - vm_compute. reflexivity.
Defined.

Lemma drain_delivers_witness :
  ∃ s', drain devA 80 (S (length (queue rowA))) storeA = ([cmdA "C2"], s') ∧
        Next s' devA false 80 = Ok (None, s').
Proof.
  destruct (drain_delivers storeA devA 80 rowA rowA_active) as (s' & H1 & H2).
  - vm_compute queue. repeat apply Forall_cons_2; [..|apply Forall_nil_2]; (split; [vm_compute; discriminate|]);
      intros Ht; vm_compute in Ht; try discriminate Ht. apply ready_pending. vm_compute. reflexivity.
  - exists s'. split; [rewrite H1; vm_compute; reflexivity | exact H2].
Defined.

Lemma certificate_index_exact_witness :
  EnrollmentByCertHash (run New opsA) (bs "h1") = Ok devA ∧
  ∃ e, Get (run New opsA) devA = Ok e ∧ CertHash e = bs "h1".
Proof.
  assert (EnrollmentByCertHash (run New opsA) (bs "h1") = Ok devA) as H by (vm_compute; reflexivity).
  split; [exact H|]. exact (proj2 (proj1 (certificate_index_exact opsA (bs "h1") devA opsA_ok) H)).
Defined.

Lemma certificate_exclusive_witness :
  ∃ e, Get (run New opsA) devA = Ok e ∧ CertHash e ≠ [] ∧ IsUser (IDChannel devA) = false.
Proof.
  destruct (Get (run New opsA) devA) as [e|] eqn:H; [|vm_compute in H; discriminate H].
  assert (CertHash e ≠ []) as Hne by (vm_compute in H; injection H as <-; vm_compute; discriminate).
  exists e. split; [reflexivity|]. split; [exact Hne|].
  exact (proj2 (certificate_exclusive opsA devA devA e e opsA_ok H H eq_refl Hne)).
Defined.

Lemma AuthenticateEnrollment_resets_witness :
  ∃ res s', AuthenticateEnrollment storeA false devA (authA (bs "h1") (bs "h2") 90) = Ok (res, s') ∧
    BootstrapToken s' devA = Err ErrNotFound.
Proof.
  destruct (AuthenticateEnrollment storeA false devA (authA (bs "h1") (bs "h2") 90))
    as [[res s']|] eqn:H; [|vm_compute in H; discriminate H].
  assert (ResetDone res = true) as Hres by (vm_compute in H; injection H as <- _; reflexivity).
  exists res, s'. split; [reflexivity|].
  destruct (AuthenticateEnrollment_resets storeA devA _ res s' storeA_wf H Hres) as (_ & _ & _ & Hb & _).
  exact Hb.
Defined.

Lemma Disable_stops_witness :
  ∃ s', Disable storeA devA 95 = Ok (tt, s') ∧ ∀ skip now, Next s' usrA skip now = Err ErrDisabled.
Proof.
  destruct (Disable storeA devA 95) as [[[] s']|] eqn:H; [|vm_compute in H; discriminate H].
  destruct (Get storeA usrA) as [e|] eqn:He; [|vm_compute in He; discriminate He].
  exists s'. split; [reflexivity|].
  destruct (Disable_stops storeA devA 95 tt s' usrA e H) as (_ & Hn & _);
    [vm_compute; reflexivity | right; vm_compute; reflexivity | exact He | exact Hn].
Defined.

(** ** A complete replacement, and why an imported pin needs its history

    The handshake of [Replacement] on the store: the commit moves the pin. *)
Definition attemptA : Replacement :=
  mkReplacement [] 0 [] (bs "R1") (bs "acme") (bs "h1") [] [] [] ReplacementPending
    1000 0 (mkCommand (bs "R1") (bs "InstallProfile") None (bs "profile"))
    false false false [] [].
Definition tokenA : ReplacementToken :=
  mkRToken devA (Some (mkTokenUpdate false [] (bs "topic") (bs "A") [] [] None None []
    (bs "tok") (bs "magic") [] None)) (bs "raw").
Definition replaceA (new : bytes) : list op :=
  (λ c, DoTransitionReplacement false devA c) <$>
  [with_op OpBegin [] None (Some attemptA) None;
   with_op OpIssue new None None None;
   with_op OpDeliver (bs "h1") None None None;
   with_op OpAuthenticate new None None None;
   with_op OpResult (bs "h1") None None (Some ack1);
   with_op OpToken new (Some tokenA) None None].

Example replacement_moves_pin :
  let s := run storeA (replaceA (bs "h2")) in
  EnrollmentByCertHash s (bs "h2") = Ok devA ∧ EnrollmentByCertHash s (bs "h1") = Err ErrNotFound.
Proof. vm_compute. split; reflexivity. Qed.

Definition devB : EnrollmentID := mkID ChannelDevice (bs "B") [].

(** [Import] accepts a pinned certificate without a history row, and the replacement
    check only looks at the history: the certificate is then pinned by two devices. *)
Example import_without_history_shares_certificate :
  let importB := DoImport (mkExport (noEnrollment <| e_ID := devB |> <| CertHash := bs "h2" |>) [] []) in
  let s := run storeA (importB :: replaceA (bs "h2")) in
  CertHashOf s devA = Ok (bs "h2") ∧ CertHashOf s devB = Ok (bs "h2").
Proof. vm_compute. split; reflexivity. Qed.
