(* ===== verification/InMemPaging.v ===== *)
(** * Paging

    [List] serves pages of a sorted key list by the last key of the previous page;
    following the cursors visits every match once, in order, and ends. [Commands]
    serves pages of the queue by offset; the page arithmetic never leaves the slice
    unless offset and limit overflow an [int]. *)
From S2P Require Import Prelude GoStrings Mdm Storage Replacement InMem InMemQueue InMemDelivery InMemRegistry InMemSafety InMemSamples.

(** ** Following the cursors of [List] *)

(** The enrollments a query selects, in key order. *)
Definition matching_ids (s : Store) (q : EnrollmentQuery) : list bytes :=
  sort_strings (map_to_list (filter (λ '(id, r), list_matches q (mkPage [] 0) id r = true)
                               (enrollments s))).*1.
Definition matching (s : Store) (q : EnrollmentQuery) : list Enrollment :=
  omap (λ id, Enr <$> enrollments s !! id) (matching_ids s q).

(** A client that asks for page after page. *)
Fixpoint follow (fuel : nat) (s : Store) (q : EnrollmentQuery) (limit : Z) (cursor : bytes)
  : option (list Enrollment) :=
  match fuel with
  | O => None
  | S fuel =>
      let r := List s q (mkPage cursor limit) in
      if bool_decide (NextCursor r = []) then Some (Items r)
      else (λ l, Items r ++ l) <$> follow fuel s q limit (NextCursor r)
  end.

Lemma matching_ids_nodup s q : NoDup (matching_ids s q).
Proof. unfold matching_ids. rewrite sort_strings_perm. apply NoDup_fst_map_to_list. Qed.
Lemma matching_ids_sorted s q : StronglySorted bytes_le (matching_ids s q).
Proof. apply sort_strings_sorted. Qed.

Lemma list_matches_cursor q c l id r :
  list_matches q (mkPage c l) id r =
  list_matches q (mkPage [] 0) id r && negb (bool_decide (c ≠ []) && bytes_leb id c).
Proof.
  unfold list_matches; cbn [Cursor]. rewrite (bool_decide_false ([] ≠ [])) by auto.
  cbn [andb negb]. by rewrite andb_true_r.
Qed.

(** The ids of a page's query: those of the whole query after the cursor. *)
Lemma page_ids s q c l :
  sort_strings (map_to_list (filter (λ '(id, r), list_matches q (mkPage c l) id r = true)
                               (enrollments s))).*1 =
  filter (λ k, c = [] ∨ bytes_ltb c k = true) (matching_ids s q).
Proof.
  apply sort_strings_unique; [|apply filter_sorted, matching_ids_sorted].
  apply NoDup_Permutation.
  - apply NoDup_fst_map_to_list.
  - apply NoDup_filter, matching_ids_nodup.
  - intros k. rewrite list_elem_of_filter. unfold matching_ids. rewrite sort_strings_perm.
    rewrite !list_elem_of_fmap. split.
    + intros ([k' r] & -> & Hr). apply elem_of_map_to_list, map_lookup_filter_Some in Hr as [Hr Hm].
      rewrite list_matches_cursor in Hm. apply andb_true_iff in Hm as [Hm Hc]. cbn. split.
      * destruct (decide (c = [])); [by left|right]. rewrite bool_decide_true in Hc by done.
        cbn in Hc. unfold bytes_leb in Hc. by rewrite negb_involutive in Hc.
      * exists (k', r). split; [done|]. by apply elem_of_map_to_list, map_lookup_filter_Some.
    + intros [Hc ([k' r] & -> & Hr)]. apply elem_of_map_to_list, map_lookup_filter_Some in Hr as [Hr Hm].
      exists (k', r). split; [done|]. apply elem_of_map_to_list, map_lookup_filter_Some.
      split; [done|]. rewrite list_matches_cursor, Hm. cbn in *.
      destruct Hc as [->|Hc]; [by rewrite bool_decide_false by auto|].
      unfold bytes_leb. by rewrite Hc, andb_false_r.
Qed.

Lemma List_page s q c limit :
  let rest := filter (λ k, c = [] ∨ bytes_ltb c k = true) (matching_ids s q) in
  List s q (mkPage c limit) =
  let '(page, next) := page_of limit rest in
  mkPageResult (omap (λ id, Enr <$> enrollments s !! id) page) next.
Proof. unfold List. by rewrite page_ids. Qed.

(** The effective page size. *)
Definition page_size (limit : Z) : Z := if limit <=? 0 then DefaultPageSize else limit.
Lemma page_size_pos limit : 0 < page_size limit.
Proof. unfold page_size, DefaultPageSize. destruct (Z.leb_spec limit 0); lia. Qed.

Lemma page_of_spec limit l :
  (∃ pre k rest, l = (pre ++ [k]) ++ rest ∧ rest ≠ [] ∧ page_of limit l = (pre ++ [k], k)) ∨
  page_of limit l = (l, []).
Proof.
  unfold page_of. fold (page_size limit). pose proof (page_size_pos limit).
  destruct (Z.ltb_spec (page_size limit) (Z.of_nat (length l))); [left|by right].
  set (n := Z.to_nat (page_size limit)).
  destruct (take n l) as [|x t _] eqn:Ht using rev_ind.
  - apply (f_equal length) in Ht. rewrite length_take in Ht. cbn in Ht. lia.
  - exists t, x, (drop n l). rewrite <-Ht, take_drop. split_and!; [done| |].
    + intros Hd. apply (f_equal length) in Hd. rewrite length_drop in Hd. cbn in Hd. lia.
    + by rewrite Ht, last_snoc.
Qed.

Lemma follow_spec s q limit : (∀ k, k ∈ matching_ids s q → k ≠ []) →
  ∀ fuel done c rest, matching_ids s q = done ++ rest →
  (done = [] ∧ c = [] ∨ ∃ pre, done = pre ++ [c] ∧ c ≠ []) → (length rest < fuel)%nat →
  follow fuel s q limit c = Some (omap (λ id, Enr <$> enrollments s !! id) rest).
Proof.
  intros Hne fuel. induction fuel as [|fuel IH]; intros dn c rest Hids Hc Hf; [lia|].
  assert (filter (λ k, c = [] ∨ bytes_ltb c k = true) (matching_ids s q) = rest) as Hrest.
  { destruct Hc as [[-> ->]|(pre & -> & Hc)].
    - rewrite Hids, app_nil_l. apply filter_all, Forall_forall. by left.
    - rewrite (list_filter_iff _ (λ k, bytes_ltb c k = true)) by naive_solver.
      pose proof (matching_ids_sorted s q) as Hs. pose proof (matching_ids_nodup s q) as Hn.
      rewrite Hids, <-app_assoc in *. by apply filter_after_key. }
  cbn [follow]. rewrite List_page, Hrest.
  destruct (page_of_spec limit rest) as [(pre & k & rest' & Heq & Hne' & Hp)|Hp]; rewrite Hp.
  - cbn [NextCursor Items].
    assert (k ≠ []) as Hk by (apply Hne; rewrite Hids, Heq; set_solver).
    rewrite bool_decide_false by done.
    rewrite (IH (dn ++ pre ++ [k]) k rest').
    + cbn [fmap option_fmap option_map]. by rewrite Heq, (omap_app _ (pre ++ [k])).
    + by rewrite Hids, Heq, <-!app_assoc.
    + right. exists (dn ++ pre). by rewrite app_assoc.
    + rewrite Heq in Hf. rewrite !length_app in Hf. cbn in Hf. lia.
  - cbn [NextCursor Items]. by rewrite bool_decide_true.
Qed.

(** Following the cursors of a listing visits exactly the enrollments the query
    selects, each once, in the order of their ids, whatever the page size, and
    ends. *)
Theorem List_follow_complete s q limit :
  registry_ok s →
  follow (S (size (enrollments s))) s q limit [] = Some (matching s q) ∧
  StronglySorted bytes_le (matching_ids s q) ∧ NoDup (matching_ids s q) ∧
  (∀ id, id ∈ matching_ids s q ↔
     ∃ r, enrollments s !! id = Some r ∧ list_matches q (mkPage [] 0) id r = true).
Proof.
  intros Hw.
  assert (∀ id, id ∈ matching_ids s q ↔
     ∃ r, enrollments s !! id = Some r ∧ list_matches q (mkPage [] 0) id r = true) as Hin.
  { intros id. unfold matching_ids. rewrite sort_strings_perm, list_elem_of_fmap. split.
    - intros ([k r] & -> & [? ?]%elem_of_map_to_list%map_lookup_filter_Some). eauto.
    - intros (r & ? & ?). exists (id, r). split; [done|].
      by apply elem_of_map_to_list, map_lookup_filter_Some. }
  split_and!; [|apply matching_ids_sorted|apply matching_ids_nodup|done].
  apply (follow_spec s q limit) with (done := []); [|done|by left|].
  - intros k (r & Hr & _)%Hin. apply ids_lookup in Hr.
    destruct (pw_key _ _ _ Hw _ _ _ Hr) as [<- (_ & ? & _)%Validate_spec]. done.
  - unfold matching_ids. rewrite sort_strings_perm, length_fmap, length_map_to_list.
    apply Nat.lt_succ_r, map_subseteq_size, map_filter_subseteq.
Qed.

Lemma List_follow_complete_witness :
  follow 3 storeA (mkEnrollmentQuery ChannelUnknown None [] []) 1 [] =
  Some (matching storeA (mkEnrollmentQuery ChannelUnknown None [] [])).
Proof.
  apply (List_follow_complete storeA (mkEnrollmentQuery ChannelUnknown None [] []) 1).
  apply storeA_wf.
Defined.

(** ** Offset pages of [Commands] *)

Lemma wrap64_id z : min_int64 ≤ z ≤ max_int64 → wrap64 z = z.
Proof. unfold wrap64, min_int64, max_int64. intros. rewrite Z.mod_small; lia. Qed.

Lemma commands_page_spec offset limit ms :
  0 ≤ offset ≤ max_int64 → limit ≤ max_int64 - Z.of_nat (length ms) →
  Z.of_nat (length ms) + DefaultPageSize ≤ max_int64 →
  commands_page offset limit ms =
  Ok (mkPageResult (take (Z.to_nat (page_size limit)) (drop (Z.to_nat offset) ms))
        (if offset + page_size limit <? Z.of_nat (length ms)
         then itoa (offset + page_size limit) else [])).
Proof.
  intros Ho Hl Hn. unfold commands_page. fold (page_size limit). pose proof (page_size_pos limit).
  assert (page_size limit ≤ max_int64 - Z.of_nat (length ms)) as Hps.
  { unfold page_size. destruct (Z.leb_spec limit 0); lia. }
  destruct (Z.leb_spec (Z.of_nat (length ms)) offset) as [Hle|Hlt].
  - rewrite drop_ge, take_nil by lia. by rewrite (proj2 (Z.ltb_ge _ _)) by lia.
  - rewrite wrap64_id by (unfold min_int64 in *; lia).
    rewrite (proj2 (Z.ltb_ge (Z.min _ _) offset)) by lia.
    destruct (Z.ltb_spec (offset + page_size limit) (Z.of_nat (length ms))) as [Hm|Hm].
    + rewrite Z.min_l by lia. rewrite (proj2 (Z.ltb_lt _ _)) by lia. do 3 f_equal. lia.
    + rewrite Z.min_r, Z.ltb_irrefl by lia. do 2 f_equal.
      rewrite !take_ge; [done| |]; rewrite length_drop; lia.
Qed.

(** A page of the command history is the requested window of the matching commands,
    newest first, with the next offset as cursor, for every cursor the listing hands
    out and every limit for which offset and limit fit an int. *)
Theorem Commands_window s id q r n limit :
  get s id = Ok r → 0 ≤ n ≤ max_int64 →
  let ms := filter (λ c, command_matches q c = true) (reverse (queue r)) in
  limit ≤ max_int64 - Z.of_nat (length ms) → Z.of_nat (length ms) + DefaultPageSize ≤ max_int64 →
  Commands s id q (mkPage (itoa n) limit) =
  Ok (mkPageResult (take (Z.to_nat (page_size limit)) (drop (Z.to_nat n) ms))
        (if n + page_size limit <? Z.of_nat (length ms) then itoa (n + page_size limit) else [])) ∧
  (n = 0 → Commands s id q (mkPage [] limit) = Commands s id q (mkPage (itoa n) limit)).
Proof.
  intros Hg Hn ms Hl Hlen. unfold Commands. rewrite Hg. fold ms. cbn [Cursor Limit].
  destruct (itoa_spec n) as (Hne & _); [lia|].
  rewrite (bool_decide_true (itoa n ≠ [])), (bool_decide_false ([] ≠ [])) by auto.
  rewrite atoi_itoa, (proj2 (Z.ltb_ge n 0)) by lia. cbn [mbind result_bind].
  split; [by apply commands_page_spec | by intros ->].
Qed.

Lemma Commands_window_witness :
  Commands storeA devA (mkCommandQuery [] []) (mkPage (itoa 1) 1) =
  Ok (mkPageResult (take 1 (drop 1 (filter (λ c, command_matches (mkCommandQuery [] []) c = true)
                                      (reverse (queue rowA))))) []).
Proof.
  apply (Commands_window storeA devA (mkCommandQuery [] []) rowA 1 1);
    [vm_compute; reflexivity | vm_compute; split; discriminate | vm_compute; discriminate
    | vm_compute; discriminate].
Defined.

(** The bound is needed: with the largest [int] as limit and a cursor past the first
    command, the end of the window wraps to a negative number and the slice
    expression panics. *)
Example Commands_overflow_panics :
  Commands storeA devA (mkCommandQuery [] []) (mkPage (bs "1") max_int64) = Err CPanic.
Proof. vm_compute. reflexivity. Qed.
