(* ===== verification/RateLimit.v ===== *)
(** * Rate limiting: [devicemanagement/ratelimit]

    Admission control over the shared store: every bucket keeps the theoretical
    arrival time of its next request (the generic cell rate algorithm), and a check
    consumes all of its buckets or none. The limiter is a client of the [TxStore]
    contract, so its theorems hold for every store that meets it. *)
From S2P Require Import Prelude GoStrings StateStore Sha256.

(** [ErrUnavailable] wraps the store's or the callback's error. *)
(* @src devicemanagement/ratelimit/ratelimit.go 16-20 errors *)
Inductive rerr := RInvalid | RUnavailable (e : terr).
Definition ErrCapacity : terr := TFail (bs "ratelimit: state capacity reached").

(* @src devicemanagement/ratelimit/ratelimit.go - Bucket *)
Record Bucket := mkBucket { bKey : bytes; Interval : Z; Burst : Z }.
#[export] Instance Bucket_eq_dec : EqDecision Bucket.
Proof. solve_decision. Defined.

(* @src devicemanagement/ratelimit/ratelimit.go - Bucket.Validate *)
Definition Bucket_Validate (b : Bucket) : bool :=
  negb (bool_decide (bKey b = []) || (Interval b <? Microsecond)
        || negb (Z.rem (Interval b) Microsecond =? 0) || (24 * Hour <? Interval b)
        || (Burst b <? 1) || (1000000 <? Burst b)
        || (Z.quot (30 * (24 * Hour)) (Interval b) <? Burst b)).

(* @src devicemanagement/ratelimit/ratelimit.go - Decision *)
Record Decision := mkDecision { Allowed : bool; RetryAfter : Z }.

(* @src devicemanagement/ratelimit/ratelimit.go - Limiter *)
Record Limiter := mkLimiter { MaxEntries : Z; Namespace : bytes }.

(* @src devicemanagement/ratelimit/ratelimit.go 63-63 key *)
Definition key (s : bytes) : bytes := hex_EncodeToString (Sum256 s).

(** ** Time on the wire *)

(** The Unix epoch as a [Time]. *)
Definition unix_epoch : Time := 62135596800 * Second.
Definition UnixMicro (t : Time) : Z := (t - unix_epoch) / 1000.
Definition from_UnixMicro (us : Z) : Time := unix_epoch + us * 1000.
Definition Truncate_us (t : Time) : Time := t - t mod 1000.
(** [Time.Sub] saturates at the range of a [Duration]. *)
Definition time_sub (a b : Time) : Z := Z.max min_int64 (Z.min max_int64 (a - b)).

(** ** The callback *)

(** The arrival time stored for a bucket. *)
(* @src devicemanagement/ratelimit/ratelimit.go 106-113 Limiter.Check *)
Definition decode_tat (v : bytes) : result terr Time :=
  if negb (Z.of_nat (length v) =? 8) then Err (TFail (bs "ratelimit: corrupt state"))
  else if max_int64 <? get_be v then Err (TFail (bs "ratelimit: corrupt timestamp"))
  else Ok (from_UnixMicro (get_be v)).

(** The decision after one bucket, and the record that would be written. *)
(* @src devicemanagement/ratelimit/ratelimit.go 115-119 Limiter.Check *)
Definition bucket_decide (now : Time) (b : Bucket) (tat : Time) (d : Decision) : Decision :=
  let allowAt := tat + - (Burst b - 1) * Interval b in
  if now <? allowAt then mkDecision false (Z.max (RetryAfter d) (time_sub allowAt now)) else d.

(* @src devicemanagement/ratelimit/ratelimit.go 120-126 Limiter.Check *)
Definition bucket_record (now : Time) (k : bytes) (b : Bucket) (tat : Time) : Rec :=
  let tat := if tat <? now then now else tat in
  let next := tat + Interval b in
  mkRec k (put_be 8 (UnixMicro next)) next.

(** The loop over the buckets: [kbs] are the buckets left with their keys. *)
(* @src devicemanagement/ratelimit/ratelimit.go 97-127 Limiter.Check *)
Fixpoint gather (now : Time) (kbs : list (bytes * Bucket)) (d : Decision) (newKeys : Z)
  (pending : list Rec) (k : Decision → Z → list Rec → txprog (result terr Decision))
  : txprog (result terr Decision) :=
  match kbs with
  | [] => k d newKeys pending
  | (key, b) :: kbs' =>
      TGet key (λ r,
        match r with
        | Err TNotFound =>
            gather now kbs' (bucket_decide now b now d) (newKeys + 1)
              (pending ++ [bucket_record now key b now]) k
        | Err e => Return (Err e)
        | Ok r =>
            match decode_tat (Value r) with
            | Err e => Return (Err e)
            | Ok tat =>
                gather now kbs' (bucket_decide now b tat d) newKeys
                  (pending ++ [bucket_record now key b tat]) k
            end
        end)
  end.

(** Deleting the expired buckets that this check does not use; [live] counts the
    rest. *)
(* @src devicemanagement/ratelimit/ratelimit.go 138-147 Limiter.Check *)
Fixpoint reclaim (now : Time) (seen : list bytes) (rs : list Rec) (live : Z)
  (k : Z → txprog (result terr Decision)) : txprog (result terr Decision) :=
  match rs with
  | [] => k live
  | r :: rs' =>
      if expired now r && negb (bool_decide (Key r ∈ seen)) then
        TDelete (Key r) (λ x,
          match x with Err e => Return (Err e) | Ok _ => reclaim now seen rs' live k end)
      else reclaim now seen rs' (live + 1) k
  end.

(* @src devicemanagement/ratelimit/ratelimit.go 152-157 Limiter.Check *)
Fixpoint put_all (rs : list Rec) (d : Decision) : txprog (result terr Decision) :=
  match rs with
  | [] => Return (Ok d)
  | r :: rs' => TPut r (λ x, match x with Err e => Return (Err e) | Ok _ => put_all rs' d end)
  end.

(* @src devicemanagement/ratelimit/ratelimit.go 93-158 Limiter.Check *)
Definition check_prog (prefix : bytes) (limit : Z) (kbs : list (bytes * Bucket))
  : txprog (result terr Decision) :=
  Now (λ clock,
    let now := Truncate_us clock in
    gather now kbs (mkDecision true 0) 0 [] (λ d newKeys pending,
      if negb (Allowed d) then Return (Ok d)
      else if 0 <? newKeys then
        TList prefix [] limit (λ r,
          match r with
          | Err e => Return (Err e)
          | Ok rs =>
              reclaim now kbs.*1 rs 0 (λ live,
                if limit <? live + newKeys then Return (Err ErrCapacity)
                else put_all pending d)
          end)
      else put_all pending d)).

(** The buckets with their storage keys, or [None] when one is invalid or repeated. *)
(* @src devicemanagement/ratelimit/ratelimit.go 80-91 Limiter.Check *)
Fixpoint bucket_keys (prefix : bytes) (seen : list bytes) (bs : list Bucket)
  : option (list (bytes * Bucket)) :=
  match bs with
  | [] => Some []
  | b :: bs' =>
      if negb (Bucket_Validate b) then None
      else
        let k := prefix ++ key (bKey b) in
        if bool_decide (k ∈ seen) then None
        else cons (k, b) <$> bucket_keys prefix (k :: seen) bs'
  end.

Definition rate_prefix (l : Limiter) : bytes := bs "rate/" ++ key (Namespace l) ++ bs "/".
Definition rate_limit (l : Limiter) : Z := if MaxEntries l =? 0 then 4096 else MaxEntries l.

(** [None] is a limiter whose store is nil. *)
(* @src devicemanagement/ratelimit/ratelimit.go - Limiter.Check *)
Definition Check {S} `{!TxStore S} (cancelled : nat → bool) (clock : Time) (l : Limiter)
  (buckets : list Bucket) (st : option S) : result rerr Decision * option S :=
  match st with
  | None => (Err RInvalid, st)
  | Some s =>
      if bool_decide (buckets = []) || (32 <? Z.of_nat (length buckets)) then (Err RInvalid, st)
      else if (rate_limit l <? 1) || (10000 <? rate_limit l) then (Err RInvalid, st)
      else
        let prefix := rate_prefix l in
        match bucket_keys prefix [] buckets with
        | None => (Err RInvalid, st)
        | Some kbs =>
            match store_update cancelled clock ((prefix ++ bs "capacity") :: kbs.*1)
                    (Some (check_prog prefix (rate_limit l) kbs)) s with
            | (Ok d, s') => (Ok d, Some s')
            | (Err e, s') => (Err (RUnavailable e), Some s')
            end
        end
  end.

(** ** What a successful callback did *)

(** The arrival time a check works with. *)
Definition tat_at (m : gmap bytes Rec) (now : Time) (k : bytes) : result terr Time :=
  match m !! k with None => Ok now | Some r => decode_tat (Value r) end.

Definition decide_all (now : Time) (kts : list (bytes * Bucket * Time)) (d : Decision) : Decision :=
  foldl (λ d '(_, b, t), bucket_decide now b t d) d kts.
Definition records_of (now : Time) (kts : list (bytes * Bucket * Time)) : list Rec :=
  (λ '(k, b, t), bucket_record now k b t) <$> kts.

Definition new_keys (m : gmap bytes Rec) (kbs : list (bytes * Bucket)) : Z :=
  Z.of_nat (length (filter (λ kb, m !! kb.1 = None) kbs)).

Section Callback.
Variable cancelled : nat → bool.
Variable clock : Time.
Abbreviation exec p s := (spec_exec cancelled clock p s).

Lemma gather_inv now kbs : ∀ d n pending k s d' s',
  exec (gather now kbs d n pending k) s = (Ok d', s') →
  ∃ ts s1, Forall2 (λ kb t, tat_at (smap s) now kb.1 = Ok t) kbs ts ∧ smap s1 = smap s ∧
    exec (k (decide_all now (zip kbs ts) d) (n + new_keys (smap s) kbs)
            (pending ++ records_of now (zip kbs ts))) s1 = (Ok d', s').
Proof.
  induction kbs as [|[key b] kbs IH]; intros d n pending k s d' s' H.
  { exists [], s. split_and!; [constructor|done|]. cbn in *. by rewrite Z.add_0_r, app_nil_r. }
  cbn [gather spec_exec] in H. unfold spec_get in H.
  destruct (cancelled (schecks s)); [done|]. destruct (negb (ValidKey key)); [done|].
  unfold new_keys. rewrite filter_cons.
  destruct (smap s !! key) as [r|] eqn:Hr.
  - destruct (decode_tat (Value r)) as [t|] eqn:Hd; [|done].
    apply IH in H as (ts & s1 & H1 & H2 & H3). exists (t :: ts), s1. cbn in H1, H2. split_and!.
    + constructor; [|done]. unfold tat_at; cbn. by rewrite Hr.
    + done.
    + rewrite decide_False by (cbn; congruence). cbn [zip zip_with records_of fmap].
      rewrite <-app_assoc in H3. exact H3.
  - apply IH in H as (ts & s1 & H1 & H2 & H3). exists (now :: ts), s1. cbn in H1, H2. split_and!.
    + constructor; [|done]. unfold tat_at; cbn. by rewrite Hr.
    + done.
    + rewrite decide_True by done. rewrite <-app_assoc in H3. cbn [smap] in H3.
      unfold new_keys in H3. cbn [length]. rewrite Nat2Z.inj_succ.
      replace (n + Z.succ _) with (n + 1 + Z.of_nat (length (filter (λ kb, smap s !! kb.1 = None) kbs)))
        by lia. exact H3.
Qed.

(** Records removed as expired. *)
Definition only_expired (now : Time) (m m' : gmap bytes Rec) : Prop :=
  m' ⊆ m ∧ ∀ k r, m !! k = Some r → m' !! k = None → expired now r = true.

Lemma only_expired_refl now m : only_expired now m m.
Proof. split; [done|]. congruence. Qed.
Lemma only_expired_trans now m1 m2 m3 :
  only_expired now m1 m2 → only_expired now m2 m3 → only_expired now m1 m3.
Proof.
  intros [S1 H1] [S2 H2]. split; [by etransitivity|]. intros k r Hk Hn.
  destruct (m2 !! k) as [r2|] eqn:Hk2; [|by eapply H1].
  pose proof (lookup_weaken _ _ _ _ Hk2 S1). simplify_eq. by eapply H2.
Qed.

Lemma reclaim_inv now seen rs : ∀ live k s d' s',
  keys_ok (smap s) → NoDup (Key <$> rs) →
  Forall (λ r, smap s !! Key r = Some r) rs →
  exec (reclaim now seen rs live k) s = (Ok d', s') →
  ∃ live' s1, only_expired now (smap s) (smap s1) ∧ keys_ok (smap s1) ∧
    (∀ x, x ∈ seen → smap s1 !! x = smap s !! x) ∧
    Z.of_nat (size (smap s)) - Z.of_nat (size (smap s1)) = Z.of_nat (length rs) - (live' - live) ∧
    exec (k live') s1 = (Ok d', s').
Proof.
  induction rs as [|r rs IH]; intros live k s d' s' Hk Hn Hrs H; cbn [reclaim] in H.
  { exists live, s. split_and!; [apply only_expired_refl|done|done|cbn; lia|done]. }
  cbn in Hn. apply NoDup_cons in Hn as [Hnr Hn]. apply Forall_cons in Hrs as [Hr Hrs].
  destruct (expired now r && negb (bool_decide (Key r ∈ seen))) eqn:Hc.
  - cbn [spec_exec] in H. unfold spec_write in H. destruct (cancelled _); [done|].
    destruct (negb (ValidKey (Key r))); [done|]. apply andb_true_iff in Hc as [He Hs]. bool_hyps.
    apply IH in H as (live' & s1 & H1 & H2 & H3 & H4 & H5); cbn [smap] in *.
    + exists live', s1. split_and!; [|done| | |done].
      * eapply only_expired_trans; [|exact H1]. split; [apply delete_subseteq|].
        intros k0 r0 Hk0 Hd. apply lookup_delete_None in Hd as [<-|?]; congruence.
      * intros x Hx. rewrite H3 by done. rewrite lookup_delete_ne; [done|]. by intros <-.
      * rewrite map_size_delete_Some in H4 by eauto. cbn [length].
        assert (size (smap s) ≠ 0%nat); [|lia].
        intros H0%map_size_empty_inv. by rewrite H0, lookup_empty in Hr.
    + intros k0 r0. rewrite lookup_delete_Some. intros [_ ?]; auto.
    + done.
    + apply Forall_forall. intros x Hx. rewrite Forall_forall in Hrs.
      rewrite lookup_delete_ne; [by apply Hrs|].
      intros Heq. apply Hnr. rewrite Heq. by apply list_elem_of_fmap_2.
  - apply IH in H as (live' & s1 & H1 & H2 & H3 & H4 & H5); [|done..].
    exists live', s1. split_and!; try done. cbn [length]. lia.
Qed.

Lemma put_all_inv rs d : ∀ s d' s',
  exec (put_all rs d) s = (Ok d', s') →
  d' = d ∧ smap s' = foldl (λ m r, <[Key r := r]> m) (smap s) rs.
Proof.
  induction rs as [|r rs IH]; intros s d' s' H; cbn [put_all spec_exec] in H; [by simplify_eq|].
  unfold spec_write in H. destruct (cancelled _); [done|]. destruct (negb (ValidKey (Key r))); [done|].
  by apply IH in H.
Qed.

Lemma spec_reads_inv ks : ∀ s rs s1,
  spec_reads cancelled ks s = (Ok rs, s1) → Forall2 (λ k r, smap s !! k = Some r) ks rs.
Proof.
  induction ks as [|k ks IH]; intros s rs s1 H; cbn [spec_reads] in H; [simplify_eq; constructor|].
  destruct (spec_get cancelled k s) as [[r|e] s'] eqn:Hg; [|done].
  destruct (spec_reads cancelled ks s') as [[rs'|e] s''] eqn:Hr; simplify_eq.
  unfold spec_get in Hg. injection Hg as Hg <-.
  destruct (cancelled _); [done|]. destruct (negb _); [done|].
  destruct (smap s !! k) eqn:Hk; simplify_eq. constructor; [done|]. by apply (IH _ _ _ Hr).
Qed.

Lemma keys_after_nodup pre aft m : NoDup (keys_after pre aft m).
Proof. unfold keys_after. rewrite sort_strings_perm. apply NoDup_filter, NoDup_fst_map_to_list. Qed.

(** The listing of a namespace: distinct records of the store, up to the limit. *)
Lemma spec_list_inv pre lim s rs s1 :
  keys_ok (smap s) → spec_list cancelled pre [] lim s = (Ok rs, s1) →
  smap s1 = smap s ∧ NoDup (Key <$> rs) ∧ Forall (λ r, smap s !! Key r = Some r) rs ∧
  Key <$> rs = take (Z.to_nat lim) (keys_after pre [] (smap s)).
Proof.
  intros Hk H. pose proof (spec_list_map cancelled pre [] lim s) as Hm. rewrite H in Hm.
  unfold spec_list in H. destruct (cancelled _); [done|]. destruct (_ || _); [done|].
  apply spec_reads_inv in H. cbn in H, Hm.
  assert (Key <$> rs = take (Z.to_nat lim) (keys_after pre [] (smap s)) ∧
          Forall (λ r, smap s !! Key r = Some r) rs) as [He Hf].
  { clear Hm. induction H as [|k r ks rs Hkr _ [IH1 IH2]]; [done|]. cbn.
    destruct (Hk _ _ Hkr) as [Hkey _]. rewrite IH1, Hkey. split; [done|]. constructor; [|done].
    by rewrite Hkey. }
  split_and!; [done| |done|done]. rewrite He.
  eapply sublist_NoDup; [apply keys_after_nodup|apply sublist_take].
Qed.

(** A granted check: every bucket conformed, expired records of other buckets may be
    gone, and each bucket's record holds its new arrival time. *)
Lemma check_prog_inv prefix limit kbs s d s' :
  keys_ok (smap s) →
  exec (check_prog prefix limit kbs) s = (Ok d, s') →
  let now := Truncate_us clock in
  ∃ ts, Forall2 (λ kb t, tat_at (smap s) now kb.1 = Ok t) kbs ts ∧
    d = decide_all now (zip kbs ts) (mkDecision true 0) ∧
    (Allowed d = false → smap s' = smap s) ∧
    (Allowed d = true → ∃ m1, only_expired now (smap s) m1 ∧
       (∀ x, x ∈ kbs.*1 → m1 !! x = smap s !! x) ∧
       smap s' = foldl (λ m r, <[Key r := r]> m) m1 (records_of now (zip kbs ts))).
Proof.
  intros Hk H. cbv zeta. set (now := Truncate_us clock). unfold check_prog in H. cbn [spec_exec] in H.
  apply gather_inv in H as (ts & s1 & Ht & Hs1 & H). fold now in H, Ht. exists ts.
  set (d0 := decide_all now (zip kbs ts) (mkDecision true 0)) in *. rewrite app_nil_l in H.
  split; [done|]. destruct (Allowed d0) eqn:Ha; cbn [negb] in H.
  2: { cbn in H. simplify_eq. split_and!; [done|done|congruence]. }
  assert (∃ s2, only_expired now (smap s) (smap s2) ∧
            (∀ x, x ∈ kbs.*1 → smap s2 !! x = smap s !! x) ∧
            exec (put_all (records_of now (zip kbs ts)) d0) s2 = (Ok d, s'))
    as (s2 & H1 & H2 & [-> H3]%put_all_inv).
  { destruct (0 <? _) in H.
    - cbn [spec_exec] in H. destruct (spec_list cancelled prefix [] limit s1) as [[rs|e] s2] eqn:Hl; [|done].
      apply spec_list_inv in Hl as (Hm & Hn & Hf & _); [|by rewrite Hs1].
      rewrite <-Hm in Hf. apply reclaim_inv in H as (live & s3 & H1 & H2 & H3 & _ & H4);
        [|by rewrite Hm, Hs1|done|done].
      destruct (_ <? _) in H4; [done|]. rewrite Hm, Hs1 in *. by exists s3.
    - exists s1. rewrite Hs1. split_and!; [apply only_expired_refl|done|done]. }
  split_and!; [done|congruence|]. intros _. by exists (smap s2).
Qed.
End Callback.

(** ** Decisions *)

Lemma Bucket_Validate_spec b :
  Bucket_Validate b = true →
  bKey b ≠ [] ∧ 1000 ≤ Interval b ∧ Interval b mod 1000 = 0 ∧ 1 ≤ Burst b ∧
  Burst b * Interval b ≤ 30 * (24 * Hour).
Proof.
  unfold Bucket_Validate, Microsecond. intros H. bool_hyps.
  rewrite Z.rem_mod_nonneg in * by lia. rewrite Z.quot_div_nonneg in * by (unfold Hour, Minute, Second; lia).
  split_and!; try done.
  pose proof (Z.mul_div_le (30 * (24 * Hour)) (Interval b)). nia.
Qed.

Lemma decide_all_allowed now kts d :
  Allowed (decide_all now kts d) = true ↔
  Allowed d = true ∧ Forall (λ '(_, b, t), t - (Burst b - 1) * Interval b ≤ now) kts.
Proof.
  revert d. induction kts as [|[[k b] t] kts IH]; intros d; cbn [decide_all foldl].
  { split; [by auto|by intros []]. }
  fold (decide_all now kts (bucket_decide now b t d)). rewrite IH, Forall_cons.
  unfold bucket_decide.
  destruct (Z.ltb_spec now (t + - (Burst b - 1) * Interval b)); cbn; intuition (lia || done).
Qed.

(** A time that fits the record is read back as it was written. *)
Lemma decode_encode t :
  unix_epoch ≤ t → (t - unix_epoch) mod 1000 = 0 → (t - unix_epoch) / 1000 ≤ max_int64 →
  decode_tat (put_be 8 (UnixMicro t)) = Ok t.
Proof.
  intros H1 H2 H3. unfold decode_tat. rewrite put_be_length, get_put_be. cbn [Z.of_nat Z.eqb negb].
  unfold UnixMicro, from_UnixMicro. pose proof (Z.div_pos (t - unix_epoch) 1000).
  rewrite Z.mod_small by (unfold max_int64 in *; cbn; lia).
  cbn [Pos.of_succ_nat Pos.succ Z.eqb Pos.eqb negb].
  rewrite (proj2 (Z.ltb_ge _ _)) by lia. f_equal.
  pose proof (Z.div_mod (t - unix_epoch) 1000). lia.
Qed.

Lemma Truncate_us_spec t :
  Truncate_us t ≤ t < Truncate_us t + 1000 ∧ Truncate_us t mod 1000 = 0.
Proof.
  unfold Truncate_us. pose proof (Z.mod_pos_bound t 1000). split; [lia|].
  rewrite Zminus_mod_idemp_r, Z.sub_diag. done.
Qed.

Lemma bucket_keys_spec prefix bs : ∀ seen kbs,
  bucket_keys prefix seen bs = Some kbs →
  kbs = (λ b, (prefix ++ key (bKey b), b)) <$> bs ∧ NoDup kbs.*1 ∧
  Forall (λ k, k ∉ seen) kbs.*1 ∧ Forall (λ b, Bucket_Validate b = true) bs.
Proof.
  induction bs as [|b bs IH]; intros seen kbs; cbn [bucket_keys].
  { intros [= <-]. split_and!; constructor. }
  destruct (Bucket_Validate b) eqn:Hv; [|done]. cbn [negb]. case_bool_decide as Hs; [done|].
  destruct (bucket_keys prefix _ bs) as [kbs'|] eqn:Hb; [|done]. intros [= <-].
  destruct (IH _ _ Hb) as (-> & H1 & H2 & H3). split_and!; [done| | |by constructor].
  - cbn. constructor; [|done]. intros Hin. rewrite Forall_forall in H2.
    apply (H2 _ Hin). by left.
  - cbn. constructor; [done|]. eapply Forall_impl; [exact H2|]. cbn. set_solver.
Qed.

(** Writing the records of distinct buckets. *)
Lemma foldl_insert_notin (rs : list Rec) (m : gmap bytes Rec) k :
  k ∉ Key <$> rs → foldl (λ m r, <[Key r := r]> m) m rs !! k = m !! k.
Proof.
  revert m. induction rs as [|r rs IH]; intros m Hk; [done|]. cbn in *.
  rewrite IH by set_solver. rewrite lookup_insert_ne; [done|]. set_solver.
Qed.
Lemma foldl_insert_in (rs : list Rec) (m : gmap bytes Rec) r :
  NoDup (Key <$> rs) → r ∈ rs → foldl (λ m r, <[Key r := r]> m) m rs !! Key r = Some r.
Proof.
  revert m. induction rs as [|r' rs IH]; intros m Hn Hr; [by apply elem_of_nil in Hr|].
  cbn in *. apply NoDup_cons in Hn as [Hk Hn]. apply elem_of_cons in Hr as [->|Hr]; [|by apply IH].
  by rewrite foldl_insert_notin, lookup_insert_eq.
Qed.

(** ** The outcome of a check *)

Section Outcome.
Context {S : Type} {ST : TxStore S}.

Lemma spec_update_inv {A} cancelled clock keys (fn : txprog (result terr A)) m r m' :
  spec_update cancelled clock keys (Some fn) m = (r, m') →
  (∃ e, r = Err e ∧ m' = m) ∨
  (∃ a s, r = Ok a ∧ spec_exec cancelled clock fn (mkSpec m 1) = (Ok a, s) ∧ m' = smap s).
Proof.
  unfold spec_update. destruct (_ || _); [naive_solver|]. destruct (cancelled 0%nat); [naive_solver|].
  destruct (spec_exec _ _ _ _) as [[a|e] s]; [|naive_solver].
  destruct (cancelled (schecks s)); naive_solver.
Qed.

(** Whatever the outcome, what a check leaves behind. *)
Lemma Check_inv cancelled clock l bs s r st :
  keys_ok (store_view s) →
  Check cancelled clock l bs (Some s) = (r, st) →
  ∃ s', st = Some s' ∧ keys_ok (store_view s') ∧
  match r with
  | Err _ => store_view s' = store_view s
  | Ok d => let now := Truncate_us clock in
      ∃ kbs ts, bucket_keys (rate_prefix l) [] bs = Some kbs ∧
        Forall2 (λ kb t, tat_at (store_view s) now kb.1 = Ok t) kbs ts ∧
        d = decide_all now (zip kbs ts) (mkDecision true 0) ∧
        (Allowed d = false → store_view s' = store_view s) ∧
        (Allowed d = true → ∃ m1, only_expired now (store_view s) m1 ∧
           (∀ x, x ∈ kbs.*1 → m1 !! x = store_view s !! x) ∧
           store_view s' = foldl (λ m r, <[Key r := r]> m) m1 (records_of now (zip kbs ts)))
  end.
Proof.
  intros Hk. unfold Check. destruct (_ || _); [intros; simplify_eq; by eauto|].
  destruct ((rate_limit l <? 1) || _); [intros; simplify_eq; by eauto|].
  destruct (bucket_keys (rate_prefix l) [] bs) as [kbs|] eqn:Hb; [|intros; simplify_eq; by eauto].
  set (keys := _ :: _). set (fn := Some _).
  pose proof (store_update_spec cancelled clock keys fn s) as Hs.
  pose proof (spec_update_keys_ok cancelled clock keys fn _ Hk) as Hk'.
  destruct (store_update cancelled clock keys fn s) as [r' s'].
  rewrite <-Hs in Hk'. cbn in Hk'. symmetry in Hs.
  apply spec_update_inv in Hs as [(e & -> & Hm)|(d & s1 & -> & Hx & Hm)];
    intros; simplify_eq; exists s'; split_and!; try done.
  cbv zeta. apply check_prog_inv in Hx as (ts & H1 & H2 & H3 & H4); [|done].
  exists kbs, ts. rewrite Hm. by split_and!.
Qed.

Lemma records_of_keys now kbs ts :
  length kbs = length ts → Key <$> records_of now (zip kbs ts) = kbs.*1.
Proof.
  intros Hl. unfold records_of. rewrite <-list_fmap_compose.
  replace (kbs.*1) with (fst <$> (fst <$> zip kbs ts)); [|by rewrite fst_zip by lia].
  rewrite <-list_fmap_compose. apply list_fmap_ext. by intros _ [[k b] t] _.
Qed.

(** The effect of a check on the store, by outcome. *)
Lemma Check_effect cancelled clock l bs s r st :
  keys_ok (store_view s) →
  Check cancelled clock l bs (Some s) = (r, st) →
  ∃ s', st = Some s' ∧
  match r with
  | Ok d =>
      if Allowed d then
        Forall (λ b, ∃ t, tat_at (store_view s) (Truncate_us clock) (rate_prefix l ++ key (bKey b)) = Ok t ∧
                  t - (Burst b - 1) * Interval b ≤ Truncate_us clock ∧
                  store_view s' !! (rate_prefix l ++ key (bKey b)) =
                  Some (bucket_record (Truncate_us clock) (rate_prefix l ++ key (bKey b)) b t)) bs ∧
        (∀ k, Forall (λ b, rate_prefix l ++ key (bKey b) ≠ k) bs →
           store_view s' !! k = store_view s !! k ∨
           (store_view s' !! k = None ∧
            ∀ x, store_view s !! k = Some x → expired (Truncate_us clock) x = true))
      else store_view s' = store_view s
  | Err _ => store_view s' = store_view s
  end.
Proof.
  intros Hk H. destruct (Check_inv _ _ _ _ _ _ _ Hk H) as (s' & -> & _ & Hr). exists s'.
  split; [done|]. destruct r as [d|e]; [|done].
  destruct Hr as (kbs & ts & Hb & Hts & Hd & Hno & Hyes). destruct (Allowed d) eqn:Ha; [|by apply Hno].
  destruct (Hyes eq_refl) as (m1 & [Hsub Hexp] & Hsame & Hfin).
  apply bucket_keys_spec in Hb as (Hkbs & Hn & _ & Hval).
  pose proof (Forall2_length _ _ _ Hts) as Hlen.
  rewrite Hd, decide_all_allowed in Ha. destruct Ha as [_ Ha].
  pose proof (records_of_keys (Truncate_us clock) kbs ts Hlen) as Hkeys. split.
  - apply Forall_forall. intros b Hbin.
    assert (∃ i, kbs !! i = Some (rate_prefix l ++ key (bKey b), b)) as [i Hi].
    { apply list_elem_of_lookup_1. rewrite Hkbs. apply list_elem_of_fmap. by exists b. }
    destruct (Forall2_lookup_l _ _ _ _ _ Hts Hi) as (t & Hti & Ht). exists t. cbn in Ht.
    assert (zip kbs ts !! i = Some ((rate_prefix l ++ key (bKey b), b), t)) as Hz.
    { rewrite lookup_zip_with, Hi. cbn. by rewrite Hti. }
    split_and!; [done|by apply (Forall_lookup_1 _ _ _ _ Ha Hz)|].
    rewrite Hfin. apply (foldl_insert_in _ _ (bucket_record (Truncate_us clock) (rate_prefix l ++ key (bKey b)) b t)).
    + by rewrite Hkeys.
    + unfold records_of. apply list_elem_of_fmap. eexists. split; [|by eapply list_elem_of_lookup_2].
      done.
  - intros k Hnk. assert (store_view s' !! k = m1 !! k) as ->.
    { rewrite Hfin. apply foldl_insert_notin. rewrite Hkeys, Hkbs.
      rewrite <-list_fmap_compose, list_elem_of_fmap. intros (b & -> & Hbin). cbn in Hnk.
      rewrite Forall_forall in Hnk. by apply (Hnk b Hbin). }
    destruct (m1 !! k) as [x|] eqn:Hm1.
    + left. symmetry. by apply (lookup_weaken _ _ _ _ Hm1 Hsub).
    + destruct (store_view s !! k) as [x|] eqn:Hx; [right|by left]. split; [done|].
      intros ? [= <-]. by eapply Hexp.
Qed.
(** C31 A check is all or nothing and leaves no trace when refused: an error or a
    refusal leaves the store as it was; an admission means that every bucket
    conformed to its quota at that moment and that every bucket was charged, its
    record moved one interval on, with nothing else changed but expired records. *)
Theorem Check_all_or_nothing cancelled clock l bs s r st :
  keys_ok (store_view s) →
  Check cancelled clock l bs (Some s) = (r, st) →
  ∃ s', st = Some s' ∧
  match r with
  | Ok d =>
      if Allowed d then
        Forall (λ b, ∃ t, tat_at (store_view s) (Truncate_us clock) (rate_prefix l ++ key (bKey b)) = Ok t ∧
                  t - (Burst b - 1) * Interval b ≤ Truncate_us clock ∧
                  store_view s' !! (rate_prefix l ++ key (bKey b)) =
                  Some (bucket_record (Truncate_us clock) (rate_prefix l ++ key (bKey b)) b t)) bs ∧
        (∀ k, Forall (λ b, rate_prefix l ++ key (bKey b) ≠ k) bs →
           store_view s' !! k = store_view s !! k ∨
           (store_view s' !! k = None ∧
            ∀ x, store_view s !! k = Some x → expired (Truncate_us clock) x = true))
      else store_view s' = store_view s
  | Err _ => store_view s' = store_view s
  end.
Proof. apply Check_effect. Qed.
End Outcome.

(** ** The rate

    A history of one bucket of one limiter: checks that may or may not name it, with
    whatever outcome, cancelled or not, and anything other components do to the store,
    as long as they leave the bucket's record alone or remove it once expired (as
    [Prune] does). The list holds the moments at which a check naming the bucket was
    admitted, latest first. *)
Section Rate.
Context {S : Type} {ST : TxStore S}.
Variables (l : Limiter) (b : Bucket).
Abbreviation bucket_key := (rate_prefix l ++ key (bKey b)).

(** The clock is after the Unix epoch and far from the end of the range. *)
Definition sane_clock (c : Time) : Prop :=
  unix_epoch ≤ Truncate_us c ∧ Truncate_us c + 30 * (24 * Hour) ≤ unix_epoch + max_int64 * 1000.

Definition record_ok (r : Rec) : Prop :=
  decode_tat (Value r) = Ok (ExpiresAt r) ∧ (ExpiresAt r) mod 1000 = 0.

Inductive history : Time → S → list Time → Prop :=
| history_start clock s :
    keys_ok (store_view s) → (∀ r, store_view s !! bucket_key = Some r → record_ok r) →
    history clock s []
| history_check clock s ts clock' cancelled bs r s' :
    history clock s ts → clock ≤ clock' → sane_clock clock' →
    (∀ b', b' ∈ bs → key (bKey b') = key (bKey b) → b' = b) →
    Check cancelled clock' l bs (Some s) = (r, Some s') →
    history clock' s'
      (match r with
       | Ok d => if Allowed d && bool_decide (b ∈ bs) then Truncate_us clock' :: ts else ts
       | Err _ => ts
       end)
| history_other clock s ts clock' s' :
    history clock s ts → clock ≤ clock' → keys_ok (store_view s') →
    (store_view s' !! bucket_key = store_view s !! bucket_key ∨
     store_view s' !! bucket_key = None ∧
     ∀ r, store_view s !! bucket_key = Some r → expired clock' r = true) →
    history clock' s' ts.

(** [L] is a time the bucket is accounted up to: past, or covered by the record. *)
Definition covered (clock : Time) (m : gmap bytes Rec) (L : Time) : Prop :=
  L ≤ clock ∨ ∃ r, m !! bucket_key = Some r ∧ L ≤ ExpiresAt r.

Record bucket_inv (clock : Time) (s : S) (ts : list Time) : Prop := {
  bi_keys : keys_ok (store_view s);
  bi_record : ∀ r, store_view s !! bucket_key = Some r → record_ok r;
  bi_times : ∀ j t, ts !! j = Some t → t ≤ clock ∧ t mod 1000 = 0 ∧
    covered clock (store_view s) (t + (Z.of_nat j + 1) * Interval b);
  bi_rate : ∀ i j ti tj, (i ≤ j)%nat → ts !! i = Some ti → ts !! j = Some tj →
    tj ≤ ti ∧ (Z.of_nat j - Z.of_nat i + 1 - Burst b) * Interval b ≤ ti - tj
}.

(** Time passing, or an expired record going, uncovers nothing. *)
Lemma covered_mono clock clock' m m' L :
  clock ≤ clock' →
  (m' !! bucket_key = m !! bucket_key ∨
   m' !! bucket_key = None ∧ ∀ r, m !! bucket_key = Some r → expired clock' r = true) →
  covered clock m L → covered clock' m' L.
Proof.
  intros Hc Hm [HL|(r & Hr & HL)]; [left; lia|].
  destruct Hm as [Hm|[_ He]]; [right; exists r; by rewrite Hm|left].
  specialize (He r Hr). unfold expired in He. bool_hyps. lia.
Qed.

Lemma bucket_inv_other clock s ts clock' s' :
  bucket_inv clock s ts → clock ≤ clock' → keys_ok (store_view s') →
  (store_view s' !! bucket_key = store_view s !! bucket_key ∨
   store_view s' !! bucket_key = None ∧
   ∀ r, store_view s !! bucket_key = Some r → expired clock' r = true) →
  bucket_inv clock' s' ts.
Proof.
  intros [Hk Hr Ht Hrate] Hc Hk' Hm. split; [done| | |done].
  - intros r Hr'. apply Hr. destruct Hm as [Hm|[Hm _]]; congruence.
  - intros j t Hj. destruct (Ht j t Hj) as (? & ? & ?). split_and!; [lia|done|].
    by eapply covered_mono.
Qed.

Hypothesis b_valid : Bucket_Validate b = true.

(** An admission of the bucket at [now], with arrival time [t] before it. *)
Lemma bucket_inv_admit clock s ts clock' s' t :
  bucket_inv clock s ts → clock ≤ clock' → sane_clock clock' → keys_ok (store_view s') →
  let now := Truncate_us clock' in
  tat_at (store_view s) now bucket_key = Ok t →
  t - (Burst b - 1) * Interval b ≤ now →
  store_view s' !! bucket_key = Some (bucket_record now bucket_key b t) →
  bucket_inv clock' s' (now :: ts).
Proof.
  intros [Hk Hr Ht Hrate] Hc [Hs1 Hs2] Hk' now Htat Hconf Hrec.
  destruct (Bucket_Validate_spec _ b_valid) as (_ & HI & HI0 & HB & HBI).
  destruct (Truncate_us_spec clock') as [Hnow Hnow0]. fold now in Hnow, Hnow0, Hs1, Hs2.
  set (next := Z.max t now + Interval b).
  assert (bucket_record now bucket_key b t = mkRec bucket_key (put_be 8 (UnixMicro next)) next) as Hbr.
  { unfold bucket_record, next. destruct (Z.ltb_spec t now); [by rewrite Z.max_r by lia|by rewrite Z.max_l by lia]. }
  rewrite Hbr in Hrec.
  (* the arrival time is aligned, and what was accounted is accounted by it *)
  assert (t mod 1000 = 0) as Ht0.
  { unfold tat_at in Htat. destruct (store_view s !! bucket_key) as [r|] eqn:Hm; [|congruence].
    destruct (Hr r eq_refl) as [Hd Hd0]. congruence. }
  assert (next mod 1000 = 0) as Hn0.
  { unfold next. rewrite Z.add_mod, HI0 by lia. destruct (Z.max_spec t now) as [[_ ->]|[_ ->]]; by rewrite ?Hnow0, ?Ht0. }
  assert (∀ L, L mod 1000 = 0 → covered clock (store_view s) L → L ≤ Z.max t now) as Hcov.
  { intros L HL [Hle|(r & Hm & Hle)].
    - assert (L ≤ now); [|lia]. pose proof (Z.div_mod L 1000). pose proof (Z.div_mod now 1000). lia.
    - unfold tat_at in Htat. rewrite Hm in Htat. destruct (Hr r Hm) as [Hd _].
      rewrite Hd in Htat. simplify_eq. lia. }
  assert (∀ j tj, ts !! j = Some tj → (tj + (Z.of_nat j + 1) * Interval b) mod 1000 = 0 ∧ tj ≤ now) as Hal.
  { intros j tj Hj. destruct (Ht j tj Hj) as (Hle & Hm0 & _). split.
    - rewrite Z.add_mod, Hm0, Z.mul_mod, HI0 by lia. by rewrite Z.mul_0_r.
    - pose proof (Z.div_mod tj 1000). pose proof (Z.div_mod now 1000). lia. }
  split; [done| | |].
  - intros r Hr'. rewrite Hrec in Hr'. simplify_eq. split; [|done]. cbn [Value ExpiresAt].
    apply decode_encode; [unfold next; lia| |].
    + rewrite Zminus_mod, Hn0. by vm_compute.
    + apply Z.div_le_upper_bound; [lia|]. unfold next. nia.
  - intros [|j] tj Hj; cbn in Hj.
    + injection Hj as <-. split_and!; [lia|done|]. right. eexists. split; [exact Hrec|]. cbn. unfold next. lia.
    + destruct (Hal j tj Hj) as [Ha Hb]. destruct (Ht j tj Hj) as (Hle & Hm0 & Hcv).
      split_and!; [lia|done|]. right. eexists. split; [exact Hrec|]. cbn [ExpiresAt]. unfold next.
      pose proof (Hcov _ Ha Hcv). lia.
  - intros [|i] [|j] ti tj Hij Hi Hj; cbn in Hi, Hj; [| |lia|].
    + injection Hi as <-. injection Hj as <-. split; [lia|]. nia.
    + injection Hi as <-. destruct (Hal j tj Hj) as [Ha Hb]. destruct (Ht j tj Hj) as (Hle & Hm0 & Hcv).
      split; [done|]. pose proof (Hcov _ Ha Hcv).
      destruct (Z.max_spec t now) as [[_ Hmax]|[_ Hmax]]; rewrite Hmax in *; nia.
    + destruct (Hrate i j ti tj) as [? ?]; [lia|done|done|]. split; [done|]. lia.
Qed.

Lemma expired_later t t' r : t ≤ t' → expired t r = true → expired t' r = true.
Proof.
  unfold expired. rewrite !andb_true_iff, !negb_true_iff, !Z.ltb_ge. intros ? [? ?]. split; [done|lia].
Qed.

Lemma history_inv clock s ts : history clock s ts → bucket_inv clock s ts.
Proof using b_valid.
  induction 1 as [clock s Hk Hr|clock s ts clock' cancelled bs r s' _ IH Hc Hsane Hsame Hchk
                 |clock s ts clock' s' _ IH Hc Hk Hm].
  - split; [done|done|..]; intros *; by rewrite lookup_nil.
  - destruct (Check_inv _ _ _ _ _ _ _ (bi_keys _ _ _ IH) Hchk) as (s1 & [= <-] & Hk' & _).
    destruct (Check_effect _ _ _ _ _ _ _ (bi_keys _ _ _ IH) Hchk) as (s2 & [= <-] & He).
    destruct r as [d|e]; [|eapply bucket_inv_other; [done..|by left; rewrite He]].
    destruct (Allowed d) eqn:Ha; cbn [andb]; [|eapply bucket_inv_other; [done..|by left; rewrite He]].
    destruct He as [Hin Hout]. case_bool_decide as Hb.
    + rewrite Forall_forall in Hin. destruct (Hin b Hb) as (t & Ht1 & Ht2 & Ht3).
      by eapply bucket_inv_admit.
    + eapply bucket_inv_other; [done..|]. destruct (Hout bucket_key) as [?|[? He]]; [|by left|right].
      * apply Forall_forall. intros b' Hb' Heq. apply app_inv_head in Heq.
        apply Hsame in Heq; [|done]. by subst.
      * split; [done|]. intros x Hx. eapply expired_later; [|by apply He].
        destruct (Truncate_us_spec clock'). lia.
  - by eapply bucket_inv_other.
Qed.
End Rate.

(** C30 The quota holds over every window: in any history of a valid bucket, with other
    buckets checked in between, cancelled calls, and expired records removed at any
    time, the admissions between two admitted requests, both included, number at most
    the burst plus one for every full interval between them. *)
Theorem rate_bound {S} `{!TxStore S} l b clock (s : S) ts i j ti tj :
  Bucket_Validate b = true → history l b clock s ts →
  (i ≤ j)%nat → ts !! i = Some ti → ts !! j = Some tj →
  Z.of_nat j - Z.of_nat i + 1 ≤ Burst b + (ti - tj) / Interval b.
Proof.
  intros Hv Hh Hij Hi Hj. destruct (Bucket_Validate_spec _ Hv) as (_ & HI & _ & _ & _).
  destruct (bi_rate _ _ _ _ _ (history_inv l b Hv clock s ts Hh) i j ti tj Hij Hi Hj) as [_ H].
  assert (Z.of_nat j - Z.of_nat i + 1 - Burst b ≤ (ti - tj) / Interval b); [|lia].
  apply Z.div_le_lower_bound; lia.
Qed.

(** ** A concrete limiter *)

Definition lim1 : Limiter := mkLimiter 0 (bs "scep").
Definition bucket1 : Bucket := mkBucket (bs "10.0.0.1") Second 2.
Definition clock1 : Time := unix_epoch + 1000 * Second.

(** Two requests are admitted at once, the third is refused for one interval. *)
Definition check1 (m : option Memory) : result rerr Decision * option Memory :=
  Check (λ _, false) clock1 lim1 [bucket1] m.

Example burst_then_refused :
  let '(r1, m1) := check1 (Some NewMemory) in
  let '(r2, m2) := check1 m1 in
  let '(r3, m3) := check1 m2 in
  (r1, r2, r3, bool_decide (mrecords <$> m2 = mrecords <$> m3)) =
  (Ok (mkDecision true 0), Ok (mkDecision true 0), Ok (mkDecision false Second), true).
Proof. vm_compute. reflexivity. Qed.

Lemma check1_admits :
  match check1 (Some NewMemory) with (Ok d, Some _) => Allowed d | _ => false end = true.
Proof. vm_compute. reflexivity. Qed.

Lemma rate_bound_witness :
  ∃ s, history lim1 bucket1 clock1 s [Truncate_us clock1] ∧ 1 ≤ 2 + (0 / Second).
Proof.
  pose proof check1_admits as Ha.
  destruct (check1 (Some NewMemory)) as [[d|e] [s|]] eqn:H; [|discriminate Ha..].
  assert (history lim1 bucket1 clock1 s [Truncate_us clock1]) as Hh.
  { pose proof (history_check lim1 bucket1 clock1 NewMemory [] clock1 (λ _, false) [bucket1] (Ok d) s) as Hc.
    cbv iota beta in Hc. rewrite Ha, bool_decide_true in Hc by (by left). apply Hc; clear Hc.
    - apply history_start.
      + intros k r Hk. discriminate Hk.
      + intros r Hr. discriminate Hr.
    - lia.
    - split; vm_compute; discriminate.
    - intros b' Hb' _. apply list_elem_of_singleton in Hb'. exact Hb'.
    - exact H. }
  exists s. split; [exact Hh|].
  exact (rate_bound lim1 bucket1 clock1 s [Truncate_us clock1] 0 0 (Truncate_us clock1) (Truncate_us clock1)
           eq_refl Hh (le_n 0) eq_refl eq_refl).
Defined.

Lemma Check_all_or_nothing_witness :
  ∃ d s', check1 (Some NewMemory) = (Ok d, Some s') ∧
          is_Some (mrecords s' !! (rate_prefix lim1 ++ key (bs "10.0.0.1"))).
Proof.
  pose proof check1_admits as Ha.
  destruct (check1 (Some NewMemory)) as [[d|e] [s|]] eqn:H; [|discriminate Ha..].
  assert (keys_ok (store_view NewMemory)) as Hk by (intros k r Hk; discriminate Hk).
  destruct (Check_all_or_nothing (λ _, false) clock1 lim1 [bucket1] NewMemory (Ok d) (Some s) Hk H)
    as (s' & Hs & Hin).
  rewrite Ha in Hin. injection Hs as <-. destruct Hin as [Hin _].
  exists d, s. split; [reflexivity|]. apply Forall_cons in Hin as [(t & _ & _ & Ht) _].
  eexists. exact Ht.
Defined.
