(* ===== verification/Cbor.v ===== *)
(** * CBOR: [devicemanagement/internal/cbor]

    The decoder and encoder of the CBOR subset that device attestation uses. The
    decoder's state is the rest of the buffer, [buf[off:]]. Go's reflection is a
    universe: [gtype] is the type of a decode target and [gval] a value of it, with
    what the code distinguishes (nil slices and maps, pointers, struct fields with
    their tags). Nesting is the structural argument of the recursion: [levels] counts
    the nesting levels left, [MaxDepth + 1 - depth] in the code. *)
From S2P Require Import Prelude GoStrings Sha256.

(* @src devicemanagement/internal/cbor/cbor.go 14-19 limits *)
Definition MaxBytes : Z := 1048576.
Definition MaxDepth : nat := 16.

(* @src devicemanagement/internal/cbor/cbor.go 22-31 errors *)
Inductive cberr :=
| ErrTooLarge | ErrSyntax | ErrUnsupported | ErrTrailing | ErrType | ErrDuplicate | ErrDepth
| ErrTarget.
#[export] Instance cberr_eq_dec : EqDecision cberr.
Proof. solve_decision. Defined.

(* @src devicemanagement/internal/cbor/cbor.go 41-50 majors *)
Definition majUint : Z := 0.
Definition majNegInt : Z := 1.
Definition majBytes : Z := 2.
Definition majText : Z := 3.
Definition majArray : Z := 4.
Definition majMap : Z := 5.
Definition majTag : Z := 6.
Definition majSimple : Z := 7.

(* @src devicemanagement/internal/cbor/cbor.go 53-57 simples *)
Definition simpleFalse : Z := 20.
Definition simpleTrue : Z := 21.
Definition simpleNull : Z := 22.

(** ** Reading items *)

(* @src devicemanagement/internal/cbor/cbor.go - decoder.readArg *)
Definition readArg (n : nat) (d : bytes) : result cberr (Z * bytes) :=
  if (length d <? n)%nat then Err ErrSyntax
  else Ok (get_be (take n d), drop n d).

(* @src devicemanagement/internal/cbor/cbor.go - decoder.head *)
Definition head (d : bytes) : result cberr (Z * Z * bytes) :=
  match d with
  | [] => Err ErrSyntax
  | b :: d =>
      let major := Z.shiftr b 5 in
      let ai := Z.land b 31 in
      '(arg, d) ←
        (if ai <? 24 then Ok (ai, d)
         else if ai =? 24 then readArg 1 d
         else if ai =? 25 then readArg 2 d
         else if ai =? 26 then readArg 4 d
         else if ai =? 27 then readArg 8 d
         else if ai =? 31 then Err ErrUnsupported
         else Err ErrSyntax);
      if major =? majTag then Err ErrUnsupported
      else if (major =? majSimple) && (24 <=? ai) then Err ErrUnsupported
      else if (major =? majSimple) && negb (arg =? simpleFalse) && negb (arg =? simpleTrue)
              && negb (arg =? simpleNull) then Err ErrUnsupported
      else Ok (major, arg, d)
  end.

(* @src devicemanagement/internal/cbor/cbor.go - decoder.fits *)
Definition fits (n : Z) (perItem : Z) (d : bytes) : result cberr nat :=
  if Z.of_nat (length d) / perItem <? n then Err ErrSyntax else Ok (Z.to_nat n).

(* @src devicemanagement/internal/cbor/cbor.go - decoder.bytes *)
Definition read_bytes (n : Z) (d : bytes) : result cberr (bytes * bytes) :=
  size ← fits n 1 d; Ok (take size d, drop size d).

(* @src devicemanagement/internal/cbor/cbor.go - decoder.key *)
Definition read_key (d : bytes) : result cberr (bytes * bytes) :=
  '(major, arg, d) ← head d;
  if negb (major =? majText) then Err ErrUnsupported else read_bytes arg d.

(** [for range n] over a step that consumes input. *)
Fixpoint repeat_step (n : nat) (f : bytes → result cberr bytes) (d : bytes) : result cberr bytes :=
  match n with O => Ok d | S n' => d ← f d; repeat_step n' f d end.

(* @src devicemanagement/internal/cbor/cbor.go - decoder.skip *)
Fixpoint skip (levels : nat) (d : bytes) : result cberr bytes :=
  match levels with
  | O => Err ErrDepth
  | S levels' =>
      '(major, arg, d) ← head d;
      if (major =? majBytes) || (major =? majText) then
        '(_, d) ← read_bytes arg d; Ok d
      else if major =? majArray then
        n ← fits arg 1 d; repeat_step n (skip levels') d
      else if major =? majMap then
        n ← fits arg 2 d;
        repeat_step n (λ d, '(_, d) ← read_key d; skip levels' d) d
      else Ok d
  end.

(* @src devicemanagement/internal/cbor/cbor.go - Wellformed *)
Definition Wellformed (data : bytes) : result cberr unit :=
  if MaxBytes <? Z.of_nat (length data) then Err ErrTooLarge
  else
    d ← skip (S MaxDepth) data;
    if bool_decide (d ≠ []) then Err ErrTrailing else Ok tt.

(** ** Go types and values *)

(** A struct field: its name, whether it is exported, its [cbor] tag. *)
Record gfield := mkField { f_Name : bytes; f_Exported : bool; f_Tag : bytes }.
#[export] Instance gfield_eq_dec : EqDecision gfield.
Proof. solve_decision. Defined.

(** The types reflection distinguishes here. [GUint w] and [GInt w] are the integer
    kinds of [w] bits; [GOther] is any other kind. *)
Inductive gtype :=
| GBool | GUint (w : Z) | GInt (w : Z) | GString | GRaw
| GPtr (t : gtype) | GSlice (t : gtype) | GMap (string_keys : bool) (t : gtype)
| GStruct (fs : list (gfield * gtype)) | GOther.

(** Values. A slice of [uint8] is [VBytes]; a nil slice, map or pointer is [None]; a
    map is an association list in some iteration order; [VIface] is an interface
    value, [VArray] an array, [VInvalid] the zero [reflect.Value]. *)
Inductive gval :=
| VBool (b : bool) | VUint (z : Z) | VInt (z : Z) | VString (s : bytes)
| VRaw (raw : option bytes)
| VBytes (b : option bytes) | VSlice (l : option (list gval)) | VArray (l : list gval)
| VPtr (p : option gval) | VIface (p : option gval)
| VMap (string_keys : bool) (m : option (list (bytes * gval)))
| VStruct (fs : list (gfield * gval)) | VOther | VInvalid.

(** The encoded name of a field, and its options: the tag cut at the first comma. *)
(* @src devicemanagement/internal/cbor/cbor.go 472-483 fieldsOf *)
Definition field_name (f : gfield) : option bytes :=
  if negb (f_Exported f) then None
  else
    let name := cut_before 44 (f_Tag f) in
    if bool_decide (name = bs "-") then None
    else if bool_decide (name = []) then Some (f_Name f) else Some name.
Definition field_opts (f : gfield) : bytes := drop (S (length (cut_before 44 (f_Tag f)))) (f_Tag f).

(** The index of the field with an encoded name; a later field shadows an earlier one. *)
(* @src devicemanagement/internal/cbor/cbor.go - fieldsOf *)
Fixpoint field_index (i : nat) (fs : list gfield) (name : bytes) : option nat :=
  match fs with
  | [] => None
  | f :: fs' =>
      match field_index (S i) fs' name with
      | Some j => Some j
      | None => if bool_decide (field_name f = Some name) then Some i else None
      end
  end.

(** The zero value of a type. *)
Fixpoint zero (t : gtype) : gval :=
  match t with
  | GBool => VBool false
  | GUint _ => VUint 0
  | GInt _ => VInt 0
  | GString => VString []
  | GRaw => VRaw None
  | GPtr _ => VPtr None
  | GSlice (GUint w) => if w =? 8 then VBytes None else VSlice None
  | GSlice _ => VSlice None
  | GMap k _ => VMap k None
  | GStruct fs => VStruct ((λ '(f, t), (f, zero t)) <$> fs)
  | GOther => VOther
  end.

(** ** Storing a decoded scalar *)

Definition fits_uint (w v : Z) : bool := v <? 2 ^ w.
Definition fits_int (w v : Z) : bool := (- 2 ^ (w - 1) <=? v) && (v <? 2 ^ (w - 1)).

(* @src devicemanagement/internal/cbor/cbor.go - setUint *)
Definition setUint (t : gtype) (v : Z) : result cberr gval :=
  match t with
  | GUint w => if negb (fits_uint w v) then Err ErrType else Ok (VUint v)
  | GInt w => if (max_int64 <? v) || negb (fits_int w v) then Err ErrType else Ok (VInt v)
  | _ => Err ErrType
  end.

(* @src devicemanagement/internal/cbor/cbor.go - setInt *)
Definition setInt (t : gtype) (v : Z) : result cberr gval :=
  match t with
  | GInt w => if negb (fits_int w v) then Err ErrType else Ok (VInt v)
  | _ => Err ErrType
  end.

(** [append([]byte(nil), b...)] of an empty [b] is nil. *)
(* @src devicemanagement/internal/cbor/cbor.go - setBytes *)
Definition setBytes (t : gtype) (b : bytes) : result cberr gval :=
  match t with
  | GSlice (GUint w) =>
      if w =? 8 then Ok (VBytes (if bool_decide (b = []) then None else Some b)) else Err ErrType
  | _ => Err ErrType
  end.

(* @src devicemanagement/internal/cbor/cbor.go - setText *)
Definition setText (t : gtype) (b : bytes) : result cberr gval :=
  match t with GString => Ok (VString b) | _ => Err ErrType end.

(** The slice of decoded elements. *)
Definition make_slice (t : gtype) (l : list gval) : gval :=
  match t with
  | GUint w => if w =? 8
               then VBytes (Some ((λ v, match v with VUint z => z | _ => 0 end) <$> l))
               else VSlice (Some l)
  | _ => VSlice (Some l)
  end.

(** ** Decoding into a target *)

(** The loop over the elements of an array. *)
(* @src devicemanagement/internal/cbor/cbor.go 312-316 decoder.array *)
Fixpoint read_list (n : nat) (f : bytes → result cberr (gval * bytes)) (d : bytes)
  : result cberr (list gval * bytes) :=
  match n with
  | O => Ok ([], d)
  | S n' => '(v, d) ← f d; '(l, d) ← read_list n' f d; Ok (v :: l, d)
  end.

(** The loop over the entries of a map target; [out] holds the entries so far. *)
(* @src devicemanagement/internal/cbor/cbor.go 335-348 decoder.mapping *)
Fixpoint read_map (n : nat) (f : bytes → result cberr (gval * bytes)) (out : list (bytes * gval))
  (d : bytes) : result cberr (list (bytes * gval) * bytes) :=
  match n with
  | O => Ok (out, d)
  | S n' =>
      '(k, d) ← read_key d;
      if bool_decide (k ∈ out.*1) then Err ErrDuplicate
      else '(v, d) ← f d; read_map n' f (out ++ [(k, v)]) d
  end.

(** The loop over the entries of a struct target: [vals] are its field values,
    [field i] decodes into field [i], [skip1] skips an unknown member. *)
(* @src devicemanagement/internal/cbor/cbor.go - decoder.structure *)
Fixpoint read_struct (n : nat) (fs : list gfield)
  (field : nat → gval → bytes → result cberr (gval * bytes)) (skip1 : bytes → result cberr bytes)
  (seen : list bytes) (vals : list gval) (d : bytes) : result cberr (list gval * bytes) :=
  match n with
  | O => Ok (vals, d)
  | S n' =>
      '(k, d) ← read_key d;
      if bool_decide (k ∈ seen) then Err ErrDuplicate
      else match field_index 0 fs k with
      | None => d ← skip1 d; read_struct n' fs field skip1 (k :: seen) vals d
      | Some i =>
          '(v, d) ← field i (default VInvalid (vals !! i)) d;
          read_struct n' fs field skip1 (k :: seen) (<[i := v]> vals) d
      end
  end.

Section Item.
(** How the elements are decoded and skipped, one level down. *)
Variable sub : gtype → gval → bytes → result cberr (gval * bytes).
Variable skip1 : bytes → result cberr bytes.

(* @src devicemanagement/internal/cbor/cbor.go - decoder.array *)
Definition dec_array (t : gtype) (arg : Z) (d : bytes) : result cberr (gval * bytes) :=
  match t with
  | GSlice t' =>
      n ← fits arg 1 d;
      '(l, d) ← read_list n (sub t' (zero t')) d;
      Ok (make_slice t' l, d)
  | _ => Err ErrType
  end.

(* @src devicemanagement/internal/cbor/cbor.go - decoder.mapping *)
Definition dec_mapping (t : gtype) (cur : gval) (arg : Z) (d : bytes) : result cberr (gval * bytes) :=
  n ← fits arg 2 d;
  match t with
  | GStruct fs =>
      let vals := match cur with VStruct l => l.*2 | _ => [] end in
      '(vals, d) ← read_struct n fs.*1
        (λ i cur d, match fs !! i with Some (_, t') => sub t' cur d | None => Err ErrType end)
        skip1 [] vals d;
      Ok (VStruct (zip fs.*1 vals), d)
  | GMap true t' =>
      '(m, d) ← read_map n (sub t' (zero t')) [] d;
      Ok (VMap true (Some m), d)
  | _ => Err ErrType
  end.

(** The switch on the major type, for a target that is not a pointer. *)
(* @src devicemanagement/internal/cbor/cbor.go 269-299 decoder.value *)
Definition dec_item (t : gtype) (cur : gval) (major arg : Z) (d : bytes)
  : result cberr (gval * bytes) :=
  if major =? majUint then v ← setUint t arg; Ok (v, d)
  else if major =? majNegInt then
    if max_int64 <? arg then Err ErrSyntax
    else v ← setInt t (-1 - arg); Ok (v, d)
  else if major =? majBytes then
    '(b, d) ← read_bytes arg d; v ← setBytes t b; Ok (v, d)
  else if major =? majText then
    '(b, d) ← read_bytes arg d; v ← setText t b; Ok (v, d)
  else if major =? majArray then dec_array t arg d
  else if major =? majMap then dec_mapping t cur arg d
  else match t with
  | GBool => Ok (VBool (arg =? simpleTrue), d)
  | _ => Err ErrType
  end.
End Item.

(* @src devicemanagement/internal/cbor/cbor.go - decoder.value *)
Fixpoint value (levels : nat) : gtype → gval → bytes → result cberr (gval * bytes) :=
  match levels with
  | O => λ _ _ _, Err ErrDepth
  | S levels' =>
      fix val (t : gtype) (cur : gval) (d : bytes) {struct t} : result cberr (gval * bytes) :=
        match t with
        | GRaw =>
            d' ← skip levels d;
            Ok (VRaw (Some (take (length d - length d') d)), d')
        | _ =>
            '(major, arg, d1) ← head d;
            if (major =? majSimple) && (arg =? simpleNull) then Ok (zero t, d1)
            else match t with
            | GPtr t' =>
                '(v, d2) ← val t' (match cur with VPtr (Some v) => v | _ => zero t' end) d;
                Ok (VPtr (Some v), d2)
            | _ => dec_item (value levels') (skip levels') t cur major arg d1
            end
        end
  end.

(** [target] is the variable [v] points to; [None] is a target that is not a non-nil
    pointer. *)
(* @src devicemanagement/internal/cbor/cbor.go - Unmarshal *)
Definition Unmarshal (data : bytes) (target : option (gtype * gval)) : result cberr gval :=
  if MaxBytes <? Z.of_nat (length data) then Err ErrTooLarge
  else match target with
  | None => Err ErrTarget
  | Some (t, cur) =>
      '(v, d) ← value (S MaxDepth) t cur data;
      if bool_decide (d ≠ []) then Err ErrTrailing else Ok v
  end.

(** ** Encoding *)

(* @src devicemanagement/internal/cbor/encode.go - encoder.head *)
Definition enc_head (major arg : Z) : bytes :=
  let m := Z.shiftl major 5 in
  if arg <? 24 then [Z.lor m arg]
  else if arg <=? 255 then Z.lor m 24 :: put_be 1 arg
  else if arg <=? 65535 then Z.lor m 25 :: put_be 2 arg
  else if arg <=? 4294967295 then Z.lor m 26 :: put_be 4 arg
  else Z.lor m 27 :: put_be 8 arg.

(* @src devicemanagement/internal/cbor/encode.go - pair *)
Record pair := mkPair { p_key : bytes; p_value : bytes }.

(* @src devicemanagement/internal/cbor/encode.go - compareKeys *)
Definition keys_leb (a b : bytes) : bool :=
  if negb (length a =? length b)%nat then (length a <? length b)%nat else bytes_leb a b.

(* @src devicemanagement/internal/cbor/encode.go - encoder.writePairs *)
Definition writePairs (ps : list pair) : bytes :=
  enc_head majMap (Z.of_nat (length ps))
  ++ mjoin ((λ p, p_key p ++ p_value p) <$> stable_sort (λ a b, keys_leb (p_key a) (p_key b)) ps).

Definition enc_key (name : bytes) : bytes := enc_head majText (Z.of_nat (length name)) ++ name.

(** [reflect.Value.IsZero]. *)
Fixpoint is_zero (v : gval) : bool :=
  match v with
  | VBool b => negb b
  | VUint z | VInt z => z =? 0
  | VString s => bool_decide (s = [])
  | VRaw raw => bool_decide (raw = None)
  | VBytes b => bool_decide (b = None)
  | VSlice None | VPtr None | VIface None | VMap _ None => true
  | VSlice _ | VPtr _ | VIface _ | VMap _ _ => false
  | VArray l => forallb is_zero l
  | VStruct fs => forallb (λ fv, is_zero fv.2) fs
  | VOther | VInvalid => false
  end.

Section Elements.
Variable enc : gval → result cberr bytes.

(** The loops over elements, map entries and struct fields. *)
(* @src devicemanagement/internal/cbor/encode.go 112-118 encoder.sequence *)
Fixpoint enc_elems (l : list gval) : result cberr bytes :=
  match l with [] => Ok [] | x :: l' => b ← enc x; bs ← enc_elems l'; Ok (b ++ bs) end.

(* @src devicemanagement/internal/cbor/encode.go - encoder.pairFor *)
Definition pairFor (name : bytes) (v : gval) : result cberr pair :=
  b ← enc v; Ok (mkPair (enc_key name) b).

(* @src devicemanagement/internal/cbor/encode.go 153-161 encoder.mapping *)
Fixpoint enc_entries (m : list (bytes * gval)) : result cberr (list pair) :=
  match m with
  | [] => Ok []
  | (k, v) :: m' => p ← pairFor k v; ps ← enc_entries m'; Ok (p :: ps)
  end.

(* @src devicemanagement/internal/cbor/encode.go 168-190 encoder.structure *)
Fixpoint enc_fields (fs : list (gfield * gval)) : result cberr (list pair) :=
  match fs with
  | [] => Ok []
  | (f, v) :: fs' =>
      match field_name f with
      | None => enc_fields fs'
      | Some name =>
          if contains (field_opts f) (bs "omitempty") && is_zero v then enc_fields fs'
          else p ← pairFor name v; ps ← enc_fields fs'; Ok (p :: ps)
      end
  end.
End Elements.

(* @src devicemanagement/internal/cbor/encode.go 51-193 encoder.value *)
Fixpoint enc_value (v : gval) (depth : nat) {struct v} : result cberr bytes :=
  if (MaxDepth <? depth)%nat then Err ErrDepth
  else match v with
  | VInvalid | VPtr None | VIface None => Ok (enc_head majSimple simpleNull)
  | VRaw raw => _ ← Wellformed (default [] raw); Ok (default [] raw)
  | VPtr (Some v') | VIface (Some v') => enc_value v' depth
  | VBool b => Ok (enc_head majSimple (if b then simpleTrue else simpleFalse))
  | VUint z => Ok (enc_head majUint z)
  | VInt z => Ok (if z <? 0 then enc_head majNegInt (-1 - z) else enc_head majUint z)
  | VString s => Ok (enc_key s)
  | VBytes b =>
      Ok (enc_head majBytes (Z.of_nat (length (default [] b))) ++ default [] b)
  | VSlice None => Ok (enc_head majArray 0)
  | VSlice (Some l) | VArray l =>
      b ← enc_elems (λ x, enc_value x (S depth)) l;
      Ok (enc_head majArray (Z.of_nat (length l)) ++ b)
  | VMap false _ => Err ErrType
  | VMap true None => Ok (writePairs [])
  | VMap true (Some m) => ps ← enc_entries (λ x, enc_value x (S depth)) m; Ok (writePairs ps)
  | VStruct fs => ps ← enc_fields (λ x, enc_value x (S depth)) fs; Ok (writePairs ps)
  | VOther => Err ErrType
  end.

(* @src devicemanagement/internal/cbor/encode.go - Marshal *)
Definition Marshal (v : gval) : result cberr bytes := enc_value v 0.

(** ** Examples *)

Definition field (name tag : string) (t : gtype) : gfield * gtype := (mkField (bs name) true (bs tag), t).

(** The attestation object of the ACME device challenge. *)
Definition attestation_type : gtype :=
  GStruct [field "Fmt" "fmt" GString; field "AttStmt" "attStmt" GRaw].

Example attestation_roundtrip :
  let v := VStruct [(mkField (bs "Fmt") true (bs "fmt"), VString (bs "apple"));
                    (mkField (bs "AttStmt") true (bs "attStmt"), VRaw (Some [0x81; 0x01]))] in
  (b ← Marshal v; Unmarshal b (Some (attestation_type, zero attestation_type))) = Ok v.
Proof. vm_compute. reflexivity. Qed.
