(* ===== verification/CborGrammar.v ===== *)
(** * What the CBOR decoder accepts

    A grammar of encoded items, and the proof that the walk of [Wellformed] accepts
    exactly the encodings of one item of the subset, nested at most [MaxDepth] deep;
    and that whatever [Unmarshal] accepts, [Wellformed] accepts. *)
From S2P Require Import Prelude GoStrings Sha256 Cbor.

(** ** Items and their encodings *)

Inductive item :=
| IUint (z : Z) | INeg (z : Z) | IBytes (b : bytes) | IText (b : bytes)
| IArr (l : list item) | IMap (m : list (bytes * item)) | IBool (b : bool) | INull.

(** A header of major type [m] and argument [a], in any of the four forms. *)
Inductive hd (m a : Z) : bytes → Prop :=
| hd_short : 0 ≤ a < 24 → hd m a [32 * m + a]
| hd_long (n : nat) (c : Z) :
    (n, c) ∈ [(1%nat, 24); (2%nat, 25); (4%nat, 26); (8%nat, 27)] →
    0 ≤ a < 256 ^ Z.of_nat n → hd m a ((32 * m + c) :: put_be n a).

(** [encodes n i b]: [b] is an encoding of [i] whose nesting is at most [n]. *)
Fixpoint encodes (n : nat) (i : item) (b : bytes) : Prop :=
  match n with
  | O => False
  | S n' =>
      match i with
      | IUint z => hd majUint z b
      | INeg z => hd majNegInt z b
      | IBytes s => ∃ h, hd majBytes (Z.of_nat (length s)) h ∧ b = h ++ s
      | IText s => ∃ h, hd majText (Z.of_nat (length s)) h ∧ b = h ++ s
      | IArr l => ∃ h bs, hd majArray (Z.of_nat (length l)) h ∧
          Forall2 (encodes n') l bs ∧ b = h ++ mjoin bs
      | IMap m => ∃ h bs, hd majMap (Z.of_nat (length m)) h ∧
          Forall2 (λ kv e, ∃ hk v, hd majText (Z.of_nat (length kv.1)) hk ∧
                             encodes n' kv.2 v ∧ e = hk ++ kv.1 ++ v) m bs ∧ b = h ++ mjoin bs
      | IBool x => b = [if x then 0xf5 else 0xf4]
      | INull => b = [0xf6]
      end
  end.

(** ** Headers *)

Lemma header_byte b : 0 ≤ b < 256 →
  Z.shiftr b 5 = b / 32 ∧ Z.land b 31 = b mod 32.
Proof.
  intros Hb. split; [by rewrite Z.shiftr_div_pow2 by lia|].
  change 31 with (Z.ones 5). by rewrite Z.land_ones by lia.
Qed.

Lemma put_get_be l : Forall is_byte l → put_be (length l) (get_be l) = l.
Proof.
  induction l as [|x l IH] using rev_ind; [done|]. rewrite Forall_app, Forall_singleton.
  intros [Hl Hx]. rewrite length_app. cbn [length]. rewrite Nat.add_1_r. cbn [put_be].
  unfold get_be. rewrite foldl_app. cbn [foldl]. fold (get_be l). unfold is_byte in Hx.
  rewrite Z.div_add_l, (Z.div_small x), Z.add_0_r by lia.
  rewrite Z.add_mod, Z.mod_mul, Z.add_0_l, !Z.mod_small by (rewrite ?Z.mod_small; lia).
  by rewrite IH.
Qed.

Lemma get_be_bound l : Forall is_byte l → 0 ≤ get_be l < 256 ^ Z.of_nat (length l).
Proof.
  induction l as [|x l IH] using rev_ind; [done|]. rewrite Forall_app, Forall_singleton.
  intros [Hl Hx]. rewrite length_app. cbn [length]. rewrite Nat.add_1_r, Nat2Z.inj_succ.
  rewrite Z.pow_succ_r by lia. unfold get_be. rewrite foldl_app. cbn [foldl]. fold (get_be l).
  specialize (IH Hl). unfold is_byte in Hx. lia.
Qed.

Lemma hd_length m a h : hd m a h → (1 ≤ length h)%nat.
Proof. destruct 1; cbn; lia. Qed.

Lemma readArg_put n a d : 0 ≤ a < 256 ^ Z.of_nat n → readArg n (put_be n a ++ d) = Ok (a, d).
Proof.
  intros Ha. unfold readArg. rewrite length_app, put_be_length.
  rewrite (proj2 (Nat.ltb_ge _ _)) by lia.
  rewrite take_app_length', drop_app_length' by (by rewrite put_be_length).
  by rewrite get_put_be, Z.mod_small.
Qed.

Lemma head_hd m a h d : 0 ≤ m ≤ 5 → hd m a h → head (h ++ d) = Ok (m, a, d).
Proof.
  intros Hm. destruct 1 as [Ha|n c Hc Ha]; cbn [app head].
  - destruct (header_byte (32 * m + a)) as [-> ->]; [lia|].
    replace ((32 * m + a) / 32) with m by (rewrite Z.mul_comm, Z.div_add_l, Z.div_small by lia; lia).
    replace ((32 * m + a) mod 32) with a
      by (rewrite Z.add_comm, Z.mul_comm, Z.mod_add, Z.mod_small; lia).
    rewrite (proj2 (Z.ltb_lt a 24)) by lia. cbn [mbind result_bind].
    unfold majTag, majSimple. rewrite (proj2 (Z.eqb_neq m 6)), (proj2 (Z.eqb_neq m 7)) by lia. done.
  - assert (24 ≤ c < 28) as Hc' by (repeat (apply elem_of_cons in Hc as [[= -> ->]|Hc]; [lia|]);
      by apply elem_of_nil in Hc).
    destruct (header_byte (32 * m + c)) as [-> ->]; [lia|].
    replace ((32 * m + c) / 32) with m by (rewrite Z.mul_comm, Z.div_add_l, Z.div_small by lia; lia).
    replace ((32 * m + c) mod 32) with c
      by (rewrite Z.add_comm, Z.mul_comm, Z.mod_add, Z.mod_small; lia).
    unfold majTag, majSimple. rewrite (proj2 (Z.eqb_neq m 6)), (proj2 (Z.eqb_neq m 7)) by lia.
    repeat (apply elem_of_cons in Hc as [[= -> ->]|Hc];
      [cbn [Z.ltb Z.eqb Z.compare Pos.compare Pos.compare_cont Pos.eqb];
       rewrite readArg_put by done; done|]).
    by apply elem_of_nil in Hc.
Qed.

Lemma readArg_inv n d a d1 :
  Forall is_byte d → readArg n d = Ok (a, d1) →
  0 ≤ a < 256 ^ Z.of_nat n ∧ d = put_be n a ++ d1.
Proof.
  unfold readArg. intros Hd. destruct (Nat.ltb_spec (length d) n); [done|]. intros [= <- <-].
  assert (length (take n d) = n) as Hl by (rewrite length_take; lia).
  assert (Forall is_byte (take n d)) as Ht by (by apply Forall_take).
  split; [pose proof (get_be_bound _ Ht) as H'; by rewrite Hl in H'|].
  rewrite <-(take_drop n d) at 1. f_equal. rewrite <-(put_get_be (take n d)) at 1 by done. by rewrite Hl.
Qed.

(** Every header the decoder accepts: one of the majors below tags in some form, or
    false, true, null. *)
Lemma head_inv d m a d1 :
  Forall is_byte d → head d = Ok (m, a, d1) →
  (0 ≤ m ≤ 5 ∧ ∃ h, hd m a h ∧ d = h ++ d1) ∨
  (m = majSimple ∧ (a = simpleFalse ∨ a = simpleTrue ∨ a = simpleNull) ∧ d = (224 + a) :: d1).
Proof.
  intros Hd. destruct d as [|b d]; [done|]. cbn [head]. apply Forall_cons in Hd as [Hb Hd].
  unfold is_byte in Hb. destruct (header_byte b Hb) as [-> ->].
  pose proof (Z.div_mod b 32 ltac:(lia)) as Hdm.
  assert (0 ≤ b / 32 < 8) by (split; [apply Z.div_pos; lia | apply Z.div_lt_upper_bound; lia]).
  pose proof (Z.mod_pos_bound b 32 ltac:(lia)).
  set (M := b / 32) in *. set (A := b mod 32) in *.
  intros Hh. apply bind_Ok_inv in Hh as ([a' d'] & Harg & Hh).
  assert ((A < 24 ∧ a' = A ∧ d' = d) ∨
          (24 ≤ A ∧ ∃ n, (n, A) ∈ [(1%nat, 24); (2%nat, 25); (4%nat, 26); (8%nat, 27)] ∧
             0 ≤ a' < 256 ^ Z.of_nat n ∧ d = put_be n a' ++ d')) as Hcase.
  { destruct (Z.ltb_spec A 24); [left; simplify_eq; auto|right; split; [done|]].
    destruct (Z.eqb_spec A 24) as [->|]; [exists 1%nat; split; [set_solver|by apply readArg_inv]|].
    destruct (Z.eqb_spec A 25) as [->|]; [exists 2%nat; split; [set_solver|by apply readArg_inv]|].
    destruct (Z.eqb_spec A 26) as [->|]; [exists 4%nat; split; [set_solver|by apply readArg_inv]|].
    destruct (Z.eqb_spec A 27) as [->|]; [exists 8%nat; split; [set_solver|by apply readArg_inv]|].
    by destruct (A =? 31). }
  clear Harg. destruct (Z.eqb_spec M majTag) as [|Hm6]; [done|].
  destruct (Z.eqb_spec M majSimple) as [Hm7|Hm7]; cbn [andb] in Hh.
  - right. destruct (Z.leb_spec 24 A); [done|].
    destruct Hcase as [(_ & -> & ->)|[? _]]; [|lia].
    destruct (Z.eqb_spec A simpleFalse); [|destruct (Z.eqb_spec A simpleTrue);
      [|destruct (Z.eqb_spec A simpleNull); [|done]]]; cbn in Hh; simplify_eq;
      (split_and!; [done|auto|f_equal; unfold majSimple in *; lia]).
  - left. cbn in Hh. injection Hh as <- <- <-. unfold majTag, majSimple in *. split; [lia|].
    destruct Hcase as [(Ha & -> & ->)|(Ha & n & Hn & Hb' & ->)].
    + exists [32 * M + A]. split; [constructor; lia|]. cbn. f_equal. lia.
    + exists ((32 * M + A) :: put_be n a'). split; [by apply hd_long|]. cbn. f_equal. lia.
Qed.

Lemma fits_Ok n p d k : fits n p d = Ok k → n ≤ Z.of_nat (length d) / p ∧ k = Z.to_nat n.
Proof. unfold fits. destruct (Z.ltb_spec (Z.of_nat (length d) / p) n); [done|]. intros [= <-]. auto. Qed.

Lemma hd_arg m a h : hd m a h → 0 ≤ a.
Proof. destruct 1; lia. Qed.

Lemma read_bytes_app n s d : Z.of_nat (length s) = n → read_bytes n (s ++ d) = Ok (s, d).
Proof.
  intros <-. unfold read_bytes, fits. rewrite Z.div_1_r, length_app.
  rewrite (proj2 (Z.ltb_ge _ _)) by lia. cbn [mbind result_bind].
  by rewrite Nat2Z.id, take_app_length, drop_app_length.
Qed.

Lemma read_bytes_inv n d s d1 :
  0 ≤ n → read_bytes n d = Ok (s, d1) → d = s ++ d1 ∧ Z.of_nat (length s) = n.
Proof.
  unfold read_bytes. intros Hn H. apply bind_Ok_inv in H as (k & [Hf ->]%fits_Ok & [= <- <-]).
  rewrite Z.div_1_r in Hf. rewrite take_drop. split; [done|]. rewrite length_take. lia.
Qed.

Lemma read_key_app h k d : hd majText (Z.of_nat (length k)) h → read_key (h ++ k ++ d) = Ok (k, d).
Proof.
  intros Hh. unfold read_key. rewrite (head_hd majText _ h) by (done || (unfold majText; lia)).
  cbn [mbind result_bind]. by rewrite read_bytes_app.
Qed.

Lemma read_key_inv d k d1 :
  Forall is_byte d → read_key d = Ok (k, d1) →
  ∃ h, hd majText (Z.of_nat (length k)) h ∧ d = h ++ k ++ d1.
Proof.
  unfold read_key. intros Hd H. apply bind_Ok_inv in H as ([[m a] d'] & Hh & H).
  destruct (Z.eqb_spec m majText) as [->|]; [|done]. cbn [negb] in H.
  destruct (head_inv _ _ _ _ Hd Hh) as [[_ (h & Hhd & ->)]|[? _]]; [|done].
  apply read_bytes_inv in H as [-> Hl]; [|by eapply hd_arg]. exists h. by rewrite Hl.
Qed.

(** ** The walk *)

Lemma encodes_nonempty n i b : encodes n i b → (1 ≤ length b)%nat.
Proof.
  destruct n; [done|]. destruct i as [z|z|s|s|l|m|x|]; cbn [encodes].
  1, 2: apply hd_length.
  1, 2: intros (h & Hh%hd_length & ->); rewrite length_app; lia.
  1, 2: intros (h & bs & Hh%hd_length & _ & ->); rewrite length_app; lia.
  all: by intros ->.
Qed.

Lemma mjoin_length_ge {A} (P : A → bytes → Prop) (c : nat) l bs :
  (∀ x b, P x b → (c ≤ length b)%nat) → Forall2 P l bs → (c * length l ≤ length (mjoin bs))%nat.
Proof.
  intros HP. induction 1 as [|x b l bs H _ IH]; [cbn; lia|].
  change (mjoin (b :: bs)) with (b ++ mjoin bs). cbn [length]. rewrite length_app, Nat.mul_succ_r.
  apply HP in H. lia.
Qed.

Lemma repeat_step_app {A} (P : A → bytes → Prop) f l bs d :
  Forall2 P l bs → (∀ x b d, P x b → f (b ++ d) = Ok d) →
  repeat_step (length l) f (mjoin bs ++ d) = Ok d.
Proof.
  intros H Hf. induction H as [|x b l bs Hx _ IH]; [done|]. cbn.
  rewrite <-app_assoc, (Hf x) by done. cbn. exact IH.
Qed.

Lemma fits_ok n p (d : bytes) : 0 < p → p * Z.of_nat n ≤ Z.of_nat (length d) →
  fits (Z.of_nat n) p d = Ok n.
Proof.
  intros Hp Hn. unfold fits. rewrite (proj2 (Z.ltb_ge _ _)), Nat2Z.id; [done|].
  apply Z.div_le_lower_bound; lia.
Qed.

Lemma skip_complete n : ∀ i b d, encodes n i b → skip n (b ++ d) = Ok d.
Proof.
  induction n as [|n IH]; intros i b d H; [done|]. cbn [skip]. destruct i as [z|z|s|s|l|m|x|]; cbn [encodes] in H.
  - rewrite (head_hd majUint z b) by (done || (unfold majUint; lia)). done.
  - rewrite (head_hd majNegInt z b) by (done || (unfold majNegInt; lia)). done.
  - destruct H as (h & Hh & ->). rewrite <-app_assoc, (head_hd majBytes _ h) by (done || (unfold majBytes; lia)).
    cbn [mbind result_bind]. cbn [majBytes Z.eqb Pos.eqb orb]. by rewrite read_bytes_app.
  - destruct H as (h & Hh & ->). rewrite <-app_assoc, (head_hd majText _ h) by (done || (unfold majText; lia)).
    cbn [mbind result_bind]. cbn [majText Z.eqb Pos.eqb orb]. by rewrite read_bytes_app.
  - destruct H as (h & bs & Hh & Hl & ->).
    rewrite <-app_assoc, (head_hd majArray _ h) by (done || (unfold majArray; lia)).
    cbn [mbind result_bind]. cbn [majArray majBytes majText Z.eqb Pos.eqb orb].
    rewrite fits_ok; [|lia|].
    + cbn [mbind result_bind]. eapply repeat_step_app; [exact Hl|]. intros. by eapply IH.
    + pose proof (mjoin_length_ge _ 1 _ _ (encodes_nonempty n) Hl). rewrite length_app. lia.
  - destruct H as (h & bs & Hh & Hl & ->).
    rewrite <-app_assoc, (head_hd majMap _ h) by (done || (unfold majMap; lia)).
    cbn [mbind result_bind]. cbn [majMap majArray majBytes majText Z.eqb Pos.eqb orb].
    rewrite fits_ok; [|lia|].
    + cbn [mbind result_bind]. eapply repeat_step_app; [exact Hl|].
      intros [k v] e d' (hk & bv & Hk & Hv & ->). cbn [fst] in *.
      rewrite <-!app_assoc, read_key_app by done. cbn [mbind result_bind]. by eapply IH.
    + assert (2 * length m ≤ length (mjoin bs))%nat; [|rewrite length_app; lia].
      eapply mjoin_length_ge; [|exact Hl]. intros [k v] e (hk & bv & Hk & Hv & ->).
      rewrite !length_app. apply hd_length in Hk. apply encodes_nonempty in Hv. lia.
  - subst. by destruct x.
  - by subst.
Qed.

Lemma repeat_step_inv {A} (P : A → bytes → Prop) f k : ∀ d d1,
  (∀ d d', Forall is_byte d → f d = Ok d' → ∃ x b, P x b ∧ d = b ++ d') →
  Forall is_byte d → repeat_step k f d = Ok d1 →
  ∃ l bs, length l = k ∧ Forall2 P l bs ∧ d = mjoin bs ++ d1.
Proof.
  induction k as [|k IH]; intros d d1 Hf Hd H; cbn [repeat_step] in H.
  { simplify_eq. by exists [], []. }
  apply bind_Ok_inv in H as (d' & Hx & H). destruct (Hf _ _ Hd Hx) as (x & b & Hxb & ->).
  apply Forall_app in Hd as [_ Hd]. destruct (IH _ _ Hf Hd H) as (l & bs & <- & Hl & ->).
  exists (x :: l), (b :: bs). split_and!; [done|by constructor|]. cbn. by rewrite app_assoc.
Qed.

Lemma skip_sound n : ∀ d d1,
  Forall is_byte d → skip n d = Ok d1 → ∃ i b, encodes n i b ∧ d = b ++ d1.
Proof.
  induction n as [|n IH]; intros d d1 Hd H; [done|]. cbn [skip] in H.
  apply bind_Ok_inv in H as ([[m a] d'] & Hh & H).
  destruct (head_inv _ _ _ _ Hd Hh) as [[Hm (h & Hhd & ->)]|(-> & Ha & ->)].
  2: { cbn in H. simplify_eq. destruct Ha as [->|[->| ->]];
         [exists (IBool false)|exists (IBool true)|exists INull]; by eexists. }
  apply Forall_app in Hd as [_ Hd]. pose proof (hd_arg _ _ _ Hhd) as Ha.
  destruct (Z.eqb_spec m majBytes) as [->|H2]; cbn [orb] in H.
  { apply bind_Ok_inv in H as ([s d2] & [-> Hs]%read_bytes_inv & [= <-]); [|done].
    exists (IBytes s), (h ++ s). rewrite <-app_assoc. split; [|done]. exists h. by rewrite Hs. }
  destruct (Z.eqb_spec m majText) as [->|H3].
  { apply bind_Ok_inv in H as ([s d2] & [-> Hs]%read_bytes_inv & [= <-]); [|done].
    exists (IText s), (h ++ s). rewrite <-app_assoc. split; [|done]. exists h. by rewrite Hs. }
  destruct (Z.eqb_spec m majArray) as [->|H4].
  { apply bind_Ok_inv in H as (k & [_ ->]%fits_Ok & H).
    destruct (repeat_step_inv (encodes n) _ _ _ _ (IH) Hd H) as (l & bs & Hl & Hf & ->).
    exists (IArr l), (h ++ mjoin bs). rewrite <-app_assoc. split; [|done].
    exists h, bs. split_and!; [|done|done]. by rewrite Hl, Z2Nat.id. }
  destruct (Z.eqb_spec m majMap) as [->|H5].
  { apply bind_Ok_inv in H as (k & [_ ->]%fits_Ok & H).
    apply (repeat_step_inv (λ kv e, ∃ hk v, hd majText (Z.of_nat (length kv.1)) hk ∧
                encodes n kv.2 v ∧ e = hk ++ kv.1 ++ v)) in H
      as (l & bs & Hl & Hf & ->); [| |done].
    2: { intros d0 d2 Hd0 Hx. apply bind_Ok_inv in Hx as ([k d3] & Hk & Hx).
      destruct (read_key_inv _ _ _ Hd0 Hk) as (hk & Hhk & ->).
      rewrite !Forall_app in Hd0. destruct (IH _ _ (proj2 (proj2 Hd0)) Hx) as (i & b & Hi & ->).
      exists (k, i), (hk ++ k ++ b). rewrite <-!app_assoc. split; [|done]. by exists hk, b. }
    exists (IMap l), (h ++ mjoin bs). rewrite <-app_assoc. split; [|done].
    exists h, bs. split_and!; [|done|done]. by rewrite Hl, Z2Nat.id. }
  injection H as <-. unfold majBytes, majText, majArray, majMap in *.
  assert (m = majUint ∨ m = majNegInt) as [->| ->] by (unfold majUint, majNegInt; lia).
  - exists (IUint a), h. by split.
  - exists (INeg a), h. by split.
Qed.

(** C33 [Wellformed] accepts exactly the language: an input is accepted if and only if it
    is at most [MaxBytes] long and is the encoding of one item of the subset, nested
    at most [MaxDepth] deep, with nothing after it. *)
Theorem Wellformed_grammar data :
  Forall is_byte data →
  Wellformed data = Ok tt ↔
  Z.of_nat (length data) ≤ MaxBytes ∧ ∃ i, encodes (S MaxDepth) i data.
Proof.
  intros Hd. unfold Wellformed. split.
  - destruct (Z.ltb_spec MaxBytes (Z.of_nat (length data))); [done|]. intros H'.
    apply bind_Ok_inv in H' as (d1 & Hs & H'). case_bool_decide as He; [done|].
    apply skip_sound in Hs as (i & b & Hi & ->); [|done]. rewrite He, app_nil_r in *. eauto.
  - intros [Hl (i & Hi)]. rewrite (proj2 (Z.ltb_ge _ _)) by done.
    rewrite <-(app_nil_r data), (skip_complete _ i) by done. done.
Qed.

(** ** Decoding walks the same input *)

Lemma read_list_skip k f g : ∀ d l d1,
  (∀ d v d', f d = Ok (v, d') → g d = Ok d') →
  read_list k f d = Ok (l, d1) → repeat_step k g d = Ok d1.
Proof.
  induction k as [|k IH]; intros d l d1 Hf H; cbn [read_list] in H; [by simplify_eq|].
  apply bind_Ok_inv in H as ([v d'] & Hv & H). apply bind_Ok_inv in H as ([l' d2] & Hl & [= <- <-]).
  cbn. rewrite (Hf _ _ _ Hv). cbn. by eapply IH.
Qed.

Lemma read_map_skip k f g : ∀ out d l d1,
  (∀ d v d', f d = Ok (v, d') → g d = Ok d') →
  read_map k f out d = Ok (l, d1) →
  repeat_step k (λ d, '(_, d) ← read_key d; g d) d = Ok d1.
Proof.
  induction k as [|k IH]; intros out d l d1 Hf H; cbn [read_map] in H; [by simplify_eq|].
  apply bind_Ok_inv in H as ([key d'] & Hk & H). case_bool_decide; [done|].
  apply bind_Ok_inv in H as ([v d2] & Hv & H).
  cbn [repeat_step]. rewrite Hk. cbn [mbind result_bind]. rewrite (Hf _ _ _ Hv). cbn [mbind result_bind].
  by eapply IH.
Qed.

Lemma read_struct_skip k fs f g : ∀ seen vals d l d1,
  (∀ i c d v d', f i c d = Ok (v, d') → g d = Ok d') →
  read_struct k fs f g seen vals d = Ok (l, d1) →
  repeat_step k (λ d, '(_, d) ← read_key d; g d) d = Ok d1.
Proof.
  induction k as [|k IH]; intros seen vals d l d1 Hf H; cbn [read_struct] in H; [by simplify_eq|].
  apply bind_Ok_inv in H as ([key d'] & Hk & H). case_bool_decide; [done|].
  cbn [repeat_step]. rewrite Hk. cbn [mbind result_bind].
  destruct (field_index 0 fs key) as [i|].
  - apply bind_Ok_inv in H as ([v d2] & Hv & H). rewrite (Hf _ _ _ _ _ Hv). cbn [mbind result_bind].
    by eapply IH.
  - apply bind_Ok_inv in H as (d2 & Hg & H). rewrite Hg. cbn [mbind result_bind]. by eapply IH.
Qed.

(** What a successful switch consumed is what the walk skips. *)
Lemma dec_item_skip sub skip1 t cur m a d v d1 :
  (∀ t c d v d', sub t c d = Ok (v, d') → skip1 d = Ok d') →
  dec_item sub skip1 t cur m a d = Ok (v, d1) →
  (if (m =? majBytes) || (m =? majText) then '(_, d) ← read_bytes a d; Ok d
   else if m =? majArray then n ← fits a 1 d; repeat_step n skip1 d
   else if m =? majMap then
     n ← fits a 2 d; repeat_step n (λ d, '(_, d) ← read_key d; skip1 d) d
   else Ok d) = Ok d1.
Proof.
  intros Hsub H. unfold dec_item in H.
  destruct (Z.eqb_spec m majUint) as [->|_]; [apply bind_Ok_inv in H as (? & _ & [= _ <-]); done|].
  destruct (Z.eqb_spec m majNegInt) as [->|_].
  { destruct (max_int64 <? a); [done|]. apply bind_Ok_inv in H as (? & _ & [= _ <-]). done. }
  destruct (Z.eqb_spec m majBytes) as [->|_]; cbn [orb].
  { apply bind_Ok_inv in H as ([b d'] & -> & H). by apply bind_Ok_inv in H as (? & _ & [= _ <-]). }
  destruct (Z.eqb_spec m majText) as [->|_].
  { apply bind_Ok_inv in H as ([b d'] & -> & H). by apply bind_Ok_inv in H as (? & _ & [= _ <-]). }
  destruct (Z.eqb_spec m majArray) as [->|_].
  { unfold dec_array in H. destruct t; try done. apply bind_Ok_inv in H as (n & -> & H).
    apply bind_Ok_inv in H as ([l d'] & Hl & [= _ <-]). cbn [mbind result_bind].
    eapply read_list_skip; [|exact Hl]. intros. by eapply Hsub. }
  destruct (Z.eqb_spec m majMap) as [->|_].
  { unfold dec_mapping in H. apply bind_Ok_inv in H as (n & -> & H). cbn [mbind result_bind].
    destruct t as [| | | | | | |[] t'|fs|]; try done.
    - apply bind_Ok_inv in H as ([l d'] & Hl & [= _ <-]).
      eapply read_map_skip; [|exact Hl]. intros. by eapply Hsub.
    - apply bind_Ok_inv in H as ([l d'] & Hl & [= _ <-]).
      eapply read_struct_skip; [|exact Hl]. intros i c d0 v0 d2. cbv beta.
      destruct (fs !! i) as [[f t']|]; [apply Hsub|done]. }
  destruct t; simplify_eq; done.
Qed.

Lemma value_skip n : ∀ t cur d v d1, value n t cur d = Ok (v, d1) → skip n d = Ok d1.
Proof.
  induction n as [|n IH]; [done|]. intros t.
  induction t as [| | | | |t IHt|t _|k t _|fs|]; intros cur d v d1 H; cbn [value] in H.
  5: { by apply bind_Ok_inv in H as (d' & Hs & [= <- <-]). }
  all: apply bind_Ok_inv in H as ([[m a] d'] & Hh & H);
    destruct ((m =? majSimple) && (a =? simpleNull)) eqn:Hnull;
    [cbn [skip]; rewrite Hh; cbn [mbind result_bind]; apply andb_true_iff in Hnull as [->%Z.eqb_eq _];
     by simplify_eq|].
  5: { apply bind_Ok_inv in H as ([v' d2] & Hv & [= _ <-]). by eapply IHt. }
  all: cbn [skip]; rewrite Hh; cbn [mbind result_bind]; eapply dec_item_skip; [|exact H]; apply IH.
Qed.

(** Whatever [Unmarshal] accepts, whatever the target, [Wellformed] accepts. *)
Theorem Unmarshal_wellformed data target v :
  Unmarshal data target = Ok v → Wellformed data = Ok tt.
Proof.
  unfold Unmarshal, Wellformed. destruct (MaxBytes <? _); [done|].
  destruct target as [[t cur]|]; [|done]. intros H. apply bind_Ok_inv in H as ([v' d] & Hv & H).
  rewrite (value_skip _ _ _ _ _ _ Hv). cbn [mbind result_bind]. by case_bool_decide.
Qed.


Lemma Wellformed_grammar_witness : ∃ i, encodes (S MaxDepth) i [0x81; 0xf6].
Proof.
  apply (proj1 (Wellformed_grammar [0x81; 0xf6] ltac:(repeat constructor; vm_compute; congruence))).
  vm_compute. reflexivity.
Defined.

(** The converse fails: a repeated map key is well formed, and refused by every map or
    struct target. *)
Example duplicate_key_wellformed :
  let data := [0xa2; 0x61; 0x61; 0x01; 0x61; 0x61; 0x02] in
  Wellformed data = Ok tt ∧
  Unmarshal data (Some (GMap true (GInt 64), VMap true None)) = Err ErrDuplicate ∧
  Unmarshal data (Some (GStruct [], VStruct [])) = Err ErrDuplicate.
Proof. vm_compute. auto. Qed.
