(* ===== verification/CborRoundtrip.v ===== *)
(** * Encoding and decoding are inverse

    [good n t v]: [v] is a value of type [t] that its encoding determines, nested at
    most [n] deep: integers in range, raw messages that are one item, maps in
    canonical order, nil where the decoder produces nil. For such values [Marshal]
    succeeds and [Unmarshal] into a zero target gives the value back. *)
From S2P Require Import Prelude GoStrings Sha256 Cbor CborGrammar.

(** ** Headers in the shortest form *)

Lemma lor_header m c : 0 ≤ m ≤ 7 → 0 ≤ c < 32 → Z.lor (Z.shiftl m 5) c = 32 * m + c.
Proof.
  intros Hm Hc. rewrite <-Z.add_nocarry_lor.
  - rewrite Z.shiftl_mul_pow2 by lia. lia.
  - apply Z.bits_inj'. intros i Hi. rewrite Z.land_spec, Z.bits_0.
    destruct (Z.lt_ge_cases i 5).
    + by rewrite Z.shiftl_spec_low.
    + rewrite andb_comm, (Z.bits_above_log2 c i); [done|lia|].
      destruct (Z.eq_dec c 0) as [->|]; [cbn; lia|].
      assert (Z.log2 c < 5); [|lia]. apply Z.log2_lt_pow2; lia.
Qed.

Lemma enc_head_hd m a : 0 ≤ m ≤ 7 → 0 ≤ a < 2 ^ 64 → hd m a (enc_head m a).
Proof.
  intros Hm Ha. unfold enc_head.
  destruct (Z.ltb_spec a 24); [rewrite lor_header by lia; apply hd_short; lia|].
  destruct (Z.leb_spec a 255); [rewrite lor_header by lia; apply (hd_long _ _ 1); [set_solver|cbn; lia]|].
  destruct (Z.leb_spec a 65535); [rewrite lor_header by lia; apply (hd_long _ _ 2); [set_solver|cbn; lia]|].
  destruct (Z.leb_spec a 4294967295); [rewrite lor_header by lia; apply (hd_long _ _ 4); [set_solver|cbn; lia]|].
  rewrite lor_header by lia. apply (hd_long _ _ 8); [set_solver|]. cbn in *; lia.
Qed.

Lemma head_enc m a d : 0 ≤ m ≤ 5 → 0 ≤ a < 2 ^ 64 → head (enc_head m a ++ d) = Ok (m, a, d).
Proof. intros. apply head_hd; [done|]. apply enc_head_hd; lia. Qed.

Lemma read_key_enc k d : Z.of_nat (length k) < 2 ^ 64 → read_key (enc_key k ++ d) = Ok (k, d).
Proof.
  intros Hk. unfold enc_key. rewrite <-app_assoc. apply read_key_app, enc_head_hd; unfold majText; lia.
Qed.

Lemma enc_head_nonempty m a : (1 ≤ length (enc_head m a))%nat.
Proof. unfold enc_head. repeat case_match; cbn; lia. Qed.

(** ** Values determined by their encoding *)

(** Whether a value of pointed-to type is written as null, which a pointer reads as nil. *)
Definition writes_null (v : gval) : Prop :=
  match v with VPtr None => True | VRaw (Some raw) => raw = [0xf6] | _ => False end.

Definition omitted (f : gfield) (v : gval) : bool :=
  contains (field_opts f) (bs "omitempty") && is_zero v.

Definition key_order (a b : bytes) : Prop := keys_leb (enc_key a) (enc_key b) = true.

Definition small (n : nat) : Prop := Z.of_nat n < 2 ^ 64.

Fixpoint good (n : nat) : gtype → gval → Prop :=
  match n with
  | O => λ _ _, False
  | S n' =>
      fix gd (t : gtype) (v : gval) {struct t} : Prop :=
        match t, v with
        | GBool, VBool _ => True
        | GUint w, VUint z => 0 ≤ w ≤ 64 ∧ 0 ≤ z < 2 ^ w
        | GInt w, VInt z => 1 ≤ w ≤ 64 ∧ - 2 ^ (w - 1) ≤ z < 2 ^ (w - 1)
        | GString, VString s => small (length s)
        | GRaw, VRaw (Some raw) => Forall is_byte raw ∧ Wellformed raw = Ok tt ∧ skip n raw = Ok []
        | GPtr _, VPtr None => True
        | GPtr t', VPtr (Some v') => gd t' v' ∧ ¬ writes_null v'
        | GSlice t', VBytes None => t' = GUint 8
        | GSlice t', VBytes (Some b) => t' = GUint 8 ∧ b ≠ [] ∧ small (length b)
        | GSlice t', VSlice (Some l) => t' ≠ GUint 8 ∧ Forall (good n' t') l ∧ small (length l)
        | GMap true t', VMap true (Some m) =>
            NoDup m.*1 ∧ StronglySorted key_order m.*1 ∧ small (length m) ∧
            Forall (λ kv, small (length kv.1) ∧ good n' t' kv.2) m
        | GStruct fs, VStruct l =>
            small (length fs) ∧ NoDup (omap field_name fs.*1) ∧ l.*1 = fs.*1 ∧
            Forall2 (λ ft fv,
              match field_name ft.1 with
              | None => fv.2 = zero ft.2
              | Some name =>
                  if omitted ft.1 fv.2 then fv.2 = zero ft.2
                  else small (length name) ∧ good n' ft.2 fv.2
              end) fs l
        | _, _ => False
        end
  end.

(** What the round trip of one value says. *)
Definition trips (n : nat) (t : gtype) (v : gval) (b : bytes) : Prop :=
  (∀ d, value n t (zero t) (b ++ d) = Ok (v, d)) ∧ (1 ≤ length b)%nat.

(** ** Sequences *)

Lemma elems_trip (enc : gval → result cberr bytes) (dec : bytes → result cberr (gval * bytes)) l :
  Forall (λ v, ∃ b, enc v = Ok b ∧ (1 ≤ length b)%nat ∧ ∀ d, dec (b ++ d) = Ok (v, d)) l →
  ∃ b, enc_elems enc l = Ok b ∧ (length l ≤ length b)%nat ∧
       ∀ d, read_list (length l) dec (b ++ d) = Ok (l, d).
Proof.
  induction 1 as [|v l (b & Hb & Hl & Hd) _ (bs & Hbs & Hls & Hds)]; [by exists []|].
  exists (b ++ bs). cbn. rewrite Hb. cbn. rewrite Hbs. cbn. split_and!; [done| |].
  - rewrite length_app. lia.
  - intros d. rewrite <-app_assoc, Hd. cbn. by rewrite Hds.
Qed.

(** One entry of a map, as written and as read. *)
Definition entry_trip (dec : bytes → result cberr (gval * bytes)) (kv : bytes * gval) (p : pair) : Prop :=
  small (length kv.1) ∧ p_key p = enc_key kv.1 ∧ (1 ≤ length (p_value p))%nat ∧
  ∀ d, dec (p_value p ++ d) = Ok (kv.2, d).

Definition pair_bytes (p : pair) : bytes := p_key p ++ p_value p.

Lemma pair_length dec kv p : entry_trip dec kv p → (2 ≤ length (pair_bytes p))%nat.
Proof.
  intros (_ & Hk & Hv & _). unfold pair_bytes. rewrite Hk. unfold enc_key. rewrite !length_app.
  pose proof (enc_head_nonempty majText (Z.of_nat (length kv.1))). lia.
Qed.

Lemma entries_trip enc dec m :
  Forall (λ kv, small (length kv.1) ∧
            ∃ b, enc kv.2 = Ok b ∧ (1 ≤ length b)%nat ∧ ∀ d, dec (b ++ d) = Ok (kv.2, d)) m →
  ∃ ps, enc_entries enc m = Ok ps ∧ Forall2 (entry_trip dec) m ps.
Proof.
  induction 1 as [|[k v] m (Hk & b & Hb & Hl & Hd) _ (ps & Hps & Hm)]; [by exists []|].
  exists (mkPair (enc_key k) b :: ps). cbn in *. unfold pairFor. rewrite Hb. cbn. rewrite Hps. cbn.
  split; [done|]. by constructor.
Qed.

Lemma read_map_trip dec m : ∀ ps out d,
  Forall2 (entry_trip dec) m ps → NoDup (out.*1 ++ m.*1) →
  read_map (length m) dec out (mjoin (pair_bytes <$> ps) ++ d) = Ok (out ++ m, d).
Proof.
  induction m as [|[k v] m IH]; intros ps out d Hm Hn.
  { apply Forall2_nil_inv_l in Hm as ->. by rewrite app_nil_r. }
  apply Forall2_cons_inv_l in Hm as (p & ps' & (Hk & Hpk & _ & Hd) & Hm & ->).
  cbn [length read_map fst snd] in *. unfold pair_bytes at 1. cbn. rewrite Hpk, <-!app_assoc, read_key_enc by done.
  cbn [mbind result_bind]. rewrite bool_decide_false.
  - rewrite Hd. cbn [mbind result_bind]. rewrite (IH ps' (out ++ [(k, v)])); [|done|].
    + by rewrite <-app_assoc.
    + rewrite fmap_app, <-app_assoc. done.
  - apply NoDup_app in Hn as (_ & Hn & _). intros Hin. apply (Hn _ Hin). by left.
Qed.

(** ** Structs *)

Lemma Forall2_perm_r {A B} (R : A → B → Prop) l k k' :
  Forall2 R l k → k ≡ₚ k' → ∃ l', l ≡ₚ l' ∧ Forall2 R l' k'.
Proof.
  intros H Hp. revert l H. induction Hp as [|x k k' _ IH|x y k|k1 k2 k3 _ IH1 _ IH2]; intros l H.
  - apply Forall2_nil_inv_r in H as ->. by exists [].
  - apply Forall2_cons_inv_r in H as (a & l0 & Ha & Hl & ->).
    destruct (IH _ Hl) as (l' & Hl' & Hf). exists (a :: l'). split; [by rewrite Hl'|by constructor].
  - apply Forall2_cons_inv_r in H as (a & l0 & Ha & Hl & ->).
    apply Forall2_cons_inv_r in Hl as (b & l1 & Hb & Hl & ->).
    exists (b :: a :: l1). split; [by constructor|by repeat constructor].
  - destruct (IH1 _ H) as (l1 & Hl1 & Hf1). destruct (IH2 _ Hf1) as (l2 & Hl2 & Hf2).
    exists l2. split; [by rewrite Hl1|done].
Qed.

Lemma field_index_None fs name : ∀ j, name ∉ omap field_name fs → field_index j fs name = None.
Proof.
  induction fs as [|f fs IH]; intros j Hn; cbn; [done|]. cbn in Hn.
  rewrite IH; [|destruct (field_name f); set_solver].
  rewrite bool_decide_false; [done|]. intros Hf. rewrite Hf in Hn. set_solver.
Qed.

Lemma field_index_Some fs name f : ∀ i j,
  NoDup (omap field_name fs) → fs !! i = Some f → field_name f = Some name →
  field_index j fs name = Some (j + i)%nat.
Proof.
  induction fs as [|f' fs IH]; intros i j Hn Hi Hf; [done|]. cbn in Hn. cbn [field_index].
  destruct i as [|i]; cbn in Hi.
  - injection Hi as ->. rewrite Hf in Hn. apply NoDup_cons in Hn as [Hn _].
    rewrite field_index_None by done. rewrite bool_decide_true by done. f_equal. lia.
  - rewrite (IH i (S j)); [f_equal; lia| |done|done].
    destruct (field_name f'); [by apply NoDup_cons in Hn as [_ Hn]|done].
Qed.

(** An entry of a struct: the index of its field, its encoded name and its value. *)
Abbreviation sentry := (nat * bytes * gval)%type.
Definition e_index (e : sentry) : nat := e.1.1.
Definition e_name (e : sentry) : bytes := e.1.2.
Definition e_val (e : sentry) : gval := e.2.

Section Struct.
Variable sub : gtype → gval → bytes → result cberr (gval * bytes).
Variable skip1 : bytes → result cberr bytes.
Variable FS : list (gfield * gtype).
Hypothesis names_nodup : NoDup (omap field_name FS.*1).

Definition field_trip (e : sentry) (p : pair) : Prop :=
  ∃ f t, FS !! e_index e = Some (f, t) ∧ field_name f = Some (e_name e) ∧
         entry_trip (sub t (zero t)) (e_name e, e_val e) p.

Definition field_dec (i : nat) (cur : gval) (d : bytes) : result cberr (gval * bytes) :=
  match FS !! i with Some (_, t') => sub t' cur d | None => Err ErrType end.

Lemma field_dec_eq i f t cur d : FS !! i = Some (f, t) → field_dec i cur d = sub t cur d.
Proof. unfold field_dec. by intros ->. Qed.

Definition fill (vals : list gval) (es : list sentry) : list gval :=
  foldl (λ vs e, <[e_index e := e_val e]> vs) vals es.

Lemma read_struct_trip es : ∀ ps seen vals d,
  Forall2 field_trip es ps → NoDup (e_name <$> es) → NoDup (e_index <$> es) →
  Forall (λ e, e_name e ∉ seen) es →
  Forall (λ e, ∀ f t, FS !! e_index e = Some (f, t) → vals !! e_index e = Some (zero t)) es →
  read_struct (length es) FS.*1 field_dec skip1 seen vals (mjoin (pair_bytes <$> ps) ++ d)
    = Ok (fill vals es, d).
Proof using names_nodup.
  induction es as [|e es IH]; intros ps seen vals d Ht Hn Hi Hs Hv.
  { by apply Forall2_nil_inv_l in Ht as ->. }
  apply Forall2_cons_inv_l in Ht as (p & ps' & (f & t & Hf & Hname & Hsm & Hpk & _ & Hd) & Ht & ->).
  apply NoDup_cons in Hn as [Hn1 Hn]. apply NoDup_cons in Hi as [Hi1 Hi].
  apply Forall_cons in Hs as [Hs1 Hs]. apply Forall_cons in Hv as [Hv1 Hv].
  cbn [fst snd] in *. cbn [length read_struct]. unfold pair_bytes at 1. cbn.
  rewrite Hpk, <-!app_assoc, read_key_enc by done. cbn [mbind result_bind].
  rewrite bool_decide_false by done.
  rewrite (field_index_Some FS.*1 (e_name e) f (e_index e) 0 names_nodup); [|by rewrite list_lookup_fmap, Hf|done].
  rewrite Nat.add_0_l, (Hv1 f t Hf). cbn [default]. rewrite (field_dec_eq _ f t) by done.
  change (default VInvalid (Some (zero t))) with (zero t). rewrite Hd. cbn [mbind result_bind]. apply IH; [done..| |].
  - apply Forall_forall. intros e' He'. rewrite Forall_forall in Hs.
    rewrite not_elem_of_cons. split; [|by apply Hs]. intros Heq. apply Hn1. rewrite <-Heq.
    by apply list_elem_of_fmap_2.
  - apply Forall_forall. intros e' He' f' t' Hf'. rewrite Forall_forall in Hv.
    rewrite list_lookup_insert_ne; [by eapply Hv|]. intros Heq. apply Hi1. rewrite Heq.
    by apply list_elem_of_fmap_2.
Qed.

(** Filling in the entries of a value gives the value, if the rest already agrees. *)
Lemma fill_target T es : ∀ vals,
  Forall (λ e, T !! e_index e = Some (e_val e)) es → length vals = length T →
  (∀ i, T !! i = vals !! i ∨ i ∈ (e_index <$> es)) → fill vals es = T.
Proof.
  induction es as [|e es IH]; intros vals He Hl Hi; cbn.
  - apply list_eq. intros i. destruct (Hi i) as [<-|H]; [done|]. by apply elem_of_nil in H.
  - apply Forall_cons in He as [He1 He]. apply IH; [done|by rewrite length_insert|].
    intros i. destruct (decide (i = e_index e)) as [->|Hne].
    + left. rewrite list_lookup_insert_eq; [done|]. rewrite Hl. by eapply lookup_lt_Some.
    + rewrite list_lookup_insert_ne by done. destruct (Hi i) as [|H]; [by left|].
      cbn in H. apply elem_of_cons in H as [->|]; [done|by right].
Qed.

(** The fields that are written, with the entries they are. *)
Lemma enc_fields_trip enc l : ∀ k fs,
  (∀ i, fs !! i = FS !! (k + i)%nat) →
  Forall2 (λ ft fv, fv.1 = ft.1 ∧
    match field_name ft.1 with
    | None => fv.2 = zero ft.2
    | Some name =>
        if omitted ft.1 fv.2 then fv.2 = zero ft.2
        else small (length name) ∧ ∃ b, enc fv.2 = Ok b ∧ (1 ≤ length b)%nat ∧
               ∀ d, sub ft.2 (zero ft.2) (b ++ d) = Ok (fv.2, d)
    end) fs l →
  ∃ es ps, enc_fields enc l = Ok ps ∧ Forall2 field_trip es ps ∧
    (e_name <$> es) `sublist_of` omap field_name fs.*1 ∧
    Forall (λ e, (k ≤ e_index e)%nat ∧ l.*2 !! (e_index e - k)%nat = Some (e_val e)) es ∧
    NoDup (e_index <$> es) ∧
    (∀ i t v, fs.*2 !! i = Some t → l.*2 !! i = Some v → v = zero t ∨ (k + i)%nat ∈ (e_index <$> es)).
Proof.
  induction l as [|[f v] l IH]; intros k fs Hfs Hl.
  { apply Forall2_nil_inv_r in Hl as ->. exists [], []. split_and!; [done|constructor|constructor|constructor|constructor|done]. }
  apply Forall2_cons_inv_r in Hl as ([f' t] & fs' & [Heq Hc] & Hl & ->). cbn [fst snd] in *. subst f'.
  destruct (IH (S k) fs') as (es & ps & He & Ht & Hs & Hf & Hn & Hcov); [|done|].
  { intros i. rewrite Nat.add_succ_comm, <-Hfs. done. }
  assert (FS !! k = Some (f, t)) as Hk by (rewrite <-(Nat.add_0_r k), <-Hfs; done).
  assert (Forall (λ e, (k ≤ e_index e)%nat ∧ ((f, v) :: l).*2 !! (e_index e - k)%nat = Some (e_val e)) es) as Hf'.
  { eapply Forall_impl; [exact Hf|]. intros e [Hle He']. split; [lia|].
    replace (e_index e - k)%nat with (S (e_index e - S k)) by lia. done. }
  assert (∀ i t' v', (f, t) :: fs' = (f, t) :: fs' → (i ≠ 0)%nat → ((f, t) :: fs').*2 !! i = Some t' →
            ((f, v) :: l).*2 !! i = Some v' → v' = zero t' ∨ (k + i)%nat ∈ (e_index <$> es)) as Hcov'.
  { intros [|i] t' v' _ Hi Ht' Hv'; [done|]. rewrite <-Nat.add_succ_comm. by apply Hcov. }
  cbn [enc_fields]. destruct (field_name f) as [name|] eqn:Hname; [destruct (omitted f v) eqn:Hom|].
  - unfold omitted in Hom. rewrite Hom. exists es, ps. split_and!; try done.
    + cbn. rewrite Hname. by apply sublist_cons.
    + intros [|i] t' v' Ht' Hv'; [cbn in *; simplify_eq; by left|by apply Hcov'].
  - destruct Hc as (Hsm & b & Hb & Hlb & Hd). unfold omitted in Hom. rewrite Hom.
    exists ((k, name, v) :: es), (mkPair (enc_key name) b :: ps). unfold pairFor. rewrite Hb. cbn.
    rewrite He. cbn. split_and!; [done| | | | |].
    + constructor; [|done]. exists f, t. by split_and!.
    + rewrite Hname. by apply sublist_skip.
    + constructor; [|done]. cbn. split; [lia|]. by rewrite Nat.sub_diag.
    + constructor; [|done]. rewrite list_elem_of_fmap. intros (e & Hke & Hin).
      rewrite Forall_forall in Hf. destruct (Hf e Hin) as [Hle _]. cbn in Hke. lia.
    + intros [|i] t' v' Ht' Hv'; [right; rewrite Nat.add_0_r; by left|].
      destruct (Hcov' (S i) t' v' eq_refl ltac:(done) Ht' Hv'); [by left|right; by right].
  - exists es, ps. split_and!; try done.
    + cbn. by rewrite Hname.
    + intros [|i] t' v' Ht' Hv'; [cbn in *; simplify_eq; by left|by apply Hcov'].
Qed.
End Struct.

(** ** The round trip *)

Definition not_null (b : bytes) : Prop :=
  ∀ d, ∃ m a d1, head (b ++ d) = Ok (m, a, d1) ∧ ((m =? majSimple) && (a =? simpleNull)) = false.

Lemma not_null_hd m a h s : 0 ≤ m ≤ 5 → hd m a h → not_null (h ++ s).
Proof.
  intros Hm Hh d. rewrite <-app_assoc, (head_hd m a) by done. exists m, a, (s ++ d).
  split; [done|]. unfold majSimple. by rewrite (proj2 (Z.eqb_neq m 7)) by lia.
Qed.

Lemma encodes_not_null n i b : encodes n i b → b ≠ [0xf6] → not_null b.
Proof.
  destruct n; [done|]. destruct i as [z|z|s|s|l|m|x|]; cbn [encodes]; intros H Hb.
  - rewrite <-(app_nil_r b). eapply not_null_hd; [|exact H]. by unfold majUint.
  - rewrite <-(app_nil_r b). eapply not_null_hd; [|exact H]. by unfold majNegInt.
  - destruct H as (h & Hh & ->). by eapply not_null_hd; [|exact Hh].
  - destruct H as (h & Hh & ->). by eapply not_null_hd; [|exact Hh].
  - destruct H as (h & bs & Hh & _ & ->). by eapply not_null_hd; [|exact Hh].
  - destruct H as (h & bs & Hh & _ & ->). by eapply not_null_hd; [|exact Hh].
  - intros d. subst. exists majSimple, (if x then simpleTrue else simpleFalse), d. by destruct x.
  - done.
Qed.

(** Reading an item that is not null into a target that is neither raw nor a pointer. *)
Definition plain (t : gtype) : Prop := match t with GRaw | GPtr _ => False | _ => True end.

Lemma value_item n t cur m a d :
  plain t → 0 ≤ m ≤ 5 → 0 ≤ a < 2 ^ 64 →
  value (S n) t cur (enc_head m a ++ d) = dec_item (value n) (skip n) t cur m a d.
Proof.
  intros Ht Hm Ha. pose proof (head_enc m a d Hm Ha) as Hh.
  destruct t; try done; cbn [value]; rewrite Hh; cbn [mbind result_bind];
    unfold majSimple; by rewrite (proj2 (Z.eqb_neq m 7)) by lia.
Qed.

Definition trip_result (n : nat) (t : gtype) (v : gval) (b : bytes) : Prop :=
  trips n t v b ∧ (¬ writes_null v → not_null b).

Lemma trip_head n t v m a s :
  plain t → 0 ≤ m ≤ 5 → 0 ≤ a < 2 ^ 64 →
  (∀ d, dec_item (value n) (skip n) t (zero t) m a (s ++ d) = Ok (v, d)) →
  trip_result (S n) t v (enc_head m a ++ s).
Proof.
  intros Ht Hm Ha Hd. split; [split|].
  - intros d. rewrite <-app_assoc, value_item by done. apply Hd.
  - rewrite length_app. pose proof (enc_head_nonempty m a). lia.
  - intros _. apply (not_null_hd m a); [done|]. apply enc_head_hd; lia.
Qed.

Lemma trip_struct n depth fs l :
  (∀ t v, good n t v → ∃ b, enc_value v (S depth) = Ok b ∧ trip_result n t v b) →
  good (S n) (GStruct fs) (VStruct l) →
  ∃ ps, enc_fields (λ x, enc_value x (S depth)) l = Ok ps ∧
        trip_result (S n) (GStruct fs) (VStruct l) (writePairs ps).
Proof.
  intros IH (Hsm & Hnd & Hfst & Hl).
  destruct (enc_fields_trip (value n) fs (λ x, enc_value x (S depth)) l 0 fs) as
    (es & ps & Hps & Ht & Hsub & Hval & Hidx & Hcov); [done| |].
  { apply Forall2_same_length_lookup_2; [by eapply Forall2_length|].
    intros i [f t] [f' v] Hi Hi'. split.
    - assert (fs.*1 !! i = l.*1 !! i) as H by (by rewrite Hfst).
      rewrite !list_lookup_fmap, Hi, Hi' in H. by injection H.
    - pose proof (Forall2_lookup_lr _ _ _ _ _ _ Hl Hi Hi') as H. cbn in *.
      destruct (field_name f); [|done]. destruct (omitted f v); [done|]. destruct H as [? Hg].
      split; [done|]. destruct (IH _ _ Hg) as (b & Hb & [Hd Hlb] & _). eauto. }
  exists ps. split; [done|]. pose proof (Forall2_length _ _ _ Ht) as Hlen.
  set (sorted := stable_sort (λ a b, keys_leb (p_key a) (p_key b)) ps).
  assert (ps ≡ₚ sorted) as Hperm by (symmetry; apply stable_sort_perm).
  destruct (Forall2_perm_r _ _ _ _ Ht Hperm) as (es' & Hes & Ht').
  pose proof (Forall2_length _ _ _ Ht') as Hlen'. pose proof (Permutation_length Hperm) as Hplen.
  assert (length es ≤ length fs)%nat as Hle.
  { pose proof (sublist_length _ _ Hsub) as H. rewrite length_fmap in H.
    assert (∀ l, length (omap field_name l) ≤ length l)%nat as H'.
    { clear. intros l. induction l as [|f l IH]; cbn; [lia|]. destruct (field_name f); cbn; lia. }
    specialize (H' fs.*1). rewrite length_fmap in H'. lia. }
  unfold writePairs. fold sorted.
  apply trip_head; [done|unfold majMap; lia|unfold small in Hsm; lia|]. intros d.
  change (dec_item (value n) (skip n) (GStruct fs) (zero (GStruct fs)) majMap (Z.of_nat (length ps))
            (mjoin (pair_bytes <$> sorted) ++ d) = Ok (VStruct l, d)).
  cbn [dec_item majMap majArray majText majBytes majNegInt majUint Z.eqb Pos.eqb]. unfold dec_mapping.
  rewrite fits_ok; [|lia|].
  - cbn [mbind result_bind zero].
    set (zs := (_ <$> fs).*2).
    assert (zs = (λ ft, zero ft.2) <$> fs) as Hzs.
    { unfold zs. rewrite <-list_fmap_compose. apply list_fmap_ext. by intros _ [] _. }
    rewrite Hplen, <-Hlen'. fold (field_dec (value n) fs).
    rewrite (read_struct_trip (value n) (skip n) fs Hnd es' sorted [] zs d Ht').
    + cbn [mbind result_bind]. rewrite (fill_target l.*2).
      * rewrite <-Hfst, zip_fst_snd. done.
      * rewrite <-Hes. eapply Forall_impl; [exact Hval|]. cbn. intros e [_ H]. by rewrite Nat.sub_0_r in H.
      * rewrite Hzs, !length_fmap. by eapply Forall2_length.
      * intros i. rewrite <-Hes, Hzs, !list_lookup_fmap.
        destruct (fs !! i) as [[f t]|] eqn:Hi.
        -- destruct (Forall2_lookup_l _ _ _ _ _ Hl Hi) as ([f' v] & Hi' & _). rewrite Hi'.
           destruct (Hcov i t v) as [->|Hin]; [by rewrite list_lookup_fmap, Hi|by rewrite list_lookup_fmap, Hi'|by left|by right].
        -- left. apply lookup_ge_None in Hi.
           rewrite lookup_ge_None_2; [done|]. by rewrite <-(Forall2_length _ _ _ Hl).
    + rewrite <-Hes. by eapply sublist_NoDup.
    + by rewrite <-Hes.
    + apply Forall_forall. intros e _. apply not_elem_of_nil.
    + apply Forall_forall. intros e _ f t He. by rewrite Hzs, list_lookup_fmap, He.
  - assert (2 * length es' ≤ length (mjoin (pair_bytes <$> sorted)))%nat; [|rewrite length_app; lia].
    eapply (mjoin_length_ge (λ e b, ∃ p, field_trip (value n) fs e p ∧ b = pair_bytes p)).
    + intros e b (p & (f & t & _ & _ & Hp) & ->). by eapply pair_length.
    + apply Forall2_fmap_r. eapply Forall2_impl; [exact Ht'|]. cbn. eauto.
Qed.

Lemma trip_map n depth t m :
  (∀ t v, good n t v → ∃ b, enc_value v (S depth) = Ok b ∧ trip_result n t v b) →
  good (S n) (GMap true t) (VMap true (Some m)) →
  ∃ ps, enc_entries (λ x, enc_value x (S depth)) m = Ok ps ∧
        trip_result (S n) (GMap true t) (VMap true (Some m)) (writePairs ps).
Proof.
  intros IH (Hn & Hs & Hsm & Hm).
  destruct (entries_trip (λ x, enc_value x (S depth)) (value n t (zero t)) m) as (ps & Hps & Ht).
  { eapply Forall_impl; [exact Hm|]. intros [k v] [Hk Hg]. split; [done|]. cbn in *.
    destruct (IH _ _ Hg) as (b & Hb & [Hd Hl] & _). eauto. }
  exists ps. split; [done|]. pose proof (Forall2_length _ _ _ Ht) as Hlen.
  unfold writePairs. rewrite stable_sort_sorted_id.
  - apply trip_head; [done|unfold majMap; lia|unfold small in Hsm; lia|]. intros d.
    change (dec_item (value n) (skip n) (GMap true t) (zero (GMap true t)) majMap (Z.of_nat (length ps))
              (mjoin (pair_bytes <$> ps) ++ d) = Ok (VMap true (Some m), d)).
    cbn [dec_item majMap majArray majText majBytes majNegInt majUint Z.eqb Pos.eqb]. unfold dec_mapping.
    rewrite fits_ok; [|lia|].
    + cbn [mbind result_bind]. rewrite <-Hlen.
      rewrite (read_map_trip (value n t (zero t)) m ps [] d Ht); [done|done].
    + assert (2 * length m ≤ length (mjoin (pair_bytes <$> ps)))%nat; [|rewrite length_app; lia].
      eapply (mjoin_length_ge (λ kv b, ∃ p, entry_trip (value n t (zero t)) kv p ∧ b = pair_bytes p)).
      * intros kv b (p & Hp & ->). by eapply pair_length.
      * apply Forall2_fmap_r. eapply Forall2_impl; [exact Ht|]. cbn. eauto.
  - clear -Hs Ht. revert Hs. induction Ht as [|kv p m ps Hp Hm IH]; intros Hs; [constructor|].
    cbn in Hs. apply StronglySorted_inv in Hs as [Hs Hk]. constructor; [by apply IH|].
    destruct Hp as (_ & Hpk & _). clear IH Hs. revert Hk.
    induction Hm as [|kv' p' m ps (_ & Hpk' & _) _ IH]; intros Hk; [constructor|].
    cbn in Hk. apply Forall_cons in Hk as [Hk1 Hk]. constructor; [|by apply IH].
    rewrite Hpk, Hpk'. exact Hk1.
Qed.

Lemma trip_raw n raw :
  Forall is_byte raw → skip n raw = Ok [] → trip_result n GRaw (VRaw (Some raw)) raw.
Proof.
  intros Hb Hs. destruct n as [|n]; [done|].
  destruct (skip_sound _ _ _ Hb Hs) as (i & b & Hi & Hr). rewrite app_nil_r in Hr. subst b.
  split; [split|].
  - intros d. cbn [value]. rewrite (skip_complete _ i) by done. cbn [mbind result_bind].
    by rewrite length_app, Nat.add_sub, take_app_length.
  - by eapply encodes_nonempty.
  - cbn. intros Hn. by eapply encodes_not_null.
Qed.

Lemma trip_ptr n t v b :
  trip_result (S n) t v b → ¬ writes_null v → trip_result (S n) (GPtr t) (VPtr (Some v)) b.
Proof.
  intros [[Hd Hl] Hn] Hw. split; [split|]; [|done|by intros _; apply Hn].
  intros d. destruct (Hn Hw d) as (m & a & d1 & Hh & Hnull). specialize (Hd d).
  cbn [value] in *. rewrite Hh. cbn [mbind result_bind]. rewrite Hnull.
  change (zero (GPtr t)) with (VPtr None).
  etransitivity; [exact (f_equal (λ r, '(v, d2) ← r; Ok (VPtr (Some v), d2)) Hd)|done].
Qed.

Lemma trip_simple n t v arg :
  arg = simpleFalse ∨ arg = simpleTrue ∨ arg = simpleNull →
  (∀ d, value (S n) t (zero t) ((224 + arg) :: d) = Ok (v, d)) →
  (arg = simpleNull → writes_null v) →
  trip_result (S n) t v [224 + arg].
Proof.
  intros Ha Hd Hw. split; [split; [done|cbn; lia]|]. intros Hn d.
  exists majSimple, arg, d. destruct Ha as [->|[->| ->]]; [done..|]. destruct Hn. by apply Hw.
Qed.

Lemma trip_uint n t v z : plain t → 0 ≤ z < 2 ^ 64 → setUint t z = Ok v →
  trip_result (S n) t v (enc_head majUint z).
Proof.
  intros Ht Hz Hs. rewrite <-(app_nil_r (enc_head _ _)). apply trip_head; [done|unfold majUint; lia|done|].
  intros d. cbn. by rewrite Hs.
Qed.

Lemma trip_negint n w z : 1 ≤ w ≤ 64 → - 2 ^ (w - 1) ≤ z < 0 →
  trip_result (S n) (GInt w) (VInt z) (enc_head majNegInt (-1 - z)).
Proof.
  intros Hw Hz. assert (2 ^ (w - 1) ≤ 2 ^ 63) by (apply Z.pow_le_mono_r; lia).
  rewrite <-(app_nil_r (enc_head _ _)). apply trip_head; [done|unfold majNegInt; lia|lia|].
  intros d. unfold dec_item. cbn [majNegInt majUint Z.eqb Pos.eqb].
  rewrite (proj2 (Z.ltb_ge max_int64 _)) by (unfold max_int64; lia). unfold setInt, fits_int.
  replace (-1 - (-1 - z)) with z by lia.
  assert (0 < 2 ^ (w - 1)) by (apply Z.pow_pos_nonneg; lia).
  rewrite (proj2 (Z.leb_le _ _)), (proj2 (Z.ltb_lt _ _)) by lia. done.
Qed.

Lemma trip_bytes n s :
  small (length s) →
  trip_result (S n) (GSlice (GUint 8)) (VBytes (if bool_decide (s = []) then None else Some s))
    (enc_head majBytes (Z.of_nat (length s)) ++ s).
Proof.
  intros Hs. unfold small in Hs. apply trip_head; [done|unfold majBytes; lia|lia|].
  intros d. unfold dec_item. cbn [majBytes majNegInt majUint Z.eqb Pos.eqb].
  by rewrite read_bytes_app.
Qed.

Lemma trip_slice n depth t l :
  (∀ t v, good n t v → ∃ b, enc_value v (S depth) = Ok b ∧ trip_result n t v b) →
  t ≠ GUint 8 → Forall (good n t) l → small (length l) →
  ∃ b, enc_elems (λ x, enc_value x (S depth)) l = Ok b ∧
       trip_result (S n) (GSlice t) (VSlice (Some l)) (enc_head majArray (Z.of_nat (length l)) ++ b).
Proof.
  intros IH Ht Hl Hsm. unfold small in Hsm.
  destruct (elems_trip (λ x, enc_value x (S depth)) (value n t (zero t)) l) as (b & Hb & Hlen & Hd).
  { eapply Forall_impl; [exact Hl|]. intros v Hg. destruct (IH _ _ Hg) as (b & Hb & [Hd Hlb] & _). eauto. }
  exists b. split; [done|]. apply trip_head; [done|unfold majArray; lia|lia|]. intros d.
  unfold dec_item. cbn [majArray majText majBytes majNegInt majUint Z.eqb Pos.eqb]. unfold dec_array.
  rewrite fits_ok; [|lia|rewrite length_app; lia]. cbn [mbind result_bind]. rewrite Hd.
  cbn [mbind result_bind]. unfold make_slice. destruct t; try done.
  by destruct (Z.eqb_spec w 8) as [->|].
Qed.

Lemma roundtrip n : ∀ t v depth, (n + depth = S MaxDepth)%nat → good n t v →
  ∃ b, enc_value v depth = Ok b ∧ trip_result n t v b.
Proof.
  induction n as [|n IH]; [done|]. intros t v depth Hdepth.
  assert ((MaxDepth <? depth)%nat = false) as Hlt by (apply Nat.ltb_ge; unfold MaxDepth in *; lia).
  assert (∀ t v, good n t v → ∃ b, enc_value v (S depth) = Ok b ∧ trip_result n t v b) as IHn
    by (intros; apply IH; [lia|done]).
  revert v. induction t as [|w|w| | |t IHt|t _|k t _|fs| ]; intros v Hg.
  - destruct v as [x| | | | | | | | | | | | |]; try done. cbn [enc_value]. rewrite Hlt. eexists; split; [done|].
    destruct x; [apply (trip_simple n GBool (VBool true) simpleTrue)|
                 apply (trip_simple n GBool (VBool false) simpleFalse)]; auto; done.
  - destruct v as [|z| | | | | | | | | | | |]; try done. destruct Hg as [Hw Hz]. cbn [enc_value]. rewrite Hlt.
    eexists; split; [done|]. assert (2 ^ w ≤ 2 ^ 64) by (apply Z.pow_le_mono_r; lia).
    apply trip_uint; [done|lia|]. cbn. unfold fits_uint. by rewrite (proj2 (Z.ltb_lt _ _)) by lia.
  - destruct v as [| |z| | | | | | | | | | |]; try done. destruct Hg as [Hw Hz]. cbn [enc_value]. rewrite Hlt.
    eexists; split; [done|]. destruct (Z.ltb_spec z 0); [apply trip_negint; lia|].
    assert (2 ^ (w - 1) ≤ 2 ^ 63) by (apply Z.pow_le_mono_r; lia).
    apply trip_uint; [done|lia|]. cbn. unfold fits_int.
    rewrite (proj2 (Z.ltb_ge max_int64 _)) by (unfold max_int64; lia).
    by rewrite (proj2 (Z.leb_le _ _)), (proj2 (Z.ltb_lt _ _)) by lia.
  - destruct v as [| | |s| | | | | | | | | |]; try done. cbn in Hg. unfold small in Hg. cbn [enc_value]. rewrite Hlt.
    eexists; split; [done|]. unfold enc_key. apply trip_head; [done|unfold majText; lia|lia|].
    intros d. unfold dec_item. cbn [majText majBytes majNegInt majUint Z.eqb Pos.eqb].
    by rewrite read_bytes_app.
  - destruct v as [| | | |[raw|]| | | | | | | | |]; try done. destruct Hg as (Hb & Hw & Hs).
    cbn [enc_value from_option]. rewrite Hlt. change (id raw) with raw. rewrite Hw. eexists; split; [done|]. by apply trip_raw.
  - destruct v as [| | | | | | | |[v|]| | | | |]; try done.
    + destruct Hg as [Hg Hw]. destruct (IHt v Hg) as (b & Hb & Ht). exists b. split; [|by apply trip_ptr].
      cbn [enc_value]. by rewrite Hlt.
    + cbn [enc_value]. rewrite Hlt. eexists; split; [done|].
      by apply (trip_simple n (GPtr t) (VPtr None) simpleNull); auto.
  - destruct v as [| | | | |[s|]|[l|]| | | | | | |]; try done; cbn [good] in Hg.
    + destruct Hg as (-> & Hs & Hsm). cbn [enc_value]. rewrite Hlt. eexists; split; [done|].
      pose proof (trip_bytes n s Hsm) as H. by rewrite bool_decide_false in H.
    + subst t. cbn [enc_value]. rewrite Hlt. eexists; split; [done|]. by apply (trip_bytes n []).
    + destruct Hg as (Ht & Hl & Hsm). destruct (trip_slice n depth t l IHn Ht Hl Hsm) as (b & Hb & Htr).
      cbn [enc_value]. rewrite Hlt, Hb. by eexists.
  - destruct v as [| | | | | | | | | |k' [m|]| | |]; try (by destruct k); destruct k, k'; try done.
    destruct (trip_map n depth t m IHn Hg) as (ps & Hps & Htr). cbn [enc_value]. rewrite Hlt, Hps. by eexists.
  - destruct v as [| | | | | | | | | | |l| |]; try done.
    destruct (trip_struct n depth fs l IHn Hg) as (ps & Hps & Htr). cbn [enc_value]. rewrite Hlt, Hps. by eexists.
  - done.
Qed.

(** C32 A value its encoding determines survives the round trip: [Marshal] succeeds on
    every value of a type nested at most [MaxDepth] deep, and unless the encoding
    exceeds the size limit, [Unmarshal] of it into a fresh target of the type returns
    the same value. *)
Theorem Marshal_Unmarshal t v :
  good (S MaxDepth) t v →
  ∃ b, Marshal v = Ok b ∧
       (Z.of_nat (length b) ≤ MaxBytes → Unmarshal b (Some (t, zero t)) = Ok v).
Proof.
  intros Hg. destruct (roundtrip (S MaxDepth) t v 0 eq_refl Hg) as (b & Hb & [Hd _] & _).
  exists b. split; [done|]. intros Hl. unfold Unmarshal. rewrite (proj2 (Z.ltb_ge _ _)) by done.
  specialize (Hd []). rewrite app_nil_r in Hd. by rewrite Hd.
Qed.

(** The attestation object of the challenge is such a value. *)
Definition attestation_value : gval :=
  VStruct [(mkField (bs "Fmt") true (bs "fmt"), VString (bs "apple"));
           (mkField (bs "AttStmt") true (bs "attStmt"), VRaw (Some [0x81; 0x01]))].

Lemma attestation_good n : good (S (S (S n))) attestation_type attestation_value.
Proof.
  split_and!; [vm_compute; reflexivity| |reflexivity|].
  - apply (bool_decide_unpack _). vm_compute. exact I.
  - constructor; [|constructor; [|constructor]]; split; [vm_compute; reflexivity..|].
    split_and!; [|vm_compute; reflexivity..]. repeat constructor; lia.
Qed.

Lemma Marshal_Unmarshal_witness :
  ∃ b, Marshal attestation_value = Ok b ∧
       (Z.of_nat (length b) ≤ MaxBytes →
        Unmarshal b (Some (attestation_type, zero attestation_type)) = Ok attestation_value).
Proof. apply (Marshal_Unmarshal attestation_type attestation_value). exact (attestation_good 14). Defined.

(** ** The encoding is canonical

    Go visits the entries of a map in an unspecified order. The encoder sorts the
    encoded keys, so the bytes it writes do not depend on that order, at any depth of
    the value. *)

(** [reordered v v']: [v'] is [v] with the entries of one map, somewhere inside, visited in
    another order. *)
Inductive reordered : gval → gval → Prop :=
| ro_map k m m' : NoDup m.*1 → m ≡ₚ m' → reordered (VMap k (Some m)) (VMap k (Some m'))
| ro_entry k m1 m2 x v v' : reordered v v' →
    reordered (VMap k (Some (m1 ++ (x, v) :: m2))) (VMap k (Some (m1 ++ (x, v') :: m2)))
| ro_field l1 l2 f v v' : reordered v v' →
    reordered (VStruct (l1 ++ (f, v) :: l2)) (VStruct (l1 ++ (f, v') :: l2))
| ro_slice l1 l2 v v' : reordered v v' →
    reordered (VSlice (Some (l1 ++ v :: l2))) (VSlice (Some (l1 ++ v' :: l2)))
| ro_array l1 l2 v v' : reordered v v' →
    reordered (VArray (l1 ++ v :: l2)) (VArray (l1 ++ v' :: l2))
| ro_ptr v v' : reordered v v' → reordered (VPtr (Some v)) (VPtr (Some v'))
| ro_iface v v' : reordered v v' → reordered (VIface (Some v)) (VIface (Some v')).

(** ** The order of the keys *)

#[export] Instance keys_le_total : Total (λ a b, keys_leb a b = true).
Proof.
  intros a b. unfold keys_leb. destruct (Nat.eqb_spec (length a) (length b)) as [H|H]; cbn [negb].
  - rewrite (proj2 (Nat.eqb_eq _ _) (eq_sym H)). cbn [negb]. apply (bytes_le_total a b).
  - rewrite (proj2 (Nat.eqb_neq _ _) (not_eq_sym H)). cbn [negb]. rewrite !Nat.ltb_lt. lia.
Qed.

#[export] Instance keys_le_trans : Transitive (λ a b, keys_leb a b = true).
Proof.
  intros a b c. unfold keys_leb.
  destruct (Nat.eqb_spec (length a) (length b)), (Nat.eqb_spec (length b) (length c)),
    (Nat.eqb_spec (length a) (length c)); cbn [negb]; rewrite ?Nat.ltb_lt; try lia.
  apply (bytes_le_trans a b c).
Qed.

#[export] Instance keys_le_antisymm : AntiSymm (=) (λ a b, keys_leb a b = true).
Proof.
  intros a b. unfold keys_leb. destruct (Nat.eqb_spec (length a) (length b)) as [H|H]; cbn [negb].
  - rewrite (proj2 (Nat.eqb_eq _ _) (eq_sym H)). cbn [negb]. apply (bytes_le_antisymm a b).
  - rewrite (proj2 (Nat.eqb_neq _ _) (not_eq_sym H)). cbn [negb]. rewrite !Nat.ltb_lt. lia.
Qed.

(** A longer argument never has a shorter header, so different keys are written differently. *)
Lemma enc_head_length_mono m a b : a ≤ b → (length (enc_head m a) ≤ length (enc_head m b))%nat.
Proof.
  intros Hab. unfold enc_head.
  destruct (Z.ltb_spec a 24), (Z.ltb_spec b 24), (Z.leb_spec a 255), (Z.leb_spec b 255),
    (Z.leb_spec a 65535), (Z.leb_spec b 65535), (Z.leb_spec a 4294967295), (Z.leb_spec b 4294967295);
    cbn [length]; rewrite ?put_be_length; lia.
Qed.

#[export] Instance enc_key_inj : Inj (=) (=) enc_key.
Proof.
  intros a b H. assert (length a = length b) as Hl.
  { pose proof (f_equal length H) as Hlen. unfold enc_key in Hlen. rewrite !length_app in Hlen.
    destruct (Nat.lt_trichotomy (length a) (length b)) as [Hc|[Hc|Hc]]; [|done|].
    - pose proof (enc_head_length_mono majText (Z.of_nat (length a)) (Z.of_nat (length b)) ltac:(lia)). lia.
    - pose proof (enc_head_length_mono majText (Z.of_nat (length b)) (Z.of_nat (length a)) ltac:(lia)). lia. }
  unfold enc_key in H. rewrite Hl in H. by apply app_inv_head in H.
Qed.

(** ** Entries in another order *)

Lemma enc_entries_keys enc m : ∀ ps, enc_entries enc m = Ok ps → p_key <$> ps = enc_key <$> m.*1.
Proof.
  induction m as [|[k v] m IH]; intros ps H; cbn [enc_entries] in H; [by simplify_eq|].
  apply bind_Ok_inv in H as (p & Hp & H). apply bind_Ok_inv in H as (ps' & Hps & [= <-]).
  apply bind_Ok_inv in Hp as (b & _ & [= <-]). cbn. f_equal. by apply IH.
Qed.

Lemma enc_entries_perm enc m m' ps : m ≡ₚ m' → enc_entries enc m = Ok ps →
  ∃ ps', enc_entries enc m' = Ok ps' ∧ ps ≡ₚ ps'.
Proof.
  intros Hp. revert ps. induction Hp as [|[k v] m m' _ IH|[k v] [k' v'] m|m1 m2 m3 _ IH1 _ IH2]; intros ps H.
  - eauto.
  - cbn [enc_entries] in *. apply bind_Ok_inv in H as (p & -> & H).
    apply bind_Ok_inv in H as (ps0 & H & [= <-]). destruct (IH _ H) as (ps' & -> & Hps).
    exists (p :: ps'). by split; [|rewrite Hps].
  - cbn [enc_entries] in *. apply bind_Ok_inv in H as (p' & Hp' & H).
    apply bind_Ok_inv in H as (ps0 & H & [= <-]). apply bind_Ok_inv in H as (p & Hp & H).
    apply bind_Ok_inv in H as (ps1 & Hps & [= <-]).
    exists (p :: p' :: ps1). cbn. rewrite Hp. cbn. rewrite Hp'. cbn. rewrite Hps. by split; [|constructor].
  - destruct (IH1 _ H) as (ps2 & H2 & Hp2). destruct (IH2 _ H2) as (ps3 & H3 & Hp3).
    exists ps3. by split; [|rewrite Hp2].
Qed.

Lemma writePairs_perm ps ps' : NoDup (p_key <$> ps) → ps ≡ₚ ps' → writePairs ps = writePairs ps'.
Proof.
  intros Hn Hp. unfold writePairs. rewrite (Permutation_length Hp). do 3 f_equal.
  set (leb := λ a b, keys_leb (p_key a) (p_key b)).
  apply (StronglySorted_unique_strong (λ a b, leb a b = true)).
  - intros p q Hpin Hq H1 H2. assert (p_key p = p_key q) as Hk by (by apply keys_le_antisymm).
    rewrite stable_sort_perm in Hpin, Hq. rewrite <-Hp in Hq.
    apply list_elem_of_lookup in Hpin as (i & Hi), Hq as (j & Hj).
    assert (i = j) as ->; [|by simplify_eq].
    eapply (NoDup_lookup (p_key <$> ps)); [done| |]; rewrite list_lookup_fmap; [by rewrite Hi|].
    rewrite Hj. cbn. by rewrite Hk.
  - apply stable_sort_sorted; unfold leb; [intros a b; apply keys_le_total|].
    intros a b c. apply keys_le_trans.
  - apply stable_sort_sorted; unfold leb; [intros a b; apply keys_le_total|].
    intros a b c. apply keys_le_trans.
  - by rewrite !stable_sort_perm.
Qed.

(** ** One element replaced by one written the same way *)

Section Swap.
Variable enc : gval → result cberr bytes.
Variables v v' : gval.
Hypothesis same : ∀ b, enc v = Ok b → enc v' = Ok b.

Lemma enc_elems_swap l1 l2 : ∀ b, enc_elems enc (l1 ++ v :: l2) = Ok b → enc_elems enc (l1 ++ v' :: l2) = Ok b.
Proof using same.
  induction l1 as [|x l1 IH]; intros b H; cbn [app enc_elems] in *;
    apply bind_Ok_inv in H as (b1 & H1 & H); apply bind_Ok_inv in H as (b2 & H2 & [= <-]).
  - by rewrite (same _ H1), H2.
  - by rewrite H1, (IH _ H2).
Qed.

Lemma enc_entries_swap m1 m2 x : ∀ ps,
  enc_entries enc (m1 ++ (x, v) :: m2) = Ok ps → enc_entries enc (m1 ++ (x, v') :: m2) = Ok ps.
Proof using same.
  induction m1 as [|[k y] m1 IH]; intros ps H; cbn [app enc_entries] in *;
    apply bind_Ok_inv in H as (p & H1 & H); apply bind_Ok_inv in H as (ps' & H2 & [= <-]).
  - apply bind_Ok_inv in H1 as (b & H1 & [= <-]). unfold pairFor. by rewrite (same _ H1), H2.
  - by rewrite H1, (IH _ H2).
Qed.

Lemma enc_fields_swap l1 l2 f : is_zero v = is_zero v' → ∀ ps,
  enc_fields enc (l1 ++ (f, v) :: l2) = Ok ps → enc_fields enc (l1 ++ (f, v') :: l2) = Ok ps.
Proof using same.
  intros Hz. induction l1 as [|[g y] l1 IH]; intros ps H; cbn [app enc_fields] in *.
  - destruct (field_name f); [|done]. rewrite <-Hz. destruct (_ && _); [done|].
    apply bind_Ok_inv in H as (p & H1 & H). apply bind_Ok_inv in H1 as (b & H1 & [= <-]).
    unfold pairFor. by rewrite (same _ H1).
  - destruct (field_name g); [|by apply IH]. destruct (_ && _); [by apply IH|].
    apply bind_Ok_inv in H as (p & H1 & H); apply bind_Ok_inv in H as (ps' & H2 & [= <-]).
    by rewrite H1, (IH _ H2).
Qed.
End Swap.

Lemma reordered_is_zero v v' : reordered v v' → is_zero v = is_zero v'.
Proof.
  induction 1; cbn; try done.
  - by rewrite !forallb_app; cbn; rewrite IHreordered.
  - by rewrite !forallb_app; cbn; rewrite IHreordered.
Qed.

Lemma reordered_encodes v v' : reordered v v' →
  ∀ depth b, enc_value v depth = Ok b → enc_value v' depth = Ok b.
Proof.
  induction 1 as [k m m' Hn Hp|k m1 m2 x v v' H IH|l1 l2 f v v' H IH|l1 l2 v v' H IH|l1 l2 v v' H IH
                 |v v' H IH|v v' H IH]; intros depth b; cbn [enc_value];
    (destruct (MaxDepth <? depth)%nat; [done|]); try (destruct k; [|done]); try exact (IH depth b);
    intros He; apply bind_Ok_inv in He as (ps & He & [= <-]).
  - destruct (enc_entries_perm _ _ _ _ Hp He) as (ps' & He' & Hps). rewrite He'. cbn. f_equal.
    symmetry. apply writePairs_perm; [|done]. rewrite (enc_entries_keys _ _ _ He).
    by apply (NoDup_fmap_2 enc_key).
  - by rewrite (enc_entries_swap _ _ _ (IH (S depth)) _ _ _ _ He).
  - by rewrite (enc_fields_swap _ _ _ (IH (S depth)) _ _ _ (reordered_is_zero _ _ H) _ He).
  - rewrite (enc_elems_swap _ _ _ (IH (S depth)) _ _ _ He). cbn. by rewrite !length_app.
  - rewrite (enc_elems_swap _ _ _ (IH (S depth)) _ _ _ He). cbn. by rewrite !length_app.
Qed.

(** The encoding is deterministic: whatever order Go visits the entries of the maps
    inside a value in, [Marshal] writes the same bytes. *)
Theorem Marshal_canonical v v' b :
  rtc reordered v v' → Marshal v = Ok b → Marshal v' = Ok b.
Proof.
  induction 1 as [v|v v1 v' Hs _ IH]; intros H; [done|]. apply IH. by eapply reordered_encodes.
Qed.

Lemma Marshal_canonical_witness :
  let one := VMap true (Some [(bs "b", VUint 1); (bs "aa", VUint 2); (bs "a", VBool true)]) in
  let two := VMap true (Some [(bs "aa", VUint 2); (bs "b", VUint 1); (bs "a", VBool true)]) in
  Marshal (VSlice (Some [one])) = Ok [0x81; 0xa3; 0x61; 0x61; 0xf5; 0x61; 0x62; 0x01; 0x62; 0x61; 0x61; 0x02] ∧
  Marshal (VSlice (Some [two])) = Ok [0x81; 0xa3; 0x61; 0x61; 0xf5; 0x61; 0x62; 0x01; 0x62; 0x61; 0x61; 0x02].
Proof.
  intros one two.
  assert (Marshal (VSlice (Some [one])) =
          Ok [0x81; 0xa3; 0x61; 0x61; 0xf5; 0x61; 0x62; 0x01; 0x62; 0x61; 0x61; 0x02]) as H
    by (vm_compute; reflexivity).
  split; [exact H|]. apply (Marshal_canonical (VSlice (Some [one]))); [|exact H].
  apply rtc_once, (ro_slice [] []), ro_map; [|apply perm_swap].
  apply (bool_decide_unpack _). vm_compute. exact I.
Defined.
