(* ===== verification/Utf8.v ===== *)
(** * UTF-8 and UTF-16

    The parts of the packages unicode/utf8 and unicode/utf16 that the lexers and the
    canonical JSON encoder use. A text is valid when it is the encoding of scalar values;
    such an encoding is read back, and so is the list of UTF-16 units that orders object
    members. *)
From S2P Require Import Prelude GoStrings.

Definition hex_value (c : Z) : option Z :=
  if is_digit c then Some (c - 48)
  else if (97 <=? c) && (c <=? 102) then Some (c - 87)
  else if (65 <=? c) && (c <=? 70) then Some (c - 55) else None.

Definition is_surrogate (r : Z) : bool := (0xd800 <=? r) && (r <? 0xe000).
(** [utf16.DecodeRune], [None] for the replacement character. *)
Definition decode_pair (r low : Z) : option Z :=
  if (0xd800 <=? r) && (r <? 0xdc00) && (0xdc00 <=? low) && (low <? 0xe000)
  then Some ((r - 0xd800) * 1024 + (low - 0xdc00) + 0x10000) else None.

(** The UTF-8 encoding that [strings.Builder.WriteRune] appends; surrogates become the
    replacement character. *)
Definition write_rune (r : Z) : bytes :=
  if r <? 0x80 then [r]
  else if r <? 0x800 then [0xc0 + r / 64; 0x80 + r mod 64]
  else if is_surrogate r then [0xef; 0xbf; 0xbd]
  else if r <? 0x10000 then [0xe0 + r / 4096; 0x80 + r / 64 mod 64; 0x80 + r mod 64]
  else [0xf0 + r / 262144; 0x80 + r / 4096 mod 64; 0x80 + r / 64 mod 64; 0x80 + r mod 64].

(** A rune that has an encoding. *)
Definition scalar (r : Z) : Prop := 0 ≤ r < 0x110000 ∧ is_surrogate r = false.
#[export] Instance scalar_dec r : Decision (scalar r).
Proof. unfold scalar. apply _. Defined.

(** ** Decoding *)

Definition is_cont (c : Z) : bool := (0x80 <=? c) && (c <? 0xc0).

(** [utf8.DecodeRune]: the rune and its length, [None] for an invalid encoding: a stray or
    missing continuation byte, an overlong form, a surrogate, a value past the last rune. *)
Definition decode_rune (s : bytes) : option (Z * nat) :=
  match s with
  | [] => None
  | a :: s1 =>
      if a <? 0x80 then Some (a, 1%nat)
      else
        match s1 with
        | [] => None
        | b :: s2 =>
            if negb (is_cont b) then None
            else if (0xc2 <=? a) && (a <? 0xe0) then Some ((a - 0xc0) * 64 + (b - 0x80), 2%nat)
            else
              match s2 with
              | [] => None
              | c :: s3 =>
                  if negb (is_cont c) then None
                  else if (0xe0 <=? a) && (a <? 0xf0) then
                    let r := (a - 0xe0) * 4096 + (b - 0x80) * 64 + (c - 0x80) in
                    if (0x800 <=? r) && negb (is_surrogate r) then Some (r, 3%nat) else None
                  else
                    match s3 with
                    | [] => None
                    | d :: _ =>
                        if negb (is_cont d) then None
                        else
                          let r := (a - 0xf0) * 262144 + (b - 0x80) * 4096 + (c - 0x80) * 64 + (d - 0x80) in
                          if (0xf0 <=? a) && (0x10000 <=? r) && (r <? 0x110000) then Some (r, 4%nat) else None
                    end
              end
        end
  end.

(** [[]rune(s)]: an invalid byte is a replacement character. *)
Fixpoint runes_of (skip : nat) (s : bytes) : list Z :=
  match s with
  | [] => []
  | _ :: s' =>
      match skip with
      | S n => runes_of n s'
      | O => match decode_rune s with
             | Some (r, n) => r :: runes_of (n - 1) s'
             | None => 0xfffd :: runes_of 0 s'
             end
      end
  end.

(** [utf16.Encode] *)
Definition utf16_units (r : Z) : list Z :=
  if r <? 0x10000 then [r] else [0xd800 + (r - 0x10000) / 1024; 0xdc00 + (r - 0x10000) mod 1024].
Definition utf16_encode (rs : list Z) : list Z := rs ≫= utf16_units.

(** ** Valid texts *)

Definition utf8 (rs : list Z) : bytes := rs ≫= write_rune.
Definition valid_utf8 (s : bytes) : Prop := ∃ rs, Forall scalar rs ∧ s = utf8 rs.

Lemma write_rune_cases r : scalar r →
  (0 ≤ r < 0x80 ∧ write_rune r = [r]) ∨
  (0x80 ≤ r < 0x800 ∧ write_rune r = [0xc0 + r / 64; 0x80 + r mod 64]) ∨
  (0x800 ≤ r < 0x10000 ∧ write_rune r = [0xe0 + r / 4096; 0x80 + r / 64 mod 64; 0x80 + r mod 64]) ∨
  (0x10000 ≤ r < 0x110000 ∧ write_rune r = [0xf0 + r / 262144; 0x80 + r / 4096 mod 64; 0x80 + r / 64 mod 64; 0x80 + r mod 64]).
Proof.
  intros [Hr Hs]. unfold write_rune. rewrite Hs.
  destruct (Z.ltb_spec r 0x80); [left; split; [lia|done]|].
  destruct (Z.ltb_spec r 0x800); [right; left; split; [lia|done]|].
  destruct (Z.ltb_spec r 0x10000); [right; right; left; split; [lia|done]|]. right; right; right. split; [lia|done].
Qed.

Lemma cont_mod x : is_cont (0x80 + x mod 64) = true.
Proof. unfold is_cont. pose proof (Z.mod_pos_bound x 64 ltac:(lia)). lia. Qed.

(** The bytes of a rune are read as that rune. *)
Lemma decode_write r t : scalar r → decode_rune (write_rune r ++ t) = Some (r, length (write_rune r)).
Proof.
  intros Hs. destruct (write_rune_cases r Hs) as [[Hr ->]|[[Hr ->]|[[Hr ->]|[Hr ->]]]]; cbn [app decode_rune length].
  - by rewrite (proj2 (Z.ltb_lt _ _)) by lia.
  - pose proof (Z.div_mod r 64 ltac:(lia)). pose proof (Z.mod_pos_bound r 64 ltac:(lia)).
    rewrite (proj2 (Z.ltb_ge _ 0x80)), cont_mod by lia. cbn [negb].
    rewrite (proj2 (Z.leb_le _ _)), (proj2 (Z.ltb_lt _ 0xe0)) by lia. cbn [andb]. do 2 f_equal. lia.
  - pose proof (Z.div_mod r 4096 ltac:(lia)). pose proof (Z.mod_pos_bound r 64 ltac:(lia)).
    pose proof (Z.div_mod r 64 ltac:(lia)). pose proof (Z.div_mod (r / 64) 64 ltac:(lia)) as H64.
    pose proof (Z.mod_pos_bound (r / 64) 64 ltac:(lia)). rewrite Z.div_div in H64 by lia. change (64 * 64) with 4096 in H64.
    rewrite (proj2 (Z.ltb_ge _ 0x80)), !cont_mod by lia. cbn [negb].
    rewrite (proj2 (Z.ltb_ge _ 0xe0)), andb_false_r by lia.
    rewrite (proj2 (Z.leb_le 0xe0 _)), (proj2 (Z.ltb_lt _ 0xf0)) by lia. cbn [andb].
    replace ((0xe0 + r / 4096 - 0xe0) * 4096 + (0x80 + r / 64 mod 64 - 0x80) * 64 + (0x80 + r mod 64 - 0x80)) with r by lia.
    destruct Hs as [_ ->]. by rewrite (proj2 (Z.leb_le 0x800 r)) by lia.
  - pose proof (Z.div_mod r 64 ltac:(lia)). pose proof (Z.mod_pos_bound r 64 ltac:(lia)).
    pose proof (Z.div_mod (r / 64) 64 ltac:(lia)) as H64. pose proof (Z.mod_pos_bound (r / 64) 64 ltac:(lia)).
    rewrite Z.div_div in H64 by lia. change (64 * 64) with 4096 in H64.
    pose proof (Z.div_mod (r / 4096) 64 ltac:(lia)) as H4. pose proof (Z.mod_pos_bound (r / 4096) 64 ltac:(lia)).
    rewrite Z.div_div in H4 by lia. change (4096 * 64) with 262144 in H4.
    rewrite (proj2 (Z.ltb_ge _ 0x80)), !cont_mod by lia. cbn [negb].
    rewrite (proj2 (Z.ltb_ge _ 0xe0)), andb_false_r by lia. rewrite (proj2 (Z.ltb_ge _ 0xf0)), andb_false_r by lia.
    replace ((0xf0 + r / 262144 - 0xf0) * 262144 + (0x80 + r / 4096 mod 64 - 0x80) * 4096 + (0x80 + r / 64 mod 64 - 0x80) * 64
             + (0x80 + r mod 64 - 0x80)) with r by lia.
    by rewrite (proj2 (Z.leb_le _ _)), (proj2 (Z.leb_le _ _)), (proj2 (Z.ltb_lt _ _)) by lia.
Qed.

(** What is read as a rune is its encoding. *)
Lemma decode_rune_spec a s r0 n : decode_rune (a :: s) = Some (r0, n) → 0 ≤ a →
  scalar r0 ∧ n = length (write_rune r0) ∧ a :: s = write_rune r0 ++ drop n (a :: s) ∧ (0x80 ≤ a → 0x80 ≤ r0).
Proof.
  intros H Ha. assert (∀ x y, 0 ≤ y < 64 → (x * 64 + y) mod 64 = y ∧ (x * 64 + y) / 64 = x) as Hd.
  { intros x y Hy. rewrite Z.add_comm, Z.mod_add, Z.div_add, Z.mod_small, Z.div_small by lia. lia. }
  cbn [decode_rune] in H. destruct (Z.ltb_spec a 0x80).
  { injection H as <- <-. assert (scalar a) as Hs by (split; [lia|]; unfold is_surrogate; lia).
    destruct (write_rune_cases a Hs) as [[_ ->]|[[? _]|[[? _]|[? _]]]]; [|lia..]. split_and!; [done|done|done|lia]. }
  destruct s as [|b s]; [done|]. destruct (is_cont b) eqn:Hb; [|done]. cbn [negb] in H. unfold is_cont in Hb.
  destruct ((0xc2 <=? a) && (a <? 0xe0)) eqn:Ha2.
  { injection H as <- <-. set (r := (a - 0xc0) * 64 + (b - 0x80)). destruct (Hd (a - 0xc0) (b - 0x80)) as [H1 H2]; [lia|]. fold r in H1, H2.
    assert (0x80 ≤ r < 0x800) by (unfold r; lia). assert (scalar r) as Hs by (split; [lia|]; unfold is_surrogate; lia).
    destruct (write_rune_cases r Hs) as [[? _]|[[_ ->]|[[? _]|[? _]]]]; [lia| |lia..].
    split_and!; [done|done| |lia]. rewrite H1, H2. cbn. repeat f_equal; lia. }
  destruct s as [|c s]; [done|]. destruct (is_cont c) eqn:Hc; [|done]. cbn [negb] in H. unfold is_cont in Hc.
  destruct ((0xe0 <=? a) && (a <? 0xf0)) eqn:Ha3.
  { revert H. set (r := (a - 0xe0) * 4096 + (b - 0x80) * 64 + (c - 0x80)).
    destruct ((0x800 <=? r) && negb (is_surrogate r)) eqn:Hr; [|done]. apply andb_true_iff in Hr as [Hr Hsur%negb_true_iff].
    assert (r = ((a - 0xe0) * 64 + (b - 0x80)) * 64 + (c - 0x80)) as Er by (unfold r; lia).
    destruct (Hd ((a - 0xe0) * 64 + (b - 0x80)) (c - 0x80)) as [H1 H2]; [lia|]. rewrite <-Er in H1, H2.
    destruct (Hd (a - 0xe0) (b - 0x80)) as [H3 H4]; [lia|]. rewrite <-H2 in H3, H4. rewrite Z.div_div in H4 by lia. change (64 * 64) with 4096 in H4.
    assert (0x800 ≤ r < 0x10000) by lia. assert (scalar r) as Hs by (split; [lia|done]).
    intros [= <- <-]. destruct (write_rune_cases r Hs) as [[? _]|[[? _]|[[_ ->]|[? _]]]]; [lia|lia| |lia].
    split_and!; [done|done| |lia]. rewrite H1, H3, H4. cbn. repeat f_equal; lia. }
  destruct s as [|d s]; [done|]. destruct (is_cont d) eqn:Hdc; [|done]. cbn [negb] in H. unfold is_cont in Hdc.
  revert H. set (r := (a - 0xf0) * 262144 + (b - 0x80) * 4096 + (c - 0x80) * 64 + (d - 0x80)).
  destruct ((0xf0 <=? a) && (0x10000 <=? r) && (r <? 0x110000)) eqn:Hr; [|done].
  assert (r = (((a - 0xf0) * 64 + (b - 0x80)) * 64 + (c - 0x80)) * 64 + (d - 0x80)) as Er by (unfold r; lia).
  destruct (Hd (((a - 0xf0) * 64 + (b - 0x80)) * 64 + (c - 0x80)) (d - 0x80)) as [H1 H2]; [lia|]. rewrite <-Er in H1, H2.
  destruct (Hd ((a - 0xf0) * 64 + (b - 0x80)) (c - 0x80)) as [H3 H4]; [lia|]. rewrite <-H2 in H3, H4. rewrite Z.div_div in H4 by lia.
  destruct (Hd (a - 0xf0) (b - 0x80)) as [H5 H6]; [lia|]. rewrite <-H4 in H5, H6. rewrite Z.div_div in H6 by lia.
  change (64 * 64) with 4096 in *. change (4096 * 64) with 262144 in *.
  assert (0x10000 ≤ r < 0x110000) by lia. assert (scalar r) as Hs by (split; [lia|]; unfold is_surrogate; lia).
  intros [= <- <-]. destruct (write_rune_cases r Hs) as [[? _]|[[? _]|[[? _]|[_ ->]]]]; [lia..|].
  split_and!; [done|done| |lia]. rewrite H1, H3, H5, H6. cbn. repeat f_equal; lia.
Qed.

Lemma write_rune_ne r : scalar r → write_rune r ≠ [].
Proof. intros Hs. by destruct (write_rune_cases r Hs) as [[_ ->]|[[_ ->]|[[_ ->]|[_ ->]]]]. Qed.

Lemma runes_skip w s : runes_of (length w) (w ++ s) = runes_of 0 s.
Proof. induction w as [|c w IH]; [done|]. done. Qed.

Lemma runes_write r s : scalar r → runes_of 0 (write_rune r ++ s) = r :: runes_of 0 s.
Proof.
  intros Hs. pose proof (decode_write r s Hs) as Hd. pose proof (write_rune_ne r Hs).
  destruct (write_rune r) as [|c w]; [done|]. cbn [app] in *. cbn [runes_of]. rewrite Hd. cbn [length]. rewrite Nat.sub_1_r. cbn [Nat.pred].
  by rewrite runes_skip.
Qed.

Lemma runes_utf8 rs : Forall scalar rs → runes_of 0 (utf8 rs) = rs.
Proof. induction 1 as [|r rs Hr _ IH]; [done|]. unfold utf8 in *. cbn. by rewrite runes_write, IH. Qed.

(** ** The order of names *)

Lemma utf16_encode_inj rs : ∀ rs', Forall scalar rs → Forall scalar rs' → utf16_encode rs = utf16_encode rs' → rs = rs'.
Proof.
  assert (∀ r u, scalar r → ∃ a t, utf16_units r ++ u = a :: t ∧
    ((a = r ∧ t = u ∧ (a < 0xd800 ∨ 0xe000 ≤ a)) ∨ (0xd800 ≤ a < 0xdc00 ∧ ∃ b, t = b :: u ∧ r = 0x10000 + (a - 0xd800) * 1024 + (b - 0xdc00)))) as Hu.
  { intros r u [Hr Hs]. unfold utf16_units, is_surrogate in *. destruct (Z.ltb_spec r 0x10000).
    - eexists _, _. split; [reflexivity|]. left. split_and!; [done|done|lia].
    - pose proof (Z.div_mod (r - 0x10000) 1024 ltac:(lia)). pose proof (Z.mod_pos_bound (r - 0x10000) 1024 ltac:(lia)).
      assert ((r - 0x10000) / 1024 < 1024) by (apply Z.div_lt_upper_bound; lia). assert (0 ≤ (r - 0x10000) / 1024) by (apply Z.div_pos; lia).
      eexists _, _. split; [reflexivity|]. right. split; [lia|]. eexists. split; [reflexivity|]. lia. }
  assert (∀ r u, scalar r → utf16_units r ++ u ≠ []) as Hne by (intros r u Hr E; destruct (Hu r u Hr) as (a & t & E' & _); by rewrite E in E').
  induction rs as [|r rs IH]; intros [|r' rs'] H H' E; [done|..].
  - apply Forall_cons in H' as [H' _]. symmetry in E. by apply Hne in E.
  - apply Forall_cons in H as [H _]. by apply Hne in E.
  - apply Forall_cons in H as [Hr H], H' as [Hr' H']. cbn in E. fold (utf16_encode rs) (utf16_encode rs') in E.
    destruct (Hu r (utf16_encode rs) Hr) as (a & t & E1 & C1), (Hu r' (utf16_encode rs') Hr') as (a' & t' & E2 & C2).
    unfold utf16_encode in E, E1, E2. rewrite E1, E2 in E. injection E as <- <-.
    destruct C1 as [(-> & -> & ?)|(? & b & -> & ->)], C2 as [(-> & E & ?)|(? & b' & E & ->)]; try lia.
    + f_equal. by apply IH.
    + injection E as -> E. f_equal. by apply IH.
Qed.

(** The key by which object members are ordered. *)
Definition utf16_key (name : bytes) : list Z := utf16_encode (runes_of 0 name).

Lemma utf16_key_inj a b : valid_utf8 a → valid_utf8 b → utf16_key a = utf16_key b → a = b.
Proof.
  intros (rs & Hr & ->) (rs' & Hr' & ->). unfold utf16_key. rewrite !runes_utf8 by done. intros E. f_equal. by apply utf16_encode_inj.
Qed.

Lemma valid_nil : valid_utf8 [].
Proof. by exists []. Qed.
Lemma valid_cons r s : scalar r → valid_utf8 s → valid_utf8 (write_rune r ++ s).
Proof. intros Hr (rs & Hrs & ->). exists (r :: rs). split; [by constructor|done]. Qed.
