(* ===== verification/Float64.v ===== *)
(** * Floating point numbers

    The part of [float64] and [strconv] that predicates use: comparison, conversion
    of integers, [strconv.ParseFloat] on decimal text and [strconv.FormatFloat] with
    the shortest digits that read back ([FormatFloat(f, 'g', -1, 64)]). A finite
    number is a sign and a magnitude in units of 2^-1074, the smallest positive
    [float64], so that rounding and comparison are integer arithmetic. *)
From S2P Require Import Prelude GoStrings.

Inductive float64 := FNaN | FInf (neg : bool) | FFin (neg : bool) (mag : Z).
#[export] Instance float64_eq_dec : EqDecision float64.
Proof. solve_decision. Defined.

(** ** Comparison *)

Definition signed (neg : bool) (m : Z) : Z := if neg then - m else m.

Definition feqb (a b : float64) : bool :=
  match a, b with
  | FNaN, _ | _, FNaN => false
  | FInf s, FInf t => bool_decide (s = t)
  | FFin s m, FFin t n => signed s m =? signed t n
  | _, _ => false
  end.

Definition fltb (a b : float64) : bool :=
  match a, b with
  | FNaN, _ | _, FNaN => false
  | FInf s, FInf t => s && negb t
  | FInf s, FFin _ _ => s
  | FFin _ _, FInf t => negb t
  | FFin s m, FFin t n => signed s m <? signed t n
  end.

(** ** Rounding *)

(** The units per one. *)
Definition ulp_scale : Z := 2 ^ 1074.
(** The exponent of the spacing of the numbers of a magnitude: 53 significant bits. *)
Definition spacing (q : Z) : Z := Z.max 0 (Z.log2 q - 52).

(** [num / den] units, to nearest, ties to even. *)
Definition round_units (num den : Z) : Z :=
  let k := spacing (num / den) in
  let d := den * 2 ^ k in
  let q := num / d in
  let r := num mod d in
  (if (d <? 2 * r) || ((2 * r =? d) && Z.odd q) then q + 1 else q) * 2 ^ k.

(** Magnitudes that are [float64]s. *)
Definition representable (m : Z) : Prop := 0 ≤ m < 2 ^ 2098 ∧ m mod 2 ^ spacing m = 0.
#[export] Instance representable_dec m : Decision (representable m).
Proof. unfold representable. apply _. Defined.
Definition finite (f : float64) : Prop := match f with FFin _ m => representable m | _ => False end.

(** Rounding an exact value, whatever the common factor, changes nothing. *)
Lemma round_units_exact m c : representable m → 0 < c → round_units (m * c) c = m.
Proof.
  intros [Hm Hr] Hc. unfold round_units. rewrite Z.div_mul by lia.
  set (k := spacing m) in *. assert (0 < 2 ^ k) by (apply Z.pow_pos_nonneg; unfold k, spacing; lia).
  rewrite (Z.mul_comm m c), Z.div_mul_cancel_l, Z.mul_mod_distr_l, Hr, Z.mul_0_r by lia.
  rewrite (proj2 (Z.ltb_ge _ _)) by nia. rewrite (proj2 (Z.eqb_neq _ _)) by nia. cbn [orb andb].
  rewrite Z.mul_comm. symmetry. by apply Z.div_exact; [lia|].
Qed.

(** A rounded value is representable unless it overflows. *)
Lemma round_units_representable num den :
  0 ≤ num → 0 < den → round_units num den < 2 ^ 2098 → representable (round_units num den).
Proof.
  intros Hn Hd. unfold round_units. set (u := num / den).
  assert (0 ≤ u) as Hu by (apply Z.div_pos; lia).
  set (k := spacing u). assert (0 ≤ k) as Hk by (unfold k, spacing; lia).
  assert (0 < 2 ^ k) as H2 by (apply Z.pow_pos_nonneg; lia).
  assert (num / (den * 2 ^ k) = u / 2 ^ k) as -> by (unfold u; by rewrite Z.div_div by lia).
  set (q := u / 2 ^ k). assert (0 ≤ q) by (apply Z.div_pos; lia).
  assert (q < 2 ^ 53 ∧ (k = 0 ∨ 2 ^ 52 ≤ q)) as [Hq1 Hq2].
  { unfold q, k, spacing. destruct (decide (u = 0)) as [->|]; [cbn; rewrite Z.div_0_l; lia|].
    pose proof (Z.log2_spec u ltac:(lia)) as [Hl1 Hl2]. pose proof (Z.log2_nonneg u).
    split.
    - apply Z.div_lt_upper_bound; [done|]. fold k. unfold k, spacing in *. rewrite <-Z.pow_add_r by lia.
      eapply Z.lt_le_trans; [exact Hl2|]. apply Z.pow_le_mono_r; lia.
    - destruct (Z.max_spec 0 (Z.log2 u - 52)) as [[Hlt ->]|[_ ->]]; [right|by left].
      apply Z.div_le_lower_bound; [lia|]. rewrite <-Z.pow_add_r by lia.
      by replace (Z.log2 u - 52 + 52) with (Z.log2 u) by lia. }
  set (up := _ || _). set (q' := if up then q + 1 else q).
  assert (0 ≤ q' ≤ 2 ^ 53 ∧ (k = 0 ∨ 2 ^ 52 ≤ q')) as [Hq' Hq''] by (unfold q'; destruct up; lia).
  intros Hov. clearbody q' q k u. split; [split; [nia|done]|]. clear Hov.
  assert (spacing (q' * 2 ^ k) = k ∨ q' = 2 ^ 53 ∨ k = 0) as Hs.
  { destruct (decide (q' = 2 ^ 53)); [auto|]. destruct (decide (k = 0)); [auto|]. left.
    unfold spacing. rewrite Z.log2_mul_pow2 by lia.
    assert (Z.log2 q' = 52) as -> by (apply Z.log2_unique; lia). lia. }
  destruct Hs as [->|[->| ->]]; [by apply Z.mod_mul; lia| |].
  - unfold spacing. rewrite Z.log2_mul_pow2, Z.log2_pow2, Z.max_r by lia.
    replace (2 ^ 53 * 2 ^ k) with (2 ^ 52 * 2 ^ (k + 53 - 52))
      by (rewrite <-!Z.pow_add_r by lia; f_equal; lia).
    apply Z.mod_mul. apply Z.pow_nonzero; lia.
  - rewrite Z.mul_1_r. unfold spacing. destruct (decide (q' = 2 ^ 53)) as [->|]; [done|].
    assert (Z.log2 q' < 53); [|rewrite Z.max_l by lia; apply Z.mod_1_r].
    destruct (decide (q' = 0)) as [->|]; [done|]. apply Z.log2_lt_pow2; lia.
Qed.

(** The [float64] nearest to an integer: the conversion [float64(i)]. *)
Definition float_of_Z (z : Z) : float64 := FFin (z <? 0) (round_units (Z.abs z * ulp_scale) 1).

(** ** Decimal text *)

(** The units of [m * 10^e], rounded. *)
Definition decimal_units (m e : Z) : Z :=
  round_units (m * ulp_scale * 10 ^ Z.max 0 e) (10 ^ Z.max 0 (- e)).

(** The exponent digits, which stop counting once past 10000. *)
Definition exp_value (ds : bytes) : Z :=
  foldl (λ e d, if e <? 10000 then e * 10 + (d - 48) else e) 0 ds.

(** The digits after a point, if there is one. *)
Definition fraction (s : bytes) : bytes * bytes :=
  match s with
  | c :: s' => if c =? 46 then span is_digit s' else ([], s)
  | [] => ([], [])
  end.

(** [strconv.ParseFloat(s, 64)] on decimal text: an optional sign, digits with an
    optional point, an optional exponent. [None] is a syntax or a range error. *)
Definition ParseFloat (s : bytes) : option float64 :=
  let '(neg, s) := split_sign s in
  let '(ip, s) := span is_digit s in
  let '(fp, s) := fraction s in
  if bool_decide (ip = []) && bool_decide (fp = []) then None
  else
    let ex := match s with
              | [] => Some 0
              | c :: s' =>
                  if negb ((c =? 101) || (c =? 69)) then None
                  else
                    let '(eneg, ds) := split_sign s' in
                    if bool_decide (ds = []) || negb (all_digits ds) then None
                    else Some (signed eneg (exp_value ds))
              end in
    match ex with
    | None => None
    | Some x =>
        let m := decimal_units (dec_value (ip ++ fp)) (x - Z.of_nat (length fp)) in
        if 2 ^ 2098 <=? m then None else Some (FFin neg m)
    end.

(** ** The shortest digits *)

(** [x * 2^-n] in lowest terms. *)
Fixpoint strip_twos (n : nat) (x : Z) : Z * nat :=
  match n with
  | O => (x, O)
  | S n' => if Z.even x then strip_twos n' (x / 2) else (x, n)
  end.

Section Shortest.
(** The magnitude, and its exact decimal expansion [D * 10^-k]. *)
Variables X D : Z.
Variable k : nat.

(** [drop] is how many digits of [D] are left out; the candidates are [D] rounded
    down and up at that digit, the nearer one when both read back. *)
Fixpoint shortest (drop : nat) : Z * Z :=
  match drop with
  | O => (D, - Z.of_nat k)
  | S drop' =>
      let step := 10 ^ Z.of_nat drop in
      let e := Z.of_nat drop - Z.of_nat k in
      let down := D / step in
      let up := down + 1 in
      let r := D mod step in
      let okdown := decimal_units down e =? X in
      let okup := decimal_units up e =? X in
      if okdown && okup then
        ((if (step <? 2 * r) || ((2 * r =? step) && Z.odd down) then up else down), e)
      else if okdown then (down, e)
      else if okup then (up, e)
      else shortest drop'
  end.
End Shortest.

Definition zeros (n : Z) : bytes := replicate (Z.to_nat n) 48.

(** The verb [%e]: one digit, a point if more follow, at least two exponent digits. *)
Definition fmt_e (ds : bytes) (x : Z) : bytes :=
  take 1 ds ++ (if (1 <? length ds)%nat then 46 :: drop 1 ds else [])
  ++ 101 :: (if x <? 0 then 45 else 43) :: (if Z.abs x <? 10 then 48 :: itoa (Z.abs x) else itoa (Z.abs x)).

(** The verb [%f], for a number [0.ds * 10^dp]. *)
Definition fmt_f (ds : bytes) (dp : Z) : bytes :=
  let nd := Z.of_nat (length ds) in
  (if 0 <? dp then take (Z.to_nat dp) ds ++ zeros (dp - nd) else [48])
  ++ (if 0 <? nd - dp then 46 :: zeros (- dp) ++ drop (Z.to_nat dp) ds else []).

(** The verb [%g] with the shortest digits: exponents below -4 or from 6 on use [%e]. *)
Definition fmt_g (ds : bytes) (dp : Z) : bytes :=
  if (dp - 1 <? -4) || (6 <=? dp - 1) then fmt_e ds (dp - 1) else fmt_f ds dp.

(** [m * 10^e] without the zeros at the end of [m]. *)
Fixpoint drop_zeros (n : nat) (m e : Z) : Z * Z :=
  match n with
  | O => (m, e)
  | S n' => if m mod 10 =? 0 then drop_zeros n' (m / 10) (e + 1) else (m, e)
  end.

(** The shortest digits of a magnitude, and the place of its point: [0.ds * 10^dp]. *)
Definition shortest_digits (x : Z) : bytes * Z :=
  let '(y, k) := strip_twos 1074 x in
  let D := y * 5 ^ Z.of_nat k in
  let '(m, e) := shortest x D k (length (itoa D) - 1) in
  let '(m, e) := drop_zeros (length (itoa m)) m e in
  (itoa m, Z.of_nat (length (itoa m)) + e).

Definition FormatFloat (f : float64) : bytes :=
  match f with
  | FNaN => bs "NaN"
  | FInf neg => if neg then bs "-Inf" else bs "+Inf"
  | FFin neg x =>
      (if (neg : bool) then [45] else []) ++
      (if x =? 0 then [48] else let '(ds, dp) := shortest_digits x in fmt_g ds dp)
  end.

Example format_values :
  FormatFloat <$> [float_of_Z 0; float_of_Z (-5); float_of_Z 1000000; float_of_Z 123456;
                   FFin false (decimal_units 1 (-1)); FFin true (decimal_units 123 (-9));
                   float_of_Z 9007199254740993; FFin false (decimal_units 1 23)] =
  [bs "0"; bs "-5"; bs "1e+06"; bs "123456"; bs "0.1"; bs "-1.23e-07"; bs "9.007199254740992e+15"; bs "1e+23"].
Proof. vm_compute. reflexivity. Qed.

(** ** Reading back what is printed *)

Lemma strip_twos_spec n : ∀ x, let '(y, k) := strip_twos n x in
  x * 2 ^ Z.of_nat k = y * 2 ^ Z.of_nat n ∧ (k ≤ n)%nat ∧ (0 < x → 0 < y).
Proof.
  induction n as [|n IH]; intros x; cbn [strip_twos]; [by split_and!|].
  destruct (Z.even x) eqn:He; [|by split_and!].
  apply Z.even_spec in He as [h ->]. rewrite (Z.mul_comm 2 h), Z.div_mul by lia.
  specialize (IH h). destruct (strip_twos n h) as [y k]. destruct IH as (IH & Hk & Hp).
  split_and!; [|lia|intros; apply Hp; lia]. rewrite Nat2Z.inj_succ, Z.pow_succ_r by lia. nia.
Qed.

Section Reads.
Variables X D : Z.
Variable k : nat.
Hypothesis exact : decimal_units D (- Z.of_nat k) = X.
Hypothesis positive : 0 < D.

Lemma shortest_reads drop : let '(m, e) := shortest X D k drop in decimal_units m e = X ∧ 0 ≤ m.
Proof using exact positive.
  induction drop as [|d IH]; [cbn; lia|]. cbn [shortest].
  set (step := 10 ^ _). assert (0 < step) by (apply Z.pow_pos_nonneg; lia).
  assert (0 ≤ D / step) by (apply Z.div_pos; lia).
  destruct (Z.eqb_spec (decimal_units (D / step) (Z.of_nat (S d) - Z.of_nat k)) X);
    destruct (Z.eqb_spec (decimal_units (D / step + 1) (Z.of_nat (S d) - Z.of_nat k)) X);
    cbn [andb]; [destruct (_ || _)|..]; try (split; [done|lia]). exact IH.
Qed.
End Reads.

Lemma exact_expansion x y k : representable x → strip_twos 1074 x = (y, k) →
  decimal_units (y * 5 ^ Z.of_nat k) (- Z.of_nat k) = x.
Proof.
  intros Hx Hs. pose proof (strip_twos_spec 1074 x) as H. rewrite Hs in H. destruct H as (H & Hk & _).
  unfold decimal_units. rewrite Z.max_l, Z.opp_involutive, Z.max_r, Z.mul_1_r by lia.
  replace (y * 5 ^ Z.of_nat k * ulp_scale) with (x * 10 ^ Z.of_nat k).
  - apply round_units_exact; [done|]. apply Z.pow_pos_nonneg; lia.
  - change 10 with (2 * 5). rewrite Z.pow_mul_l. unfold ulp_scale.
    change 1074 with (Z.of_nat 1074). nia.
Qed.

(** Decimal text by its parts: sign, digits before and after the point, signed exponent. *)
Definition numeral (neg : bool) (ip fp : bytes) (ex : option (bool * bytes)) : bytes :=
  (if neg then [45] else []) ++ ip ++ (if bool_decide (fp = []) then [] else 46 :: fp)
  ++ match ex with None => [] | Some (eneg, ds) => 101 :: (if (eneg : bool) then 45 else 43) :: ds end.

Definition digits (s : bytes) : Prop := all_digits s = true.
Definition exponent (ex : option (bool * bytes)) : Z :=
  match ex with None => 0 | Some (eneg, ds) => signed eneg (exp_value ds) end.

(** Parts the scanner of a number reads as one. *)
Definition numeral_ok (ip fp : bytes) (ex : option (bool * bytes)) : Prop :=
  ip ≠ [] ∧ digits ip ∧ digits fp ∧
  match ex with None => True | Some (_, ds) => ds ≠ [] ∧ digits ds end.

Lemma split_sign_neg (neg : bool) (ip r : bytes) : ip ≠ [] → digits ip →
  split_sign ((if neg then [45] else []) ++ ip ++ r) = (neg, ip ++ r).
Proof.
  intros Hn Hd. destruct neg; [done|]. destruct ip as [|c ip]; [done|]. cbn in *.
  apply andb_true_iff in Hd as [Hc%is_digit_spec _].
  rewrite (proj2 (Z.eqb_neq c 45)) by lia. by rewrite (proj2 (Z.eqb_neq c 43)) by lia.
Qed.

Lemma ParseFloat_numeral neg ip fp ex :
  numeral_ok ip fp ex →
  ParseFloat (numeral neg ip fp ex) =
    let m := decimal_units (dec_value (ip ++ fp)) (exponent ex - Z.of_nat (length fp)) in
    if 2 ^ 2098 <=? m then None else Some (FFin neg m).
Proof.
  intros (Hip & Hd & Hf & He). unfold ParseFloat, numeral. rewrite split_sign_neg by done.
  set (tail := match ex with None => [] | Some (eneg, ds) => 101 :: (if (eneg : bool) then 45 else 43) :: ds end).
  assert (stops is_digit tail) as Ht by (unfold tail; destruct ex as [[[] ?]|]; done).
  assert (span is_digit (ip ++ (if bool_decide (fp = []) then [] else 46 :: fp) ++ tail) =
          (ip, (if bool_decide (fp = []) then [] else 46 :: fp) ++ tail)) as ->.
  { apply span_stop; [done|]. case_bool_decide; done. }
  assert (fraction ((if bool_decide (fp = []) then [] else 46 :: fp) ++ tail) = (fp, tail)) as Hs.
  { case_bool_decide as Hfp; [subst fp; cbn; unfold tail; by destruct ex as [[[] ?]|]|].
    cbn. by apply span_stop. }
  rewrite Hs. rewrite (bool_decide_false (ip = [])) by done. cbn [andb].
  unfold tail. destruct ex as [[eneg ds]|]; [|done]. destruct He as [Hne Hds]. cbn [Z.eqb Pos.eqb orb negb].
  replace (split_sign ((if eneg then 45 else 43) :: ds)) with (eneg, ds) by (by destruct eneg).
  rewrite bool_decide_false, Hds by done. done.
Qed.

Lemma digits_app a b : digits (a ++ b) ↔ digits a ∧ digits b.
Proof. unfold digits, all_digits. rewrite forallb_app, andb_true_iff. done. Qed.

Lemma zeros_spec n : digits (zeros n) ∧ dec_value (zeros n) = 0 ∧ length (zeros n) = Z.to_nat n.
Proof.
  unfold zeros. split_and!; [..|by rewrite length_replicate].
  - induction (Z.to_nat n) as [|k IH]; [done|]. exact IH.
  - induction (Z.to_nat n) as [|k IH]; [done|]. exact IH.
Qed.

Lemma dec_value_app2 a b : dec_value (a ++ b) = dec_value a * 10 ^ Z.of_nat (length b) + dec_value b.
Proof. unfold dec_value at 1. rewrite foldl_app. apply foldl_dec_value. Qed.

Lemma digits_nonneg ds : digits ds → 0 ≤ dec_value ds.
Proof.
  induction ds as [|d ds IH] using rev_ind; [done|]. intros [Hd Hx]%digits_app. rewrite dec_value_app.
  cbn in Hx. apply andb_true_iff in Hx as [Hx%is_digit_spec _]. specialize (IH Hd). lia.
Qed.

Lemma exp_value_dec ds : digits ds → dec_value ds < 100000 → exp_value ds = dec_value ds.
Proof.
  induction ds as [|d ds IH] using rev_ind; [done|]. intros [Hd Hx]%digits_app. rewrite dec_value_app. intros Hb.
  cbn in Hx. apply andb_true_iff in Hx as [Hx%is_digit_spec _].
  unfold exp_value in *. rewrite foldl_app. cbn [foldl]. rewrite IH by (done || lia).
  by rewrite (proj2 (Z.ltb_lt _ _)) by lia.
Qed.

Lemma itoa_length n : 0 ≤ n → Z.of_nat (length (itoa n)) ≤ Z.log2 n + 1.
Proof.
  intros Hn. unfold itoa. rewrite (proj2 (Z.ltb_ge _ _)) by lia. unfold utoa.
  assert (∀ f n acc, length (utoa_fuel f n acc) ≤ f + length acc)%nat as H.
  { clear. induction f as [|f IH]; intros n acc; cbn [utoa_fuel]; [lia|].
    destruct (n <? 10); [cbn; lia|]. etransitivity; [apply IH|]. cbn. lia. }
  specialize (H (S (Z.to_nat (Z.log2 n))) n []). pose proof (Z.log2_nonneg n).
  change (length []) with 0%nat in H. lia.
Qed.

(** What a layout of digits has to satisfy to be read as the number it stands for. *)
Definition lays_out (ds : bytes) (dp : Z) (text : bytes) : Prop :=
  ∃ ip fp ex, (∀ neg : bool, (if neg then [45] else []) ++ text = numeral neg ip fp ex) ∧
    numeral_ok ip fp ex ∧ (ip = [48] ∨ head ip = head ds) ∧
    decimal_units (dec_value (ip ++ fp)) (exponent ex - Z.of_nat (length fp)) =
    decimal_units (dec_value ds) (dp - Z.of_nat (length ds)).

Lemma fmt_e_lays_out ds x : ds ≠ [] → digits ds → Z.abs x < 100000 → lays_out ds (x + 1) (fmt_e ds x).
Proof.
  intros Hne Hd Hx. destruct (itoa_spec (Z.abs x) ltac:(lia)) as (Hn & Hid & Hiv).
  set (es := if Z.abs x <? 10 then 48 :: itoa (Z.abs x) else itoa (Z.abs x)).
  assert (es ≠ [] ∧ digits es ∧ dec_value es = Z.abs x) as (He1 & He2 & He3).
  { unfold es. destruct (_ <? 10); [|done]. split_and!; [done|done|].
    change (48 :: itoa (Z.abs x)) with ([48] ++ itoa (Z.abs x)). rewrite dec_value_app2, Hiv. cbn. lia. }
  exists (take 1 ds), (drop 1 ds), (Some (x <? 0, es)). split_and!.
  - intros neg. unfold fmt_e, numeral. f_equal. fold es.
    destruct ds as [|c [|c' ds]]; [done|..]; cbn; by destruct (x <? 0).
  - destruct ds as [|c ds]; [done|]. change (c :: ds) with ([c] ++ ds) in Hd. apply digits_app in Hd as [Hc Hd].
    by split_and!.
  - right. by destruct ds.
  - rewrite take_drop. cbn [exponent]. rewrite exp_value_dec by (done || lia). rewrite He3. f_equal.
    rewrite length_drop. destruct ds as [|c ds]; [done|]. cbn [length].
    destruct (Z.ltb_spec x 0); cbn [signed]; lia.
Qed.

Lemma fmt_f_lays_out ds dp : ds ≠ [] → digits ds → lays_out ds dp (fmt_f ds dp).
Proof.
  intros Hne Hd. unfold fmt_f. set (nd := Z.of_nat (length ds)).
  assert (0 < nd) by (unfold nd; destruct ds; [done|cbn; lia]).
  destruct (zeros_spec (dp - nd)) as (Hz1 & Hz2 & Hz3), (zeros_spec (- dp)) as (Hy1 & Hy2 & Hy3).
  assert (digits (take (Z.to_nat dp) ds) ∧ digits (drop (Z.to_nat dp) ds)) as [Ht Hr].
  { by rewrite <-digits_app, take_drop. }
  destruct (Z.ltb_spec 0 dp) as [Hdp|Hdp].
  - destruct (Z.ltb_spec 0 (nd - dp)) as [Hf|Hf].
    + exists (take (Z.to_nat dp) ds), (drop (Z.to_nat dp) ds), None.
      assert (drop (Z.to_nat dp) ds ≠ []) as Hr'.
      { intros E%(f_equal length). rewrite length_drop in E. cbn in E. lia. }
      assert (zeros (dp - nd) = [] ∧ zeros (- dp) = []) as [-> ->].
      { unfold zeros. split; [replace (Z.to_nat (dp - nd)) with 0%nat by lia|replace (Z.to_nat (- dp)) with 0%nat by lia]; done. }
      unfold numeral_ok. split_and!.
      * intros neg. unfold numeral. rewrite bool_decide_false by done. rewrite !app_nil_r. done.
      * destruct ds; [done|]. destruct (Z.to_nat dp) eqn:E; [lia|]. done.
      * done.
      * done.
      * done.
      * right. destruct ds; [done|]. by destruct (Z.to_nat dp) eqn:E; [lia|].
      * rewrite take_drop, length_drop. f_equal. cbn [exponent]. lia.
    + exists (ds ++ zeros (dp - nd)), [], None. rewrite take_ge by lia. unfold numeral_ok. split_and!.
      * intros neg. unfold numeral. by rewrite !app_nil_r.
      * by destruct ds.
      * by apply digits_app.
      * done.
      * done.
      * right. by destruct ds.
      * rewrite app_nil_r, dec_value_app2, Hz2, Hz3, Z.add_0_r, Z2Nat.id by lia. cbn [exponent length].
        unfold decimal_units. fold nd. change (0 - Z.of_nat 0) with 0. change (Z.max 0 (- 0)) with 0.
        rewrite (Z.max_r 0 (dp - nd)), (Z.max_l 0 (- (dp - nd))) by lia. change (Z.max 0 0) with 0.
        f_equal. lia.
  - rewrite (proj2 (Z.ltb_lt _ _)) by lia. exists [48], (zeros (- dp) ++ drop (Z.to_nat dp) ds), None.
    assert (Z.to_nat dp = 0%nat) as -> by lia. rewrite drop_0. unfold numeral_ok. split_and!.
    + intros neg. unfold numeral. rewrite bool_decide_false by (by intros [_ ?]%app_nil). by rewrite app_nil_r.
    + done.
    + done.
    + by apply digits_app.
    + done.
    + by left.
    + rewrite app_assoc, !dec_value_app2, Hy2, length_app, Hy3. cbn [exponent].
      assert (dec_value [48] = 0) as -> by done. f_equal; lia.
Qed.

(** Digits kept by the search are few enough for their exponent to be read exactly. *)
Lemma shortest_bound X D k drop m e :
  shortest X D k drop = (m, e) → 0 < D → Z.of_nat drop ≤ Z.log2 D →
  m ≤ D + 1 ∧ - Z.of_nat k ≤ e ≤ Z.log2 D - Z.of_nat k.
Proof.
  intros H HD Hd. revert H. induction drop as [|d IH]; cbn [shortest]; [intros [= <- <-]; lia|].
  specialize (IH ltac:(lia)). revert IH. generalize (shortest X D k d) as o. intros o IH.
  set (step := 10 ^ _). assert (0 < step) by (apply Z.pow_pos_nonneg; lia).
  assert (0 ≤ D / step ≤ D) by (split; [apply Z.div_pos; lia|apply Z.div_le_upper_bound; nia]).
  repeat case_match; intros; simplify_eq; try lia. auto.
Qed.

Lemma log2_expansion x y k : representable x → 0 < x → strip_twos 1074 x = (y, k) →
  0 < y * 5 ^ Z.of_nat k ∧ Z.log2 (y * 5 ^ Z.of_nat k) ≤ 6000.
Proof.
  intros [Hx _] Hpos Hs. pose proof (strip_twos_spec 1074 x) as H. rewrite Hs in H.
  destruct H as (H & Hk & Hy). specialize (Hy Hpos).
  assert (0 < 5 ^ Z.of_nat k) by (apply Z.pow_pos_nonneg; lia). split; [nia|].
  assert (y ≤ x).
  { assert (2 ^ Z.of_nat k ≤ 2 ^ Z.of_nat 1074) by (apply Z.pow_le_mono_r; lia).
    assert (0 < 2 ^ Z.of_nat k) by (apply Z.pow_pos_nonneg; lia).
    generalize dependent (2 ^ Z.of_nat 1074). intros; nia. }
  assert (5 ^ Z.of_nat k ≤ 2 ^ (3 * 1074)) as H5.
  { etransitivity; [apply (Z.pow_le_mono_l 5 8); lia|]. change 8 with (2 ^ 3). rewrite <-Z.pow_mul_r by lia.
    apply Z.pow_le_mono_r; lia. }
  assert (y * 5 ^ Z.of_nat k < 2 ^ 6000) as Hlt; [|by apply Z.log2_lt_pow2 in Hlt; [lia|nia]].
  apply Z.lt_le_trans with (2 ^ 2098 * 2 ^ (3 * 1074)); [|rewrite <-Z.pow_add_r by lia; apply Z.pow_le_mono_r; lia].
  generalize dependent (2 ^ 2098). generalize dependent (2 ^ (3 * 1074)). intros; nia.
Qed.

Lemma round_units_scale c num den : 0 < c → 0 < den → round_units (c * num) (c * den) = round_units num den.
Proof.
  intros Hc Hd. unfold round_units. rewrite Z.div_mul_cancel_l by lia. set (k := spacing _).
  assert (0 < 2 ^ k) by (apply Z.pow_pos_nonneg; unfold k, spacing; lia).
  rewrite <-Z.mul_assoc, Z.div_mul_cancel_l, Z.mul_mod_distr_l by lia. set (r := num mod _). set (d := den * 2 ^ k) in *.
  replace (c * d <? 2 * (c * r)) with (d <? 2 * r) by (apply eq_true_iff_eq; rewrite !Z.ltb_lt; nia).
  replace (2 * (c * r) =? c * d) with (2 * r =? d) by (apply eq_true_iff_eq; rewrite !Z.eqb_eq; nia). done.
Qed.

Lemma decimal_units_shift m e : decimal_units (m * 10) e = decimal_units m (e + 1).
Proof.
  unfold decimal_units. destruct (Z_le_gt_dec 0 e) as [He|He].
  - rewrite (Z.max_r 0 e), (Z.max_r 0 (e + 1)), (Z.max_l 0 (- e)), (Z.max_l 0 (- (e + 1))) by lia.
    rewrite Z.pow_add_r by lia. f_equal. lia.
  - rewrite (Z.max_l 0 e), (Z.max_l 0 (e + 1)), (Z.max_r 0 (- e)), (Z.max_r 0 (- (e + 1))) by lia.
    replace (- e) with (1 + - (e + 1)) by lia. rewrite Z.pow_add_r by lia. change (10 ^ 1) with 10. change (10 ^ 0) with 1.
    rewrite !Z.mul_1_r. replace (m * 10 * ulp_scale) with (10 * (m * ulp_scale)) by lia.
    apply round_units_scale; [lia|apply Z.pow_pos_nonneg; lia].
Qed.

Lemma drop_zeros_spec n : ∀ m e m' e', 0 ≤ m → drop_zeros n m e = (m', e') →
  decimal_units m' e' = decimal_units m e ∧ 0 ≤ m' ≤ m ∧ e ≤ e' ≤ e + Z.of_nat n.
Proof.
  induction n as [|n IH]; intros m e m' e' Hm H; cbn [drop_zeros] in H; [injection H as <- <-; lia|].
  destruct (Z.eqb_spec (m mod 10) 0) as [Hz|]; [|injection H as <- <-; lia].
  assert (0 ≤ m / 10) as Hq by (apply Z.div_pos; lia). apply IH in H as (-> & ? & ?); [|exact Hq]. rewrite <-decimal_units_shift.
  pose proof (Z.div_mod m 10 ltac:(lia)) as Hd. rewrite Hz in Hd.
  split_and!; [f_equal; lia|lia|lia|lia|lia].
Qed.

Lemma decimal_units_0 e : decimal_units 0 e = 0.
Proof.
  unfold decimal_units, round_units. rewrite !Z.mul_0_l, Z.div_0_l by (apply Z.pow_nonzero; lia). change (spacing 0) with 0.
  assert (0 < 10 ^ Z.max 0 (- e)) by (apply Z.pow_pos_nonneg; lia). rewrite Z.mul_1_r, Z.div_0_l, Z.mod_0_l by lia.
  rewrite (proj2 (Z.ltb_ge _ _)), (proj2 (Z.eqb_neq _ _)) by lia. done.
Qed.

(** What is printed are digits of the number, and few enough. *)
Lemma shortest_digits_spec x ds dp : representable x → 0 < x → shortest_digits x = (ds, dp) →
  ds ≠ [] ∧ digits ds ∧ decimal_units (dec_value ds) (dp - Z.of_nat (length ds)) = x ∧ Z.abs dp < 90000 ∧ head ds ≠ Some 48.
Proof.
  intros Hx Hpos. unfold shortest_digits. destruct (strip_twos 1074 x) as [y k] eqn:Hs.
  destruct (log2_expansion x y k Hx Hpos Hs) as [HD Hlog].
  pose proof (exact_expansion x y k Hx Hs) as Hex. set (D := y * 5 ^ Z.of_nat k) in *. clearbody D.
  destruct (shortest x D k (length (itoa D) - 1)) as [m0 e0] eqn:Hsh.
  pose proof (shortest_reads x D k Hex HD (length (itoa D) - 1)) as Hr. rewrite Hsh in Hr. destruct Hr as [Hr Hm].
  pose proof (itoa_length D ltac:(lia)) as HL.
  pose proof (strip_twos_spec 1074 x) as Hk. rewrite Hs in Hk. destruct Hk as (_ & Hk & _).
  destruct (shortest_bound _ _ _ _ _ _ Hsh HD) as [Hm' He]; [pose proof (Z.log2_nonneg D); lia|].
  pose proof (itoa_length m0 Hm) as Hlm. destruct (drop_zeros _ m0 e0) as [m e] eqn:Hz.
  apply drop_zeros_spec in Hz as (Hv & Hmm & Hee); [|done]. intros [= <- <-].
  destruct (itoa_spec m ltac:(lia)) as (Hne & Hdig & Hval). pose proof (itoa_length m ltac:(lia)).
  assert (Z.log2 m0 ≤ Z.log2 (D + 1)) by (by apply Z.log2_le_mono).
  assert (Z.log2 m ≤ Z.log2 m0) by (apply Z.log2_le_mono; lia).
  pose proof (Z.log2_succ_le D). unfold Z.succ in *.
  split_and!; [done|done| |lia|].
  - rewrite Hval, <-Hr, <-Hv. f_equal. lia.
  - apply itoa_head. destruct (decide (m = 0)) as [->|]; [|lia]. rewrite <-Hr, <-Hv, decimal_units_0 in Hpos. lia.
Qed.

Lemma FormatFloat_numeral neg x : representable x →
  ∃ ip fp ex, FormatFloat (FFin neg x) = numeral neg ip fp ex ∧ numeral_ok ip fp ex ∧
    decimal_units (dec_value (ip ++ fp)) (exponent ex - Z.of_nat (length fp)) = x.
Proof.
  intros Hx. cbn [FormatFloat]. destruct (Z.eqb_spec x 0) as [->|Hz].
  { exists [48], [], None. split_and!; [done|done|by vm_compute]. }
  assert (0 < x) as Hpos by (destruct Hx; lia). destruct (shortest_digits x) as [ds dp] eqn:Hs.
  apply shortest_digits_spec in Hs as (Hne & Hdig & Hv & Hdp & _); [|done|done].
  assert (lays_out ds dp (fmt_g ds dp)) as (ip & fp & ex & Heq & Hok & _ & He).
  { unfold fmt_g. destruct (_ || _); [|by apply fmt_f_lays_out].
    replace dp with (dp - 1 + 1) at 1 by lia. apply fmt_e_lays_out; [done|done|lia]. }
  exists ip, fp, ex. split_and!; [apply Heq|done|]. by rewrite He.
Qed.

(** Every finite number survives printing and reading. *)
Lemma ParseFloat_FormatFloat f : finite f → ParseFloat (FormatFloat f) = Some f.
Proof.
  destruct f as [| |neg x]; [done..|]. intros Hx.
  destruct (FormatFloat_numeral neg x Hx) as (ip & fp & ex & -> & Hok & Hv).
  rewrite ParseFloat_numeral, Hv by done. cbv zeta. destruct Hx as [[_ Hx] _].
  by rewrite (proj2 (Z.leb_gt _ _)).
Qed.

(** What is read is finite. *)
Lemma ParseFloat_finite s f : ParseFloat s = Some f → finite f.
Proof.
  unfold ParseFloat. destruct (split_sign s) as [neg s1].
  destruct (span is_digit s1) as [ip s2] eqn:H1. destruct (span_app _ _ _ _ H1) as (_ & Hip & _).
  destruct (fraction s2) as [fp s3] eqn:H2.
  assert (digits fp) as Hfp.
  { unfold fraction in H2. destruct s2 as [|c s2]; [by simplify_eq|].
    destruct (c =? 46); [|by simplify_eq]. by destruct (span_app _ _ _ _ H2) as (_ & ? & _). }
  destruct (_ && _); [done|]. destruct (match s3 with [] => _ | _ => _ end) as [x|]; [|done].
  cbv zeta. set (m := decimal_units _ _). destruct (Z.leb_spec (2 ^ 2098) m) as [|Hlt]; [done|].
  intros [= <-]. cbn [finite]. unfold m, decimal_units in *.
  assert (0 ≤ dec_value (ip ++ fp)) by (apply digits_nonneg, digits_app; done).
  apply round_units_representable; [|apply Z.pow_pos_nonneg; lia|exact Hlt].
  apply Z.mul_nonneg_nonneg; [|apply Z.pow_nonneg; lia]. apply Z.mul_nonneg_nonneg; [done|]. by unfold ulp_scale.
Qed.

#[global] Opaque FormatFloat ParseFloat.
