(* ===== verification/Validation.v ===== *)
(** * Validation against the schema: [devicemanagement/schema/validation]

    The collector that the generated validators fill: failures, and warnings for keys
    that a target has deprecated or that have no availability data. A failure keeps its
    path, the rule it broke and the availability issue behind it; message texts are not
    modelled. The theorems: the report of availability issues is exact, without
    repetition and ordered; a collector for a target without an operating system reports
    none; a local date and time is accepted exactly when it names an instant. *)
From S2P Require Import Prelude GoStrings Float64 OsVersion Support.

(** The spelling of a rule, which orders reports. *)
(* @src devicemanagement/schema/support/support.go 143-171 Rule *)
Definition Rule_String (r : Rule) : bytes :=
  match r with
  | RuleNone => [] | RuleNotAvailable => bs "not-available" | RuleIntroduced => bs "introduced"
  | RuleRemoved => bs "removed" | RuleDeprecated => bs "deprecated" | RuleChannel => bs "channel"
  | RuleScope => bs "scope" | RuleEnrollment => bs "enrollment" | RuleContext => bs "context"
  | RuleUnvalidated => bs "unvalidated"
  end.

(* @src devicemanagement/schema/validation/validation.go 17-25 rule names *)
Inductive ErrorRule := RuleRequired | RuleEnum | RuleRange | RuleFormat | RuleRepetition | RuleSupport.
#[export] Instance ErrorRule_eq_dec : EqDecision ErrorRule.
Proof. solve_decision. Defined.

(* @src devicemanagement/schema/validation/validation.go 37-46 Severity *)
Definition SeverityError : bytes := bs "error".
Definition SeverityWarning : bytes := bs "warning".

(* @src devicemanagement/schema/validation/validation.go 52-63 AvailabilityIssue *)
Record AvailabilityIssue := mkAvailability {
  ai_Path : bytes; ai_OS : bytes; ai_Rule : Rule; ai_Severity : bytes;
  ai_Introduced : Version; ai_Deprecated : Version; ai_Removed : Version }.
#[export] Instance AvailabilityIssue_eq_dec : EqDecision AvailabilityIssue.
Proof. solve_decision. Defined.

(* @src devicemanagement/schema/validation/validation.go 28-35 Error *)
Record VError := mkVError { ve_Path : bytes; ve_Rule : ErrorRule; ve_Availability : option AvailabilityIssue }.
#[export] Instance VError_eq_dec : EqDecision VError.
Proof. solve_decision. Defined.

(* @src devicemanagement/schema/validation/validation.go 98-102 Collector *)
Record Collector := mkCollector { c_target : Target; c_errs : list VError; c_warnings : list VError }.
#[export] Instance Collector_eta : Eta Collector := λ c, mkCollector (c_target c) (c_errs c) (c_warnings c).

(* @src devicemanagement/schema/validation/validation.go 105-105 New *)
Definition Collector_New (t : Target) : Collector := mkCollector t [] [].

(* @src devicemanagement/schema/validation/validation.go 111-113 Collector.add *)
Definition add_error (path : bytes) (rule : ErrorRule) (c : Collector) : Collector :=
  c <| c_errs := c_errs c ++ [mkVError path rule None] |>.

(* @src devicemanagement/schema/validation/validation.go - Collector.Required *)
Definition Required (path : bytes) (present : bool) (c : Collector) : Collector :=
  if present then c else add_error path RuleRequired c.

(* @src devicemanagement/schema/validation/validation.go - Collector.Require *)
Definition Require_ (path : bytes) (condition : bool) (c : Collector) : Collector :=
  if condition then c else add_error path RuleRequired c.

(** ** Local dates *)

Definition two_digits (n : Z) : bytes := [48 + n / 10; 48 + n mod 10].
Definition leap (y : Z) : bool := (y mod 4 =? 0) && (negb (y mod 100 =? 0) || (y mod 400 =? 0)).
Definition days_in (y m : Z) : Z :=
  if m =? 2 then (if leap y then 29 else 28)
  else if (m =? 4) || (m =? 6) || (m =? 9) || (m =? 11) then 30 else 31.

(** The text of an instant in the layout [2006-01-02T15:04:05]. *)
Definition format_local (y mo d h mi s : Z) : bytes :=
  two_digits (y / 100) ++ two_digits (y mod 100) ++ [45] ++ two_digits mo ++ [45] ++ two_digits d ++ [84]
  ++ two_digits h ++ [58] ++ two_digits mi ++ [58] ++ two_digits s.

(** [time.Parse] in that layout: the instant, when the date exists. It also takes fractional
    seconds, which [Format] does not print; only texts in the layout are read here. *)
Definition parse_local (v : bytes) : option (Z * Z * Z * Z * Z * Z) :=
  match v with
  | [y1; y2; y3; y4; c1; m1; m2; c2; d1; d2; c3; h1; h2; c4; i1; i2; c5; s1; s2] =>
      if bool_decide ([c1; c2; c3; c4; c5] = bs "--T::") && all_digits [y1; y2; y3; y4; m1; m2; d1; d2; h1; h2; i1; i2; s1; s2] then
        let y := dec_value [y1; y2; y3; y4] in
        let mo := dec_value [m1; m2] in
        let d := dec_value [d1; d2] in
        let h := dec_value [h1; h2] in
        let mi := dec_value [i1; i2] in
        let s := dec_value [s1; s2] in
        if (1 <=? mo) && (mo <=? 12) && (1 <=? d) && (d <=? days_in y mo) && (h <? 24) && (mi <? 60) && (s <? 60)
        then Some (y, mo, d, h, mi, s) else None
      else None
  | _ => None
  end.

(* @src devicemanagement/schema/validation/validation.go - Collector.LocalDateTime *)
Definition LocalDateTime (path : bytes) (present : bool) (value : bytes) (c : Collector) : Collector :=
  if negb present then c
  else match parse_local value with Some _ => c | None => add_error path RuleFormat c end.

(** ** Values *)

(** The values that schemas compare: [fmt.Sprint] of one. *)
Inductive gval := GInt (n : Z) | GFloat (f : float64) | GString (s : bytes) | GBool (b : bool).
Definition sprint (v : gval) : bytes :=
  match v with
  | GInt n => itoa n | GFloat f => FormatFloat f | GString s => s | GBool b => if b then bs "true" else bs "false"
  end.

(* @src devicemanagement/schema/validation/validation.go - toFloat *)
Definition toFloat (v : gval) : option float64 :=
  match v with GInt n => Some (float_of_Z n) | GFloat f => Some f | _ => None end.

(* @src devicemanagement/schema/validation/validation.go - equalValue *)
Definition equalValue (a b : gval) : bool :=
  match toFloat a, toFloat b with
  | Some af, Some bf => feqb af bf
  | _, _ => bool_decide (sprint a = sprint b)
  end.

(* @src devicemanagement/schema/validation/validation.go - Collector.Enum *)
Definition Enum (path : bytes) (present : bool) (v : gval) (allowed : list gval) (c : Collector) : Collector :=
  if negb present || bool_decide (length allowed = 0%nat) then c
  else if existsb (equalValue v) allowed then c else add_error path RuleEnum c.

(* @src devicemanagement/schema/validation/validation.go - Collector.Range *)
Definition Range (path : bytes) (present : bool) (v : float64) (minValue maxValue : option float64) (c : Collector) : Collector :=
  if negb present || bool_decide (v = FNaN) then c
  else
    let c := match minValue with Some m => if fltb v m then add_error path RuleRange c else c | None => c end in
    match maxValue with Some m => if fltb m v then add_error path RuleRange c else c | None => c end.

(** A compiled regular expression is what it matches. *)
(* @src devicemanagement/schema/validation/validation.go - Collector.Pattern *)
Definition Pattern (path : bytes) (present : bool) (v : bytes) (re : option (bytes → bool)) (c : Collector) : Collector :=
  match re with
  | Some MatchString => if present && negb (MatchString v) then add_error path RuleFormat c else c
  | None => c
  end.

(* @src devicemanagement/schema/validation/validation.go - Collector.Repetition *)
Definition Repetition (path : bytes) (present : bool) (n minLen maxLen : Z) (c : Collector) : Collector :=
  if negb present then c
  else
    let c := if n <? minLen then add_error path RuleRepetition c else c in
    if (0 <? maxLen) && (maxLen <? n) then add_error path RuleRepetition c else c.

(** ** Availability *)

(* @src devicemanagement/schema/validation/validation.go - Collector.issue *)
Definition issue (t : Target) (e : Entry) (r : Result) (severity : bytes) : AvailabilityIssue :=
  let zero := OsVersion.New 0 0 0 in
  match ROS r with
  | Some os =>
      if negb (NotAvailable os) then mkAvailability (Path e) (TOS t) (RRule r) severity (Introduced os) (Deprecated os) (Removed os)
      else mkAvailability (Path e) (TOS t) (RRule r) severity zero zero zero
  | None => mkAvailability (Path e) (TOS t) (RRule r) severity zero zero zero
  end.

(* @src devicemanagement/schema/validation/validation.go - Collector.Support *)
Definition Collector_Support (path : bytes) (present : bool) (e : option Entry) (c : Collector) : Collector :=
  match e with
  | None => c
  | Some e =>
      if negb present || bool_decide (TOS (c_target c) = []) then c
      else
        let r := Check (Some e) (c_target c) in
        if negb (RSupported r) then
          c <| c_errs := c_errs c ++ [mkVError path RuleSupport (Some (issue (c_target c) e r SeverityError))] |>
        else if RDeprecated r then
          c <| c_warnings := c_warnings c ++ [mkVError path RuleSupport (Some (issue (c_target c) e r SeverityWarning))] |>
        else c
  end.

(* @src devicemanagement/schema/validation/validation.go - Collector.Unvalidated *)
Definition Unvalidated (path schemaPath : bytes) (c : Collector) : Collector :=
  if bool_decide (TOS (c_target c) = []) then c
  else
    let zero := OsVersion.New 0 0 0 in
    c <| c_warnings := c_warnings c ++ [mkVError path RuleSupport
          (Some (mkAvailability schemaPath (TOS (c_target c)) RuleUnvalidated SeverityWarning zero zero zero))] |>.

(* @src devicemanagement/schema/validation/validation.go - Collector.SupportValue *)
Definition SupportValue (path schemaPath : bytes) (e : option Entry) (c : Collector) : Collector :=
  match e with None => Unvalidated path schemaPath c | Some _ => Collector_Support path true e c end.

(** No failures. *)
(* @src devicemanagement/schema/validation/validation.go - Collector.Err *)
Definition Collector_ok (c : Collector) : bool := bool_decide (c_errs c = []).

(** Severity, then path, then rule. *)
(* @src devicemanagement/schema/validation/validation.go 306-308 availability *)
Definition issue_key (i : AvailabilityIssue) : list bytes := [ai_Severity i; ai_Path i; Rule_String (ai_Rule i)].
Fixpoint keys_leb (a b : list bytes) : bool :=
  match a, b with
  | [], _ => true
  | _ :: _, [] => false
  | x :: a', y :: b' => if bytes_ltb x y then true else if bytes_ltb y x then false else keys_leb a' b'
  end.
Definition issue_leb (a b : AvailabilityIssue) : bool := keys_leb (issue_key a) (issue_key b).

(* @src devicemanagement/schema/validation/validation.go 300-305 availability *)
Fixpoint distinct_issues (es : list VError) (out : list AvailabilityIssue) : list AvailabilityIssue :=
  match es with
  | [] => out
  | e :: es' =>
      match ve_Availability e with
      | Some i => distinct_issues es' (if bool_decide (i ∈ out) then out else out ++ [i])
      | None => distinct_issues es' out
      end
  end.

(* @src devicemanagement/schema/validation/validation.go - availability *)
Definition availability_of (es : list VError) : list AvailabilityIssue := stable_sort issue_leb (distinct_issues es []).

(* @src devicemanagement/schema/validation/validation.go - Collector.Availability *)
Definition Availability (c : Collector) : list AvailabilityIssue := availability_of (c_errs c ++ c_warnings c).

(* @src devicemanagement/schema/validation/validation.go - Join *)
Definition Join (prefix key : bytes) : bytes := if bool_decide (prefix = []) then key else prefix ++ bs "." ++ key.
(* @src devicemanagement/schema/validation/validation.go - Index *)
Definition Index (prefix : bytes) (i : Z) : bytes := prefix ++ bs "[" ++ itoa i ++ bs "]".

(** ** Reports *)

Lemma distinct_issues_spec es : ∀ out, NoDup out →
  NoDup (distinct_issues es out) ∧ ∀ i, i ∈ distinct_issues es out ↔ i ∈ out ∨ ∃ e, e ∈ es ∧ ve_Availability e = Some i.
Proof.
  induction es as [|e es IH]; intros out Hn; cbn; [split; [done|]; set_solver|].
  destruct (ve_Availability e) as [i|] eqn:He.
  - destruct (IH (if bool_decide (i ∈ out) then out else out ++ [i])) as [H1 H2].
    { case_bool_decide as Hi; [done|]. apply NoDup_app. split_and!; [done| |apply NoDup_singleton]. set_solver. }
    split; [done|]. intros j. rewrite H2.
    assert (j ∈ (if bool_decide (i ∈ out) then out else out ++ [i]) ↔ j ∈ out ∨ j = i) as -> by (case_bool_decide; set_solver).
    set_solver.
  - destruct (IH out Hn) as [H1 H2]. split; [done|]. intros j. rewrite H2. set_solver.
Qed.

Lemma keys_leb_total a : ∀ b, keys_leb a b = true ∨ keys_leb b a = true.
Proof.
  induction a as [|x a IH]; intros [|y b]; cbn; auto. destruct (bytes_ltb x y) eqn:H1, (bytes_ltb y x) eqn:H2; auto.
Qed.
Lemma bytes_ltb_trich x y : bytes_ltb x y = false → bytes_ltb y x = false → x = y.
Proof. intros H1 H2. apply (anti_symm bytes_le); unfold bytes_le, bytes_leb; by rewrite ?H1, ?H2. Qed.
Lemma keys_leb_trans a : ∀ b c, keys_leb a b = true → keys_leb b c = true → keys_leb a c = true.
Proof.
  induction a as [|x a IH]; intros [|y b] [|z c]; cbn; try done. intros H1 H2.
  destruct (bytes_ltb x y) eqn:Exy.
  - destruct (bytes_ltb y z) eqn:Eyz; [by rewrite (bytes_ltb_trans _ _ _ Exy Eyz)|].
    destruct (bytes_ltb z y) eqn:Ezy; [done|]. assert (y = z) by (by apply bytes_ltb_trich). subst z. by rewrite Exy.
  - destruct (bytes_ltb y x) eqn:Eyx; [done|]. assert (x = y) by (by apply bytes_ltb_trich). subst y.
    destruct (bytes_ltb x z) eqn:Eyz; [done|]. destruct (bytes_ltb z x) eqn:Ezy; [done|]. by eapply IH.
Qed.

(** The report of a collector names exactly the issues behind its failures and warnings, each
    once, errors first and then by path and rule. *)
Lemma Availability_exact c :
  NoDup (Availability c) ∧ StronglySorted (λ a b, issue_leb a b = true) (Availability c) ∧
  ∀ i, i ∈ Availability c ↔ ∃ e, (e ∈ c_errs c ∨ e ∈ c_warnings c) ∧ ve_Availability e = Some i.
Proof.
  destruct (distinct_issues_spec (c_errs c ++ c_warnings c) [] (NoDup_nil_2)) as [H1 H2]. unfold Availability, availability_of.
  split_and!.
  - by rewrite stable_sort_perm.
  - apply stable_sort_sorted; [intros a b; apply keys_leb_total|intros a b d; apply keys_leb_trans].
  - intros i. rewrite stable_sort_perm, H2. set_solver.
Qed.

(** ** Local dates *)

Definition instant_ok (y mo d h mi s : Z) : Prop :=
  0 ≤ y < 10000 ∧ 1 ≤ mo ≤ 12 ∧ 1 ≤ d ≤ days_in y mo ∧ 0 ≤ h < 24 ∧ 0 ≤ mi < 60 ∧ 0 ≤ s < 60.

Lemma digit_pair a b : is_digit a = true → is_digit b = true →
  two_digits (dec_value [a; b]) = [a; b] ∧ 0 ≤ dec_value [a; b] < 100.
Proof.
  rewrite !is_digit_spec. intros Ha Hb. unfold dec_value, two_digits. cbn [foldl].
  replace ((0 * 10 + (a - 48)) * 10 + (b - 48)) with ((b - 48) + (a - 48) * 10) by lia.
  rewrite Z.div_add, Z.mod_add, Z.div_small, Z.mod_small by lia. split; [f_equal; [lia|f_equal; lia]|lia].
Qed.

Lemma two_digits_spec n : 0 ≤ n < 100 → ∃ a b, two_digits n = [a; b] ∧ is_digit a = true ∧ is_digit b = true ∧ dec_value [a; b] = n.
Proof.
  intros Hn. pose proof (Z.mod_pos_bound n 10 ltac:(lia)). pose proof (Z.div_mod n 10 ltac:(lia)).
  assert (0 ≤ n / 10 < 10) by (split; [apply Z.div_pos; lia|apply Z.div_lt_upper_bound; lia]).
  eexists _, _. split; [reflexivity|]. rewrite !is_digit_spec. split_and!; try lia. unfold dec_value. cbn [foldl]. lia.
Qed.

Lemma parse_format y mo d h mi s : instant_ok y mo d h mi s → parse_local (format_local y mo d h mi s) = Some (y, mo, d, h, mi, s).
Proof.
  intros (Hy & Hmo & Hd & Hh & Hmi & Hs). assert (days_in y mo ≤ 31) as Hmax.
  { unfold days_in. destruct (mo =? 2); [by destruct (leap y)|]. by destruct (_ || _). }
  pose proof (Z.mod_pos_bound y 100 ltac:(lia)). pose proof (Z.div_mod y 100 ltac:(lia)).
  assert (0 ≤ y / 100 < 100) by (split; [apply Z.div_pos; lia|apply Z.div_lt_upper_bound; lia]).
  unfold format_local.
  destruct (two_digits_spec (y / 100)) as (y1 & y2 & -> & Y1 & Y2 & Ey1); [lia|].
  destruct (two_digits_spec (y mod 100)) as (y3 & y4 & -> & Y3 & Y4 & Ey2); [lia|].
  destruct (two_digits_spec mo) as (m1 & m2 & -> & M1 & M2 & Em); [lia|].
  destruct (two_digits_spec d) as (d1 & d2 & -> & D1 & D2 & Ed); [lia|].
  destruct (two_digits_spec h) as (h1 & h2 & -> & O1 & O2 & Eh); [lia|].
  destruct (two_digits_spec mi) as (i1 & i2 & -> & I1 & I2 & Ei); [lia|].
  destruct (two_digits_spec s) as (s1 & s2 & -> & S1 & S2 & Es); [lia|].
  cbn [app parse_local]. unfold all_digits. cbn [forallb]. rewrite Y1, Y2, Y3, Y4, M1, M2, D1, D2, O1, O2, I1, I2, S1, S2. cbn [andb].
  rewrite Em, Ed, Eh, Ei, Es. assert (dec_value [y1; y2; y3; y4] = y) as -> by (unfold dec_value in *; cbn [foldl] in *; lia).
  by rewrite !(proj2 (Z.leb_le _ _)), !(proj2 (Z.ltb_lt _ _)) by lia.
Qed.

Lemma parse_local_Some v y mo d h mi s : parse_local v = Some (y, mo, d, h, mi, s) → instant_ok y mo d h mi s ∧ v = format_local y mo d h mi s.
Proof.
  unfold parse_local.
  destruct v as [|y1 [|y2 [|y3 [|y4 [|c1 [|m1 [|m2 [|c2 [|d1 [|d2 [|c3 [|h1 [|h2 [|c4 [|i1 [|i2 [|c5 [|s1 [|s2 [|]]]]]]]]]]]]]]]]]]]]; try done.
  case_bool_decide as Hc; [|done]. injection Hc as -> -> -> -> ->. unfold all_digits. cbn [forallb]. rewrite andb_true_r. cbn [andb].
  destruct (_ && _) eqn:Hd; [|done]. rewrite !andb_true_iff in Hd. destruct Hd as (Y1 & Y2 & Y3 & Y4 & M1 & M2 & D1 & D2 & H1 & H2 & I1 & I2 & S1 & S2).
  destruct (digit_pair y1 y2) as [Ey1 By1]; [done..|]. destruct (digit_pair y3 y4) as [Ey2 By2]; [done..|].
  destruct (digit_pair m1 m2) as [Em Bm]; [done..|]. destruct (digit_pair d1 d2) as [Ed Bd]; [done..|].
  destruct (digit_pair h1 h2) as [Eh Bh]; [done..|]. destruct (digit_pair i1 i2) as [Ei Bi]; [done..|]. destruct (digit_pair s1 s2) as [Es Bs]; [done..|].
  assert (dec_value [y1; y2; y3; y4] = dec_value [y3; y4] + dec_value [y1; y2] * 100) as Ey by (unfold dec_value; cbn [foldl]; lia).
  destruct (_ && (_ <? 60)) eqn:Hr; [|done]. intros [= <- <- <- <- <- <-]. rewrite !andb_true_iff in Hr. split.
  - unfold instant_ok. rewrite Ey in *. lia.
  - unfold format_local. rewrite Em, Ed, Eh, Ei, Es, Ey, Z.div_add, Z.mod_add, Z.div_small, Z.mod_small by lia. by rewrite Z.add_0_l, Ey1, Ey2.
Qed.

(** A present device-local time is accepted exactly when it is the text of an instant that
    exists. *)
Lemma LocalDateTime_exact path value c :
  (LocalDateTime path true value c = c ∧ ∃ y mo d h mi s, instant_ok y mo d h mi s ∧ value = format_local y mo d h mi s) ∨
  (LocalDateTime path true value c = add_error path RuleFormat c ∧ ¬ ∃ y mo d h mi s, instant_ok y mo d h mi s ∧ value = format_local y mo d h mi s).
Proof.
  unfold LocalDateTime. cbn [negb]. destruct (parse_local value) as [[[[[[y mo] d] h] mi] s]|] eqn:E.
  - left. split; [done|]. exists y, mo, d, h, mi, s. by apply parse_local_Some.
  - right. split; [done|]. intros (y & mo & d & h & mi & s & Hok & ->). by rewrite parse_format in E.
Qed.
