(* ===== verification/PredLexer.v ===== *)
(** * Activation predicates, lexical level: [mdmprotocol/ddm/predicate]

    The syntax tree ([ast.go]) and the lexer ([lexer.go]). The lexer's state is the
    rest of the source and the flag [prevOperand]; [src_len] is the length of the
    source, so the offset of a place is [src_len] less what is left there. An error
    is its offset and its sentinel, without the message text. *)
From S2P Require Import Prelude GoStrings Utf8 Float64.

(** ** The syntax tree *)

(* @src devicemanagement/mdmprotocol/ddm/predicate/ast.go 13-20 logicalOp *)
Inductive logicalOp := logicalAnd | logicalOr.
(* @src devicemanagement/mdmprotocol/ddm/predicate/ast.go 22-37 cmpOp *)
Inductive cmpOp :=
| cmpEq | cmpNe | cmpLt | cmpLe | cmpGt | cmpGe | cmpIn | cmpContains | cmpBeginsWith | cmpEndsWith.
#[export] Instance logicalOp_eq_dec : EqDecision logicalOp.
Proof. solve_decision. Defined.
#[export] Instance cmpOp_eq_dec : EqDecision cmpOp.
Proof. solve_decision. Defined.

(* @src devicemanagement/mdmprotocol/ddm/predicate/ast.go 39-55 cmpOp.String *)
Definition cmpOp_String (op : cmpOp) : bytes :=
  match op with
  | cmpEq => bs "==" | cmpNe => bs "!=" | cmpLt => bs "<" | cmpLe => bs "<="
  | cmpGt => bs ">" | cmpGe => bs ">=" | cmpIn => bs "IN" | cmpContains => bs "CONTAINS"
  | cmpBeginsWith => bs "BEGINSWITH" | cmpEndsWith => bs "ENDSWITH"
  end.

(* @src devicemanagement/mdmprotocol/ddm/predicate/ast.go - cmpOp.allowsCaseModifier *)
Definition allowsCaseModifier (op : cmpOp) : bool :=
  match op with
  | cmpEq | cmpNe | cmpIn | cmpContains | cmpBeginsWith | cmpEndsWith => true
  | cmpLt | cmpLe | cmpGt | cmpGe => false
  end.

(** Only the field that matches the kind of a literal is meaningful. *)
(* @src devicemanagement/mdmprotocol/ddm/predicate/ast.go 137-155 literal *)
Inductive literal :=
| litNull | litBool (b : bool) | litNumber (f : float64) | litString (s : bytes)
| litAggregate (items : list literal).

(* @src devicemanagement/mdmprotocol/ddm/predicate/ast.go 116-134 operand *)
Inductive operand := propertyRef (key : bytes) | statusRef (path : bytes) | opLiteral (l : literal).

(* @src devicemanagement/mdmprotocol/ddm/predicate/ast.go 69-110 expr *)
Inductive expr :=
| compoundExpr (op : logicalOp) (left right : expr)
| notExpr (e : expr)
| constExpr (value : bool)
| compareExpr (left : operand) (op : cmpOp) (caseInsensitive : bool) (right : operand).

(* @src devicemanagement/mdmprotocol/ddm/predicate/ast.go 3-11 precOr *)
Definition precOr : nat := 1.
Definition precAnd : nat := 2.
Definition precNot : nat := 3.
Definition precPrimary : nat := 4.

(* @src devicemanagement/mdmprotocol/ddm/predicate/ast.go 81-86 compoundExpr.precedence *)
Definition op_precedence (op : logicalOp) : nat :=
  match op with logicalAnd => precAnd | logicalOr => precOr end.
(* @src devicemanagement/mdmprotocol/ddm/predicate/ast.go 69-113 expr.precedence *)
Definition precedence (e : expr) : nat :=
  match e with
  | compoundExpr op _ _ => op_precedence op
  | notExpr _ => precNot
  | constExpr _ | compareExpr _ _ _ _ => precPrimary
  end.

(** ** Errors *)

(** [ErrFuel] is no error of the code: it marks the bound of a loop of the model, which
    no input reaches. *)
(* @src devicemanagement/mdmprotocol/ddm/predicate/predicate.go 13-17 errors *)
Inductive psentinel := ErrSyntax | ErrUnsupported | ErrFuel.
(* @src devicemanagement/mdmprotocol/ddm/predicate/predicate.go 20-48 SyntaxError *)
Record SyntaxError := mkErr { Offset : Z; Sentinel : psentinel }.
Definition syntaxErr (offset : Z) : SyntaxError := mkErr offset ErrSyntax.
Definition unsupportedErr (offset : Z) : SyntaxError := mkErr offset ErrUnsupported.

(** ** Tokens *)

(* @src devicemanagement/mdmprotocol/ddm/predicate/lexer.go 10-28 tokKind *)
Inductive tokKind :=
| tokEOF | tokLParen | tokRParen | tokLBrace | tokRBrace | tokComma | tokString | tokNumber
| tokIdent | tokOp | tokModifier | tokProperty | tokStatus.
#[export] Instance tokKind_eq_dec : EqDecision tokKind.
Proof. solve_decision. Defined.

(* @src devicemanagement/mdmprotocol/ddm/predicate/lexer.go - token *)
Record token := mkToken {
  t_kind : tokKind; t_text : bytes; t_number : float64; t_pos : Z; callFollows : bool }.
Definition tok (k : tokKind) (text : bytes) : token := mkToken k text (FFin false 0) 0 false.

(* @src devicemanagement/mdmprotocol/ddm/predicate/lexer.go 76-81 operatorWords *)
Definition operatorWords : list bytes :=
  bs <$> ["AND"; "OR"; "NOT"; "IN"; "CONTAINS"; "BEGINSWITH"; "ENDSWITH"; "MATCHES"; "LIKE";
          "BETWEEN"; "ANY"; "ALL"; "NONE"; "SOME"]%string.

(* @src devicemanagement/mdmprotocol/ddm/predicate/lexer.go - isDigit *)
Definition isDigit (c : Z) : bool := is_digit c.
(* @src devicemanagement/mdmprotocol/ddm/predicate/lexer.go - isIdentStart *)
Definition isIdentStart (c : Z) : bool := (c =? 95) || is_lower c || is_upper c.
(* @src devicemanagement/mdmprotocol/ddm/predicate/lexer.go - isKeyChar *)
Definition isKeyChar (c : Z) : bool := isIdentStart c || isDigit c || (c =? 46) || (c =? 45).
(* @src devicemanagement/mdmprotocol/ddm/predicate/lexer.go - isSpace *)
Definition isSpace (c : Z) : bool := (c =? 32) || (c =? 9) || (c =? 10) || (c =? 13).
Definition isQuote (c : Z) : bool := (c =? 39) || (c =? 34).
Definition isSign (c : Z) : bool := (c =? 43) || (c =? 45).

(** [l.byteAt(l.pos+i)], of the rest of the source. *)
(* @src devicemanagement/mdmprotocol/ddm/predicate/lexer.go - lexer.byteAt *)
Definition byteAt (i : nat) (s : bytes) : Z := nth i s 0.
(* @src devicemanagement/mdmprotocol/ddm/predicate/lexer.go - lexer.digitAt *)
Definition digitAt (i : nat) (s : bytes) : bool := isDigit (byteAt i s).
(* @src devicemanagement/mdmprotocol/ddm/predicate/lexer.go - lexer.skipSpace *)
Definition skipSpace (s : bytes) : bytes := (span isSpace s).2.
(* @src devicemanagement/mdmprotocol/ddm/predicate/lexer.go - lexer.consume *)
Definition consume (c : Z) (s : bytes) : option bytes :=
  match s with d :: s' => if d =? c then Some s' else None | [] => None end.
(* @src devicemanagement/mdmprotocol/ddm/predicate/lexer.go - lexer.readKeyChars *)
Definition readKeyChars (s : bytes) : bytes * bytes := span isKeyChar s.
(* @src devicemanagement/mdmprotocol/ddm/predicate/lexer.go - lexer.readDigits *)
Definition readDigits (s : bytes) : bytes * bytes := span isDigit s.

(* @src devicemanagement/mdmprotocol/ddm/predicate/lexer.go - lexer.signStartsNumber *)
Definition signStartsNumber (prevOperand : bool) (s : bytes) : bool :=
  negb prevOperand && (digitAt 1 s || ((byteAt 1 s =? 46) && digitAt 2 s)).

(* @src devicemanagement/mdmprotocol/ddm/predicate/lexer.go - endsOperand *)
Definition endsOperand (t : token) : bool :=
  match t_kind t with
  | tokString | tokNumber | tokProperty | tokStatus | tokRParen | tokRBrace => true
  | tokIdent => negb (bool_decide (ascii_upper (t_text t) ∈ operatorWords))
  | tokEOF | tokLParen | tokLBrace | tokComma | tokOp | tokModifier => false
  end.

(** ** Escapes *)

(** The rune of the first four bytes, if they are hexadecimal digits. *)
(* @src devicemanagement/mdmprotocol/ddm/predicate/lexer.go - lexer.hex4 *)
Definition hex4 (s : bytes) : option Z :=
  match mapM hex_value (take 4 s) with
  | Some [a; b; c; d] => Some (((a * 16 + b) * 16 + c) * 16 + d)
  | _ => None
  end.

(** The text of a [\u] escape whose digits start at [s], and how many bytes it takes. *)
(* @src devicemanagement/mdmprotocol/ddm/predicate/lexer.go - lexer.scanUnicodeEscape *)
Definition scanUnicodeEscape (s : bytes) : option (bytes * nat) :=
  match hex4 s with
  | None => None
  | Some r =>
      let lone := (write_rune r, 4%nat) in
      Some (if is_surrogate r && has_prefix (drop 4 s) (bs "\u") then
              match hex4 (drop 6 s) with
              | Some low => match decode_pair r low with
                            | Some rune => (write_rune rune, 10%nat)
                            | None => lone
                            end
              | None => lone
              end
            else lone)
  end.

(** The text of the escape after a backslash, and how many bytes follow the backslash. *)
(* @src devicemanagement/mdmprotocol/ddm/predicate/lexer.go - lexer.scanEscape *)
Definition scanEscape (s : bytes) : option (bytes * nat) :=
  match s with
  | [] => None
  | c :: s' =>
      if (c =? 92) || (c =? 39) || (c =? 34) then Some ([c], 1%nat)
      else if c =? 110 then Some ([10], 1%nat)
      else if c =? 114 then Some ([13], 1%nat)
      else if c =? 116 then Some ([9], 1%nat)
      else if c =? 117 then
        match scanUnicodeEscape s' with Some (w, n) => Some (w, S n) | None => None end
      else None
  end.

(** ** Scanning

    Every scanner takes the rest of the source at the start of the token and returns the
    token with the rest after it. *)
Section Lexer.
(** The length of the source. *)
Variable src_len : Z.

Definition offset (s : bytes) : Z := src_len - Z.of_nat (length s).

(** The bytes of a string literal up to the closing quote; [skip] bytes of an escape are
    already read, [start] is the offset of the opening quote. *)
(* @src devicemanagement/mdmprotocol/ddm/predicate/lexer.go 408-423 lexer.scanString *)
Fixpoint string_body (quote start : Z) (skip : nat) (s : bytes) : result SyntaxError (bytes * bytes) :=
  match s with
  | [] => Err (syntaxErr start)
  | c :: s' =>
      match skip with
      | S skip' => string_body quote start skip' s'
      | O =>
          if c =? quote then Ok ([], s')
          else if c =? 92 then
            match scanEscape s' with
            | None => Err (syntaxErr (offset s))
            | Some (w, n) => '(t, r) ← string_body quote start n s'; Ok (w ++ t, r)
            end
          else '(t, r) ← string_body quote start 0 s'; Ok (c :: t, r)
      end
  end.

(* @src devicemanagement/mdmprotocol/ddm/predicate/lexer.go - lexer.scanString *)
Definition scanString (s : bytes) : result SyntaxError (token * bytes) :=
  '(text, r) ← string_body (byteAt 0 s) (offset s) 0 (drop 1 s); Ok (tok tokString text, r).

(* @src devicemanagement/mdmprotocol/ddm/predicate/lexer.go - lexer.scanKey *)
Definition scanKey (s : bytes) : result SyntaxError (bytes * bytes) :=
  if isQuote (byteAt 0 s) then '(t, r) ← scanString s; Ok (t_text t, r)
  else
    let '(key, r) := readKeyChars s in
    if bool_decide (key = []) then Err (syntaxErr (offset r)) else Ok (key, r).

Definition expect (c : Z) (s : bytes) : result SyntaxError bytes :=
  match consume c s with Some r => Ok r | None => Err (syntaxErr (offset s)) end.

(* @src devicemanagement/mdmprotocol/ddm/predicate/lexer.go - lexer.scanReference *)
Definition scanReference (s : bytes) : result SyntaxError (token * bytes) :=
  let '(name, r) := readKeyChars (drop 1 s) in
  kind ← (if bool_decide (ascii_lower name = bs "property") then Ok tokProperty
          else if bool_decide (ascii_lower name = bs "status") then Ok tokStatus
          else Err (syntaxErr (offset s)));
  r ← expect 40 (skipSpace r);
  '(key, r) ← scanKey (skipSpace r);
  r ← expect 41 (skipSpace r);
  Ok (tok kind key, r).

(* @src devicemanagement/mdmprotocol/ddm/predicate/lexer.go - lexer.scanModifier *)
Definition scanModifier (s : bytes) : result SyntaxError (token * bytes) :=
  let '(w, r) := span (λ c, negb (c =? 93)) s in
  match r with
  | [] => Err (syntaxErr (offset s))
  | _ :: r => Ok (tok tokModifier (trim_space (drop 1 w)), r)
  end.

Definition skip_sign (s : bytes) : bytes := if isSign (byteAt 0 s) then drop 1 s else s.

(* @src devicemanagement/mdmprotocol/ddm/predicate/lexer.go - lexer.scanNumber *)
Definition scanNumber (s : bytes) : result SyntaxError (token * bytes) :=
  let '(_, r) := readDigits (skip_sign s) in
  let r := match consume 46 r with Some r => (readDigits r).2 | None => r end in
  r ← (if (byteAt 0 r =? 101) || (byteAt 0 r =? 69) then
         let '(ds, r) := readDigits (skip_sign (drop 1 r)) in
         if bool_decide (ds = []) then Err (syntaxErr (offset s)) else Ok r
       else Ok r);
  let text := take (length s - length r) s in
  match ParseFloat text with
  | Some v => Ok (mkToken tokNumber text v 0 false, r)
  | None => Err (syntaxErr (offset s))
  end.

(* @src devicemanagement/mdmprotocol/ddm/predicate/lexer.go - lexer.scanIdent *)
Definition scanIdent (s : bytes) : token * bytes :=
  let '(text, r) := readKeyChars s in
  (mkToken tokIdent text (FFin false 0) 0 (byteAt 0 (skipSpace r) =? 40), r).

Definition two_char_ops : list bytes := bs <$> ["=="; "!="; "<>"; "<="; ">="; "&&"; "||"]%string.

(* @src devicemanagement/mdmprotocol/ddm/predicate/lexer.go - lexer.scanOperator *)
Definition scanOperator (s : bytes) : result SyntaxError (token * bytes) :=
  if bool_decide (take 2 s ∈ two_char_ops) then Ok (tok tokOp (take 2 s), drop 2 s)
  else
    let c := byteAt 0 s in
    if (c =? 61) || (c =? 33) || (c =? 60) || (c =? 62) then Ok (tok tokOp [c], drop 1 s)
    else Err (syntaxErr (offset s)).

(* @src devicemanagement/mdmprotocol/ddm/predicate/lexer.go - lexer.scanPunct *)
Definition scanPunct (s : bytes) : result SyntaxError (token * bytes) :=
  let c := byteAt 0 s in
  let one kind := Ok (tok kind [c], drop 1 s) in
  if c =? 40 then one tokLParen
  else if c =? 41 then one tokRParen
  else if c =? 123 then one tokLBrace
  else if c =? 125 then one tokRBrace
  else if c =? 44 then one tokComma
  else if bool_decide (c ∈ bs "=!<>&|") then scanOperator s
  else if bool_decide (c ∈ bs "+-*/") then Err (unsupportedErr (offset s))
  else Err (syntaxErr (offset s)).

(* @src devicemanagement/mdmprotocol/ddm/predicate/lexer.go - lexer *)
Record lexer := mkLexer { l_rest : bytes; prevOperand : bool }.

(** The switch on the first byte of a token. *)
(* @src devicemanagement/mdmprotocol/ddm/predicate/lexer.go 181-204 lexer.next *)
Definition scan (prev : bool) (s : bytes) : result SyntaxError (token * bytes) :=
  let c := byteAt 0 s in
  if isQuote c then scanString s
  else if c =? 64 then scanReference s
  else if c =? 91 then scanModifier s
  else if (c =? 37) || (c =? 36) then Err (unsupportedErr (offset s))
  else if isDigit c || ((c =? 46) && digitAt 1 s) then scanNumber s
  else if isSign c && signStartsNumber prev s then scanNumber s
  else if isIdentStart c then Ok (scanIdent s)
  else scanPunct s.

(* @src devicemanagement/mdmprotocol/ddm/predicate/lexer.go - lexer.next *)
Definition next (l : lexer) : result SyntaxError (token * lexer) :=
  let s := skipSpace (l_rest l) in
  if bool_decide (s = []) then Ok (mkToken tokEOF [] (FFin false 0) (offset s) false, mkLexer s false)
  else
    '(t, r) ← scan (prevOperand l) s;
    let t := mkToken (t_kind t) (t_text t) (t_number t) (offset s) (callFollows t) in
    Ok (t, mkLexer r (endsOperand t)).
End Lexer.
