(* ===== verification/PredParser.v ===== *)
(** * Activation predicates, the parser and the canonical text: [parser.go], [predicate.go]

    Recursive descent with one token of lookahead. Nesting is the structural argument
    of the recursion: [levels] counts what is left of [maxDepth]. The loops over
    operators and aggregate items are bounded by the length of the rest of the source,
    since every iteration reads a token. *)
From S2P Require Import Prelude GoStrings Float64 PredLexer.

(* @src devicemanagement/mdmprotocol/ddm/predicate/parser.go 9-9 maxDepth *)
Definition maxDepth : nat := 256.

(* @src devicemanagement/mdmprotocol/ddm/predicate/parser.go 13-17 unsupportedWords *)
Definition unsupportedWords : list bytes :=
  bs <$> ["SELF"; "MATCHES"; "LIKE"; "BETWEEN"; "ANY"; "ALL"; "NONE"; "SOME"; "SUBQUERY";
          "FUNCTION"; "CAST"]%string.
(* @src devicemanagement/mdmprotocol/ddm/predicate/parser.go 20-24 reservedWords *)
Definition reservedWords : list bytes :=
  bs <$> ["AND"; "OR"; "NOT"; "IN"; "CONTAINS"; "BEGINSWITH"; "ENDSWITH"; "TRUEPREDICATE";
          "FALSEPREDICATE"]%string.

(** Lookup in a table of words. *)
Fixpoint assoc {A} (w : bytes) (l : list (bytes * A)) : option A :=
  match l with [] => None | (k, a) :: l' => if bool_decide (w = k) then Some a else assoc w l' end.

(* @src devicemanagement/mdmprotocol/ddm/predicate/parser.go 27-32 keywordOps *)
Definition keywordOps : list (bytes * cmpOp) :=
  [(bs "IN", cmpIn); (bs "CONTAINS", cmpContains); (bs "BEGINSWITH", cmpBeginsWith);
   (bs "ENDSWITH", cmpEndsWith)].
(* @src devicemanagement/mdmprotocol/ddm/predicate/parser.go 35-44 symbolOps *)
Definition symbolOps : list (bytes * cmpOp) :=
  [(bs "==", cmpEq); (bs "=", cmpEq); (bs "!=", cmpNe); (bs "<>", cmpNe); (bs "<", cmpLt);
   (bs "<=", cmpLe); (bs ">", cmpGt); (bs ">=", cmpGe)].

(* @src devicemanagement/mdmprotocol/ddm/predicate/parser.go - parser *)
Record parser := mkParser { p_lx : lexer; p_tok : token }.

Definition kind (p : parser) : tokKind := t_kind (p_tok p).
Definition is_kind (k : tokKind) (p : parser) : bool := bool_decide (kind p = k).

(* @src devicemanagement/mdmprotocol/ddm/predicate/parser.go - parser.keyword *)
Definition keyword (p : parser) : bytes :=
  if is_kind tokIdent p then ascii_upper (t_text (p_tok p)) else [].
(* @src devicemanagement/mdmprotocol/ddm/predicate/parser.go - parser.isOp *)
Definition isOp (text : string) (p : parser) : bool :=
  is_kind tokOp p && bool_decide (t_text (p_tok p) = bs text).
Definition is_word (w : string) (p : parser) : bool := bool_decide (keyword p = bs w).

Definition syntax_here {A} (p : parser) : result SyntaxError A := Err (syntaxErr (t_pos (p_tok p))).
Definition unsupported_here {A} (p : parser) : result SyntaxError A :=
  Err (unsupportedErr (t_pos (p_tok p))).

Abbreviation presult A := (result SyntaxError (A * parser)).

Section Parser.
Variable src_len : Z.

(* @src devicemanagement/mdmprotocol/ddm/predicate/parser.go - parser.advance *)
Definition advance (p : parser) : result SyntaxError parser :=
  '(t, lx) ← next src_len (p_lx p); Ok (mkParser lx t).

(** [return x, p.advance()]. *)
Definition then_advance {A} (x : A) (p : parser) : presult A := p ← advance p; Ok (x, p).

(** The bound of a loop that reads a token in every iteration: the current token, those of
    the rest and the end. *)
Definition fuel (p : parser) : nat := S (S (length (l_rest (p_lx p)))).
Definition out_of_fuel {A} (p : parser) : result SyntaxError A := Err (mkErr (t_pos (p_tok p)) ErrFuel).

(** ** Literals *)

(* @src devicemanagement/mdmprotocol/ddm/predicate/parser.go - parser.unsupportedWord *)
Definition unsupportedWord {A} (word : bytes) (p : parser) : result SyntaxError A :=
  if callFollows (p_tok p) then unsupported_here p
  else if bool_decide (cut_before 46 word ∈ unsupportedWords) then unsupported_here p
  else if bool_decide (word ∈ reservedWords) then syntax_here p
  else unsupported_here p.

(* @src devicemanagement/mdmprotocol/ddm/predicate/parser.go - parser.parseWordLiteral *)
Definition parseWordLiteral (p : parser) : presult literal :=
  if is_word "TRUE" p || is_word "YES" p then then_advance (litBool true) p
  else if is_word "FALSE" p || is_word "NO" p then then_advance (litBool false) p
  else if is_word "NULL" p || is_word "NIL" p then then_advance litNull p
  else unsupportedWord (keyword p) p.

(** The loop over the items of an aggregate; [lit] parses one, [items] are those so far. *)
(* @src devicemanagement/mdmprotocol/ddm/predicate/parser.go 375-390 parser.parseAggregate *)
Fixpoint aggregate_loop (n : nat) (lit : parser → presult literal) (items : list literal) (p : parser)
  : presult (list literal) :=
  match n with
  | O => out_of_fuel p
  | S n' =>
      if is_kind tokRBrace p then Ok (items, p)
      else
        p ← (if bool_decide (items ≠ []) then
               if is_kind tokComma p then advance p else syntax_here p
             else Ok p);
        '(item, p) ← lit p;
        aggregate_loop n' lit (items ++ [item]) p
  end.

(* @src devicemanagement/mdmprotocol/ddm/predicate/parser.go - parser.parseAggregate *)
Definition parseAggregate (lit : parser → presult literal) (p : parser) : presult literal :=
  p ← advance p;
  '(items, p) ← aggregate_loop (fuel p) lit [] p;
  then_advance (litAggregate items) p.

(* @src devicemanagement/mdmprotocol/ddm/predicate/parser.go - parser.parseLiteral *)
Fixpoint parseLiteral (levels : nat) (p : parser) : presult literal :=
  match kind p with
  | tokString => then_advance (litString (t_text (p_tok p))) p
  | tokNumber => then_advance (litNumber (t_number (p_tok p))) p
  | tokLBrace =>
      match levels with
      | O => syntax_here p
      | S levels' => parseAggregate (parseLiteral levels') p
      end
  | tokIdent => parseWordLiteral p
  | _ => syntax_here p
  end.

(** ** Comparisons *)

(* @src devicemanagement/mdmprotocol/ddm/predicate/parser.go - parser.parseOperand *)
Definition parseOperand (levels : nat) (p : parser) : presult operand :=
  match kind p with
  | tokProperty => then_advance (propertyRef (t_text (p_tok p))) p
  | tokStatus => then_advance (statusRef (t_text (p_tok p))) p
  | _ => '(l, p) ← parseLiteral levels p; Ok (opLiteral l, p)
  end.

(** [strings.EqualFold(text, "c")]. *)
Definition fold_c (s : bytes) : bool := bool_decide (s = bs "c" ∨ s = bs "C").

(* @src devicemanagement/mdmprotocol/ddm/predicate/parser.go - parser.parseModifier *)
Definition parseModifier (p : parser) : presult bool :=
  if negb (is_kind tokModifier p) then Ok (false, p)
  else if negb (fold_c (t_text (p_tok p))) then unsupported_here p
  else then_advance true p.

(* @src devicemanagement/mdmprotocol/ddm/predicate/parser.go - parser.parseOp *)
Definition parseOp (p : parser) : presult cmpOp :=
  op ← match kind p with
       | tokOp => Ok (assoc (t_text (p_tok p)) symbolOps)
       | tokIdent =>
           if is_word "MATCHES" p || is_word "LIKE" p || is_word "BETWEEN" p then unsupported_here p
           else Ok (assoc (keyword p) keywordOps)
       | _ => Ok None
       end;
  match op with None => syntax_here p | Some op => then_advance op p end.

(* @src devicemanagement/mdmprotocol/ddm/predicate/parser.go - parser.parseComparison *)
Definition parseComparison (levels : nat) (p : parser) : presult expr :=
  '(lhs, p) ← parseOperand levels p;
  let modifierPos := t_pos (p_tok p) in
  '(ci, p) ← parseModifier p;
  '(op, p) ← parseOp p;
  '(modifierPos, ci, p) ←
    (if is_kind tokModifier p then
       if (ci : bool) then syntax_here p
       else
         let modifierPos := t_pos (p_tok p) in
         '(ci, p) ← parseModifier p; Ok (modifierPos, ci, p)
     else Ok (modifierPos, ci, p));
  if (ci : bool) && negb (allowsCaseModifier op) then Err (syntaxErr modifierPos)
  else '(rhs, p) ← parseOperand levels p; Ok (compareExpr lhs op ci rhs, p).

(** ** Compound predicates *)

(** The loop of [parseOr] and [parseAnd]: [more] recognises the operator, [sub] parses the
    next operand. *)
(* @src devicemanagement/mdmprotocol/ddm/predicate/parser.go 116-125 parser.parseOr *)
Fixpoint compound_loop (n : nat) (op : logicalOp) (more : parser → bool)
  (sub : parser → presult expr) (lhs : expr) (p : parser) : presult expr :=
  match n with
  | O => out_of_fuel p
  | S n' =>
      if more p then
        p ← advance p;
        '(rhs, p) ← sub p;
        compound_loop n' op more sub (compoundExpr op lhs rhs) p
      else Ok (lhs, p)
  end.

Definition more_or (p : parser) : bool := is_word "OR" p || isOp "||" p.
Definition more_and (p : parser) : bool := is_word "AND" p || isOp "&&" p.

(* @src devicemanagement/mdmprotocol/ddm/predicate/parser.go - parser.parseAnd *)
Definition parseAnd (pNot : parser → presult expr) (p : parser) : presult expr :=
  '(lhs, p) ← pNot p; compound_loop (fuel p) logicalAnd more_and pNot lhs p.
(* @src devicemanagement/mdmprotocol/ddm/predicate/parser.go - parser.parseOr *)
Definition parseOr (pNot : parser → presult expr) (p : parser) : presult expr :=
  '(lhs, p) ← parseAnd pNot p; compound_loop (fuel p) logicalOr more_or (parseAnd pNot) lhs p.

(* @src devicemanagement/mdmprotocol/ddm/predicate/parser.go - parser.parseParenthesised *)
Definition parseParenthesised (pNot : parser → presult expr) (p : parser) : presult expr :=
  p ← advance p;
  '(e, p) ← parseOr pNot p;
  if is_kind tokRParen p then then_advance e p else syntax_here p.

(** [paren] parses a group, one level down. *)
(* @src devicemanagement/mdmprotocol/ddm/predicate/parser.go - parser.parsePrimary *)
Definition parsePrimary (levels : nat) (paren : parser → presult expr) (p : parser) : presult expr :=
  if is_kind tokLParen p then paren p
  else if is_word "TRUEPREDICATE" p then then_advance (constExpr true) p
  else if is_word "FALSEPREDICATE" p then then_advance (constExpr false) p
  else if is_kind tokEOF p then syntax_here p
  else parseComparison levels p.

Definition is_not (p : parser) : bool := is_word "NOT" p || isOp "!" p.

(* @src devicemanagement/mdmprotocol/ddm/predicate/parser.go - parser.parseNot *)
Fixpoint parseNot (levels : nat) (p : parser) : presult expr :=
  match levels with
  | O => if negb (is_not p) then parsePrimary levels syntax_here p else syntax_here p
  | S levels' =>
      if negb (is_not p) then parsePrimary levels (parseParenthesised (parseNot levels')) p
      else
        p ← advance p;
        '(e, p) ← parseNot levels' p;
        Ok (notExpr e, p)
  end.
End Parser.

(* @src devicemanagement/mdmprotocol/ddm/predicate/parser.go - parse *)
Definition parse (src : bytes) : result SyntaxError expr :=
  let n := Z.of_nat (length src) in
  p ← advance n (mkParser (mkLexer src false) (mkToken tokEOF [] (FFin false 0) 0 false));
  if is_kind tokEOF p then syntax_here p
  else
    '(e, p) ← parseOr n (parseNot n maxDepth) p;
    if negb (is_kind tokEOF p) then syntax_here p else Ok e.

(* @src devicemanagement/mdmprotocol/ddm/predicate/predicate.go - Predicate *)
Record Predicate := mkPredicate { root : expr; src : bytes }.
(* @src devicemanagement/mdmprotocol/ddm/predicate/predicate.go - Parse *)
Definition Parse (s : bytes) : result SyntaxError Predicate :=
  e ← parse s; Ok (mkPredicate e s).

Example parse_precedence :
  parse (bs "TRUEPREDICATE || NOT @property(a.b) in[c] {'x', -1.5e3} and falsepredicate") =
  Ok (compoundExpr logicalOr (constExpr true)
        (compoundExpr logicalAnd
           (notExpr (compareExpr (propertyRef (bs "a.b")) cmpIn true
              (opLiteral (litAggregate [litString (bs "x"); litNumber (FFin true (1500 * ulp_scale))]))))
           (constExpr false))).
Proof. vm_compute. reflexivity. Qed.

Example parse_unsupported :
  parse (bs "SELF == 1") = Err (unsupportedErr 0) ∧ parse (bs "1 + 2 == 3") = Err (unsupportedErr 2) ∧
  parse (bs "1 ==[c] 1 OR") = Err (syntaxErr 12) ∧ parse (bs "1 <[c] 2") = Err (syntaxErr 3).
Proof. vm_compute. done. Qed.

(** ** Activation predicates, the canonical text: [predicate.go]

    [Predicate.String]: upper-case keywords, single-quoted strings, parentheses only
    where the precedence requires them. *)

(** The verb [%04x] of a byte. *)
Definition hex_char (n : Z) : Z := if n <? 10 then 48 + n else 87 + n.
Definition hex_04 (c : Z) : bytes := [48; 48; hex_char (c / 16); hex_char (c mod 16)].

(** One byte of a string literal. *)
(* @src devicemanagement/mdmprotocol/ddm/predicate/predicate.go 281-298 renderString *)
Definition render_char (c : Z) : bytes :=
  if (c =? 39) || (c =? 92) then [92; c]
  else if c =? 10 then bs "\n"
  else if c =? 13 then bs "\r"
  else if c =? 9 then bs "\t"
  else if (c <? 32) || (c =? 127) then bs "\u" ++ hex_04 c
  else [c].

(* @src devicemanagement/mdmprotocol/ddm/predicate/predicate.go - renderString *)
Definition renderString (s : bytes) : bytes := 39 :: mjoin (render_char <$> s) ++ [39].

(* @src devicemanagement/mdmprotocol/ddm/predicate/predicate.go - renderKey *)
Definition renderKey (key : bytes) : bytes :=
  if bool_decide (key ≠ []) && forallb isKeyChar key then key else renderString key.

(** The items of an aggregate, separated by commas. *)
Fixpoint comma_list (l : list bytes) : bytes :=
  match l with
  | [] => []
  | x :: l' => match l' with [] => x | _ => x ++ bs ", " ++ comma_list l' end
  end.

(* @src devicemanagement/mdmprotocol/ddm/predicate/predicate.go - renderLiteral *)
Fixpoint renderLiteral (l : literal) : bytes :=
  match l with
  | litNull => bs "NULL"
  | litBool b => if b then bs "TRUE" else bs "FALSE"
  | litNumber f => FormatFloat f
  | litString s => renderString s
  | litAggregate items => bs "{" ++ comma_list (renderLiteral <$> items) ++ bs "}"
  end.

(* @src devicemanagement/mdmprotocol/ddm/predicate/predicate.go - renderOperand *)
Definition renderOperand (o : operand) : bytes :=
  match o with
  | propertyRef key => bs "@property(" ++ renderKey key ++ bs ")"
  | statusRef path => bs "@status(" ++ renderKey path ++ bs ")"
  | opLiteral l => renderLiteral l
  end.

(* @src devicemanagement/mdmprotocol/ddm/predicate/predicate.go - renderCompare *)
Definition renderCompare (l : operand) (op : cmpOp) (ci : bool) (r : operand) : bytes :=
  renderOperand l ++ bs " " ++ cmpOp_String op ++ (if ci then bs "[c]" else []) ++ bs " " ++ renderOperand r.

(** The text of a child that needs at least the precedence [minPrec]. *)
(* @src devicemanagement/mdmprotocol/ddm/predicate/predicate.go - renderChild *)
Definition renderChild (text : bytes) (e : expr) (minPrec : nat) : bytes :=
  if (precedence e <? minPrec)%nat then bs "(" ++ text ++ bs ")" else text.

(* @src devicemanagement/mdmprotocol/ddm/predicate/predicate.go 162-204 renderExpr *)
Fixpoint renderExpr (e : expr) : bytes :=
  match e with
  | constExpr b => if b then bs "TRUEPREDICATE" else bs "FALSEPREDICATE"
  | notExpr e' => bs "NOT " ++ renderChild (renderExpr e') e' precNot
  | compoundExpr op l r =>
      renderChild (renderExpr l) l (op_precedence op)
      ++ match op with logicalAnd => bs " AND " | logicalOr => bs " OR " end
      ++ renderChild (renderExpr r) r (S (op_precedence op))
  | compareExpr l op ci r => renderCompare l op ci r
  end.

(** A nil predicate is [None]. *)
(* @src devicemanagement/mdmprotocol/ddm/predicate/predicate.go - Predicate.String *)
Definition Predicate_String (p : option Predicate) : bytes :=
  match p with None => [] | Some p => renderExpr (root p) end.

(* @src devicemanagement/mdmprotocol/ddm/predicate/predicate.go - Predicate.Source *)
Definition Source (p : option Predicate) : bytes := match p with None => [] | Some p => src p end.

Example render_sample :
  renderExpr (compoundExpr logicalAnd
    (compoundExpr logicalOr (constExpr true) (notExpr (constExpr false)))
    (compareExpr (propertyRef (bs "a b")) cmpEq true (opLiteral (litAggregate [litString [39; 1]; litNull])))) =
  bs "(TRUEPREDICATE OR NOT FALSEPREDICATE) AND @property('a b') ==[c] {'\'\u0001', NULL}".
Proof. vm_compute. reflexivity. Qed.
