(* ===== verification/PredEval.v ===== *)
(** * Activation predicates, evaluation: [eval.go]

    A predicate is evaluated against the values that its references resolve to. [raw]
    is what an environment may supply, [value] the evaluator's own model. Lower-casing
    of text beyond ASCII follows the Unicode tables, the parameter [UnicodeCase].

    The theorems: evaluation looks at the references of the predicate only; [IN] over a
    literal aggregate is the disjunction of the equalities, errors included; what every
    operator does with nil. *)
From S2P Require Import Prelude GoStrings Float64 PredLexer PredParser.

Class UnicodeCase := { unicode_lower : bytes → bytes }.

(** [strings.ToLower]: text of ASCII characters is mapped byte by byte. *)
Definition to_lower `{!UnicodeCase} (s : bytes) : bytes :=
  if forallb (λ c, c <? 128) s then ascii_lower s else unicode_lower s.

(** ** Values *)

(** What an [Env] supplies: a float of either width, an integer of any type, a
    [json.Number] given by what its [Float64] returns, a slice, a value of another
    type. *)
Inductive raw :=
| RNil | RBool (b : bool) | RString (s : bytes) | RFloat (f : float64) | RInt (z : Z)
| RJSONNumber (f : option float64) | RSlice (l : list raw) | ROther.

Inductive value := VNil | VBool (b : bool) | VNumber (f : float64) | VString (s : bytes) | VAgg (l : list value).
#[export] Instance value_nil_dec v : Decision (v = VNil).
Proof. destruct v; (by left) || by right. Defined.

Inductive eerr := EType | ESyntax.

(** A lookup that reports false is [None]. *)
(* @src devicemanagement/mdmprotocol/ddm/predicate/predicate.go - Env *)
Record Env := mkEnv { Property : bytes → option raw; Status : bytes → option raw }.
(* @src devicemanagement/mdmprotocol/ddm/predicate/eval.go 15-22 emptyEnv *)
Definition emptyEnv : Env := mkEnv (λ _, None) (λ _, None).
(* @src devicemanagement/mdmprotocol/ddm/predicate/predicate.go 61-74 Properties *)
Definition Properties (m : gmap bytes raw) : Env := mkEnv (λ k, m !! k) (λ _, None).
(* @src devicemanagement/mdmprotocol/ddm/predicate/predicate.go 76-94 MapEnv *)
Definition MapEnv (properties items : gmap bytes raw) : Env := mkEnv (λ k, properties !! k) (λ k, items !! k).

(* @src devicemanagement/mdmprotocol/ddm/predicate/eval.go 119-175 normalize *)
Fixpoint normalize (r : raw) : result eerr value :=
  match r with
  | RNil => Ok VNil
  | RBool b => Ok (VBool b)
  | RString s => Ok (VString s)
  | RFloat f => Ok (VNumber f)
  | RInt z => Ok (VNumber (float_of_Z z))
  | RJSONNumber o => match o with Some f => Ok (VNumber f) | None => Err EType end
  | RSlice l =>
      items ← (fix slice (l : list raw) : result eerr (list value) :=
                 match l with
                 | [] => Ok []
                 | r :: l' => v ← normalize r; vs ← slice l'; Ok (v :: vs)
                 end) l;
      Ok (VAgg items)
  | ROther => Err EType
  end.

(* @src devicemanagement/mdmprotocol/ddm/predicate/eval.go - literalValue *)
Fixpoint literalValue (l : literal) : value :=
  match l with
  | litNull => VNil
  | litBool b => VBool b
  | litNumber f => VNumber f
  | litString s => VString s
  | litAggregate items => VAgg (literalValue <$> items)
  end.

Definition resolve (o : option raw) : result eerr value :=
  match o with None => Ok VNil | Some r => normalize r end.

(* @src devicemanagement/mdmprotocol/ddm/predicate/eval.go - operandValue *)
Definition operandValue (o : operand) (env : Env) : result eerr value :=
  match o with
  | propertyRef key => resolve (Property env key)
  | statusRef path => resolve (Status env path)
  | opLiteral l => Ok (literalValue l)
  end.

(** ** Comparisons *)

Section Eval.
Context {UC : UnicodeCase}.

(* @src devicemanagement/mdmprotocol/ddm/predicate/eval.go - fold *)
Definition fold (ci : bool) (s : bytes) : bytes := if ci then to_lower s else s.

(* @src devicemanagement/mdmprotocol/ddm/predicate/eval.go - equalValues *)
Definition equalValues (ci : bool) (left_ right_ : value) : result eerr bool :=
  if bool_decide (left_ = VNil) || bool_decide (right_ = VNil)
  then Ok (bool_decide (left_ = VNil) && bool_decide (right_ = VNil))
  else match left_, right_ with
  | VNumber a, VNumber b => Ok (feqb a b)
  | VString a, VString b => Ok (bool_decide (fold ci a = fold ci b))
  | VBool a, VBool b => Ok (bool_decide (a = b))
  | _, _ => Err EType
  end.

(* @src devicemanagement/mdmprotocol/ddm/predicate/eval.go - compareFloats *)
Definition compareFloats (a b : float64) : Z := if fltb a b then -1 else if fltb b a then 1 else 0.

(** [strings.Compare]. *)
Definition compare_strings (a b : bytes) : Z := if bytes_ltb a b then -1 else if bytes_ltb b a then 1 else 0.

(* @src devicemanagement/mdmprotocol/ddm/predicate/eval.go - orderValues *)
Definition orderValues (op : cmpOp) (ci : bool) (left_ right_ : value) : result eerr bool :=
  if bool_decide (left_ = VNil) || bool_decide (right_ = VNil) then Ok false
  else
    c ← match left_, right_ with
        | VNumber a, VNumber b => Ok (compareFloats a b)
        | VString a, VString b => Ok (compare_strings (fold ci a) (fold ci b))
        | _, _ => Err EType
        end;
    Ok match op with
       | cmpLt => c <? 0
       | cmpLe => c <=? 0
       | cmpGt => 0 <? c
       | cmpGe => 0 <=? c
       | _ => false
       end.

(** The loop over the items. *)
(* @src devicemanagement/mdmprotocol/ddm/predicate/eval.go 303-311 inValues *)
Fixpoint in_loop (ci : bool) (v : value) (items : list value) : result eerr bool :=
  match items with
  | [] => Ok false
  | i :: items' => eq ← equalValues ci v i; if (eq : bool) then Ok true else in_loop ci v items'
  end.

(* @src devicemanagement/mdmprotocol/ddm/predicate/eval.go - inValues *)
Definition inValues (ci : bool) (left_ right_ : value) : result eerr bool :=
  match right_ with
  | VAgg items => if bool_decide (left_ = VNil) then Ok false else in_loop ci left_ items
  | _ => Err EType
  end.

(* @src devicemanagement/mdmprotocol/ddm/predicate/eval.go - substringValues *)
Definition substringValues (op : cmpOp) (ci : bool) (left_ right_ : value) : result eerr bool :=
  if bool_decide (left_ = VNil) || bool_decide (right_ = VNil) then Ok false
  else match left_, right_ with
  | VString a, VString b =>
      let a := fold ci a in
      let b := fold ci b in
      Ok match op with
         | cmpContains => contains a b
         | cmpBeginsWith => has_prefix a b
         | cmpEndsWith => has_suffix a b
         | _ => false
         end
  | _, _ => Err EType
  end.

(* @src devicemanagement/mdmprotocol/ddm/predicate/eval.go - compareValues *)
Definition compareValues (op : cmpOp) (ci : bool) (left_ right_ : value) : result eerr bool :=
  match op with
  | cmpEq => equalValues ci left_ right_
  | cmpNe => eq ← equalValues ci left_ right_; Ok (negb eq)
  | cmpLt | cmpLe | cmpGt | cmpGe => orderValues op ci left_ right_
  | cmpIn => inValues ci left_ right_
  | cmpContains | cmpBeginsWith | cmpEndsWith => substringValues op ci left_ right_
  end.

(** ** Expressions *)

(* @src devicemanagement/mdmprotocol/ddm/predicate/eval.go - evalCompare *)
Definition evalCompare (l : operand) (op : cmpOp) (ci : bool) (r : operand) (env : Env) : result eerr bool :=
  a ← operandValue l env; b ← operandValue r env; compareValues op ci a b.

(** The branches of [evalExpr], with [evalCompound] in its place. *)
(* @src devicemanagement/mdmprotocol/ddm/predicate/eval.go 26-58 evalExpr *)
Fixpoint evalExpr (e : expr) (env : Env) : result eerr bool :=
  match e with
  | constExpr b => Ok b
  | notExpr e' => v ← evalExpr e' env; Ok (negb v)
  | compoundExpr op l r =>
      v ← evalExpr l env;
      match op with
      | logicalAnd => if negb v then Ok false else evalExpr r env
      | logicalOr => if (v : bool) then Ok true else evalExpr r env
      end
  | compareExpr l op ci r => evalCompare l op ci r env
  end.

(** A nil predicate and a nil environment are [None]. *)
(* @src devicemanagement/mdmprotocol/ddm/predicate/predicate.go - Predicate.Eval *)
Definition Eval (p : option Predicate) (env : option Env) : result eerr bool :=
  match p with
  | None => Err ESyntax
  | Some p => evalExpr (root p) (default emptyEnv env)
  end.
End Eval.

(** ** References *)

Definition operand_agrees (env env' : Env) (o : operand) : Prop :=
  match o with
  | propertyRef key => Property env key = Property env' key
  | statusRef path => Status env path = Status env' path
  | opLiteral _ => True
  end.

(** The environments agree on every reference of the predicate. *)
Fixpoint agrees (env env' : Env) (e : expr) : Prop :=
  match e with
  | constExpr _ => True
  | notExpr e' => agrees env env' e'
  | compoundExpr _ l r => agrees env env' l ∧ agrees env env' r
  | compareExpr l _ _ r => operand_agrees env env' l ∧ operand_agrees env env' r
  end.

Lemma operandValue_agrees env env' o : operand_agrees env env' o → operandValue o env = operandValue o env'.
Proof. destruct o; cbn; [by intros ->..|done]. Qed.

(** Evaluation depends on the values of the references that occur in the predicate, and
    on nothing else: environments that agree on them give the same verdict or error. *)
Theorem Eval_references {UC : UnicodeCase} p env env' :
  agrees env env' (root p) → Eval (Some p) (Some env) = Eval (Some p) (Some env').
Proof.
  cbn. generalize (root p) as e. induction e as [op l IHl r IHr|e IH|b|l op ci r]; cbn; intros H.
  - destruct H as [Hl Hr]. rewrite (IHl Hl). by rewrite (IHr Hr).
  - by rewrite (IH H).
  - done.
  - destruct H as [Hl Hr]. unfold evalCompare. by rewrite (operandValue_agrees _ _ _ Hl), (operandValue_agrees _ _ _ Hr).
Qed.

(** ** Membership *)

(** [x == l1 OR x == l2 OR ...]. *)
Fixpoint any_equal (o : operand) (ci : bool) (ls : list literal) : expr :=
  match ls with
  | [] => constExpr false
  | l :: ls' => compoundExpr logicalOr (compareExpr o cmpEq ci (opLiteral l)) (any_equal o ci ls')
  end.

(** [IN] over a literal aggregate is the disjunction of the equalities with its items,
    in order, with the same errors, whenever the left side is not nil; a nil left side
    is in no aggregate. *)
Theorem Eval_in_disjunction {UC : UnicodeCase} o ci ls env v :
  operandValue o env = Ok v →
  evalExpr (compareExpr o cmpIn ci (opLiteral (litAggregate ls))) env =
    if decide (v = VNil) then Ok false else evalExpr (any_equal o ci ls) env.
Proof.
  intros Hv. cbn [evalExpr]. unfold evalCompare. rewrite Hv. cbn [mbind result_bind operandValue literalValue].
  unfold compareValues, inValues. case_decide as Hnil; [by rewrite bool_decide_true|].
  rewrite bool_decide_false by done. induction ls as [|l ls IH]; [done|].
  cbn [fmap list_fmap in_loop any_equal evalExpr]. unfold evalCompare. rewrite Hv.
  cbn [mbind result_bind operandValue compareValues].
  destruct (equalValues ci v (literalValue l)) as [[]|e]; [done| |done]. exact IH.
Qed.

(** ** Nil *)

(** What the operators do with nil: two nils are equal and nil equals nothing else, nil is
    never ordered, contained, a prefix or a suffix, nil is in no aggregate; but [IN] with
    nil on the right is a type error. *)
Theorem compareValues_nil {UC : UnicodeCase} op ci v w :
  v = VNil ∨ w = VNil →
  compareValues op ci v w =
    match op with
    | cmpEq => Ok (bool_decide (v = VNil ∧ w = VNil))
    | cmpNe => Ok (negb (bool_decide (v = VNil ∧ w = VNil)))
    | cmpIn => match w with VAgg _ => Ok false | _ => Err EType end
    | _ => Ok false
    end.
Proof.
  intros H.
  assert (bool_decide (v = VNil) || bool_decide (w = VNil) = true) as Hor
    by (rewrite orb_true_iff, !bool_decide_eq_true; done).
  assert (bool_decide (v = VNil ∧ w = VNil) = bool_decide (v = VNil) && bool_decide (w = VNil)) as Hand
    by (repeat case_bool_decide; naive_solver).
  destruct op; cbn [compareValues]; unfold equalValues, orderValues, substringValues; rewrite ?Hor, ?Hand; try done.
  unfold inValues. destruct w; try done. destruct H as [->|]; done.
Qed.

(** The package documentation says that [IN] involving nil is false. *)
Example in_nil_is_an_error `{!UnicodeCase} :
  evalExpr (compareExpr (propertyRef (bs "a")) cmpIn false (propertyRef (bs "b"))) emptyEnv = Err EType.
Proof. reflexivity. Qed.

#[local] Instance keep_case : UnicodeCase := {| unicode_lower s := s |}.

Lemma Eval_references_witness :
  let p := mkPredicate (compareExpr (propertyRef (bs "a")) cmpLt false (statusRef (bs "b"))) [] in
  let env n := MapEnv {[bs "a" := RInt 1; bs "z" := RInt n]} {[bs "b" := RInt 2]} in
  Eval (Some p) (Some (env 3)) = Ok true ∧ Eval (Some p) (Some (env 3)) = Eval (Some p) (Some (env 4)).
Proof.
  intros p env. split; [vm_compute; reflexivity|]. apply (Eval_references p (env 3) (env 4)).
  split; vm_compute; reflexivity.
Defined.

Lemma Eval_in_disjunction_witness :
  let o := propertyRef (bs "os") in
  let ls := [litString (bs "macos"); litString (bs "ios")] in
  let env := Properties {[bs "os" := RString (bs "iOS")]} in
  evalExpr (compareExpr o cmpIn true (opLiteral (litAggregate ls))) env = Ok true ∧
  evalExpr (compareExpr o cmpIn true (opLiteral (litAggregate ls))) env =
    if decide (VString (bs "iOS") = VNil) then Ok false else evalExpr (any_equal o true ls) env.
Proof.
  intros o ls env. split; [vm_compute; reflexivity|].
  apply (Eval_in_disjunction o true ls env (VString (bs "iOS"))). vm_compute. reflexivity.
Defined.

Lemma compareValues_nil_witness :
  compareValues cmpIn false VNil (VAgg [VNil]) = Ok false ∧
  compareValues cmpIn false (VBool true) VNil = Err EType.
Proof.
  split.
  - rewrite (compareValues_nil cmpIn false VNil (VAgg [VNil])); [reflexivity|left; reflexivity].
  - rewrite (compareValues_nil cmpIn false (VBool true) VNil); [reflexivity|right; reflexivity].
Defined.
