(* ===== verification/PredProgress.v ===== *)
(** * Every token is progress

    The scanners read at least one byte, so the parser's loops end: with the fuel they
    are given they never run out, and more fuel changes nothing. *)
From S2P Require Import Prelude GoStrings Float64 PredLexer PredParser.

(** ** Scanners *)

Section Progress.
Variable N : Z.

(** A scanner that succeeds leaves less than it was given, and never reports the bound of a
    loop. *)
Definition scans {A} (s : bytes) (r : result SyntaxError (A * bytes)) : Prop :=
  match r with
  | Ok (_, r) => (length r < length s)%nat
  | Err e => Sentinel e ≠ ErrFuel
  end.

Lemma span_length p s : (length (span p s).2 ≤ length s)%nat.
Proof.
  destruct (span p s) as [w r] eqn:H. apply span_app in H as [-> _]. rewrite length_app. cbn. lia.
Qed.

Lemma span_first p s : p (byteAt 0 s) = true → s ≠ [] → (length (span p s).2 < length s)%nat.
Proof.
  destruct s as [|c s]; [done|]. cbn. intros -> _. pose proof (span_length p s).
  destruct (span p s). cbn in *. lia.
Qed.

Lemma string_body_scans q st s : ∀ skip, scans s (string_body N q st skip s).
Proof.
  induction s as [|c s IH]; intros skip; cbn [string_body]; [done|].
  assert (∀ k w, scans (c :: s) ('(t, r) ← string_body N q st k s; Ok (w ++ t, r))) as Hs.
  { intros k w. specialize (IH k). destruct (string_body N q st k s) as [[t r]|e]; cbn in *; [lia|done]. }
  destruct skip as [|k].
  - destruct (c =? q); [cbn; lia|]. destruct (c =? 92); [|apply (Hs 0%nat [c])].
    destruct (scanEscape s) as [[w n]|]; [apply Hs|done].
  - specialize (IH k). destruct (string_body N q st k s) as [[t r]|e]; cbn in *; [lia|done].
Qed.

Lemma scanString_scans s : s ≠ [] → scans s (scanString N s).
Proof.
  intros Hs. unfold scanString. pose proof (string_body_scans (byteAt 0 s) (offset N s) (drop 1 s) 0) as H.
  destruct (string_body _ _ _ _ _) as [[t r]|e]; cbn in *; [|done]. rewrite length_drop in H. lia.
Qed.

Lemma scanKey_scans s : match scanKey N s with
                        | Ok (_, r) => (length r ≤ length s)%nat
                        | Err e => Sentinel e ≠ ErrFuel
                        end.
Proof.
  unfold scanKey. destruct (isQuote _) eqn:Hq.
  - destruct s as [|c s]; [done|]. pose proof (scanString_scans (c :: s) ltac:(done)) as H.
    destruct (scanString N (c :: s)) as [[t r]|e]; cbn [mbind result_bind scans] in *; [lia|done].
  - unfold readKeyChars. pose proof (span_length isKeyChar s) as H. destruct (span isKeyChar s) as [key r].
    case_bool_decide; [done|exact H].
Qed.

Lemma expect_scans c s : match expect N c s with
                         | Ok r => (length r < length s)%nat
                         | Err e => Sentinel e ≠ ErrFuel
                         end.
Proof. unfold expect, consume. destruct s as [|d s]; [done|]. destruct (d =? c); [cbn; lia|done]. Qed.

Lemma skipSpace_length s : (length (skipSpace s) ≤ length s)%nat.
Proof. apply span_length. Qed.

Lemma scanReference_scans s : s ≠ [] → scans s (scanReference N s).
Proof.
  intros Hs. unfold scanReference, readKeyChars. pose proof (span_length isKeyChar (drop 1 s)) as H0.
  destruct (span isKeyChar (drop 1 s)) as [name r]. cbn [snd] in H0. rewrite length_drop in H0.
  assert (∀ k, scans s (r ← expect N 40 (skipSpace r);
      '(key, r) ← scanKey N (skipSpace r); r ← expect N 41 (skipSpace r); Ok (tok k key, r))) as H.
  { intros k. pose proof (expect_scans 40 (skipSpace r)) as Ha. pose proof (skipSpace_length r).
    destruct (expect N 40 (skipSpace r)) as [r1|e]; cbn [mbind result_bind]; [|exact Ha].
    pose proof (scanKey_scans (skipSpace r1)) as Hb. pose proof (skipSpace_length r1).
    destruct (scanKey N (skipSpace r1)) as [[key r2]|e]; cbn [mbind result_bind]; [|exact Hb].
    pose proof (expect_scans 41 (skipSpace r2)) as Hc. pose proof (skipSpace_length r2).
    destruct (expect N 41 (skipSpace r2)) as [r3|e]; cbn [mbind result_bind scans]; [|exact Hc]. lia. }
  case_bool_decide; [apply H|]. case_bool_decide; [apply H|done].
Qed.

Lemma scanModifier_scans s : scans s (scanModifier N s).
Proof.
  unfold scanModifier. pose proof (span_length (λ c, negb (c =? 93)) s) as H.
  destruct (span _ s) as [w [|c r]]; cbn in *; [done|]. lia.
Qed.

Lemma ParseFloat_nil : ParseFloat [] = None.
Proof. vm_compute. reflexivity. Qed.

(** A number that was read has a text. *)
Lemma scanNumber_scans s : scans s (scanNumber N s).
Proof.
  unfold scanNumber. destruct (readDigits (skip_sign s)) as [ds r].
  set (r1 := match consume 46 r with Some r => (readDigits r).2 | None => r end).
  assert (∀ r', scans s (match ParseFloat (take (length s - length r') s) with
                         | Some v => Ok (mkToken tokNumber (take (length s - length r') s) v 0 false, r')
                         | None => Err (syntaxErr (offset N s)) end)) as H.
  { intros r'. destruct (Nat.le_gt_cases (length s) (length r')) as [Hle|Hgt].
    - replace (length s - length r')%nat with 0%nat by lia. rewrite take_0, ParseFloat_nil. done.
    - destruct (ParseFloat _); [exact Hgt|done]. }
  destruct (_ || _); [|apply H]. destruct (readDigits (skip_sign (drop 1 r1))) as [es r2].
  case_bool_decide; [done|apply H].
Qed.

Lemma isIdentStart_key c : isIdentStart c = true → isKeyChar c = true.
Proof. unfold isKeyChar. by intros ->. Qed.

Lemma scan_scans prev s : s ≠ [] → scans s (scan N prev s).
Proof.
  intros Hs. assert (length s ≠ 0)%nat as Hl by (by destruct s). unfold scan.
  destruct (isQuote _); [by apply scanString_scans|]. destruct (_ =? 64); [by apply scanReference_scans|].
  destruct (_ =? 91); [apply scanModifier_scans|]. destruct (_ || _); [done|].
  destruct (_ || _); [apply scanNumber_scans|]. destruct (_ && _); [apply scanNumber_scans|].
  destruct (isIdentStart _) eqn:Hi.
  - unfold scanIdent, readKeyChars. pose proof (span_first isKeyChar s (isIdentStart_key _ Hi) Hs) as H.
    destruct (span isKeyChar s). exact H.
  - unfold scanPunct, scanOperator. repeat case_match; cbn; try rewrite length_drop; lia || done.
Qed.

(** ** Tokens *)

(** How much is left. *)
Definition left_ (p : parser) : nat := length (l_rest (p_lx p)).
Definition at_eof (p : parser) : Prop := kind p = tokEOF.
#[local] Instance at_eof_dec p : Decision (at_eof p).
Proof. unfold at_eof. apply _. Defined.

(** [p'] is further on than [p]: less is left, unless the end was reached. *)
Definition moved (p p' : parser) : Prop :=
  (left_ p' ≤ left_ p)%nat ∧ (¬ at_eof p' → (left_ p' < left_ p)%nat).

Lemma moved_trans p1 p2 p3 : moved p1 p2 → moved p2 p3 → moved p1 p3.
Proof. unfold moved. intros [Ha Hb] [Hc Hd]. split; [lia|]. intros H. specialize (Hd H). lia. Qed.

Lemma advance_moved p : match advance N p with Ok p' => moved p p' | Err e => Sentinel e ≠ ErrFuel end.
Proof.
  unfold advance, next. pose proof (skipSpace_length (l_rest (p_lx p))) as Hsk.
  case_bool_decide as He.
  - cbn [mbind result_bind]. unfold moved, left_, at_eof, kind. cbn. rewrite He in *. split; [cbn; lia|done].
  - pose proof (scan_scans (prevOperand (p_lx p)) _ He) as H.
    destruct (scan N _ _) as [[t r]|e]; cbn [mbind result_bind scans] in *; [|exact H].
    unfold moved, left_. cbn [l_rest p_lx]. lia.
Qed.

(** ** The parser *)

(** A parser that succeeds started at a token and moved on; one that fails does not report
    the bound of a loop. *)
Definition sane {A} (p : parser) (r : presult A) : Prop :=
  match r with Ok (_, p') => ¬ at_eof p ∧ moved p p' | Err e => Sentinel e ≠ ErrFuel end.

(** The same for a parser that may read nothing. *)
Definition weakly_sane {A} (p : parser) (r : presult A) : Prop :=
  match r with Ok (_, p') => p' = p ∨ moved p p' | Err e => Sentinel e ≠ ErrFuel end.

Lemma moved_weak_trans p1 p2 p3 : moved p1 p2 → p3 = p2 ∨ moved p2 p3 → moved p1 p3.
Proof. intros H [->|H']; [done|by eapply moved_trans]. Qed.

(** Sequencing: after a part that moved, a part that may read nothing. *)
Lemma sane_bind {A B} p (r : presult A) (f : A * parser → presult B) :
  sane p r → (∀ x p', r = Ok (x, p') → weakly_sane p' (f (x, p'))) → sane p (r ≫= f).
Proof.
  destruct r as [[x p']|e]; cbn; [|done]. intros [He Hm] H. specialize (H x p' eq_refl).
  destruct (f (x, p')) as [[y p'']|e']; cbn in *; [|done]. split; [done|]. by eapply moved_weak_trans.
Qed.

Lemma weakly_sane_bind {A B} p (r : presult A) (f : A * parser → presult B) :
  weakly_sane p r → (∀ x p', r = Ok (x, p') → weakly_sane p' (f (x, p'))) → weakly_sane p (r ≫= f).
Proof.
  destruct r as [[x p']|e]; cbn; [|done]. intros Hm H. specialize (H x p' eq_refl).
  destruct (f (x, p')) as [[y p'']|e']; cbn in *; [|done].
  destruct Hm as [->|Hm]; [done|right]. by eapply moved_weak_trans.
Qed.

Lemma sane_weak {A} p (r : presult A) : sane p r → weakly_sane p r.
Proof. destruct r as [[x p']|e]; cbn; [|done]. intros [_ ?]. by right. Qed.

Lemma ret_weak {A} p (x : A) : weakly_sane p (Ok (x, p)).
Proof. by left. Qed.

Lemma then_advance_sane {A} (x : A) p : ¬ at_eof p → sane p (then_advance N x p).
Proof.
  intros He. unfold then_advance. pose proof (advance_moved p) as H.
  destruct (advance N p) as [p'|e]; cbn; [done|exact H].
Qed.

(** Reading a token first. *)
Lemma advance_bind {A} p (f : parser → presult A) :
  ¬ at_eof p → (∀ p', moved p p' → weakly_sane p' (f p')) → sane p (advance N p ≫= f).
Proof.
  intros He H. pose proof (advance_moved p) as Hm. destruct (advance N p) as [p'|e]; cbn; [|exact Hm].
  specialize (H p' Hm). destruct (f p') as [[y p'']|e']; cbn in *; [|done].
  split; [done|]. by eapply moved_weak_trans.
Qed.

Lemma is_kind_spec k p : is_kind k p = true ↔ kind p = k.
Proof. unfold is_kind. apply bool_decide_eq_true. Qed.

Lemma is_word_not_eof w p : bs w ≠ [] → is_word w p = true → ¬ at_eof p.
Proof.
  unfold is_word, keyword, at_eof. intros Hw H Heof. apply bool_decide_eq_true in H. unfold is_kind in H.
  rewrite Heof in H. by rewrite bool_decide_false in H.
Qed.

Lemma isOp_not_eof w p : isOp w p = true → ¬ at_eof p.
Proof. unfold isOp, at_eof. rewrite andb_true_iff, is_kind_spec. intros [-> _]. done. Qed.

Create HintDb progress.
#[local] Hint Resolve then_advance_sane sane_weak ret_weak : progress.
#[local] Hint Extern 1 (¬ at_eof _) => (eapply is_word_not_eof; [|eassumption]; done) : progress.
#[local] Hint Extern 1 (¬ at_eof _) => (eapply isOp_not_eof; eassumption) : progress.
#[local] Hint Extern 1 (¬ at_eof _) => (unfold at_eof in *; congruence) : progress.
#[local] Hint Extern 2 (sane _ (Err _)) => done : progress.
#[local] Hint Extern 2 (weakly_sane _ (Err _)) => done : progress.
#[local] Hint Extern 2 (sane _ (syntax_here _)) => done : progress.
#[local] Hint Extern 2 (weakly_sane _ (syntax_here _)) => done : progress.
#[local] Hint Extern 2 (sane _ (unsupported_here _)) => done : progress.
#[local] Hint Extern 2 (weakly_sane _ (unsupported_here _)) => done : progress.

Lemma parseWordLiteral_sane p : sane p (parseWordLiteral N p).
Proof.
  unfold parseWordLiteral. destruct (is_word "TRUE" p || is_word "YES" p) eqn:H1.
  { apply orb_true_iff in H1 as [H1|H1]; auto with progress. }
  destruct (is_word "FALSE" p || is_word "NO" p) eqn:H2.
  { apply orb_true_iff in H2 as [H2|H2]; auto with progress. }
  destruct (is_word "NULL" p || is_word "NIL" p) eqn:H3.
  { apply orb_true_iff in H3 as [H3|H3]; auto with progress. }
  unfold unsupportedWord. repeat case_match; auto with progress.
Qed.

(** Fuel that is enough for a loop at [p]. *)
Definition enough (n : nat) (p : parser) : Prop := (1 ≤ n)%nat ∧ (¬ at_eof p → (left_ p + 1 < n)%nat).

Lemma enough_fuel p : enough (fuel p) p.
Proof. unfold enough, fuel, left_. split; [lia|]. intros _. lia. Qed.

Lemma enough_more n m p : enough n p → (n ≤ m)%nat → enough m p.
Proof. intros [H1 H2] H. split; [lia|]. intros He. specialize (H2 He). lia. Qed.

Lemma enough_step n p p' : enough (S n) p → ¬ at_eof p → moved p p' → enough n p'.
Proof. intros [_ H] He [H1 H2]. specialize (H He). split; [lia|]. intros He'. specialize (H2 He'). lia. Qed.

Section Aggregate.
Variable lit : parser → presult literal.
Hypothesis lit_sane : ∀ p, sane p (lit p).

(** One iteration: the comma if it is not the first item, and the item. *)
Definition aggregate_item (items : list literal) (p : parser) : presult literal :=
  p ← (if bool_decide (items ≠ []) then if is_kind tokComma p then advance N p else syntax_here p else Ok p);
  lit p.

Lemma aggregate_loop_eq n items p :
  aggregate_loop N (S n) lit items p =
    if is_kind tokRBrace p then Ok (items, p)
    else '(item, p) ← aggregate_item items p; aggregate_loop N n lit (items ++ [item]) p.
Proof.
  cbn [aggregate_loop]. destruct (is_kind tokRBrace p); [done|]. unfold aggregate_item.
  destruct (bool_decide _); [|done]. destruct (is_kind tokComma p); [|done]. by destruct (advance N p).
Qed.

Lemma aggregate_item_sane items p : sane p (aggregate_item items p).
Proof using lit_sane.
  unfold aggregate_item. case_bool_decide; [|apply lit_sane].
  destruct (is_kind tokComma p) eqn:Hc; [|done]. apply is_kind_spec in Hc.
  apply advance_bind; [auto with progress|]. auto with progress.
Qed.

Lemma aggregate_loop_sane n : ∀ items p, enough n p → weakly_sane p (aggregate_loop N n lit items p).
Proof using lit_sane.
  induction n as [|n IH]; intros items p He; [destruct He; lia|]. rewrite aggregate_loop_eq.
  destruct (is_kind tokRBrace p); [apply ret_weak|]. pose proof (aggregate_item_sane items p) as Hs.
  destruct (aggregate_item items p) as [[item p']|e]; cbn in *; [|done]. destruct Hs as [Heof Hm].
  specialize (IH (items ++ [item]) p' (enough_step _ _ _ He Heof Hm)).
  destruct (aggregate_loop N n lit _ p') as [[its p'']|e]; cbn in *; [|done]. right. by eapply moved_weak_trans.
Qed.

Lemma aggregate_loop_fuel n : ∀ m items p, enough n p → enough m p →
  aggregate_loop N n lit items p = aggregate_loop N m lit items p.
Proof using lit_sane.
  induction n as [|n IH]; intros [|m] items p Hn Hm; [destruct Hn; lia|destruct Hn; lia|destruct Hm; lia|].
  rewrite !aggregate_loop_eq. destruct (is_kind tokRBrace p); [done|].
  pose proof (aggregate_item_sane items p) as Hs.
  destruct (aggregate_item items p) as [[item p']|e]; cbn; [|done]. destruct Hs as [Heof Hmv].
  apply IH; by eapply enough_step.
Qed.

Lemma parseAggregate_sane p : ¬ at_eof p → sane p (parseAggregate N lit p).
Proof using lit_sane.
  intros He. apply advance_bind; [done|]. intros p1 _.
  apply weakly_sane_bind; [apply aggregate_loop_sane, enough_fuel|]. intros items p2 H.
  destruct (decide (at_eof p2)) as [Heof|]; [|auto with progress].
  unfold then_advance. pose proof (advance_moved p2) as Hm. destruct (advance N p2); cbn; [by right|exact Hm].
Qed.
End Aggregate.

Lemma parseLiteral_sane lv : ∀ p, sane p (parseLiteral N lv p).
Proof.
  induction lv as [|lv IH]; intros p; cbn [parseLiteral]; destruct (kind p) eqn:Hk; auto with progress.
  - apply parseWordLiteral_sane.
  - apply parseAggregate_sane; auto with progress.
  - apply parseWordLiteral_sane.
Qed.

Lemma parseOperand_sane lv p : sane p (parseOperand N lv p).
Proof.
  assert (sane p ('(l, p) ← parseLiteral N lv p; Ok (opLiteral l, p))) as H
    by (apply sane_bind; [apply parseLiteral_sane|auto with progress]).
  unfold parseOperand. destruct (kind p) eqn:Hk; auto with progress.
Qed.

Lemma parseModifier_sane p : weakly_sane p (parseModifier N p).
Proof.
  unfold parseModifier. destruct (is_kind tokModifier p) eqn:Hk; cbn [negb]; [|auto with progress].
  apply is_kind_spec in Hk. destruct (negb _); auto with progress.
Qed.

Lemma parseOp_sane p : weakly_sane p (parseOp N p).
Proof.
  assert (¬ at_eof p → ∀ o : option cmpOp, weakly_sane p (match o with None => syntax_here p | Some op => then_advance N op p end)) as H
    by (intros ? [op|]; auto with progress).
  unfold parseOp. destruct (kind p) eqn:Hk; cbn [mbind result_bind]; try (by auto with progress).
  destruct (_ || _); cbn [mbind result_bind]; [done|]. apply H. auto with progress.
Qed.

Lemma parseComparison_sane lv p : sane p (parseComparison N lv p).
Proof.
  apply sane_bind; [apply parseOperand_sane|]. intros lhs p1 _.
  apply weakly_sane_bind; [apply parseModifier_sane|]. intros ci p2 _.
  apply weakly_sane_bind; [apply parseOp_sane|]. intros op p3 _.
  assert (∀ pos c p4, weakly_sane p4
    (if (c : bool) && negb (allowsCaseModifier op) then Err (syntaxErr pos)
     else '(rhs, p) ← parseOperand N lv p4; Ok (compareExpr lhs op c rhs, p))) as H.
  { intros pos c p4. destruct (_ && _); [done|]. apply sane_weak, sane_bind; [apply parseOperand_sane|].
    auto with progress. }
  destruct (is_kind tokModifier p3) eqn:Hk; cbn [mbind result_bind]; [|apply H].
  destruct ci; [done|]. pose proof (parseModifier_sane p3) as Hm.
  destruct (parseModifier N p3) as [[c p4]|e]; cbn [mbind result_bind]; [|exact Hm].
  specialize (H (t_pos (p_tok p3)) c p4). cbn in Hm.
  destruct (_ && _); [done|]. destruct (_ ≫= _) as [[y p5]|e]; cbn in *; [|done].
  destruct Hm as [->|Hm]; [done|right]. by eapply moved_weak_trans.
Qed.

Section Compound.
Variables (op : logicalOp) (more : parser → bool) (sub : parser → presult expr).
Hypothesis more_token : ∀ p, more p = true → ¬ at_eof p.
Hypothesis sub_sane : ∀ p, sane p (sub p).

Lemma operator_sane p : more p = true → sane p (p ← advance N p; sub p).
Proof using more_token sub_sane.
  intros Hm. apply advance_bind; [by apply more_token|]. intros p' _. apply sane_weak, sub_sane.
Qed.

Lemma compound_loop_eq n lhs p :
  compound_loop N (S n) op more sub lhs p =
    if more p then '(rhs, p) ← (p ← advance N p; sub p); compound_loop N n op more sub (compoundExpr op lhs rhs) p
    else Ok (lhs, p).
Proof. cbn [compound_loop]. destruct (more p); [|done]. by destruct (advance N p). Qed.

Lemma compound_loop_sane n : ∀ lhs p, enough n p → weakly_sane p (compound_loop N n op more sub lhs p).
Proof using more_token sub_sane.
  induction n as [|n IH]; intros lhs p He; [destruct He; lia|]. rewrite compound_loop_eq.
  destruct (more p) eqn:Hm; [|auto with progress]. pose proof (operator_sane p Hm) as Hs.
  destruct (p ← advance N p; sub p) as [[rhs p']|e]; cbn in *; [|done]. destruct Hs as [Heof Hmv].
  specialize (IH (compoundExpr op lhs rhs) p' (enough_step _ _ _ He Heof Hmv)).
  destruct (compound_loop N n op more sub _ p') as [[x p'']|e]; cbn in *; [|done].
  right. by eapply moved_weak_trans.
Qed.

Lemma compound_loop_fuel n : ∀ m lhs p, enough n p → enough m p →
  compound_loop N n op more sub lhs p = compound_loop N m op more sub lhs p.
Proof using more_token sub_sane.
  induction n as [|n IH]; intros [|m] lhs p Hn Hm; [destruct Hn; lia|destruct Hn; lia|destruct Hm; lia|].
  rewrite !compound_loop_eq. destruct (more p) eqn:Hmore; [|done]. pose proof (operator_sane p Hmore) as Hs.
  destruct (p ← advance N p; sub p) as [[rhs p']|e]; cbn; [|done]. destruct Hs as [Heof Hmv].
  apply IH; by eapply enough_step.
Qed.
End Compound.

Lemma more_and_token p : more_and p = true → ¬ at_eof p.
Proof. unfold more_and. rewrite orb_true_iff. intros [?|?]; auto with progress. Qed.
Lemma more_or_token p : more_or p = true → ¬ at_eof p.
Proof. unfold more_or. rewrite orb_true_iff. intros [?|?]; auto with progress. Qed.
Lemma is_not_token p : is_not p = true → ¬ at_eof p.
Proof. unfold is_not. rewrite orb_true_iff. intros [?|?]; auto with progress. Qed.

Section Levels.
Variable pNot : parser → presult expr.
Hypothesis pNot_sane : ∀ p, sane p (pNot p).

Lemma parseAnd_sane p : sane p (parseAnd N pNot p).
Proof using pNot_sane.
  apply sane_bind; [apply pNot_sane|]. intros e p' _.
  apply compound_loop_sane; [exact more_and_token|exact pNot_sane|apply enough_fuel].
Qed.

Lemma parseOr_sane p : sane p (parseOr N pNot p).
Proof using pNot_sane.
  apply sane_bind; [apply parseAnd_sane|]. intros e p' _.
  apply compound_loop_sane; [exact more_or_token|exact parseAnd_sane|apply enough_fuel].
Qed.

Lemma parseParenthesised_sane p : ¬ at_eof p → sane p (parseParenthesised N pNot p).
Proof using pNot_sane.
  intros He. apply advance_bind; [done|]. intros p1 _. apply sane_weak, sane_bind; [apply parseOr_sane|].
  intros e p2 _. destruct (is_kind tokRParen p2) eqn:Hk; [|done]. apply is_kind_spec in Hk. auto with progress.
Qed.
End Levels.

Lemma parsePrimary_sane lv paren p :
  (¬ at_eof p → sane p (paren p)) → sane p (parsePrimary N lv paren p).
Proof.
  intros Hp. unfold parsePrimary. destruct (is_kind tokLParen p) eqn:H1.
  { apply is_kind_spec in H1. apply Hp. auto with progress. }
  destruct (is_word "TRUEPREDICATE" p) eqn:H2; [auto with progress|].
  destruct (is_word "FALSEPREDICATE" p) eqn:H3; [auto with progress|].
  destruct (is_kind tokEOF p); [done|]. apply parseComparison_sane.
Qed.

Lemma parseNot_sane lv : ∀ p, sane p (parseNot N lv p).
Proof.
  induction lv as [|lv IH]; intros p; cbn [parseNot]; destruct (is_not p) eqn:Hn; cbn [negb].
  - done.
  - apply parsePrimary_sane. auto with progress.
  - apply advance_bind; [by apply is_not_token|]. intros p1 _. apply sane_weak, sane_bind; [apply IH|].
    auto with progress.
  - apply parsePrimary_sane. by apply parseParenthesised_sane.
Qed.
End Progress.

(** C38 Parsing is total: on every input the loops end within the bound the model gives them,
    so [Parse] returns a predicate, a syntax error or an unsupported construct. *)
Theorem Parse_total s :
  match Parse s with
  | Ok p => src p = s
  | Err e => Sentinel e = ErrSyntax ∨ Sentinel e = ErrUnsupported
  end.
Proof.
  assert (∀ e, Sentinel e ≠ ErrFuel → Sentinel e = ErrSyntax ∨ Sentinel e = ErrUnsupported) as Hne
    by (intros [o []]; cbn; auto; done).
  unfold Parse, parse. pose proof (advance_moved (Z.of_nat (length s))
    (mkParser (mkLexer s false) (mkToken tokEOF [] (FFin false 0) 0 false))) as H.
  destruct (advance _ _) as [p|e]; cbn [mbind result_bind]; [|by apply Hne].
  destruct (is_kind tokEOF p); [by left|].
  pose proof (parseOr_sane (Z.of_nat (length s)) (parseNot (Z.of_nat (length s)) maxDepth)
    (parseNot_sane _ _) p) as Hs.
  destruct (parseOr _ _ p) as [[e p']|e]; cbn [mbind result_bind]; [|by apply Hne].
  destruct (is_kind tokEOF p'); [done|by left].
Qed.
