(* ===== verification/PredText.v ===== *)
(** * Reading rendered tokens

    How the lexer reads each token the canonical text is made of. *)
From S2P Require Import Prelude GoStrings Utf8 Float64 PredLexer PredParser PredProgress.

Section Text.
Variable N : Z.

(** [reads prev s t r]: at [s] the lexer returns a token like [t], whatever its offset, and
    leaves [r]. *)
Definition reads (prev : bool) (s : bytes) (t : token) (r : bytes) : Prop :=
  ∃ pos call, let t' := mkToken (t_kind t) (t_text t) (t_number t) pos call in
              next N (mkLexer s prev) = Ok (t', mkLexer r (endsOperand t')).

(** The parser is at [s]: its token and lexer are those after reading one token there. *)
Definition at_ (prev : bool) (s : bytes) (p : parser) : Prop :=
  next N (mkLexer s prev) = Ok (p_tok p, p_lx p).

Lemma at_space prev s p : at_ prev (32 :: s) p ↔ at_ prev s p.
Proof. unfold at_, next. cbn [l_rest prevOperand]. unfold skipSpace. cbn [span isSpace].
  change (isSpace 32) with true. cbn iota. by destruct (span isSpace s). Qed.

Lemma advance_at prev s p p' : p_lx p = mkLexer s prev → at_ prev s p' → advance N p = Ok p'.
Proof. unfold advance, at_. intros -> ->. cbn. by destruct p'. Qed.

Lemma next_scan prev s t r :
  s ≠ [] → isSpace (byteAt 0 s) = false → scan N prev s = Ok (t, r) → reads prev s t r.
Proof.
  intros Hs Hsp Hscan. exists (offset N s), (callFollows t). unfold next. cbn [l_rest prevOperand].
  assert (skipSpace s = s) as -> by (destruct s; [done|]; unfold skipSpace; cbn in *; by rewrite Hsp).
  rewrite bool_decide_false, Hscan by done. done.
Qed.

(** ** Words *)

Definition ident (w : bytes) : token := tok tokIdent w.

Lemma char_range c : isIdentStart c = true →
  c = 95 ∨ 97 ≤ c ≤ 122 ∨ 65 ≤ c ≤ 90.
Proof.
  unfold isIdentStart, is_lower, is_upper. rewrite !orb_true_iff, Z.eqb_eq, !andb_true_iff, !Z.leb_le. lia.
Qed.

Lemma neqb c d : c ≠ d → (c =? d) = false.
Proof. apply Z.eqb_neq. Qed.

(** The tests the lexer makes before it takes a character for the start of a word. *)
Lemma ident_dispatch c : isIdentStart c = true →
  isSpace c = false ∧ isQuote c = false ∧ (c =? 64) = false ∧ (c =? 91) = false ∧
  (c =? 37) || (c =? 36) = false ∧ isDigit c = false ∧ (c =? 46) = false ∧ isSign c = false.
Proof.
  intros H%char_range. unfold isSpace, isQuote, isSign, isDigit, is_digit.
  rewrite !neqb by lia. split_and!; try done. apply andb_false_iff. rewrite !Z.leb_gt. lia.
Qed.

Lemma reads_ident prev w r :
  match w with c :: _ => isIdentStart c = true | [] => False end → forallb isKeyChar w = true →
  stops isKeyChar r → reads prev (w ++ r) (ident w) r.
Proof.
  destruct w as [|c w]; [done|]. intros Hc Hw Hr.
  destruct (ident_dispatch c Hc) as (H1 & H2 & H3 & H4 & H5 & H6 & H7 & H8).
  assert (scan N prev ((c :: w) ++ r) = Ok (scanIdent ((c :: w) ++ r))) as Hs.
  { unfold scan. cbn [byteAt nth app]. by rewrite H2, H3, H4, H5, H6, H7, H8, Hc. }
  unfold scanIdent, readKeyChars in Hs. rewrite (span_stop isKeyChar (c :: w) r Hw Hr) in Hs.
  destruct (next_scan prev ((c :: w) ++ r) _ _ ltac:(done) H1 Hs) as (pos & call & H).
  exists pos, call. exact H.
Qed.

(** ** Punctuation and operators *)

Lemma reads_punct prev c k r :
  (c, k) ∈ [(40, tokLParen); (41, tokRParen); (123, tokLBrace); (125, tokRBrace); (44, tokComma)] →
  reads prev (c :: r) (tok k [c]) r.
Proof.
  intros H. apply next_scan; [done|..];
    repeat (apply elem_of_cons in H as [[= -> ->]|H]; [reflexivity|]); by apply elem_of_nil in H.
Qed.

Definition symbol (op : cmpOp) : bool :=
  match op with cmpEq | cmpNe | cmpLt | cmpLe | cmpGt | cmpGe => true | _ => false end.

Lemma reads_symbol prev op r :
  symbol op = true → match r with c :: _ => c = 32 ∨ c = 91 | [] => False end →
  reads prev (cmpOp_String op ++ r) (tok tokOp (cmpOp_String op)) r.
Proof.
  intros Ho Hr. destruct r as [|c r]; [done|].
  destruct op; try done; apply next_scan; try done; destruct Hr as [->| ->]; reflexivity.
Qed.

Lemma reads_modifier prev r : reads prev (bs "[c]" ++ r) (tok tokModifier (bs "c")) r.
Proof. apply next_scan; [done|done|reflexivity]. Qed.

Lemma reads_end prev : reads prev [] (tok tokEOF []) [].
Proof. by exists (offset N []), false. Qed.

(** ** Strings *)

Definition text_ok (s : bytes) : Prop := Forall (λ c, 0 ≤ c) s.

Lemma string_skip q st w s : string_body N q st (length w) (w ++ s) = string_body N q st 0 s.
Proof. induction w as [|c w IH]; [done|]. exact IH. Qed.

Lemma string_escape st e w s t r :
  scanEscape (e ++ s) = Some (w, length e) → string_body N 39 st 0 s = Ok (t, r) →
  string_body N 39 st 0 (92 :: e ++ s) = Ok (w ++ t, r).
Proof. intros He Hs. cbn [string_body]. cbn [Z.eqb Pos.eqb]. by rewrite He, string_skip, Hs. Qed.

Lemma hex_value_char n : 0 ≤ n < 16 → hex_value (hex_char n) = Some n.
Proof.
  intros Hn. unfold hex_char, hex_value, is_digit. destruct (Z.ltb_spec n 10).
  - rewrite (proj2 (Z.leb_le 48 _)), (proj2 (Z.leb_le _ 57)) by lia. cbn. f_equal. lia.
  - rewrite (proj2 (Z.leb_le 48 _)), (proj2 (Z.leb_gt _ 57)) by lia. cbn [andb].
    rewrite (proj2 (Z.leb_le 97 _)), (proj2 (Z.leb_le _ 102)) by lia. cbn. f_equal. lia.
Qed.

Lemma escape_hex c s : 0 ≤ c < 128 → scanEscape (117 :: hex_04 c ++ s) = Some ([c], 5%nat).
Proof.
  intros Hc. cbn [scanEscape]. cbn [Z.eqb Pos.eqb orb]. unfold scanUnicodeEscape.
  assert (hex4 (hex_04 c ++ s) = Some c) as ->.
  { unfold hex4. assert (mapM hex_value (take 4 (hex_04 c ++ s)) = Some [0; 0; c / 16; c mod 16]) as ->.
    { apply mapM_Some. repeat (constructor; [done || apply hex_value_char|]); [..|constructor].
      - split; [apply Z.div_pos; lia|apply Z.div_lt_upper_bound; lia].
      - apply Z.mod_pos_bound. lia. }
    f_equal. pose proof (Z.div_mod c 16). lia. }
  unfold is_surrogate. rewrite (proj2 (Z.leb_gt _ _)) by lia. cbn [andb]. unfold write_rune.
  by rewrite (proj2 (Z.ltb_lt _ _)) by lia.
Qed.

Lemma string_char st c s t r :
  0 ≤ c → string_body N 39 st 0 s = Ok (t, r) → string_body N 39 st 0 (render_char c ++ s) = Ok (c :: t, r).
Proof.
  intros Hc Hs. unfold render_char. destruct (Z.eqb_spec c 39) as [->|H1]; cbn [orb].
  { by apply (string_escape st [39] [39]). }
  destruct (Z.eqb_spec c 92) as [->|H2]; [by apply (string_escape st [92] [92])|].
  destruct (Z.eqb_spec c 10) as [->|H3]; [by apply (string_escape st [110] [10])|].
  destruct (Z.eqb_spec c 13) as [->|H4]; [by apply (string_escape st [114] [13])|].
  destruct (Z.eqb_spec c 9) as [->|H5]; [by apply (string_escape st [116] [9])|].
  destruct ((c <? 32) || (c =? 127)) eqn:H6.
  - apply (string_escape st (117 :: hex_04 c) [c]); [|done]. apply escape_hex.
    rewrite orb_true_iff, Z.ltb_lt, Z.eqb_eq in H6. lia.
  - cbn [app string_body]. rewrite !neqb by done. by rewrite Hs.
Qed.

Lemma string_text st s r : text_ok s →
  string_body N 39 st 0 (mjoin (render_char <$> s) ++ 39 :: r) = Ok (s, r).
Proof.
  induction 1 as [|c s Hc _ IH]; [done|]. cbn [fmap list_fmap].
  change (mjoin (render_char c :: (render_char <$> s))) with (render_char c ++ mjoin (render_char <$> s)).
  rewrite <-app_assoc. by apply string_char.
Qed.

Lemma scanString_text s r : text_ok s → scanString N (renderString s ++ r) = Ok (tok tokString s, r).
Proof.
  intros Hs. unfold scanString. change (byteAt 0 (renderString s ++ r)) with 39.
  change (drop 1 (renderString s ++ r)) with ((mjoin (render_char <$> s) ++ [39]) ++ r).
  rewrite <-app_assoc. change ([39] ++ r) with (39 :: r). by rewrite string_text.
Qed.

Lemma reads_string prev s r : text_ok s → reads prev (renderString s ++ r) (tok tokString s) r.
Proof.
  intros Hs. apply next_scan; [done|done|]. unfold scan. cbn [renderString app byteAt nth].
  change (isQuote 39) with true. cbn iota. by apply scanString_text.
Qed.

(** ** References *)

Lemma skipSpace_id s : isSpace (byteAt 0 s) = false → skipSpace s = s.
Proof. destruct s as [|c s]; [done|]. unfold skipSpace. cbn. by intros ->. Qed.

Lemma key_char c : isKeyChar c = true → isSpace c = false ∧ isQuote c = false.
Proof.
  unfold isKeyChar, isDigit. rewrite !orb_true_iff, is_digit_spec, !Z.eqb_eq.
  intros [[[H%char_range|H]|H]|H]; unfold isSpace, isQuote; by rewrite !neqb by lia.
Qed.

Lemma scanKey_text key r : text_ok key →
  scanKey N (skipSpace (renderKey key ++ 41 :: r)) = Ok (key, 41 :: r).
Proof.
  intros Hk. unfold renderKey. destruct (bool_decide (key ≠ []) && forallb isKeyChar key) eqn:Hb.
  - apply andb_true_iff in Hb as [Hne Hb]. apply bool_decide_eq_true in Hne.
    destruct key as [|c key]; [done|]. pose proof Hb as Hb'. cbn in Hb'. apply andb_true_iff in Hb' as [Hc _].
    destruct (key_char c Hc) as [H1 H2]. rewrite skipSpace_id by done. unfold scanKey.
    cbn [app byteAt nth]. rewrite H2. unfold readKeyChars.
    change (c :: key ++ 41 :: r) with ((c :: key) ++ 41 :: r). rewrite span_stop by done.
    by rewrite bool_decide_false.
  - rewrite skipSpace_id by done. unfold scanKey. cbn [renderString app byteAt nth].
    change (isQuote 39) with true. cbn iota.
    change (39 :: (mjoin (render_char <$> key) ++ [39]) ++ 41 :: r) with (renderString key ++ 41 :: r).
    by rewrite scanString_text.
Qed.

Lemma expect_ok c s : expect N c (c :: s) = Ok s.
Proof. unfold expect. cbn. by rewrite Z.eqb_refl. Qed.

Lemma reads_reference prev (name : string) k key r :
  (name, k) ∈ [("property", tokProperty); ("status", tokStatus)]%string → text_ok key →
  reads prev (64 :: bs name ++ 40 :: renderKey key ++ 41 :: r) (tok k key) r.
Proof.
  intros Hn Hk. apply next_scan; [done|done|]. unfold scan. cbn [byteAt nth].
  change (isQuote 64) with false. cbn iota. change (64 =? 64) with true. cbn iota.
  unfold scanReference. cbn [skipn]. rewrite drop_0. unfold readKeyChars.
  assert (forallb isKeyChar (bs name) = true ∧
          (if bool_decide (ascii_lower (bs name) = bs "property") then Ok tokProperty
           else if bool_decide (ascii_lower (bs name) = bs "status") then Ok tokStatus
           else Err (syntaxErr (offset N (64 :: bs name ++ 40 :: renderKey key ++ 41 :: r)))) = Ok k) as [Hf Hb].
  { repeat (apply elem_of_cons in Hn as [[= -> ->]|Hn]; [done|]). by apply elem_of_nil in Hn. }
  rewrite span_stop by done. rewrite Hb. cbn [mbind result_bind]. rewrite skipSpace_id by done.
  rewrite expect_ok. cbn [mbind result_bind]. rewrite scanKey_text by done.
  cbn [mbind result_bind]. rewrite skipSpace_id, expect_ok by done. done.
Qed.

(** ** Numbers *)

Lemma digits_key s : stops isKeyChar s → stops is_digit s.
Proof.
  destruct s as [|c s]; [done|]. cbn. unfold isKeyChar, isDigit. intros H.
  by apply orb_false_iff in H as [[[_ H]%orb_false_iff _]%orb_false_iff _].
Qed.

Lemma scanNumber_numeral neg ip fp ex r v :
  numeral_ok ip fp ex → ParseFloat (numeral neg ip fp ex) = Some v → stops isKeyChar r →
  scanNumber N (numeral neg ip fp ex ++ r) = Ok (mkToken tokNumber (numeral neg ip fp ex) v 0 false, r).
Proof.
  intros (Hne & Hip & Hfp & Hex) Hv Hr. unfold scanNumber.
  assert (∃ f, byteAt 0 r = f ∧ (f =? 46) = false ∧ (f =? 101) || (f =? 69) = false) as (f & Hf & Hf1 & Hf2).
  { exists (byteAt 0 r). destruct r as [|c r]; [done|]. split; [done|]. cbn in *.
    split; [apply neqb; by intros ->|]. rewrite !neqb; [done|by intros ->..]. }
  set (n := numeral neg ip fp ex) in *.
  set (e := match ex with None => [] | Some (eneg, ds) => 101 :: (if (eneg : bool) then 45 else 43) :: ds end).
  assert (skip_sign (n ++ r) = ip ++ (if bool_decide (fp = []) then [] else 46 :: fp) ++ e ++ r) as ->.
  { unfold n, numeral. fold e. unfold skip_sign. destruct neg; [by rewrite <-!app_assoc|].
    destruct ip as [|c ip]; [done|]. cbn [app byteAt nth]. cbn in Hip. apply andb_true_iff in Hip as [Hc%is_digit_spec _].
    unfold isSign. rewrite !neqb by lia. cbn [orb]. by rewrite <-!app_assoc. }
  assert (stops is_digit (e ++ r)) as He.
  { unfold e. destruct ex as [[[] ds]|]; [done|done|]. by apply digits_key. }
  unfold readDigits, isDigit. rewrite span_stop; [|done|by case_bool_decide].
  assert ((match consume 46 ((if bool_decide (fp = []) then [] else 46 :: fp) ++ e ++ r) with
           | Some r => (span (λ c, is_digit c) r).2
           | None => (if bool_decide (fp = []) then [] else 46 :: fp) ++ e ++ r end) = e ++ r) as ->.
  { case_bool_decide as Hfe; cbn [app].
    - unfold consume, e. destruct ex as [[eneg ds]|]; [done|]. cbn [app]. destruct r as [|c r]; [done|].
      cbn in Hf. subst f. by rewrite Hf1.
    - cbn [consume Z.eqb Pos.eqb]. by rewrite span_stop. }
  match goal with |- (?X ≫= _) = _ => assert (X = Ok r) as -> end.
  { unfold e. destruct ex as [[eneg ds]|]; cbn [app].
    - destruct Hex as [Hds Hdd]. unfold byteAt. cbn [nth Z.eqb Pos.eqb orb].
      change (drop 1 (101 :: (if eneg then 45 else 43) :: ds ++ r)) with ((if eneg then 45 else 43) :: ds ++ r).
      replace (skip_sign ((if eneg then 45 else 43) :: ds ++ r)) with (ds ++ r) by (by destruct eneg).
      rewrite span_stop by (done || by apply digits_key). by rewrite bool_decide_false.
    - by rewrite Hf, Hf2. }
  cbn [mbind result_bind].
  assert (take (length (n ++ r) - length r) (n ++ r) = n) as ->.
  { rewrite length_app, Nat.add_sub. apply take_app_length. }
  by rewrite Hv.
Qed.

Lemma scan_signed s : byteAt 0 s = 45 → digitAt 1 s = true → scan N false s = scanNumber N s.
Proof. intros Hc Hd. unfold scan, signStartsNumber. rewrite Hc, Hd. reflexivity. Qed.

Lemma scan_digit prev s : is_digit (byteAt 0 s) = true → scan N prev s = scanNumber N s.
Proof.
  intros Hd. unfold scan, isDigit. rewrite Hd. apply is_digit_spec in Hd. unfold isQuote.
  by rewrite !neqb by lia.
Qed.

Lemma reads_number f r : finite f → stops isKeyChar r →
  reads false (FormatFloat f ++ r) (mkToken tokNumber (FormatFloat f) f 0 false) r.
Proof.
  intros Hf Hr. destruct f as [| |neg x]; [done..|].
  pose proof (ParseFloat_FormatFloat _ Hf) as Hv.
  destruct (FormatFloat_numeral neg x Hf) as (ip & fp & ex & Heq & Hok & _). rewrite Heq in *.
  pose proof (scanNumber_numeral neg ip fp ex r _ Hok Hv Hr) as Hs.
  destruct Hok as (Hne & Hip & _). destruct ip as [|c ip]; [done|].
  pose proof Hip as Hc. cbn in Hc. apply andb_true_iff in Hc as [Hc _].
  apply next_scan; [by destruct neg| |].
  - destruct neg; [done|]. cbn. apply is_digit_spec in Hc. unfold isSpace. by rewrite !neqb by lia.
  - destruct neg; [rewrite scan_signed by done|rewrite scan_digit by done]; exact Hs.
Qed.
End Text.
