(* ===== verification/PredRoundtrip.v ===== *)
(** * The canonical text of a predicate parses back

    [Predicate.String] promises that parsing the result yields the same predicate. The
    parser is followed along the rendered text: [at_ prev s p] says that the parser
    [p] is at the text [s], and each parsing function, at the text of a phrase followed
    by [r], returns the phrase and is at [r]. *)
From S2P Require Import Prelude GoStrings Float64 PredLexer PredParser PredProgress PredText.

(** ** Trees that are texts *)

Section LiteralInd.
Variable P : literal → Prop.
Hypothesis HNull : P litNull.
Hypothesis HBool : ∀ b, P (litBool b).
Hypothesis HNumber : ∀ f, P (litNumber f).
Hypothesis HString : ∀ s, P (litString s).
Hypothesis HAggregate : ∀ l, Forall P l → P (litAggregate l).

Fixpoint literal_rect' (l : literal) : P l :=
  match l with
  | litNull => HNull
  | litBool b => HBool b
  | litNumber f => HNumber f
  | litString s => HString s
  | litAggregate items =>
      HAggregate items ((fix go (l : list literal) : Forall P l :=
        match l with [] => Forall_nil_2 _ | x :: l' => Forall_cons_2 _ _ _ (literal_rect' x) (go l') end) items)
  end.
End LiteralInd.

Fixpoint lit_ok (l : literal) : Prop :=
  match l with
  | litNull | litBool _ => True
  | litNumber f => finite f
  | litString s => text_ok s
  | litAggregate items => foldr (λ x P, lit_ok x ∧ P) True items
  end.

(** The nesting levels a text uses. *)
Fixpoint lit_need (l : literal) : nat :=
  match l with
  | litAggregate items => S (foldr (λ x n, lit_need x `max` n)%nat 0%nat items)
  | _ => 0%nat
  end.

Definition operand_ok (o : operand) : Prop :=
  match o with propertyRef k | statusRef k => text_ok k | opLiteral l => lit_ok l end.
Definition operand_need (o : operand) : nat :=
  match o with propertyRef _ | statusRef _ => 0%nat | opLiteral l => lit_need l end.

Fixpoint expr_ok (e : expr) : Prop :=
  match e with
  | constExpr _ => True
  | notExpr e' => expr_ok e'
  | compoundExpr _ l r => expr_ok l ∧ expr_ok r
  | compareExpr l op ci r => operand_ok l ∧ operand_ok r ∧ (ci = true → allowsCaseModifier op = true)
  end.

(** The levels of a child, which may be put in parentheses. *)
Definition child_need (need : nat) (e : expr) (minPrec : nat) : nat :=
  if (precedence e <? minPrec)%nat then S need else need.
Fixpoint need (e : expr) : nat :=
  match e with
  | constExpr _ => 0%nat
  | notExpr e' => S (child_need (need e') e' precNot)
  | compoundExpr op l r =>
      (child_need (need l) l (op_precedence op) `max` child_need (need r) r (S (op_precedence op)))%nat
  | compareExpr l _ _ r => (operand_need l `max` operand_need r)%nat
  end.

Section Roundtrip.
Variable N : Z.
Abbreviation at_ := (at_ N).
Abbreviation reads := (reads N).

(** ** The parser at a token *)

Record cur (p : parser) (t : token) (r : bytes) : Prop := {
  cur_kind : kind p = t_kind t;
  cur_text : t_text (p_tok p) = t_text t;
  cur_number : t_number (p_tok p) = t_number t;
  cur_rest : p_lx p = mkLexer r (endsOperand t) }.

Lemma at_cur prev s t r p : reads prev s t r → at_ prev s p → cur p t r.
Proof.
  unfold PredText.at_. intros (pos & call & H) Hp. rewrite H in Hp. injection Hp as Ht Hl.
  destruct p as [lx t']. cbn in *. subst. by constructor.
Qed.

Lemma at_exists prev s t r : reads prev s t r → ∃ p, at_ prev s p.
Proof. intros (pos & call & H). eexists (mkParser _ _). unfold PredText.at_. rewrite H. done. Qed.

Lemma at_unique prev s p q : at_ prev s p → at_ prev s q → p = q.
Proof.
  unfold PredText.at_. intros -> H. injection H as Ht Hl. destruct p, q. cbn in *. by subst.
Qed.

Lemma cur_advance p t r p' : cur p t r → at_ (endsOperand t) r p' → advance N p = Ok p'.
Proof. intros H. eapply advance_at, cur_rest, H. Qed.

Lemma cur_then_advance {A} (x : A) p t r p' :
  cur p t r → at_ (endsOperand t) r p' → then_advance N x p = Ok (x, p').
Proof. intros H Hp. unfold then_advance. by rewrite (cur_advance _ _ _ _ H Hp). Qed.

Lemma cur_is_kind p t r k : cur p t r → is_kind k p = bool_decide (t_kind t = k).
Proof. intros H. unfold is_kind. by rewrite (cur_kind _ _ _ H). Qed.

Lemma cur_is_word p t r w : cur p t r → bs w ≠ [] →
  is_word w p = bool_decide (t_kind t = tokIdent) && bool_decide (ascii_upper (t_text t) = bs w).
Proof.
  intros H Hw. unfold is_word, keyword. rewrite (cur_is_kind _ _ _ _ H), (cur_text _ _ _ H).
  destruct (bool_decide (t_kind t = tokIdent)); [done|]. by rewrite bool_decide_false.
Qed.

Lemma cur_isOp p t r w : cur p t r →
  isOp w p = bool_decide (t_kind t = tokOp) && bool_decide (t_text t = bs w).
Proof. intros H. unfold isOp. by rewrite (cur_is_kind _ _ _ _ H), (cur_text _ _ _ H). Qed.

(** Text at which a word, a number or an operand ends. *)
Abbreviation ends := (stops isKeyChar).

(** ** Literals *)

Lemma reads_word prev (w : string) r :
  match bs w with c :: _ => isIdentStart c = true | [] => False end → forallb isKeyChar (bs w) = true →
  ends r → reads prev (bs w ++ r) (ident (bs w)) r.
Proof. apply reads_ident. Qed.

Lemma lit_reads l r : lit_ok l → ends r → ∃ t r', reads false (renderLiteral l ++ r) t r' ∧
  t_kind t ∈ [tokIdent; tokNumber; tokString; tokLBrace] ∧
  (t_kind t = tokIdent → t_text t ∈ bs <$> ["NULL"; "TRUE"; "FALSE"]%string).
Proof.
  intros Hok Hr. destruct l as [|[]|f|s|items]; cbn [renderLiteral].
  - exists (ident (bs "NULL")), r. split_and!; [by apply reads_word|set_solver|intros _; by left].
  - exists (ident (bs "TRUE")), r. split_and!; [by apply reads_word|set_solver|intros _; right; by left].
  - exists (ident (bs "FALSE")), r. split_and!; [by apply reads_word|set_solver|intros _; do 2 right; by left].
  - eexists _, r. split_and!; [by apply reads_number|set_solver|done].
  - eexists _, r. split_and!; [by apply reads_string|set_solver|done].
  - eexists _, _. split_and!; [cbn [app]; by apply (reads_punct N _ 123 tokLBrace); set_solver|set_solver|done].
Qed.

Lemma lit_at l r : lit_ok l → ends r → ∃ p, at_ false (renderLiteral l ++ r) p.
Proof. intros Hok Hr. destruct (lit_reads l r Hok Hr) as (t & r' & H & _). by eapply at_exists. Qed.

Fixpoint items_tail (l : list literal) : bytes :=
  match l with [] => [] | x :: l' => bs ", " ++ renderLiteral x ++ items_tail l' end.

Lemma comma_list_tail x l : comma_list (renderLiteral <$> x :: l) = renderLiteral x ++ items_tail l.
Proof.
  revert x. induction l as [|y l IH]; intros x; [cbn; by rewrite app_nil_r|].
  cbn [fmap list_fmap comma_list items_tail]. f_equal. f_equal. apply (IH y).
Qed.

Lemma tail_reads l r : ∃ t r', reads true (items_tail l ++ 125 :: r) t r' ∧
  t = match l with [] => tok tokRBrace [125] | _ => tok tokComma [44] end ∧
  r' = match l with [] => r | x :: l' => 32 :: renderLiteral x ++ items_tail l' ++ 125 :: r end.
Proof.
  destruct l as [|x l]; eexists _, _; split_and!; try done.
  - apply (reads_punct N _ 125 tokRBrace). set_solver.
  - cbn [items_tail]. rewrite <-!app_assoc. apply (reads_punct N _ 44 tokComma). set_solver.
Qed.

Lemma tail_ends l r : ends (items_tail l ++ 125 :: r).
Proof. by destruct l. Qed.

Definition literal_trip (lv : nat) (l : literal) : Prop := ∀ r p p',
  ends r → at_ true r p' → at_ false (renderLiteral l ++ r) p → parseLiteral N lv p = Ok (l, p').

Lemma aggregate_trip lv r pz l : ∀ done n p,
  Forall (λ x, lit_ok x ∧ literal_trip lv x) l → done ≠ [] → (length l < n)%nat →
  at_ true (125 :: r) pz → at_ true (items_tail l ++ 125 :: r) p →
  aggregate_loop N n (parseLiteral N lv) done p = Ok (done ++ l, pz).
Proof.
  induction l as [|x l IH]; intros items n p Hl Hne Hn Hz Hp; (destruct n as [|n]; [cbn in Hn; lia|]);
    rewrite aggregate_loop_eq.
  - rewrite (at_unique _ _ _ _ Hp Hz), app_nil_r. pose proof (tail_reads [] r) as (t & r' & H & -> & ->).
    pose proof (at_cur _ _ _ _ _ H Hz) as Hc. by rewrite (cur_is_kind _ _ _ _ Hc).
  - apply Forall_cons in Hl as [[Hok Hx] Hl]. cbn [length] in Hn.
    pose proof (tail_reads (x :: l) r) as (t & r' & H & -> & ->). pose proof (at_cur _ _ _ _ _ H Hp) as Hc.
    rewrite (cur_is_kind _ _ _ _ Hc). cbn [tok t_kind]. change (bool_decide (tokComma = tokRBrace)) with false.
    unfold aggregate_item. rewrite (bool_decide_true (items ≠ [])) by done.
    rewrite (cur_is_kind _ _ _ _ Hc). change (bool_decide (t_kind (tok tokComma [44]) = tokComma)) with true. cbn iota.
    destruct (lit_at x (items_tail l ++ 125 :: r) Hok (tail_ends _ _)) as (p1 & Hp1).
    rewrite (cur_advance _ _ _ p1 Hc) by (by apply at_space). cbn [mbind result_bind].
    destruct (tail_reads l r) as (t2 & r2 & H2 & _). destruct (at_exists _ _ _ _ H2) as (p2 & Hp2).
    rewrite (Hx (items_tail l ++ 125 :: r) p1 p2 (tail_ends _ _) Hp2 Hp1). cbn [mbind result_bind].
    rewrite (IH (items ++ [x]) n p2); [by rewrite <-app_assoc|done|by destruct items|lia|done|done].
Qed.

Lemma parseLiteral_kind lv p k : kind p = k →
  parseLiteral N lv p =
    match k with
    | tokString => then_advance N (litString (t_text (p_tok p))) p
    | tokNumber => then_advance N (litNumber (t_number (p_tok p))) p
    | tokLBrace => match lv with O => syntax_here p | S lv' => parseAggregate N (parseLiteral N lv') p end
    | tokIdent => parseWordLiteral N p
    | _ => syntax_here p
    end.
Proof. intros <-. by destruct lv. Qed.

Lemma word_literal_trip lv (w : string) l r p p' :
  (w, l) ∈ [("NULL", litNull); ("TRUE", litBool true); ("FALSE", litBool false)]%string →
  ends r → at_ true r p' → at_ false (bs w ++ r) p → parseLiteral N lv p = Ok (l, p').
Proof.
  intros Hw Hr Hp' Hp.
  assert (reads false (bs w ++ r) (ident (bs w)) r) as H.
  { repeat (apply elem_of_cons in Hw as [[= -> ->]|Hw]; [by apply reads_word|]). by apply elem_of_nil in Hw. }
  pose proof (at_cur _ _ _ _ _ H Hp) as Hc. rewrite (parseLiteral_kind lv p tokIdent (cur_kind _ _ _ Hc)).
  unfold parseWordLiteral. rewrite !(cur_is_word _ _ _ _ Hc) by done.
  assert (endsOperand (ident (bs w)) = true) as Hend.
  { repeat (apply elem_of_cons in Hw as [[= -> ->]|Hw]; [by vm_compute|]). by apply elem_of_nil in Hw. }
  rewrite <-Hend in Hp'. pose proof (λ A (x : A), cur_then_advance x _ _ _ _ Hc Hp') as Hadv.
  repeat (apply elem_of_cons in Hw as [[= -> ->]|Hw]; [rewrite !Hadv; by vm_compute|]). by apply elem_of_nil in Hw.
Qed.

Lemma foldr_ok items : foldr (λ x P, lit_ok x ∧ P) True items ↔ Forall lit_ok items.
Proof. induction items as [|x l IH]; cbn; [done|]. by rewrite IH, Forall_cons. Qed.

Lemma foldr_need items n : (foldr (λ x n, lit_need x `max` n)%nat 0%nat items ≤ n)%nat ↔
  Forall (λ x, (lit_need x ≤ n)%nat) items.
Proof. induction items as [|x l IH]; cbn; [split; [done|lia]|]. rewrite Forall_cons, <-IH. lia. Qed.

(** The whole aggregate, its braces included. *)
Lemma braces_trip lv items r p p' :
  Forall (λ x, lit_ok x ∧ literal_trip lv x) items → at_ true r p' →
  at_ false (123 :: comma_list (renderLiteral <$> items) ++ 125 :: r) p →
  parseAggregate N (parseLiteral N lv) p = Ok (litAggregate items, p').
Proof.
  intros Hall Hp' Hp.
  pose proof (at_cur _ _ _ _ _ (reads_punct N false 123 tokLBrace _ ltac:(set_solver)) Hp) as Hc.
  assert (∀ prev, reads prev (125 :: r) (tok tokRBrace [125]) r) as Hz
    by (intros prev; apply (reads_punct N _ 125 tokRBrace); set_solver).
  assert (∀ prev q, at_ prev (125 :: r) q → then_advance N (litAggregate items) q = Ok (litAggregate items, p')) as Hend.
  { intros prev q Hq. pose proof (at_cur _ _ _ _ _ (Hz prev) Hq) as Hcq. by apply (cur_then_advance _ _ _ _ _ Hcq). }
  unfold parseAggregate. destruct items as [|x items].
  - destruct (at_exists _ _ _ _ (Hz false)) as (q & Hq). rewrite (cur_advance _ _ _ q Hc Hq). cbn [mbind result_bind].
    unfold fuel. rewrite aggregate_loop_eq.
    rewrite (cur_is_kind _ _ _ _ (at_cur _ _ _ _ _ (Hz false) Hq)). cbn. by eapply Hend.
  - rewrite comma_list_tail, <-app_assoc in Hc. apply Forall_cons in Hall as [[Hxok Hx] Hall].
    destruct (lit_at x _ Hxok (tail_ends items r)) as (q & Hq). rewrite (cur_advance _ _ _ q Hc Hq).
    cbn [mbind result_bind].
    rewrite (aggregate_loop_fuel N (parseLiteral N lv) (parseLiteral_sane N lv) _ (S (S (fuel q + length items))));
      [|apply enough_fuel|eapply enough_more; [apply enough_fuel|lia]].
    rewrite aggregate_loop_eq.
    destruct (lit_reads x _ Hxok (tail_ends items r)) as (t & r' & Hrd & Hk & _).
    pose proof (at_cur _ _ _ _ _ Hrd Hq) as Hcq.
    rewrite (cur_is_kind _ _ _ _ Hcq), bool_decide_false by (intros E; rewrite E in Hk; set_solver).
    unfold aggregate_item. rewrite (bool_decide_false ([] ≠ [])) by naive_solver. cbn [mbind result_bind].
    destruct (tail_reads items r) as (t2 & r2 & H2 & _). destruct (at_exists _ _ _ _ H2) as (q2 & Hq2).
    rewrite (Hx _ q q2 (tail_ends _ _) Hq2 Hq). cbn [mbind result_bind].
    destruct (at_exists _ _ _ _ (Hz true)) as (qz & Hqz).
    rewrite (aggregate_trip lv r qz items ([] ++ [x])); [|done|done|lia|done|done].
    cbn [mbind result_bind app]. by eapply Hend.
Qed.

Lemma literal_trips l : ∀ lv, lit_ok l → (lit_need l ≤ lv)%nat → literal_trip lv l.
Proof.
  induction l as [|b|f|s|items IH] using literal_rect'; intros lv Hok Hn r p p' Hr Hp' Hp.
  - apply (word_literal_trip lv "NULL" _ r p p'); [set_solver|done..].
  - destruct b; [apply (word_literal_trip lv "TRUE" _ r p p')|apply (word_literal_trip lv "FALSE" _ r p p')];
      set_solver || done.
  - pose proof (at_cur _ _ _ _ _ (reads_number N f r Hok Hr) Hp) as Hc.
    rewrite (parseLiteral_kind lv p tokNumber (cur_kind _ _ _ Hc)), (cur_number _ _ _ Hc).
    by apply (cur_then_advance _ _ _ _ _ Hc).
  - pose proof (at_cur _ _ _ _ _ (reads_string N false s r Hok) Hp) as Hc.
    rewrite (parseLiteral_kind lv p tokString (cur_kind _ _ _ Hc)), (cur_text _ _ _ Hc).
    by apply (cur_then_advance _ _ _ _ _ Hc).
  - cbn [lit_ok] in Hok. apply foldr_ok in Hok. cbn [lit_need] in Hn. destruct lv as [|lv]; [lia|].
    apply le_S_n, foldr_need in Hn. cbn [renderLiteral] in Hp.
    change (bs "{") with [123] in Hp. change (bs "}") with [125] in Hp.
    rewrite <-!app_assoc in Hp. cbn [app] in Hp.
    pose proof (at_cur _ _ _ _ _ (reads_punct N false 123 tokLBrace _ ltac:(set_solver)) Hp) as Hc.
    rewrite (parseLiteral_kind _ p tokLBrace (cur_kind _ _ _ Hc)). apply (braces_trip lv items r); [|done|done].
    apply Forall_forall. intros x Hx. rewrite Forall_forall in *. split; [by apply Hok|]. apply IH; auto.
Qed.

(** ** Operands and comparisons *)

Lemma operand_reads o r : operand_ok o → ends r → ∃ t r', reads false (renderOperand o ++ r) t r' ∧
  t_kind t ∈ [tokIdent; tokNumber; tokString; tokLBrace; tokProperty; tokStatus] ∧
  (t_kind t = tokIdent → t_text t ∈ bs <$> ["NULL"; "TRUE"; "FALSE"]%string).
Proof.
  intros Hok Hr. destruct o as [k|k|l]; cbn [renderOperand].
  - exists (tok tokProperty k), r. split_and!; [|set_solver|done].
    rewrite <-!app_assoc. by apply (reads_reference N false "property"); [set_solver|].
  - exists (tok tokStatus k), r. split_and!; [|set_solver|done].
    rewrite <-!app_assoc. by apply (reads_reference N false "status"); [set_solver|].
  - destruct (lit_reads l r Hok Hr) as (t & r' & H & Hk & Hw). exists t, r'. split_and!; [done|set_solver|done].
Qed.

Lemma operand_at o r : operand_ok o → ends r → ∃ p, at_ false (renderOperand o ++ r) p.
Proof. intros Hok Hr. destruct (operand_reads o r Hok Hr) as (t & r' & H & _). by eapply at_exists. Qed.

Lemma operand_trip lv o r p p' :
  operand_ok o → (operand_need o ≤ lv)%nat → ends r → at_ true r p' → at_ false (renderOperand o ++ r) p →
  parseOperand N lv p = Ok (o, p').
Proof.
  intros Hok Hn Hr Hp' Hp. unfold parseOperand. destruct o as [k|k|l]; cbn [renderOperand] in Hp.
  - rewrite <-!app_assoc in Hp.
    pose proof (at_cur _ _ _ _ _ (reads_reference N false "property" tokProperty k r ltac:(set_solver) Hok) Hp) as Hc.
    rewrite (cur_kind _ _ _ Hc), (cur_text _ _ _ Hc). by apply (cur_then_advance _ _ _ _ _ Hc).
  - rewrite <-!app_assoc in Hp.
    pose proof (at_cur _ _ _ _ _ (reads_reference N false "status" tokStatus k r ltac:(set_solver) Hok) Hp) as Hc.
    rewrite (cur_kind _ _ _ Hc), (cur_text _ _ _ Hc). by apply (cur_then_advance _ _ _ _ _ Hc).
  - destruct (lit_reads l r Hok Hr) as (t & r' & H & Hk & _). pose proof (at_cur _ _ _ _ _ H Hp) as Hc.
    rewrite (literal_trips l lv Hok Hn r p p' Hr Hp' Hp), (cur_kind _ _ _ Hc).
    destruct (t_kind t); try done; set_solver.
Qed.

Definition op_tok (op : cmpOp) : token :=
  if symbol op then tok tokOp (cmpOp_String op) else ident (cmpOp_String op).

Lemma op_reads prev op c r : c = 32 ∨ c = 91 → reads prev (cmpOp_String op ++ c :: r) (op_tok op) (c :: r).
Proof.
  intros Hc. unfold op_tok. destruct (symbol op) eqn:Hs; [by apply reads_symbol|].
  apply reads_ident; [by destruct op|by destruct op|]. by destruct Hc as [->| ->].
Qed.

Lemma op_ends op : endsOperand (op_tok op) = false.
Proof. destruct op; by vm_compute. Qed.

Lemma symbol_lookup op : symbol op = true → assoc (cmpOp_String op) symbolOps = Some op.
Proof. destruct op; try done; intros _; vm_compute; reflexivity. Qed.

Lemma keyword_lookup op : symbol op = false →
  assoc (ascii_upper (cmpOp_String op)) keywordOps = Some op ∧
  Forall (λ w, bool_decide (ascii_upper (cmpOp_String op) = bs w) = false) ["MATCHES"; "LIKE"; "BETWEEN"]%string.
Proof. destruct op; try done; intros _; (split; [vm_compute; reflexivity|repeat constructor; vm_compute; reflexivity]). Qed.

Lemma parseOp_trip op r p p' : cur p (op_tok op) r → at_ false r p' → parseOp N p = Ok (op, p').
Proof.
  intros Hc Hp'. rewrite <-(op_ends op) in Hp'. pose proof (cur_then_advance op _ _ _ _ Hc Hp') as Hadv.
  unfold parseOp, keyword. rewrite !(cur_is_word _ _ _ _ Hc), (cur_is_kind _ _ _ _ Hc) by done.
  rewrite (cur_kind _ _ _ Hc), (cur_text _ _ _ Hc). unfold op_tok in *.
  destruct (symbol op) eqn:Hs; cbn [tok ident t_kind t_text].
  - rewrite symbol_lookup by done. exact Hadv.
  - destruct (keyword_lookup op Hs) as [Ha Hw]. repeat (apply Forall_cons in Hw as [-> Hw]).
    rewrite !andb_false_r. cbn [orb]. rewrite (bool_decide_true (tokIdent = tokIdent)) by done. rewrite Ha. exact Hadv.
Qed.

Lemma cur_modifier p op r : cur p (op_tok op) r → parseModifier N p = Ok (false, p).
Proof. intros Hc. unfold parseModifier. rewrite (cur_is_kind _ _ _ _ Hc). by destruct op. Qed.

Lemma case_modifier p r p' : cur p (tok tokModifier (bs "c")) r → at_ false r p' →
  is_kind tokModifier p = true ∧ parseModifier N p = Ok (true, p').
Proof.
  intros Hc Hp'. assert (is_kind tokModifier p = true) as Hk by (by rewrite (cur_is_kind _ _ _ _ Hc)).
  split; [done|]. unfold parseModifier. rewrite Hk, (cur_text _ _ _ Hc). by apply (cur_then_advance _ _ _ _ _ Hc).
Qed.

Lemma comparison_trip lv l op ci o r p p' :
  operand_ok l → operand_ok o → (ci = true → allowsCaseModifier op = true) →
  (operand_need l ≤ lv)%nat → (operand_need o ≤ lv)%nat → ends r → at_ true r p' →
  at_ false (renderCompare l op ci o ++ r) p → parseComparison N lv p = Ok (compareExpr l op ci o, p').
Proof.
  intros Hl Ho Hci Hnl Hno Hr Hp' Hp. unfold renderCompare in Hp.
  change (bs " ") with [32] in Hp. rewrite <-!app_assoc in Hp. cbn [app] in Hp.
  destruct (operand_at o r Ho Hr) as (p4 & Hp4).
  pose proof (operand_trip lv o r p4 p' Ho Hno Hr Hp' Hp4) as Hrhs.
  set (rest := 32 :: renderOperand o ++ r) in *.
  assert (at_ false rest p4) as Hp4' by (by apply at_space).
  set (after := (if ci then bs "[c]" else []) ++ rest) in *.
  assert (∃ c s, after = c :: s ∧ (c = 32 ∨ c = 91)) as (c & s & Hafter & Hcs)
    by (unfold after; destruct ci; eexists _, _; (split; [reflexivity|auto])).
  pose proof (op_reads true op c s Hcs) as Hop. rewrite <-Hafter in Hop.
  destruct (at_exists _ _ _ _ Hop) as (p1 & Hp1). pose proof (at_cur _ _ _ _ _ Hop Hp1) as Hc1.
  unfold parseComparison. rewrite (operand_trip lv l (32 :: cmpOp_String op ++ after) p p1); [|done|done|done| |done].
  2: by apply at_space.
  cbn [mbind result_bind]. rewrite (cur_modifier _ _ _ Hc1). cbn [mbind result_bind].
  destruct ci; cbn [app] in after.
  - pose proof (reads_modifier N false rest) as Hm. destruct (at_exists _ _ _ _ Hm) as (p2 & Hp2).
    pose proof (at_cur _ _ _ _ _ Hm Hp2) as Hc2.
    rewrite (parseOp_trip op after p1 p2 Hc1 Hp2). cbn [mbind result_bind].
    destruct (case_modifier p2 rest p4 Hc2 Hp4') as [-> ->]. cbn [mbind result_bind].
    rewrite (Hci eq_refl). cbn [andb negb]. by rewrite Hrhs.
  - rewrite (parseOp_trip op after p1 p4 Hc1 Hp4'). cbn [mbind result_bind].
    destruct (operand_reads o r Ho Hr) as (t & r' & Hrd & Hk & _). pose proof (at_cur _ _ _ _ _ Hrd Hp4) as Hc4.
    rewrite (cur_is_kind _ _ _ _ Hc4), bool_decide_false by (intros E; rewrite E in Hk; set_solver).
    cbn [mbind result_bind andb]. by rewrite Hrhs.
Qed.

(** ** Expressions *)

Lemma loop_step op more sub lhs rhs p p' :
  (∀ p, more p = true → ¬ at_eof p) → (∀ p, sane p (sub p)) →
  more p = true → (p ← advance N p; sub p) = Ok (rhs, p') →
  compound_loop N (fuel p) op more sub lhs p =
  compound_loop N (fuel p') op more sub (compoundExpr op lhs rhs) p'.
Proof.
  intros Hm Hs Hp H. pose proof (operator_sane N more sub Hm Hs p Hp) as Hsane. rewrite H in Hsane.
  destruct Hsane as [He Hmv]. pose proof (enough_fuel p) as Hf. unfold fuel at 1 in Hf. unfold fuel at 1.
  rewrite compound_loop_eq, Hp, H. cbn [mbind result_bind]. apply compound_loop_fuel; [done|done| |apply enough_fuel].
  by eapply enough_step.
Qed.

Lemma loop_stop op more sub lhs p : more p = false → compound_loop N (fuel p) op more sub lhs p = Ok (lhs, p).
Proof. intros H. unfold fuel. by rewrite compound_loop_eq, H. Qed.

Definition and_loop (lv : nat) (e : expr) (p : parser) : presult expr :=
  compound_loop N (fuel p) logicalAnd more_and (parseNot N lv) e p.
Definition or_loop (lv : nat) (e : expr) (p : parser) : presult expr :=
  compound_loop N (fuel p) logicalOr more_or (parseAnd N (parseNot N lv)) e p.

(** What each level of the grammar does at the text of an expression that belongs to it. *)
Definition expr_trip (e : expr) : Prop := ∀ lv r p p',
  (need e ≤ lv)%nat → ends r → at_ true r p' → at_ false (renderExpr e ++ r) p →
  (precNot ≤ precedence e → parseNot N lv p = Ok (e, p'))%nat ∧
  (precAnd ≤ precedence e → parseAnd N (parseNot N lv) p = and_loop lv e p')%nat ∧
  (more_and p' = false → parseOr N (parseNot N lv) p = or_loop lv e p').

Lemma trip_not lv e p p' : parseNot N lv p = Ok (e, p') → parseAnd N (parseNot N lv) p = and_loop lv e p'.
Proof. intros H. unfold parseAnd. by rewrite H. Qed.

Lemma trip_and lv e p p' : parseAnd N (parseNot N lv) p = and_loop lv e p' → more_and p' = false →
  parseOr N (parseNot N lv) p = or_loop lv e p'.
Proof. intros H Hm. unfold parseOr. rewrite H. unfold and_loop. by rewrite loop_stop. Qed.

Lemma child_at e m r : expr_ok e → ends r → (∀ r, ends r → ∃ p, at_ false (renderExpr e ++ r) p) →
  ∃ p, at_ false (renderChild (renderExpr e) e m ++ r) p.
Proof.
  intros Hok Hr He. unfold renderChild. destruct (_ <? _)%nat; [|by apply He].
  eapply at_exists. rewrite <-!app_assoc. apply (reads_punct N false 40 tokLParen). set_solver.
Qed.

Lemma expr_at e : expr_ok e → ∀ r, ends r → ∃ p, at_ false (renderExpr e ++ r) p.
Proof.
  induction e as [op l IHl r' _|e _|b|l op ci o]; cbn [expr_ok renderExpr]; intros Hok r Hr.
  - rewrite <-!app_assoc. apply child_at; [by destruct Hok|by destruct op|]. apply IHl. by destruct Hok.
  - rewrite <-app_assoc. eapply at_exists. change (bs "NOT ") with (bs "NOT" ++ [32]). rewrite <-app_assoc.
    by apply (reads_word false "NOT").
  - destruct b; eapply at_exists; [by apply (reads_word false "TRUEPREDICATE")|by apply (reads_word false "FALSEPREDICATE")].
  - unfold renderCompare. rewrite <-!app_assoc. destruct Hok as [Hl _]. by apply operand_at.
Qed.

(** A child in parentheses is read one level down. *)
Lemma paren_trip e lv r p p' :
  expr_ok e → expr_trip e → (need e ≤ lv)%nat → at_ true r p' →
  at_ false (40 :: renderExpr e ++ 41 :: r) p → parseNot N (S lv) p = Ok (e, p').
Proof.
  intros Hok He Hn Hp' Hp.
  pose proof (at_cur _ _ _ _ _ (reads_punct N false 40 tokLParen _ ltac:(set_solver)) Hp) as Hc.
  pose proof (reads_punct N true 41 tokRParen r ltac:(set_solver)) as Hz.
  destruct (at_exists _ _ _ _ Hz) as (p2 & Hp2). pose proof (at_cur _ _ _ _ _ Hz Hp2) as Hc2.
  destruct (expr_at e Hok (41 :: r) ltac:(done)) as (p1 & Hp1).
  destruct (He lv (41 :: r) p1 p2 Hn ltac:(done) Hp2 Hp1) as (_ & _ & Hor).
  cbn [parseNot]. unfold is_not. rewrite (cur_is_word _ _ _ _ Hc), (cur_isOp _ _ _ _ Hc) by done.
  unfold parsePrimary. rewrite (cur_is_kind _ _ _ _ Hc). cbn [tok t_kind].
  rewrite !(bool_decide_false (tokLParen = _)), (bool_decide_true (tokLParen = _)) by done. cbn [andb orb negb].
  unfold parseParenthesised. rewrite (cur_advance _ _ _ p1 Hc Hp1). cbn [mbind result_bind].
  assert (more_and p2 = false ∧ more_or p2 = false) as [H1 H2].
  { unfold more_and, more_or. by rewrite !(cur_is_word _ _ _ _ Hc2), !(cur_isOp _ _ _ _ Hc2) by done. }
  rewrite (Hor H1). unfold or_loop. rewrite loop_stop by done. cbn [mbind result_bind].
  rewrite (cur_is_kind _ _ _ _ Hc2). by apply (cur_then_advance _ _ _ _ _ Hc2).
Qed.

Lemma child_text e m r : renderChild (renderExpr e) e m ++ r =
  if (precedence e <? m)%nat then 40 :: renderExpr e ++ 41 :: r else renderExpr e ++ r.
Proof. unfold renderChild. destruct (_ <? _)%nat; [|done]. by rewrite <-!app_assoc. Qed.

Lemma child_not e lv r p p' :
  expr_ok e → expr_trip e → (child_need (need e) e precNot ≤ lv)%nat → ends r → at_ true r p' →
  at_ false (renderChild (renderExpr e) e precNot ++ r) p → parseNot N lv p = Ok (e, p').
Proof.
  rewrite child_text. unfold child_need. intros Hok He Hn Hr Hp' Hp.
  destruct (Nat.ltb_spec (precedence e) precNot) as [|Hle].
  - destruct lv as [|lv]; [lia|]. apply (paren_trip e lv r); [done|done|lia|done|done].
  - by apply (He lv r p p').
Qed.

Lemma child_and e lv r p p' :
  expr_ok e → expr_trip e → (child_need (need e) e precAnd ≤ lv)%nat → ends r → at_ true r p' →
  at_ false (renderChild (renderExpr e) e precAnd ++ r) p →
  parseAnd N (parseNot N lv) p = and_loop lv e p'.
Proof.
  rewrite child_text. unfold child_need. intros Hok He Hn Hr Hp' Hp.
  destruct (Nat.ltb_spec (precedence e) precAnd) as [|Hle].
  - destruct lv as [|lv]; [lia|]. apply trip_not, (paren_trip e lv r); [done|done|lia|done|done].
  - by apply (He lv r p p').
Qed.

Lemma parseNot_primary lv p : is_not p = false → is_kind tokLParen p = false →
  parseNot N lv p = parsePrimary N lv syntax_here p.
Proof. intros H1 H2. unfold parsePrimary. destruct lv; cbn [parseNot]; rewrite H1; unfold parsePrimary; by rewrite H2. Qed.

Lemma const_trip lv b r p p' : ends r → at_ true r p' → at_ false (renderExpr (constExpr b) ++ r) p →
  parseNot N lv p = Ok (constExpr b, p').
Proof.
  intros Hr Hp' Hp. cbn [renderExpr] in Hp.
  set (w := (if b then "TRUEPREDICATE" else "FALSEPREDICATE")%string).
  assert (reads false (bs w ++ r) (ident (bs w)) r) as H by (unfold w; destruct b; by apply reads_word).
  assert (cur p (ident (bs w)) r) as Hc by (eapply at_cur; [exact H|]; unfold w; by destruct b).
  rewrite parseNot_primary.
  - unfold parsePrimary. rewrite (cur_is_kind _ _ _ _ Hc), !(cur_is_word _ _ _ _ Hc) by done.
    assert (endsOperand (ident (bs w)) = true) as He by (unfold w; destruct b; by vm_compute).
    rewrite <-He in Hp'. pose proof (λ x, cur_then_advance (constExpr x) _ _ _ _ Hc Hp') as Hadv.
    rewrite !Hadv. unfold w. by destruct b; vm_compute.
  - unfold is_not. rewrite (cur_is_word _ _ _ _ Hc), (cur_isOp _ _ _ _ Hc) by done. unfold w. by destruct b; vm_compute.
  - rewrite (cur_is_kind _ _ _ _ Hc). done.
Qed.

Lemma not_trip lv e r p p' :
  expr_ok e → expr_trip e → (need (notExpr e) ≤ lv)%nat → ends r → at_ true r p' →
  at_ false (renderExpr (notExpr e) ++ r) p → parseNot N lv p = Ok (notExpr e, p').
Proof.
  intros Hok He Hn Hr Hp' Hp. cbn [renderExpr need] in *. destruct lv as [|lv]; [lia|].
  change (bs "NOT ") with (bs "NOT" ++ [32]) in Hp. rewrite <-!app_assoc in Hp. cbn [app] in Hp.
  pose proof (at_cur _ _ _ _ _ (reads_word false "NOT" (32 :: renderChild (renderExpr e) e precNot ++ r)
                ltac:(done) ltac:(done) ltac:(done)) Hp) as Hc.
  destruct (child_at e precNot r Hok Hr (expr_at e Hok)) as (p1 & Hp1).
  cbn [parseNot]. unfold is_not. rewrite (cur_is_word _ _ _ _ Hc) by done.
  change (bool_decide (t_kind (ident (bs "NOT")) = tokIdent) &&
          bool_decide (ascii_upper (t_text (ident (bs "NOT"))) = bs "NOT")) with true.
  cbn [orb negb]. rewrite (cur_advance _ _ _ p1 Hc) by (by apply at_space). cbn [mbind result_bind].
  by rewrite (child_not e lv r p1 p' Hok He (le_S_n _ _ Hn) Hr Hp' Hp1).
Qed.

(** The operator of a compound, at which the parser stands after the left operand. *)
Definition op_word (op : logicalOp) : string := match op with logicalAnd => "AND" | logicalOr => "OR" end.

Lemma compound_text op l r' r : renderExpr (compoundExpr op l r') ++ r =
  renderChild (renderExpr l) l (op_precedence op) ++ 32 :: bs (op_word op) ++ 32 ::
  renderChild (renderExpr r') r' (S (op_precedence op)) ++ r.
Proof. cbn [renderExpr]. rewrite <-!app_assoc. by destruct op. Qed.

Lemma op_word_at op s : ∃ p, at_ true (32 :: bs (op_word op) ++ 32 :: s) p ∧
  more_and p = bool_decide (op = logicalAnd) ∧ more_or p = bool_decide (op = logicalOr) ∧
  ∀ p', at_ false s p' → advance N p = Ok p'.
Proof.
  assert (reads true (bs (op_word op) ++ 32 :: s) (ident (bs (op_word op))) (32 :: s)) as H
    by (destruct op; by apply reads_word).
  destruct (at_exists _ _ _ _ H) as (p & Hp). exists p. pose proof (at_cur _ _ _ _ _ H Hp) as Hc.
  assert (endsOperand (ident (bs (op_word op))) = false) as He by (destruct op; by vm_compute).
  split_and!; [by apply at_space|..].
  - unfold more_and. rewrite (cur_is_word _ _ _ _ Hc), (cur_isOp _ _ _ _ Hc) by done. by destruct op; vm_compute.
  - unfold more_or. rewrite (cur_is_word _ _ _ _ Hc), (cur_isOp _ _ _ _ Hc) by done. by destruct op; vm_compute.
  - intros p' Hp'. apply (cur_advance _ _ _ _ Hc). rewrite He. by apply at_space.
Qed.

Lemma and_trip lv l r' r p p' :
  expr_ok l → expr_ok r' → expr_trip l → expr_trip r' →
  (need (compoundExpr logicalAnd l r') ≤ lv)%nat → ends r → at_ true r p' →
  at_ false (renderExpr (compoundExpr logicalAnd l r') ++ r) p →
  parseAnd N (parseNot N lv) p = and_loop lv (compoundExpr logicalAnd l r') p'.
Proof.
  intros Hl Hr' Tl Tr Hn Hr Hp' Hp. rewrite compound_text in Hp. cbn [need op_precedence] in *.
  destruct (child_at r' precNot r Hr' Hr (expr_at r' Hr')) as (p2 & Hp2).
  destruct (op_word_at logicalAnd (renderChild (renderExpr r') r' precNot ++ r)) as (p1 & Hp1 & Hm & _ & Hadv).
  assert (child_need (need l) l precAnd ≤ lv ∧ child_need (need r') r' precNot ≤ lv)%nat as [Hn1 Hn2]
    by (change precNot with (S precAnd); lia).
  rewrite (child_and l lv (32 :: bs (op_word logicalAnd) ++ 32 :: renderChild (renderExpr r') r' precNot ++ r)
             p p1 Hl Tl Hn1 ltac:(done) Hp1 Hp).
  apply loop_step; [exact more_and_token|exact (parseNot_sane N lv)|exact Hm|].
  rewrite (Hadv p2 Hp2). cbn [mbind result_bind]. by apply (child_not r' lv r).
Qed.

Lemma or_trip lv l r' r p p' :
  expr_ok l → expr_ok r' → expr_trip l → expr_trip r' →
  (need (compoundExpr logicalOr l r') ≤ lv)%nat → ends r → at_ true r p' → more_and p' = false →
  at_ false (renderExpr (compoundExpr logicalOr l r') ++ r) p →
  parseOr N (parseNot N lv) p = or_loop lv (compoundExpr logicalOr l r') p'.
Proof.
  intros Hl Hr' Tl Tr Hn Hr Hp' Hm' Hp. rewrite compound_text in Hp. cbn [need op_precedence] in *.
  destruct (child_at r' precAnd r Hr' Hr (expr_at r' Hr')) as (p2 & Hp2).
  destruct (op_word_at logicalOr (renderChild (renderExpr r') r' precAnd ++ r)) as (p1 & Hp1 & Hma & Hmo & Hadv).
  assert (child_need (need l) l precOr ≤ lv ∧ child_need (need r') r' precAnd ≤ lv)%nat as [Hn1 Hn2]
    by (change precAnd with (S precOr); lia).
  assert (precedence l <? precOr = false)%nat as Hprec by (by destruct l as [[]| | |]).
  unfold child_need in Hn1. unfold renderChild at 1 in Hp. rewrite Hprec in *.
  destruct (Tl lv (32 :: bs (op_word logicalOr) ++ 32 :: renderChild (renderExpr r') r' precAnd ++ r)
              p p1 Hn1 ltac:(done) Hp1 Hp) as (_ & _ & Hor). rewrite (Hor Hma).
  apply loop_step; [exact more_or_token|exact (parseAnd_sane N _ (parseNot_sane N lv))|exact Hmo|].
  rewrite (Hadv p2 Hp2). cbn [mbind result_bind].
  rewrite (child_and r' lv r p2 p' Hr' Tr Hn2 Hr Hp' Hp2). unfold and_loop. by apply loop_stop.
Qed.

(** The first token of an operand starts nothing but a comparison. *)
Lemma operand_start l r p : operand_ok l → ends r → at_ false (renderOperand l ++ r) p →
  is_not p = false ∧ is_kind tokLParen p = false ∧ is_kind tokEOF p = false ∧
  is_word "TRUEPREDICATE" p = false ∧ is_word "FALSEPREDICATE" p = false.
Proof.
  intros Hl Hr Hp. destruct (operand_reads l r Hl Hr) as (t & r1 & Hrd & Hk & Hw).
  pose proof (at_cur _ _ _ _ _ Hrd Hp) as Hc.
  assert (∀ w, bs w ≠ [] → Forall (λ v, bool_decide (ascii_upper (bs v) = bs w) = false) ["NULL"; "TRUE"; "FALSE"]%string →
            is_word w p = false) as Hword.
  { intros w Hne Hnot. rewrite (cur_is_word _ _ _ _ Hc) by done.
    destruct (decide (t_kind t = tokIdent)) as [Hi|]; [|by rewrite bool_decide_false].
    apply list_elem_of_fmap in Hw as (v & -> & Hv); [|done]. rewrite Forall_forall in Hnot.
    by rewrite (Hnot v Hv), andb_false_r. }
  assert (∀ k, k ∉ [tokIdent; tokNumber; tokString; tokLBrace; tokProperty; tokStatus] → is_kind k p = false) as Hkind.
  { intros k Hnk. rewrite (cur_is_kind _ _ _ _ Hc), bool_decide_false; [done|]. by intros <-. }
  unfold is_not, isOp. rewrite !Hkind by set_solver.
  split_and!; try done; rewrite ?orb_false_r; apply Hword; try done; repeat constructor; by vm_compute.
Qed.

Lemma compare_trip lv l op ci o r p p' :
  operand_ok l → operand_ok o → (ci = true → allowsCaseModifier op = true) →
  (operand_need l ≤ lv)%nat → (operand_need o ≤ lv)%nat → ends r → at_ true r p' →
  at_ false (renderCompare l op ci o ++ r) p → parseNot N lv p = Ok (compareExpr l op ci o, p').
Proof.
  intros Hl Ho Hci Hnl Hno Hr Hp' Hp. pose proof Hp as Hp0. unfold renderCompare in Hp0. rewrite <-!app_assoc in Hp0.
  apply operand_start in Hp0 as (H1 & H2 & H3 & H4 & H5); [|done|done].
  rewrite parseNot_primary by done. unfold parsePrimary. rewrite H2, H3, H4, H5.
  by apply (comparison_trip lv l op ci o r).
Qed.

Lemma expr_trips e : expr_ok e → expr_trip e.
Proof.
  induction e as [op l IHl r' IHr|e IH|b|l op ci o]; intros Hok lv r p p' Hn Hr Hp' Hp.
  - destruct Hok as [Hl Hr']. specialize (IHl Hl). specialize (IHr Hr'). split; [destruct op; cbn; unfold precNot, precAnd, precOr; lia|]. destruct op.
    + pose proof (and_trip lv l r' r p p' Hl Hr' IHl IHr Hn Hr Hp' Hp) as H. split; [done|]. by apply trip_and.
    + split; [cbn; unfold precAnd, precOr; lia|]. intros Hm. by apply (or_trip lv l r' r).
  - pose proof (not_trip lv e r p p' Hok (IH Hok) Hn Hr Hp' Hp) as H.
    split_and!; [done|by intros _; apply trip_not|]. by apply trip_and, trip_not.
  - pose proof (const_trip lv b r p p' Hr Hp' Hp) as H.
    split_and!; [done|by intros _; apply trip_not|]. by apply trip_and, trip_not.
  - destruct Hok as (Hl & Ho & Hci). cbn [need] in Hn.
    assert (parseNot N lv p = Ok (compareExpr l op ci o, p')) as H by (apply (compare_trip lv l op ci o r); done || lia).
    split_and!; [done|by intros _; apply trip_not|]. by apply trip_and, trip_not.
Qed.
End Roundtrip.
