(* ===== verification/PredParsed.v ===== *)
(** * What the parser builds

    The trees that come out of the parser are those the canonical text can spell: their
    numbers are finite, their strings are bytes, the case modifier stands on operators
    that allow it, and the text nests no deeper than the parser allows. So the canonical
    text of a parsed predicate parses back to it. *)
From S2P Require Import Prelude GoStrings Utf8 Float64 PredLexer PredParser PredProgress PredText PredRoundtrip.

(** ** Tokens *)

Definition tok_ok (t : token) : Prop := text_ok (t_text t) ∧ (t_kind t = tokNumber → finite (t_number t)).

Lemma tok_is_ok k w : k ≠ tokNumber → text_ok w → tok_ok (tok k w).
Proof. by intros Hk Hw. Qed.

Lemma span_ok p s w r : text_ok s → span p s = (w, r) → text_ok w ∧ text_ok r.
Proof. intros Hs H. apply span_app in H as [-> _]. by apply Forall_app in Hs. Qed.

Lemma drop_ok n s : text_ok s → text_ok (drop n s).
Proof. apply Forall_drop. Qed.

Lemma hex_value_nonneg c x : hex_value c = Some x → 0 ≤ x.
Proof.
  unfold hex_value. destruct (is_digit c) eqn:Hd; [apply is_digit_spec in Hd; intros [= <-]; lia|].
  destruct ((97 <=? c) && (c <=? 102)) eqn:H1; [bool_hyps; intros [= <-]; lia|].
  destruct ((65 <=? c) && (c <=? 70)) eqn:H2; [bool_hyps; intros [= <-]; lia|done].
Qed.

Lemma hex4_nonneg s r : hex4 s = Some r → 0 ≤ r.
Proof.
  unfold hex4. destruct (mapM hex_value (take 4 s)) as [l|] eqn:Hm; [|done]. apply mapM_Some_1 in Hm.
  assert (Forall (λ x, 0 ≤ x) l) as Hl.
  { eapply Forall2_Forall_r; [exact Hm|]. apply Forall_forall. intros c _ x. apply hex_value_nonneg. }
  destruct l as [|a [|b [|c [|d [|]]]]]; try done. intros [= <-].
  rewrite !Forall_cons in Hl. destruct Hl as (? & ? & ? & ? & _). lia.
Qed.

Lemma write_rune_ok r : 0 ≤ r → text_ok (write_rune r).
Proof.
  intros Hr. pose proof (Z.mod_pos_bound r 64 ltac:(lia)). pose proof (Z.mod_pos_bound (r / 64) 64 ltac:(lia)).
  pose proof (Z.mod_pos_bound (r / 4096) 64 ltac:(lia)).
  assert (0 ≤ r / 64 ∧ 0 ≤ r / 4096 ∧ 0 ≤ r / 262144) by (split_and!; apply Z.div_pos; lia).
  unfold write_rune, text_ok. repeat case_match; repeat constructor; lia.
Qed.

Lemma scanUnicodeEscape_ok s w n : scanUnicodeEscape s = Some (w, n) → text_ok w.
Proof.
  unfold scanUnicodeEscape. destruct (hex4 s) as [r|] eqn:Hr; [|done]. apply hex4_nonneg in Hr.
  pose proof (write_rune_ok r Hr) as Hw. destruct (_ && _); [|by intros [= <- _]].
  destruct (hex4 (drop 6 s)) as [low|]; [|by intros [= <- _]].
  unfold decode_pair. destruct (_ && _) eqn:Hb; [|by intros [= <- _]]. intros [= <- _]. bool_hyps.
  apply write_rune_ok. lia.
Qed.

Lemma scanEscape_ok s w n : text_ok s → scanEscape s = Some (w, n) → text_ok w.
Proof.
  destruct s as [|c s]; [done|]. intros [Hc _]%Forall_cons. cbn [scanEscape].
  repeat (case_match; [intros; simplify_eq; repeat constructor; done|]).
  case_match; [|done]. destruct (scanUnicodeEscape s) as [[w' n']|] eqn:Hu; [|done]. intros [= <- _].
  by eapply scanUnicodeEscape_ok.
Qed.

Section Tokens.
Variable N : Z.

Lemma string_body_ok q st s : ∀ k t r, text_ok s → string_body N q st k s = Ok (t, r) → text_ok t ∧ text_ok r.
Proof.
  induction s as [|c s IH]; intros k t r Hs H; cbn [string_body] in H; [done|].
  pose proof Hs as [Hc Hs']%Forall_cons. destruct k as [|k]; [|by eapply IH].
  destruct (c =? q); [injection H as <- <-; split; [constructor|done]|].
  destruct (c =? 92).
  - destruct (scanEscape s) as [[w n]|] eqn:He; [|done]. apply bind_Ok_inv in H as ([t' r'] & Hb & [= <- <-]).
    destruct (IH _ _ _ Hs' Hb). split; [|done]. apply Forall_app. split; [exact (scanEscape_ok _ _ _ Hs' He)|done].
  - apply bind_Ok_inv in H as ([t' r'] & Hb & [= <- <-]). destruct (IH _ _ _ Hs' Hb). split; [by constructor|done].
Qed.

Lemma scanString_ok s t r : text_ok s → scanString N s = Ok (t, r) → tok_ok t ∧ text_ok r.
Proof.
  intros Hs H. apply bind_Ok_inv in H as ([w r'] & Hb & [= <- <-]).
  destruct (string_body_ok _ _ _ _ _ _ (drop_ok 1 s Hs) Hb). by repeat split.
Qed.

Lemma skipSpace_ok s : text_ok s → text_ok (skipSpace s).
Proof. unfold skipSpace. destruct (span isSpace s) eqn:H. intros Hs. by eapply span_ok. Qed.

Lemma scanKey_ok s k r : text_ok s → scanKey N s = Ok (k, r) → text_ok k ∧ text_ok r.
Proof.
  intros Hs. unfold scanKey. destruct (isQuote _).
  - intros H. apply bind_Ok_inv in H as ([t r'] & Hb & [= <- <-]).
    destruct (scanString_ok _ _ _ Hs Hb) as [[? _] ?]. done.
  - unfold readKeyChars. destruct (span isKeyChar s) as [key r'] eqn:Hsp. case_bool_decide; [done|].
    intros [= <- <-]. by eapply span_ok.
Qed.

Lemma expect_rest c s r : text_ok s → expect N c s = Ok r → text_ok r.
Proof.
  unfold expect, consume. destruct s as [|d s]; [done|]. destruct (d =? c); [|done].
  intros [_ Hs]%Forall_cons [= <-]. done.
Qed.

Lemma scanReference_ok s t r : text_ok s → scanReference N s = Ok (t, r) → tok_ok t ∧ text_ok r.
Proof.
  intros Hs H. unfold scanReference, readKeyChars in H.
  destruct (span isKeyChar (drop 1 s)) as [name r0] eqn:Hsp. destruct (span_ok _ _ _ _ (drop_ok 1 s Hs) Hsp) as [_ H0].
  apply bind_Ok_inv in H as (k & Hk & H). apply bind_Ok_inv in H as (r1 & H1 & H).
  apply bind_Ok_inv in H as ([key r2] & H2 & H). apply bind_Ok_inv in H as (r3 & H3 & [= <- <-]).
  apply expect_rest in H1; [|by apply skipSpace_ok]. destruct (scanKey_ok _ _ _ (skipSpace_ok _ H1) H2) as [Hkey Hr2].
  split; [|by eapply expect_rest, H3; apply skipSpace_ok]. split; [done|]. cbn.
  repeat case_bool_decide; simplify_eq; done.
Qed.

(** Trimming only drops bytes. *)
Lemma strip_first_ok es s r : text_ok s → strip_first es s = Some r → text_ok r.
Proof. induction es as [|e es IH]; cbn; [done|]. destruct (has_prefix s e); [|done]. intros Hs [= <-]. by apply drop_ok. Qed.

Lemma trim_fuel_ok es n : ∀ s, text_ok s → text_ok (trim_fuel es n s).
Proof.
  induction n as [|n IH]; intros s Hs; cbn; [done|]. destruct (strip_first es s) eqn:H; [|done].
  apply IH. by eapply strip_first_ok.
Qed.

Lemma trim_space_ok s : text_ok s → text_ok (trim_space s).
Proof.
  intros Hs. unfold trim_space, trim_right, trim_left, text_ok. apply Forall_reverse, trim_fuel_ok.
  apply Forall_reverse. by apply trim_fuel_ok.
Qed.

Lemma scan_ok prev s t r : text_ok s → scan N prev s = Ok (t, r) → tok_ok t ∧ text_ok r.
Proof.
  intros Hs. unfold scan. assert (scanNumber N s = Ok (t, r) → tok_ok t ∧ text_ok r) as Hnum.
  { unfold scanNumber, readDigits. destruct (span isDigit (skip_sign s)) as [ds r0] eqn:H0.
    assert (text_ok r0) as Hr0.
    { eapply span_ok, H0. unfold skip_sign. destruct (isSign _); [by apply drop_ok|done]. }
    set (r1 := match consume 46 r0 with Some r => (span isDigit r).2 | None => r0 end).
    assert (text_ok r1) as Hr1.
    { unfold r1, consume. destruct r0 as [|c r0]; [done|]. destruct (c =? 46); [|done].
      apply Forall_cons in Hr0 as [_ Hr0]. destruct (span isDigit r0) eqn:H1. by eapply span_ok. }
    intros H. apply bind_Ok_inv in H as (r2 & H2 & H).
    assert (text_ok r2) as Hr2.
    { destruct (_ || _); [|by simplify_eq]. destruct (span isDigit (skip_sign (drop 1 r1))) as [es r3] eqn:H3.
      case_bool_decide; [done|]. injection H2 as <-. eapply span_ok, H3. unfold skip_sign.
      destruct (isSign _); repeat apply drop_ok; done. }
    destruct (ParseFloat _) as [v|] eqn:Hv; [|done]. injection H as <- <-. split; [|done].
    split; [by apply Forall_take|]. intros _. by eapply ParseFloat_finite. }
  destruct (isQuote _); [by apply scanString_ok|]. destruct (_ =? 64); [by apply scanReference_ok|].
  destruct (_ =? 91).
  { unfold scanModifier. destruct (span _ s) as [w [|c r']] eqn:Hsp; [done|]. intros [= <- <-].
    destruct (span_ok _ _ _ _ Hs Hsp) as [Hw [_ Hr]%Forall_cons]. split; [|done]. split; [|done].
    by apply trim_space_ok, drop_ok. }
  destruct (_ || _); [done|]. destruct (_ || _); [exact Hnum|]. destruct (_ && _); [exact Hnum|].
  destruct (isIdentStart _).
  { unfold scanIdent, readKeyChars. destruct (span isKeyChar s) as [w r'] eqn:Hsp. intros [= <- <-].
    destruct (span_ok _ _ _ _ Hs Hsp). by repeat split. }
  assert (0 ≤ byteAt 0 s) as Hc by (destruct s; [done|by apply Forall_cons in Hs as [? _]]).
  unfold scanPunct, scanOperator.
  repeat case_match; intros; simplify_eq; (split; [apply tok_is_ok; [done|]|by apply drop_ok]);
    first [by repeat constructor|by apply Forall_take].
Qed.

(** ** The parser

    The text that is left and the current token stay well-formed, and a phrase that is
    returned satisfies [Q]. *)

Definition rest_ok (p : parser) : Prop := text_ok (l_rest (p_lx p)) ∧ tok_ok (p_tok p).

Definition post {A} (Q : A → Prop) (r : presult A) : Prop :=
  match r with Ok (x, p') => rest_ok p' ∧ Q x | Err _ => True end.

Lemma post_bind {A B} (Q : A → Prop) (R : B → Prop) (r : presult A) (f : A * parser → presult B) :
  post Q r → (∀ x p', rest_ok p' → Q x → post R (f (x, p'))) → post R (r ≫= f).
Proof. destruct r as [[x p']|]; [|done]. intros [Hp Hx] H. by apply H. Qed.

Lemma post_weaken {A} (Q R : A → Prop) (r : presult A) : post Q r → (∀ x, Q x → R x) → post R r.
Proof. destruct r as [[x p']|]; [|done]. intros [Hp Hx] H. split; [done|by apply H]. Qed.

Lemma advance_rest p p' : rest_ok p → advance N p = Ok p' → rest_ok p'.
Proof.
  intros [Hr _] H. apply bind_Ok_inv in H as ([t lx] & H & [= <-]). unfold next in H.
  case_bool_decide; [injection H as <- <-; split; [by apply skipSpace_ok|by split; [constructor|]]|].
  apply bind_Ok_inv in H as ([t' r] & H & [= <- <-]).
  apply scan_ok in H as [Ht Hr']; [|by apply skipSpace_ok]. by split.
Qed.

Lemma post_advance {A} (Q : A → Prop) p (f : parser → presult A) :
  rest_ok p → (∀ p', rest_ok p' → post Q (f p')) → post Q (p ← advance N p; f p).
Proof.
  intros Hp H. destruct (advance N p) as [p'|] eqn:Ha; [|done]. apply H. by eapply advance_rest.
Qed.

Lemma post_then {A} (Q : A → Prop) (x : A) p : rest_ok p → Q x → post Q (then_advance N x p).
Proof. intros Hp Hx. by apply post_advance. Qed.

(** ** Literals and operands *)

Definition lit_post (lv : nat) (l : literal) : Prop := lit_ok l ∧ (lit_need l ≤ lv)%nat.
Definition items_post (lv : nat) (l : list literal) : Prop := Forall (lit_post lv) l.

Lemma items_aggregate lv l : items_post lv l → lit_post (S lv) (litAggregate l).
Proof.
  unfold lit_post. cbn [lit_ok lit_need]. induction 1 as [|x l [Hx Hn] _ [IHo IHn]]; cbn [foldr]; [split; [done|lia]|].
  split; [done|lia].
Qed.

Lemma parseWordLiteral_post lv p : rest_ok p → post (lit_post lv) (parseWordLiteral N p).
Proof.
  intros Hp. unfold parseWordLiteral, unsupportedWord.
  repeat case_match; try done; apply post_then; by try (split; [|cbn; lia]).
Qed.

Lemma aggregate_loop_post lit lv n : (∀ p, rest_ok p → post (lit_post lv) (lit p)) → ∀ items p,
  items_post lv items → rest_ok p → post (items_post lv) (aggregate_loop N n lit items p).
Proof.
  intros Hlit. induction n as [|n IH]; intros items p Hi Hp; cbn [aggregate_loop]; [done|].
  destruct (is_kind tokRBrace p); [done|].
  assert (∀ p, rest_ok p → post (items_post lv) ('(item, p) ← lit p; aggregate_loop N n lit (items ++ [item]) p)) as Hstep.
  { intros p1 Hp1. eapply post_bind; [by apply Hlit|]. intros x p2 Hp2 Hx. apply IH; [|done].
    apply Forall_app. split; [done|by apply Forall_singleton]. }
  case_bool_decide; [|by apply Hstep]. destruct (is_kind tokComma p); [|done]. by apply post_advance.
Qed.

Lemma parseLiteral_post lv : ∀ p, rest_ok p → post (lit_post lv) (parseLiteral N lv p).
Proof.
  induction lv as [|lv IH]; intros p Hp; pose proof Hp as (_ & Ht & Hnum); rewrite (parseLiteral_kind N _ p _ eq_refl);
    unfold kind in *; destruct (t_kind (p_tok p)); try done;
    try (by apply parseWordLiteral_post); try (apply post_then; [done|split; [by try apply Hnum|cbn; lia]]).
  apply post_advance; [done|]. intros p1 Hp1.
  eapply post_bind; [by apply (aggregate_loop_post _ lv); [|constructor|]|].
  intros items p2 Hp2 Hi. apply post_then; [done|by apply items_aggregate].
Qed.

Definition operand_post (lv : nat) (o : operand) : Prop := operand_ok o ∧ (operand_need o ≤ lv)%nat.

Lemma parseOperand_post lv p : rest_ok p → post (operand_post lv) (parseOperand N lv p).
Proof.
  intros Hp. pose proof Hp as (_ & Ht & _). unfold parseOperand.
  assert (post (operand_post lv) ('(l, p) ← parseLiteral N lv p; Ok (opLiteral l, p))) as Hl
    by (eapply post_bind; [by apply parseLiteral_post|done]).
  destruct (kind p); try done; apply post_then; try done; split; [done|cbn; lia|done|cbn; lia].
Qed.

(** ** Expressions *)

Lemma parseModifier_post p : rest_ok p → post (λ _, True) (parseModifier N p).
Proof. intros Hp. unfold parseModifier. repeat case_match; try done. by apply post_then. Qed.

Lemma parseOp_post p : rest_ok p → post (λ _, True) (parseOp N p).
Proof.
  intros Hp. unfold parseOp.
  assert (∀ o : option cmpOp, post (λ _, True) (match o with None => syntax_here p | Some op => then_advance N op p end)) as H
    by (intros [op|]; [by apply post_then|done]).
  destruct (kind p); cbn [mbind result_bind]; try done; try apply H. case_match; [done|]. apply H.
Qed.

(** An expression the parser returns where the precedence [m] is needed. *)
Definition expr_post (lv m : nat) (e : expr) : Prop := expr_ok e ∧ (child_need (need e) e m ≤ lv)%nat.

Lemma parseComparison_post lv p : rest_ok p → post (expr_post lv precNot) (parseComparison N lv p).
Proof.
  intros Hp. unfold parseComparison. eapply post_bind; [by apply parseOperand_post|]. intros l p1 Hp1 [Hl Hln].
  eapply post_bind; [by apply parseModifier_post|]. intros ci p2 Hp2 _.
  eapply post_bind; [by apply parseOp_post|]. intros op p3 Hp3 _.
  assert (∀ pos ci p, rest_ok p → post (expr_post lv precNot)
    (if (ci : bool) && negb (allowsCaseModifier op) then Err (syntaxErr pos)
     else '(rhs, p) ← parseOperand N lv p; Ok (compareExpr l op ci rhs, p))) as Hrest.
  { intros pos ci' p' Hp'. destruct (_ && _) eqn:Hci; [done|].
    eapply post_bind; [by apply parseOperand_post|]. intros r p4 Hp4 [Hr Hrn]. split; [done|]. split; cbn; [|lia].
    split_and!; [done|done|]. intros ->. by destruct (allowsCaseModifier op). }
  destruct (is_kind tokModifier p3); [|by apply (Hrest (t_pos (p_tok p1)))]. destruct ci; [done|].
  pose proof (parseModifier_post p3 Hp3) as Hm. destruct (parseModifier N p3) as [[ci p4]|]; [|done].
  destruct Hm as [Hp4 _]. cbn [mbind result_bind]. by apply Hrest.
Qed.

Lemma compound_post lv op l r : expr_post lv (op_precedence op) l → expr_post lv (S (op_precedence op)) r →
  expr_post lv (op_precedence op) (compoundExpr op l r).
Proof.
  intros [Hl Hln] [Hr Hrn]. split; [done|]. unfold child_need at 1. cbn [precedence].
  rewrite Nat.ltb_irrefl. cbn [need]. lia.
Qed.

Lemma compound_loop_post lv op more sub n :
  (∀ p, rest_ok p → post (expr_post lv (S (op_precedence op))) (sub p)) → ∀ lhs p,
  expr_post lv (op_precedence op) lhs → rest_ok p →
  post (expr_post lv (op_precedence op)) (compound_loop N n op more sub lhs p).
Proof.
  intros Hsub. induction n as [|n IH]; intros lhs p Hl Hp; cbn [compound_loop]; [done|].
  destruct (more p); [|done]. apply post_advance; [done|]. intros p1 Hp1.
  eapply post_bind; [by apply Hsub|]. intros r p2 Hp2 Hr. apply IH; [by apply compound_post|done].
Qed.

Lemma expr_post_le lv m m' e : (m ≤ m')%nat → expr_post lv m' e → expr_post lv m e.
Proof.
  intros Hm [Ho Hn]. split; [done|]. revert Hn. unfold child_need.
  destruct (Nat.ltb_spec (precedence e) m), (Nat.ltb_spec (precedence e) m'); lia.
Qed.

Section Levels.
Context (pNot : parser → presult expr) (lv : nat).
Hypothesis HNot : ∀ p, rest_ok p → post (expr_post lv precNot) (pNot p).

Lemma parseAnd_post p : rest_ok p → post (expr_post lv precAnd) (parseAnd N pNot p).
Proof.
  intros Hp. eapply post_bind; [by apply HNot|]. intros e p1 Hp1 He.
  apply (compound_loop_post lv logicalAnd); [exact HNot|by apply (expr_post_le _ _ precNot); [cbv; lia|]|done].
Qed.

Lemma parseOr_post p : rest_ok p → post (expr_post lv precOr) (parseOr N pNot p).
Proof.
  intros Hp. eapply post_bind; [by apply parseAnd_post|]. intros e p1 Hp1 He.
  apply (compound_loop_post lv logicalOr); [exact parseAnd_post|by apply (expr_post_le _ _ precAnd); [cbv; lia|]|done].
Qed.

Lemma parseParenthesised_post p : rest_ok p → post (expr_post (S lv) precNot) (parseParenthesised N pNot p).
Proof.
  intros Hp. apply post_advance; [done|]. intros p1 Hp1. eapply post_bind; [by apply parseOr_post|].
  intros e p2 Hp2 [He Hn]. destruct (is_kind tokRParen p2); [|done]. apply post_then; [done|]. split; [done|].
  assert (precedence e <? precOr = false)%nat as Hpr by (by destruct e as [[]| | |]).
  revert Hn. unfold child_need. rewrite Hpr. cbn iota. intros Hn. case_match; lia.
Qed.
End Levels.

Lemma parsePrimary_post lv paren p : rest_ok p → post (expr_post lv precNot) (paren p) →
  post (expr_post lv precNot) (parsePrimary N lv paren p).
Proof.
  intros Hp Hparen. unfold parsePrimary. repeat (case_match; [first [done|apply post_then; [done|split; cbn; [done|lia]]]|]).
  by apply parseComparison_post.
Qed.

Lemma parseNot_post lv : ∀ p, rest_ok p → post (expr_post lv precNot) (parseNot N lv p).
Proof.
  induction lv as [|lv IH]; intros p Hp; cbn [parseNot]; destruct (is_not p); cbn [negb]; try done.
  - by apply parsePrimary_post.
  - apply post_advance; [done|]. intros p1 Hp1. eapply post_bind; [by apply IH|]. intros e p2 Hp2 [He Hn].
    split; [done|]. split; [done|]. cbn. lia.
  - apply parsePrimary_post; [done|]. by apply parseParenthesised_post.
Qed.
End Tokens.

(** ** The canonical text of a parsed predicate *)

Lemma bytes_text s : Forall is_byte s → text_ok s.
Proof. intros H. eapply Forall_impl; [exact H|]. unfold is_byte. lia. Qed.

Lemma parse_ok s e : Forall is_byte s → parse s = Ok e → expr_ok e ∧ (need e ≤ maxDepth)%nat.
Proof.
  intros Hs%bytes_text H. unfold parse in H. apply bind_Ok_inv in H as (p & Ha & H).
  apply advance_rest in Ha; [|by split; [|split; [constructor|]]]. destruct (is_kind tokEOF p); [done|].
  pose proof (parseOr_post (Z.of_nat (length s)) _ maxDepth (parseNot_post (Z.of_nat (length s)) maxDepth) p Ha) as Hpost.
  apply bind_Ok_inv in H as ([e' p'] & Hor & H). rewrite Hor in Hpost. destruct Hpost as (_ & He & Hn).
  destruct (is_kind tokEOF p'); [|done]. injection H as <-. split; [done|].
  revert Hn. unfold child_need. case_match eqn:Hlt; lia.
Qed.

Lemma parse_canonical e : expr_ok e → (need e ≤ maxDepth)%nat → parse (renderExpr e) = Ok e.
Proof.
  intros Hok Hn. unfold parse. set (n := Z.of_nat (length (renderExpr e))).
  destruct (expr_at n e Hok [] ltac:(done)) as (p & Hp).
  destruct (at_exists n true [] _ _ (reads_end n true)) as (p' & Hp').
  pose proof (at_cur _ _ _ _ _ _ (reads_end n true) Hp') as Hc.
  destruct (expr_trips n e Hok maxDepth [] p p' Hn ltac:(done) Hp' Hp) as (_ & _ & Hor).
  rewrite app_nil_r in Hp. rewrite (advance_at n false (renderExpr e) _ p) by done. cbn [mbind result_bind].
  assert (more_and p' = false ∧ more_or p' = false) as [H1 H2].
  { unfold more_and, more_or. by rewrite !(cur_is_word _ _ _ _ Hc), !(cur_isOp _ _ _ _ Hc) by done. }
  assert (parseOr n (parseNot n maxDepth) p = Ok (e, p')) as Hres
    by (rewrite (Hor H1); unfold or_loop; by rewrite loop_stop).
  pose proof (parseOr_sane n _ (parseNot_sane n maxDepth) p) as Hsane. rewrite Hres in *. destruct Hsane as [Hne _].
  assert (is_kind tokEOF p = false) as -> by (apply not_true_iff_false; by rewrite is_kind_spec).
  cbn [mbind result_bind]. by rewrite (cur_is_kind _ _ _ _ Hc).
Qed.

(** C37 The canonical text of a parsed predicate parses back to it: for a source that parses,
    [String] of the predicate parses, to the same tree, with the canonical text as its
    source. So parentheses, escapes, quoting, numbers and the nesting limit all survive. *)
Theorem Parse_canonical_text s p : Forall is_byte s → Parse s = Ok p →
  Parse (Predicate_String (Some p)) = Ok (mkPredicate (root p) (Predicate_String (Some p))).
Proof.
  intros Hs H. apply bind_Ok_inv in H as (e & He & [= <-]). apply parse_ok in He as [Hok Hn]; [|done].
  unfold Parse. cbn [Predicate_String root]. by rewrite parse_canonical.
Qed.

Lemma Parse_canonical_text_witness :
  let s := bs "(TRUEPREDICATE or @status(a.b)=[c]'it\'s') AND NOT (1 IN {1, nil})" in
  let p := mkPredicate (compoundExpr logicalAnd
      (compoundExpr logicalOr (constExpr true)
        (compareExpr (statusRef (bs "a.b")) cmpEq true (opLiteral (litString (bs "it's")))))
      (notExpr (compareExpr (opLiteral (litNumber (FFin false ulp_scale))) cmpIn false
        (opLiteral (litAggregate [litNumber (FFin false ulp_scale); litNull]))))) s in
  Parse s = Ok p ∧
  Predicate_String (Some p) = bs "(TRUEPREDICATE OR @status(a.b) ==[c] 'it\'s') AND NOT 1 IN {1, NULL}" ∧
  Parse (Predicate_String (Some p)) = Ok (mkPredicate (root p) (Predicate_String (Some p))).
Proof.
  intros s p. assert (Parse s = Ok p) as Hp by (vm_compute; reflexivity).
  split; [exact Hp|]. split; [vm_compute; reflexivity|].
  apply (Parse_canonical_text s p); [|exact Hp]. apply (bool_decide_unpack (Forall is_byte s)). vm_compute. exact I.
Defined.
