(* ===== verification/Json.v ===== *)
(** * JSON texts

    What the code uses of encoding/json/v2 and its jsontext: the decoder that reads a text
    token by token, checks its grammar, refuses duplicate member names and invalid UTF-8,
    and [Unmarshal] into a tree. A decoder is the rest of the text and a stack of open
    containers. *)
From S2P Require Import Prelude GoStrings Utf8.

(** ** Values *)

(** The members of an object have distinct names: the decoder refuses duplicates. *)
Inductive json :=
| JNull | JBool (b : bool) | JNum (lexeme : bytes) | JStr (s : bytes)
| JArr (l : list json) | JObj (ms : list (bytes * json)).

Section JsonInd.
Variable P : json → Prop.
Hypothesis Hnull : P JNull.
Hypothesis Hbool : ∀ b, P (JBool b).
Hypothesis Hnum : ∀ l, P (JNum l).
Hypothesis Hstr : ∀ s, P (JStr s).
Hypothesis Harr : ∀ l, Forall P l → P (JArr l).
Hypothesis Hobj : ∀ ms, Forall (λ m, P m.2) ms → P (JObj ms).

(** Induction over values, with the members of containers. *)
Fixpoint json_nested_ind (v : json) : P v :=
  match v with
  | JNull => Hnull
  | JBool b => Hbool b
  | JNum l => Hnum l
  | JStr s => Hstr s
  | JArr l => Harr l ((fix go l : Forall P l := match l with [] => Forall_nil_2 _ | x :: l' => Forall_cons_2 _ _ _ (json_nested_ind x) (go l') end) l)
  | JObj ms => Hobj ms ((fix go ms : Forall (λ m, P m.2) ms :=
                           match ms with [] => Forall_nil_2 _ | m :: ms' => Forall_cons_2 _ _ _ (json_nested_ind m.2) (go ms') end) ms)
  end.
End JsonInd.

(** ** Tokens *)

Inductive jtoken := TNull | TBool (b : bool) | TNum (lexeme : bytes) | TStr (s : bytes)
| TBeginObject | TEndObject | TBeginArray | TEndArray.
#[export] Instance jtoken_eq_dec : EqDecision jtoken.
Proof. solve_decision. Defined.

Definition is_ws (c : Z) : bool := (c =? 32) || (c =? 9) || (c =? 10) || (c =? 13).
Definition skip_ws (s : bytes) : bytes := (span is_ws s).2.

(** The text without a given first byte. *)
Definition eat (c : Z) (s : bytes) : option bytes :=
  match s with d :: s' => if d =? c then Some s' else None | [] => None end.

(** *** Strings *)

Definition hex_quad (s : bytes) : option Z :=
  match mapM hex_value (take 4 s) with
  | Some [a; b; c; d] => Some (((a * 16 + b) * 16 + c) * 16 + d)
  | _ => None
  end.

(** The escape after a backslash: its text, and how many bytes it takes. A surrogate is only
    accepted in a pair of escapes. *)
Definition unescape (s : bytes) : option (bytes * nat) :=
  match s with
  | [] => None
  | c :: s' =>
      if (c =? 34) || (c =? 92) || (c =? 47) then Some ([c], 1%nat)
      else if c =? 98 then Some ([8], 1%nat)
      else if c =? 102 then Some ([12], 1%nat)
      else if c =? 110 then Some ([10], 1%nat)
      else if c =? 114 then Some ([13], 1%nat)
      else if c =? 116 then Some ([9], 1%nat)
      else if c =? 117 then
        r ← hex_quad s';
        if is_surrogate r then
          if has_prefix (drop 4 s') (bs "\u") then
            low ← hex_quad (drop 6 s');
            rune ← decode_pair r low;
            Some (write_rune rune, 11%nat)
          else None
        else Some (write_rune r, 5%nat)
      else None
  end.

(** The rest of a string after its opening quote: its text, and what follows it. *)
Fixpoint string_rest (skip : nat) (s : bytes) : option (bytes * bytes) :=
  match s with
  | [] => None
  | c :: s' =>
      match skip with
      | S n => string_rest n s'
      | O =>
          if c =? 34 then Some ([], s')
          else if c =? 92 then
            '(w, n) ← unescape s'; '(t, r) ← string_rest n s'; Some (w ++ t, r)
          else if c <? 32 then None
          else
            '(rune, n) ← decode_rune s; '(t, r) ← string_rest (n - 1) s'; Some (take n s ++ t, r)
      end
  end.

(** *** Numbers *)

Definition number_sign (s : bytes) : bytes * bytes :=
  match eat 45 s with Some s' => ([45], s') | None => ([], s) end.
(** No zero before another digit. *)
Definition number_int (s : bytes) : bytes * bytes :=
  match eat 48 s with Some s' => ([48], s') | None => span is_digit s end.
(** At least one digit. *)
Definition some_digits (pre : bytes) (s : bytes) : option (bytes * bytes) :=
  let '(ds, s') := span is_digit s in if bool_decide (ds = []) then None else Some (pre ++ ds, s').
Definition number_frac (s : bytes) : option (bytes * bytes) :=
  match eat 46 s with Some s' => some_digits [46] s' | None => Some ([], s) end.
Definition number_exp (s : bytes) : option (bytes * bytes) :=
  match s with
  | c :: s' =>
      if (c =? 101) || (c =? 69) then
        match s' with
        | d :: s'' => if (d =? 43) || (d =? 45) then some_digits [c; d] s'' else some_digits [c] s'
        | [] => None
        end
      else Some ([], s)
  | [] => Some ([], s)
  end.
Definition scan_number (s : bytes) : option (bytes * bytes) :=
  let '(sg, s) := number_sign s in
  let '(ip, s) := number_int s in
  if bool_decide (ip = []) then None
  else '(fp, s) ← number_frac s; '(ex, s) ← number_exp s; Some (sg ++ ip ++ fp ++ ex, s).

(** *** One token *)

Definition scan_literal (s : bytes) : option (jtoken * bytes) :=
  if has_prefix s (bs "null") then Some (TNull, drop 4 s)
  else if has_prefix s (bs "true") then Some (TBool true, drop 4 s)
  else if has_prefix s (bs "false") then Some (TBool false, drop 5 s) else None.

Definition scan_token (s : bytes) : option (jtoken * bytes) :=
  match s with
  | [] => None
  | c :: s' =>
      if c =? 123 then Some (TBeginObject, s')
      else if c =? 125 then Some (TEndObject, s')
      else if c =? 91 then Some (TBeginArray, s')
      else if c =? 93 then Some (TEndArray, s')
      else if c =? 34 then '(t, r) ← string_rest 0 s'; Some (TStr t, r)
      else if (c =? 45) || is_digit c then '(l, r) ← scan_number s; Some (TNum l, r)
      else scan_literal s
  end.

(** ** The decoder *)

(** An open container: whether it is still empty; of an object also the names read and whether
    the value of the last is missing. *)
Inductive frame := InArray (empty : bool) | InObject (empty : bool) (names : list bytes) (value : bool).
Record decoder := mkDecoder { d_rest : bytes; d_frames : list frame }.

Inductive jread := Token (t : jtoken) (d : decoder) | EndOfInput | Malformed.

(** A token that begins or is a value; [fs] is the stack once it is read. *)
Definition value_token (s : bytes) (fs : list frame) : jread :=
  match scan_token s with
  | Some (TBeginObject, r) => Token TBeginObject (mkDecoder r (InObject true [] false :: fs))
  | Some (TBeginArray, r) => Token TBeginArray (mkDecoder r (InArray true :: fs))
  | Some (TEndObject, _) | Some (TEndArray, _) | None => Malformed
  | Some (t, r) => Token t (mkDecoder r fs)
  end.

(** A member name; it must be new. *)
Definition name_token (s : bytes) (names : list bytes) (fs : list frame) : jread :=
  match scan_token s with
  | Some (TStr n, r) => if bool_decide (n ∈ names) then Malformed else Token (TStr n) (mkDecoder r (InObject false (n :: names) true :: fs))
  | _ => Malformed
  end.

(** [after] the byte that has to come first, and the space that may follow it. *)
Definition after (c : Z) (s : bytes) (k : bytes → jread) : jread :=
  match eat c s with Some s' => k (skip_ws s') | None => Malformed end.

(** [Decoder.ReadToken] *)
Definition ReadToken (d : decoder) : jread :=
  let s := skip_ws (d_rest d) in
  match d_frames d with
  | [] => if bool_decide (s = []) then EndOfInput else value_token s []
  | InArray empty :: fs =>
      match eat 93 s with
      | Some r => Token TEndArray (mkDecoder r fs)
      | None => if empty then value_token s (InArray false :: fs) else after 44 s (λ s, value_token s (InArray false :: fs))
      end
  | InObject empty names false :: fs =>
      match eat 125 s with
      | Some r => Token TEndObject (mkDecoder r fs)
      | None => if empty then name_token s names fs else after 44 s (λ s, name_token s names fs)
      end
  | InObject empty names true :: fs => after 58 s (λ s, value_token s (InObject false names false :: fs))
  end.

(** ** Reading a value *)

(* @src devicemanagement/internal/canonjson/canonjson.go 15-23 ErrInvalidJSON *)
Inductive jerr := ErrInvalidJSON | ErrDepth | ErrNumber | OutOfFuel.

(** The loops over the elements of an array and the members of an object; every round reads a
    token. *)
Fixpoint read_elems (val : jtoken → decoder → result jerr (json * decoder)) (fuel : nat) (d : decoder)
  : result jerr (list json * decoder) :=
  match fuel with
  | O => Err OutOfFuel
  | S fuel' =>
      match ReadToken d with
      | Token t d =>
          if bool_decide (t = TEndArray) then Ok ([], d)
          else '(v, d) ← val t d; '(l, d) ← read_elems val fuel' d; Ok (v :: l, d)
      | _ => Err ErrInvalidJSON
      end
  end.
Fixpoint read_members (val : jtoken → decoder → result jerr (json * decoder)) (fuel : nat) (d : decoder)
  : result jerr (list (bytes * json) * decoder) :=
  match fuel with
  | O => Err OutOfFuel
  | S fuel' =>
      match ReadToken d with
      | Token TEndObject d => Ok ([], d)
      | Token (TStr n) d =>
          match ReadToken d with
          | Token t d => '(v, d) ← val t d; '(l, d) ← read_members val fuel' d; Ok ((n, v) :: l, d)
          | _ => Err ErrInvalidJSON
          end
      | _ => Err ErrInvalidJSON
      end
  end.

(** The value that a token begins; [lvl] containers may still be opened. *)
Fixpoint read_value (lvl : nat) (t : jtoken) (d : decoder) : result jerr (json * decoder) :=
  match t with
  | TNull => Ok (JNull, d)
  | TBool b => Ok (JBool b, d)
  | TNum l => Ok (JNum l, d)
  | TStr s => Ok (JStr s, d)
  | TBeginArray =>
      match lvl with
      | O => Err ErrDepth
      | S lvl' => '(l, d) ← read_elems (read_value lvl') (S (length (d_rest d))) d; Ok (JArr l, d)
      end
  | TBeginObject =>
      match lvl with
      | O => Err ErrDepth
      | S lvl' => '(ms, d) ← read_members (read_value lvl') (S (length (d_rest d))) d; Ok (JObj ms, d)
      end
  | TEndArray | TEndObject => Err ErrInvalidJSON
  end.

(** A whole text: one value and nothing after it. *)
Definition read_text (lvl : nat) (src : bytes) : result jerr json :=
  match ReadToken (mkDecoder src []) with
  | Token t d =>
      '(v, d) ← read_value lvl t d;
      match ReadToken d with EndOfInput => Ok v | _ => Err ErrInvalidJSON end
  | _ => Err ErrInvalidJSON
  end.

(** ** JSON objects as Go structs

    What [encoding/json/v2] does with a text read into a struct: members are found by their
    exact name, members without a field are skipped, [null] is the zero value of a field and
    of the struct, any other value must have the type of its field. *)

(** [jsontext] nests at most this many containers. *)
Definition nesting : nat := Z.to_nat 10000.
Definition text (src : bytes) : option json := match read_text nesting src with Ok v => Some v | Err _ => None end.

Definition members := list (bytes * json).
Definition member (name : bytes) (ms : members) : json :=
  match list_find (λ m, m.1 = name) ms with Some (_, m) => m.2 | None => JNull end.
Definition object (v : json) : option members :=
  match v with JObj ms => Some ms | JNull => Some [] | _ => None end.

(** A field that is a pointer is nil for [null] and for a member that is not there. *)
Definition pointer {A} (read : json → option A) (v : json) : option (option A) :=
  match v with JNull => Some None | _ => Some <$> read v end.
Definition plain {A} (zero : A) (read : json → option A) (v : json) : option A := default zero <$> pointer read v.

Definition a_string (v : json) : option bytes := match v with JStr s => Some s | _ => None end.
Definition a_bool (v : json) : option bool := match v with JBool b => Some b | _ => None end.
(** An [int] is written without a fraction or an exponent and fits 64 bits. *)
Definition an_int (v : json) : option Z := match v with JNum l => atoi l | _ => None end.
Definition a_list {A} (read : json → option A) (v : json) : option (list A) := match v with JArr l => mapM read l | _ => None end.

Definition string_field (ms : members) (name : string) : option bytes := plain [] a_string (member (bs name) ms).
Definition string_pointer (ms : members) (name : string) : option (option bytes) := pointer a_string (member (bs name) ms).
Definition bool_field (ms : members) (name : string) : option bool := plain false a_bool (member (bs name) ms).
Definition int_field (ms : members) (name : string) : option Z := plain 0 an_int (member (bs name) ms).
(** A [jsontext.Value] keeps whatever stands there, [null] included; its length is only
    compared with zero. *)
Definition present (ms : members) (name : string) : bool := bool_decide (bs name ∈ ms.*1).
(** [RejectUnknownMembers] *)
Definition known (names : list string) (ms : members) : bool := bool_decide (Forall (λ n, n ∈ (bs <$> names)) ms.*1).

Definition into {A} (read : members → option A) (src : bytes) : option A := v ← text src; ms ← object v; read ms.
