(* ===== verification/Canonjson.v ===== *)
(** * Canonical JSON: [devicemanagement/internal/canonjson]

    The canonical form of a JSON text (RFC 8785): no space, members in the order of the
    UTF-16 units of their names, minimal escapes, numbers as ECMAScript prints them. The
    code reads tokens and appends bytes; so does the model, which threads the output and
    the decoder. *)
From S2P Require Import Prelude GoStrings Utf8 Float64 Json.

(** ** Strings *)

Definition hexDigit (n : Z) : Z := if n <? 10 then 48 + n else 87 + n.

(** One byte of a string literal. *)
Definition string_byte (c : Z) : bytes :=
  if (c =? 34) || (c =? 92) then [92; c]
  else if 32 <=? c then [c]
  else if c =? 8 then bs "\b"
  else if c =? 12 then bs "\f"
  else if c =? 10 then bs "\n"
  else if c =? 13 then bs "\r"
  else if c =? 9 then bs "\t"
  else bs "\u00" ++ [hexDigit (Z.shiftr c 4); hexDigit (Z.land c 15)].

(* @src devicemanagement/internal/canonjson/canonjson.go - appendString *)
Definition appendString (dst s : bytes) : bytes := dst ++ [34] ++ (s ≫= string_byte) ++ [34].

(** ** Numbers *)

Fixpoint strip_zeros (ds : bytes) : bytes :=
  match ds with
  | c :: ds' => if (c =? 48) && bool_decide (ds' ≠ []) then strip_zeros ds' else ds
  | [] => []
  end.

(** The zeros before the exponent digits of [text] go: after the last [e] come a sign and the
    digits. *)
(* @src devicemanagement/internal/canonjson/canonjson.go - appendExponent *)
Definition appendExponent (dst text : bytes) : bytes :=
  let '(tail, front) := span (λ c, negb (c =? 101)) (reverse text) in
  dst ++ reverse front ++ take 1 (reverse tail) ++ strip_zeros (drop 1 (reverse tail)).

(** [1e-6] and [1e21] as numbers. *)
Definition fixed_from : Z := decimal_units 1 (-6).
Definition fixed_to : Z := decimal_units 1 21.

(* @src devicemanagement/internal/canonjson/canonjson.go - appendNumber *)
Definition appendNumber (dst lexeme : bytes) : result jerr bytes :=
  match ParseFloat lexeme with
  | None => Err ErrNumber
  | Some (FFin neg x) =>
      if x =? 0 then Ok (dst ++ [48])
      else
        let '(ds, dp) := shortest_digits x in
        let sign := if (neg : bool) then [45] else [] in
        if (fixed_from <=? x) && (x <? fixed_to) then Ok (dst ++ sign ++ fmt_f ds dp)
        else Ok (appendExponent dst (sign ++ fmt_e ds (dp - 1)))
  | Some _ => Err ErrNumber
  end.

(** ** Containers *)

(* @src devicemanagement/internal/canonjson/canonjson.go - member *)
Record canon_member := mkMember { m_key : list Z; m_bytes : bytes }.
Definition member_leb (a b : canon_member) : bool := bytes_leb (m_key a) (m_key b).

(** Members separated by commas. *)
(* @src devicemanagement/internal/canonjson/canonjson.go 176-181 parser.object *)
Fixpoint emit_members (first : bool) (ms : list canon_member) (dst : bytes) : bytes :=
  match ms with
  | [] => dst
  | m :: ms' => emit_members false ms' ((if first then dst else dst ++ [44]) ++ m_bytes m)
  end.

Abbreviation jres := (result jerr (bytes * decoder)).

(* @src devicemanagement/internal/canonjson/canonjson.go 122-137 parser.array *)
Fixpoint array_loop (value : bytes → jtoken → decoder → jres) (fuel : nat) (first : bool) (dst : bytes) (d : decoder) : jres :=
  match fuel with
  | O => Err OutOfFuel
  | S fuel' =>
      match ReadToken d with
      | Token t d =>
          if bool_decide (t = TEndArray) then Ok (dst ++ [93], d)
          else
            '(dst, d) ← value (if first then dst else dst ++ [44]) t d;
            array_loop value fuel' false dst d
      | _ => Err ErrInvalidJSON
      end
  end.

(* @src devicemanagement/internal/canonjson/canonjson.go 156-175 parser.object *)
Fixpoint object_loop (value : bytes → jtoken → decoder → jres) (fuel : nat) (members : list canon_member) (d : decoder)
  : result jerr (list canon_member * decoder) :=
  match fuel with
  | O => Err OutOfFuel
  | S fuel' =>
      match ReadToken d with
      | Token TEndObject d => Ok (members, d)
      | Token (TStr name) d =>
          match ReadToken d with
          | Token t d =>
              '(buf, d) ← value (appendString [] name ++ [58]) t d;
              object_loop value fuel' (members ++ [mkMember (utf16_key name) buf]) d
          | _ => Err ErrInvalidJSON
          end
      | _ => Err ErrInvalidJSON
      end
  end.

(* @src devicemanagement/internal/canonjson/canonjson.go 28-28 MaxDepth *)
Definition MaxDepth : nat := 128.

(** The value that a token begins; [lvl] is [MaxDepth - depth], the containers that may still be
    opened. *)
(* @src devicemanagement/internal/canonjson/canonjson.go - parser.value *)
Fixpoint canon_value (lvl : nat) (dst : bytes) (t : jtoken) (d : decoder) : jres :=
  match t with
  | TBeginObject =>
      match lvl with
      | O => Err ErrDepth
      | S lvl' =>
          '(members, d) ← object_loop (canon_value lvl') (S (length (d_rest d))) [] d;
          Ok (emit_members true (stable_sort member_leb members) (dst ++ [123]) ++ [125], d)
      end
  | TBeginArray =>
      match lvl with
      | O => Err ErrDepth
      | S lvl' => array_loop (canon_value lvl') (S (length (d_rest d))) true (dst ++ [91]) d
      end
  | TStr s => Ok (appendString dst s, d)
  | TNum l => dst ← appendNumber dst l; Ok (dst, d)
  | TNull => Ok (dst ++ bs "null", d)
  | TBool true => Ok (dst ++ bs "true", d)
  | TBool false => Ok (dst ++ bs "false", d)
  | TEndArray | TEndObject => Err ErrInvalidJSON
  end.

(* @src devicemanagement/internal/canonjson/canonjson.go - parser.root *)
Definition canon_root (dst src : bytes) : result jerr bytes :=
  match ReadToken (mkDecoder src []) with
  | Token t d =>
      '(dst, d) ← canon_value MaxDepth dst t d;
      match ReadToken d with EndOfInput => Ok dst | _ => Err ErrInvalidJSON end
  | _ => Err ErrInvalidJSON
  end.

(** The extended slice, or the error; then the caller has [dst] as it was. *)
(* @src devicemanagement/internal/canonjson/canonjson.go - Append *)
Definition Append (dst src : bytes) : result jerr bytes := canon_root dst src.

(* @src devicemanagement/internal/canonjson/canonjson.go - Canonicalize *)
Definition Canonicalize_text (src : bytes) : result jerr bytes := Append [] src.

(* @src devicemanagement/internal/canonjson/canonjson.go - Valid *)
Definition Valid_text (src : bytes) : bool :=
  match Canonicalize_text src with Ok out => bool_decide (out = src) | Err _ => false end.

(** Texts are easier to write with single quotes. *)
Definition jtext (s : string) : bytes := (λ c, if c =? 39 then 34 else c) <$> bs s.

Example canonical_sample :
  Canonicalize_text (jtext "{ 'b' : [1.0, -0, 1E30, 0.000001, 1e-7, 333333333.33333329, -4.50] , 'a':{'\u000a':null,'\/':true}, 'A':[ ]}")
  = Ok (jtext "{'A':[],'a':{'\n':null,'/':true},'b':[1,0,1e+30,0.000001,1e-7,333333333.3333333,-4.5]}").
Proof. vm_compute. reflexivity. Qed.
Example canonical_refusals :
  Canonicalize_text <$> [jtext "[1,]"; jtext "{'a':1,'a':2}"; jtext "01"; jtext "'\ud800'"; bs "1 2"; []; bs "[1e400]"; replicate 129 91]
  = [Err ErrInvalidJSON; Err ErrInvalidJSON; Err ErrInvalidJSON; Err ErrInvalidJSON; Err ErrInvalidJSON; Err ErrInvalidJSON;
     Err ErrNumber; Err ErrDepth].
Proof. vm_compute. reflexivity. Qed.
