(* ===== verification/CanonjsonRead.v ===== *)
(** * The canonicalizer reads and prints

    The decoder makes progress, so no loop runs out of fuel. What the canonicalizer appends
    for a token is the canonical text, [canon], of the value that [read_value] reads from
    the same decoder; and what is read has valid strings, distinct names and bounded
    depth. *)
From S2P Require Import Prelude GoStrings Utf8 Float64 Json Canonjson.

(** ** Progress *)

Lemma skip_ws_length s : (length (skip_ws s) ≤ length s)%nat.
Proof.
  unfold skip_ws. destruct (span is_ws s) as [w r] eqn:H. apply span_app in H as [-> _]. cbn. rewrite length_app. lia.
Qed.

Lemma eat_Some c s r : eat c s = Some r → s = c :: r.
Proof. destruct s as [|d s]; [done|]. cbn. destruct (Z.eqb_spec d c); [|done]. by intros [= <-]; subst. Qed.

Lemma string_rest_shrinks s : ∀ k t r, string_rest k s = Some (t, r) → (length r < length s)%nat.
Proof.
  induction s as [|c s IH]; intros k t r H; [done|]. cbn [string_rest] in H. destruct k; [|apply IH in H; cbn; lia].
  destruct (c =? 34); [injection H as _ <-; cbn; lia|]. destruct (c =? 92).
  - destruct (unescape s) as [[w n]|]; [|done]. cbn in H. destruct (string_rest n s) as [[t' r']|] eqn:E; [|done].
    injection H as _ <-. apply IH in E. cbn. lia.
  - destruct (c <? 32); [done|]. destruct (decode_rune (c :: s)) as [[q n]|]; [|done]. cbn [mbind option_bind] in H.
    destruct (string_rest (n - 1) s) as [[t' r']|] eqn:E; [|done]. injection H as _ <-. apply IH in E. cbn. lia.
Qed.

Lemma some_digits_app pre s l r : some_digits pre s = Some (l, r) → pre ++ s = l ++ r ∧ l ≠ [].
Proof.
  unfold some_digits. destruct (span is_digit s) as [ds s'] eqn:E. apply span_app in E as [-> _].
  case_bool_decide as Hne; [done|]. intros [= <- <-]. rewrite app_assoc. split; [done|]. by intros [_ ?]%app_nil.
Qed.

Lemma number_frac_app s l r : number_frac s = Some (l, r) → s = l ++ r.
Proof.
  unfold number_frac. destruct (eat 46 s) as [s'|] eqn:E; [|by intros [= <- <-]]. apply eat_Some in E as ->. by intros [H _]%some_digits_app.
Qed.

Lemma number_exp_app s l r : number_exp s = Some (l, r) → s = l ++ r.
Proof.
  unfold number_exp. destruct s as [|c s]; [by intros [= <- <-]|]. destruct (_ || _); [|by intros [= <- <-]].
  destruct s as [|d s]; [done|]. destruct (_ || _); by intros [H _]%some_digits_app.
Qed.

Lemma scan_number_app s l r : scan_number s = Some (l, r) → s = l ++ r ∧ l ≠ [].
Proof.
  unfold scan_number. destruct (number_sign s) as [sg s1] eqn:E1. destruct (number_int s1) as [ip s2] eqn:E2.
  assert (s = sg ++ s1) as ->.
  { unfold number_sign in E1. destruct (eat 45 s) eqn:E; injection E1 as <- <-; [by apply eat_Some in E|done]. }
  assert (s1 = ip ++ s2) as ->.
  { unfold number_int in E2. destruct (eat 48 s1) eqn:E; [injection E2 as <- <-; by apply eat_Some in E|]. by apply span_app in E2 as [-> _]. }
  case_bool_decide as Hne; [done|]. destruct (number_frac s2) as [[fp s3]|] eqn:E3; [|done]. cbn.
  destruct (number_exp s3) as [[ex s4]|] eqn:E4; [|done]. cbn. intros [= <- <-].
  apply number_frac_app in E3 as ->. apply number_exp_app in E4 as ->. rewrite !app_assoc. split; [done|].
  intros [[[_ ?]%app_nil _]%app_nil _]%app_nil. done.
Qed.

Lemma scan_token_shrinks s t r : scan_token s = Some (t, r) → (length r < length s)%nat.
Proof.
  destruct s as [|c s]; [done|]. cbn [scan_token].
  repeat (destruct (c =? _); [intros [= _ <-]; cbn; lia|]). destruct (c =? 34).
  { destruct (string_rest 0 s) as [[t' r']|] eqn:E; [|done]. cbn. intros [= _ <-]. apply string_rest_shrinks in E. lia. }
  destruct (_ || _).
  - destruct (scan_number (c :: s)) as [[l r']|] eqn:E; [|done]. cbn. intros [= _ <-].
    apply scan_number_app in E as [E Hne]. apply (f_equal length) in E. rewrite length_app in E. destruct l; [done|]. cbn in *. lia.
  - unfold scan_literal. repeat (destruct (has_prefix _ _); [intros [= _ <-]; rewrite length_drop; cbn; lia|]). done.
Qed.

(** What a token read as a value leaves open. *)
Definition opened (t : jtoken) (fs : list frame) : list frame :=
  match t with TBeginObject => InObject true [] false :: fs | TBeginArray => InArray true :: fs | _ => fs end.

Lemma value_token_spec s fs t d : value_token s fs = Token t d →
  scan_token s = Some (t, d_rest d) ∧ d_frames d = opened t fs ∧ t ≠ TEndArray ∧ t ≠ TEndObject.
Proof. unfold value_token. destruct (scan_token s) as [[[]]|]; intros H; try done; injection H as <- <-; by split_and!. Qed.

Lemma name_token_spec s names fs t d : name_token s names fs = Token t d →
  ∃ n, t = TStr n ∧ n ∉ names ∧ scan_token s = Some (t, d_rest d) ∧ d_frames d = InObject false (n :: names) true :: fs.
Proof.
  unfold name_token. destruct (scan_token s) as [[[] r]|]; intros H; try done. case_bool_decide; [done|].
  injection H as <- <-. by eexists.
Qed.

Lemma after_Token c s k t d : after c s k = Token t d → ∃ s', s = c :: s' ∧ k (skip_ws s') = Token t d.
Proof. unfold after. destruct (eat c s) as [s'|] eqn:E; [|done]. apply eat_Some in E as ->. eauto. Qed.

(** A token is taken from the text, and the text gets shorter. *)
Lemma ReadToken_scan d t d' : ReadToken d = Token t d' → (length (d_rest d') < length (d_rest d))%nat ∧
  (t = TEndArray ∨ t = TEndObject ∨ ∃ s, scan_token s = Some (t, d_rest d')).
Proof.
  unfold ReadToken. pose proof (skip_ws_length (d_rest d)) as Hl. set (s := skip_ws (d_rest d)) in *. clearbody s.
  assert (∀ fs, value_token s fs = Token t d' → (length (d_rest d') < length (d_rest d))%nat ∧ ∃ s, scan_token s = Some (t, d_rest d')) as Hv.
  { intros fs (Hs & _)%value_token_spec. split; [|eauto]. apply scan_token_shrinks in Hs. lia. }
  assert (∀ c fs, after c s (λ s, value_token s fs) = Token t d' → (length (d_rest d') < length (d_rest d))%nat ∧ ∃ s, scan_token s = Some (t, d_rest d')) as Ha.
  { intros c fs (s' & -> & (Hs & _)%value_token_spec)%after_Token. split; [|eauto]. apply scan_token_shrinks in Hs.
    pose proof (skip_ws_length s'). cbn in *. lia. }
  assert (∀ names fs, name_token s names fs = Token t d' → (length (d_rest d') < length (d_rest d))%nat ∧ ∃ s, scan_token s = Some (t, d_rest d')) as Hn.
  { intros names fs (n & _ & _ & Hs & _)%name_token_spec. split; [|eauto]. apply scan_token_shrinks in Hs. lia. }
  assert (∀ names fs, after 44 s (λ s, name_token s names fs) = Token t d' → (length (d_rest d') < length (d_rest d))%nat ∧ ∃ s, scan_token s = Some (t, d_rest d')) as Han.
  { intros names fs (s' & -> & (n & _ & _ & Hs & _)%name_token_spec)%after_Token. split; [|eauto]. apply scan_token_shrinks in Hs.
    pose proof (skip_ws_length s'). cbn in *. lia. }
  destruct (d_frames d) as [|[e|e names []] fs].
  - case_bool_decide; [done|]. intros [? ?]%Hv. auto.
  - destruct (eat 93 s) as [r|] eqn:E; [apply eat_Some in E as ->; intros [= <- <-]; cbn in *; split; [lia|by left]|].
    destruct e; [intros [? ?]%Hv|intros [? ?]%Ha]; auto.
  - intros [? ?]%Ha. auto.
  - destruct (eat 125 s) as [r|] eqn:E; [apply eat_Some in E as ->; intros [= <- <-]; cbn in *; split; [lia|by right; left]|].
    destruct e; [intros [? ?]%Hn|intros [? ?]%Han]; auto.
Qed.

Lemma ReadToken_shrinks d t d' : ReadToken d = Token t d' → (length (d_rest d') < length (d_rest d))%nat.
Proof. by intros [? _]%ReadToken_scan. Qed.

(** ** The canonical text of a value *)

(** Parts separated by commas. *)
Fixpoint joined (first : bool) (parts : list bytes) : bytes :=
  match parts with [] => [] | p :: ps => (if first then [] else [44]) ++ p ++ joined false ps end.

Definition canon_object (parts : list canon_member) : bytes :=
  [123] ++ joined true (m_bytes <$> stable_sort member_leb parts) ++ [125].
Definition member_of (n : bytes) (b : bytes) : canon_member := mkMember (utf16_key n) (appendString [] n ++ [58] ++ b).

#[local] Arguments appendString : simpl never.
Lemma member_of_eq n b : mkMember (utf16_key n) ((appendString [] n ++ [58]) ++ b) = member_of n b.
Proof. unfold member_of. by rewrite <-app_assoc. Qed.

Fixpoint canon (v : json) : result jerr bytes :=
  match v with
  | JNull => Ok (bs "null")
  | JBool true => Ok (bs "true")
  | JBool false => Ok (bs "false")
  | JNum l => appendNumber [] l
  | JStr s => Ok (appendString [] s)
  | JArr l =>
      parts ← (fix go l := match l with [] => Ok [] | x :: l' => b ← canon x; bs ← go l'; Ok (b :: bs) end) l;
      Ok ([91] ++ joined true parts ++ [93])
  | JObj ms =>
      parts ← (fix go (ms : list (bytes * json)) :=
                 match ms with [] => Ok [] | (n, x) :: ms' => b ← canon x; bs ← go ms'; Ok (member_of n b :: bs) end) ms;
      Ok (canon_object parts)
  end.

Fixpoint canon_list (l : list json) : result jerr (list bytes) :=
  match l with [] => Ok [] | x :: l' => b ← canon x; bs ← canon_list l'; Ok (b :: bs) end.
Fixpoint canon_members (ms : list (bytes * json)) : result jerr (list canon_member) :=
  match ms with [] => Ok [] | (n, x) :: ms' => b ← canon x; bs ← canon_members ms'; Ok (member_of n b :: bs) end.

Lemma canon_arr l : canon (JArr l) = (parts ← canon_list l; Ok ([91] ++ joined true parts ++ [93])).
Proof. reflexivity. Qed.
Lemma canon_obj ms : canon (JObj ms) = (parts ← canon_members ms; Ok (canon_object parts)).
Proof. reflexivity. Qed.

Lemma canon_list_Forall2 l parts : canon_list l = Ok parts ↔ Forall2 (λ v b, canon v = Ok b) l parts.
Proof.
  revert parts. induction l as [|v l IH]; intros parts; cbn.
  - split; [intros [= <-]; constructor|by intros ->%Forall2_nil_inv_l].
  - split.
    + intros H. apply bind_Ok_inv in H as (b & Hb & H). apply bind_Ok_inv in H as (bs & Hbs & H). injection H as <-. constructor; [done|by apply IH].
    + intros (b & bs & Hb & Hbs & ->)%Forall2_cons_inv_l. rewrite Hb. cbn. apply IH in Hbs as ->. done.
Qed.

Lemma canon_members_Forall2 ms parts :
  canon_members ms = Ok parts ↔ Forall2 (λ m p, ∃ b, canon m.2 = Ok b ∧ p = member_of m.1 b) ms parts.
Proof.
  revert parts. induction ms as [|[n v] ms IH]; intros parts; cbn.
  - split; [intros [= <-]; constructor|by intros ->%Forall2_nil_inv_l].
  - split.
    + intros H. apply bind_Ok_inv in H as (b & Hb & H). apply bind_Ok_inv in H as (bs & Hbs & H). injection H as <-.
      constructor; [eauto|by apply IH].
    + intros (p & bs & (b & Hb & ->) & Hbs & ->)%Forall2_cons_inv_l. cbn in Hb. rewrite Hb. cbn. apply IH in Hbs as ->. done.
Qed.

Lemma emit_joined ms : ∀ first dst, emit_members first ms dst = dst ++ joined first (m_bytes <$> ms).
Proof.
  induction ms as [|m ms IH]; intros first dst; cbn; [by rewrite app_nil_r|]. rewrite IH. destruct first; by rewrite <-!app_assoc.
Qed.

Lemma appendString_app dst s : appendString dst s = dst ++ appendString [] s.
Proof. done. Qed.

Lemma appendNumber_app dst l : appendNumber dst l = (b ← appendNumber [] l; Ok (dst ++ b)).
Proof.
  unfold appendNumber. destruct (ParseFloat l) as [[| |neg x]|]; [done..| |done]. destruct (x =? 0); [done|].
  destruct (shortest_digits x). destruct (_ && _); [done|]. unfold appendExponent. destruct (span _ _). done.
Qed.

(** ** Reading and printing go together *)

Definition simulates (print : bytes → jtoken → decoder → jres) (read : jtoken → decoder → result jerr (json * decoder)) : Prop :=
  ∀ dst t d out d', print dst t d = Ok (out, d') ↔ ∃ v b, read t d = Ok (v, d') ∧ canon v = Ok b ∧ out = dst ++ b.

Lemma array_simulates print read : simulates print read → ∀ fuel first dst d out d',
  array_loop print fuel first dst d = Ok (out, d') ↔
  ∃ l parts, read_elems read fuel d = Ok (l, d') ∧ canon_list l = Ok parts ∧ out = dst ++ joined first parts ++ [93].
Proof.
  intros Hs. induction fuel as [|fuel IH]; intros first dst d out d'; cbn [array_loop read_elems]; [naive_solver|].
  destruct (ReadToken d) as [t d1| |]; [|naive_solver..]. case_bool_decide as Ht.
  { split; [intros [= <- <-]; by exists [], []|]. intros (l & parts & [= <- <-] & [= <-] & ->). done. }
  split.
  - intros H. apply bind_Ok_inv in H as ([out1 d2] & Hv & H). apply Hs in Hv as (v & b & Hr & Hb & ->).
    apply IH in H as (l & parts & Hl & Hp & ->). exists (v :: l), (b :: parts). rewrite Hr. cbn. rewrite Hl. cbn. rewrite Hb. cbn. rewrite Hp.
    split_and!; [done|done|]. destruct first; by rewrite <-!app_assoc.
  - intros (l & parts & H & Hp & ->). apply bind_Ok_inv in H as ([v d2] & Hr & H). apply bind_Ok_inv in H as ([l' d3] & Hl & H).
    injection H as <- <-. cbn in Hp. apply bind_Ok_inv in Hp as (b & Hb & Hp). apply bind_Ok_inv in Hp as (parts' & Hp & E). injection E as <-.
    rewrite (proj2 (Hs _ t d1 _ d2)) by (exists v, b; done). cbn. apply IH. exists l', parts'. split_and!; [done|done|].
    destruct first; by rewrite <-!app_assoc.
Qed.

Lemma object_simulates print read : simulates print read → ∀ fuel ms d out d',
  object_loop print fuel ms d = Ok (out, d') ↔
  ∃ l parts, read_members read fuel d = Ok (l, d') ∧ canon_members l = Ok parts ∧ out = ms ++ parts.
Proof.
  intros Hs. induction fuel as [|fuel IH]; intros ms d out d'; cbn [object_loop read_members]; [naive_solver|].
  destruct (ReadToken d) as [t d1| |]; [|naive_solver..]. destruct t as [| | |n| | | |]; try naive_solver.
  2:{ split; [intros [= <- <-]; exists [], []; by rewrite app_nil_r|]. intros (l & parts & [= <- <-] & [= <-] & ->). by rewrite app_nil_r. }
  destruct (ReadToken d1) as [t d2| |]; [|naive_solver..]. split.
  - intros H. apply bind_Ok_inv in H as ([out1 d3] & Hv & H). apply Hs in Hv as (v & b & Hr & Hb & ->).
    apply IH in H as (l & parts & Hl & Hp & ->). exists ((n, v) :: l), (member_of n b :: parts). rewrite Hr. cbn. rewrite Hl. cbn.
    rewrite Hb. cbn. rewrite Hp. split_and!; [done|done|]. by rewrite member_of_eq, <-app_assoc.
  - intros (l & parts & H & Hp & ->). apply bind_Ok_inv in H as ([v d3] & Hr & H). apply bind_Ok_inv in H as ([l' d4] & Hl & H).
    injection H as <- <-. cbn in Hp. apply bind_Ok_inv in Hp as (b & Hb & Hp). apply bind_Ok_inv in Hp as (parts' & Hp & E). injection E as <-.
    rewrite (proj2 (Hs _ t d2 _ d3)) by (exists v, b; done). cbn. apply IH. exists l', parts'. split_and!; [done|done|].
    by rewrite member_of_eq, <-app_assoc.
Qed.

Lemma value_simulates lvl : simulates (canon_value lvl) (read_value lvl).
Proof.
  induction lvl as [|lvl IH]; intros dst t d out d'; destruct t as [|[]|l|s| | | |]; cbn [canon_value read_value];
    try (split; [by intros [= <- <-]; eexists _, _|by intros (v & b & [= <- <-] & [= <-] & ->)]);
    try (split; [done|naive_solver]).
  - rewrite appendNumber_app. split.
    + intros H. apply bind_Ok_inv in H as (x & H & E). apply bind_Ok_inv in H as (b & Hb & [= <-]). injection E as <- <-. by eexists _, b.
    + intros (v & b & [= <- <-] & Hb & ->). cbn in Hb. by rewrite Hb.
  - rewrite appendNumber_app. split.
    + intros H. apply bind_Ok_inv in H as (x & H & E). apply bind_Ok_inv in H as (b & Hb & [= <-]). injection E as <- <-. by eexists _, b.
    + intros (v & b & [= <- <-] & Hb & ->). cbn in Hb. by rewrite Hb.
  - split.
    + intros H. apply bind_Ok_inv in H as ([ms d1] & H & E). apply (object_simulates _ _ IH) in H as (l & parts & Hl & Hp & ->).
      injection E as <- <-. exists (JObj l), (canon_object parts). rewrite Hl, canon_obj, Hp. cbn [mbind result_bind].
      split_and!; [done|done|]. rewrite emit_joined. unfold canon_object. by rewrite <-!app_assoc.
    + intros (v & b & H & Hb & ->). apply bind_Ok_inv in H as ([l d1] & Hl & [= <- <-]). rewrite canon_obj in Hb.
      apply bind_Ok_inv in Hb as (parts & Hp & [= <-]).
      rewrite (proj2 (object_simulates _ _ IH _ [] d parts d1)) by (exists l, parts; done). cbn [mbind result_bind].
      rewrite emit_joined. unfold canon_object. by rewrite <-!app_assoc.
  - rewrite (array_simulates _ _ IH). split.
    + intros (l & parts & Hl & Hp & ->). exists (JArr l), ([91] ++ joined true parts ++ [93]). rewrite Hl, canon_arr, Hp.
      split_and!; [done|done|]. by rewrite <-!app_assoc.
    + intros (v & b & H & Hb & ->). apply bind_Ok_inv in H as ([l d1] & Hl & [= <- <-]). rewrite canon_arr in Hb.
      apply bind_Ok_inv in Hb as (parts & Hp & [= <-]). exists l, parts. split_and!; [done|done|]. by rewrite <-!app_assoc.
Qed.

(** The canonicalizer accepts the texts that read as a value of bounded depth with numbers in
    range, and returns the canonical text of the value. *)
Lemma Canonicalize_canon src out : Canonicalize_text src = Ok out ↔ ∃ v, read_text MaxDepth src = Ok v ∧ canon v = Ok out.
Proof.
  unfold Canonicalize_text, Append, canon_root, read_text. destruct (ReadToken _) as [t d| |]; [|naive_solver..]. split.
  - intros H. apply bind_Ok_inv in H as ([o d1] & Hv & H). apply value_simulates in Hv as (v & b & Hr & Hb & ->). exists v. rewrite Hr. cbn.
    destruct (ReadToken d1); try done. injection H as <-. done.
  - intros (v & H & Hb). apply bind_Ok_inv in H as ([v' d1] & Hr & H).
    assert (canon_value MaxDepth [] t d = Ok (out, d1)) as ->; [|cbn; by destruct (ReadToken d1)].
    apply value_simulates. destruct (ReadToken d1); try done. injection H as ->. by exists v, out.
Qed.

(** ** Fuel *)

Definition advances {A} (f : jtoken → decoder → result jerr (A * decoder)) : Prop :=
  ∀ t d v d', f t d = Ok (v, d') → (length (d_rest d') ≤ length (d_rest d))%nat.

Lemma read_elems_advances read : advances read → ∀ fuel d l d', read_elems read fuel d = Ok (l, d') → (length (d_rest d') ≤ length (d_rest d))%nat.
Proof.
  intros Hr. induction fuel as [|fuel IH]; intros d l d' H; cbn in H; [done|]. destruct (ReadToken d) as [t d1| |] eqn:E; [|done..].
  apply ReadToken_shrinks in E. case_bool_decide; [injection H as _ <-; lia|].
  apply bind_Ok_inv in H as ([v d2] & Hv & H). apply bind_Ok_inv in H as ([l' d3] & Hl & H). injection H as _ <-.
  apply Hr in Hv. apply IH in Hl. lia.
Qed.

Lemma read_members_advances read : advances read → ∀ fuel d l d', read_members read fuel d = Ok (l, d') → (length (d_rest d') ≤ length (d_rest d))%nat.
Proof.
  intros Hr. induction fuel as [|fuel IH]; intros d l d' H; cbn in H; [done|]. destruct (ReadToken d) as [t d1| |] eqn:E; [|done..].
  apply ReadToken_shrinks in E. destruct t; try done; [|injection H as _ <-; lia].
  destruct (ReadToken d1) as [t d2| |] eqn:E2; [|done..]. apply ReadToken_shrinks in E2.
  apply bind_Ok_inv in H as ([v d3] & Hv & H). apply bind_Ok_inv in H as ([l' d4] & Hl & H). injection H as _ <-.
  apply Hr in Hv. apply IH in Hl. lia.
Qed.

Lemma read_value_advances lvl : advances (read_value lvl).
Proof.
  induction lvl as [|lvl IH]; intros t d v d' H; destruct t; cbn [read_value] in H; try done; try (injection H as _ <-; done).
  - apply bind_Ok_inv in H as ([l d1] & Hl & [= _ <-]). by apply (read_members_advances _ IH) in Hl.
  - apply bind_Ok_inv in H as ([l d1] & Hl & [= _ <-]). by apply (read_elems_advances _ IH) in Hl.
Qed.

Lemma bind_not {E A B} (r : result E A) (f : A → result E B) (e : E) : r ≠ Err e → (∀ a, r = Ok a → f a ≠ Err e) → (r ≫= f) ≠ Err e.
Proof. destruct r as [a|x]; cbn; [auto|congruence]. Qed.

Lemma canon_value_fuel lvl : ∀ dst t d, canon_value lvl dst t d ≠ Err OutOfFuel.
Proof.
  assert (∀ lvl dst t d out d', canon_value lvl dst t d = Ok (out, d') → (length (d_rest d') ≤ length (d_rest d))%nat) as Hadv.
  { intros k dst t d out d' (v & b & Hr & _)%value_simulates. by apply read_value_advances in Hr. }
  assert (∀ dst l d, (dst ← appendNumber dst l; Ok (dst, d)) ≠ (Err OutOfFuel : jres)) as Hnum.
  { intros dst l d. apply bind_not; [|done]. unfold appendNumber. destruct (ParseFloat l) as [[]|]; try done. destruct (mag =? 0); [done|].
    destruct (shortest_digits mag). by destruct (_ && _). }
  induction lvl as [|lvl IH]; intros dst t d; destruct t as [|[]| | | | | |]; cbn [canon_value]; try done; try apply Hnum.
  - apply bind_not; [|by intros [ms d1] _]. generalize (@nil canon_member).
    assert (length (d_rest d) < S (length (d_rest d)))%nat as Hf by lia. revert Hf. generalize (S (length (d_rest d))) as fuel. intros fuel. revert d.
    induction fuel as [|fuel IHf]; intros d Hf ms; [lia|]. cbn [object_loop].
    destruct (ReadToken d) as [t d1| |] eqn:E; [|done..]. apply ReadToken_shrinks in E. destruct t; try done.
    destruct (ReadToken d1) as [t d2| |] eqn:E2; [|done..]. apply ReadToken_shrinks in E2.
    apply bind_not; [apply IH|]. intros [out d3] Hv. apply Hadv in Hv. apply IHf. lia.
  - assert (length (d_rest d) < S (length (d_rest d)))%nat as Hf by lia. revert Hf. generalize (S (length (d_rest d))) as fuel.
    generalize (dst ++ [91]) as out. generalize true as first. intros first out fuel. revert first out d.
    induction fuel as [|fuel IHf]; intros first out d Hf; [lia|]. cbn [array_loop].
    destruct (ReadToken d) as [t d1| |] eqn:E; [|done..]. apply ReadToken_shrinks in E. case_bool_decide; [done|].
    apply bind_not; [apply IH|]. intros [out' d3] Hv. apply Hadv in Hv. apply IHf. lia.
Qed.

Lemma Canonicalize_fuel src : Canonicalize_text src ≠ Err OutOfFuel.
Proof.
  unfold Canonicalize_text, Append, canon_root. destruct (ReadToken _) as [t d| |]; [|done..].
  apply bind_not; [apply canon_value_fuel|]. intros [out d1] _. by destruct (ReadToken d1).
Qed.

(** ** What is read *)

(** Values with valid strings, distinct names, and at most [lvl] levels of containers. *)
Fixpoint good (lvl : nat) (v : json) : Prop :=
  match v with
  | JStr s => valid_utf8 s
  | JArr l => match lvl with O => False | S lvl' => Forall (good lvl') l end
  | JObj ms => match lvl with O => False | S lvl' => NoDup ms.*1 ∧ Forall (λ m, valid_utf8 m.1 ∧ good lvl' m.2) ms end
  | _ => True
  end.

Lemma ascii_valid c : 0 ≤ c < 128 → valid_utf8 [c].
Proof.
  intros Hc. assert (scalar c) as Hs by (split; [lia|]; unfold is_surrogate; lia).
  destruct (write_rune_cases c Hs) as [[_ E]|[[? _]|[[? _]|[? _]]]]; [|lia..]. exists [c]. unfold utf8. cbn. rewrite E. split; [by constructor|done].
Qed.

Lemma hex_value_range c n : hex_value c = Some n → 0 ≤ n < 16.
Proof.
  unfold hex_value, is_digit. destruct ((48 <=? c) && (c <=? 57)) eqn:E1; [intros [= <-]; lia|].
  destruct ((97 <=? c) && (c <=? 102)) eqn:E2; [intros [= <-]; lia|].
  destruct ((65 <=? c) && (c <=? 70)) eqn:E3; [intros [= <-]; lia|done].
Qed.

Lemma hex_quad_range s r : hex_quad s = Some r → 0 ≤ r < 0x10000.
Proof.
  unfold hex_quad. destruct (mapM hex_value (take 4 s)) as [l|] eqn:E; [|done]. apply mapM_Some in E.
  destruct l as [|a [|b [|c [|d [|]]]]]; try done. intros [= <-].
  assert (Forall (λ n, 0 ≤ n < 16) [a; b; c; d]) as H.
  { eapply Forall2_Forall_r; [exact E|]. apply Forall_true. intros x n. apply hex_value_range. }
  rewrite !Forall_cons in H. lia.
Qed.

Lemma unescape_valid s w n : unescape s = Some (w, n) → valid_utf8 w.
Proof.
  unfold unescape. destruct s as [|c s]; [done|].
  destruct ((c =? 34) || (c =? 92) || (c =? 47)) eqn:E; [intros [= <- _]; apply ascii_valid; lia|].
  destruct (c =? 98); [intros [= <- _]; apply ascii_valid; lia|]. destruct (c =? 102); [intros [= <- _]; apply ascii_valid; lia|].
  destruct (c =? 110); [intros [= <- _]; apply ascii_valid; lia|]. destruct (c =? 114); [intros [= <- _]; apply ascii_valid; lia|].
  destruct (c =? 116); [intros [= <- _]; apply ascii_valid; lia|]. destruct (c =? 117); [|done].
  destruct (hex_quad s) as [r|] eqn:Hr; [|done]. apply hex_quad_range in Hr. cbn [mbind option_bind].
  assert (∀ q, scalar q → valid_utf8 (write_rune q)) as Hw by (intros q Hq; rewrite <-(app_nil_r (write_rune q)); by apply valid_cons, valid_nil).
  destruct (is_surrogate r) eqn:Hs; [|intros [= <- _]; apply Hw; split; [lia|done]].
  destruct (has_prefix _ _); [|done]. destruct (hex_quad (drop 6 s)) as [low|]; [|done]. cbn. unfold decode_pair.
  destruct (_ && _) eqn:Hp; [|done]. cbn. intros [= <- _]. apply Hw. split; [lia|]. unfold is_surrogate. lia.
Qed.

Lemma valid_app a b : valid_utf8 a → valid_utf8 b → valid_utf8 (a ++ b).
Proof.
  intros (rs & Hr & ->) (rs' & Hr' & ->). exists (rs ++ rs'). unfold utf8. rewrite bind_app. split; [by apply Forall_app|done].
Qed.

Lemma string_rest_valid s : ∀ k t r, string_rest k s = Some (t, r) → valid_utf8 t.
Proof.
  induction s as [|c s IH]; intros k t r H; [done|]. cbn [string_rest] in H. destruct k; [|by eapply IH].
  destruct (c =? 34); [injection H as <- _; apply valid_nil|]. destruct (c =? 92).
  - destruct (unescape s) as [[w n]|] eqn:Hu; [|done]. cbn in H. destruct (string_rest n s) as [[t' r']|] eqn:E; [|done].
    injection H as <- _. apply valid_app; [by eapply unescape_valid|by eapply IH].
  - destruct (Z.ltb_spec c 32); [done|]. destruct (decode_rune (c :: s)) as [[q n]|] eqn:Hd; [|done]. cbn [mbind option_bind] in H.
    destruct (string_rest (n - 1) s) as [[t' r']|] eqn:E; [|done]. injection H as <- _.
    apply decode_rune_spec in Hd as (Hq & -> & Ew & _); [|lia]. rewrite Ew, take_app_length.
    apply valid_cons; [done|by eapply IH].
Qed.

Lemma scan_token_valid s n r : scan_token s = Some (TStr n, r) → valid_utf8 n.
Proof.
  destruct s as [|c s]; [done|]. cbn [scan_token]. repeat (destruct (c =? _); [done|]). destruct (c =? 34).
  { destruct (string_rest 0 s) as [[t' r']|] eqn:E; [|done]. cbn. intros [= <- _]. by eapply string_rest_valid. }
  destruct (_ || _); [by destruct (scan_number (c :: s)) as [[]|]|].
  unfold scan_literal. by repeat (destruct (has_prefix _ _); [done|]).
Qed.

Lemma ReadToken_valid d n d' : ReadToken d = Token (TStr n) d' → valid_utf8 n.
Proof. intros [_ [?|[?|[s Hs]]]]%ReadToken_scan; [done..|]. by eapply scan_token_valid. Qed.
