(* ===== verification/CanonjsonSpec.v ===== *)
(** * The canonical form is canonical

    The canonical text of a value reads back as the value in normal form: members sorted,
    numbers in their shortest digits. So canonicalization is idempotent, and two texts have
    the same canonical form exactly when their values have the same normal form, which
    does not depend on the order of members. *)
From S2P Require Import Prelude GoStrings Utf8 Float64 Json Canonjson CanonjsonRead.
#[local] Arguments appendString : simpl never.

(** ** Where the decoder stands *)

Lemma ReadToken_array d e fs t d' : d_frames d = InArray e :: fs → ReadToken d = Token t d' →
  (t = TEndArray ∧ d_frames d' = fs) ∨ (t ≠ TEndArray ∧ d_frames d' = opened t (InArray false :: fs)).
Proof.
  intros Hf. unfold ReadToken. rewrite Hf. set (s := skip_ws _). destruct (eat 93 s); [intros [= <- <-]; by left|].
  destruct e; [intros (_ & H & ? & _)%value_token_spec; by right|]. intros (s' & _ & (_ & H & ? & _)%value_token_spec)%after_Token. by right.
Qed.

Lemma ReadToken_name d e names fs t d' : d_frames d = InObject e names false :: fs → ReadToken d = Token t d' →
  (t = TEndObject ∧ d_frames d' = fs) ∨ ∃ n, t = TStr n ∧ n ∉ names ∧ d_frames d' = InObject false (n :: names) true :: fs.
Proof.
  intros Hf. unfold ReadToken. rewrite Hf. set (s := skip_ws _). destruct (eat 125 s); [intros [= <- <-]; by left|].
  destruct e; [intros (n & ? & ? & _ & ?)%name_token_spec; right; by exists n|].
  intros (s' & _ & (n & ? & ? & _ & ?)%name_token_spec)%after_Token. right. by exists n.
Qed.

Lemma ReadToken_member d e names fs t d' : d_frames d = InObject e names true :: fs → ReadToken d = Token t d' →
  d_frames d' = opened t (InObject false names false :: fs).
Proof.
  intros Hf. unfold ReadToken. rewrite Hf. by intros (s' & _ & (_ & H & _)%value_token_spec)%after_Token.
Qed.

Definition token_valid (t : jtoken) : Prop := match t with TStr s => valid_utf8 s | _ => True end.
Lemma ReadToken_token_valid d t d' : ReadToken d = Token t d' → token_valid t.
Proof. intros H. destruct t; try done. by eapply ReadToken_valid. Qed.

Definition reads_good (lvl : nat) (read : jtoken → decoder → result jerr (json * decoder)) : Prop :=
  ∀ t d v d' fs, read t d = Ok (v, d') → d_frames d = opened t fs → token_valid t → d_frames d' = fs ∧ good lvl v.

Lemma read_elems_good lvl read : reads_good lvl read → ∀ fuel d l d' e fs, read_elems read fuel d = Ok (l, d') →
  d_frames d = InArray e :: fs → d_frames d' = fs ∧ Forall (good lvl) l.
Proof.
  intros Hr. induction fuel as [|fuel IH]; intros d l d' e fs H Hf; cbn in H; [done|].
  destruct (ReadToken d) as [t d1| |] eqn:E; [|done..]. pose proof (ReadToken_token_valid _ _ _ E) as Hv.
  destruct (ReadToken_array _ _ _ _ _ Hf E) as [[-> H1]|[Ht H1]].
  { rewrite bool_decide_true in H by done. by injection H as <- <-. }
  rewrite bool_decide_false in H by done. apply bind_Ok_inv in H as ([v d2] & H2 & H). apply bind_Ok_inv in H as ([l' d3] & H3 & H).
  injection H as <- <-. destruct (Hr _ _ _ _ _ H2 H1 Hv) as [Hf2 Hg]. destruct (IH _ _ _ _ _ H3 Hf2) as [? ?]. split; [done|by constructor].
Qed.

Lemma read_members_good lvl read : reads_good lvl read → ∀ fuel d ms d' e names fs, read_members read fuel d = Ok (ms, d') →
  d_frames d = InObject e names false :: fs →
  d_frames d' = fs ∧ NoDup ms.*1 ∧ (∀ n, n ∈ ms.*1 → n ∉ names) ∧ Forall (λ m, valid_utf8 m.1 ∧ good lvl m.2) ms.
Proof.
  intros Hr. induction fuel as [|fuel IH]; intros d ms d' e names fs H Hf; cbn in H; [done|].
  destruct (ReadToken d) as [t d1| |] eqn:E; [|done..].
  destruct (ReadToken_name _ _ _ _ _ _ Hf E) as [[-> H1]|(n & -> & Hn & H1)].
  { injection H as <- <-. split_and!; [done|constructor|set_solver|constructor]. }
  apply ReadToken_valid in E. destruct (ReadToken d1) as [t d2| |] eqn:E2; [|done..].
  pose proof (ReadToken_token_valid _ _ _ E2) as Hv. apply (ReadToken_member _ _ _ _ _ _ H1) in E2.
  apply bind_Ok_inv in H as ([v d3] & H3 & H). apply bind_Ok_inv in H as ([l' d4] & H4 & H). injection H as <- <-.
  destruct (Hr _ _ _ _ _ H3 E2 Hv) as [Hf3 Hg]. destruct (IH _ _ _ _ _ _ H4 Hf3) as (? & Hd & Hnn & Hall).
  split_and!; [done| | |by constructor].
  - cbn. constructor; [|done]. intros Hin. apply (Hnn _ Hin). by left.
  - cbn. intros m [->|Hm]%elem_of_cons; [done|]. apply Hnn in Hm. set_solver.
Qed.

Lemma read_value_good lvl : reads_good lvl (read_value lvl).
Proof.
  induction lvl as [|lvl IH]; intros t d v d' fs H Hf Hv; destruct t; cbn [read_value] in H; try done;
    try (injection H as <- <-; by split).
  - apply bind_Ok_inv in H as ([ms d1] & H & [= <- <-]). cbn in Hf.
    destruct (read_members_good _ _ IH _ _ _ _ _ _ _ H Hf) as (? & ? & _ & ?). by split.
  - apply bind_Ok_inv in H as ([l d1] & H & [= <- <-]). cbn in Hf. by destruct (read_elems_good _ _ IH _ _ _ _ _ _ H Hf).
Qed.

Lemma read_text_good lvl src v : read_text lvl src = Ok v → good lvl v.
Proof.
  unfold read_text. destruct (ReadToken _) as [t d| |] eqn:E; [|done..]. intros H. apply bind_Ok_inv in H as ([v' d1] & Hr & H).
  assert (v' = v) as <- by (destruct (ReadToken d1); try done; by injection H as ->).
  pose proof (ReadToken_token_valid _ _ _ E) as Hv. unfold ReadToken in E. cbn [d_frames] in E. case_bool_decide; [done|].
  apply value_token_spec in E as (_ & Hf & _). by destruct (read_value_good lvl _ _ _ _ [] Hr Hf Hv).
Qed.

(** ** Numbers *)

(** The text of a number as it is printed. *)
Definition number_text (neg : bool) (x : Z) : bytes :=
  if x =? 0 then [48]
  else let '(ds, dp) := shortest_digits x in
       let sign := if neg then [45] else [] in
       if (fixed_from <=? x) && (x <? fixed_to) then sign ++ fmt_f ds dp else appendExponent [] (sign ++ fmt_e ds (dp - 1)).

Lemma appendNumber_text l b : appendNumber [] l = Ok b ↔ ∃ neg x, ParseFloat l = Some (FFin neg x) ∧ b = number_text neg x.
Proof.
  unfold appendNumber, number_text. destruct (ParseFloat l) as [[| |neg x]|].
  1,2,4: split; [done|by intros (? & ? & ? & _)].
  split.
  - intros H. exists neg, x. split; [done|]. destruct (x =? 0); [by injection H as <-|]. destruct (shortest_digits x). by destruct (_ && _); injection H as <-.
  - intros (? & ? & [= <- <-] & ->). destruct (x =? 0); [done|]. destruct (shortest_digits x). by destruct (_ && _).
Qed.

Lemma strip_zeros_itoa n : 0 ≤ n → strip_zeros (itoa n) = itoa n.
Proof.
  intros Hn. destruct (decide (n = 0)) as [->|Hne]; [done|]. pose proof (itoa_head n ltac:(lia)) as Hh.
  destruct (itoa n) as [|c ds]; [done|]. cbn in *. destruct (Z.eqb_spec c 48) as [->|]; [done|]. done.
Qed.

Lemma digits_no_e ds : digits ds → forallb (λ c, negb (c =? 101)) ds = true.
Proof.
  unfold digits, all_digits. rewrite !forallb_forall. intros H c Hc. apply H, is_digit_spec in Hc. rewrite (proj2 (Z.eqb_neq c 101)) by lia. done.
Qed.

(** The exponent is printed without leading zeros. *)
Lemma appendExponent_spec (sign : bytes) ds x : ds ≠ [] → digits ds →
  appendExponent [] (sign ++ fmt_e ds x) =
  sign ++ take 1 ds ++ (if (1 <? length ds)%nat then 46 :: drop 1 ds else []) ++ 101 :: (if x <? 0 then 45 else 43) :: itoa (Z.abs x).
Proof.
  intros Hne Hd. unfold appendExponent, fmt_e. destruct (itoa_spec (Z.abs x) ltac:(lia)) as (Hn & Hid & _).
  set (es := if Z.abs x <? 10 then 48 :: itoa (Z.abs x) else itoa (Z.abs x)).
  set (frac := if (1 <? length ds)%nat then 46 :: drop 1 ds else []). set (sg := if x <? 0 then 45 else 43).
  assert (digits es ∧ strip_zeros es = itoa (Z.abs x)) as [He Hs].
  { unfold es. destruct (_ <? 10); [|by split; [|apply strip_zeros_itoa; lia]]. split; [done|]. cbn.
    rewrite bool_decide_true by done. apply strip_zeros_itoa. lia. }
  assert (sg ≠ 101) as Hsg by (unfold sg; by destruct (x <? 0)).
  replace (reverse (sign ++ take 1 ds ++ frac ++ 101 :: sg :: es)) with (reverse (sg :: es) ++ 101 :: reverse (sign ++ take 1 ds ++ frac)).
  2:{ rewrite !app_assoc, (reverse_app _ (101 :: sg :: es)), (reverse_cons (sg :: es) 101), <-app_assoc. by rewrite <-!app_assoc. }
  rewrite span_stop; [|..|done].
  - rewrite reverse_cons, !reverse_involutive. change (take 1 (sg :: es)) with [sg]. change (drop 1 (sg :: es)) with es. cbn [app]. rewrite Hs, <-!app_assoc. done.
  - apply forallb_forall. intros c Hc%list_elem_of_In. rewrite elem_of_reverse, elem_of_cons in Hc.
    destruct Hc as [->|Hc]; [by rewrite (proj2 (Z.eqb_neq sg 101))|]. apply digits_no_e in He. rewrite forallb_forall in He. by apply He, list_elem_of_In.
Qed.

(** Digits a JSON number may have before the point. *)
Definition json_int (ip : bytes) : Prop := ip = [48] ∨ head ip ≠ Some 48.

(** A number ends before these. *)
Definition ends_number (r : bytes) : Prop := match r with [] => True | c :: _ => c = 44 ∨ c = 93 ∨ c = 125 end.

Lemma ends_stops r : ends_number r → stops is_digit r.
Proof. destruct r as [|c r]; [done|]. cbn. by intros [->|[->| ->]]. Qed.

Lemma eat_ne c s : head s ≠ Some c → eat c s = None.
Proof. destruct s as [|d s]; [done|]. cbn. intros H. destruct (Z.eqb_spec d c) as [->|]; [done|done]. Qed.

Lemma some_digits_stop pre ds r : ds ≠ [] → digits ds → stops is_digit r → some_digits pre (ds ++ r) = Some (pre ++ ds, r).
Proof. intros Hne Hd Hr. unfold some_digits. rewrite span_stop by done. by rewrite bool_decide_false. Qed.

Lemma scan_number_numeral neg ip fp ex r : numeral_ok ip fp ex → json_int ip → ends_number r →
  scan_number (numeral neg ip fp ex ++ r) = Some (numeral neg ip fp ex, r).
Proof.
  intros (Hip & Hd & Hf & He) Hj Hr. pose proof (ends_stops r Hr) as Hs. unfold numeral, scan_number.
  set (frac := if bool_decide (fp = []) then [] else 46 :: fp).
  set (expo := match ex with None => [] | Some (eneg, ds) => 101 :: (if (eneg : bool) then 45 else 43) :: ds end).
  set (sg := if neg then [45] else []). rewrite <-!app_assoc.
  assert (number_sign (sg ++ ip ++ frac ++ expo ++ r) = (sg, ip ++ frac ++ expo ++ r)) as ->.
  { unfold number_sign, sg. destruct neg; [done|]. cbn [app]. rewrite eat_ne; [done|]. destruct ip as [|c ip]; [done|]. cbn in *.
    apply andb_true_iff in Hd as [Hc%is_digit_spec _]. intros [= ->]. lia. }
  assert (stops is_digit (frac ++ expo ++ r)) as Hst.
  { unfold frac, expo. case_bool_decide; [|done]. by destruct ex as [[]|]. }
  assert (number_int (ip ++ frac ++ expo ++ r) = (ip, frac ++ expo ++ r)) as ->.
  { unfold number_int. destruct Hj as [->|Hj]; [done|]. rewrite eat_ne; [|by destruct ip]. by apply span_stop. }
  rewrite bool_decide_false by done.
  assert (number_frac (frac ++ expo ++ r) = Some (frac, expo ++ r)) as ->.
  { unfold number_frac, frac. case_bool_decide as Hfp.
    - cbn [app]. rewrite eat_ne; [done|]. unfold expo. destruct ex as [[]|]; [done|]. destruct r as [|c r]; [done|]. cbn. by destruct Hr as [->|[->| ->]].
    - cbn [app eat Z.eqb Pos.eqb]. apply some_digits_stop; [done|done|]. unfold expo. by destruct ex as [[]|]. }
  cbn [mbind option_bind].
  assert (number_exp (expo ++ r) = Some (expo, r)) as ->.
  { unfold number_exp, expo. destruct ex as [[eneg ds]|].
    - destruct He as [He1 He2]. cbn [app]. replace ((101 =? 101) || (101 =? 69)) with true by done.
      destruct eneg; cbn [Z.eqb Pos.eqb orb]; by apply (some_digits_stop [101; _]).
    - cbn [app]. destruct r as [|c r]; [done|]. cbn in Hr. by destruct Hr as [->|[->| ->]]. }
  cbn [mbind option_bind]. done.
Qed.

(** What is printed for a number is read as one token, and prints as itself. *)
Lemma number_text_spec neg x : representable x →
  (∀ r, ends_number r → scan_number (number_text neg x ++ r) = Some (number_text neg x, r)) ∧
  ∃ neg', ParseFloat (number_text neg x) = Some (FFin neg' x) ∧ number_text neg' x = number_text neg x ∧ (x = 0 ∨ neg' = neg).
Proof.
  intros Hx. destruct (Z.eq_dec x 0) as [->|Hz].
  { split; [|exists false; split_and!; [vm_compute; reflexivity|done|by left]]. intros r Hr. change (number_text neg 0) with (numeral false [48] [] None).
    apply scan_number_numeral; [by split_and!|by left|done]. }
  assert (0 < x) as Hpos by (destruct Hx; lia). destruct (shortest_digits x) as [ds dp] eqn:Hs.
  pose proof Hs as Hs'. apply shortest_digits_spec in Hs' as (Hne & Hdig & Hv & Hdp & Hh); [|done|done].
  assert (∃ ip fp ex, number_text neg x = numeral neg ip fp ex ∧ numeral_ok ip fp ex ∧ json_int ip ∧
    decimal_units (dec_value (ip ++ fp)) (exponent ex - Z.of_nat (length fp)) = x) as (ip & fp & ex & Et & Hok & Hj & Hu).
  { unfold number_text. rewrite (proj2 (Z.eqb_neq x 0)), Hs by done. destruct (_ && _).
    - destruct (fmt_f_lays_out ds dp Hne Hdig) as (ip & fp & ex & Heq & Hok & Hi & He). exists ip, fp, ex.
      split_and!; [apply Heq|apply Hok..| |by rewrite He]. destruct Hi as [->|Hi]; [by left|right; by rewrite Hi].
    - rewrite appendExponent_spec by done. destruct (itoa_spec (Z.abs (dp - 1)) ltac:(lia)) as (Hn & Hid & Hiv).
      exists (take 1 ds), (drop 1 ds), (Some (dp - 1 <? 0, itoa (Z.abs (dp - 1)))). split_and!.
      + unfold numeral. f_equal. by destruct ds as [|c [|c' ds]]; [done|..]; cbn; destruct (dp - 1 <? 0).
      + destruct ds as [|c ds]; [done|]. change (c :: ds) with ([c] ++ ds) in Hdig. apply digits_app in Hdig as [Hc Hd]. by split_and!.
      + right. by destruct ds.
      + rewrite take_drop. cbn [exponent]. rewrite exp_value_dec by (done || lia). rewrite Hiv, length_drop, <-Hv at 1. f_equal.
        destruct ds as [|c ds]; [done|]. cbn [length]. destruct (Z.ltb_spec (dp - 1) 0); cbn [signed]; lia. }
  split.
  - intros r Hr. rewrite Et. by apply scan_number_numeral.
  - exists neg. split; [|by split; [|right]]. rewrite Et, ParseFloat_numeral, Hu by done. cbv zeta.
    destruct Hx as [[_ Hx] _]. by rewrite (proj2 (Z.leb_gt _ _)).
Qed.

(** The text of a number determines it. *)
Lemma number_text_inj neg x neg' x' : representable x → representable x' → number_text neg x = number_text neg' x' →
  feqb (FFin neg x) (FFin neg' x') = true.
Proof.
  intros Hx Hx' E. destruct (number_text_spec neg x Hx) as [_ (n & Hn & _ & H)]. destruct (number_text_spec neg' x' Hx') as [_ (n' & Hn' & _ & H')].
  rewrite E, Hn' in Hn. injection Hn as -> ->. destruct H as [->| ->]; [by destruct neg, neg'|]. destruct H' as [->| ->]; [by destruct neg, neg'|].
  apply Z.eqb_refl.
Qed.

Lemma appendNumber_spec l b : appendNumber [] l = Ok b →
  (∀ r, ends_number r → scan_number (b ++ r) = Some (b, r)) ∧ appendNumber [] b = Ok b.
Proof.
  intros (neg & x & Hp & ->)%appendNumber_text. apply ParseFloat_finite in Hp. destruct (number_text_spec neg x Hp) as [H1 (n & Hn & E & _)].
  split; [done|]. apply appendNumber_text. by exists n, x.
Qed.

(** ** Strings *)

Lemma string_rest_skip w s : string_rest (length w) (w ++ s) = string_rest 0 s.
Proof. induction w as [|c w IH]; done. Qed.

Definition prepend (w : bytes) (o : option (bytes * bytes)) : option (bytes * bytes) := '(t, r) ← o; Some (w ++ t, r).

(** The literal of an ASCII character is read as the character. *)
Lemma string_ascii c s : 0 ≤ c < 128 → string_rest 0 (string_byte c ++ s) = prepend [c] (string_rest 0 s).
Proof.
  intros Hc. destruct (Z_lt_ge_dec c 32) as [Hlt|Hge].
  - assert (c ∈ seqZ 0 32) as Hin by (apply elem_of_seqZ; lia).
    repeat (apply elem_of_cons in Hin as [->|Hin]; [reflexivity|]). by apply elem_of_nil in Hin.
  - unfold string_byte. destruct ((c =? 34) || (c =? 92)) eqn:E.
    + assert (c = 34 ∨ c = 92) as [-> | ->] by lia; reflexivity.
    + rewrite (proj2 (Z.leb_le 32 c)) by lia. apply orb_false_iff in E as [E1 E2]. cbn [app string_rest]. rewrite E1, E2, (proj2 (Z.ltb_ge c 32)) by lia.
      cbn [decode_rune]. rewrite (proj2 (Z.ltb_lt c 0x80)) by lia. done.
Qed.

Lemma string_rune r s : scalar r → string_rest 0 ((write_rune r ≫= string_byte) ++ s) = prepend (write_rune r) (string_rest 0 s).
Proof.
  intros Hs. destruct (Z_lt_ge_dec r 0x80) as [Hlt|Hge].
  { destruct (write_rune_cases r Hs) as [[Hr ->]|[[? _]|[[? _]|[? _]]]]; [|lia..]. cbn. rewrite app_nil_r. by apply string_ascii. }
  assert (Forall (λ c, 0x80 ≤ c) (write_rune r)) as Hb.
  { pose proof (Z.mod_pos_bound r 64 ltac:(lia)). pose proof (Z.mod_pos_bound (r / 64) 64 ltac:(lia)).
    pose proof (Z.mod_pos_bound (r / 4096) 64 ltac:(lia)).
    destruct (write_rune_cases r Hs) as [[? _]|[[? ->]|[[? ->]|[? ->]]]]; [lia|..]; repeat constructor;
      try lia; (transitivity (0x80 + 0); [lia|]; apply Z.add_le_mono; [lia|]; apply Z.div_pos; lia). }
  assert ((write_rune r ≫= string_byte) = write_rune r) as ->.
  { clear -Hb. induction Hb as [|c w Hc _ IH]; [done|]. cbn. rewrite IH. unfold string_byte.
    by rewrite (proj2 (Z.eqb_neq c 34)), (proj2 (Z.eqb_neq c 92)), (proj2 (Z.leb_le 32 c)) by lia. }
  pose proof (decode_write r s Hs) as Hd. pose proof (write_rune_ne r Hs). destruct (write_rune r) as [|c w] eqn:Ew; [done|].
  apply Forall_cons in Hb as [Hc _]. cbn [app string_rest] in *.
  rewrite (proj2 (Z.eqb_neq c 34)), (proj2 (Z.eqb_neq c 92)), (proj2 (Z.ltb_ge c 32)), Hd by lia. cbn [mbind option_bind length].
  rewrite Nat.sub_1_r. cbn [Nat.pred]. rewrite string_rest_skip. change (c :: w ++ s) with ((c :: w) ++ s).
  rewrite (take_app_length (c :: w)). done.
Qed.

Lemma string_utf8 s r : valid_utf8 s → string_rest 0 ((s ≫= string_byte) ++ 34 :: r) = Some (s, r).
Proof.
  intros (rs & Hrs & ->). induction Hrs as [|q rs Hq _ IH]; [done|]. unfold utf8 in *. cbn. rewrite bind_app, <-app_assoc, string_rune by done.
  by rewrite IH.
Qed.

Lemma scan_string s r : valid_utf8 s → scan_token (appendString [] s ++ r) = Some (TStr s, r).
Proof.
  intros Hs. unfold appendString. cbn [app scan_token Z.eqb Pos.eqb]. rewrite <-app_assoc. cbn [app]. by rewrite string_utf8.
Qed.

(** ** Normal form *)

Definition name_leb {A} (a b : bytes * A) : bool := bytes_leb (utf16_key a.1) (utf16_key b.1).

Fixpoint norm (v : json) : json :=
  match v with
  | JNum l => JNum match appendNumber [] l with Ok b => b | Err _ => l end
  | JArr l => JArr (norm <$> l)
  | JObj ms => JObj (stable_sort name_leb ((λ m : bytes * json, (m.1, norm m.2)) <$> ms))
  | v => v
  end.

(** Sorting related lists by keys that agree. *)
Lemma insert_sorted_Forall2 {A B} (R : A → B → Prop) (la : A → A → bool) (lb : B → B → bool) x y l l' :
  (∀ a b a' b', R a b → R a' b' → la a a' = lb b b') → R x y → Forall2 R l l' →
  Forall2 R (insert_sorted la x l) (insert_sorted lb y l').
Proof.
  intros HR Hxy. induction 1 as [|a b l l' Hab Hl IH]; cbn; [by constructor|]. rewrite (HR _ _ _ _ Hxy Hab).
  destruct (lb y b); by repeat constructor.
Qed.
Lemma stable_sort_Forall2 {A B} (R : A → B → Prop) (la : A → A → bool) (lb : B → B → bool) l l' :
  (∀ a b a' b', R a b → R a' b' → la a a' = lb b b') → Forall2 R l l' → Forall2 R (stable_sort la l) (stable_sort lb l').
Proof. intros HR. induction 1 as [|a b l l' Hab _ IH]; cbn; [constructor|]. by apply insert_sorted_Forall2. Qed.

Lemma stable_sort_fmap {A B} (f : A → B) (la : A → A → bool) (lb : B → B → bool) l :
  (∀ a a', la a a' = lb (f a) (f a')) → stable_sort lb (f <$> l) = f <$> stable_sort la l.
Proof.
  intros H. induction l as [|x l IH]; [done|].
  change (insert_sorted lb (f x) (stable_sort lb (f <$> l)) = f <$> insert_sorted la x (stable_sort la l)).
  rewrite IH. generalize (stable_sort la l). clear IH. intros k.
  induction k as [|y k IH]; [done|]. cbn. rewrite <-H. destruct (la x y); [done|]. cbn. by rewrite IH.
Qed.

Lemma name_leb_total {A} (a b : bytes * A) : name_leb a b = true ∨ name_leb b a = true.
Proof. apply (total bytes_le). Qed.
Lemma name_leb_trans {A} (a b c : bytes * A) : name_leb a b = true → name_leb b c = true → name_leb a c = true.
Proof. apply (transitivity (R := bytes_le)). Qed.

Lemma sort_members_idem {A} (ms : list (bytes * A)) : stable_sort name_leb (stable_sort name_leb ms) = stable_sort name_leb ms.
Proof. apply stable_sort_sorted_id,  stable_sort_sorted; [apply name_leb_total|apply name_leb_trans]. Qed.

Lemma sort_members_perm {A} (ms ms' : list (bytes * A)) : NoDup ms.*1 → Forall (λ m, valid_utf8 m.1) ms → ms ≡ₚ ms' →
  stable_sort name_leb ms = stable_sort name_leb ms'.
Proof.
  intros Hn Hv Hp. apply (StronglySorted_unique_strong (λ a b, name_leb a b = true)).
  - intros x y Hx Hy H1 H2. rewrite stable_sort_perm in Hx, Hy. rewrite <-Hp in Hy. rewrite Forall_forall in Hv.
    assert (x.1 = y.1) as E by (apply utf16_key_inj; [by apply Hv|by apply Hv|by apply (anti_symm bytes_le)]).
    apply list_elem_of_lookup in Hx as [i Hi], Hy as [j Hj].
    assert (i = j) as -> by (apply (NoDup_lookup ms.*1 i j x.1); [done|rewrite list_lookup_fmap, Hi; done|rewrite list_lookup_fmap, Hj, E; done]).
    congruence.
  - apply stable_sort_sorted; [apply name_leb_total|apply name_leb_trans].
  - apply stable_sort_sorted; [apply name_leb_total|apply name_leb_trans].
  - by rewrite !stable_sort_perm.
Qed.

(** ** Reading what is printed *)

Definition value_reads (lvl : nat) (v : json) (b : bytes) : Prop := ∀ r fs, ends_number r →
  ∃ t d, value_token (b ++ r) fs = Token t d ∧ read_value lvl t d = Ok (norm v, mkDecoder r fs).

Lemma value_token_start s fs t d : value_token s fs = Token t d → skip_ws s = s ∧ eat 93 s = None ∧ eat 125 s = None.
Proof.
  intros (Hs & _ & Ha & Ho)%value_token_spec. destruct s as [|c s]; [done|].
  assert (c ≠ 93) as H1 by (intros ->; cbn in Hs; congruence). assert (c ≠ 125) as H2 by (intros ->; cbn in Hs; congruence).
  assert (is_ws c = false) as Hw.
  { destruct (is_ws c) eqn:E; [|done]. unfold is_ws in E.
    assert (c = 32 ∨ c = 9 ∨ c = 10 ∨ c = 13) as [-> |[-> |[-> | ->]]] by lia; cbn in Hs; done. }
  unfold skip_ws. cbn. rewrite Hw. rewrite (proj2 (Z.eqb_neq c 93)), (proj2 (Z.eqb_neq c 125)) by done. done.
Qed.

Lemma joined_ends parts c r : c = 93 ∨ c = 125 → ends_number (joined false parts ++ c :: r).
Proof. intros Hc. destruct parts; cbn; [tauto|by left]. Qed.

Lemma elems_read lvl l parts : Forall2 (value_reads lvl) l parts → ∀ fuel first r fs, (length l < fuel)%nat →
  read_elems (read_value lvl) fuel (mkDecoder (joined first parts ++ 93 :: r) (InArray first :: fs)) = Ok (norm <$> l, mkDecoder r fs).
Proof.
  induction 1 as [|v b l parts Hv _ IH]; intros fuel first r fs Hf; (destruct fuel as [|fuel]; [lia|]); [done|]. cbn in Hf.
  destruct (Hv (joined false parts ++ 93 :: r) (InArray false :: fs)) as (t & d & Ht & Hr); [apply joined_ends; auto|].
  assert (ReadToken (mkDecoder (joined first (b :: parts) ++ 93 :: r) (InArray first :: fs)) = Token t d) as E.
  { destruct (value_token_start _ _ _ _ Ht) as (Hw & He & _). cbn [joined]. rewrite <-!app_assoc. unfold ReadToken. cbn [d_rest d_frames].
    destruct first; cbn [app]; [by rewrite Hw, He|]. change (skip_ws (44 :: ?s)) with (44 :: s). cbn [eat Z.eqb Pos.eqb after].
    unfold after. cbn [eat Z.eqb Pos.eqb]. by rewrite Hw. }
  cbn [read_elems]. rewrite E. apply value_token_spec in Ht as (_ & _ & Ht & _). rewrite bool_decide_false by done. rewrite Hr. cbn [mbind result_bind].
  rewrite IH by lia. done.
Qed.

Lemma members_read lvl ms parts :
  Forall2 (λ m p, valid_utf8 m.1 ∧ ∃ b, value_reads lvl m.2 b ∧ p = m_bytes (member_of m.1 b)) ms parts → NoDup ms.*1 →
  ∀ fuel first names r fs, (∀ n, n ∈ ms.*1 → n ∉ names) → (length ms < fuel)%nat →
  read_members (read_value lvl) fuel (mkDecoder (joined first parts ++ 125 :: r) (InObject first names false :: fs))
  = Ok ((λ m, (m.1, norm m.2)) <$> ms, mkDecoder r fs).
Proof.
  induction 1 as [|[n v] p ms parts (Hn & b & Hv & ->) _ IH]; intros Hnd fuel first names r fs Hnames Hf; (destruct fuel as [|fuel]; [lia|]);
    [done|]. cbn in Hn, Hv, Hf, Hnd. apply NoDup_cons in Hnd as [Hnin Hnd].
  set (rest := joined false parts ++ 125 :: r).
  destruct (Hv rest (InObject false (n :: names) false :: fs)) as (t & d & Ht & Hr); [apply joined_ends; auto|].
  assert (ReadToken (mkDecoder (joined first (m_bytes (member_of n b) :: parts) ++ 125 :: r) (InObject first names false :: fs))
          = Token (TStr n) (mkDecoder (58 :: b ++ rest) (InObject false (n :: names) true :: fs))) as E.
  { assert (name_token (appendString [] n ++ 58 :: b ++ rest) names fs = Token (TStr n) (mkDecoder (58 :: b ++ rest) (InObject false (n :: names) true :: fs))) as En.
    { unfold name_token. rewrite scan_string by done. rewrite bool_decide_false; [done|]. apply Hnames. by left. }
    cbn [joined member_of m_bytes]. rewrite <-!app_assoc. cbn [app]. fold rest. unfold ReadToken. cbn [d_rest d_frames].
    destruct first; cbn [app]; [exact En|]. change (skip_ws (44 :: ?s)) with (44 :: s). unfold after. cbn [eat Z.eqb Pos.eqb]. exact En. }
  cbn [read_members fst]. rewrite E.
  assert (ReadToken (mkDecoder (58 :: b ++ rest) (InObject false (n :: names) true :: fs)) = Token t d) as E2.
  { destruct (value_token_start _ _ _ _ Ht) as (Hw & _ & _). unfold ReadToken. cbn [d_rest d_frames]. change (skip_ws (58 :: ?s)) with (58 :: s).
    unfold after. cbn [eat Z.eqb Pos.eqb]. by rewrite Hw. }
  rewrite E2, Hr. cbn [mbind result_bind]. unfold rest. rewrite IH; [done|done| |lia].
  intros m Hm [->|Hin]%elem_of_cons; [done|]. by apply (Hnames m); [right|].
Qed.

(** The numbers of parts and of bytes. *)
Lemma joined_length parts : Forall (λ p, p ≠ []) parts → ∀ first, (length parts ≤ length (joined first parts))%nat.
Proof.
  induction 1 as [|p parts Hp _ IH]; intros first; [done|]. cbn [joined]. rewrite !length_app. specialize (IH false).
  destruct p; [done|]. cbn. lia.
Qed.

Lemma value_reads_ne lvl v b : value_reads lvl v b → b ≠ [].
Proof. intros H ->. destruct (H [] []) as (t & d & Ht & _); done. Qed.

(** A literal. *)
Lemma atom_reads lvl v b t : (∀ r, scan_token (b ++ r) = Some (t, r)) → (∀ d, read_value lvl t d = Ok (norm v, d)) → value_reads lvl v b.
Proof.
  intros Hs Hr r fs _. exists t, (mkDecoder r fs). split; [|apply Hr]. unfold value_token. rewrite Hs.
  specialize (Hr (mkDecoder [] [])). destruct t; try done; by destruct lvl.
Qed.

Lemma parts_ne lvl l parts : Forall2 (value_reads lvl) l parts → Forall (λ p, p ≠ []) parts.
Proof. intros H. apply (Forall2_Forall_r _ _ _ _ H), Forall_true. intros v b. apply value_reads_ne. Qed.

Lemma Forall2_impl_in_l {A B} (P Q : A → B → Prop) l k : Forall2 P l k → (∀ x y, x ∈ l → P x y → Q x y) → Forall2 Q l k.
Proof.
  induction 1 as [|x y l k Hxy _ IH]; intros H; constructor; [apply H; [by left|done]|]. apply IH. intros a b Ha. apply H. by right.
Qed.

Lemma canon_reads lvl : ∀ v b, good lvl v → canon v = Ok b → value_reads lvl v b.
Proof.
  assert (∀ lvl l b, appendNumber [] l = Ok b → value_reads lvl (JNum l) b) as Hnum.
  { intros k l b Hb. destruct (appendNumber_spec _ _ Hb) as [Hs _]. intros r fs Hr. exists (TNum b), (mkDecoder r fs).
    split; [|cbn; by rewrite Hb; destruct k]. specialize (Hs r Hr). unfold value_token, scan_token.
    pose proof Hs as Hs'. apply scan_number_app in Hs' as [_ Hne]. destruct b as [|c b]; [done|]. cbn [app] in *.
    assert ((c =? 45) || is_digit c = true) as Hc.
    { destruct ((c =? 45) || is_digit c) eqn:E; [done|]. apply orb_false_iff in E as [E1 E2]. unfold scan_number, number_sign, number_int, eat in Hs.
      rewrite E1 in Hs. unfold is_digit in E2. rewrite (proj2 (Z.eqb_neq c 48)) in Hs by lia. cbn [span] in Hs. unfold is_digit in Hs. by rewrite E2 in Hs. }
    assert (c = 45 ∨ 48 ≤ c ≤ 57) as Hr' by (unfold is_digit in Hc; lia).
    rewrite !(proj2 (Z.eqb_neq c _)), Hc by lia. rewrite Hs. done. }
  induction lvl as [|lvl IH]; intros v b Hg Hb; destruct v as [|[]|l|s|l|ms]; try done; try by apply Hnum.
  all: try (injection Hb as <-; first [by apply (atom_reads _ _ _ TNull)|by apply (atom_reads _ _ _ (TBool true))|by apply (atom_reads _ _ _ (TBool false))
                                       |apply (atom_reads _ _ _ (TStr s)); [intros r; by apply scan_string|done]]).
  - rewrite canon_arr in Hb. apply bind_Ok_inv in Hb as (parts & Hp & [= <-]). cbn in Hg.
    assert (Forall2 (value_reads lvl) l parts) as HF.
    { apply canon_list_Forall2 in Hp. rewrite Forall_forall in Hg. eapply Forall2_impl_in_l; [exact Hp|]. intros v b Hv. by apply IH, Hg. }
    intros r fs _. exists TBeginArray, (mkDecoder (joined true parts ++ 93 :: r) (InArray true :: fs)).
    split; [cbn [app value_token scan_token]; by rewrite <-app_assoc|]. cbn [read_value d_rest]. rewrite (elems_read _ _ _ HF); [done|].
    rewrite (Forall2_length _ _ _ HF). pose proof (joined_length parts (parts_ne _ _ _ HF) true). rewrite length_app. cbn. lia.
  - rewrite canon_obj in Hb. apply bind_Ok_inv in Hb as (parts & Hp & [= <-]). cbn in Hg. destruct Hg as [Hnd Hg].
    set (ms' := stable_sort name_leb ms). set (parts' := m_bytes <$> stable_sort member_leb parts).
    assert (Forall2 (λ m p, valid_utf8 m.1 ∧ ∃ b, value_reads lvl m.2 b ∧ p = m_bytes (member_of m.1 b)) ms' parts') as HF.
    { apply canon_members_Forall2 in Hp. unfold parts'. apply Forall2_fmap_r.
      assert (Forall2 (λ m p, ∃ b, canon m.2 = Ok b ∧ p = member_of m.1 b) ms' (stable_sort member_leb parts)) as Hs.
      { apply stable_sort_Forall2; [|done]. by intros [n v] p [n' v'] p' (b & _ & ->) (b' & _ & ->). }
      eapply Forall2_impl_in_l; [exact Hs|]. intros [n v] p Hin (b & Hb & ->). unfold ms' in Hin. rewrite stable_sort_perm in Hin.
      rewrite Forall_forall in Hg. destruct (Hg _ Hin) as [Hv Hgv]. split; [done|]. exists b. split; [by apply IH|done]. }
    intros r fs _. exists TBeginObject, (mkDecoder (joined true parts' ++ 125 :: r) (InObject true [] false :: fs)).
    split; [unfold canon_object; cbn [app value_token scan_token]; by rewrite <-app_assoc|]. cbn [read_value d_rest].
    rewrite (members_read _ _ _ HF); [|unfold ms'; by rewrite stable_sort_perm|set_solver|].
    + cbn. unfold ms'. by rewrite (stable_sort_fmap _ name_leb name_leb).
    + rewrite (Forall2_length _ _ _ HF). pose proof (joined_length parts') as Hj. rewrite length_app. cbn.
      specialize (Hj ltac:(apply (Forall2_Forall_r _ _ _ _ HF), Forall_true; intros [n v] p (_ & b & _ & ->); done) true). lia.
Qed.

(** ** The normal form prints the same *)

Lemma member_leb_total a b : member_leb a b = true ∨ member_leb b a = true.
Proof. apply (total bytes_le). Qed.
Lemma member_leb_trans a b c : member_leb a b = true → member_leb b c = true → member_leb a c = true.
Proof. apply (transitivity (R := bytes_le)). Qed.

Lemma canon_norm lvl : ∀ v b, good lvl v → canon v = Ok b → canon (norm v) = Ok b.
Proof.
  assert (∀ l b, canon (JNum l) = Ok b → canon (norm (JNum l)) = Ok b) as Hnum.
  { intros l b Hb. cbn in *. rewrite Hb. by apply appendNumber_spec in Hb as [_ Hb]. }
  induction lvl as [|lvl IH]; intros v b Hg Hb; destruct v as [|[]|l|s|l|ms]; try done; try by apply Hnum.
  - cbn [norm]. rewrite canon_arr in *. apply bind_Ok_inv in Hb as (parts & Hp & [= <-]). apply canon_list_Forall2 in Hp.
    cbn in Hg. rewrite Forall_forall in Hg.
    rewrite (proj2 (canon_list_Forall2 (norm <$> l) parts)); [done|]. apply Forall2_fmap_l. eapply Forall2_impl_in_l; [exact Hp|].
    intros v b Hv. by apply IH, Hg.
  - cbn [norm]. rewrite canon_obj in *. apply bind_Ok_inv in Hb as (parts & Hp & [= <-]). apply canon_members_Forall2 in Hp.
    cbn in Hg. destruct Hg as [_ Hg]. rewrite Forall_forall in Hg.
    rewrite (proj2 (canon_members_Forall2 _ (stable_sort member_leb parts))).
    + cbn. unfold canon_object. rewrite (stable_sort_sorted_id member_leb (stable_sort _ _)); [done|].
      apply stable_sort_sorted; [apply member_leb_total|apply member_leb_trans].
    + apply stable_sort_Forall2; [by intros [n v] p [n' v'] p' (b & _ & ->) (b' & _ & ->)|].
      apply Forall2_fmap_l. eapply Forall2_impl_in_l; [exact Hp|]. intros [n v] p Hin (b & Hb & ->). exists b. split; [|done].
      apply IH; [|done]. by destruct (Hg _ Hin).
Qed.

(** The canonical text reads as the normal form. *)
Lemma read_canon v b : good MaxDepth v → canon v = Ok b → read_text MaxDepth b = Ok (norm v).
Proof.
  intros Hg Hb. pose proof (canon_reads _ _ _ Hg Hb) as Hr. pose proof (value_reads_ne _ _ _ Hr) as Hne.
  destruct (Hr [] [] I) as (t & d & Ht & Hv). rewrite app_nil_r in Ht. destruct (value_token_start _ _ _ _ Ht) as [Hw _].
  unfold read_text. assert (ReadToken (mkDecoder b []) = Token t d) as ->.
  { unfold ReadToken. cbn [d_rest d_frames]. rewrite Hw. by rewrite bool_decide_false. }
  rewrite Hv. done.
Qed.

Lemma Canonicalize_again src out : Canonicalize_text src = Ok out → Canonicalize_text out = Ok out.
Proof.
  intros (v & Hv & Hb)%Canonicalize_canon. apply read_text_good in Hv as Hg. apply Canonicalize_canon. exists (norm v).
  split; [by apply read_canon|by eapply canon_norm].
Qed.

(** C26 Canonicalization ends on every text, and its result is a fixed point: it is a text that
    canonicalization accepts and leaves as it is. *)
Theorem Canonicalize_idempotent src :
  Canonicalize_text src ≠ Err OutOfFuel ∧
  ∀ out, Canonicalize_text src = Ok out → Canonicalize_text out = Ok out ∧ Valid_text out = true.
Proof.
  split; [apply Canonicalize_fuel|]. intros out H%Canonicalize_again. split; [done|]. unfold Valid_text. rewrite H. by apply bool_decide_true.
Qed.

(** ** The same value *)

(** Values that differ in the order of members and in how numbers are written. *)
Inductive same_value : json → json → Prop :=
| sv_null : same_value JNull JNull
| sv_bool b : same_value (JBool b) (JBool b)
| sv_str s : same_value (JStr s) (JStr s)
| sv_num l l' f f' : ParseFloat l = Some f → ParseFloat l' = Some f' → feqb f f' = true → same_value (JNum l) (JNum l')
| sv_arr l l' : Forall2 same_value l l' → same_value (JArr l) (JArr l')
| sv_obj ms ms1 ms' : ms ≡ₚ ms1 → Forall2 (λ m m', m.1 = m'.1 ∧ same_value m.2 m'.2) ms1 ms' → same_value (JObj ms) (JObj ms').

Lemma same_number l l' f f' : ParseFloat l = Some f → ParseFloat l' = Some f' → feqb f f' = true →
  appendNumber [] l = appendNumber [] l' ∧ is_Some (match appendNumber [] l with Ok b => Some b | Err _ => None end).
Proof.
  intros Hl Hl' He. pose proof (ParseFloat_finite _ _ Hl) as Hf. pose proof (ParseFloat_finite _ _ Hl') as Hf'.
  destruct f as [| |s x]; [done..|]. destruct f' as [| |s' x']; [done..|]. cbn in He, Hf, Hf'. apply Z.eqb_eq in He.
  assert (number_text s x = number_text s' x') as E.
  { destruct Hf as [[Hx _] _], Hf' as [[Hx' _] _]. unfold number_text. destruct s, s'; cbn in He.
    - by assert (x = x') as -> by lia.
    - assert (x = 0 ∧ x' = 0) as [-> ->] by lia. done.
    - assert (x = 0 ∧ x' = 0) as [-> ->] by lia. done.
    - by assert (x = x') as -> by lia. }
  assert (appendNumber [] l = Ok (number_text s x)) as -> by (apply appendNumber_text; eauto).
  assert (appendNumber [] l' = Ok (number_text s' x')) as -> by (apply appendNumber_text; eauto).
  rewrite E. eauto.
Qed.

Lemma same_norm lvl : ∀ v v', good lvl v → same_value v v' → norm v = norm v'.
Proof.
  induction lvl as [|lvl IH]; intros v v' Hg H; destruct H as [| | |l l' f f' Hl Hl' He|l l' H|ms ms1 ms' Hp H]; try done.
  - destruct (same_number _ _ _ _ Hl Hl' He) as [E [b Hb]]. cbn. rewrite <-E. by destruct (appendNumber [] l).
  - destruct (same_number _ _ _ _ Hl Hl' He) as [E [b Hb]]. cbn. rewrite <-E. by destruct (appendNumber [] l).
  - cbn in *. f_equal. rewrite Forall_forall in Hg. apply list_eq_Forall2, Forall2_fmap_2. eapply Forall2_impl_in_l; [exact H|].
    intros v v' Hv. by apply IH, Hg.
  - cbn in *. destruct Hg as [Hn Hg]. f_equal.
    assert ((λ m, (m.1, norm m.2)) <$> ms1 = (λ m, (m.1, norm m.2)) <$> ms') as <-.
    { apply list_eq_Forall2, Forall2_fmap_2. rewrite Hp, Forall_forall in Hg. eapply Forall2_impl_in_l; [exact H|].
      intros [n v] [n' v'] Hin [E Hs]. cbn in *. subst n'. f_equal. apply IH; [|done]. by destruct (Hg _ Hin). }
    apply sort_members_perm.
    + rewrite <-list_fmap_compose. exact Hn.
    + apply Forall_fmap. eapply Forall_impl; [exact Hg|]. by intros m [? _].
    + by rewrite Hp.
Qed.

Lemma norm_same lvl : ∀ v v' b b', good lvl v → canon v = Ok b → canon v' = Ok b' → norm v = norm v' → same_value v v'.
Proof.
  assert (∀ l l' b b', canon (JNum l) = Ok b → canon (JNum l') = Ok b' → norm (JNum l) = norm (JNum l') → same_value (JNum l) (JNum l')) as Hnum.
  { intros l l' b b' Hb Hb' E. cbn in *. rewrite Hb, Hb' in E. injection E as ->.
    apply appendNumber_text in Hb as (neg & x & Hp & ->), Hb' as (neg' & x' & Hp' & E). econstructor; [done|done|].
    apply ParseFloat_finite in Hp, Hp'. by apply number_text_inj. }
  induction lvl as [|lvl IH]; intros v v' b b' Hg Hb Hb' E;
    (destruct v as [|x|l|s|l|ms], v' as [|x'|l'|s'|l'|ms']; try discriminate E; try (by eapply Hnum)); try done;
    try (injection E as ->; by constructor); try exact sv_null.
  - cbn in Hg. rewrite canon_arr in Hb, Hb'. apply bind_Ok_inv in Hb as (parts & Hp & _), Hb' as (parts' & Hp' & _).
    apply canon_list_Forall2 in Hp, Hp'. injection E as E. constructor. clear b b'.
    revert l' parts' E Hp'. induction Hp as [|v b l parts Hv _ IHl]; intros l' parts' E Hp'; destruct l' as [|v' l']; try done.
    apply Forall_cons in Hg as [Hg Hgl]. apply Forall2_cons_inv_l in Hp' as (b' & parts'' & Hv' & Hp' & ->). injection E as E1 E2.
    constructor; [by eapply IH|]. by eapply IHl.
  - cbn in Hg. destruct Hg as [_ Hg]. rewrite canon_obj in Hb, Hb'. apply bind_Ok_inv in Hb as (parts & Hp & _), Hb' as (parts' & Hp' & _).
    apply canon_members_Forall2 in Hp, Hp'. clear b b'. cbn [norm] in E. injection E as E. set (f := λ m : bytes * json, (m.1, norm m.2)) in E.
    assert (f <$> ms' ≡ₚ f <$> ms) as Hperm by (rewrite <-(stable_sort_perm name_leb (f <$> ms')), <-E; apply stable_sort_perm).
    destruct (Permutation_map_inv _ _ Hperm) as (ms1 & E1 & Hp1). apply (sv_obj _ ms1); [done|].
    assert (Forall (λ m, ∃ b, canon m.2 = Ok b) ms1) as Hc1.
    { rewrite <-Hp1. eapply Forall2_Forall_l; [exact Hp|]. apply Forall_true. intros _ m (b & Hb & _). eauto. }
    assert (Forall (λ m, ∃ b, canon m.2 = Ok b) ms') as Hc'.
    { eapply Forall2_Forall_l; [exact Hp'|]. apply Forall_true. intros _ m (b & Hb & _). eauto. }
    rewrite Hp1 in Hg. clear -IH E1 Hg Hc1 Hc'. revert ms' E1 Hc'.
    induction ms1 as [|[n v] ms1 IHm]; intros [|[n' v'] ms'] E1 Hc'; [constructor|done|done|].
    apply Forall_cons in Hg as [[_ Hg] Hgl], Hc1 as [[b Hb] Hc1], Hc' as [[b' Hb'] Hc']. injection E1 as E1 E2 E3.
    constructor; [split; [by cbn|by eapply IH]|]. by apply IHm.
Qed.

(** C25 The canonical form names the value: two texts that are accepted have the same canonical
    form exactly when they read as the same value, up to the order of members and the way
    numbers are written. *)
Theorem Canonicalize_names_value src src' out out' :
  Canonicalize_text src = Ok out → Canonicalize_text src' = Ok out' →
  ∃ v v', read_text MaxDepth src = Ok v ∧ read_text MaxDepth src' = Ok v' ∧
    (out = out' ↔ same_value v v').
Proof.
  intros (v & Hv & Hb)%Canonicalize_canon (v' & Hv' & Hb')%Canonicalize_canon. exists v, v'.
  apply read_text_good in Hv as Hg. apply read_text_good in Hv' as Hg'.
  assert (out = out' ↔ norm v = norm v') as Hiff.
  { split.
    - intros <-. apply read_canon in Hb, Hb'; [|done..]. congruence.
    - intros E. apply (canon_norm _ _ _ Hg) in Hb. apply (canon_norm _ _ _ Hg') in Hb'. congruence. }
  split_and!; [done|done|]. rewrite Hiff. split; [by eapply norm_same|by eapply same_norm].
Qed.

Lemma Canonicalize_names_value_witness :
  ∃ v v', read_text MaxDepth (jtext "{'a':[1e1],'b':true}") = Ok v ∧ read_text MaxDepth (jtext " {'b':true, '\u0061':[10.0]}") = Ok v' ∧
    same_value v v'.
Proof.
  assert (∃ out, Canonicalize_text (jtext "{'a':[1e1],'b':true}") = Ok out ∧ Canonicalize_text (jtext " {'b':true, '\u0061':[10.0]}") = Ok out)
    as (out & H1 & H2) by (eexists; split; vm_compute; reflexivity).
  destruct (Canonicalize_names_value _ _ _ _ H1 H2) as (v & v' & Hv & Hv' & Hiff). exists v, v'. split; [exact Hv|split; [exact Hv'|by apply Hiff]].
Defined.
