(* ===== verification/DdmTypes.v ===== *)
(** * Declarative management, the data: [mdmprotocol/ddm]

    The records of [store.go], the tokens of [token.go] and the endpoints of
    [endpoint.go]. An error is the list of the sentinels it wraps, since the engine asks
    [errors.Is] of errors that wrap several.

    The theorems: a declarations token does not depend on the order of the references,
    and equal tokens of different manifests are a collision of SHA-256, because what is
    hashed determines the references; an endpoint reads back as it was printed. *)
From S2P Require Import Prelude GoStrings Mdm Storage Sha256.

(** ** Errors *)

(* @src devicemanagement/mdmprotocol/ddm/errors.go 6-18 errors *)
Inductive sentinel :=
| ErrNotFound | ErrConflict | ErrInvalid | ErrUnknownType | ErrInvalidDeclaration
| ErrBadEndpoint | ErrStatusTooLarge | ErrStatusMalformed | ErrResolver | ErrExpander
| ErrNotifier.
#[export] Instance sentinel_eq_dec : EqDecision sentinel.
Proof. solve_decision. Defined.

Abbreviation derr := (list sentinel).
(** [errors.Is(err, s)] *)
Definition Is (e : derr) (s : sentinel) : bool := bool_decide (s ∈ e).

(** ** Records *)

Abbreviation Kind := bytes.
(* @src devicemanagement/schema/ddm/registry.gen.go 29-29 KindActivation *)
Definition KindActivation : Kind := bs "activation".
(* @src devicemanagement/schema/ddm/registry.gen.go 30-30 KindAsset *)
Definition KindAsset : Kind := bs "asset".
(* @src devicemanagement/schema/ddm/registry.gen.go 31-31 KindConfiguration *)
Definition KindConfiguration : Kind := bs "configuration".
(* @src devicemanagement/schema/ddm/registry.gen.go 32-32 KindManagement *)
Definition KindManagement : Kind := bs "management".

(* @src devicemanagement/mdmprotocol/ddm/store.go - Declaration *)
Record Declaration := mkDeclaration {
  d_Identifier : bytes;
  d_Type : bytes;
  d_Kind : Kind;
  d_ServerToken : bytes;
  Canonical : bytes;
  CreatedAt : Time;
  UpdatedAt : Time }.
#[export] Instance Declaration_eta : Eta Declaration := λ d,
  mkDeclaration (d_Identifier d) (d_Type d) (d_Kind d) (d_ServerToken d) (Canonical d)
    (CreatedAt d) (UpdatedAt d).

(* @src devicemanagement/mdmprotocol/ddm/store.go - DeclarationVersion *)
Record DeclarationVersion := mkVersion {
  v_Identifier : bytes;
  v_Type : bytes;
  v_ServerToken : bytes;
  v_Canonical : bytes;
  v_CreatedAt : Time }.

(* @src devicemanagement/mdmprotocol/ddm/store.go - DeclarationQuery *)
Record DeclarationQuery := mkDeclarationQuery { q_Kind : Kind; q_Type : bytes; InSet : bytes }.

(* @src devicemanagement/mdmprotocol/ddm/store.go - Set *)
Record DSet := mkSet { Name : bytes; s_CreatedAt : Time; s_UpdatedAt : Time }.
#[export] Instance DSet_eta : Eta DSet := λ s, mkSet (Name s) (s_CreatedAt s) (s_UpdatedAt s).

(* @src devicemanagement/mdmprotocol/ddm/token.go - DeclarationRef *)
Record DeclarationRef := mkRef { r_Kind : Kind; Identifier : bytes; ServerToken : bytes }.
#[export] Instance DeclarationRef_eq_dec : EqDecision DeclarationRef.
Proof. solve_decision. Defined.

(** [Expanded] is [None] for nil. *)
(* @src devicemanagement/mdmprotocol/ddm/store.go - SnapshotItem *)
Record SnapshotItem := mkItem { Ref : DeclarationRef; BaseToken : bytes; Expanded : option bytes }.
#[export] Instance SnapshotItem_eq_dec : EqDecision SnapshotItem.
Proof. solve_decision. Defined.

(* @src devicemanagement/mdmprotocol/ddm/store.go - Snapshot *)
Record Snapshot := mkSnapshot {
  sn_ID : EnrollmentID;
  sn_Token : bytes;
  sn_Items : list SnapshotItem;
  TokenChangedAt : Time;
  RefreshedAt : Time }.
#[export] Instance Snapshot_eta : Eta Snapshot := λ s,
  mkSnapshot (sn_ID s) (sn_Token s) (sn_Items s) (TokenChangedAt s) (RefreshedAt s).

(* @src devicemanagement/mdmprotocol/ddm/store.go - DeclarationStatus *)
Record DeclarationStatus := mkDStatus {
  st_Kind : Kind;
  st_Identifier : bytes;
  st_ServerToken : bytes;
  Active : bool;
  Valid : bytes;
  Reasons : option bytes;
  FirstSeen : Time;
  LastSeen : Time }.
#[export] Instance DeclarationStatus_eta : Eta DeclarationStatus := λ s,
  mkDStatus (st_Kind s) (st_Identifier s) (st_ServerToken s) (Active s) (Valid s) (Reasons s)
    (FirstSeen s) (LastSeen s).

(* @src devicemanagement/mdmprotocol/ddm/store.go - EnrollmentDeclarationStatus *)
Record EnrollmentDeclarationStatus := mkEDS { eds_ID : EnrollmentID; eds_Status : DeclarationStatus }.

(* @src devicemanagement/mdmprotocol/ddm/store.go - StatusValue *)
Record StatusValue := mkValue { Path : bytes; Value : bytes; sv_FirstSeen : Time; sv_LastSeen : Time }.
#[export] Instance StatusValue_eta : Eta StatusValue := λ v,
  mkValue (Path v) (Value v) (sv_FirstSeen v) (sv_LastSeen v).

(* @src devicemanagement/mdmprotocol/ddm/store.go - StatusError *)
Record StatusError := mkStatusError {
  e_Seq : Z; StatusItem : bytes; e_Reasons : bytes; e_ReceivedAt : Time }.

(* @src devicemanagement/mdmprotocol/ddm/store.go - StatusReportRecord *)
Record StatusReportRecord := mkReport { rep_Seq : Z; rep_Full : bool; rep_Raw : bytes; rep_ReceivedAt : Time }.

(* @src devicemanagement/mdmprotocol/ddm/store.go - StatusUpdate *)
Record StatusUpdate := mkUpdate {
  Raw : bytes;
  ReceivedAt : Time;
  FullReport : bool;
  HasDeclarations : bool;
  Declarations : list DeclarationStatus;
  Values : list StatusValue;
  Errors : list StatusError;
  KeepReports : Z }.

(* @src devicemanagement/mdmprotocol/ddm/store.go - StatusOutcome *)
Record StatusOutcome := mkOutcome {
  o_Seq : Z; Removed : list DeclarationRef; RemovedValues : list bytes; PrunedReports : Z }.

(* @src devicemanagement/mdmprotocol/ddm/store.go - Change *)
Record Change := mkChange {
  c_Seq : Z;
  c_ID : EnrollmentID;
  Reason : bytes;
  c_CreatedAt : Time;
  c_Attempts : Z;
  LastError : bytes;
  NextAttemptAt : Time }.
#[export] Instance Change_eta : Eta Change := λ c,
  mkChange (c_Seq c) (c_ID c) (Reason c) (c_CreatedAt c) (c_Attempts c) (LastError c) (NextAttemptAt c).

(** ** Order of references and tokens *)

(** [cmp.Compare] of strings, and [cmp.Or] of such comparisons: the first that is not equal. *)
Definition compare_strings (a b : bytes) : comparison :=
  if bytes_ltb a b then Lt else if bytes_ltb b a then Gt else Eq.
Definition cmp_or (c d : comparison) : comparison := match c with Eq => d | _ => c end.

(* @src devicemanagement/mdmprotocol/ddm/token.go - compareRefs *)
Definition compareRefs (a b : DeclarationRef) : comparison :=
  cmp_or (compare_strings (r_Kind a) (r_Kind b))
    (cmp_or (compare_strings (Identifier a) (Identifier b))
       (compare_strings (ServerToken a) (ServerToken b))).

Definition not_after {A} (compare : A → A → comparison) (a b : A) : bool :=
  match compare a b with Gt => false | _ => true end.

(* @src devicemanagement/mdmprotocol/ddm/token.go - SortRefs *)
Definition SortRefs (refs : list DeclarationRef) : list DeclarationRef :=
  stable_sort (not_after compareRefs) refs.

(** One string as it is hashed: its length in four bytes, and the string. *)
(* @src devicemanagement/mdmprotocol/ddm/token.go 41-45 DeclarationsToken *)
Definition prefixed (s : bytes) : bytes := put_be 4 (Z.of_nat (length s)) ++ s.
Definition hashed_ref (r : DeclarationRef) : bytes :=
  prefixed (r_Kind r) ++ prefixed (Identifier r) ++ prefixed (ServerToken r).
Definition hashed_refs (refs : list DeclarationRef) : bytes := mjoin (hashed_ref <$> SortRefs refs).

(* @src devicemanagement/mdmprotocol/ddm/token.go - DeclarationsToken *)
Definition DeclarationsToken (refs : list DeclarationRef) : bytes :=
  hex_EncodeToString (Sum256 (hashed_refs refs)).

(* @src devicemanagement/mdmprotocol/ddm/token.go - TokenFor *)
Definition TokenFor (canonical : bytes) : bytes := hex_EncodeToString (Sum256 canonical).

(** ** Endpoints *)

(* @src devicemanagement/mdmprotocol/ddm/endpoint.go 11-19 Op *)
Inductive Op := OpTokens | OpDeclarationItems | OpDeclaration | OpStatus.
(* @src devicemanagement/mdmprotocol/ddm/endpoint.go - Op.String *)
Definition Op_String (o : Op) : bytes :=
  match o with
  | OpTokens => bs "tokens"
  | OpDeclarationItems => bs "declaration-items"
  | OpDeclaration => bs "declaration"
  | OpStatus => bs "status"
  end.
(* @src devicemanagement/mdmprotocol/ddm/endpoint.go - Endpoint *)
Record Endpoint := mkEndpoint { ep_Op : Op; ep_Kind : Kind; ep_Identifier : bytes }.

(* @src devicemanagement/mdmprotocol/ddm/endpoint.go 47-47 MaxIdentifierBytes *)
Definition MaxIdentifierBytes : nat := 64.
(* @src devicemanagement/mdmprotocol/ddm/endpoint.go 80-80 StandaloneKinds *)
Definition StandaloneKinds : list Kind := [KindActivation; KindAsset; KindConfiguration; KindManagement].
(* @src devicemanagement/mdmprotocol/ddm/endpoint.go - ParseKind *)
Definition ParseKind (s : bytes) : result derr Kind :=
  match list_find (λ k, k = s) StandaloneKinds with
  | Some (_, k) => Ok k
  | None => Err [ErrInvalid]
  end.

(** [strings.Cut(s, "/")] *)
Definition cut_slash (s : bytes) : option (bytes * bytes) :=
  let '(before, rest) := span (λ c, negb (c =? 47)) s in
  match rest with [] => None | _ :: after => Some (before, after) end.

(* @src devicemanagement/mdmprotocol/ddm/endpoint.go - ParseEndpoint *)
Definition ParseEndpoint (s : bytes) : result derr Endpoint :=
  if bool_decide (s = bs "tokens") then Ok (mkEndpoint OpTokens [] [])
  else if bool_decide (s = bs "declaration-items") then Ok (mkEndpoint OpDeclarationItems [] [])
  else if bool_decide (s = bs "status") then Ok (mkEndpoint OpStatus [] [])
  else if negb (has_prefix s (bs "declaration/")) then Err [ErrBadEndpoint]
  else
    match cut_slash (drop 12 s) with
    | None => Err [ErrBadEndpoint]
    | Some (kind, identifier) =>
        _ ← reject (bool_decide (identifier = []) || existsb (Z.eqb 47) identifier) [ErrBadEndpoint];
        k ← match ParseKind kind with Ok k => Ok k | Err e => Err (ErrBadEndpoint :: e) end;
        _ ← reject (MaxIdentifierBytes <? length identifier)%nat [ErrBadEndpoint];
        Ok (mkEndpoint OpDeclaration k identifier)
    end.

(* @src devicemanagement/mdmprotocol/ddm/endpoint.go - Endpoint.String *)
Definition Endpoint_String (e : Endpoint) : bytes :=
  match ep_Op e with
  | OpDeclaration => bs "declaration/" ++ ep_Kind e ++ bs "/" ++ ep_Identifier e
  | o => Op_String o
  end.

(** ** The order of references is a total order *)

Section Orders.
Context {A : Type}.

(** A comparison that orders [A] totally. *)
Record total_compare (c : A → A → comparison) : Prop := {
  tc_eq : ∀ a b, c a b = Eq → a = b;
  tc_refl : ∀ a, c a a = Eq;
  tc_sym : ∀ a b, c b a = CompOpp (c a b);
  tc_trans : ∀ a b d, c a b = Lt → c b d = Lt → c a d = Lt }.

Lemma not_after_total c : total_compare c → ∀ a b, not_after c a b = true ∨ not_after c b a = true.
Proof. intros H a b. unfold not_after. rewrite (tc_sym c H a b). destruct (c a b); auto. Qed.

Lemma not_after_trans c : total_compare c → ∀ a b d,
  not_after c a b = true → not_after c b d = true → not_after c a d = true.
Proof.
  intros H a b d. unfold not_after. destruct (c a b) eqn:H1; [| |done].
  - by apply (tc_eq c H) in H1 as ->.
  - destruct (c b d) eqn:H2; [| |done].
    + apply (tc_eq c H) in H2 as ->. by rewrite H1.
    + by rewrite (tc_trans c H _ _ _ H1 H2).
Qed.

Lemma not_after_antisym c : total_compare c → ∀ a b,
  not_after c a b = true → not_after c b a = true → a = b.
Proof.
  intros H a b. unfold not_after. rewrite (tc_sym c H a b). destruct (c a b) eqn:E; try done. intros _ _. by apply (tc_eq c H).
Qed.

(** Sorting by a total order only depends on what is sorted. *)
Lemma stable_sort_unique c (l l' : list A) : total_compare c → l ≡ₚ l' →
  stable_sort (not_after c) l = stable_sort (not_after c) l'.
Proof.
  intros H Hp.
  assert (AntiSymm (=) (λ a b, not_after c a b = true)) by (intros a b; by apply not_after_antisym).
  apply (StronglySorted_unique (λ a b, not_after c a b = true)).
  - apply stable_sort_sorted; [by apply not_after_total|by apply not_after_trans].
  - apply stable_sort_sorted; [by apply not_after_total|by apply not_after_trans].
  - by rewrite !stable_sort_perm.
Qed.
End Orders.

Lemma compare_strings_total : total_compare compare_strings.
Proof.
  unfold compare_strings. split.
  - intros a b. destruct (bytes_ltb a b) eqn:H1; [done|]. destruct (bytes_ltb b a) eqn:H2; [done|].
    intros _. by apply bytes_ltb_total.
  - intros a. by rewrite bytes_ltb_irrefl.
  - intros a b. destruct (bytes_ltb a b) eqn:H1, (bytes_ltb b a) eqn:H2; try done.
    pose proof (bytes_ltb_trans _ _ _ H1 H2) as H. by rewrite bytes_ltb_irrefl in H.
  - intros a b d. destruct (bytes_ltb a b) eqn:H1; [|by destruct (bytes_ltb b a)].
    destruct (bytes_ltb b d) eqn:H2; [|by destruct (bytes_ltb d b)].
    by rewrite (bytes_ltb_trans _ _ _ H1 H2).
Qed.

(** Comparing by one key and then by the rest. *)
Lemma cmp_or_total {A B} (f : A → bytes) (g : A → B) (c : B → B → comparison) :
  (∀ a b, f a = f b → g a = g b → a = b) → total_compare c →
  total_compare (λ a b, cmp_or (compare_strings (f a) (f b)) (c (g a) (g b))).
Proof.
  intros Hinj Hc. pose proof compare_strings_total as Hs. split.
  - intros a b. destruct (compare_strings _ _) eqn:E; cbn; try done.
    intros H. apply Hinj; [by apply (tc_eq _ Hs)|by apply (tc_eq _ Hc)].
  - intros a. rewrite (tc_refl _ Hs). apply (tc_refl _ Hc).
  - intros a b. rewrite (tc_sym _ Hs (f a) (f b)), (tc_sym _ Hc (g a) (g b)). by destruct (compare_strings _ _).
  - intros a b d. destruct (compare_strings (f a) (f b)) eqn:E1; cbn; [|intros _|done].
    + apply (tc_eq _ Hs) in E1 as ->. destruct (compare_strings (f b) (f d)); cbn; try done. apply (tc_trans _ Hc).
    + destruct (compare_strings (f b) (f d)) eqn:E2; cbn; [|intros _|done].
      * apply (tc_eq _ Hs) in E2 as <-. by rewrite E1.
      * by rewrite (tc_trans _ Hs _ _ _ E1 E2).
Qed.

Lemma compareRefs_total : total_compare compareRefs.
Proof.
  set (c2 := λ a b : bytes * bytes, cmp_or (compare_strings a.1 b.1) (compare_strings a.2 b.2)).
  assert (total_compare c2) as H2.
  { apply (cmp_or_total fst snd compare_strings); [|apply compare_strings_total]. by intros [] [] ?; cbn in *; intros; subst. }
  apply (cmp_or_total r_Kind (λ r, (Identifier r, ServerToken r)) c2); [|done].
  intros [] []; cbn. by intros -> [= -> ->].
Qed.

Lemma SortRefs_perm refs : SortRefs refs ≡ₚ refs.
Proof. apply stable_sort_perm. Qed.
Lemma SortRefs_sorted refs : StronglySorted (λ a b, not_after compareRefs a b = true) (SortRefs refs).
Proof. apply stable_sort_sorted; [apply not_after_total|apply not_after_trans]; apply compareRefs_total. Qed.
Lemma SortRefs_unique refs refs' : refs ≡ₚ refs' → SortRefs refs = SortRefs refs'.
Proof. by apply stable_sort_unique, compareRefs_total. Qed.

(** ** What is hashed determines the references *)

(** Strings whose length fits the prefix. *)
Definition short (s : bytes) : Prop := Z.of_nat (length s) < 2 ^ 32.
Definition short_ref (r : DeclarationRef) : Prop := short (r_Kind r) ∧ short (Identifier r) ∧ short (ServerToken r).

Lemma prefixed_inj s s' r r' : short s → short s' → prefixed s ++ r = prefixed s' ++ r' → s = s' ∧ r = r'.
Proof.
  unfold prefixed, short. intros Hs Hs' H. rewrite <-!app_assoc in H.
  apply app_inj_1 in H as [Hn H]; [|by rewrite !put_be_length].
  apply (f_equal get_be) in Hn. rewrite !get_put_be in Hn.
  change (256 ^ Z.of_nat 4) with (2 ^ 32) in Hn. rewrite !Z.mod_small in Hn by lia.
  apply app_inj_1 in H as [-> ->]; [done|lia].
Qed.

Lemma hashed_ref_inj a b r r' : short_ref a → short_ref b →
  hashed_ref a ++ r = hashed_ref b ++ r' → a = b ∧ r = r'.
Proof.
  intros (H1 & H2 & H3) (H4 & H5 & H6) H. unfold hashed_ref in H. rewrite <-!app_assoc in H.
  apply prefixed_inj in H as [Ek H]; [|done..]. apply prefixed_inj in H as [Ei H]; [|done..].
  apply prefixed_inj in H as [Et ->]; [|done..]. destruct a, b. cbn in *. by subst.
Qed.

Lemma hashed_list_inj l : ∀ l', Forall short_ref l → Forall short_ref l' →
  mjoin (hashed_ref <$> l) = mjoin (hashed_ref <$> l') → l = l'.
Proof.
  assert (∀ a l, hashed_ref a ++ l ≠ []) as Hne by (intros a x E; by apply (f_equal length) in E).
  induction l as [|a l IH]; intros [|b l'] Hl Hl' H; cbn in H; [done|exfalso; symmetry in H; revert H; apply Hne|exfalso; revert H; apply Hne|].
  apply Forall_cons in Hl as [Ha Hl], Hl' as [Hb Hl'].
  apply hashed_ref_inj in H as [-> H]; [|done..]. f_equal. by apply IH.
Qed.

Lemma hex_inj l : ∀ l', Forall is_byte l → Forall is_byte l' → hex_EncodeToString l = hex_EncodeToString l' → l = l'.
Proof.
  assert (∀ x y, 0 ≤ x < 16 → 0 ≤ y < 16 → hex_digit x = hex_digit y → x = y) as Hd.
  { intros x y. unfold hex_digit. destruct (Z.ltb_spec x 10), (Z.ltb_spec y 10); lia. }
  induction l as [|a l IH]; intros [|b l'] Hl Hl' H; cbn in H; try done.
  apply Forall_cons in Hl as [[Ha0 Ha] Hl], Hl' as [[Hb0 Hb] Hl']. injection H as H1 H2 H3.
  apply Hd in H1; [|split; [apply Z.div_pos; lia|apply Z.div_lt_upper_bound; lia]..].
  apply Hd in H2; [|apply Z.mod_pos_bound; lia..].
  pose proof (Z.div_mod a 16 ltac:(lia)). pose proof (Z.div_mod b 16 ltac:(lia)).
  f_equal; [lia|by apply IH].
Qed.

(** The declarations token names the manifest: it does not depend on the order of the
    references, what is hashed is equal exactly when the references are, and so two
    manifests have the same token exactly when they are equal or collide under SHA-256. *)
Theorem DeclarationsToken_names refs refs' : Forall short_ref refs → Forall short_ref refs' →
  (hashed_refs refs = hashed_refs refs' ↔ refs ≡ₚ refs') ∧
  (DeclarationsToken refs = DeclarationsToken refs' ↔
   refs ≡ₚ refs' ∨ (hashed_refs refs ≠ hashed_refs refs' ∧ Sum256 (hashed_refs refs) = Sum256 (hashed_refs refs'))).
Proof.
  intros Hr Hr'.
  assert (hashed_refs refs = hashed_refs refs' ↔ refs ≡ₚ refs') as Heq.
  { split; intros H; [|unfold hashed_refs; by rewrite (SortRefs_unique _ _ H)].
    apply hashed_list_inj in H; [|by rewrite SortRefs_perm..].
    by rewrite <-(SortRefs_perm refs), <-(SortRefs_perm refs'), H. }
  split; [done|]. rewrite <-Heq. unfold DeclarationsToken. split.
  - intros H%hex_inj; [|apply Sum256_spec..]. destruct (decide (hashed_refs refs = hashed_refs refs')); auto.
  - intros [->|[_ ->]]; done.
Qed.

(** ** Endpoints *)

Definition valid_endpoint (e : Endpoint) : Prop :=
  match ep_Op e with
  | OpDeclaration => ep_Kind e ∈ StandaloneKinds ∧ ep_Identifier e ≠ [] ∧ 47 ∉ ep_Identifier e ∧
                     (length (ep_Identifier e) ≤ MaxIdentifierBytes)%nat
  | _ => ep_Kind e = [] ∧ ep_Identifier e = []
  end.

Lemma ParseKind_Ok s k : ParseKind s = Ok k ↔ k = s ∧ s ∈ StandaloneKinds.
Proof.
  unfold ParseKind. destruct (list_find _ _) as [[i k']|] eqn:H.
  - apply list_find_Some in H as (Hl & -> & _). split; [|by intros [-> _]].
    intros [= ->]. split; [done|]. by eapply list_elem_of_lookup_2.
  - split; [done|]. intros [-> Hin]. apply list_find_None in H. rewrite Forall_forall in H. by destruct (H s Hin).
Qed.

Lemma cut_slash_spec s k i : cut_slash s = Some (k, i) ↔ s = k ++ 47 :: i ∧ 47 ∉ k.
Proof.
  unfold cut_slash. split.
  - destruct (span _ s) as [w [|c r]] eqn:H; [done|]. intros [= -> ->].
    apply span_app in H as (-> & Hw & Hc). cbn in Hc. apply negb_false_iff, Z.eqb_eq in Hc as ->. split; [done|].
    intros Hin. rewrite forallb_forall in Hw. specialize (Hw 47 (proj1 (list_elem_of_In _ _) Hin)). done.
  - intros [-> Hk]. rewrite (span_stop _ k (47 :: i)); [done| |done]. apply forallb_forall. intros x Hx.
    apply list_elem_of_In in Hx. destruct (Z.eqb_spec x 47) as [->|]; done.
Qed.

Lemma slash_free i : existsb (Z.eqb 47) i = false ↔ 47 ∉ i.
Proof.
  rewrite <-not_true_iff_false, existsb_exists. split; intros H; contradict H.
  - exists 47. split; [by apply list_elem_of_In|done].
  - destruct H as (x & Hx & ->%Z.eqb_eq). by apply list_elem_of_In.
Qed.

Lemma kind_slash_free k : k ∈ StandaloneKinds → 47 ∉ k.
Proof. intros H. repeat (apply elem_of_cons in H as [->|H]; [by apply (bool_decide_unpack (47 ∉ _)); vm_compute|]). by apply elem_of_nil in H. Qed.

(** Endpoints are read exactly as they are printed: [ParseEndpoint] accepts a string as
    [e] exactly when [e] is well-formed and the string is its wire form. *)
Theorem ParseEndpoint_String s e : ParseEndpoint s = Ok e ↔ valid_endpoint e ∧ s = Endpoint_String e.
Proof.
  destruct e as [o k i]. unfold valid_endpoint, Endpoint_String. cbn [ep_Op ep_Kind ep_Identifier]. split.
  - unfold ParseEndpoint. repeat (case_bool_decide; [intros [= <- <- <-]; subst; done|]).
    destruct (has_prefix s _) eqn:Hp; [|done]. apply has_prefix_spec in Hp as (r & ->). cbn [negb].
    change (drop 12 (bs "declaration/" ++ r)) with r. destruct (cut_slash r) as [[k' i']|] eqn:Hc; [|done].
    apply cut_slash_spec in Hc as [-> Hk]. intros Hok. go_binds Hok.
    destruct (ParseKind k') as [k''|] eqn:Hkind; [|done]. apply ParseKind_Ok in Hkind as [-> Hin].
    injection Hb0 as <-. injection Hok as <- <- <-. apply orb_false_iff in Hb as [Hne%bool_decide_eq_false Hs%slash_free].
    apply Nat.ltb_ge in Hb1. done.
  - intros [Hv ->]. destruct o; try (destruct Hv as [-> ->]; reflexivity). destruct Hv as (Hk & Hne & Hs & Hl).
    unfold ParseEndpoint. rewrite !bool_decide_false by done. rewrite has_prefix_app. cbn [negb].
    change (drop 12 (bs "declaration/" ++ k ++ bs "/" ++ i)) with (k ++ 47 :: i).
    rewrite (proj2 (cut_slash_spec _ k i)) by (split; [done|by apply kind_slash_free]).
    rewrite bool_decide_false, (proj2 (slash_free i)) by done. cbn [orb reject mbind result_bind].
    rewrite (proj2 (ParseKind_Ok k k)) by done. cbn [mbind result_bind].
    rewrite (proj2 (Nat.ltb_ge _ _)) by done. done.
Qed.

Lemma DeclarationsToken_names_witness :
  let a := mkRef KindAsset (bs "ab") (bs "c") in
  let b := mkRef KindAsset (bs "a") (bs "bc") in
  hashed_refs [a; b] = hashed_refs [b; a] ∧ hashed_refs [a] ≠ hashed_refs [b].
Proof.
  intros a b.
  assert (∀ l, l ⊆ [a; b] → Forall short_ref l) as Hs.
  { intros l Hl. apply Forall_forall. intros x Hx. apply Hl in Hx.
    repeat (apply elem_of_cons in Hx as [->|Hx]; [by repeat split|]). by apply elem_of_nil in Hx. }
  split.
  - apply (DeclarationsToken_names [a; b] [b; a]); [apply Hs; set_solver|apply Hs; set_solver|]. apply Permutation_swap.
  - intros E. apply (DeclarationsToken_names [a] [b]) in E; [|apply Hs; set_solver..].
    apply Permutation_singleton_inj in E. discriminate E.
Defined.
