(* ===== verification/DdmStore.v ===== *)
(** * The declaration store: [storage/ddm/inmem]

    The in-memory store of declarations, sets, assignments, snapshots, status and change
    notifications. [tx] methods run against the live state under the lock, or against a
    private copy inside [Update]; every method validates before it writes, so a failed
    method leaves the state alone and [result derr (A * state)] loses nothing. Values
    are copied in and out by the code, so no aliasing is modelled. *)
From S2P Require Import Prelude GoStrings Mdm Storage Sha256 DdmTypes.

(* @src devicemanagement/storage/ddm/inmem/inmem.go 45-66 state *)
Record state := mkState {
  decls : gmap bytes Declaration;
  versions : gmap (bytes * bytes) DeclarationVersion;
  sets : gmap bytes DSet;
  members : gmap bytes (gset bytes);
  ids : gmap bytes EnrollmentID;
  enrollSets : gmap bytes (gset bytes);
  enrollDecls : gmap bytes (gset bytes);
  snapshots : gmap bytes Snapshot;
  statusDecls : gmap bytes (gmap (Kind * bytes) DeclarationStatus);
  statusValues : gmap bytes (gmap bytes StatusValue);
  statusErrors : gmap bytes (list StatusError);
  statusReports : gmap bytes (list StatusReportRecord);
  changes : gmap Z Change;
  seq : Z }.
#[export] Instance state_eta : Eta state := λ s,
  mkState (decls s) (versions s) (sets s) (members s) (ids s) (enrollSets s) (enrollDecls s)
    (snapshots s) (statusDecls s) (statusValues s) (statusErrors s) (statusReports s) (changes s) (seq s).

(* @src devicemanagement/storage/ddm/inmem/inmem.go - newState *)
Definition newState : state := mkState ∅ ∅ ∅ ∅ ∅ ∅ ∅ ∅ ∅ ∅ ∅ ∅ ∅ 0.

Abbreviation dres A := (result derr (A * state)).

(** [Update]: [fn] runs on a copy, which replaces the state when [fn] succeeds. *)
(* @src devicemanagement/storage/ddm/inmem/inmem.go - Store.Update *)
Definition Update {A} (fn : option (state → dres A)) (st : state) : dres A :=
  match fn with
  | None => Err [ErrInvalid]
  | Some fn => '(a, cp) ← fn st; Ok (a, cp)
  end.

(* @src devicemanagement/storage/ddm/inmem/inmem.go - state.nextSeq *)
Definition nextSeq (st : state) : Z * state := (seq st + 1, st <| seq := seq st + 1 |>).

(** ** Names and identities *)

(* @src devicemanagement/storage/ddm/inmem/inmem.go - validName *)
Definition validName (name : bytes) : result derr unit := reject (bool_decide (name = [])) [ErrInvalid].

(* @src devicemanagement/storage/ddm/inmem/inmem.go - validID *)
Definition validID0 (id : EnrollmentID) : result derr unit :=
  match Validate id with Err _ => Err [ErrInvalid] | Ok _ => Ok tt end.

(* @src devicemanagement/storage/ddm/inmem/identity.go - tx.validID *)
Definition validID (id : EnrollmentID) (st : state) : result derr unit :=
  _ ← validID0 id;
  match ids st !! ID id with
  | Some stored => reject (bool_decide (stored ≠ id)) [ErrNotFound]
  | None => Ok tt
  end.

(* @src devicemanagement/storage/ddm/inmem/identity.go - tx.EnrollmentIdentity *)
Definition EnrollmentIdentity (rawID : bytes) (st : state) : result derr EnrollmentID :=
  match ids st !! rawID with Some id => Ok id | None => Err [ErrNotFound] end.

Definition remember (id : EnrollmentID) (st : state) : state := st <| ids := <[ID id := id]> (ids st) |>.

(** ** Memberships: a map from names to non-empty sets *)

(** [m[outer]], empty when absent. *)
Definition inner (m : gmap bytes (gset bytes)) (outer : bytes) : gset bytes := default ∅ (m !! outer).

(* @src devicemanagement/storage/ddm/inmem/inmem.go - add *)
Definition add (m : gmap bytes (gset bytes)) (outer key : bytes) : bool * gmap bytes (gset bytes) :=
  if bool_decide (key ∈ inner m outer) then (false, m)
  else (true, <[outer := {[key]} ∪ inner m outer]> m).

(** The set without [key], dropped when that empties it. *)
Definition shrink (key : bytes) (s : gset bytes) : option (gset bytes) :=
  if bool_decide (key ∈ s)
  then if bool_decide (s ∖ {[key]} = ∅) then None else Some (s ∖ {[key]})
  else Some s.

(* @src devicemanagement/storage/ddm/inmem/inmem.go - remove *)
Definition remove (m : gmap bytes (gset bytes)) (outer key : bytes) : bool * gmap bytes (gset bytes) :=
  if bool_decide (key ∈ inner m outer) then (true, partial_alter (λ s, s ≫= shrink key) outer m)
  else (false, m).

(* @src devicemanagement/storage/ddm/inmem/inmem.go - removeEverywhere *)
Definition removeEverywhere (m : gmap bytes (gset bytes)) (key : bytes) : gmap bytes (gset bytes) :=
  omap (shrink key) m.

(* @src devicemanagement/storage/ddm/inmem/inmem.go - sortedKeys *)
Definition sortedKeys (s : gset bytes) : list bytes := sort_strings (elements s).

(** ** Pages *)

(* @src devicemanagement/storage/ddm/inmem/page.go - limitOf *)
Definition limitOf (p : Page) : Z := if Limit p <=? 0 then DefaultPageSize else Limit p.

(** The loop of [pageByKey]: [items] and [last] are what the page has so far. *)
(* @src devicemanagement/storage/ddm/inmem/page.go 26-39 pageByKey *)
Fixpoint key_loop {T} (p : Page) (item : bytes → T) (keys : list bytes) (items : list T) (last : bytes)
  : PageResult T :=
  match keys with
  | [] => mkPageResult items []
  | k :: ks =>
      if bool_decide (Cursor p ≠ []) && negb (bytes_ltb (Cursor p) k) then key_loop p item ks items last
      else if Z.of_nat (length items) =? limitOf p then mkPageResult items last
      else key_loop p item ks (items ++ [item k]) k
  end.

(* @src devicemanagement/storage/ddm/inmem/page.go - pageByKey *)
Definition pageByKey {T} (keys : list bytes) (p : Page) (item : bytes → T) : PageResult T :=
  key_loop p item (sort_strings keys) [] [].

(** The loop of [pageBySeq]; [after] is the cursor. *)
(* @src devicemanagement/storage/ddm/inmem/page.go 58-68 pageBySeq *)
Fixpoint seq_loop {T} (limit : Z) (after : option Z) (item : Z → T) (seqs : list Z) (items : list T)
  (last : Z) : PageResult T :=
  match seqs with
  | [] => mkPageResult items []
  | x :: xs =>
      if match after with Some a => a <=? x | None => false end
      then seq_loop limit after item xs items last
      else if Z.of_nat (length items) =? limit then mkPageResult items (itoa last)
      else seq_loop limit after item xs (items ++ [item x]) x
  end.

(* @src devicemanagement/storage/ddm/inmem/page.go - pageBySeq *)
Definition pageBySeq {T} (seqs : list Z) (p : Page) (item : Z → T) : result derr (PageResult T) :=
  after ← (if bool_decide (Cursor p = []) then Ok None
           else match atoi (Cursor p) with Some n => Ok (Some n) | None => Err [ErrInvalid] end);
  Ok (seq_loop (limitOf p) after item (stable_sort (λ a b, b <=? a) seqs) [] 0).

(** ** Declarations *)

(** The revision that a stored declaration is. *)
Definition version_of (d : Declaration) : DeclarationVersion :=
  mkVersion (d_Identifier d) (d_Type d) (d_ServerToken d) (Canonical d) (UpdatedAt d).

(* @src devicemanagement/storage/ddm/inmem/declarations.go 51-59 tx.PutDeclaration *)
Definition store_declaration (rec : Declaration) (st : state) : state :=
  let key := (d_Identifier rec, d_ServerToken rec) in
  let st := st <| decls := <[d_Identifier rec := rec]> (decls st) |> in
  match versions st !! key with
  | Some _ => st
  | None => st <| versions := <[key := version_of rec]> (versions st) |>
  end.

(* @src devicemanagement/storage/ddm/inmem/declarations.go - tx.PutDeclaration *)
Definition PutDeclaration (d : option Declaration) (st : state) : dres bool :=
  match d with
  | None => Err [ErrInvalid]
  | Some d =>
      _ ← validName (d_Identifier d);
      _ ← validName (d_ServerToken d);
      match decls st !! d_Identifier d with
      | Some cur =>
          if bool_decide (d_Kind cur ≠ d_Kind d) then Err [ErrConflict]
          else if bool_decide (d_ServerToken cur = d_ServerToken d) then Ok (false, st)
          else Ok (true, store_declaration (d <| CreatedAt := CreatedAt cur |>) st)
      | None => Ok (true, store_declaration d st)
      end
  end.

(* @src devicemanagement/storage/ddm/inmem/declarations.go - tx.GetDeclaration *)
Definition GetDeclaration (identifier : bytes) (st : state) : result derr Declaration :=
  _ ← validName identifier;
  match decls st !! identifier with Some d => Ok d | None => Err [ErrNotFound] end.

(* @src devicemanagement/storage/ddm/inmem/declarations.go - tx.GetDeclarationVersion *)
Definition GetDeclarationVersion (identifier serverToken : bytes) (st : state)
  : result derr DeclarationVersion :=
  _ ← validName identifier;
  _ ← validName serverToken;
  match versions st !! (identifier, serverToken) with Some v => Ok v | None => Err [ErrNotFound] end.

(* @src devicemanagement/storage/ddm/inmem/declarations.go - tx.DeleteDeclaration *)
Definition DeleteDeclaration (identifier : bytes) (st : state) : dres unit :=
  _ ← validName identifier;
  match decls st !! identifier with
  | None => Err [ErrNotFound]
  | Some _ =>
      Ok (tt, st <| decls := delete identifier (decls st) |>
                 <| versions := filter (λ '(k, _), k.1 ≠ identifier) (versions st) |>
                 <| members := removeEverywhere (members st) identifier |>
                 <| enrollDecls := removeEverywhere (enrollDecls st) identifier |>)
  end.

(** The conditions of the loop of [ListDeclarations]. *)
(* @src devicemanagement/storage/ddm/inmem/declarations.go 117-130 tx.ListDeclarations *)
Definition declaration_matches (q : DeclarationQuery) (st : state) (id : bytes) (d : Declaration) : bool :=
  (bool_decide (q_Kind q = []) || bool_decide (d_Kind d = q_Kind q))
  && (bool_decide (q_Type q = []) || bool_decide (d_Type d = q_Type q))
  && (bool_decide (InSet q = []) || bool_decide (id ∈ inner (members st) (InSet q))).

(** The value stored under a key that is known to be there, [m[k]] otherwise zero. *)
Definition noDeclaration : Declaration := mkDeclaration [] [] [] [] [] 0 0.

(* @src devicemanagement/storage/ddm/inmem/declarations.go - tx.ListDeclarations *)
Definition ListDeclarations (q : DeclarationQuery) (p : Page) (st : state) : PageResult Declaration :=
  if bool_decide (InSet q ≠ []) && bool_decide (sets st !! InSet q = None) then mkPageResult [] []
  else pageByKey (map_to_list (filter (λ '(id, d), declaration_matches q st id d = true) (decls st))).*1 p
         (λ id, default noDeclaration (decls st !! id)).

(* @src devicemanagement/storage/ddm/inmem/declarations.go 136-144 tx.PruneVersions *)
Definition kept_versions (st : state) : gset (bytes * bytes) :=
  list_to_set ((λ '(id, d), (id, d_ServerToken d)) <$> map_to_list (decls st))
  ∪ list_to_set (map_to_list (snapshots st) ≫= λ '(_, s),
      (λ it, (Identifier (Ref it), BaseToken it)) <$> sn_Items s).

(* @src devicemanagement/storage/ddm/inmem/declarations.go - tx.PruneVersions *)
Definition PruneVersions (st : state) : Z * state :=
  let kept := filter (λ '(k, _), k ∈ kept_versions st) (versions st) in
  (Z.of_nat (size (versions st)) - Z.of_nat (size kept), st <| versions := kept |>).

(* @src devicemanagement/storage/ddm/inmem/declarations.go - tx.declarationsByIdentifier *)
Definition declarationsByIdentifier (s : gset bytes) (st : state) : list Declaration :=
  omap (λ id, decls st !! id) (sortedKeys s).

(** ** Sets *)

(* @src devicemanagement/storage/ddm/inmem/sets.go - tx.PutSet *)
Definition PutSet (name : bytes) (at_ : Time) (st : state) : dres bool :=
  _ ← validName name;
  match sets st !! name with
  | Some _ => Ok (false, st)
  | None => Ok (true, st <| sets := <[name := mkSet name at_ at_]> (sets st) |>)
  end.

(* @src devicemanagement/storage/ddm/inmem/sets.go - tx.DeleteSet *)
Definition DeleteSet (name : bytes) (st : state) : dres unit :=
  _ ← validName name;
  match sets st !! name with
  | None => Err [ErrNotFound]
  | Some _ =>
      Ok (tt, st <| sets := delete name (sets st) |>
                 <| members := delete name (members st) |>
                 <| enrollSets := removeEverywhere (enrollSets st) name |>)
  end.

(* @src devicemanagement/storage/ddm/inmem/sets.go - tx.GetSet *)
Definition GetSet (name : bytes) (st : state) : result derr DSet :=
  _ ← validName name;
  match sets st !! name with Some s => Ok s | None => Err [ErrNotFound] end.

(* @src devicemanagement/storage/ddm/inmem/sets.go - tx.ListSets *)
Definition ListSets (p : Page) (st : state) : PageResult DSet :=
  pageByKey (map_to_list (sets st)).*1 p (λ name, default (mkSet [] 0 0) (sets st !! name)).

(* @src devicemanagement/storage/ddm/inmem/sets.go - tx.AddSetDeclaration *)
Definition AddSetDeclaration (set identifier : bytes) (at_ : Time) (st : state) : dres bool :=
  _ ← validName set;
  _ ← validName identifier;
  match sets st !! set with
  | None => Err [ErrNotFound]
  | Some s =>
      match decls st !! identifier with
      | None => Err [ErrNotFound]
      | Some _ =>
          let '(new, m) := add (members st) set identifier in
          if (new : bool) then
            Ok (true, st <| members := m |> <| sets := <[set := s <| s_UpdatedAt := at_ |>]> (sets st) |>)
          else Ok (false, st)
      end
  end.

(* @src devicemanagement/storage/ddm/inmem/sets.go - tx.RemoveSetDeclaration *)
Definition RemoveSetDeclaration (set identifier : bytes) (st : state) : dres bool :=
  _ ← validName set;
  _ ← validName identifier;
  match sets st !! set with
  | None => Err [ErrNotFound]
  | Some _ => let '(b, m) := remove (members st) set identifier in Ok (b, st <| members := m |>)
  end.

(* @src devicemanagement/storage/ddm/inmem/sets.go - tx.SetDeclarations *)
Definition SetDeclarations (set : bytes) (st : state) : result derr (list bytes) :=
  _ ← validName set;
  match sets st !! set with
  | None => Err [ErrNotFound]
  | Some _ => Ok (sortedKeys (inner (members st) set))
  end.

(* @src devicemanagement/storage/ddm/inmem/sets.go - tx.setsContaining *)
Definition setsContaining (identifier : bytes) (st : state) : gset bytes :=
  dom (filter (λ '(_, ms), identifier ∈ ms) (members st)).

(* @src devicemanagement/storage/ddm/inmem/sets.go - tx.DeclarationSets *)
Definition DeclarationSets (identifier : bytes) (st : state) : result derr (list bytes) :=
  _ ← validName identifier; Ok (sortedKeys (setsContaining identifier st)).

(** ** Assignments *)

(* @src devicemanagement/storage/ddm/inmem/assignments.go - tx.AssignSet *)
Definition AssignSet (id : EnrollmentID) (set : bytes) (st : state) : dres bool :=
  _ ← validID id st;
  _ ← validName set;
  match sets st !! set with
  | None => Err [ErrNotFound]
  | Some _ =>
      let '(b, m) := add (enrollSets st) (ID id) set in
      Ok (b, (remember id st) <| enrollSets := m |>)
  end.

(* @src devicemanagement/storage/ddm/inmem/assignments.go - tx.UnassignSet *)
Definition UnassignSet (id : EnrollmentID) (set : bytes) (st : state) : dres bool :=
  _ ← validID id st;
  _ ← validName set;
  let '(b, m) := remove (enrollSets st) (ID id) set in Ok (b, st <| enrollSets := m |>).

(* @src devicemanagement/storage/ddm/inmem/assignments.go - tx.EnrollmentSets *)
Definition EnrollmentSets (id : EnrollmentID) (st : state) : result derr (list bytes) :=
  _ ← validID id st; Ok (sortedKeys (inner (enrollSets st) (ID id))).

(* @src devicemanagement/storage/ddm/inmem/assignments.go - tx.SetEnrollments *)
Definition SetEnrollments (set : bytes) (p : Page) (st : state) : result derr (PageResult EnrollmentID) :=
  _ ← validName set;
  match sets st !! set with
  | None => Err [ErrNotFound]
  | Some _ =>
      Ok (pageByKey (map_to_list (filter (λ '(_, ss), set ∈ ss) (enrollSets st))).*1 p
            (λ key, default noID (ids st !! key)))
  end.

(* @src devicemanagement/storage/ddm/inmem/assignments.go - tx.AssignDeclaration *)
Definition AssignDeclaration (id : EnrollmentID) (identifier : bytes) (st : state) : dres bool :=
  _ ← validID id st;
  _ ← validName identifier;
  match decls st !! identifier with
  | None => Err [ErrNotFound]
  | Some _ =>
      let '(b, m) := add (enrollDecls st) (ID id) identifier in
      Ok (b, (remember id st) <| enrollDecls := m |>)
  end.

(* @src devicemanagement/storage/ddm/inmem/assignments.go - tx.UnassignDeclaration *)
Definition UnassignDeclaration (id : EnrollmentID) (identifier : bytes) (st : state) : dres bool :=
  _ ← validID id st;
  _ ← validName identifier;
  let '(b, m) := remove (enrollDecls st) (ID id) identifier in Ok (b, st <| enrollDecls := m |>).

(* @src devicemanagement/storage/ddm/inmem/assignments.go - tx.EnrollmentDeclarations *)
Definition EnrollmentDeclarations (id : EnrollmentID) (st : state) : result derr (list bytes) :=
  _ ← validID id st; Ok (sortedKeys (inner (enrollDecls st) (ID id))).

(* @src devicemanagement/storage/ddm/inmem/assignments.go - tx.staticIdentifiers *)
Definition staticIdentifiers (key : bytes) (st : state) : gset bytes :=
  inner (enrollDecls st) key ∪ ⋃ (inner (members st) <$> elements (inner (enrollSets st) key)).

(* @src devicemanagement/storage/ddm/inmem/assignments.go - tx.StaticDeclarations *)
Definition StaticDeclarations (id : EnrollmentID) (st : state) : result derr (list Declaration) :=
  _ ← validID id st; Ok (declarationsByIdentifier (staticIdentifiers (ID id) st) st).

(* @src devicemanagement/storage/ddm/inmem/assignments.go - compareEnrollmentIDs *)
Definition compareEnrollmentIDs (a b : EnrollmentID) : comparison :=
  cmp_or (compare_strings (ParentID a) (ParentID b)) (compare_strings (ID a) (ID b)).

(* @src devicemanagement/storage/ddm/inmem/assignments.go - intersects *)
Definition intersects (a b : gset bytes) : bool := existsb (λ k, bool_decide (k ∈ b)) (elements a).
(* @src devicemanagement/storage/ddm/inmem/assignments.go - hasAny *)
Definition hasAny (s : gset bytes) (keys : list bytes) : bool := existsb (λ k, bool_decide (k ∈ s)) keys.

(* @src devicemanagement/storage/ddm/inmem/assignments.go - tx.AffectedEnrollments *)
Definition AffectedEnrollments (identifiers setnames : list bytes) (st : state)
  : result derr (list EnrollmentID) :=
  _ ← reject (existsb (λ n, bool_decide (n = [])) identifiers) [ErrInvalid];
  _ ← reject (existsb (λ n, bool_decide (n = [])) setnames) [ErrInvalid];
  let setNames : gset bytes :=
    list_to_set setnames ∪ ⋃ ((λ i, setsContaining i st) <$> identifiers) in
  Ok (stable_sort (not_after compareEnrollmentIDs)
        (map_to_list (filter (λ '(key, _), intersects (inner (enrollSets st) key) setNames
                                 || hasAny (inner (enrollDecls st) key) identifiers = true) (ids st))).*2).

(** ** Snapshots *)

(* @src devicemanagement/storage/ddm/inmem/snapshots.go - tx.PutSnapshot *)
Definition PutSnapshot (s : option Snapshot) (st : state) : dres unit :=
  match s with
  | None => Err [ErrInvalid]
  | Some s =>
      _ ← validID (sn_ID s) st;
      _ ← reject (existsb (λ it, bool_decide (Identifier (Ref it) = [])) (sn_Items s)) [ErrInvalid];
      Ok (tt, (remember (sn_ID s) st) <| snapshots := <[ID (sn_ID s) := s]> (snapshots st) |>)
  end.

(* @src devicemanagement/storage/ddm/inmem/snapshots.go - tx.Snapshot *)
Definition GetSnapshot (id : EnrollmentID) (st : state) : result derr Snapshot :=
  _ ← validID id st;
  match snapshots st !! ID id with Some s => Ok s | None => Err [ErrNotFound] end.

(** ** Status *)

(* @src devicemanagement/storage/ddm/inmem/status.go - validStatusUpdate *)
Definition validStatusUpdate (u : StatusUpdate) : result derr unit :=
  _ ← reject (existsb (λ d, bool_decide (st_Identifier d = [])) (Declarations u)) [ErrInvalid];
  reject (existsb (λ v, bool_decide (Path v = [])) (Values u)) [ErrInvalid].

Definition status_key (d : DeclarationStatus) : Kind * bytes := (st_Kind d, st_Identifier d).

(** One row of a report, which keeps the time it was first seen. *)
(* @src devicemanagement/storage/ddm/inmem/status.go 96-105 tx.upsertStatusDeclarations *)
Definition upsert_declaration (at_ : Time) (rows : gmap (Kind * bytes) DeclarationStatus)
  (d : DeclarationStatus) : gmap (Kind * bytes) DeclarationStatus :=
  let first := match rows !! status_key d with Some cur => FirstSeen cur | None => at_ end in
  <[status_key d := d <| FirstSeen := first |> <| LastSeen := at_ |>]> rows.

(* @src devicemanagement/storage/ddm/inmem/status.go - tx.upsertStatusDeclarations *)
Definition upsertStatusDeclarations (key : bytes) (u : StatusUpdate) (st : state)
  : list DeclarationRef * state :=
  let rows := foldl (upsert_declaration (ReceivedAt u)) (default ∅ (statusDecls st !! key)) (Declarations u) in
  if negb (HasDeclarations u) then ([], st <| statusDecls := <[key := rows]> (statusDecls st) |>)
  else
    let seen : gset (Kind * bytes) := list_to_set (status_key <$> Declarations u) in
    (SortRefs ((λ '(_, row), mkRef (st_Kind row) (st_Identifier row) (st_ServerToken row))
                 <$> map_to_list (filter (λ '(k, _), k ∉ seen) rows)),
     st <| statusDecls := <[key := filter (λ '(k, _), k ∈ seen) rows]> (statusDecls st) |>).

(* @src devicemanagement/storage/ddm/inmem/status.go 129-137 tx.upsertStatusValues *)
Definition upsert_value (at_ : Time) (rows : gmap bytes StatusValue) (v : StatusValue) : gmap bytes StatusValue :=
  let first := match rows !! Path v with Some cur => sv_FirstSeen cur | None => at_ end in
  <[Path v := v <| sv_FirstSeen := first |> <| sv_LastSeen := at_ |>]> rows.

(* @src devicemanagement/storage/ddm/inmem/status.go - tx.upsertStatusValues *)
Definition upsertStatusValues (key : bytes) (u : StatusUpdate) (st : state) : list bytes * state :=
  let rows := foldl (upsert_value (ReceivedAt u)) (default ∅ (statusValues st !! key)) (Values u) in
  if negb (FullReport u) then ([], st <| statusValues := <[key := rows]> (statusValues st) |>)
  else
    let seen : gset bytes := list_to_set (Path <$> Values u) in
    (sort_strings (map_to_list (filter (λ '(k, _), k ∉ seen) rows)).*1,
     st <| statusValues := <[key := filter (λ '(k, _), k ∈ seen) rows]> (statusValues st) |>).

(** The loop over the errors of a report. *)
(* @src devicemanagement/storage/ddm/inmem/status.go 77-81 tx.PutStatus *)
Fixpoint append_errors (key : bytes) (at_ : Time) (es : list StatusError) (st : state) : state :=
  match es with
  | [] => st
  | e :: es' =>
      let '(n, st) := nextSeq st in
      let row := mkStatusError n (StatusItem e) (e_Reasons e) at_ in
      append_errors key at_ es'
        (st <| statusErrors := <[key := default [] (statusErrors st !! key) ++ [row]]> (statusErrors st) |>)
  end.

(* @src devicemanagement/storage/ddm/inmem/status.go - tx.pruneReports *)
Definition pruneReports (key : bytes) (keep : Z) (st : state) : Z * state :=
  let reports := default [] (statusReports st !! key) in
  if (keep <=? 0) || (Z.of_nat (length reports) <=? keep) then (0, st)
  else
    let n := (length reports - Z.to_nat keep)%nat in
    (Z.of_nat n, st <| statusReports := <[key := drop n reports]> (statusReports st) |>).

(* @src devicemanagement/storage/ddm/inmem/status.go - tx.PutStatus *)
Definition PutStatus (id : EnrollmentID) (u : StatusUpdate) (st : state) : dres StatusOutcome :=
  _ ← validID id st;
  _ ← validStatusUpdate u;
  let key := ID id in
  let st := remember id st in
  let '(n, st) := nextSeq st in
  let report := mkReport n (FullReport u) (Raw u) (ReceivedAt u) in
  let st := st <| statusReports := <[key := default [] (statusReports st !! key) ++ [report]]> (statusReports st) |> in
  let '(removed, st) := upsertStatusDeclarations key u st in
  let '(removedValues, st) := upsertStatusValues key u st in
  let st := append_errors key (ReceivedAt u) (Errors u) st in
  let '(pruned, st) := pruneReports key (KeepReports u) st in
  Ok (mkOutcome n removed removedValues pruned, st).

(* @src devicemanagement/storage/ddm/inmem/status.go - compareStatus *)
Definition compareStatus (a b : DeclarationStatus) : comparison :=
  cmp_or (compare_strings (st_Kind a) (st_Kind b)) (compare_strings (st_Identifier a) (st_Identifier b)).

(* @src devicemanagement/storage/ddm/inmem/status.go - tx.DeclarationStatus *)
Definition GetDeclarationStatus (id : EnrollmentID) (st : state) : result derr (list DeclarationStatus) :=
  _ ← validID id st;
  Ok (stable_sort (not_after compareStatus) (map_to_list (default ∅ (statusDecls st !! ID id))).*2).

Definition compareEDS (a b : EnrollmentDeclarationStatus) : comparison :=
  cmp_or (compare_strings (ID (eds_ID a)) (ID (eds_ID b)))
    (compare_strings (st_Kind (eds_Status a)) (st_Kind (eds_Status b))).

(** The rows of an identifier in the order they are served. *)
(* @src devicemanagement/storage/ddm/inmem/status.go 186-196 tx.DeclarationStatusByIdentifier *)
Definition status_rows (identifier : bytes) (st : state) : list EnrollmentDeclarationStatus :=
  stable_sort (not_after compareEDS)
    (map_to_list (statusDecls st) ≫= λ '(key, rows),
       (λ '(_, row), mkEDS (default noID (ids st !! key)) row)
         <$> map_to_list (filter (λ '(k, _), k.2 = identifier) rows)).

(* @src devicemanagement/storage/ddm/inmem/status.go 197-209 tx.DeclarationStatusByIdentifier *)
Fixpoint eds_loop (p : Page) (rows items : list EnrollmentDeclarationStatus)
  : PageResult EnrollmentDeclarationStatus :=
  match rows with
  | [] => mkPageResult items []
  | row :: rows' =>
      if bool_decide (Cursor p ≠ []) && negb (bytes_ltb (Cursor p) (ID (eds_ID row))) then eds_loop p rows' items
      else if Z.of_nat (length items) =? limitOf p
      then mkPageResult items (match last items with Some r => ID (eds_ID r) | None => [] end)
      else eds_loop p rows' (items ++ [row])
  end.

(* @src devicemanagement/storage/ddm/inmem/status.go - tx.DeclarationStatusByIdentifier *)
Definition DeclarationStatusByIdentifier (identifier : bytes) (p : Page) (st : state)
  : result derr (PageResult EnrollmentDeclarationStatus) :=
  _ ← validName identifier; Ok (eds_loop p (status_rows identifier st) []).

(* @src devicemanagement/storage/ddm/inmem/status.go - tx.StatusValues *)
Definition StatusValues (id : EnrollmentID) (prefix : bytes) (p : Page) (st : state)
  : result derr (PageResult StatusValue) :=
  _ ← validID id st;
  let rows := default ∅ (statusValues st !! ID id) in
  Ok (pageByKey (map_to_list (filter (λ '(path, _), has_prefix path prefix = true) rows)).*1 p
        (λ path, default (mkValue [] [] 0 0) (rows !! path))).

(* @src devicemanagement/storage/ddm/inmem/status.go - tx.StatusErrors *)
Definition StatusErrors (id : EnrollmentID) (p : Page) (st : state) : result derr (PageResult StatusError) :=
  _ ← validID id st;
  let bySeq : gmap Z StatusError :=
    foldl (λ m e, <[e_Seq e := e]> m) ∅ (default [] (statusErrors st !! ID id)) in
  pageBySeq (map_to_list bySeq).*1 p (λ n, default (mkStatusError 0 [] [] 0) (bySeq !! n)).

(* @src devicemanagement/storage/ddm/inmem/status.go - tx.StatusReports *)
Definition StatusReports (id : EnrollmentID) (p : Page) (st : state) : result derr (PageResult StatusReportRecord) :=
  _ ← validID id st;
  let bySeq : gmap Z StatusReportRecord :=
    foldl (λ m r, <[rep_Seq r := r]> m) ∅ (default [] (statusReports st !! ID id)) in
  pageBySeq (map_to_list bySeq).*1 p (λ n, default (mkReport 0 false [] 0) (bySeq !! n)).

(** ** Change notifications *)

(* @src devicemanagement/storage/ddm/inmem/changes.go 25-29 tx.RecordChanges *)
Definition record_change (reason : bytes) (at_ : Time) (st : state) (id : EnrollmentID) : state :=
  let '(n, st) := nextSeq st in
  (remember id st) <| changes := <[n := mkChange n id reason at_ 0 [] at_]> (changes st) |>.

(** The validation of every id before a row is written. *)
Fixpoint validIDs (l : list EnrollmentID) (st : state) : result derr unit :=
  match l with [] => Ok tt | id :: l' => _ ← validID id st; validIDs l' st end.

(* @src devicemanagement/storage/ddm/inmem/changes.go - tx.RecordChanges *)
Definition RecordChanges (l : list EnrollmentID) (reason : bytes) (at_ : Time) (st : state) : dres unit :=
  _ ← validIDs l st;
  Ok (tt, foldl (record_change reason at_) st l).

(* @src devicemanagement/storage/ddm/inmem/changes.go - due *)
Definition due (c : Change) (now : Time) : bool := negb (now <? NextAttemptAt c).

(* @src devicemanagement/storage/ddm/inmem/changes.go 15-15 defaultPendingLimit *)
Definition defaultPendingLimit : Z := 500.

(* @src devicemanagement/storage/ddm/inmem/changes.go - tx.PendingChanges *)
Definition PendingChanges (now : Time) (limit : Z) (st : state) : list Change :=
  let limit := if limit <=? 0 then defaultPendingLimit else limit in
  take (Z.to_nat limit)
    (stable_sort (λ a b, c_Seq a <=? c_Seq b) (map_to_list (filter (λ '(_, c), due c now = true) (changes st))).*2).

(* @src devicemanagement/storage/ddm/inmem/changes.go - tx.CompleteChanges *)
Definition CompleteChanges (seqs : list Z) (st : state) : state :=
  st <| changes := foldl (λ m n, delete n m) (changes st) seqs |>.

(* @src devicemanagement/storage/ddm/inmem/changes.go 66-75 tx.FailChanges *)
Definition fail_change (msg : bytes) (nextAttempt : Time) (m : gmap Z Change) (n : Z) : gmap Z Change :=
  match m !! n with
  | None => m
  | Some c => <[n := c <| c_Attempts := c_Attempts c + 1 |> <| LastError := msg |> <| NextAttemptAt := nextAttempt |>]> m
  end.

(* @src devicemanagement/storage/ddm/inmem/changes.go - tx.FailChanges *)
Definition FailChanges (seqs : list Z) (msg : bytes) (nextAttempt : Time) (st : state) : state :=
  st <| changes := foldl (fail_change msg nextAttempt) (changes st) seqs |>.

(* @src devicemanagement/storage/ddm/inmem/changes.go - tx.ChangeStats *)
Definition ChangeStats (now : Time) (st : state) : Z * Z :=
  (Z.of_nat (size (filter (λ '(_, c), due c now = true) (changes st))),
   Z.of_nat (size (filter (λ '(_, c), 0 < c_Attempts c) (changes st)))).

(** ** Forgetting an enrollment *)

(* @src devicemanagement/storage/ddm/inmem/clear.go - tx.ClearEnrollment *)
Definition ClearEnrollment (id : EnrollmentID) (st : state) : dres unit :=
  _ ← validID id st;
  let key := ID id in
  Ok (tt, st <| enrollSets := delete key (enrollSets st) |>
             <| enrollDecls := delete key (enrollDecls st) |>
             <| snapshots := delete key (snapshots st) |>
             <| statusDecls := delete key (statusDecls st) |>
             <| statusValues := delete key (statusValues st) |>
             <| statusErrors := delete key (statusErrors st) |>
             <| statusReports := delete key (statusReports st) |>
             <| changes := filter (λ '(_, c), ID (c_ID c) ≠ key) (changes st) |>).

(* @src devicemanagement/storage/ddm/inmem/publication.go - tx.LockPublication *)
Definition LockPublication (name : bytes) : result derr unit := validName name.
