(* ===== verification/DdmDecl.v ===== *)
(** * Declarations as documents: [declaration.go], [predicate_check.go], [compatibility.go]

    A declaration is uploaded as JSON, validated against the generated schema and stored
    in canonical form; its token is derived from the canonical bytes. The JSON text layer
    ([encoding/json/v2] and [internal/canonjson]) is the class [JsonCodec], the generated
    schema the class [DdmSchema]; what the code does with the values is defined here. *)
From S2P Require Import Prelude GoStrings OsVersion Support Mdm Storage Sha256 Float64 Validation PredLexer PredParser Json DdmTypes DdmStore.

(** ** JSON values *)

(** The value of a member. *)
Fixpoint member (name : bytes) (ms : list (bytes * json)) : option json :=
  match ms with [] => None | (n, v) :: ms' => if bool_decide (n = name) then Some v else member name ms' end.
(** The object with a member set; a new one is added. *)
Fixpoint set_member (name : bytes) (v : json) (ms : list (bytes * json)) : list (bytes * json) :=
  match ms with
  | [] => [(name, v)]
  | (n, w) :: ms' => if bool_decide (n = name) then (n, v) :: ms' else (n, w) :: set_member name v ms'
  end.

(** [json.Unmarshal] of a whole text, [canonjson.Marshal] and [canonjson.Canonicalize]. *)
Class JsonCodec := {
  json_decode : bytes → option json;
  json_encode : json → option bytes;
  Canonicalize : bytes → option bytes }.

(** What the generated schema knows: the kinds registered for a wire type, whether a payload
    decodes and validates for a target and with which availability findings, the predicate
    of an activation payload, the asset references of a wire type, the support of status
    items, and the status items among a device's reported payloads. *)
(* @src devicemanagement/schema/ddm/registry.gen.go 764-767 AssetReference *)
Record AssetReference := mkAssetReference { ar_Path : list bytes; ar_Types : list bytes }.
Class DdmSchema := {
  ByID : bytes → list Kind;
  payload_valid : Target → bytes → json → bool;
  availability : Target → bytes → json → list AvailabilityIssue;
  activation_predicate : json → option (option bytes);
  AssetReferences : bytes → list AssetReference;
  status_Registry : list (bytes * option Entry);
  supported_status_items : json → option (list bytes) }.

(* @src devicemanagement/schema/ddm/registry.gen.go 56-56 DeclarationTypeActivationSimple *)
Definition DeclarationTypeActivationSimple : bytes := bs "com.apple.activation.simple".
(* @src devicemanagement/schema/ddm/registry.gen.go 120-120 DeclarationTypeManagementStatusSubscriptions *)
Definition DeclarationTypeManagementStatusSubscriptions : bytes :=
  bs "com.apple.configuration.management.status-subscriptions".

(** ** Envelopes *)

(** An absent payload is [None]. *)
(* @src devicemanagement/mdmprotocol/ddm/declaration.go - declarationEnvelope *)
Record declarationEnvelope := mkEnvelope {
  env_Type : bytes; env_Identifier : bytes; env_ServerToken : bytes; env_Payload : option json }.
#[export] Instance envelope_eta : Eta declarationEnvelope := λ e,
  mkEnvelope (env_Type e) (env_Identifier e) (env_ServerToken e) (env_Payload e).
Definition noEnvelope : declarationEnvelope := mkEnvelope [] [] [] None.

(** A JSON string or null, decoded into a Go string. *)
Definition as_string (v : json) : option bytes :=
  match v with JStr s => Some s | JNull => Some [] | _ => None end.

(** Decoding the members of an object into the envelope; [strict] refuses unknown members. *)
Fixpoint envelope_members (strict : bool) (ms : list (bytes * json)) (e : declarationEnvelope)
  : option declarationEnvelope :=
  match ms with
  | [] => Some e
  | (n, v) :: ms' =>
      if bool_decide (n = bs "Type") then
        s ← as_string v; envelope_members strict ms' (e <| env_Type := s |>)
      else if bool_decide (n = bs "Identifier") then
        s ← as_string v; envelope_members strict ms' (e <| env_Identifier := s |>)
      else if bool_decide (n = bs "ServerToken") then
        s ← as_string v; envelope_members strict ms' (e <| env_ServerToken := s |>)
      else if bool_decide (n = bs "Payload") then
        envelope_members strict ms' (e <| env_Payload := Some v |>)
      else if strict then None else envelope_members strict ms' e
  end.
Definition decode_envelope (strict : bool) (v : json) : option declarationEnvelope :=
  match v with
  | JObj ms => envelope_members strict ms noEnvelope
  | JNull => Some noEnvelope
  | _ => None
  end.

Section Declarations.
Context {JC : JsonCodec} {DS : DdmSchema}.

(* @src devicemanagement/mdmprotocol/ddm/declaration.go - validIdentifier *)
Definition validIdentifier (s : bytes) : result derr unit :=
  if bool_decide (s = []) then Err [ErrInvalidDeclaration]
  else if (MaxIdentifierBytes <? length s)%nat then Err [ErrInvalidDeclaration]
  else if existsb (Z.eqb 47) s then Err [ErrInvalidDeclaration]
  else Ok tt.

(* @src devicemanagement/mdmprotocol/ddm/declaration.go - lookupType *)
Definition lookupType (typ : bytes) : result derr Kind :=
  match list_find (λ k, k ∈ StandaloneKinds) (ByID typ) with
  | Some (_, k) => Ok k
  | None => Err [ErrUnknownType]
  end.

(** The payload as the code reads it: an absent one is the empty object. *)
Definition payload_of (e : declarationEnvelope) : json := default (JObj []) (env_Payload e).

(* @src devicemanagement/mdmprotocol/ddm/declaration.go - canonicalDeclaration *)
Definition canonicalDeclaration (identifier typ : bytes) (payload : json) : result derr bytes :=
  match json_encode (JObj [(bs "Identifier", JStr identifier); (bs "Payload", payload); (bs "Type", JStr typ)]) with
  | Some out => Ok out
  | None => Err [ErrInvalidDeclaration]
  end.

(** [parseDeclaration] of a decoded text. *)
(* @src devicemanagement/mdmprotocol/ddm/declaration.go - parseDeclaration *)
Definition parseDeclaration (doc : option json) (target : Target) : result derr Declaration :=
  match doc ≫= decode_envelope true with
  | None => Err [ErrInvalidDeclaration]
  | Some env =>
      _ ← validIdentifier (env_Identifier env);
      _ ← reject (bool_decide (env_Type env = [])) [ErrInvalidDeclaration];
      kind ← lookupType (env_Type env);
      let payload := payload_of env in
      _ ← reject (negb (payload_valid target (env_Type env) payload)) [ErrInvalidDeclaration];
      canonical ← canonicalDeclaration (env_Identifier env) (env_Type env) payload;
      Ok (mkDeclaration (env_Identifier env) (env_Type env) kind (TokenFor canonical) canonical 0 0)
  end.

(* @src devicemanagement/mdmprotocol/ddm/declaration.go - ParseDeclaration *)
Definition ParseDeclaration (raw : bytes) (target : Target) : result derr Declaration :=
  parseDeclaration (json_decode raw) target.

(* @src devicemanagement/mdmprotocol/ddm/declaration.go - splitCanonical *)
Definition splitCanonical (canonical : bytes) : result derr declarationEnvelope :=
  match json_decode canonical ≫= decode_envelope false with
  | Some env => Ok env
  | None => Err [ErrInvalidDeclaration]
  end.

(* @src devicemanagement/mdmprotocol/ddm/declaration.go - RenderDeclaration *)
Definition RenderDeclaration (canonical serverToken : bytes) : result derr bytes :=
  env ← splitCanonical canonical;
  match json_encode (JObj [(bs "Identifier", JStr (env_Identifier env)); (bs "Payload", payload_of env);
                           (bs "ServerToken", JStr serverToken); (bs "Type", JStr (env_Type env))]) with
  | Some out => Ok out
  | None => Err [ErrInvalidDeclaration]
  end.

(** [predicate.Validate]. *)
(* @src devicemanagement/mdmprotocol/ddm/predicate/predicate.go - Validate *)
Definition predicate_Validate (s : bytes) : bool := match Parse s with Ok _ => true | Err _ => false end.

(* @src devicemanagement/mdmprotocol/ddm/predicate_check.go - Engine.validatePredicate *)
Definition validatePredicate (d : Declaration) : result derr unit :=
  if bool_decide (d_Type d ≠ DeclarationTypeActivationSimple) then Ok tt
  else
    env ← splitCanonical (Canonical d);
    pred ← match env_Payload env with
           | None => Ok None
           | Some payload =>
               match activation_predicate payload with Some p => Ok p | None => Err [ErrInvalidDeclaration] end
           end;
    match pred with
    | None => Ok tt
    | Some p =>
        if bool_decide (p = []) then Ok tt
        else reject (negb (predicate_Validate p)) [ErrInvalidDeclaration]
    end.
End Declarations.

(** ** What a parsed declaration satisfies *)

(** The store's rows as the engine writes them: a valid identifier, and the token of the bytes. *)
Record derived (d : Declaration) : Prop := {
  derived_token : d_ServerToken d = TokenFor (Canonical d);
  derived_identifier : d_Identifier d ≠ [];
  derived_length : (length (d_Identifier d) ≤ MaxIdentifierBytes)%nat;
  derived_slash : 47 ∉ d_Identifier d;
  derived_kind : d_Kind d ∈ StandaloneKinds }.

Lemma TokenFor_ne c : TokenFor c ≠ [].
Proof.
  unfold TokenFor. destruct (Sum256_spec c) as [Hl Hb]. intros E. apply (f_equal length) in E.
  destruct (hex_spec (Sum256 c) Hb) as [_ Hx]. rewrite Hx, Hl in E. done.
Qed.

Lemma TokenFor_short c : length (TokenFor c) = 64%nat.
Proof. unfold TokenFor. destruct (Sum256_spec c) as [Hl Hb]. destruct (hex_spec (Sum256 c) Hb) as [_ ->]. by rewrite Hl. Qed.

Lemma parseDeclaration_derived {JC : JsonCodec} {DS : DdmSchema} doc target d :
  parseDeclaration doc target = Ok d → derived d.
Proof.
  unfold parseDeclaration. destruct (_ ≫= _) as [env|]; [|done]. intros H. go_binds H.
  unfold validIdentifier in Hb. destruct (bool_decide (env_Identifier env = [])) eqn:Hne; [done|].
  apply bool_decide_eq_false in Hne. destruct (_ <? _)%nat eqn:Hl; [done|].
  destruct (existsb _ _) eqn:Hs; [done|]. apply Nat.ltb_ge in Hl. apply slash_free in Hs.
  split; cbn; [done|done|done|done|]. unfold lookupType in Hb1. destruct (list_find _ _) as [[i k]|] eqn:Hf; [|done].
  apply list_find_Some in Hf as (_ & Hk & _). by simplify_eq.
Qed.

(** ** What a device can be sent: [compatibility.go]

    [filterCompatible] withholds the declarations of a manifest that the device's target
    cannot take, then those whose assets are withheld, to a fixed point, then takes the
    withheld configurations out of the activations. The entries are shared by pointer
    between the list and the index of the code; here a pass over the list sees the
    entries it has already changed. *)

(* @src devicemanagement/mdmprotocol/ddm/compatibility.go - CompatibilityIssue *)
Record CompatibilityIssue := mkIssue {
  is_Identifier : bytes; is_Reason : bytes; Withheld : bool; is_Availability : list AvailabilityIssue }.

(** The payload is the decoded object; an empty reason means eligible. *)
(* @src devicemanagement/mdmprotocol/ddm/compatibility.go - compatibleItem *)
Record compatibleItem := mkCompatible {
  ci_item : SnapshotItem;
  ci_typ : bytes;
  ci_payload : list (bytes * json);
  ci_reason : bytes;
  ci_availability : list AvailabilityIssue }.
#[export] Instance compatibleItem_eta : Eta compatibleItem := λ c,
  mkCompatible (ci_item c) (ci_typ c) (ci_payload c) (ci_reason c) (ci_availability c).

Definition ci_id (c : compatibleItem) : bytes := Identifier (Ref (ci_item c)).
Definition eligible (c : compatibleItem) : bool := bool_decide (ci_reason c = []).

(** [byID[id]]: the last entry with the identifier. *)
Definition byID (all : list compatibleItem) (id : bytes) : option compatibleItem :=
  last (filter (λ c, ci_id c = id) all).

(** ** References *)

(** Go visits the members of an object in any order; the result is used as a set. *)
(* @src devicemanagement/mdmprotocol/ddm/compatibility.go - referencedStrings *)
Fixpoint referencedStrings (value : json) (path : list bytes) {struct path} : list bytes :=
  match path with
  | [] => match value with JStr s => [s] | _ => [] end
  | p :: path' =>
      if bool_decide (p = bs "*") then
        match value with
        | JArr l => l ≫= λ v, referencedStrings v path'
        | JObj ms => ms ≫= λ '(_, v), referencedStrings v path'
        | _ => []
        end
      else
        match value with
        | JObj ms => match member p ms with Some v => referencedStrings v path' | None => [] end
        | _ => []
        end
  end.

Section Compatibility.
Context {JC : JsonCodec} {DS : DdmSchema}.

(** The condition on a referenced asset. *)
Definition asset_ok (all : list compatibleItem) (types : list bytes) (id : bytes) : bool :=
  match byID all id with
  | None => false
  | Some a => eligible a && bool_decide (r_Kind (Ref (ci_item a)) = KindAsset) && bool_decide (ci_typ a ∈ types)
  end.
Definition assets_ok (all : list compatibleItem) (c : compatibleItem) : bool :=
  forallb (λ ref, forallb (asset_ok all (ar_Types ref)) (referencedStrings (JObj (ci_payload c)) (ar_Path ref)))
    (AssetReferences (ci_typ c)).

(** One pass over the entries; [done] are those before the current one, as they are now. *)
(* @src devicemanagement/mdmprotocol/ddm/compatibility.go 134-147 filterCompatible *)
Fixpoint asset_pass (done todo : list compatibleItem) (changed : bool) : list compatibleItem * bool :=
  match todo with
  | [] => (done, changed)
  | c :: todo' =>
      if negb (eligible c) || assets_ok (done ++ c :: todo') c then asset_pass (done ++ [c]) todo' changed
      else asset_pass (done ++ [c <| ci_reason := bs "asset-unavailable" |>]) todo' true
  end.

(** [for changed := true; changed;]: every pass but the last withholds an entry, so one more
    pass than entries is enough. *)
(* @src devicemanagement/mdmprotocol/ddm/compatibility.go 132-148 filterCompatible *)
Fixpoint asset_loop (fuel : nat) (l : list compatibleItem) : list compatibleItem :=
  match fuel with
  | O => l
  | S fuel' => let '(l', changed) := asset_pass [] l false in if (changed : bool) then asset_loop fuel' l' else l'
  end.

(** ** Entries *)

(** [target.OS == "" || target.Version.IsZero()] *)
Definition target_unknown (t : Target) : bool := bool_decide (TOS t = []) || IsZero (TVersion t).

(* @src devicemanagement/mdmprotocol/ddm/subscriptions.go 27-33 DefaultSubscriptionBaseline *)
Definition DefaultSubscriptionBaseline : list bytes :=
  bs <$> ["device.identifier.serial-number"; "device.identifier.udid"; "device.model.family";
          "device.model.identifier"; "device.model.marketing-name";
          "device.operating-system.build-version"; "device.operating-system.family";
          "device.operating-system.marketing-name"; "device.operating-system.version";
          "management.client-capabilities"; "management.declarations"]%string.

Definition array_of (v : option json) : list json := match v with Some (JArr l) => l | _ => [] end.

(** The name of a subscribed status item. *)
Definition item_name (v : json) : bytes :=
  match v with
  | JObj ms => match member (bs "Name") ms with Some (JStr s) => s | _ => [] end
  | _ => []
  end.

(* @src devicemanagement/mdmprotocol/ddm/compatibility.go 214-222 pruneStatusSubscriptions *)
Definition status_allowed (t : Target) (unknown : bool) (name : bytes) : bool :=
  if unknown then bool_decide (name ∈ DefaultSubscriptionBaseline)
  else existsb (λ '(id, e), bool_decide (id = name) && RSupported (Check e t)) status_Registry.

(* @src devicemanagement/mdmprotocol/ddm/compatibility.go - pruneStatusSubscriptions *)
Definition pruneStatusSubscriptions (t : Target) (unknown : bool) (c : compatibleItem) : compatibleItem :=
  let kept := filter (λ v, status_allowed t unknown (item_name v) = true)
                (array_of (member (bs "StatusItems") (ci_payload c))) in
  let c := c <| ci_payload := set_member (bs "StatusItems") (JArr kept) (ci_payload c) |> in
  if bool_decide (kept = []) then c <| ci_reason := bs "no-compatible-status-items" |> else c.

(** The findings the collector has after [parseDeclaration]. *)
Definition collected (canonical : bytes) (t : Target) : list AvailabilityIssue :=
  match json_decode canonical ≫= decode_envelope true with
  | Some env =>
      match lookupType (env_Type env) with Ok _ => availability t (env_Type env) (payload_of env) | Err _ => [] end
  | None => []
  end.

(** The bytes an item stands for. *)
(* @src devicemanagement/mdmprotocol/ddm/compatibility.go 99-106 filterCompatible *)
Definition item_canonical (st : state) (it : SnapshotItem) : result derr bytes :=
  match Expanded it with
  | Some c => Ok c
  | None => v ← GetDeclarationVersion (Identifier (Ref it)) (BaseToken it) st; Ok (v_Canonical v)
  end.

(** [json.Unmarshal(env.Payload, &entry.payload)]. A payload [null] gives the nil map, which
    reads and is written as the empty one. Assigning to it would panic, but the assignments
    are not reached: [pruneStatusSubscriptions] runs after the validator has accepted the
    payload, which requires [StatusItems], and activations are only rewritten when they have
    references. *)
Definition payload_map (p : option json) : result derr (list (bytes * json)) :=
  match p with Some (JObj ms) => Ok ms | Some JNull => Ok [] | _ => Err [] end.

(* @src devicemanagement/mdmprotocol/ddm/compatibility.go 98-129 filterCompatible *)
Definition compat_entry (st : state) (t : Target) (it : SnapshotItem) : result derr compatibleItem :=
  let unknown := target_unknown t in
  canonical ← item_canonical st it;
  env ← splitCanonical canonical;
  payload ← payload_map (env_Payload env);
  let subscriptions := bool_decide (env_Type env = DeclarationTypeManagementStatusSubscriptions) in
  let c := mkCompatible it (env_Type env) payload [] [] in
  let c :=
    if unknown && negb subscriptions && bool_decide (env_Type env ≠ DeclarationTypeActivationSimple)
    then c <| ci_reason := bs "inventory-required" |>
    else c <| ci_reason := match ParseDeclaration canonical t with Ok _ => [] | Err _ => bs "unsupported-target" end |>
           <| ci_availability := collected canonical t |> in
  Ok (if eligible c && subscriptions then pruneStatusSubscriptions t unknown c else c).

(** The first loop: the entries in order. *)
Fixpoint compat_entries (st : state) (t : Target) (items : list SnapshotItem) : result derr (list compatibleItem) :=
  match items with
  | [] => Ok []
  | it :: items' => c ← compat_entry st t it; cs ← compat_entries st t items'; Ok (c :: cs)
  end.

(** ** Activations and the result *)

Definition configuration_ok (all : list compatibleItem) (v : json) : bool :=
  match byID all (match v with JStr s => s | _ => [] end) with
  | None => false
  | Some d => eligible d && bool_decide (r_Kind (Ref (ci_item d)) = KindConfiguration)
  end.

(** An activation keeps the references to eligible configurations; the flag says whether some
    were taken out. *)
(* @src devicemanagement/mdmprotocol/ddm/compatibility.go 153-168 filterCompatible *)
Definition filter_activation (all : list compatibleItem) (c : compatibleItem) : compatibleItem * bool :=
  if eligible c && bool_decide (ci_typ c = DeclarationTypeActivationSimple) then
    let refs := array_of (member (bs "StandardConfigurations") (ci_payload c)) in
    let kept := filter (λ v, configuration_ok all v = true) refs in
    if bool_decide (kept = []) then (c <| ci_reason := bs "no-compatible-configurations" |>, false)
    else if (length kept =? length refs)%nat then (c, false)
    else (c <| ci_payload := set_member (bs "StandardConfigurations") (JArr kept) (ci_payload c) |>, true)
  else (c, false).

(** The item that is served for an eligible entry: its token is that of the payload as it is
    now. The flag says whether that changed the item. *)
(* @src devicemanagement/mdmprotocol/ddm/compatibility.go 173-184 filterCompatible *)
Definition served_item (c : compatibleItem) : result derr (SnapshotItem * bool) :=
  match json_encode (JObj (ci_payload c)) with
  | None => Err []
  | Some _ =>
      canonical ← canonicalDeclaration (ci_id c) (ci_typ c) (JObj (ci_payload c));
      let it := ci_item c in
      if bool_decide (TokenFor canonical = ServerToken (Ref it)) then Ok (it, false)
      else Ok (mkItem (mkRef (r_Kind (Ref it)) (Identifier (Ref it)) (TokenFor canonical)) (BaseToken it)
                 (Some canonical), true)
  end.

(* @src devicemanagement/mdmprotocol/ddm/compatibility.go 188-198 filterCompatible *)
Definition warnings (c : compatibleItem) : list CompatibilityIssue :=
  [(RuleDeprecated, bs "deprecated"); (RuleUnvalidated, bs "unvalidated")] ≫= λ '(rule, name),
    let keys := filter (λ i, ai_Rule i = rule) (ci_availability c) in
    if bool_decide (ai_Path <$> keys = []) then [] else [mkIssue (ci_id c) name false keys].

(** The second loop over the entries. *)
(* @src devicemanagement/mdmprotocol/ddm/compatibility.go 149-200 filterCompatible *)
Fixpoint compat_result (done todo : list compatibleItem) : result derr (list SnapshotItem * list CompatibilityIssue) :=
  match todo with
  | [] => Ok ([], [])
  | c :: todo' =>
      let '(c, filtered) := filter_activation (done ++ c :: todo') c in
      if negb (eligible c) then
        '(items, issues) ← compat_result (done ++ [c]) todo';
        Ok (items, mkIssue (ci_id c) (ci_reason c) true (ci_availability c) :: issues)
      else
        '(it, changed) ← served_item c;
        '(items, issues) ← compat_result (done ++ [c]) todo';
        Ok (it :: items,
            (if (filtered : bool) || (changed : bool) then [mkIssue (ci_id c) (bs "references-filtered") false []] else [])
            ++ warnings c ++ issues)
  end.

Definition compareIssues (a b : CompatibilityIssue) : comparison :=
  cmp_or (compare_strings (is_Identifier a) (is_Identifier b)) (compare_strings (is_Reason a) (is_Reason b)).

(** [slices.SortFunc] is not stable, but no two issues of a manifest compare equal: its items
    have distinct identifiers, and the issues of one item distinct reasons. *)
(* @src devicemanagement/mdmprotocol/ddm/compatibility.go - filterCompatible *)
Definition filterCompatible (st : state) (items : list SnapshotItem) (t : Target)
  : result derr (list SnapshotItem * list CompatibilityIssue) :=
  entries ← compat_entries st t items;
  '(result, issues) ← compat_result [] (asset_loop (S (length entries)) entries);
  Ok (result, stable_sort (not_after compareIssues) issues).
End Compatibility.

(* @src devicemanagement/mdmprotocol/ddm/compatibility.go - sameItems *)
Definition sameItems (a b : list SnapshotItem) : bool := bool_decide (Ref <$> a = Ref <$> b).
