(* ===== verification/DdmEngine.v ===== *)
(** * The declaration engine: [mdmprotocol/ddm]

    Administration ([admin.go], [publication.go], [clear.go]), manifests
    ([membership.go], [subscriptions.go], [compatibility.go]) and what devices are served
    ([serve.go]), over the declaration store. An operation that makes several store
    transactions can fail after one has committed, so an engine operation is an [act]: it
    returns a result and the state it leaves. An operation is modelled as it runs alone;
    each of its transactions is atomic. *)
From S2P Require Import Prelude GoStrings OsVersion Support Mdm Storage Sha256 Json DdmTypes DdmStore DdmDecl.

(** ** Operations *)

Definition act (A : Type) : Type := state → result derr A * state.
#[export] Instance act_ret : MRet act := λ A a st, (Ok a, st).
#[export] Instance act_bind : MBind act := λ A B f m st,
  match m st with (Ok a, st') => f a st' | (Err e, st') => (Err e, st') end.

Definition fail {A} (e : derr) : act A := λ st, (Err e, st).
Definition lift {A} (r : result derr A) : act A := λ st, (r, st).
(** A read of the store. *)
Definition query {A} (f : state → result derr A) : act A := λ st, (f st, st).
(** A transaction, or a single call that writes. *)
Definition commit {A} (f : state → dres A) : act A := λ st,
  match f st with Ok (a, st') => (Ok a, st') | Err e => (Err e, st) end.
(** The error of [m] as a value, for a caller that looks at it. *)
Definition attempt {A} (m : act A) : act (result derr A) := λ st, let '(r, st') := m st in (Ok r, st').
(** [store.Update(fn)] *)
Definition update {A} (fn : state → dres A) : act A := commit (Update (Some fn)).

(** ** Configuration *)

(** A resolver names further declarations of an enrollment, the expander rewrites the bytes of
    a declaration for one. *)
(* @src devicemanagement/mdmprotocol/ddm/engine.go - Engine *)
Record Engine := mkEngine {
  resolvers : list (EnrollmentID → result derr (list bytes));
  expander : option (EnrollmentID → Declaration → result derr bytes);
  upload_target : Target;
  enrollmentTarget : option (EnrollmentID → result derr Target);
  subs_Enabled : bool;
  subs_Baseline : list bytes;
  subs_Exclude : list bytes }.

(* @src devicemanagement/mdmprotocol/ddm/admin.go 14-14 ReasonDeclaration *)
Definition ReasonDeclaration : bytes := bs "declaration".
(* @src devicemanagement/mdmprotocol/ddm/admin.go 15-15 ReasonSet *)
Definition ReasonSet : bytes := bs "set".
(* @src devicemanagement/mdmprotocol/ddm/admin.go 16-16 ReasonAssignment *)
Definition ReasonAssignment : bytes := bs "assignment".
(* @src devicemanagement/mdmprotocol/ddm/admin.go 17-17 ReasonTouch *)
Definition ReasonTouch : bytes := bs "touch".

(** [id.Validate()], as the engine reports it. *)
Definition engine_validID (id : EnrollmentID) : result derr unit := validID0 id.

(** ** Administration *)

(* @src devicemanagement/mdmprotocol/ddm/admin.go - Engine.recordAffected *)
Definition recordAffected (identifiers setnames : list bytes) (reason : bytes) (now : Time) (st : state) : dres unit :=
  l ← AffectedEnrollments identifiers setnames st;
  if bool_decide (l = []) then Ok (tt, st) else RecordChanges l reason now st.

Section Engine.
Context {JC : JsonCodec} {DS : DdmSchema}.

(** The transaction of [PutDeclaration]. *)
(* @src devicemanagement/mdmprotocol/ddm/admin.go 34-47 Engine.PutDeclaration *)
Definition put_declaration_tx (d : Declaration) (now : Time) (st : state) : dres (Declaration * bool) :=
  let d := match GetDeclaration (d_Identifier d) st with
           | Ok prev => d <| CreatedAt := CreatedAt prev |>
           | Err _ => d
           end in
  '(changed, st) ← PutDeclaration (Some d) st;
  if negb changed then Ok ((d, false), st)
  else '(_, st) ← recordAffected [d_Identifier d] [] ReasonDeclaration now st; Ok ((d, true), st).

(* @src devicemanagement/mdmprotocol/ddm/admin.go - Engine.PutDeclaration *)
Definition Engine_PutDeclaration (e : Engine) (raw : bytes) (now : Time) : act (Declaration * bool) :=
  d ← lift (ParseDeclaration raw (upload_target e));
  _ ← lift (validatePredicate d);
  update (put_declaration_tx (d <| CreatedAt := now |> <| UpdatedAt := now |>) now).

(* @src devicemanagement/mdmprotocol/ddm/admin.go - Engine.DeleteDeclaration *)
Definition Engine_DeleteDeclaration (identifier : bytes) (now : Time) : act unit :=
  update (λ st, '(_, st) ← recordAffected [identifier] [] ReasonDeclaration now st; DeleteDeclaration identifier st).

(* @src devicemanagement/mdmprotocol/ddm/admin.go - Engine.PutSet *)
Definition Engine_PutSet (name : bytes) (now : Time) : act bool := commit (PutSet name now).

(* @src devicemanagement/mdmprotocol/ddm/admin.go - Engine.DeleteSet *)
Definition Engine_DeleteSet (name : bytes) (now : Time) : act unit :=
  update (λ st, '(_, st) ← recordAffected [] [name] ReasonSet now st; DeleteSet name st).

(* @src devicemanagement/mdmprotocol/ddm/admin.go - Engine.setMembership *)
Definition setMembership (set : bytes) (op : state → dres bool) (now : Time) : act bool :=
  update (λ st,
    '(changed, st) ← op st;
    if negb changed then Ok (false, st)
    else '(_, st) ← recordAffected [] [set] ReasonSet now st; Ok (true, st)).

(** The clock is read twice, [at_] for the row and [now] for the notification. *)
(* @src devicemanagement/mdmprotocol/ddm/admin.go - Engine.AddToSet *)
Definition AddToSet (set identifier : bytes) (now at_ : Time) : act bool :=
  setMembership set (AddSetDeclaration set identifier at_) now.
(* @src devicemanagement/mdmprotocol/ddm/admin.go - Engine.RemoveFromSet *)
Definition RemoveFromSet (set identifier : bytes) (now : Time) : act bool :=
  setMembership set (RemoveSetDeclaration set identifier) now.

(* @src devicemanagement/mdmprotocol/ddm/admin.go - Engine.assignment *)
Definition assignment (id : EnrollmentID) (op : state → dres bool) (now : Time) : act bool :=
  _ ← lift (engine_validID id);
  update (λ st,
    '(changed, st) ← op st;
    if negb changed then Ok (false, st)
    else '(_, st) ← RecordChanges [id] ReasonAssignment now st; Ok (true, st)).

(* @src devicemanagement/mdmprotocol/ddm/admin.go - Engine.AssignSet *)
Definition Engine_AssignSet (id : EnrollmentID) (set : bytes) (now : Time) : act bool :=
  assignment id (AssignSet id set) now.
(* @src devicemanagement/mdmprotocol/ddm/admin.go - Engine.UnassignSet *)
Definition Engine_UnassignSet (id : EnrollmentID) (set : bytes) (now : Time) : act bool :=
  assignment id (UnassignSet id set) now.
(* @src devicemanagement/mdmprotocol/ddm/admin.go - Engine.AssignDeclaration *)
Definition Engine_AssignDeclaration (id : EnrollmentID) (identifier : bytes) (now : Time) : act bool :=
  assignment id (AssignDeclaration id identifier) now.
(* @src devicemanagement/mdmprotocol/ddm/admin.go - Engine.UnassignDeclaration *)
Definition Engine_UnassignDeclaration (id : EnrollmentID) (identifier : bytes) (now : Time) : act bool :=
  assignment id (UnassignDeclaration id identifier) now.

(* @src devicemanagement/mdmprotocol/ddm/admin.go - Engine.Touch *)
Definition Touch (l : list EnrollmentID) (reason : bytes) (now : Time) : act unit :=
  if existsb (λ id, match validID0 id with Ok _ => false | Err _ => true end) l then fail [ErrInvalid]
  else if bool_decide (l = []) then mret tt
  else commit (RecordChanges l (if bool_decide (reason = []) then ReasonTouch else reason) now).

(* @src devicemanagement/mdmprotocol/ddm/admin.go - Engine.PruneVersions *)
Definition Engine_PruneVersions : act Z := commit (λ st, Ok (PruneVersions st)).

(* @src devicemanagement/mdmprotocol/ddm/clear.go - Engine.ClearEnrollment *)
Definition Engine_ClearEnrollment (id : EnrollmentID) : act unit :=
  _ ← lift (engine_validID id); update (ClearEnrollment id).

(** ** Publication *)

(* @src devicemanagement/mdmprotocol/ddm/publication.go - PublishResult *)
Record PublishResult := mkPublish { pr_Name : bytes; Changed : bool; pr_Declarations : list DeclarationRef }.

(** The declarations of a publication, each valid and none named twice. *)
(* @src devicemanagement/mdmprotocol/ddm/publication.go 58-73 Engine.PublishSetTx *)
Fixpoint parse_publication (e : Engine) (raws : list bytes) (seen : gset bytes) : result derr (list Declaration) :=
  match raws with
  | [] => Ok []
  | raw :: raws' =>
      d ← ParseDeclaration raw (upload_target e);
      _ ← validatePredicate d;
      _ ← reject (bool_decide (d_Identifier d ∈ seen)) [ErrInvalidDeclaration];
      ds ← parse_publication e raws' ({[d_Identifier d]} ∪ seen);
      Ok (d :: ds)
  end.

Definition declaration_ref (d : Declaration) : DeclarationRef := mkRef (d_Kind d) (d_Identifier d) (d_ServerToken d).

(** One declaration of the publication: stored, added to the set; whether its content and
    whether the membership changed. *)
(* @src devicemanagement/mdmprotocol/ddm/publication.go 96-117 Engine.PublishSetTx *)
Definition publish_one (name : bytes) (now : Time) (d : Declaration) (st : state) : dres (bool * bool) :=
  let d := d <| CreatedAt := now |> <| UpdatedAt := now |> in
  d ← match GetDeclaration (d_Identifier d) st with
      | Ok old => Ok (d <| CreatedAt := CreatedAt old |>)
      | Err x => if Is x ErrNotFound then Ok d else Err x
      end;
  '(changed, st) ← PutDeclaration (Some d) st;
  '(added, st) ← AddSetDeclaration name (d_Identifier d) now st;
  Ok ((changed, added), st).

(* @src devicemanagement/mdmprotocol/ddm/publication.go 94-118 Engine.PublishSetTx *)
Fixpoint publish_loop (name : bytes) (now : Time) (ds : list Declaration) (st : state) : dres (list bytes * bool) :=
  match ds with
  | [] => Ok (([], false), st)
  | d :: ds' =>
      '((changed, added), st) ← publish_one name now d st;
      '((ids, any), st) ← publish_loop name now ds' st;
      Ok (((if (changed : bool) then [d_Identifier d] else []) ++ ids, changed || added || any), st)
  end.

(** The members that are not part of the publication leave the set. *)
(* @src devicemanagement/mdmprotocol/ddm/publication.go 119-127 Engine.PublishSetTx *)
Fixpoint unpublish_loop (name : bytes) (keep : list bytes) (previous : list bytes) (st : state) : dres bool :=
  match previous with
  | [] => Ok (false, st)
  | id :: previous' =>
      if bool_decide (id ∈ keep) then unpublish_loop name keep previous' st
      else
        '(_, st) ← RemoveSetDeclaration name id st;
        '(_, st) ← unpublish_loop name keep previous' st;
        Ok (true, st)
  end.

(* @src devicemanagement/mdmprotocol/ddm/publication.go - Engine.PublishSetTx *)
Definition PublishSetTx (e : Engine) (name : bytes) (raws : list bytes) (now : Time) (st : state) : dres PublishResult :=
  _ ← reject (bool_decide (name = [])) [ErrInvalid];
  ds ← parse_publication e raws ∅;
  let sorted := stable_sort (λ a b, not_after compare_strings (d_Identifier a) (d_Identifier b)) ds in
  _ ← LockPublication name;
  '(created, st) ← PutSet name now st;
  previous ← SetDeclarations name st;
  '((changedIDs, changed), st) ← publish_loop name now sorted st;
  '(removed, st) ← unpublish_loop name (d_Identifier <$> ds) previous st;
  let changed := created || changed || removed in
  '(_, st) ← (if changed then recordAffected changedIDs [name] ReasonSet now st else Ok (tt, st));
  Ok (mkPublish name changed (SortRefs (declaration_ref <$> sorted)), st).

(* @src devicemanagement/mdmprotocol/ddm/publication.go - Engine.PublishSet *)
Definition PublishSet (e : Engine) (name : bytes) (raws : list bytes) (now : Time) : act PublishResult :=
  update (PublishSetTx e name raws now).

(** ** Subscriptions *)

(* @src devicemanagement/mdmprotocol/ddm/subscriptions.go 18-18 SubscriptionIdentifier *)
Definition SubscriptionIdentifier : bytes := bs "com.deploymenttheory.mdm.status-subscriptions".
(* @src devicemanagement/mdmprotocol/ddm/subscriptions.go 23-23 SubscriptionActivationIdentifier *)
Definition SubscriptionActivationIdentifier : bytes := bs "com.deploymenttheory.mdm.status-subscriptions.activation".
(* @src devicemanagement/mdmprotocol/ddm/subscriptions.go 36-36 DefaultSubscriptionExclude *)
Definition DefaultSubscriptionExclude : list bytes := [bs "test."].
(* @src devicemanagement/schema/status/registry.gen.go 106-106 StatusItemTypeManagementClientCapabilities *)
Definition StatusItemClientCapabilities : bytes := bs "management.client-capabilities".

(** The reported status items of [decodeCapabilities]; what does not decode is empty. *)
(* @src devicemanagement/mdmprotocol/ddm/status_query.go - Engine.decodeCapabilities *)
Definition decodeCapabilities (raw : bytes) : list bytes :=
  match json_decode raw with
  | Some (JObj ms) =>
      match member (bs "supported-payloads") ms with
      | Some v => default [] (supported_status_items v)
      | None => []
      end
  | _ => []
  end.

(* @src devicemanagement/mdmprotocol/ddm/status_query.go - Engine.clientCapabilities *)
Definition clientCapabilities (id : EnrollmentID) (st : state) : result derr (list bytes) :=
  res ← StatusValues id StatusItemClientCapabilities (mkPage [] 1) st;
  match list_find (λ v, Path v = StatusItemClientCapabilities) (Items res) with
  | Some (_, v) => Ok (decodeCapabilities (Value v))
  | None => Err [ErrNotFound]
  end.

(* @src devicemanagement/mdmprotocol/ddm/subscriptions.go - Engine.excluded *)
Definition excluded (e : Engine) (name : bytes) : bool := existsb (has_prefix name) (subs_Exclude e).

(** [slices.Compact]: runs of equal elements become one. *)
Fixpoint compact (l : list bytes) : list bytes :=
  match l with
  | [] => []
  | x :: l' => match l' with
               | y :: _ => if bool_decide (x = y) then compact l' else x :: compact l'
               | [] => [x]
               end
  end.

(* @src devicemanagement/mdmprotocol/ddm/subscriptions.go - Engine.subscriptionItems *)
Definition subscriptionItems (e : Engine) (id : EnrollmentID) (st : state) : list bytes :=
  match clientCapabilities id st with
  | Err _ => subs_Baseline e
  | Ok names =>
      let items := filter (λ n, n ≠ [] ∧ excluded e n = false) names in
      if bool_decide (items = []) then subs_Baseline e else compact (sort_strings items)
  end.

(** The document is marshalled and parsed at once, so the parser sees its value. *)
(* @src devicemanagement/mdmprotocol/ddm/subscriptions.go - Engine.generatedSubscriptionItem *)
Definition generatedSubscriptionItem (e : Engine) (identifier typ : bytes) (payload : json) : result derr SnapshotItem :=
  d ← parseDeclaration (Some (JObj [(bs "Type", JStr typ); (bs "Identifier", JStr identifier); (bs "Payload", payload)]))
        (upload_target e);
  Ok (mkItem (declaration_ref d) [] (Some (Canonical d))).

(* @src devicemanagement/mdmprotocol/ddm/subscriptions.go - Engine.subscriptionItem *)
Definition subscriptionItem (e : Engine) (id : EnrollmentID) (st : state) : result derr SnapshotItem :=
  generatedSubscriptionItem e SubscriptionIdentifier DeclarationTypeManagementStatusSubscriptions
    (JObj [(bs "StatusItems", JArr ((λ n, JObj [(bs "Name", JStr n)]) <$> subscriptionItems e id st))]).

(* @src devicemanagement/mdmprotocol/ddm/subscriptions.go - Engine.subscriptionActivation *)
Definition subscriptionActivation (e : Engine) : result derr SnapshotItem :=
  generatedSubscriptionItem e SubscriptionActivationIdentifier DeclarationTypeActivationSimple
    (JObj [(bs "StandardConfigurations", JArr [JStr SubscriptionIdentifier])]).

(* @src devicemanagement/mdmprotocol/ddm/subscriptions.go - subscriptionReference *)
Definition subscriptionReference (r : DeclarationRef) : bool :=
  (bool_decide (Identifier r = SubscriptionIdentifier) && bool_decide (r_Kind r = KindConfiguration))
  || (bool_decide (Identifier r = SubscriptionActivationIdentifier) && bool_decide (r_Kind r = KindActivation)).

(** ** Manifests *)

(** The names one resolver adds; [seen] are the identifiers already there. *)
(* @src devicemanagement/mdmprotocol/ddm/membership.go 33-47 Engine.manifestFor *)
Fixpoint resolve_names (st : state) (names : list bytes) (ds : list Declaration) (seen : gset bytes)
  : result derr (list Declaration * gset bytes) :=
  match names with
  | [] => Ok (ds, seen)
  | n :: names' =>
      if bool_decide (n ∈ seen) then resolve_names st names' ds seen
      else
        match GetDeclaration n st with
        | Ok d => resolve_names st names' (ds ++ [d]) ({[n]} ∪ seen)
        | Err x => if Is x ErrNotFound then resolve_names st names' ds seen else Err x
        end
  end.

(* @src devicemanagement/mdmprotocol/ddm/membership.go 28-48 Engine.manifestFor *)
Fixpoint resolve_all (st : state) (id : EnrollmentID) (rs : list (EnrollmentID → result derr (list bytes)))
  (ds : list Declaration) (seen : gset bytes) : result derr (list Declaration * gset bytes) :=
  match rs with
  | [] => Ok (ds, seen)
  | r :: rs' =>
      match r id with
      | Err x => Err (ErrResolver :: x)
      | Ok names => '(ds, seen) ← resolve_names st names ds seen; resolve_all st id rs' ds seen
      end
  end.

(* @src devicemanagement/mdmprotocol/ddm/membership.go - Engine.expand *)
Definition expand (e : Engine) (id : EnrollmentID) (d : Declaration) : result derr SnapshotItem :=
  let item := mkItem (declaration_ref d) (d_ServerToken d) None in
  match expander e with
  | None => Ok item
  | Some f =>
      match f id d with
      | Err x => Err (ErrExpander :: x)
      | Ok out =>
          if bool_decide (out = []) || bool_decide (out = Canonical d) then Ok item
          else
            match Canonicalize out with
            | None => Err [ErrExpander]
            | Some canonical =>
                if bool_decide (canonical = Canonical d) then Ok item
                else
                  match splitCanonical canonical with
                  | Err x => Err (ErrExpander :: x)
                  | Ok env =>
                      if bool_decide (env_Identifier env ≠ d_Identifier d) || bool_decide (env_Type env ≠ d_Type d)
                      then Err [ErrExpander]
                      else Ok (mkItem (mkRef (d_Kind d) (d_Identifier d) (TokenFor canonical)) (d_ServerToken d)
                                 (Some canonical))
                  end
            end
      end
  end.

(** [for i := range decls]: the expanded items, or the first error. *)
Fixpoint expand_all (e : Engine) (id : EnrollmentID) (ds : list Declaration) : result derr (list SnapshotItem) :=
  match ds with
  | [] => Ok []
  | d :: ds' => it ← expand e id d; its ← expand_all e id ds'; Ok (it :: its)
  end.

(** The generated subscription and its activation. *)
(* @src devicemanagement/mdmprotocol/ddm/membership.go 57-70 Engine.manifestFor *)
Definition subscription_items (e : Engine) (id : EnrollmentID) (seen : gset bytes) (st : state)
  : result derr (list SnapshotItem) :=
  if negb (subs_Enabled e) || bool_decide (SubscriptionIdentifier ∈ seen) then Ok []
  else
    it ← subscriptionItem e id st;
    if bool_decide (SubscriptionActivationIdentifier ∈ seen) then Ok [it]
    else a ← subscriptionActivation e; Ok [it; a].

Definition compare_items (a b : SnapshotItem) : comparison := compareRefs (Ref a) (Ref b).

(** The manifest and the findings of the compatibility check. *)
(* @src devicemanagement/mdmprotocol/ddm/membership.go - Engine.manifestFor *)
Definition manifestFor (e : Engine) (id : EnrollmentID) (target : option Target) (st : state)
  : result derr (bytes * list SnapshotItem * list CompatibilityIssue) :=
  static ← StaticDeclarations id st;
  '(ds, seen) ← resolve_all st id (resolvers e) static (list_to_set (d_Identifier <$> static));
  items ← expand_all e id ds;
  more ← subscription_items e id seen st;
  '(items, findings) ← match target with
                       | None => Ok (items ++ more, [])
                       | Some t => filterCompatible st (items ++ more) t
                       end;
  let items := stable_sort (not_after compare_items) items in
  Ok (DeclarationsToken (Ref <$> items), items, findings).

(* @src devicemanagement/mdmprotocol/ddm/compatibility.go - Engine.deliveryTarget *)
Definition deliveryTarget (e : Engine) (id : EnrollmentID) : result derr (option Target) :=
  match enrollmentTarget e with
  | None => Ok None
  | Some f => match f id with Ok t => Ok (Some t) | Err x => Err (ErrResolver :: x) end
  end.

(* @src devicemanagement/mdmprotocol/ddm/compatibility.go - CompatibilityReport *)
Record CompatibilityReport := mkCompatibility {
  Enforced : bool; cr_Target : option Target; cr_Tier : bytes; Eligible : list DeclarationRef;
  Issues : list CompatibilityIssue }.

(* @src devicemanagement/mdmprotocol/ddm/compatibility.go - Engine.Compatibility *)
Definition Compatibility (e : Engine) (id : EnrollmentID) : act CompatibilityReport :=
  _ ← lift (match Validate id with Ok _ => Ok tt | Err _ => Err [] end);
  target ← lift (deliveryTarget e id);
  update (λ st,
    '(_, items, findings) ← manifestFor e id target st;
    Ok (mkCompatibility (match target with Some _ => true | None => false end) target
          (match target with Some t => Tier t | None => [] end) (Ref <$> items) findings, st)).

(** ** Snapshots *)

(** The transaction of [refreshSnapshot]. *)
(* @src devicemanagement/mdmprotocol/ddm/serve.go 38-51 Engine.refreshSnapshot *)
Definition refresh_tx (e : Engine) (id : EnrollmentID) (target : option Target) (now : Time) (st : state) : dres Snapshot :=
  '(token, items, _) ← manifestFor e id target st;
  changedAt ← match GetSnapshot id st with
              | Ok prev => Ok (if bool_decide (sn_Token prev = token) then TokenChangedAt prev else now)
              | Err x => if Is x ErrNotFound then Ok now else Err x
              end;
  let snap := mkSnapshot id token items changedAt now in
  '(_, st) ← PutSnapshot (Some snap) st;
  Ok (snap, st).

(* @src devicemanagement/mdmprotocol/ddm/serve.go - Engine.refreshSnapshot *)
Definition refreshSnapshot (e : Engine) (id : EnrollmentID) (now : Time) : act Snapshot :=
  _ ← lift (engine_validID id);
  target ← lift (deliveryTarget e id);
  update (refresh_tx e id target now).

(* @src devicemanagement/mdmprotocol/ddm/serve.go - Engine.Manifest *)
Definition Manifest (e : Engine) (id : EnrollmentID) (now : Time) : act Snapshot := refreshSnapshot e id now.
End Engine.

(** ** What devices are served: [serve.go]

    The tokens, the manifest and single declarations, and the dispatch on the endpoint of
    a check-in. *)

(** ** Timestamps

    [time.Time.Format] with the layout of whole UTC seconds. The calendar date of a day
    counts days in cycles of 400 years from 1 March of year 0. *)

Definition civil_from_days (days : Z) : Z * Z * Z :=
  let z := days + 306 in
  let era := z / 146097 in
  let doe := z mod 146097 in
  let yoe := (doe - doe / 1460 + doe / 36524 - doe / 146096) / 365 in
  let doy := doe - (365 * yoe + yoe / 4 - yoe / 100) in
  let mp := (5 * doy + 2) / 153 in
  let d := doy - (153 * mp + 2) / 5 + 1 in
  let m := if mp <? 10 then mp + 3 else mp - 9 in
  (yoe + era * 400 + (if m <=? 2 then 1 else 0), m, d).

(** [%0nd] of a non-negative number. *)
Fixpoint pad (n : nat) (s : bytes) : bytes :=
  match n with O => s | S n' => if (length s <=? n')%nat then 48 :: pad n' s else s end.
Definition zero_padded (n : nat) (z : Z) : bytes := pad n (itoa z).

(* @src devicemanagement/mdmprotocol/ddm/serve.go 16-16 TimestampLayout *)
Definition format_timestamp (t : Time) : bytes :=
  let secs := t / Second in
  let '(y, m, d) := civil_from_days (secs / 86400) in
  let s := secs mod 86400 in
  zero_padded 4 y ++ bs "-" ++ zero_padded 2 m ++ bs "-" ++ zero_padded 2 d ++ bs "T"
  ++ zero_padded 2 (s / 3600) ++ bs ":" ++ zero_padded 2 (s / 60 mod 60) ++ bs ":" ++ zero_padded 2 (s mod 60) ++ bs "Z".

Example format_zero : format_timestamp 0 = bs "0001-01-01T00:00:00Z".
Proof. vm_compute. reflexivity. Qed.
(** The second 1709210096 after 1970, 719162 days after the zero time. *)
Example format_leap_day :
  format_timestamp ((719162 * 86400 + 1709210096) * Second) = bs "2024-02-29T12:34:56Z".
Proof. vm_compute. reflexivity. Qed.

(* @src devicemanagement/mdmprotocol/ddm/serve.go - Response *)
Record Response := mkResponse { Body : bytes; Status : Z }.
Definition StatusOK : Z := 200.
Definition StatusNotFound : Z := 404.

(** The insertion sort of [SortRefsItems]: [x] moves left past what compares greater. *)
Fixpoint sift (x : SnapshotItem) (before : list SnapshotItem) : list SnapshotItem :=
  match before with
  | [] => [x]
  | y :: before' =>
      match compareRefs (Ref y) (Ref x) with Gt => y :: sift x before' | _ => x :: before end
  end.
(* @src devicemanagement/mdmprotocol/ddm/serve.go - SortRefsItems *)
Definition SortRefsItems (items : list SnapshotItem) : list SnapshotItem :=
  reverse (foldl (λ sorted x, sift x sorted) [] items).

Section Serve.
Context {JC : JsonCodec} {DS : DdmSchema}.

(* @src devicemanagement/mdmprotocol/ddm/serve.go - RenderTokens *)
Definition RenderTokens (token : bytes) (at_ : Time) : result derr bytes :=
  match json_encode (JObj [(bs "SyncTokens", JObj [(bs "DeclarationsToken", JStr token);
                                                   (bs "Timestamp", JStr (format_timestamp at_))])]) with
  | Some out => Ok out
  | None => Err []
  end.

(* @src devicemanagement/mdmprotocol/ddm/serve.go - Engine.Tokens *)
Definition Tokens (e : Engine) (id : EnrollmentID) (now : Time) : act bytes :=
  snap ← refreshSnapshot e id now; lift (RenderTokens (sn_Token snap) (TokenChangedAt snap)).

(** The array of one kind. *)
Definition group (k : Kind) (items : list SnapshotItem) : json :=
  JArr ((λ it, JObj [(bs "Identifier", JStr (Identifier (Ref it))); (bs "ServerToken", JStr (ServerToken (Ref it)))])
          <$> filter (λ it, r_Kind (Ref it) = k) items).

(* @src devicemanagement/mdmprotocol/ddm/serve.go - RenderDeclarationItems *)
Definition RenderDeclarationItems (snap : Snapshot) : result derr bytes :=
  let items := SortRefsItems (sn_Items snap) in
  _ ← reject (existsb (λ it, bool_decide (r_Kind (Ref it) ∉ StandaloneKinds)) items) [ErrInvalid];
  match json_encode (JObj [(bs "Declarations",
                             JObj [(bs "Activations", group KindActivation items); (bs "Assets", group KindAsset items);
                                   (bs "Configurations", group KindConfiguration items);
                                   (bs "Management", group KindManagement items)]);
                           (bs "DeclarationsToken", JStr (sn_Token snap))]) with
  | Some out => Ok out
  | None => Err []
  end.

(* @src devicemanagement/mdmprotocol/ddm/serve.go - Engine.DeclarationItems *)
Definition DeclarationItems (e : Engine) (id : EnrollmentID) (now : Time) : act bytes :=
  snap ← refreshSnapshot e id now; lift (RenderDeclarationItems snap).

(** ** One declaration *)

(** The snapshot that is authoritative for a fetch: the stored one, or a fresh one when there
    is none. *)
(* @src devicemanagement/mdmprotocol/ddm/serve.go 134-141 Engine.Declaration *)
Definition current_snapshot (e : Engine) (id : EnrollmentID) (now : Time) : act Snapshot :=
  r ← attempt (query (GetSnapshot id));
  match r with
  | Ok snap => mret snap
  | Err x => if Is x ErrNotFound then refreshSnapshot e id now else fail x
  end.

(** With delivery targets, a snapshot is refreshed when eligibility changed or a version it
    names is gone. *)
(* @src devicemanagement/mdmprotocol/ddm/serve.go 142-160 Engine.Declaration *)
Definition checked_snapshot (e : Engine) (id : EnrollmentID) (snap : Snapshot) (now : Time) : act Snapshot :=
  target ← lift (deliveryTarget e id);
  match target with
  | None => mret snap
  | Some t =>
      r ← attempt (query (λ st, filterCompatible st (sn_Items snap) t));
      match r with
      | Ok (items, _) => if sameItems items (sn_Items snap) then mret snap else refreshSnapshot e id now
      | Err x => if Is x ErrNotFound then refreshSnapshot e id now else fail x
      end
  end.

Definition is_item (kind : Kind) (identifier : bytes) (it : SnapshotItem) : Prop :=
  Identifier (Ref it) = identifier ∧ r_Kind (Ref it) = kind.
#[export] Instance is_item_dec kind identifier it : Decision (is_item kind identifier it).
Proof. unfold is_item. apply _. Defined.

(** The generated item of a fresh snapshot. *)
Definition is_generated (kind : Kind) (identifier : bytes) (it : SnapshotItem) : Prop :=
  is_item kind identifier it ∧ BaseToken it = [] ∧ is_Some (Expanded it).
#[export] Instance is_generated_dec kind identifier it : Decision (is_generated kind identifier it).
Proof. unfold is_generated. apply _. Defined.

(** What is served for an item: the expanded bytes, or those of the version it names. *)
Definition render_item (it : SnapshotItem) (v : DeclarationVersion) : result derr bytes :=
  RenderDeclaration (default (v_Canonical v) (Expanded it)) (ServerToken (Ref it)).

(** The item is served from the store: its base version must still be there. A generated
    subscription of an older snapshot is rebuilt when it is not. *)
(* @src devicemanagement/mdmprotocol/ddm/serve.go 174-197 Engine.Declaration *)
Definition serve_version (e : Engine) (id : EnrollmentID) (it : SnapshotItem) (now : Time) : act bytes :=
  let identifier := Identifier (Ref it) in
  r ← attempt (query (GetDeclarationVersion identifier (BaseToken it)));
  match r with
  | Ok v => lift (render_item it v)
  | Err x =>
      if Is x ErrNotFound && subscriptionReference (Ref it) && subs_Enabled e then
        fresh ← refreshSnapshot e id now;
        match list_find (is_generated (r_Kind (Ref it)) identifier) (sn_Items fresh) with
        | Some (_, cur) => lift (RenderDeclaration (default [] (Expanded cur)) (ServerToken (Ref cur)))
        | None => fail x
        end
      else fail x
  end.

(* @src devicemanagement/mdmprotocol/ddm/serve.go 165-197 Engine.Declaration *)
Definition serve_item (e : Engine) (id : EnrollmentID) (it : SnapshotItem) (now : Time) : act bytes :=
  if subscriptionReference (Ref it) && bool_decide (BaseToken it = []) then
    if negb (subs_Enabled e) then fail [ErrNotFound]
    else match Expanded it with
         | Some c => lift (RenderDeclaration c (ServerToken (Ref it)))
         | None => serve_version e id it now
         end
  else serve_version e id it now.

(* @src devicemanagement/mdmprotocol/ddm/serve.go - Engine.Declaration *)
Definition Engine_Declaration (e : Engine) (id : EnrollmentID) (kind : Kind) (identifier : bytes) (now : Time) : act bytes :=
  _ ← lift (engine_validID id);
  snap ← current_snapshot e id now;
  snap ← checked_snapshot e id snap now;
  match list_find (is_item kind identifier) (sn_Items snap) with
  | Some (_, it) => serve_item e id it now
  | None => fail [ErrNotFound]
  end.

(** ** Check-ins

    [status] stores a report; its body is the component of status reports. *)
(* @src devicemanagement/mdmprotocol/ddm/serve.go - Engine.Handle *)
Definition Handle (e : Engine) (status : EnrollmentID → bytes → act StatusOutcome)
  (id : EnrollmentID) (endpoint data : bytes) (now : Time) : act Response :=
  ep ← lift (ParseEndpoint endpoint);
  match ep_Op ep with
  | OpTokens => body ← Tokens e id now; mret (mkResponse body StatusOK)
  | OpDeclarationItems => body ← DeclarationItems e id now; mret (mkResponse body StatusOK)
  | OpDeclaration =>
      r ← attempt (Engine_Declaration e id (ep_Kind ep) (ep_Identifier ep) now);
      match r with
      | Ok body => mret (mkResponse body StatusOK)
      | Err x => if Is x ErrNotFound then mret (mkResponse [] StatusNotFound) else fail x
      end
  | OpStatus =>
      if bool_decide (data = []) then fail [ErrBadEndpoint]
      else _ ← status id data; mret (mkResponse [] StatusOK)
  end.
End Serve.
