(* ===== verification/DdmStatus.v ===== *)
(** * Status reports: [status.go]

    A device reports status items as nested objects. The walk flattens a report into
    values at dotted paths, stopping at the registered status items, and reads the rows
    of the item that carries declaration states. The generated types of the report and
    of that item, the registry of status items and the scan of the JSON tokens against
    the structural limits are the class [StatusSchema]. *)
From S2P Require Import Prelude GoStrings OsVersion Support Mdm Storage Sha256 Json DdmTypes DdmStore DdmDecl DdmEngine.

(* @src devicemanagement/schema/status/registry.gen.go 108-108 StatusItemTypeManagementDeclarations *)
Definition StatusItemDeclarations : bytes := bs "management.declarations".

(** A row of the declarations item; absent reasons are the empty list. *)
Record status_row := mkStatusRow {
  row_Identifier : bytes; row_ServerToken : bytes; row_Active : bool; row_Valid : bytes; row_Reasons : list json }.

(** A decoded report: the flag, the status items and the errors with their reasons. *)
Record status_report := mkStatusReport {
  rp_Full : option bool; rp_Items : list (bytes * json); rp_Errors : list (bytes * json) }.

Class StatusSchema := {
  isStatusItem : bytes → bool;
  decode_report : json → option status_report;
  (** Activations, configurations, assets, management. *)
  decode_rows : json → option (list status_row * list status_row * list status_row * list status_row);
  checkStatusStructure : bytes → result derr unit }.

(** ** Flattening *)

Definition child_path (path k : bytes) : bytes := if bool_decide (path = []) then k else path ++ bs "." ++ k.

Definition key_leb {A} (a b : bytes * A) : bool := bytes_leb a.1 b.1.

Section Status.
Context {JC : JsonCodec} {SS : StatusSchema}.

(** The calls of [value] and [item] that [walk] makes, in order: members are visited by name. *)
(* @src devicemanagement/mdmprotocol/ddm/status.go - statusWalker.walk *)
Fixpoint walk (path : bytes) (v : json) : list (bytes * json) :=
  if bool_decide (path ≠ []) && isStatusItem path then [(path, v)]
  else
    match v with
    | JObj ms =>
        if bool_decide (path ≠ []) && (length ms =? 0)%nat then [(path, v)]
        else mjoin (stable_sort key_leb ((λ '(k, v'), (k, walk (child_path path k) v')) <$> ms)).*2
    | _ => [(path, v)]
    end.

(** ** The walker *)

(* @src devicemanagement/mdmprotocol/ddm/status.go - statusWalker *)
Record statusWalker := mkWalker {
  w_values : list StatusValue;
  w_decls : gmap bytes DeclarationStatus;
  w_order : list bytes;
  w_hasDeclarations : bool }.
#[export] Instance statusWalker_eta : Eta statusWalker := λ w,
  mkWalker (w_values w) (w_decls w) (w_order w) (w_hasDeclarations w).

Section Walker.
Context (now : Time) (snapshot : gmap bytes bytes).

(* @src devicemanagement/mdmprotocol/ddm/status.go - statusWalker.value *)
Definition w_value (path : bytes) (v : json) (w : statusWalker) : result derr statusWalker :=
  if bool_decide (path = []) then Ok w
  else match json_encode v with
       | None => Err [ErrStatusMalformed]
       | Some b => Ok (w <| w_values := w_values w ++ [mkValue path b now now] |>)
       end.

Definition row_key (kind : Kind) (identifier : bytes) : bytes := kind ++ bs "/" ++ identifier.

(** Of two rows for one declaration the later wins, unless the earlier has the token that the
    snapshot advertises and the later does not. *)
(* @src devicemanagement/mdmprotocol/ddm/status.go - statusWalker.declaration *)
Definition w_declaration (kind : Kind) (row : status_row) (w : statusWalker) : result derr statusWalker :=
  _ ← reject (bool_decide (row_Identifier row = [])) [ErrStatusMalformed];
  reasons ← (if bool_decide (length (row_Reasons row) = 0%nat) then Ok None
             else match json_encode (JArr (row_Reasons row)) with
                  | Some b => Ok (Some b)
                  | None => Err [ErrStatusMalformed]
                  end);
  let key := row_key kind (row_Identifier row) in
  let ds := mkDStatus kind (row_Identifier row) (row_ServerToken row) (row_Active row) (row_Valid row) reasons now now in
  match w_decls w !! key with
  | Some prev =>
      match snapshot !! key with
      | Some want =>
          if bool_decide (st_ServerToken prev = want) && bool_decide (row_ServerToken row ≠ want) then Ok w
          else Ok (w <| w_decls := <[key := ds]> (w_decls w) |>)
      | None => Ok (w <| w_decls := <[key := ds]> (w_decls w) |>)
      end
  | None => Ok (w <| w_order := w_order w ++ [key] |> <| w_decls := <[key := ds]> (w_decls w) |>)
  end.

Fixpoint w_rows (kind : Kind) (rows : list status_row) (w : statusWalker) : result derr statusWalker :=
  match rows with [] => Ok w | r :: rows' => w ← w_declaration kind r w; w_rows kind rows' w end.

(* @src devicemanagement/mdmprotocol/ddm/status.go - statusWalker.item *)
Definition w_item (path : bytes) (v : json) (w : statusWalker) : result derr statusWalker :=
  w ← w_value path v w;
  if bool_decide (path ≠ StatusItemDeclarations) then Ok w
  else
    match (json_encode v ≫= json_decode) ≫= decode_rows with
    | None => Err [ErrStatusMalformed]
    | Some (activations, configurations, assets, management) =>
        let w := w <| w_hasDeclarations := true |> <| w_decls := ∅ |> in
        w ← w_rows KindActivation activations w;
        w ← w_rows KindConfiguration configurations w;
        w ← w_rows KindAsset assets w;
        w_rows KindManagement management w
    end.

Fixpoint w_all (calls : list (bytes * json)) (w : statusWalker) : result derr statusWalker :=
  match calls with
  | [] => Ok w
  | (path, v) :: calls' =>
      w ← (if isStatusItem path then w_item path v w else w_value path v w); w_all calls' w
  end.

Definition noDStatus : DeclarationStatus := mkDStatus [] [] [] false [] None 0 0.

(* @src devicemanagement/mdmprotocol/ddm/status.go - statusWalker.declarations *)
Definition w_declarations (w : statusWalker) : list DeclarationStatus :=
  (λ k, default noDStatus (w_decls w !! k)) <$> w_order w.
End Walker.

(** ** Reports *)

(** The tokens of the stored snapshot, by kind and identifier. *)
(* @src devicemanagement/mdmprotocol/ddm/status.go 90-96 Engine.parseStatus *)
Definition snapshotTokens (id : EnrollmentID) (st : state) : gmap bytes bytes :=
  match GetSnapshot id st with
  | Ok snap => foldl (λ m it, <[row_key (r_Kind (Ref it)) (Identifier (Ref it)) := ServerToken (Ref it)]> m) ∅ (sn_Items snap)
  | Err _ => ∅
  end.

Fixpoint report_errors (now : Time) (es : list (bytes * json)) : result derr (list StatusError) :=
  match es with
  | [] => Ok []
  | (item, reasons) :: es' =>
      match json_encode reasons with
      | None => Err [ErrStatusMalformed]
      | Some b => l ← report_errors now es'; Ok (mkStatusError 0 item b now :: l)
      end
  end.

(* @src devicemanagement/mdmprotocol/ddm/status.go - Engine.parseStatus *)
Definition parseStatus (keep : Z) (id : EnrollmentID) (body : bytes) (now : Time) (st : state) : result derr StatusUpdate :=
  _ ← checkStatusStructure body;
  match json_decode body ≫= decode_report with
  | None => Err [ErrStatusMalformed]
  | Some report =>
      w ← w_all now (snapshotTokens id st) (walk [] (JObj (rp_Items report))) (mkWalker [] ∅ [] false);
      errors ← report_errors now (rp_Errors report);
      Ok (mkUpdate body now (default false (rp_Full report)) (w_hasDeclarations w) (w_declarations w) (w_values w) errors keep)
  end.

(** [observe] is [Config.ObserveStatus], [None] for nil. *)
(* @src devicemanagement/mdmprotocol/ddm/status.go - Engine.storeStatus *)
Definition storeStatus (maxStatus keep : Z) (observe : option (EnrollmentID → StatusUpdate → result derr unit))
  (id : EnrollmentID) (body : bytes) (now : Time) : act StatusOutcome :=
  _ ← lift (engine_validID id);
  _ ← lift (reject (maxStatus <? Z.of_nat (length body)) [ErrStatusTooLarge]);
  u ← query (parseStatus keep id body now);
  out ← update (PutStatus id u);
  match observe with
  | None => mret out
  | Some f => _ ← lift (f id u); mret out
  end.
End Status.
