(* ===== verification/DdmInv.v ===== *)
(** * The declaration store is consistent

    [WF]: every assignment and membership refers to rows that exist, every declaration
    has its current revision, rows carry the key they are stored under, and identities
    are valid. Every call keeps it, so it holds after any sequence of calls; an identity,
    once stored, never changes, and neither does a revision that a snapshot names, as long
    as its declaration is not deleted. *)
From S2P Require Import Prelude GoStrings Mdm Storage Sha256 DdmTypes DdmStore.

(** ** Memberships *)

Lemma inner_lookup m o s : m !! o = Some s → inner m o = s.
Proof. unfold inner. by intros ->. Qed.

Lemma inner_insert m o s o' : inner (<[o := s]> m) o' = if decide (o = o') then s else inner m o'.
Proof. unfold inner. case_decide; subst; [by rewrite lookup_insert_eq|by rewrite lookup_insert_ne]. Qed.

Lemma inner_delete m o o' : inner (delete o m) o' = if decide (o = o') then ∅ else inner m o'.
Proof. unfold inner. case_decide; subst; [by rewrite lookup_delete_eq|by rewrite lookup_delete_ne]. Qed.

Lemma shrink_default key s : default ∅ (shrink key s) = s ∖ {[key]}.
Proof. unfold shrink. repeat case_bool_decide; cbn; set_solver. Qed.

Lemma elem_add m o k b m' o' x : add m o k = (b, m') →
  x ∈ inner m' o' ↔ x ∈ inner m o' ∨ (o' = o ∧ x = k).
Proof.
  unfold add. case_bool_decide as Hin; intros [= <- <-]; [naive_solver|].
  rewrite inner_insert. case_decide; subst; set_solver.
Qed.

Lemma elem_remove m o k b m' o' x : remove m o k = (b, m') →
  x ∈ inner m' o' ↔ x ∈ inner m o' ∧ ¬ (o' = o ∧ x = k).
Proof.
  unfold remove. case_bool_decide as Hin; intros [= <- <-]; [|naive_solver].
  unfold inner. destruct (decide (o = o')) as [<-|Hne].
  - rewrite lookup_partial_alter_eq. unfold inner in Hin. destruct (m !! o) as [s|]; cbn in *; [|set_solver].
    rewrite shrink_default. set_solver.
  - rewrite lookup_partial_alter_ne by done. set_solver.
Qed.

Lemma elem_removeEverywhere m k o x : x ∈ inner (removeEverywhere m k) o ↔ x ∈ inner m o ∧ x ≠ k.
Proof.
  unfold inner, removeEverywhere. rewrite lookup_omap. destruct (m !! o) as [s|]; cbn; [|set_solver].
  rewrite shrink_default. set_solver.
Qed.

(** Whether a membership changed. *)
Lemma add_changed m o k b m' : add m o k = (b, m') → b = true ↔ k ∉ inner m o.
Proof. unfold add. case_bool_decide; intros [= <- <-]; naive_solver. Qed.

Lemma unchanged_add m o k m' : add m o k = (false, m') → m' = m.
Proof. unfold add. case_bool_decide; by intros [= <-]. Qed.
Lemma unchanged_remove m o k m' : remove m o k = (false, m') → m' = m.
Proof. unfold remove. case_bool_decide; by intros [= <-]. Qed.

Create HintDb ddm.
#[export] Hint Rewrite inner_insert inner_delete elem_removeEverywhere : ddm.

(** ** Identities *)

Lemma validID_spec id st : validID id st = Ok tt ↔
  Validate id = Ok tt ∧ ∀ id', ids st !! ID id = Some id' → id' = id.
Proof.
  unfold validID, validID0. destruct (Validate id) as [[]|]; cbn; [|naive_solver].
  destruct (ids st !! ID id) as [x|]; [|naive_solver]. unfold reject. case_bool_decide; naive_solver.
Qed.

Lemma validID_Ok id st u : validID id st = Ok u → Validate id = Ok tt ∧ ∀ id', ids st !! ID id = Some id' → id' = id.
Proof. destruct u. apply validID_spec. Qed.

Lemma validName_Ok n u : validName n = Ok u → n ≠ [].
Proof. unfold validName. intros H%reject_Ok_inv. by bool_hyps. Qed.

(** ** The invariant *)

(** There are errors or reports kept for [k]. *)
Definition logged (k : bytes) (st : state) : Prop := is_Some (statusErrors st !! k) ∨ is_Some (statusReports st !! k).

Record WF (st : state) : Prop := {
  wf_decls : ∀ i d, decls st !! i = Some d → d_Identifier d = i;
  wf_current : ∀ i d, decls st !! i = Some d → is_Some (versions st !! (i, d_ServerToken d));
  wf_versions : ∀ i t v, versions st !! (i, t) = Some v →
    v_Identifier v = i ∧ v_ServerToken v = t ∧ is_Some (decls st !! i);
  wf_members : ∀ n i, i ∈ inner (members st) n → is_Some (sets st !! n) ∧ is_Some (decls st !! i);
  wf_enrollSets : ∀ k n, n ∈ inner (enrollSets st) k → is_Some (ids st !! k) ∧ is_Some (sets st !! n);
  wf_enrollDecls : ∀ k i, i ∈ inner (enrollDecls st) k → is_Some (ids st !! k) ∧ is_Some (decls st !! i);
  wf_ids : ∀ k id, ids st !! k = Some id → ID id = k ∧ Validate id = Ok tt;
  wf_snapshots : ∀ k s, snapshots st !! k = Some s → ids st !! k = Some (sn_ID s);
  wf_status : ∀ k rows, statusDecls st !! k = Some rows →
    is_Some (ids st !! k) ∧ ∀ q r, rows !! q = Some r → status_key r = q;
  wf_values : ∀ k rows, statusValues st !! k = Some rows →
    is_Some (ids st !! k) ∧ ∀ q r, rows !! q = Some r → Path r = q;
  wf_changes : ∀ n c, changes st !! n = Some c → c_Seq c = n ∧ n ≤ seq st ∧ is_Some (ids st !! ID (c_ID c));
  wf_sets : ∀ n s, sets st !! n = Some s → Name s = n;
  wf_logs : ∀ k, logged k st → is_Some (ids st !! k) }.

Lemma WF_new : WF newState.
Proof.
  split; cbn; intros *; rewrite ?lookup_empty; try done; try (unfold inner; rewrite lookup_empty; set_solver).
  by intros [[? ?]|[? ?]].
Qed.

(** Growing tables keep what refers to them. *)
Definition grows {A} (m m' : gmap bytes A) : Prop := ∀ k, is_Some (m !! k) → is_Some (m' !! k).

Lemma grows_insert {A} (m : gmap bytes A) k x : grows m (<[k := x]> m).
Proof. intros k' H. destruct (decide (k = k')) as [<-|]; [by rewrite lookup_insert_eq|by rewrite lookup_insert_ne]. Qed.
#[export] Hint Resolve grows_insert : ddm.

(** Known identities stay as they are. *)
Definition ids_kept (st st' : state) : Prop := ∀ k id, ids st !! k = Some id → ids st' !! k = Some id.
#[export] Instance ids_kept_preorder : PreOrder ids_kept.
Proof. split; [by intros ? ?|]. intros a b c H1 H2 k id H. by apply H2, H1. Qed.

Lemma ids_kept_eq st st' : ids st' = ids st → ids_kept st st'.
Proof. intros E k id. by rewrite E. Qed.

Lemma remember_kept id st u : validID id st = Ok u → ids_kept st (remember id st).
Proof.
  intros [_ H]%validID_Ok k id' Hk. unfold remember, setf; cbn. destruct (decide (ID id = k)) as [<-|Hne].
  - rewrite lookup_insert_eq. by rewrite (H _ Hk).
  - by rewrite lookup_insert_ne.
Qed.

(** A state that differs in the tables of identities only, by the identity of a call. *)
Lemma WF_remember id st u : validID id st = Ok u → WF st → WF (remember id st).
Proof.
  intros Hv [H1 H2 H3 H4 H5 H6 H7 H8 H9 H10 H11 H12 H13]. pose proof (remember_kept _ _ _ Hv) as Hk.
  apply validID_Ok in Hv as [Hv _].
  assert (∀ k, is_Some (ids st !! k) → is_Some (ids (remember id st) !! k)) as Hs.
  { intros k [x Hx]. exists x. by apply Hk. }
  split; try assumption.
  - intros k n Hn. destruct (H5 k n Hn). auto.
  - intros k n Hn. destruct (H6 k n Hn). auto.
  - intros k id'. unfold remember, setf; cbn. destruct (decide (ID id = k)) as [<-|Hne].
    + rewrite lookup_insert_eq. by intros [= <-].
    + rewrite lookup_insert_ne by done. apply H7.
  - intros k s Hsn. by apply Hk, H8.
  - intros k rows Hr. destruct (H9 k rows Hr). auto.
  - intros k rows Hr. destruct (H10 k rows Hr). auto.
  - intros n c Hc. destruct (H11 n c Hc) as (? & ? & ?). auto.
  - intros k Hl. apply Hs, H13, Hl.
Qed.

(** ** Declarations *)

Lemma store_declaration_versions d st k :
  versions (store_declaration d st) !! k =
  match versions st !! k with
  | Some v => Some v
  | None => if decide (k = (d_Identifier d, d_ServerToken d)) then Some (version_of d) else None
  end.
Proof.
  unfold store_declaration, setf; cbn. destruct (versions st !! (d_Identifier d, d_ServerToken d)) as [v|] eqn:Hv; cbn.
  - destruct (versions st !! k) eqn:Hk; [done|]. case_decide; [congruence|done].
  - destruct (decide (k = (d_Identifier d, d_ServerToken d))) as [->|Hne].
    + by rewrite lookup_insert_eq, Hv.
    + rewrite lookup_insert_ne by done. by destruct (versions st !! k).
Qed.

Lemma store_declaration_decls d st : decls (store_declaration d st) = <[d_Identifier d := d]> (decls st).
Proof. unfold store_declaration, setf; cbn. by destruct (versions st !! _). Qed.

(** The other tables are those of [st]. *)
Lemma store_declaration_eq d st :
  store_declaration d st = st <| decls := decls (store_declaration d st) |> <| versions := versions (store_declaration d st) |>.
Proof. unfold store_declaration, setf; cbn. destruct (versions st !! _); by destruct st. Qed.

Lemma WF_store_declaration d st : WF st → WF (store_declaration d st).
Proof.
  intros [H1 H2 H3 H4 H5 H6 H7 H8 H9 H10 H11 H12 H13].
  pose proof (store_declaration_decls d st) as Ed. pose proof (store_declaration_versions d st) as Ev.
  assert (grows (decls st) (decls (store_declaration d st))) as Hg by (rewrite Ed; auto with ddm).
  rewrite store_declaration_eq. split; unfold setf; cbn; try assumption.
  - intros i x. rewrite Ed. intros [[<- <-]|[_ Hx]]%lookup_insert_Some; auto.
  - intros i x. rewrite Ed, Ev. intros [[<- <-]|[Hne Hx]]%lookup_insert_Some.
    + rewrite decide_True by done. by destruct (versions st !! _).
    + destruct (H2 i x Hx) as [v ->]. eauto.
  - intros i t v. rewrite Ev. destruct (versions st !! (i, t)) as [v'|] eqn:Hv.
    + intros [= <-]. destruct (H3 i t v' Hv) as (? & ? & ?). eauto.
    + case_decide as E; [|done]. injection E as -> ->. intros [= <-]. split_and!; [done|done|].
      rewrite Ed, lookup_insert_eq. eauto.
  - intros n i Hi. destruct (H4 n i Hi). auto.
  - intros k i Hi. destruct (H6 k i Hi). auto.
Qed.

Lemma PutDeclaration_inv d b st st' : PutDeclaration d st = Ok (b, st') →
  (b = false ∧ st' = st) ∨
  ∃ d0 rec, d = Some d0 ∧ b = true ∧ st' = store_declaration rec st ∧ rec = d0 <| CreatedAt := CreatedAt rec |> ∧
    (∀ cur, decls st !! d_Identifier d0 = Some cur → d_Kind cur = d_Kind d0 ∧ d_ServerToken cur ≠ d_ServerToken d0).
Proof.
  destruct d as [d|]; [|done]. unfold PutDeclaration. intros H. go_binds H.
  destruct (decls st !! d_Identifier d) as [cur|] eqn:Hd.
  - case_bool_decide as Hk; [done|]. case_bool_decide as Ht; go_binds H; [by left|right].
    eexists d, _. split_and!; [done..|]. intros c Hc. rewrite Hd in Hc. injection Hc as <-. split; done.
  - go_binds H. right. exists d, d. split_and!; [done..|by destruct d|intros c Hc; congruence].
Qed.

Lemma PutDeclaration_WF d b st st' : WF st → PutDeclaration d st = Ok (b, st') → WF st'.
Proof. intros Hw [[_ ->]|(d0 & rec & _ & _ & -> & _)]%PutDeclaration_inv; [done|by apply WF_store_declaration]. Qed.

Lemma DeleteDeclaration_inv i st u st' : DeleteDeclaration i st = Ok (u, st') →
  is_Some (decls st !! i) ∧
  st' = st <| decls := delete i (decls st) |> <| versions := filter (λ '(k, _), k.1 ≠ i) (versions st) |>
           <| members := removeEverywhere (members st) i |> <| enrollDecls := removeEverywhere (enrollDecls st) i |>.
Proof.
  unfold DeleteDeclaration. intros H. go_binds H. destruct (decls st !! i) eqn:Hd; [|done]. go_binds H. eauto.
Qed.

Lemma version_kept i k t v st :
  filter (λ '(k, _), k.1 ≠ i) (versions st) !! (k, t) = Some v ↔ versions st !! (k, t) = Some v ∧ k ≠ i.
Proof. by rewrite map_lookup_filter_Some. Qed.

Lemma DeleteDeclaration_WF i st u st' : WF st → DeleteDeclaration i st = Ok (u, st') → WF st'.
Proof.
  intros [H1 H2 H3 H4 H5 H6 H7 H8 H9 H10 H11 H12 H13] [_ ->]%DeleteDeclaration_inv.
  assert (∀ j, is_Some (decls st !! j) → j ≠ i → is_Some (delete i (decls st) !! j)) as Hd.
  { intros j Hj Hne. by rewrite lookup_delete_ne. }
  split; unfold setf; cbn; try assumption.
  - intros j d. rewrite lookup_delete_Some. intros [_ Hj]. auto.
  - intros j d [Hne Hj]%lookup_delete_Some. destruct (H2 j d Hj) as [v Hv]. exists v. by apply version_kept.
  - intros j t v [Hv Hne]%version_kept. destruct (H3 j t v Hv) as (? & ? & ?). auto.
  - intros n j [Hj Hne]%elem_removeEverywhere. destruct (H4 n j Hj). auto.
  - intros k j [Hj Hne]%elem_removeEverywhere. destruct (H6 k j Hj). auto.
Qed.

Lemma kept_current st i d : decls st !! i = Some d → (i, d_ServerToken d) ∈ kept_versions st.
Proof.
  intros Hd. apply elem_of_union_l, elem_of_list_to_set, list_elem_of_fmap. exists (i, d).
  split; [done|]. by apply elem_of_map_to_list.
Qed.

Lemma kept_snapshot st k s it : snapshots st !! k = Some s → it ∈ sn_Items s →
  (Identifier (Ref it), BaseToken it) ∈ kept_versions st.
Proof.
  intros Hs Hit. apply elem_of_union_r, elem_of_list_to_set, list_elem_of_bind. exists (k, s).
  split; [|by apply elem_of_map_to_list]. apply list_elem_of_fmap. eauto.
Qed.

Lemma PruneVersions_lookup st k : versions (PruneVersions st).2 !! k =
  if decide (k ∈ kept_versions st) then versions st !! k else None.
Proof.
  unfold PruneVersions, setf; cbn. case_decide as Hk.
  - destruct (versions st !! k) eqn:Hv; [by apply map_lookup_filter_Some|]. apply map_lookup_filter_None. by left.
  - apply map_lookup_filter_None. right. by intros v _.
Qed.

Lemma PruneVersions_WF st : WF st → WF (PruneVersions st).2.
Proof.
  intros [H1 H2 H3 H4 H5 H6 H7 H8 H9 H10 H11 H12 H13]. split; try assumption.
  - intros i d Hd. rewrite PruneVersions_lookup, decide_True by (by apply kept_current). by apply (H2 i d).
  - intros i t v. rewrite PruneVersions_lookup. case_decide; [|done]. apply H3.
Qed.

(** ** Sets and assignments *)

Lemma PutSet_WF n at_ b st st' : WF st → PutSet n at_ st = Ok (b, st') → WF st'.
Proof.
  intros [H1 H2 H3 H4 H5 H6 H7 H8 H9 H10 H11 H12 H13] H. unfold PutSet in H. go_binds H.
  destruct (sets st !! n) as [s|] eqn:Hn; go_binds H; [by split|].
  split; try assumption; unfold setf; cbn.
  - intros m i Hi. destruct (H4 m i Hi). split; [by apply grows_insert|done].
  - intros k m Hm. destruct (H5 k m Hm). split; [done|by apply grows_insert].
  - intros m s [[<- <-]|[_ Hs]]%lookup_insert_Some; [done|auto].
Qed.

Lemma DeleteSet_inv n st u st' : DeleteSet n st = Ok (u, st') →
  is_Some (sets st !! n) ∧
  st' = st <| sets := delete n (sets st) |> <| members := delete n (members st) |>
           <| enrollSets := removeEverywhere (enrollSets st) n |>.
Proof. unfold DeleteSet. intros H. go_binds H. destruct (sets st !! n) eqn:Hd; [|done]. go_binds H. eauto. Qed.

Lemma DeleteSet_WF n st u st' : WF st → DeleteSet n st = Ok (u, st') → WF st'.
Proof.
  intros [H1 H2 H3 H4 H5 H6 H7 H8 H9 H10 H11 H12 H13] [_ ->]%DeleteSet_inv.
  split; unfold setf; cbn; try assumption.
  - intros m i. rewrite inner_delete. case_decide as Hm; [set_solver|]. intros Hi. destruct (H4 m i Hi).
    split; [by rewrite lookup_delete_ne|done].
  - intros k m [Hm Hne]%elem_removeEverywhere. destruct (H5 k m Hm). split; [done|by rewrite lookup_delete_ne].
  - intros m s [_ Hs]%lookup_delete_Some. auto.
Qed.

Lemma AddSetDeclaration_inv n i at_ b st st' : AddSetDeclaration n i at_ st = Ok (b, st') →
  ∃ s m, sets st !! n = Some s ∧ is_Some (decls st !! i) ∧ add (members st) n i = (b, m) ∧
    st' = if b then st <| members := m |> <| sets := <[n := s <| s_UpdatedAt := at_ |>]> (sets st) |> else st.
Proof.
  unfold AddSetDeclaration. intros H. go_binds H. destruct (sets st !! n) as [s|] eqn:Hs; [|done].
  destruct (decls st !! i) eqn:Hd; [|done]. destruct (add _ _ _) as [[] m] eqn:Ha; go_binds H; eauto 10.
Qed.

Lemma AddSetDeclaration_WF n i at_ b st st' : WF st → AddSetDeclaration n i at_ st = Ok (b, st') → WF st'.
Proof.
  intros [H1 H2 H3 H4 H5 H6 H7 H8 H9 H10 H11 H12 H13] (s & m & Hs & Hd & Ha & ->)%AddSetDeclaration_inv.
  destruct b; [|by split]. split; unfold setf; cbn; try assumption.
  - intros o x. rewrite (elem_add _ _ _ _ _ o x Ha). intros [Hx|[-> ->]].
    + destruct (H4 o x Hx). split; [by apply grows_insert|done].
    + by rewrite lookup_insert_eq.
  - intros k o Ho. destruct (H5 k o Ho). split; [done|by apply grows_insert].
  - intros o x [[<- <-]|[_ Hx]]%lookup_insert_Some; [exact (H12 _ _ Hs)|auto].
Qed.

Lemma RemoveSetDeclaration_inv n i b st st' : RemoveSetDeclaration n i st = Ok (b, st') →
  ∃ m, is_Some (sets st !! n) ∧ remove (members st) n i = (b, m) ∧ st' = st <| members := m |>.
Proof.
  unfold RemoveSetDeclaration. intros H. go_binds H. destruct (sets st !! n) as [s|] eqn:Hs; [|done].
  destruct (remove _ _ _) as [b' m] eqn:Ha. go_binds H. eauto.
Qed.

Lemma RemoveSetDeclaration_WF n i b st st' : WF st → RemoveSetDeclaration n i st = Ok (b, st') → WF st'.
Proof.
  intros [H1 H2 H3 H4 H5 H6 H7 H8 H9 H10 H11 H12 H13] (m & Hs & Ha & ->)%RemoveSetDeclaration_inv.
  split; unfold setf; cbn; try assumption. intros o x. rewrite (elem_remove _ _ _ _ _ o x Ha). intros [Hx _]. auto.
Qed.

(** An assignment of [key] to [id] in one of the two tables. *)
Lemma AssignSet_inv id n b st st' : AssignSet id n st = Ok (b, st') →
  ∃ u m, validID id st = Ok u ∧ is_Some (sets st !! n) ∧ add (enrollSets st) (ID id) n = (b, m) ∧
    st' = (remember id st) <| enrollSets := m |>.
Proof.
  unfold AssignSet. intros H. go_binds H. destruct (sets st !! n) as [s|] eqn:Hs; [|done].
  destruct (add _ _ _) as [b' m] eqn:Ha. go_binds H. eauto 10.
Qed.

Lemma AssignDeclaration_inv id i b st st' : AssignDeclaration id i st = Ok (b, st') →
  ∃ u m, validID id st = Ok u ∧ is_Some (decls st !! i) ∧ add (enrollDecls st) (ID id) i = (b, m) ∧
    st' = (remember id st) <| enrollDecls := m |>.
Proof.
  unfold AssignDeclaration. intros H. go_binds H. destruct (decls st !! i) as [s|] eqn:Hs; [|done].
  destruct (add _ _ _) as [b' m] eqn:Ha. go_binds H. eauto 10.
Qed.

Lemma UnassignSet_inv id n b st st' : UnassignSet id n st = Ok (b, st') →
  ∃ m, remove (enrollSets st) (ID id) n = (b, m) ∧ st' = st <| enrollSets := m |>.
Proof. unfold UnassignSet. intros H. go_binds H. destruct (remove _ _ _) as [b' m] eqn:Ha. go_binds H. eauto. Qed.

Lemma UnassignDeclaration_inv id i b st st' : UnassignDeclaration id i st = Ok (b, st') →
  ∃ m, remove (enrollDecls st) (ID id) i = (b, m) ∧ st' = st <| enrollDecls := m |>.
Proof. unfold UnassignDeclaration. intros H. go_binds H. destruct (remove _ _ _) as [b' m] eqn:Ha. go_binds H. eauto. Qed.

Lemma remembered id st : ids (remember id st) !! ID id = Some id.
Proof. unfold remember, setf; cbn. by rewrite lookup_insert_eq. Qed.

Lemma AssignSet_WF id n b st st' : WF st → AssignSet id n st = Ok (b, st') → WF st'.
Proof.
  intros Hw (u & m & Hv & Hs & Ha & ->)%AssignSet_inv. apply (WF_remember _ _ _ Hv) in Hw.
  destruct Hw as [H1 H2 H3 H4 H5 H6 H7 H8 H9 H10 H11 H12 H13]. split; try assumption.
  intros k o Ho. change (o ∈ inner m k) in Ho. apply (elem_add _ _ _ _ _ k o Ha) in Ho as [Ho|[-> ->]]; [by apply H5|].
  split; [|done]. exists id. apply remembered.
Qed.

Lemma AssignDeclaration_WF id i b st st' : WF st → AssignDeclaration id i st = Ok (b, st') → WF st'.
Proof.
  intros Hw (u & m & Hv & Hs & Ha & ->)%AssignDeclaration_inv. apply (WF_remember _ _ _ Hv) in Hw.
  destruct Hw as [H1 H2 H3 H4 H5 H6 H7 H8 H9 H10 H11 H12 H13]. split; try assumption.
  intros k o Ho. change (o ∈ inner m k) in Ho. apply (elem_add _ _ _ _ _ k o Ha) in Ho as [Ho|[-> ->]]; [by apply H6|].
  split; [|done]. exists id. apply remembered.
Qed.

Lemma UnassignSet_WF id n b st st' : WF st → UnassignSet id n st = Ok (b, st') → WF st'.
Proof.
  intros [H1 H2 H3 H4 H5 H6 H7 H8 H9 H10 H11 H12 H13] (m & Ha & ->)%UnassignSet_inv. split; try assumption.
  intros k o Ho. apply (elem_remove _ _ _ _ _ k o Ha) in Ho as [Ho _]. by apply H5.
Qed.

Lemma UnassignDeclaration_WF id i b st st' : WF st → UnassignDeclaration id i st = Ok (b, st') → WF st'.
Proof.
  intros [H1 H2 H3 H4 H5 H6 H7 H8 H9 H10 H11 H12 H13] (m & Ha & ->)%UnassignDeclaration_inv. split; try assumption.
  intros k o Ho. apply (elem_remove _ _ _ _ _ k o Ha) in Ho as [Ho _]. by apply H6.
Qed.

(** ** Snapshots *)

Lemma PutSnapshot_inv s st u st' : PutSnapshot s st = Ok (u, st') →
  ∃ x v, s = Some x ∧ validID (sn_ID x) st = Ok v ∧ Forall (λ it, Identifier (Ref it) ≠ []) (sn_Items x) ∧
    st' = (remember (sn_ID x) st) <| snapshots := <[ID (sn_ID x) := x]> (snapshots st) |>.
Proof.
  destruct s as [x|]; [|done]. unfold PutSnapshot. intros H. go_binds H. eexists x, _. split_and!; [done|done| |done].
  apply Forall_forall. intros it Hit E. rewrite <-not_true_iff_false, existsb_exists in Hb0. apply Hb0. exists it.
  split; [by apply list_elem_of_In|by apply bool_decide_eq_true].
Qed.

Lemma PutSnapshot_WF s st u st' : WF st → PutSnapshot s st = Ok (u, st') → WF st'.
Proof.
  intros Hw (x & v & _ & Hv & _ & ->)%PutSnapshot_inv. apply (WF_remember _ _ _ Hv) in Hw.
  destruct Hw as [H1 H2 H3 H4 H5 H6 H7 H8 H9 H10 H11 H12 H13]. split; try assumption.
  intros k s'. change (<[ID (sn_ID x) := x]> (snapshots st) !! k = Some s' → ids (remember (sn_ID x) st) !! k = Some (sn_ID s')).
  intros [[<- <-]|[_ Hs]]%lookup_insert_Some; [apply remembered|by apply H8].
Qed.

(** ** Status *)

Lemma upsert_keys at_ ds : ∀ rows q r, (∀ q r, rows !! q = Some r → status_key r = q) →
  foldl (upsert_declaration at_) rows ds !! q = Some r → status_key r = q.
Proof.
  induction ds as [|d ds IH]; intros rows q r Hrows; cbn; [apply Hrows|]. apply IH. clear q r. intros q r.
  unfold upsert_declaration. intros [[<- <-]|[_ Hq]]%lookup_insert_Some; [done|by apply Hrows].
Qed.

Lemma upsert_value_keys at_ vs : ∀ rows q r, (∀ q r, rows !! q = Some r → Path r = q) →
  foldl (upsert_value at_) rows vs !! q = Some r → Path r = q.
Proof.
  induction vs as [|v vs IH]; intros rows q r Hrows; cbn; [apply Hrows|]. apply IH. clear q r. intros q r.
  unfold upsert_value. intros [[<- <-]|[_ Hq]]%lookup_insert_Some; [done|by apply Hrows].
Qed.

(** The rows of an enrollment after a report. *)
Definition status_rows_after (u : StatusUpdate) (rows : gmap (Kind * bytes) DeclarationStatus) : gmap (Kind * bytes) DeclarationStatus :=
  let rows := foldl (upsert_declaration (ReceivedAt u)) rows (Declarations u) in
  if HasDeclarations u
  then filter (λ '(k, _), k ∈ (list_to_set (status_key <$> Declarations u) : gset _)) rows else rows.
Definition status_values_after (u : StatusUpdate) (rows : gmap bytes StatusValue) : gmap bytes StatusValue :=
  let rows := foldl (upsert_value (ReceivedAt u)) rows (Values u) in
  if FullReport u then filter (λ '(k, _), k ∈ (list_to_set (Path <$> Values u) : gset _)) rows else rows.

Lemma upsertStatusDeclarations_state key u st :
  (upsertStatusDeclarations key u st).2 =
  st <| statusDecls := <[key := status_rows_after u (default ∅ (statusDecls st !! key))]> (statusDecls st) |>.
Proof. unfold upsertStatusDeclarations, status_rows_after. by destruct (HasDeclarations u). Qed.

Lemma upsertStatusValues_state key u st :
  (upsertStatusValues key u st).2 =
  st <| statusValues := <[key := status_values_after u (default ∅ (statusValues st !! key))]> (statusValues st) |>.
Proof. unfold upsertStatusValues, status_values_after. by destruct (FullReport u). Qed.

(** The tables of declarations, sets, assignments and snapshots are the same. *)
Record same_core (st st' : state) : Prop := {
  sc_decls : decls st' = decls st;
  sc_versions : versions st' = versions st;
  sc_sets : sets st' = sets st;
  sc_members : members st' = members st;
  sc_enrollSets : enrollSets st' = enrollSets st;
  sc_enrollDecls : enrollDecls st' = enrollDecls st;
  sc_snapshots : snapshots st' = snapshots st }.
(** So are those of status and changes, and the identities; errors and reports are kept for
    [key] and those that had some. *)
Record same_rows (key : bytes) (st st' : state) : Prop := {
  sr_core : same_core st st';
  sr_ids : ids st' = ids st;
  sr_status : statusDecls st' = statusDecls st;
  sr_values : statusValues st' = statusValues st;
  sr_changes : changes st' = changes st;
  sr_seq : seq st ≤ seq st';
  sr_logs : ∀ k, logged k st' → k = key ∨ logged k st }.

#[export] Instance same_core_preorder : PreOrder same_core.
Proof. split; [done|]. intros a b c [] []. split; congruence. Qed.
#[export] Instance same_rows_preorder key : PreOrder (same_rows key).
Proof.
  split; [split; (done || by right)|]. intros a b c [? ? ? ? ? ? L1] [? ? ? ? ? ? L2]. split; [by etransitivity|congruence..|lia|].
  intros k Hk. destruct (L2 k Hk) as [?|?]; [by left|by apply L1].
Qed.

Lemma WF_rows st st' : same_core st st' →
  (∀ k, is_Some (ids st !! k) → is_Some (ids st' !! k)) →
  (∀ k id, ids st' !! k = Some id → ID id = k ∧ Validate id = Ok tt) →
  (∀ k s, snapshots st !! k = Some s → ids st' !! k = Some (sn_ID s)) →
  (∀ k rows, statusDecls st' !! k = Some rows → is_Some (ids st' !! k) ∧ ∀ q r, rows !! q = Some r → status_key r = q) →
  (∀ k rows, statusValues st' !! k = Some rows → is_Some (ids st' !! k) ∧ ∀ q r, rows !! q = Some r → Path r = q) →
  (∀ n c, changes st' !! n = Some c → c_Seq c = n ∧ n ≤ seq st' ∧ is_Some (ids st' !! ID (c_ID c))) →
  (∀ k, logged k st' → is_Some (ids st' !! k)) →
  WF st → WF st'.
Proof.
  intros [E1 E2 E3 E4 E5 E6 E7] Hk Hi Hsn Hst Hv Hc Hl [H1 H2 H3 H4 H5 H6 H7 H8 H9 H10 H11 H12 H13].
  split; rewrite ?E1, ?E2, ?E3, ?E4, ?E5, ?E6, ?E7; auto.
  - intros k n Hn. destruct (H5 k n Hn). auto.
  - intros k n Hn. destruct (H6 k n Hn). auto.
Qed.

Lemma logged_insert_errors key k x st : logged k (st <| statusErrors := <[key := x]> (statusErrors st) |>) → k = key ∨ logged k st.
Proof. destruct (decide (k = key)) as [->|Hne]; [by left|]. unfold logged, setf; cbn. rewrite lookup_insert_ne by done. by right. Qed.
Lemma logged_insert_reports key k x st : logged k (st <| statusReports := <[key := x]> (statusReports st) |>) → k = key ∨ logged k st.
Proof. destruct (decide (k = key)) as [->|Hne]; [by left|]. unfold logged, setf; cbn. rewrite lookup_insert_ne by done. by right. Qed.

Lemma append_errors_rows key at_ es : ∀ st, same_rows key st (append_errors key at_ es st).
Proof.
  induction es as [|e es IH]; intros st; cbn; [reflexivity|]. etransitivity; [|apply IH].
  split; [by split|reflexivity..| |]; [change (seq st ≤ seq st + 1); lia|].
  intros k H. by apply (logged_insert_errors key k _ (st <| seq := seq st + 1 |>)) in H.
Qed.

Lemma pruneReports_rows key keep st : same_rows key st (pruneReports key keep st).2.
Proof. unfold pruneReports. destruct (_ || _); [reflexivity|]. split; [by split|reflexivity..|]. intros k. apply logged_insert_reports. Qed.

(** The state a report leaves. *)
Record reported (id : EnrollmentID) (u : StatusUpdate) (st st' : state) : Prop := {
  rp_core : same_core st st';
  rp_ids : ids st' = <[ID id := id]> (ids st);
  rp_status : statusDecls st' = <[ID id := status_rows_after u (default ∅ (statusDecls st !! ID id))]> (statusDecls st);
  rp_values : statusValues st' = <[ID id := status_values_after u (default ∅ (statusValues st !! ID id))]> (statusValues st);
  rp_changes : changes st' = changes st;
  rp_seq : seq st < seq st';
  rp_logs : ∀ k, logged k st' → k = ID id ∨ logged k st }.

Lemma reported_rows id u st st1 st2 : reported id u st st1 → same_rows (ID id) st1 st2 → reported id u st st2.
Proof.
  intros [H1 H2 H3 H4 H5 H6 H7] [E1 E2 E3 E4 E5 E6 E7]. split; [by etransitivity|congruence..|lia|].
  intros k Hk. destruct (E7 k Hk) as [?|?]; [by left|by apply H7].
Qed.

Lemma PutStatus_inv id u out st st' : PutStatus id u st = Ok (out, st') →
  validID id st = Ok tt ∧ reported id u st st'.
Proof.
  unfold PutStatus. intros H. apply bind_Ok_inv in H as ([] & Hv & H). apply bind_Ok_inv in H as (? & _ & H).
  split; [done|]. cbn [nextSeq] in H.
  rewrite (surjective_pairing (upsertStatusDeclarations _ _ _)), upsertStatusDeclarations_state in H.
  rewrite (surjective_pairing (upsertStatusValues _ _ _)), upsertStatusValues_state in H.
  rewrite (surjective_pairing (pruneReports _ _ _)) in H. apply Ok_pair_inv in H as [_ <-].
  eapply reported_rows; [|apply pruneReports_rows]. eapply reported_rows; [|apply append_errors_rows].
  split; [by split|reflexivity..| |]; [change (seq st < seq st + 1); lia|].
  intros k [Hk|[y Hk]]; [right; by left|]. apply (lookup_insert_Some (statusReports st) (ID id)) in Hk as [[<- _]|[_ Hk]]; [by left|right; right; eauto].
Qed.

Lemma status_after_keys u rows q r : (∀ q r, rows !! q = Some r → status_key r = q) →
  status_rows_after u rows !! q = Some r → status_key r = q.
Proof.
  intros Hd. unfold status_rows_after. destruct (HasDeclarations u); [|by apply upsert_keys].
  rewrite map_lookup_filter_Some. intros [Hr _]. by eapply upsert_keys.
Qed.

Lemma values_after_keys u rows q r : (∀ q r, rows !! q = Some r → Path r = q) →
  status_values_after u rows !! q = Some r → Path r = q.
Proof.
  intros Hd. unfold status_values_after. destruct (FullReport u); [|by apply upsert_value_keys].
  rewrite map_lookup_filter_Some. intros [Hr _]. by eapply upsert_value_keys.
Qed.

Lemma PutStatus_WF id u out st st' : WF st → PutStatus id u st = Ok (out, st') → WF st'.
Proof.
  intros Hw [Hv [H1 H2 H3 H4 H5 H6 H7]]%PutStatus_inv. pose proof (remember_kept _ _ _ Hv) as Hk.
  apply validID_Ok in Hv as [Hv _].
  assert (∀ k, is_Some (ids st !! k) → is_Some (ids st' !! k)) as Hs by (rewrite H2; apply grows_insert).
  eapply (WF_rows st); [done|done|..|done].
  - intros k x. rewrite H2. intros [[<- <-]|[_ Hx]]%lookup_insert_Some; [done|by apply (wf_ids st)].
  - intros k s Hsn. rewrite H2. by apply Hk, (wf_snapshots st).
  - intros k rows. rewrite H3. intros [[<- <-]|[_ Hr]]%lookup_insert_Some.
    + split; [rewrite H2, lookup_insert_eq; eauto|]. intros q r. apply status_after_keys. intros q' r'.
      destruct (statusDecls st !! ID id) as [rows|] eqn:E; cbn; [by apply (wf_status st Hw _ _ E)|by rewrite lookup_empty].
    + destruct (wf_status st Hw _ _ Hr). auto.
  - intros k rows. rewrite H4. intros [[<- <-]|[_ Hr]]%lookup_insert_Some.
    + split; [rewrite H2, lookup_insert_eq; eauto|]. intros q r. apply values_after_keys. intros q' r'.
      destruct (statusValues st !! ID id) as [rows|] eqn:E; cbn; [by apply (wf_values st Hw _ _ E)|by rewrite lookup_empty].
    + destruct (wf_values st Hw _ _ Hr). auto.
  - intros n c. rewrite H5. intros Hc. destruct (wf_changes st Hw n c Hc) as (? & ? & ?). split_and!; [done|lia|auto].
  - intros k [->|Hk']%H7; [rewrite H2, lookup_insert_eq; eauto|by apply Hs, (wf_logs st Hw)].
Qed.

(** ** Notifications *)

Lemma validIDs_Ok l st u : validIDs l st = Ok u → Forall (λ id, validID id st = Ok tt) l.
Proof.
  induction l as [|id l IH]; cbn; [by constructor|]. intros H. apply bind_Ok_inv in H as ([] & Hv & H). constructor; auto.
Qed.

Definition new_change (reason : bytes) (at_ : Time) (n : Z) (id : EnrollmentID) : Change := mkChange n id reason at_ 0 [] at_.

(** What recording changes for [l] does. *)
Record recorded (reason : bytes) (at_ : Time) (l : list EnrollmentID) (st st' : state) : Prop := {
  rc_core : same_core st st';
  rc_status : statusDecls st' = statusDecls st;
  rc_values : statusValues st' = statusValues st;
  rc_logs : statusErrors st' = statusErrors st ∧ statusReports st' = statusReports st;
  rc_seq : seq st ≤ seq st';
  rc_known : ∀ k, is_Some (ids st !! k) → is_Some (ids st' !! k);
  rc_ids : ∀ k id, ids st' !! k = Some id → ids st !! k = Some id ∨ (id ∈ l ∧ ID id = k);
  rc_old : ∀ n c, changes st !! n = Some c → n ≤ seq st → changes st' !! n = Some c;
  rc_rows : ∀ n c, changes st' !! n = Some c →
    changes st !! n = Some c ∨ (seq st < n ≤ seq st' ∧ c = new_change reason at_ n (c_ID c) ∧ is_Some (ids st' !! ID (c_ID c)));
  rc_new : ∀ id, id ∈ l → ∃ n, seq st < n ∧ changes st' !! n = Some (new_change reason at_ n id) }.

Lemma record_change_step reason at_ st id : ∃ st', record_change reason at_ st id = st' ∧ same_core st st' ∧
  statusDecls st' = statusDecls st ∧ statusValues st' = statusValues st ∧
  (statusErrors st' = statusErrors st ∧ statusReports st' = statusReports st) ∧ seq st' = seq st + 1 ∧
  ids st' = <[ID id := id]> (ids st) ∧ changes st' = <[seq st + 1 := new_change reason at_ (seq st + 1) id]> (changes st).
Proof. eexists. split; [reflexivity|]. by repeat split. Qed.

Lemma record_changes_recorded reason at_ l : ∀ st, recorded reason at_ l st (foldl (record_change reason at_) st l).
Proof.
  induction l as [|id l IH]; intros st; cbn [foldl].
  - split; try done; try lia; auto. by intros ? ?%elem_of_nil.
  - destruct (record_change_step reason at_ st id) as (st1 & -> & E0 & E1 & E2 & [EL1 EL2] & E3 & E4 & E5).
    destruct (IH st1) as [H1 H2 H3 [HL1 HL2] H4 H5 H6 H7 H8 H9]. set (st' := foldl _ _ _) in *. clearbody st'. split.
    + by etransitivity.
    + congruence.
    + congruence.
    + split; congruence.
    + lia.
    + intros k Hk. apply H5. rewrite E4. by apply (grows_insert (ids st)).
    + intros k x Hx. destruct (H6 k x Hx) as [H|[Hin Hid]]; [rewrite E4 in H|set_solver].
      apply lookup_insert_Some in H as [[<- <-]|[_ H]]; [right; split; [by left|done]|by left].
    + intros n c Hc Hn. apply H7; [|lia]. rewrite E5, lookup_insert_ne by lia. done.
    + intros n c Hc. destruct (H8 n c Hc) as [H|(Hn & Hnew & Hi)]; [|right; split_and!; [lia|lia|done|done]].
      rewrite E5 in H. apply lookup_insert_Some in H as [[<- <-]|[_ H]]; [right|by left].
      split_and!; [lia|lia|done|]. apply H5. rewrite E4. cbn. by rewrite lookup_insert_eq.
    + intros x Hx. apply elem_of_cons in Hx as [->|Hx].
      * exists (seq st + 1). split; [lia|]. apply H7; [|lia]. by rewrite E5, lookup_insert_eq.
      * destruct (H9 x Hx) as (n & Hn & Hc). exists n. split; [lia|done].
Qed.

Lemma RecordChanges_inv l reason at_ st u st' : RecordChanges l reason at_ st = Ok (u, st') →
  Forall (λ id, validID id st = Ok tt) l ∧ recorded reason at_ l st st'.
Proof.
  unfold RecordChanges. intros H. apply bind_Ok_inv in H as (v & Hv & H). apply Ok_pair_inv in H as [_ <-].
  split; [by eapply validIDs_Ok|apply record_changes_recorded].
Qed.

Lemma recorded_kept reason at_ l st st' :
  Forall (λ id, validID id st = Ok tt) l → recorded reason at_ l st st' → ids_kept st st'.
Proof.
  intros Hv H k id Hk. destruct (rc_known _ _ _ _ _ H k) as [x Hx]; [eauto|].
  destruct (rc_ids _ _ _ _ _ H k x Hx) as [Hx'|[Hin <-]]; [congruence|].
  rewrite Forall_forall in Hv. apply Hv, validID_spec in Hin as [_ Hin]. by rewrite (Hin _ Hk).
Qed.

Lemma RecordChanges_WF l reason at_ st u st' : WF st → RecordChanges l reason at_ st = Ok (u, st') → WF st'.
Proof.
  intros Hw [Hv H]%RecordChanges_inv. pose proof (recorded_kept _ _ _ _ _ Hv H) as Hk.
  destruct H as [H1 H2 H3 [HL1 HL2] H4 H5 H6 H7 H8 H9]. rewrite Forall_forall in Hv. eapply (WF_rows st); [done|done|..|done].
  - intros k id Hi. destruct (H6 k id Hi) as [?|[Hin ?]]; [by apply (wf_ids st)|].
    split; [done|]. by apply Hv, validID_spec in Hin as [? _].
  - intros k s Hs. by apply Hk, (wf_snapshots st).
  - rewrite H2. intros k rows Hr. destruct (wf_status st Hw k rows Hr). auto.
  - rewrite H3. intros k rows Hr. destruct (wf_values st Hw k rows Hr). auto.
  - intros n c Hc. destruct (H8 n c Hc) as [Hc'|(Hn & -> & Hi)]; [|split_and!; [done|lia|done]].
    destruct (wf_changes st Hw n c Hc') as (? & ? & ?). split_and!; [done|lia|auto].
  - unfold logged. rewrite HL1, HL2. intros k Hlog. by apply H5, (wf_logs st Hw).
Qed.

(** A change of the table of changes alone. *)
Lemma WF_changes st m : (∀ n c, m !! n = Some c → ∃ c', changes st !! n = Some c' ∧ c_Seq c = c_Seq c' ∧ c_ID c = c_ID c') →
  WF st → WF (st <| changes := m |>).
Proof.
  intros Hm Hw. eapply (WF_rows st); [by split|done|apply Hw..| |apply (wf_logs st Hw)|done].
  intros n c Hc. destruct (Hm n c Hc) as (c' & Hc' & -> & ->). apply (wf_changes st Hw n c' Hc').
Qed.

Lemma complete_lookup seqs : ∀ (m : gmap Z Change) n c, foldl (λ m n, delete n m) m seqs !! n = Some c → m !! n = Some c.
Proof. induction seqs as [|x seqs IH]; intros m n c H; cbn in H; [done|]. by apply IH, lookup_delete_Some in H as [_ ?]. Qed.

Lemma CompleteChanges_WF seqs st : WF st → WF (CompleteChanges seqs st).
Proof. intros Hw. apply WF_changes; [|done]. intros n c Hc%complete_lookup. eauto. Qed.

Lemma fail_lookup msg t seqs : ∀ (m : gmap Z Change) n c, foldl (fail_change msg t) m seqs !! n = Some c →
  ∃ c', m !! n = Some c' ∧ c_Seq c = c_Seq c' ∧ c_ID c = c_ID c'.
Proof.
  induction seqs as [|x seqs IH]; intros m n c H; cbn in H; [eauto|]. apply IH in H as (c1 & H & -> & ->).
  unfold fail_change in H. destruct (m !! x) as [c2|] eqn:Hx; [|eauto].
  apply lookup_insert_Some in H as [[<- <-]|[_ H]]; eauto.
Qed.

Lemma FailChanges_WF seqs msg t st : WF st → WF (FailChanges seqs msg t st).
Proof. intros Hw. apply WF_changes; [|done]. intros n c. apply fail_lookup. Qed.

Lemma ClearEnrollment_inv id st u st' : ClearEnrollment id st = Ok (u, st') →
  validID id st = Ok tt ∧ decls st' = decls st ∧ versions st' = versions st ∧ sets st' = sets st ∧ members st' = members st ∧
  ids st' = ids st ∧ enrollSets st' = delete (ID id) (enrollSets st) ∧ enrollDecls st' = delete (ID id) (enrollDecls st) ∧
  snapshots st' = delete (ID id) (snapshots st) ∧ statusDecls st' = delete (ID id) (statusDecls st) ∧
  statusValues st' = delete (ID id) (statusValues st) ∧ statusErrors st' = delete (ID id) (statusErrors st) ∧
  statusReports st' = delete (ID id) (statusReports st) ∧
  changes st' = filter (λ '(_, c), ID (c_ID c) ≠ ID id) (changes st) ∧ seq st' = seq st.
Proof.
  unfold ClearEnrollment. intros H. apply bind_Ok_inv in H as ([] & Hv & H). apply Ok_pair_inv in H as [_ <-]. by repeat split.
Qed.

Lemma ClearEnrollment_WF id st u st' : WF st → ClearEnrollment id st = Ok (u, st') → WF st'.
Proof.
  intros [H1 H2 H3 H4 H5 H6 H7 H8 H9 H10 H11 H12 H13]
    (_ & E1 & E2 & E3 & E4 & E5 & E6 & E7 & E8 & E9 & E10 & EL1 & EL2 & E11 & E12)%ClearEnrollment_inv.
  split; rewrite ?E1, ?E2, ?E3, ?E4, ?E5, ?E6, ?E7, ?E8, ?E9, ?E10, ?E11, ?E12; auto.
  - intros k n. rewrite inner_delete. case_decide; [set_solver|auto].
  - intros k n. rewrite inner_delete. case_decide; [set_solver|auto].
  - intros k s [_ Hs]%lookup_delete_Some. auto.
  - intros k rows [_ Hr]%lookup_delete_Some. auto.
  - intros k rows [_ Hr]%lookup_delete_Some. by eapply H10.
  - intros n c [Hc _]%map_lookup_filter_Some. auto.
  - intros k. unfold logged. rewrite EL1, EL2. intros [[x [_ Hx]%lookup_delete_Some]|[x [_ Hx]%lookup_delete_Some]]; apply H13; [left|right]; eauto.
Qed.

(** ** Sequences of calls *)

(** A call of the store that can change its state. *)
Inductive call :=
| CPutDeclaration (d : option Declaration) | CDeleteDeclaration (i : bytes) | CPruneVersions
| CPutSet (n : bytes) (at_ : Time) | CDeleteSet (n : bytes)
| CAddSetDeclaration (n i : bytes) (at_ : Time) | CRemoveSetDeclaration (n i : bytes)
| CAssignSet (id : EnrollmentID) (n : bytes) | CUnassignSet (id : EnrollmentID) (n : bytes)
| CAssignDeclaration (id : EnrollmentID) (i : bytes) | CUnassignDeclaration (id : EnrollmentID) (i : bytes)
| CPutSnapshot (s : option Snapshot) | CPutStatus (id : EnrollmentID) (u : StatusUpdate)
| CRecordChanges (l : list EnrollmentID) (reason : bytes) (at_ : Time) | CCompleteChanges (seqs : list Z)
| CFailChanges (seqs : list Z) (msg : bytes) (at_ : Time) | CClearEnrollment (id : EnrollmentID).

(** The state after a call: a failed call changes nothing. *)
Definition left_by {A} (st : state) (r : dres A) : state := match r with Ok (_, st') => st' | Err _ => st end.

Definition perform (st : state) (c : call) : state :=
  match c with
  | CPutDeclaration d => left_by st (PutDeclaration d st)
  | CDeleteDeclaration i => left_by st (DeleteDeclaration i st)
  | CPruneVersions => (PruneVersions st).2
  | CPutSet n at_ => left_by st (PutSet n at_ st)
  | CDeleteSet n => left_by st (DeleteSet n st)
  | CAddSetDeclaration n i at_ => left_by st (AddSetDeclaration n i at_ st)
  | CRemoveSetDeclaration n i => left_by st (RemoveSetDeclaration n i st)
  | CAssignSet id n => left_by st (AssignSet id n st)
  | CUnassignSet id n => left_by st (UnassignSet id n st)
  | CAssignDeclaration id i => left_by st (AssignDeclaration id i st)
  | CUnassignDeclaration id i => left_by st (UnassignDeclaration id i st)
  | CPutSnapshot s => left_by st (PutSnapshot s st)
  | CPutStatus id u => left_by st (PutStatus id u st)
  | CRecordChanges l reason at_ => left_by st (RecordChanges l reason at_ st)
  | CCompleteChanges seqs => CompleteChanges seqs st
  | CFailChanges seqs msg at_ => FailChanges seqs msg at_ st
  | CClearEnrollment id => left_by st (ClearEnrollment id st)
  end.

Lemma left_by_invariant {A} (P : state → Prop) st (r : dres A) :
  P st → (∀ a st', r = Ok (a, st') → P st') → P (left_by st r).
Proof. destruct r as [[a st']|]; cbn; eauto. Qed.

Lemma perform_WF st c : WF st → WF (perform st c).
Proof.
  intros Hw. destruct c; cbn [perform]; try (apply left_by_invariant; [done|]; intros a st').
  - by apply PutDeclaration_WF.
  - by apply DeleteDeclaration_WF.
  - by apply PruneVersions_WF.
  - by apply PutSet_WF.
  - by apply DeleteSet_WF.
  - by apply AddSetDeclaration_WF.
  - by apply RemoveSetDeclaration_WF.
  - by apply AssignSet_WF.
  - by apply UnassignSet_WF.
  - by apply AssignDeclaration_WF.
  - by apply UnassignDeclaration_WF.
  - by apply PutSnapshot_WF.
  - by apply PutStatus_WF.
  - by apply RecordChanges_WF.
  - by apply CompleteChanges_WF.
  - by apply FailChanges_WF.
  - by apply ClearEnrollment_WF.
Qed.

Lemma perform_ids st c : ids_kept st (perform st c).
Proof.
  destruct c; cbn [perform]; try (apply left_by_invariant; [reflexivity|]; intros a st' H); try reflexivity.
  - apply PutDeclaration_inv in H as [[_ ->]|(d0 & rec & _ & _ & -> & _)]; [reflexivity|].
    rewrite store_declaration_eq. by apply ids_kept_eq.
  - apply DeleteDeclaration_inv in H as [_ ->]. by apply ids_kept_eq.
  - by apply ids_kept_eq.
  - unfold PutSet in H. go_binds H. destruct (sets st !! n); go_binds H; by apply ids_kept_eq.
  - apply DeleteSet_inv in H as [_ ->]. by apply ids_kept_eq.
  - apply AddSetDeclaration_inv in H as (s & m & _ & _ & _ & ->). destruct a; by apply ids_kept_eq.
  - apply RemoveSetDeclaration_inv in H as (m & _ & _ & ->). by apply ids_kept_eq.
  - apply AssignSet_inv in H as (u & m & Hv & _ & _ & ->). by apply remember_kept in Hv.
  - apply UnassignSet_inv in H as (m & _ & ->). by apply ids_kept_eq.
  - apply AssignDeclaration_inv in H as (u & m & Hv & _ & _ & ->). by apply remember_kept in Hv.
  - apply UnassignDeclaration_inv in H as (m & _ & ->). by apply ids_kept_eq.
  - apply PutSnapshot_inv in H as (x & v & _ & Hv & _ & ->). by apply remember_kept in Hv.
  - apply PutStatus_inv in H as [Hv [_ E _ _ _ _]]. apply remember_kept in Hv. intros k x Hx. rewrite E. by apply Hv.
  - apply RecordChanges_inv in H as [Hv H]. by eapply recorded_kept.
  - by apply ids_kept_eq.
  - by apply ids_kept_eq.
  - by apply ClearEnrollment_inv in H as (_ & _ & _ & _ & _ & E & _); apply ids_kept_eq.
Qed.

(** The store after a sequence of calls. *)
Definition performed (cs : list call) : state := foldl perform newState cs.

Lemma performed_invariant (P : state → Prop) cs st :
  P st → (∀ st c, P st → P (perform st c)) → P (foldl perform st cs).
Proof. intros H Hs. revert st H. induction cs as [|c cs IH]; intros st H; cbn; [done|]. by apply IH, Hs. Qed.

Lemma performed_WF cs : WF (performed cs).
Proof. apply (performed_invariant WF); [apply WF_new|]. intros st c. apply perform_WF. Qed.

(** A revision survives every call but the deletion of its declaration, and pruning unless it
    is kept. *)
Lemma perform_version st c i t v : versions st !! (i, t) = Some v → c ≠ CDeleteDeclaration i →
  (c = CPruneVersions → (i, t) ∈ kept_versions st) → versions (perform st c) !! (i, t) = Some v.
Proof.
  intros Hv Hd Hp. destruct c; cbn [perform]; try (apply left_by_invariant; [done|]; intros a st' H); try done.
  - apply PutDeclaration_inv in H as [[_ ->]|(d0 & rec & _ & _ & -> & _)]; [done|]. by rewrite store_declaration_versions, Hv.
  - apply DeleteDeclaration_inv in H as [_ ->]. apply version_kept. split; [done|]. by intros <-.
  - rewrite PruneVersions_lookup, decide_True; auto.
  - unfold PutSet in H. go_binds H. by destruct (sets st !! n); go_binds H.
  - by apply DeleteSet_inv in H as [_ ->].
  - apply AddSetDeclaration_inv in H as (s & m & _ & _ & _ & ->). by destruct a.
  - by apply RemoveSetDeclaration_inv in H as (m & _ & _ & ->).
  - by apply AssignSet_inv in H as (u & m & _ & _ & _ & ->).
  - by apply UnassignSet_inv in H as (m & _ & ->).
  - by apply AssignDeclaration_inv in H as (u & m & _ & _ & _ & ->).
  - by apply UnassignDeclaration_inv in H as (m & _ & ->).
  - by apply PutSnapshot_inv in H as (x & w & _ & _ & _ & ->).
  - apply PutStatus_inv in H as [_ [[_ E _ _ _ _ _] _ _ _ _ _ _]]. by rewrite E.
  - apply RecordChanges_inv in H as [_ H]. destruct (rc_core _ _ _ _ _ H) as [_ E _ _ _ _ _]. by rewrite E.
  - apply ClearEnrollment_inv in H as (_ & _ & E & _). by rewrite E.
Qed.

(** C40 After any sequence of calls the store is consistent: sets contain and enrollments are
    assigned only what exists, every declaration has its current revision, every revision
    belongs to a declaration that exists, snapshots, status, errors, reports and changes
    belong to known identities, and the rows of declarations, revisions, sets, identities,
    status and changes are stored under the keys they carry. An identity, once known, is the
    same ever after. A snapshot may name a revision that its declaration took along when it
    was deleted, but in no other way does it lose one: a revision that is there and named by
    a snapshot is there unchanged after every call, pruning included, except the deletion of
    its declaration. *)
Theorem ddm_store_consistent cs :
  WF (performed cs) ∧
  (∀ cs', ids_kept (performed cs) (performed (cs ++ cs'))) ∧
  (∀ c k s it v, snapshots (performed cs) !! k = Some s → it ∈ sn_Items s →
     versions (performed cs) !! (Identifier (Ref it), BaseToken it) = Some v → c ≠ CDeleteDeclaration (Identifier (Ref it)) →
     versions (performed (cs ++ [c])) !! (Identifier (Ref it), BaseToken it) = Some v).
Proof.
  split_and!; [apply performed_WF| |].
  - intros cs'. unfold performed. rewrite foldl_app. apply (performed_invariant (ids_kept (foldl perform newState cs))); [reflexivity|].
    intros st c H. etransitivity; [done|apply perform_ids].
  - intros c k s it v Hs Hit Hv Hc. unfold performed. rewrite foldl_app. apply perform_version; [done|done|]. intros _. by eapply kept_snapshot.
Qed.

(** A device has the first revision of a declaration in its snapshot; the declaration is
    replaced, and old revisions are pruned. *)
Definition sample_owner : EnrollmentID := mkID ChannelDevice (bs "U1") [].
Definition revision (token : bytes) : Declaration := mkDeclaration (bs "a") (bs "t") KindConfiguration token (bs "bytes") 1 1.
Definition sample_calls : list call :=
  [CPutDeclaration (Some (revision (bs "1")));
   CPutSnapshot (Some (mkSnapshot sample_owner (bs "m") [mkItem (mkRef KindConfiguration (bs "a") (bs "1")) (bs "1") None] 1 1));
   CPutDeclaration (Some (revision (bs "2")))].

Lemma ddm_store_consistent_witness :
  versions (performed (sample_calls ++ [CPruneVersions])) !! (bs "a", bs "1") = Some (version_of (revision (bs "1"))).
Proof.
  destruct (ddm_store_consistent sample_calls) as (_ & _ & H).
  apply (H CPruneVersions (bs "U1") (mkSnapshot sample_owner (bs "m") [mkItem (mkRef KindConfiguration (bs "a") (bs "1")) (bs "1") None] 1 1)
           (mkItem (mkRef KindConfiguration (bs "a") (bs "1")) (bs "1") None) (version_of (revision (bs "1")))).
  - vm_compute. reflexivity.
  - left.
  - vm_compute. reflexivity.
  - discriminate.
Defined.
