(* ===== verification/DdmNotify.v ===== *)
(** * No change goes unnoticed

    A device learns of a change of its declarations because the engine queues a
    notification. [view]: what an enrollment is statically assigned, as the references
    its manifest is made of. Every administrative operation that changes the view of an
    enrollment queues a change for it, due at once, in the same transaction. *)
From S2P Require Import Prelude GoStrings OsVersion Support Mdm Storage Sha256 Json DdmTypes DdmStore DdmDecl DdmEngine DdmInv.

(** ** What an enrollment is assigned *)

Definition view (key : bytes) (st : state) : list DeclarationRef :=
  declaration_ref <$> declarationsByIdentifier (staticIdentifiers key st) st.

Lemma elem_static i key st : i ∈ staticIdentifiers key st ↔
  i ∈ inner (enrollDecls st) key ∨ ∃ n, n ∈ inner (enrollSets st) key ∧ i ∈ inner (members st) n.
Proof.
  unfold staticIdentifiers. rewrite elem_of_union, elem_of_union_list. setoid_rewrite list_elem_of_fmap.
  setoid_rewrite elem_of_elements. naive_solver.
Qed.

Lemma view_omap key st :
  view key st = omap (λ i, declaration_ref <$> decls st !! i) (sortedKeys (staticIdentifiers key st)).
Proof.
  unfold view, declarationsByIdentifier. induction (sortedKeys _) as [|i l IH]; [done|]. cbn.
  destruct (decls st !! i); cbn; by rewrite <-IH.
Qed.

Lemma omap_agree {A} (f g : bytes → option A) (l : list bytes) : (∀ i, i ∈ l → f i = g i) → omap f l = omap g l.
Proof.
  induction l as [|i l IH]; intros H; [done|]. cbn. rewrite (H i) by left. rewrite IH; [done|]. intros j Hj. apply H. by right.
Qed.

Lemma view_agree key st st' :
  (∀ i, i ∈ inner (enrollDecls st') key ↔ i ∈ inner (enrollDecls st) key) →
  (∀ n, n ∈ inner (enrollSets st') key ↔ n ∈ inner (enrollSets st) key) →
  (∀ n i, n ∈ inner (enrollSets st) key → i ∈ inner (members st') n ↔ i ∈ inner (members st) n) →
  (∀ i, i ∈ staticIdentifiers key st → declaration_ref <$> decls st' !! i = declaration_ref <$> decls st !! i) →
  view key st' = view key st.
Proof.
  intros Hd Hs Hm Hr. rewrite !view_omap.
  assert (staticIdentifiers key st' = staticIdentifiers key st) as ->.
  { apply set_eq. intros i. rewrite !elem_static, Hd. setoid_rewrite Hs. naive_solver. }
  apply omap_agree. intros i Hi. apply Hr. unfold sortedKeys in Hi. by rewrite sort_strings_perm, elem_of_elements in Hi.
Qed.

Lemma view_core key st st' : same_core st st' → view key st' = view key st.
Proof. intros [E1 _ _ E4 E5 E6 _]. apply view_agree; intros; by rewrite ?E1, ?E4, ?E5, ?E6. Qed.

(** ** Who is affected *)

Definition affected (identifiers setnames : list bytes) (key : bytes) (st : state) : Prop :=
  (∃ n, n ∈ inner (enrollSets st) key ∧ (n ∈ setnames ∨ ∃ i, i ∈ identifiers ∧ i ∈ inner (members st) n)) ∨
  ∃ i, i ∈ identifiers ∧ i ∈ inner (enrollDecls st) key.

Lemma elem_setsContaining n i st : n ∈ setsContaining i st ↔ i ∈ inner (members st) n.
Proof.
  unfold setsContaining, inner. rewrite elem_of_dom. split.
  - intros [ms [Hm Hi]%map_lookup_filter_Some]. by rewrite Hm.
  - destruct (members st !! n) as [ms|] eqn:Hm; cbn; [|set_solver]. intros Hi. exists ms. by apply map_lookup_filter_Some.
Qed.

Lemma intersects_true a b : intersects a b = true ↔ ∃ k, k ∈ a ∧ k ∈ b.
Proof.
  unfold intersects. rewrite existsb_exists. setoid_rewrite <-list_elem_of_In. setoid_rewrite elem_of_elements.
  by setoid_rewrite bool_decide_eq_true.
Qed.

Lemma hasAny_true s keys : hasAny s keys = true ↔ ∃ k, k ∈ keys ∧ k ∈ s.
Proof. unfold hasAny. rewrite existsb_exists. setoid_rewrite <-list_elem_of_In. by setoid_rewrite bool_decide_eq_true. Qed.

Lemma AffectedEnrollments_spec il ns st l key id :
  AffectedEnrollments il ns st = Ok l → ids st !! key = Some id → affected il ns key st → id ∈ l.
Proof.
  unfold AffectedEnrollments. intros H Hid Ha. go_binds H. rewrite stable_sort_perm. apply list_elem_of_fmap.
  exists (key, id). split; [done|]. apply elem_of_map_to_list, map_lookup_filter_Some. split; [done|].
  rewrite orb_true_iff, intersects_true, hasAny_true. destruct Ha as [(n & Hn & Ha)|Ha]; [left|by right].
  exists n. split; [done|]. rewrite elem_of_union, elem_of_list_to_set, elem_of_union_list.
  destruct Ha as [?|(i & Hi & Hm)]; [by left|right]. exists (setsContaining i st).
  split; [apply list_elem_of_fmap; eauto|]. by apply elem_setsContaining.
Qed.

Lemma affected_known il ns key st : WF st → affected il ns key st → ∃ id, ids st !! key = Some id ∧ ID id = key.
Proof.
  intros Hw Ha. assert (is_Some (ids st !! key)) as [id Hid].
  { destruct Ha as [(n & Hn & _)|(i & _ & Hi)]; [by apply (wf_enrollSets st Hw key n)|by apply (wf_enrollDecls st Hw key i)]. }
  exists id. split; [done|]. by apply (wf_ids st).
Qed.

(** A change for the enrollment, due from [now], that was not there before. *)
Definition notified (key : bytes) (now : Time) (st st' : state) : Prop :=
  ∃ n id reason, seq st < n ∧ ID id = key ∧ changes st' !! n = Some (new_change reason now n id).

Lemma recorded_notified reason now l st st' id : recorded reason now l st st' → id ∈ l → notified (ID id) now st st'.
Proof. intros H Hin. destruct (rc_new _ _ _ _ _ H id Hin) as (n & Hn & Hc). by exists n, id, reason. Qed.

Lemma recordAffected_spec il ns reason now st u st' : WF st → recordAffected il ns reason now st = Ok (u, st') →
  same_core st st' ∧ WF st' ∧ ∀ key, affected il ns key st → notified key now st st'.
Proof.
  intros Hw. unfold recordAffected. destruct (AffectedEnrollments il ns st) as [l|] eqn:Hl; [|done]. cbn [mbind result_bind].
  assert (∀ key, affected il ns key st → ∃ id, id ∈ l ∧ ID id = key) as Hin.
  { intros key Ha. destruct (affected_known _ _ _ _ Hw Ha) as (id & Hid & <-). exists id. split; [|done].
    by eapply AffectedEnrollments_spec. }
  case_bool_decide as Hne.
  - intros H. go_binds H. split_and!; [reflexivity|done|]. intros key (id & Hid & _)%Hin. set_solver.
  - intros H. split_and!; [by apply RecordChanges_inv in H as [_ []]|by eapply RecordChanges_WF|].
    apply RecordChanges_inv in H as [_ H]. intros key (id & Hid & <-)%Hin. by eapply recorded_notified.
Qed.

(** ** Administration *)

Section Notify.
Context {JC : JsonCodec} {DS : DdmSchema}.

(** A transaction tells an enrollment whose view it changes. *)
Definition tells (key : bytes) (now : Time) (st st' : state) : Prop :=
  WF st' ∧ (view key st' ≠ view key st → notified key now st st').

Lemma tells_same key now st : WF st → tells key now st st.
Proof. by split. Qed.

(** A change, and then the record of who is affected. *)
Lemma tells_after il ns reason now key st st1 st2 u :
  WF st1 → seq st1 = seq st → affected il ns key st1 ∨ view key st1 = view key st →
  recordAffected il ns reason now st1 = Ok (u, st2) → tells key now st st2.
Proof.
  intros Hw Hs Hv H. destruct (recordAffected_spec _ _ _ _ _ _ _ Hw H) as (Hc & Hw2 & Ha). split; [done|].
  rewrite (view_core _ _ _ Hc). intros Hne. unfold notified. rewrite <-Hs. apply Ha. by destruct Hv.
Qed.

(** The record first, then a change that leaves the changes alone. *)
Lemma tells_before il ns reason now key st st1 st2 u :
  WF st → recordAffected il ns reason now st = Ok (u, st1) →
  (WF st1 → WF st2) → changes st2 = changes st1 → affected il ns key st ∨ view key st2 = view key st1 → tells key now st st2.
Proof.
  intros Hw H Hw2 Hc Hv. destruct (recordAffected_spec _ _ _ _ _ _ _ Hw H) as (Hsame & Hw1 & Ha). split; [auto|].
  intros Hne. unfold notified. rewrite Hc. apply Ha. destruct Hv as [|Hv]; [done|]. by rewrite Hv, (view_core _ _ _ Hsame) in Hne.
Qed.

Lemma store_declaration_view key d st : view key (store_declaration d st) = view key st ∨ affected [d_Identifier d] [] key (store_declaration d st).
Proof.
  destruct (decide (d_Identifier d ∈ staticIdentifiers key st)) as [Hi|Hi].
  - right. rewrite store_declaration_eq. apply elem_static in Hi as [Hi|(n & Hn & Hi)]; [right|left; exists n].
    + exists (d_Identifier d). split; [by left|done].
    + split; [done|]. right. exists (d_Identifier d). split; [by left|done].
  - left. apply view_agree.
    + intros i. by rewrite store_declaration_eq.
    + intros n. by rewrite store_declaration_eq.
    + intros n i _. by rewrite store_declaration_eq.
    + intros i His. rewrite store_declaration_decls, lookup_insert_ne; [done|]. by intros <-.
Qed.

Lemma store_declaration_seq d st : seq (store_declaration d st) = seq st.
Proof. by rewrite store_declaration_eq. Qed.

Lemma put_declaration_tells d now key st r st' : WF st →
  put_declaration_tx d now st = Ok (r, st') → tells key now st st'.
Proof.
  intros Hw. unfold put_declaration_tx.
  set (d' := match GetDeclaration (d_Identifier d) st with Ok prev => _ | Err _ => d end). intros H.
  apply bind_Ok_inv in H as ([[] st1] & Hp & H); cbn [negb] in H.
  - apply bind_Ok_inv in H as ([u st2] & Hr & H). apply Ok_pair_inv in H as [_ <-].
    pose proof (PutDeclaration_WF _ _ _ _ Hw Hp) as Hw1.
    apply PutDeclaration_inv in Hp as [[? _]|(d0 & rec & [= <-] & _ & -> & Erec & _)]; [done|].
    assert (d_Identifier d' = d_Identifier rec) as E by (by rewrite Erec).
    eapply (tells_after [d_Identifier d'] []); [exact Hw1|apply store_declaration_seq| |exact Hr]. rewrite E.
    destruct (store_declaration_view key rec st); auto.
  - apply Ok_pair_inv in H as [_ <-]. apply PutDeclaration_inv in Hp as [[_ ->]|(? & ? & _ & ? & _)]; [by apply tells_same|done].
Qed.

Lemma delete_declaration_tells i now key st st' u : WF st →
  ('(_, st) ← recordAffected [i] [] ReasonDeclaration now st; DeleteDeclaration i st) = Ok (u, st') → tells key now st st'.
Proof.
  intros Hw H. apply bind_Ok_inv in H as ([v st1] & Hr & H).
  eapply (tells_before [i] []); [exact Hw|exact Hr|by intros Hw1; eapply DeleteDeclaration_WF| |].
  - apply DeleteDeclaration_inv in H as [_ ->]. done.
  - destruct (recordAffected_spec _ _ _ _ _ _ _ Hw Hr) as ([E1 _ _ E4 E5 E6 _] & _ & _).
    apply DeleteDeclaration_inv in H as [_ ->].
    destruct (decide (i ∈ staticIdentifiers key st)) as [Hi|Hi].
    + left. apply elem_static in Hi as [Hi|(n & Hn & Hi)]; [right|left; exists n; split; [done|right]]; (exists i; split; [by left|done]).
    + right. rewrite elem_static in Hi. apply view_agree; unfold setf; cbn.
      * intros j. rewrite elem_removeEverywhere, E6. split; [by intros [? _]|]. intros Hj. split; [done|]. intros ->. naive_solver.
      * done.
      * intros n j Hn. rewrite elem_removeEverywhere, E4. split; [by intros [? _]|]. intros Hj. split; [done|]. intros ->.
        rewrite E5 in Hn. naive_solver.
      * intros j Hj. rewrite lookup_delete_ne; [done|]. intros <-. apply elem_static in Hj. rewrite E4, E5, E6 in Hj. naive_solver.
Qed.

Lemma delete_set_tells n now key st st' u : WF st →
  ('(_, st) ← recordAffected [] [n] ReasonSet now st; DeleteSet n st) = Ok (u, st') → tells key now st st'.
Proof.
  intros Hw H. apply bind_Ok_inv in H as ([v st1] & Hr & H).
  eapply (tells_before [] [n]); [exact Hw|exact Hr|by intros Hw1; eapply DeleteSet_WF| |].
  - apply DeleteSet_inv in H as [_ ->]. done.
  - destruct (recordAffected_spec _ _ _ _ _ _ _ Hw Hr) as ([E1 _ _ E4 E5 E6 _] & _ & _).
    apply DeleteSet_inv in H as [_ ->].
    destruct (decide (n ∈ inner (enrollSets st) key)) as [Hn|Hn].
    + left. left. exists n. split; [done|]. left. by left.
    + right. apply view_agree; unfold setf; cbn; try done.
      * intros m. rewrite elem_removeEverywhere. split; [by intros [? _]|]. intros Hm. split; [done|]. intros ->. by rewrite E5 in Hm.
      * intros m i Hm. rewrite inner_delete. case_decide as E; [subst; by rewrite E5 in Hm|done].
Qed.

Lemma membership_tells set op now key st st' b : WF st →
  (∀ b st1, op st = Ok (b, st1) → WF st1 ∧ (b = false → st1 = st) ∧ seq st1 = seq st ∧
     (affected [] [set] key st1 ∨ view key st1 = view key st)) →
  ('(changed, st) ← op st;
   if negb changed then Ok (false, st) else '(_, st) ← recordAffected [] [set] ReasonSet now st; Ok (true, st)) = Ok (b, st') →
  tells key now st st'.
Proof.
  intros Hw Hop H. apply bind_Ok_inv in H as ([c st1] & Ho & H). destruct (Hop c st1 Ho) as (Hw1 & Hsame & Hs & Hv).
  destruct c; cbn [negb] in H.
  - apply bind_Ok_inv in H as ([u st2] & Hr & H). apply Ok_pair_inv in H as [_ <-]. by eapply tells_after.
  - apply Ok_pair_inv in H as [_ <-]. rewrite Hsame by done. by apply tells_same.
Qed.

(** Members of one set change: nobody else's view does. *)
Lemma members_view key set st st' :
  enrollSets st' = enrollSets st → enrollDecls st' = enrollDecls st → decls st' = decls st →
  (∀ n, n ≠ set → inner (members st') n = inner (members st) n) →
  affected [] [set] key st' ∨ view key st' = view key st.
Proof.
  intros Es Ed E Hm. destruct (decide (set ∈ inner (enrollSets st) key)) as [Hn|Hn].
  - left. left. exists set. rewrite Es. split; [done|]. left. by left.
  - right. apply view_agree; intros *; rewrite ?Es, ?Ed, ?E; try done. intros Hin. rewrite Hm; [done|]. by intros ->.
Qed.

Lemma add_other m o k b m' o' : add m o k = (b, m') → o' ≠ o → inner m' o' = inner m o'.
Proof. intros H Hne. apply set_eq. intros x. rewrite (elem_add _ _ _ _ _ o' x H). naive_solver. Qed.
Lemma remove_other m o k b m' o' : remove m o k = (b, m') → o' ≠ o → inner m' o' = inner m o'.
Proof. intros H Hne. apply set_eq. intros x. rewrite (elem_remove _ _ _ _ _ o' x H). naive_solver. Qed.

Lemma AddSetDeclaration_tells set i at_ key st b st1 : WF st → AddSetDeclaration set i at_ st = Ok (b, st1) →
  WF st1 ∧ (b = false → st1 = st) ∧ seq st1 = seq st ∧ (affected [] [set] key st1 ∨ view key st1 = view key st).
Proof.
  intros Hw H. split; [by eapply AddSetDeclaration_WF|]. apply AddSetDeclaration_inv in H as (s & m & _ & _ & Ha & ->).
  destruct b; [|by auto]. split_and!; [done|done|]. apply members_view; try done. intros n Hn. by apply (add_other _ _ _ _ _ _ Ha).
Qed.

Lemma RemoveSetDeclaration_tells set i key st b st1 : WF st → RemoveSetDeclaration set i st = Ok (b, st1) →
  WF st1 ∧ (b = false → st1 = st) ∧ seq st1 = seq st ∧ (affected [] [set] key st1 ∨ view key st1 = view key st).
Proof.
  intros Hw H. split; [by eapply RemoveSetDeclaration_WF|]. apply RemoveSetDeclaration_inv in H as (m & _ & Ha & ->).
  split_and!; [|done|].
  - intros ->. apply unchanged_remove in Ha as ->. by destruct st.
  - apply members_view; try done. intros n Hn. by apply (remove_other _ _ _ _ _ _ Ha).
Qed.

Lemma assignment_tells id op now key st st' b : WF st →
  (∀ b st1, op st = Ok (b, st1) → WF st1 ∧ (b = false → view key st1 = view key st) ∧ seq st1 = seq st ∧
     (key ≠ ID id → view key st1 = view key st)) →
  ('(changed, st) ← op st;
   if negb changed then Ok (false, st) else '(_, st) ← RecordChanges [id] ReasonAssignment now st; Ok (true, st)) = Ok (b, st') →
  tells key now st st'.
Proof.
  intros Hw Hop H. apply bind_Ok_inv in H as ([c st1] & Ho & H). destruct (Hop c st1 Ho) as (Hw1 & Hsame & Hs & Hv).
  destruct c; cbn [negb] in H.
  - apply bind_Ok_inv in H as ([u st2] & Hr & H). apply Ok_pair_inv in H as [_ <-].
    split; [by eapply RecordChanges_WF|]. apply RecordChanges_inv in Hr as [_ Hr].
    rewrite (view_core _ _ _ (rc_core _ _ _ _ _ Hr)). intros Hne. destruct (decide (key = ID id)) as [->|Hk]; [|by destruct Hne; auto].
    unfold notified. rewrite <-Hs. eapply recorded_notified; [exact Hr|by left].
  - apply Ok_pair_inv in H as [_ <-]. split; [done|]. intros Hne. by destruct Hne; auto.
Qed.

(** An assignment of the enrollment [id] only touches its own view. *)
Lemma assigned_view key st st' :
  members st' = members st → decls st' = decls st →
  inner (enrollSets st') key = inner (enrollSets st) key → inner (enrollDecls st') key = inner (enrollDecls st) key →
  view key st' = view key st.
Proof. intros E1 E2 E3 E4. apply view_agree; intros; by rewrite ?E1, ?E2, ?E3, ?E4. Qed.

Definition assigns (id : EnrollmentID) (key : bytes) (op : state → dres bool) (st : state) : Prop :=
  ∀ b st1, op st = Ok (b, st1) → WF st1 ∧ (b = false → view key st1 = view key st) ∧ seq st1 = seq st ∧
    (key ≠ ID id → view key st1 = view key st).

Lemma AssignSet_assigns id set key st : WF st → assigns id key (AssignSet id set) st.
Proof.
  intros Hw b st1 H. split; [by eapply AssignSet_WF|]. apply AssignSet_inv in H as (u & m & _ & _ & Ha & ->).
  split_and!; [|done|]; intros E; apply assigned_view; try done.
  - subst b. by apply unchanged_add in Ha as ->.
  - by apply (add_other _ _ _ _ _ _ Ha).
Qed.

Lemma AssignDeclaration_assigns id i key st : WF st → assigns id key (AssignDeclaration id i) st.
Proof.
  intros Hw b st1 H. split; [by eapply AssignDeclaration_WF|]. apply AssignDeclaration_inv in H as (u & m & _ & _ & Ha & ->).
  split_and!; [|done|]; intros E; apply assigned_view; try done.
  - subst b. by apply unchanged_add in Ha as ->.
  - by apply (add_other _ _ _ _ _ _ Ha).
Qed.

Lemma UnassignSet_assigns id set key st : WF st → assigns id key (UnassignSet id set) st.
Proof.
  intros Hw b st1 H. split; [by eapply UnassignSet_WF|]. apply UnassignSet_inv in H as (m & Ha & ->).
  split_and!; [|done|]; intros E; apply assigned_view; try done.
  - subst b. by apply unchanged_remove in Ha as ->.
  - by apply (remove_other _ _ _ _ _ _ Ha).
Qed.

Lemma UnassignDeclaration_assigns id i key st : WF st → assigns id key (UnassignDeclaration id i) st.
Proof.
  intros Hw b st1 H. split; [by eapply UnassignDeclaration_WF|]. apply UnassignDeclaration_inv in H as (m & Ha & ->).
  split_and!; [|done|]; intros E; apply assigned_view; try done.
  - subst b. by apply unchanged_remove in Ha as ->.
  - by apply (remove_other _ _ _ _ _ _ Ha).
Qed.

(** ** Publication *)

(** What publishing declarations into the set [name] may change, when [il] are those whose
    content changed. *)
Record publishing (name : bytes) (il : list bytes) (st st' : state) : Prop := {
  pb_wf : WF st → WF st';
  pb_seq : seq st' = seq st;
  pb_enrollSets : enrollSets st' = enrollSets st;
  pb_enrollDecls : enrollDecls st' = enrollDecls st;
  pb_members : ∀ n, n ≠ name → inner (members st') n = inner (members st) n;
  pb_decls : ∀ i, i ∉ il → decls st' !! i = decls st !! i }.

Lemma publishing_refl name st : publishing name [] st st.
Proof. by split. Qed.

Lemma publishing_trans name il il' st st1 st2 :
  publishing name il st st1 → publishing name il' st1 st2 → publishing name (il ++ il') st st2.
Proof.
  intros [H1 H2 H3 H4 H5 H6] [E1 E2 E3 E4 E5 E6]. split; [auto|congruence..| |].
  - intros n Hn. by rewrite E5, H5.
  - intros i Hi. rewrite not_elem_of_app in Hi. destruct Hi. by rewrite E6, H6.
Qed.

Lemma publishing_put name d b st st' : PutDeclaration (Some d) st = Ok (b, st') →
  publishing name (if b then [d_Identifier d] else []) st st' ∧ (b = false → st' = st).
Proof.
  intros H. pose proof (λ Hw, PutDeclaration_WF _ _ _ _ Hw H) as Hw.
  apply PutDeclaration_inv in H as [[-> ->]|(d0 & rec & [= <-] & -> & -> & Erec & _)]; [split; [apply publishing_refl|done]|].
  assert (d_Identifier d = d_Identifier rec) as E by (by rewrite Erec).
  split; [|done]. split; [done|rewrite store_declaration_eq; done..|].
  intros i Hi. rewrite store_declaration_decls, lookup_insert_ne; [done|]. rewrite <-E. set_solver.
Qed.

Lemma publishing_add name i at_ b st st' : AddSetDeclaration name i at_ st = Ok (b, st') →
  publishing name [] st st' ∧ (b = false → st' = st).
Proof.
  intros H. pose proof (λ Hw, AddSetDeclaration_WF _ _ _ _ _ _ Hw H) as Hw.
  apply AddSetDeclaration_inv in H as (s & m & _ & _ & Ha & ->). destruct b; [|split; [apply publishing_refl|done]].
  split; [|done]. split; try done. intros n Hn. by apply (add_other _ _ _ _ _ _ Ha).
Qed.

Lemma publishing_remove name i b st st' : RemoveSetDeclaration name i st = Ok (b, st') → publishing name [] st st'.
Proof.
  intros H. pose proof (λ Hw, RemoveSetDeclaration_WF _ _ _ _ _ Hw H) as Hw.
  apply RemoveSetDeclaration_inv in H as (m & _ & Ha & ->).
  split; try done. intros n Hn. by apply (remove_other _ _ _ _ _ _ Ha).
Qed.

Lemma publish_one_spec name now d st c a st' : publish_one name now d st = Ok ((c, a), st') →
  publishing name (if c then [d_Identifier d] else []) st st' ∧ (c || a = false → st' = st).
Proof.
  unfold publish_one. intros H. apply bind_Ok_inv in H as (d' & Hd & H).
  assert (d_Identifier d' = d_Identifier d) as E.
  { destruct (GetDeclaration _ _) as [old|x]; [by injection Hd as <-|]. destruct (Is x ErrNotFound); [by injection Hd as <-|done]. }
  apply bind_Ok_inv in H as ([c' st1] & Hp & H). apply bind_Ok_inv in H as ([a' st2] & Ha & H). injection H as -> -> <-.
  destruct (publishing_put name _ _ _ _ Hp) as [Hp1 Hp2]. apply publishing_add in Ha as [Ha1 Ha2]. rewrite E in *.
  split; [rewrite <-(app_nil_r (if c then _ else _)); by eapply publishing_trans|].
  intros [-> ->]%orb_false_iff. by rewrite Ha2, Hp2.
Qed.

Lemma publish_loop_spec name now ds : ∀ st il any st', publish_loop name now ds st = Ok ((il, any), st') →
  publishing name il st st' ∧ (any = false → st' = st).
Proof.
  induction ds as [|d ds IH]; intros st il any st' H; cbn in H; [injection H as <- <- <-; split; [apply publishing_refl|done]|].
  apply bind_Ok_inv in H as ([[c a] st1] & H1 & H). apply bind_Ok_inv in H as ([[il' any'] st2] & H2 & H).
  injection H as <- <- <-. apply publish_one_spec in H1 as [H1 Hs1]. apply IH in H2 as [H2 Hs2].
  split; [by eapply publishing_trans|]. intros [Hca ->]%orb_false_iff. by rewrite Hs2, Hs1.
Qed.

Lemma unpublish_loop_spec name keep previous : ∀ st any st', unpublish_loop name keep previous st = Ok (any, st') →
  publishing name [] st st' ∧ (any = false → st' = st).
Proof.
  induction previous as [|i previous IH]; intros st any st' H; cbn in H; [injection H as <- <-; split; [apply publishing_refl|done]|].
  case_bool_decide; [by apply IH|]. apply bind_Ok_inv in H as ([b st1] & H1 & H). apply bind_Ok_inv in H as ([any' st2] & H2 & H).
  injection H as <- <-. apply publishing_remove in H1. apply IH in H2 as [H2 _]. split; [|done].
  by eapply (publishing_trans name [] []).
Qed.

Lemma publishing_view name il key st st' : publishing name il st st' →
  affected il [name] key st' ∨ view key st' = view key st.
Proof.
  intros [_ _ Es Ed Hm Hd]. destruct (decide (name ∈ inner (enrollSets st) key)) as [Hn|Hn].
  { left. left. exists name. rewrite Es. split; [done|]. left. by left. }
  assert (∀ n, n ∈ inner (enrollSets st) key → inner (members st') n = inner (members st) n) as Hm'.
  { intros n Hin. apply Hm. by intros ->. }
  destruct (decide (Exists (λ i, i ∈ staticIdentifiers key st) il)) as [He|He].
  - left. apply Exists_exists in He as (i & Hi & Hs). apply elem_static in Hs as [Hs|(n & Hn' & Hs)].
    + right. exists i. by rewrite Ed.
    + left. exists n. rewrite Es, Hm' by done. split; [done|]. right. eauto.
  - right. apply view_agree; rewrite ?Es, ?Ed; try done.
    + intros n i Hin. by rewrite Hm'.
    + intros i Hi. rewrite Hd; [done|]. intros Hin. apply He, Exists_exists. eauto.
Qed.

Lemma PutSet_publishing name now b st st' : PutSet name now st = Ok (b, st') →
  publishing name [] st st' ∧ (b = false → st' = st).
Proof.
  intros H. pose proof (λ Hw, PutSet_WF _ _ _ _ _ Hw H) as Hw. unfold PutSet in H.
  apply bind_Ok_inv in H as (? & _ & H). destruct (sets st !! name); injection H as <- <-; [split; [apply publishing_refl|done]|].
  split; [|done]. by split.
Qed.

Lemma publish_tells e name raws now key st r st' : WF st →
  PublishSetTx e name raws now st = Ok (r, st') → tells key now st st'.
Proof.
  intros Hw. unfold PublishSetTx. intros H. apply bind_Ok_inv in H as (? & _ & H). apply bind_Ok_inv in H as (ds & _ & H).
  apply bind_Ok_inv in H as (? & _ & H). apply bind_Ok_inv in H as ([created st1] & H1 & H).
  apply bind_Ok_inv in H as (previous & _ & H). apply bind_Ok_inv in H as ([[il any] st2] & H2 & H).
  apply bind_Ok_inv in H as ([removed st3] & H3 & H). apply bind_Ok_inv in H as ([u st4] & H4 & H).
  apply Ok_pair_inv in H as [_ <-]. apply PutSet_publishing in H1 as [H1 Hs1]. apply publish_loop_spec in H2 as [H2 Hs2].
  apply unpublish_loop_spec in H3 as [H3 Hs3].
  assert (publishing name il st st3) as Hp.
  { rewrite <-(app_nil_r il). eapply publishing_trans; [|exact H3]. by eapply (publishing_trans name [] il). }
  destruct (created || any || removed) eqn:Hc.
  - eapply (tells_after il [name]); [by apply (pb_wf _ _ _ _ Hp)|by apply (pb_seq _ _ _ _ Hp)| |exact H4].
    by apply (publishing_view name il).
  - injection H4 as _ <-. apply orb_false_iff in Hc as [[-> ->]%orb_false_iff ->].
    rewrite Hs3, Hs2, Hs1 by done. by apply tells_same.
Qed.

(** ** The administrative operations *)

Inductive admin :=
| APutDeclaration (e : Engine) (raw : bytes) | ADeleteDeclaration (i : bytes)
| APutSet (name : bytes) | ADeleteSet (name : bytes)
| AAddToSet (set i : bytes) (at_ : Time) | ARemoveFromSet (set i : bytes)
| AAssignSet (id : EnrollmentID) (set : bytes) | AUnassignSet (id : EnrollmentID) (set : bytes)
| AAssignDeclaration (id : EnrollmentID) (i : bytes) | AUnassignDeclaration (id : EnrollmentID) (i : bytes)
| APublishSet (e : Engine) (name : bytes) (raws : list bytes)
| ATouch (l : list EnrollmentID) (reason : bytes) | APruneVersions.

(** The state an operation leaves, at time [now]. *)
Definition administer (now : Time) (a : admin) (st : state) : state :=
  match a with
  | APutDeclaration e raw => (Engine_PutDeclaration e raw now st).2
  | ADeleteDeclaration i => (Engine_DeleteDeclaration i now st).2
  | APutSet name => (Engine_PutSet name now st).2
  | ADeleteSet name => (Engine_DeleteSet name now st).2
  | AAddToSet set i at_ => (AddToSet set i now at_ st).2
  | ARemoveFromSet set i => (RemoveFromSet set i now st).2
  | AAssignSet id set => (Engine_AssignSet id set now st).2
  | AUnassignSet id set => (Engine_UnassignSet id set now st).2
  | AAssignDeclaration id i => (Engine_AssignDeclaration id i now st).2
  | AUnassignDeclaration id i => (Engine_UnassignDeclaration id i now st).2
  | APublishSet e name raws => (PublishSet e name raws now st).2
  | ATouch l reason => (Touch l reason now st).2
  | APruneVersions => (Engine_PruneVersions st).2
  end.

Lemma commit_state {A} (P : state → Prop) (f : state → dres A) st :
  P st → (∀ a st', f st = Ok (a, st') → P st') → P (commit f st).2.
Proof. unfold commit. destruct (f st) as [[a st']|]; cbn; eauto. Qed.

Lemma update_state {A} (P : state → Prop) (f : state → dres A) st :
  P st → (∀ a st', f st = Ok (a, st') → P st') → P (update f st).2.
Proof.
  intros H Hf. unfold update. apply (commit_state P); [done|]. intros a st' Hu. cbn in Hu. apply bind_Ok_inv in Hu as ([a' st1] & Hu & E).
  injection E as -> ->. eauto.
Qed.

Lemma lift_state {A B} (P : state → Prop) (r : result derr A) (k : A → act B) st :
  P st → (∀ a, r = Ok a → P (k a st).2) → P ((a ← lift r; k a) st).2.
Proof. unfold mbind, act_bind, lift. destruct r as [a|]; cbn; eauto. Qed.

Lemma assignment_state id op now key st : WF st → assigns id key op st → tells key now st (assignment id op now st).2.
Proof.
  intros Hw Hop. unfold assignment. apply (lift_state (tells key now st)); [by apply tells_same|]. intros _ _.
  apply (update_state (tells key now st)); [by apply tells_same|]. intros b st'. by apply (assignment_tells id).
Qed.

Lemma setMembership_state set op now key st : WF st →
  (∀ b st1, op st = Ok (b, st1) → WF st1 ∧ (b = false → st1 = st) ∧ seq st1 = seq st ∧
     (affected [] [set] key st1 ∨ view key st1 = view key st)) →
  tells key now st (setMembership set op now st).2.
Proof.
  intros Hw Hop. apply (update_state (tells key now st)); [by apply tells_same|]. intros b st'. by apply membership_tells.
Qed.

Lemma administer_tells now a key st : WF st → tells key now st (administer now a st).
Proof.
  intros Hw. destruct a; cbn [administer].
  - unfold Engine_PutDeclaration. apply (lift_state (tells key now st)); [by apply tells_same|]. intros d _.
    apply (lift_state (tells key now st)); [by apply tells_same|]. intros _ _. apply (update_state (tells key now st)); [by apply tells_same|].
    intros r st'. by apply put_declaration_tells.
  - apply (update_state (tells key now st)); [by apply tells_same|]. intros r st'. by apply delete_declaration_tells.
  - unfold Engine_PutSet. apply (commit_state (tells key now st)); [by apply tells_same|]. intros b st' H.
    split; [by eapply PutSet_WF|]. unfold PutSet in H. apply bind_Ok_inv in H as (? & _ & H).
    destruct (sets st !! name); apply Ok_pair_inv in H as [_ <-]; [done|]. intros Hne. by destruct Hne; apply view_agree.
  - apply (update_state (tells key now st)); [by apply tells_same|]. intros r st'. by apply delete_set_tells.
  - apply setMembership_state; [done|]. intros b st1. by apply AddSetDeclaration_tells.
  - apply setMembership_state; [done|]. intros b st1. by apply RemoveSetDeclaration_tells.
  - by apply assignment_state, AssignSet_assigns.
  - by apply assignment_state, UnassignSet_assigns.
  - by apply assignment_state, AssignDeclaration_assigns.
  - by apply assignment_state, UnassignDeclaration_assigns.
  - apply (update_state (tells key now st)); [by apply tells_same|]. intros r st'. by apply publish_tells.
  - unfold Touch. destruct (existsb _ _); [by apply tells_same|]. case_bool_decide as Hl; [by apply tells_same|].
    apply (commit_state (tells key now st)); [by apply tells_same|]. intros u st' H. split; [by eapply RecordChanges_WF|]. intros Hne. destruct Hne.
    apply RecordChanges_inv in H as [_ H]. by apply view_core, (rc_core _ _ _ _ _ H).
  - unfold Engine_PruneVersions. apply (commit_state (tells key now st)); [by apply tells_same|]. intros n st' [= <- <-]. split; [by apply PruneVersions_WF|]. intros Hne.
    by destruct Hne; apply view_agree.
Qed.

(** C23 No change goes unnoticed: whatever an administrative operation does, if it changes what
    an enrollment is assigned, the same transaction queues a new change for that
    enrollment, due at once. *)
Theorem no_missed_change now a key st : WF st →
  view key (administer now a st) ≠ view key st → notified key now st (administer now a st).
Proof. intros Hw. apply administer_tells, Hw. Qed.
End Notify.

(** A declaration in a set; assigning the set to a device notifies it. *)
#[local] Instance no_json : JsonCodec := {| json_decode _ := None; json_encode _ := None; Canonicalize _ := None |}.
#[local] Instance no_schema : DdmSchema := {|
  ByID _ := []; payload_valid _ _ _ := false; availability _ _ _ := []; activation_predicate _ := None;
  AssetReferences _ := []; status_Registry := []; supported_status_items _ := None |}.

Definition sample_device : EnrollmentID := mkID ChannelDevice (bs "D") [].
Definition sample_store : state :=
  performed [CPutDeclaration (Some (mkDeclaration (bs "a") (bs "t") KindAsset (bs "v1") [] 1 1)); CPutSet (bs "S") 2;
             CAddSetDeclaration (bs "S") (bs "a") 3].

Lemma no_missed_change_witness :
  view (bs "D") (administer 9 (AAssignSet sample_device (bs "S")) sample_store) = [mkRef KindAsset (bs "a") (bs "v1")] ∧
  notified (bs "D") 9 sample_store (administer 9 (AAssignSet sample_device (bs "S")) sample_store).
Proof.
  assert (view (bs "D") (administer 9 (AAssignSet sample_device (bs "S")) sample_store) = [mkRef KindAsset (bs "a") (bs "v1")]) as Hv
    by (vm_compute; reflexivity).
  split; [exact Hv|]. apply (no_missed_change 9 (AAssignSet sample_device (bs "S")) (bs "D") sample_store); [apply performed_WF|].
  rewrite Hv. vm_compute. discriminate.
Defined.
