(* ===== verification/DdmDelivery.v ===== *)
(** * What is delivered is complete

    The compatibility filter withholds declarations until nothing delivered depends on
    something withheld. The loop over the assets ends, and it withholds no more than it
    must: it reaches the greatest set of entries closed under their asset references. The
    manifest that results names every asset and every configuration that its declarations
    refer to, and nothing is left out without a report. *)
From S2P Require Import Prelude GoStrings OsVersion Support Mdm Storage Sha256 Json DdmTypes DdmStore DdmDecl.

(** ** Lists *)

Lemma last_elem {A} (l : list A) x : last l = Some x → x ∈ l.
Proof. intros [l' ->]%last_Some. apply elem_of_app. right. by left. Qed.

Lemma Forall2_last_r {A B} (R : A → B → Prop) l l' y : Forall2 R l l' → last l' = Some y → ∃ x, last l = Some x ∧ R x y.
Proof.
  intros H [k ->]%last_Some. apply Forall2_app_inv_r in H as (k1 & k2 & _ & H & ->).
  apply Forall2_cons_inv_r in H as (x & k3 & Hx & H & ->). apply Forall2_nil_inv_r in H as ->. exists x. by rewrite last_snoc.
Qed.

Lemma Forall2_last_l {A B} (R : A → B → Prop) l l' x : Forall2 R l l' → last l = Some x → ∃ y, last l' = Some y ∧ R x y.
Proof. intros H%Forall2_flip Hl. by eapply (Forall2_last_r (flip R)). Qed.

Lemma Forall2_elem_of_l {A B} (R : A → B → Prop) l l' x : Forall2 R l l' → x ∈ l → ∃ y, y ∈ l' ∧ R x y.
Proof. intros H [i Hi]%list_elem_of_lookup. destruct (Forall2_lookup_l _ _ _ _ _ H Hi) as (y & Hy & HR). exists y. eauto using list_elem_of_lookup_2. Qed.
Lemma Forall2_elem_of_r {A B} (R : A → B → Prop) l l' y : Forall2 R l l' → y ∈ l' → ∃ x, x ∈ l ∧ R x y.
Proof. intros H%Forall2_flip. apply (Forall2_elem_of_l (flip R)). done. Qed.

Lemma filter_keeps_all {A} (f : A → bool) (l : list A) : length (filter (λ x, f x = true) l) = length l → Forall (λ x, f x = true) l.
Proof.
  induction l as [|x l IH]; intros H; [done|]. rewrite filter_cons in H. case_decide as Hx; cbn in H.
  - constructor; [done|]. apply IH. lia.
  - pose proof (length_filter (λ x, f x = true) l). lia.
Qed.

Lemma member_set name v ms : member name (set_member name v ms) = Some v.
Proof.
  induction ms as [|[n w] ms IH]; cbn; [by rewrite bool_decide_true|]. destruct (bool_decide (n = name)) eqn:E; cbn; by rewrite E.
Qed.

(** ** Withholding *)

(** An eligible entry may be withheld for its assets. *)
Definition marks (c c' : compatibleItem) : Prop :=
  c' = c ∨ (eligible c = true ∧ c' = c <| ci_reason := bs "asset-unavailable" |>).

Lemma marks_id c c' : marks c c' → ci_id c' = ci_id c ∧ r_Kind (Ref (ci_item c')) = r_Kind (Ref (ci_item c)) ∧ ci_typ c' = ci_typ c ∧
  ci_payload c' = ci_payload c.
Proof. by intros [->|[_ ->]]. Qed.

Lemma marks_eligible c c' : marks c c' → eligible c' = true → c' = c.
Proof. by intros [->|[_ ->]]. Qed.

Lemma marks_refl c : marks c c.
Proof. by left. Qed.
Lemma marks_trans a b c : marks a b → marks b c → marks a c.
Proof. intros [->|[H ->]] [->|[H' ->]]; [by left|by right|by right|done]. Qed.
#[local] Hint Resolve marks_refl : core.

Definition withholds : list compatibleItem → list compatibleItem → Prop := Forall2 marks.
Lemma withholds_refl l : withholds l l.
Proof. by apply Forall_Forall2_diag, Forall_true. Qed.
Lemma withholds_trans l l1 l2 : withholds l l1 → withholds l1 l2 → withholds l l2.
Proof.
  intros H. revert l2. induction H as [|a b l l1 Hab _ IH]; intros l2 H2; [by apply Forall2_nil_inv_l in H2 as ->; constructor|].
  apply Forall2_cons_inv_l in H2 as (c & l3 & Hc & H2 & ->). constructor; [by eapply marks_trans|by apply IH].
Qed.

(** How many entries are eligible. *)
Definition live (l : list compatibleItem) : nat := length (filter (λ c, eligible c = true) l).

Lemma live_cons c l : live (c :: l) = ((if eligible c then 1 else 0) + live l)%nat.
Proof. unfold live. rewrite filter_cons. destruct (eligible c); case_decide; done. Qed.

Lemma live_length l : (live l ≤ length l)%nat.
Proof. apply length_filter. Qed.

Section Delivery.
Context {JC : JsonCodec} {DS : DdmSchema}.

(** Every eligible entry has its assets among the eligible entries. *)
Definition closed (l : list compatibleItem) : Prop := Forall (λ c, eligible c = true → assets_ok l c = true) l.

(** A pass either finds nothing to withhold, and the entries are closed, or withholds some. *)
Lemma asset_pass_spec todo : ∀ done changed l' ch, asset_pass done todo changed = (l', ch) →
  ∃ todo', l' = done ++ todo' ∧ withholds todo todo' ∧ (changed = true → ch = true) ∧
    (live todo' ≤ live todo)%nat ∧ (changed = false → ch = true → (live todo' < live todo)%nat) ∧
    (ch = false → todo' = todo ∧ Forall (λ c, eligible c = true → assets_ok (done ++ todo) c = true) todo).
Proof.
  induction todo as [|c todo IH]; intros don changed l' ch H; cbn [asset_pass] in H.
  - injection H as <- <-. exists []. rewrite app_nil_r. split_and!; [done|constructor|done|done|by intros ->|by split].
  - destruct (negb (eligible c) || assets_ok (don ++ c :: todo) c) eqn:E;
      apply IH in H as (todo' & -> & Hw & Hc & Hl & Hlt & Hf); rewrite <-app_assoc in *; cbn [app] in *.
    + exists (c :: todo'). rewrite !live_cons. split_and!; [done|by constructor|done|lia|intros; apply Nat.add_lt_mono_l; auto|].
      intros Hch. destruct (Hf Hch) as [-> Ha]. split; [done|]. constructor; [|done]. intros He. by rewrite He in E.
    + apply orb_false_iff in E as [E _]. apply negb_false_iff in E.
      exists (c <| ci_reason := bs "asset-unavailable" |> :: todo'). rewrite !live_cons, E.
      change (eligible (c <| ci_reason := bs "asset-unavailable" |>)) with false.
      split_and!; [done|constructor; [by right|done]|by auto|..].
      * lia.
      * intros _ _. lia.
      * intros ->. by specialize (Hc eq_refl).
Qed.

Lemma asset_loop_spec fuel : ∀ l, (live l < fuel)%nat → withholds l (asset_loop fuel l) ∧ closed (asset_loop fuel l).
Proof.
  induction fuel as [|fuel IH]; intros l Hf; [lia|]. cbn [asset_loop]. destruct (asset_pass [] l false) as [l' ch] eqn:E.
  apply asset_pass_spec in E as (todo' & -> & Hw & _ & _ & Hlt & Hc). cbn [app] in *. destruct ch.
  - destruct (IH todo') as [H1 H2]; [specialize (Hlt eq_refl eq_refl); lia|]. split; [by eapply withholds_trans|done].
  - destruct (Hc eq_refl) as [-> H]. by split.
Qed.

Lemma asset_loop_more n fuel : ∀ l, (live l < fuel)%nat → asset_loop (n + fuel) l = asset_loop fuel l.
Proof.
  induction fuel as [|fuel IH]; intros l Hf; [lia|]. rewrite Nat.add_succ_r. cbn [asset_loop].
  destruct (asset_pass [] l false) as [l' ch] eqn:E. apply asset_pass_spec in E as (todo' & -> & _ & _ & _ & Hlt & _).
  destruct ch; [|done]. apply IH. specialize (Hlt eq_refl eq_refl). cbn [app]. lia.
Qed.

(** ** No more than it must *)

(** Two ways to withhold from the same entries, the second keeping at least as much. *)
Definition below (a b : compatibleItem) : Prop := (∃ c, marks c a ∧ marks c b) ∧ (eligible a = true → eligible b = true).

Lemma below_same a b : below a b → eligible a = true → b = a.
Proof. intros [(c & Ha & Hb) H] He. rewrite (marks_eligible _ _ Hb (H He)). symmetry. by apply marks_eligible. Qed.
Lemma below_id a b : below a b → ci_id b = ci_id a.
Proof. intros [(c & Ha & Hb) _]. destruct (marks_id _ _ Ha) as [-> _]. by destruct (marks_id _ _ Hb) as [-> _]. Qed.

Lemma filter_related (R : compatibleItem → compatibleItem → Prop) id l l' : (∀ a b, R a b → ci_id b = ci_id a) →
  Forall2 R l l' → Forall2 R (filter (λ c, ci_id c = id) l) (filter (λ c, ci_id c = id) l').
Proof.
  intros HR. induction 1 as [|a b l l' Hab _ IH]; [constructor|]. rewrite !filter_cons, (HR _ _ Hab). case_decide; [by constructor|done].
Qed.

Lemma byID_below l2 l id a : Forall2 below l2 l → byID l2 id = Some a → eligible a = true → byID l id = Some a.
Proof.
  intros H Ha He. unfold byID in *. apply (filter_related below id) in H; [|exact below_id].
  destruct (Forall2_last_l _ _ _ _ H Ha) as (b & -> & Hb). by rewrite (below_same _ _ Hb He).
Qed.

Lemma assets_ok_below l2 l a : Forall2 below l2 l → assets_ok l2 a = true → assets_ok l a = true.
Proof.
  unfold assets_ok. rewrite !forallb_forall. intros H Ha ref Hr. specialize (Ha ref Hr). rewrite forallb_forall in *.
  intros id Hid. specialize (Ha id Hid). unfold asset_ok in *. destruct (byID l2 id) as [x|] eqn:E; [|done].
  destruct (eligible x) eqn:Ex; [|done]. by rewrite (byID_below _ _ _ _ H E Ex), Ex.
Qed.

Lemma asset_pass_below l2 todo : closed l2 → ∀ done changed l' ch, Forall2 below l2 (done ++ todo) →
  asset_pass done todo changed = (l', ch) → Forall2 below l2 l'.
Proof.
  intros Hc. induction todo as [|c todo IH]; intros don changed l' ch Hb H; cbn [asset_pass] in H.
  - injection H as <- _. by rewrite app_nil_r in Hb.
  - destruct (negb (eligible c) || assets_ok (don ++ c :: todo) c) eqn:E; (eapply IH, H); rewrite <-app_assoc; [done|]. cbn [app].
    apply orb_false_iff in E as [Ee Ea]. apply negb_false_iff in Ee.
    pose proof Hb as Hb0. apply Forall2_app_inv_r in Hb0 as (k1 & k2 & H1 & H2 & ->). apply Forall2_cons_inv_r in H2 as (a & k3 & Ha & H2 & ->).
    apply Forall2_app; [done|]. constructor; [|done]. destruct Ha as [(x & Hx & Hxc) Hi]. split.
    + exists x. split; [done|]. eapply marks_trans; [exact Hxc|by right].
    + intros He. assert (c = a) as -> by (apply below_same; [|done]; by split; [exists x|]).
      unfold closed in Hc. rewrite Forall_forall in Hc.
      by rewrite (assets_ok_below _ _ _ Hb (Hc a ltac:(set_solver) He)) in Ea.
Qed.

Lemma asset_loop_below l2 fuel : closed l2 → ∀ l, Forall2 below l2 l → Forall2 below l2 (asset_loop fuel l).
Proof.
  intros Hc. induction fuel as [|fuel IH]; intros l Hb; [done|]. cbn [asset_loop].
  destruct (asset_pass [] l false) as [l' ch] eqn:E. pose proof (asset_pass_below _ _ Hc [] _ _ _ Hb E). destruct ch; auto.
Qed.

(** The loop over the assets ends: as many passes as there are entries, and one more, reach a
    state that further passes leave alone. There every eligible entry has each asset it refers to,
    of the right type and eligible, and the loop has withheld no more than it must: whatever
    set of entries is closed in this way, its entries are all still eligible. *)
Theorem asset_loop_greatest entries n :
  let l := asset_loop (S (length entries)) entries in
  asset_loop (n + S (length entries)) entries = l ∧ withholds entries l ∧ closed l ∧
  ∀ l2, withholds entries l2 → closed l2 → Forall2 (λ a b, eligible a = true → eligible b = true) l2 l.
Proof.
  intros l. assert (live entries < S (length entries))%nat as Hf by (pose proof (live_length entries); lia).
  destruct (asset_loop_spec _ _ Hf) as [Hw Hc]. split_and!; [by apply asset_loop_more|done|done|].
  intros l2 H2 Hc2. assert (Forall2 below l2 entries) as Hb.
  { clear -H2. induction H2 as [|a b ? ? Hab _ IH]; constructor; [|done]. split; [eauto|]. intros He. by rewrite <-(marks_eligible _ _ Hab He). }
  eapply Forall2_impl; [by apply (asset_loop_below l2 _ Hc2 _ Hb)|]. by intros a b [_ H].
Qed.

(** ** The manifest that results *)

Definition Act : bytes := DeclarationTypeActivationSimple.
Definition configurations (ms : list (bytes * json)) : list json := array_of (member (bs "StandardConfigurations") ms).
Definition as_name (v : json) : bytes := match v with JStr s => s | _ => [] end.

(** The entry after the activations have been filtered: only activations change. *)
Record filtered (c c' : compatibleItem) : Prop := {
  fi_item : ci_item c' = ci_item c;
  fi_typ : ci_typ c' = ci_typ c;
  fi_same : ci_typ c ≠ Act → c' = c;
  fi_eligible : eligible c' = true → eligible c = true }.

Lemma filter_activation_spec all c c' b : filter_activation all c = (c', b) → filtered c c' ∧
  (eligible c' = true → ci_typ c = Act → Forall (λ v, configuration_ok all v = true) (configurations (ci_payload c'))).
Proof.
  unfold filter_activation. destruct (eligible c) eqn:He; cbn [andb].
  2:{ intros [= <- _]. split; [by split|]. by rewrite He. }
  case_bool_decide as Ht; [|intros [= <- _]; split; [by split|done]].
  case_bool_decide as Hk; [intros [= <- _]; split; [by split|done]|].
  destruct (_ =? _)%nat eqn:Hl; intros [= <- _]; (split; [by split|]); intros _ _.
  - apply Nat.eqb_eq in Hl. by apply filter_keeps_all in Hl.
  - unfold configurations, setf. cbn [ci_payload]. rewrite member_set. apply Forall_forall.
    by intros v [? _]%list_elem_of_filter.
Qed.

(** What is served of the item [it0] for the bytes [canonical]: the item as it is, when its token
    is theirs already, or the item with these bytes and their token. *)
Definition carries (it0 : SnapshotItem) (canonical : bytes) (it : SnapshotItem) : Prop :=
  (it = it0 ∧ ServerToken (Ref it0) = TokenFor canonical) ∨
  it = mkItem (mkRef (r_Kind (Ref it0)) (Identifier (Ref it0)) (TokenFor canonical)) (BaseToken it0) (Some canonical).

Lemma carries_same it0 canonical it : carries it0 canonical it →
  Identifier (Ref it) = Identifier (Ref it0) ∧ r_Kind (Ref it) = r_Kind (Ref it0) ∧ BaseToken it = BaseToken it0 ∧
  ServerToken (Ref it) = TokenFor canonical.
Proof. by intros [[-> ?]| ->]. Qed.

Lemma served_item_spec c it b : served_item c = Ok (it, b) →
  ∃ canonical, canonicalDeclaration (ci_id c) (ci_typ c) (JObj (ci_payload c)) = Ok canonical ∧ carries (ci_item c) canonical it.
Proof.
  unfold served_item. destruct (json_encode _); [|done]. intros H. apply bind_Ok_inv in H as (canonical & Hc & H). exists canonical.
  split; [done|]. case_bool_decide as E; injection H as <- _; [left; by rewrite E|by right].
Qed.

Definition delivered (kind : Kind) (id : bytes) (result : list SnapshotItem) : Prop :=
  ∃ it, it ∈ result ∧ Identifier (Ref it) = id ∧ r_Kind (Ref it) = kind.
Definition withheld (id : bytes) (issues : list CompatibilityIssue) : Prop :=
  ∃ i, i ∈ issues ∧ is_Identifier i = id ∧ Withheld i = true.

(** An item of the result stands for an entry; it carries the bytes with the entry's payload, in which an activation only names configurations that are eligible entries. *)
Record stands_for (all : list compatibleItem) (c : compatibleItem) (it : SnapshotItem) : Prop := {
  sf_eligible : eligible c = true;
  sf_bytes : ∃ payload canonical, canonicalDeclaration (ci_id c) (ci_typ c) (JObj payload) = Ok canonical ∧
    carries (ci_item c) canonical it ∧ (ci_typ c ≠ Act → payload = ci_payload c) ∧
    (ci_typ c = Act → Forall (λ v, ∃ d, d ∈ all ∧ ci_id d = as_name v ∧ r_Kind (Ref (ci_item d)) = KindConfiguration ∧
                                       (ci_typ d ≠ Act → eligible d = true)) (configurations payload)) }.

Lemma configuration_found all0 all v : Forall2 filtered all0 all → configuration_ok all v = true →
  ∃ d, d ∈ all0 ∧ ci_id d = as_name v ∧ r_Kind (Ref (ci_item d)) = KindConfiguration ∧ (ci_typ d ≠ Act → eligible d = true).
Proof.
  unfold configuration_ok, byID. intros H. fold (as_name v). destruct (last _) as [d|] eqn:Hl; [|done].
  rewrite andb_true_iff, bool_decide_eq_true. intros [He Hk].
  apply (filter_related filtered (as_name v)) in H; [|intros a b [Hi _ _ _]; unfold ci_id; by rewrite Hi].
  destruct (Forall2_last_r _ _ _ _ H Hl) as (d0 & Hd0 & Hf). apply last_elem, list_elem_of_filter in Hd0 as [Hid Hin].
  exists d0. split_and!; [done|done|by rewrite <-(fi_item _ _ Hf)|]. intros Ht. by rewrite <-(fi_same _ _ Hf Ht).
Qed.

Lemma filtered_refl l : Forall2 filtered l l.
Proof. apply Forall_Forall2_diag, Forall_true. by split. Qed.

Lemma compat_result_spec todo : ∀ done0 done result issues, Forall2 filtered done0 done →
  compat_result done todo = Ok (result, issues) →
  (∀ it, it ∈ result → ∃ c, c ∈ todo ∧ stands_for (done0 ++ todo) c it) ∧
  (∀ c, c ∈ todo → delivered (r_Kind (Ref (ci_item c))) (ci_id c) result ∨ withheld (ci_id c) issues) ∧
  (∀ c, c ∈ todo → eligible c = true → ci_typ c ≠ Act → delivered (r_Kind (Ref (ci_item c))) (ci_id c) result).
Proof.
  induction todo as [|c todo IH]; intros done0 don result issues Hd H; cbn [compat_result] in H.
  { injection H as <- <-. split_and!; intros ? ?%elem_of_nil; done. }
  destruct (filter_activation (don ++ c :: todo) c) as [c' b] eqn:Ef.
  apply filter_activation_spec in Ef as [Hf Hconf].
  assert (Forall2 filtered (done0 ++ [c]) (don ++ [c'])) as Hd' by (apply Forall2_app; [done|by constructor; [|constructor]]).
  assert (ci_id c' = ci_id c) as Eid by (unfold ci_id; by rewrite (fi_item _ _ Hf)).
  destruct (negb (eligible c')) eqn:He; cbn [negb] in H.
  - apply bind_Ok_inv in H as ([items iss] & H & E). injection E as <- <-. apply negb_true_iff in He.
    apply (IH _ _ _ _ Hd') in H as (H1 & H2 & H3). rewrite <-app_assoc in H1. split_and!.
    + intros it (x & Hx & Hs)%H1. exists x. split; [by right|done].
    + intros x [->|Hx]%elem_of_cons; [right|destruct (H2 x Hx) as [?|(i & Hi & ?)]; [by left|right; exists i; split; [by right|done]]].
      eexists. split; [by left|]. by rewrite Eid.
    + intros x [->|Hx]%elem_of_cons Hel Ht; [|by apply H3]. by rewrite (fi_same _ _ Hf Ht), Hel in He.
  - apply bind_Ok_inv in H as ([it ch] & Hit & H). apply bind_Ok_inv in H as ([items iss] & H & E). injection E as <- <-.
    apply negb_false_iff in He. apply served_item_spec in Hit as (canonical & Hcan & Hcar). pose proof (carries_same _ _ _ Hcar) as (Hid & Hk & _ & _).
    apply (IH _ _ _ _ Hd') in H as (H1 & H2 & H3). rewrite <-app_assoc in H1.
    assert (delivered (r_Kind (Ref (ci_item c))) (ci_id c) (it :: items)) as Hdel.
    { exists it. rewrite Hid, Hk. fold (ci_id c'). rewrite Eid, (fi_item _ _ Hf). split_and!; [by left|done|done]. }
    split_and!.
    + intros x [->|(y & Hy & Hs)%H1]%elem_of_cons; [|exists y; split; [by right|done]]. exists c. split; [by left|].
      split; [by apply (fi_eligible _ _ Hf)|]. exists (ci_payload c'), canonical. rewrite <-Eid, <-(fi_item _ _ Hf), <-(fi_typ _ _ Hf).
      split_and!; [done|done| |].
      * rewrite (fi_typ _ _ Hf). intros Ht. by rewrite (fi_same _ _ Hf Ht).
      * rewrite (fi_typ _ _ Hf). intros Ht. eapply Forall_impl; [by apply (Hconf He Ht)|]. intros v. apply configuration_found.
        apply Forall2_app; [done|apply filtered_refl].
    + intros x [->|Hx]%elem_of_cons; [by left|]. destruct (H2 x Hx) as [(y & Hy & ?)|(i & Hi & ?)].
      * left. exists y. split; [by right|done].
      * right. exists i. split; [|done]. rewrite !elem_of_app. by right; right.
    + intros x [->|Hx]%elem_of_cons Hel Ht; [done|]. destruct (H3 x Hx Hel Ht) as (y & Hy & ?). exists y. split; [by right|done].
Qed.

(** Something is served of each item that is not withheld, in their order. *)
Definition passed (it0 it : SnapshotItem) : Prop :=
  ∃ typ payload canonical, canonicalDeclaration (Identifier (Ref it0)) typ payload = Ok canonical ∧ carries it0 canonical it.

Lemma compat_result_passed todo : ∀ done result issues, compat_result done todo = Ok (result, issues) →
  ∃ l, l `sublist_of` (ci_item <$> todo) ∧ Forall2 passed l result.
Proof.
  induction todo as [|c todo IH]; intros don result issues H; cbn [compat_result] in H; [injection H as <- _; exists []; by split|].
  destruct (filter_activation _ c) as [c' b] eqn:Ef. apply filter_activation_spec in Ef as [Hf _]. rewrite fmap_cons.
  destruct (negb (eligible c')).
  - apply bind_Ok_inv in H as ([items iss] & H & E). injection E as <- _. destruct (IH _ _ _ H) as (l & Hl & Hp). exists l. split; [by constructor|done].
  - apply bind_Ok_inv in H as ([it ch] & Hit & H). apply bind_Ok_inv in H as ([items iss] & H & E). injection E as <- _.
    destruct (IH _ _ _ H) as (l & Hl & Hp). apply served_item_spec in Hit as (canonical & Hcan & Hcar).
    exists (ci_item c :: l). split; [by constructor|]. constructor; [|done]. rewrite <-(fi_item _ _ Hf).
    by exists (ci_typ c'), (JObj (ci_payload c')), canonical.
Qed.

Lemma compat_entries_spec st t items : ∀ entries, compat_entries st t items = Ok entries →
  Forall2 (λ it c, compat_entry st t it = Ok c) items entries.
Proof.
  induction items as [|it items IH]; intros entries H; cbn in H; [injection H as <-; constructor|].
  apply bind_Ok_inv in H as (c & Hc & H). apply bind_Ok_inv in H as (cs & Hcs & H). injection H as <-. constructor; auto.
Qed.

(** The kind under which an item is listed is the one of its type. *)
Definition typed (st : state) (it : SnapshotItem) : Prop := ∀ canonical env,
  item_canonical st it = Ok canonical → splitCanonical canonical = Ok env → lookupType (env_Type env) = Ok (r_Kind (Ref it)).

Lemma compat_entry_inv st t it c : compat_entry st t it = Ok c → ci_item c = it ∧
  ∃ canonical env, item_canonical st it = Ok canonical ∧ splitCanonical canonical = Ok env ∧ ci_typ c = env_Type env.
Proof.
  unfold compat_entry. intros H. apply bind_Ok_inv in H as (canonical & Hc & H). apply bind_Ok_inv in H as (env & He & H).
  apply bind_Ok_inv in H as (payload & _ & H). injection H as <-. unfold pruneStatusSubscriptions.
  repeat match goal with |- context [if ?b then _ else _] => destruct b end; eauto 10.
Qed.

Lemma compat_entry_typed st t it c : compat_entry st t it = Ok c → typed st it →
  ci_item c = it ∧ lookupType (ci_typ c) = Ok (r_Kind (Ref it)).
Proof. intros (Hi & canonical & env & Hc & He & ->)%compat_entry_inv Ht. split; [done|by eapply Ht]. Qed.

Lemma entries_items st t items entries l : Forall2 (λ it c, compat_entry st t it = Ok c) items entries → withholds entries l →
  ci_item <$> l = items.
Proof.
  intros He. revert l. induction He as [|it c items entries Hc _ IH]; intros l Hw; [by apply Forall2_nil_inv_l in Hw as ->|].
  apply Forall2_cons_inv_l in Hw as (c' & l' & Hm & Hw & ->). rewrite fmap_cons, (IH _ Hw). f_equal.
  apply compat_entry_inv in Hc as [<- _]. by destruct Hm as [->|[_ ->]].
Qed.

Lemma filterCompatible_passed st items t result issues : filterCompatible st items t = Ok (result, issues) →
  ∃ l, l `sublist_of` items ∧ Forall2 passed l result.
Proof.
  unfold filterCompatible. intros H. apply bind_Ok_inv in H as (entries & He & H). apply bind_Ok_inv in H as ([res iss] & H & E).
  injection E as -> _. apply compat_entries_spec in He. destruct (asset_loop_spec (S (length entries)) entries) as [Hw _];
    [pose proof (live_length entries); lia|]. rewrite <-(entries_items _ _ _ _ _ He Hw). by eapply compat_result_passed.
Qed.

(** The token under which an item is listed is that of its bytes. *)
Definition honest (st : state) (it : SnapshotItem) : Prop := ∀ b, item_canonical st it = Ok b → ServerToken (Ref it) = TokenFor b.

(** Two texts with one hash. *)
Definition collision (a b : bytes) : Prop := a ≠ b ∧ TokenFor a = TokenFor b.

(** The bytes of an item that is served. *)
Lemma carries_bytes st t it0 c canonical it : compat_entry st t it0 = Ok c → honest st it0 → carries it0 canonical it →
  ∃ b, item_canonical st it = Ok b ∧ ServerToken (Ref it) = TokenFor b ∧ (b = canonical ∨ collision b canonical).
Proof.
  intros (_ & b & env & Hb & _ & _)%compat_entry_inv Hh [[-> Ht]| ->].
  - exists b. specialize (Hh b Hb). split_and!; [done|done|]. destruct (decide (b = canonical)); [by left|right]. split; congruence.
  - exists canonical. by split_and!; [| |left].
Qed.

Lemma entry_of st t items entries l it : Forall (typed st) items → Forall2 (λ it c, compat_entry st t it = Ok c) items entries →
  withholds entries l → it ∈ items →
  ∃ c, c ∈ l ∧ r_Kind (Ref (ci_item c)) = r_Kind (Ref it) ∧ ci_id c = Identifier (Ref it).
Proof.
  intros Hty He Hw Hit. rewrite Forall_forall in Hty. destruct (Forall2_elem_of_l _ _ _ _ He Hit) as (c & Hc & Hce).
  apply compat_entry_typed in Hce as [Hi _]; [|by apply Hty]. destruct (Forall2_elem_of_l _ _ _ _ Hw Hc) as (c' & Hc' & Hm).
  apply marks_id in Hm as (H1 & H2 & _). exists c'. rewrite H1, H2. unfold ci_id. by rewrite Hi.
Qed.

Lemma entries_typed st t items entries l c : Forall (typed st) items → Forall2 (λ it c, compat_entry st t it = Ok c) items entries →
  withholds entries l → c ∈ l → lookupType (ci_typ c) = Ok (r_Kind (Ref (ci_item c))).
Proof.
  intros Hty He Hw Hc. rewrite Forall_forall in Hty. destruct (Forall2_elem_of_r _ _ _ _ Hw Hc) as (c0 & Hc0 & Hm).
  destruct (Forall2_elem_of_r _ _ _ _ He Hc0) as (it & Hit & Hce). apply compat_entry_typed in Hce as [Hi Ht]; [|by apply Hty].
  apply marks_id in Hm as (_ & -> & -> & _). by rewrite Hi.
Qed.

Lemma entry_bytes st t items entries l c canonical it : Forall (honest st) items →
  Forall2 (λ it c, compat_entry st t it = Ok c) items entries → withholds entries l → c ∈ l → carries (ci_item c) canonical it →
  ∃ b, item_canonical st it = Ok b ∧ ServerToken (Ref it) = TokenFor b ∧ (b = canonical ∨ collision b canonical).
Proof.
  intros Hho He Hw Hc Hcar. rewrite Forall_forall in Hho. destruct (Forall2_elem_of_r _ _ _ _ Hw Hc) as (c0 & Hc0 & Hm).
  destruct (Forall2_elem_of_r _ _ _ _ He Hc0) as (it0 & Hit & Hce). pose proof (compat_entry_inv _ _ _ _ Hce) as [Hi _].
  assert (ci_item c = it0) as E by (rewrite <-Hi; by destruct Hm as [->|[_ ->]]). rewrite E in Hcar.
  by eapply carries_bytes; [exact Hce|by apply Hho|].
Qed.

Lemma asset_found l c ref id : assets_ok l c = true → ref ∈ AssetReferences (ci_typ c) →
  id ∈ referencedStrings (JObj (ci_payload c)) (ar_Path ref) →
  ∃ a, a ∈ l ∧ eligible a = true ∧ ci_id a = id ∧ r_Kind (Ref (ci_item a)) = KindAsset.
Proof.
  unfold assets_ok. rewrite forallb_forall. intros H Hr Hid. apply list_elem_of_In in Hr. specialize (H ref Hr).
  rewrite forallb_forall in H. apply list_elem_of_In in Hid. specialize (H id Hid). unfold asset_ok, byID in H.
  destruct (last _) as [a|] eqn:Hl; [|done]. apply last_elem, list_elem_of_filter in Hl as [Hi Hin].
  apply andb_true_iff in H as [[He Hk%bool_decide_eq_true]%andb_true_iff _]. by exists a.
Qed.

Section Closed.
Hypothesis activation_kind : lookupType Act = Ok KindActivation.
Hypothesis activation_assets : AssetReferences Act = [].

(** C24 What is delivered is complete, and nothing is dropped silently. Take a manifest whose items
    are listed under the kind of their type and with the token of their bytes. Of every item
    the filter passes on, the bytes that are served have the token it is listed with; they are
    the canonical text of a declaration (or collide with it under SHA-256) of which every
    asset the payload refers to is delivered too, and so is every configuration an activation
    names. An item that is not delivered is reported as withheld. *)
Theorem delivery_is_closed st items t result issues :
  Forall (typed st) items → Forall (honest st) items → filterCompatible st items t = Ok (result, issues) →
  (∀ it, it ∈ result → ∃ b typ payload canonical,
     item_canonical st it = Ok b ∧ ServerToken (Ref it) = TokenFor b ∧ (b = canonical ∨ collision b canonical) ∧
     canonicalDeclaration (Identifier (Ref it)) typ (JObj payload) = Ok canonical ∧
     (∀ ref id, ref ∈ AssetReferences typ → id ∈ referencedStrings (JObj payload) (ar_Path ref) → delivered KindAsset id result) ∧
     (typ = Act → ∀ v, v ∈ configurations payload → delivered KindConfiguration (as_name v) result)) ∧
  ∀ it, it ∈ items → delivered (r_Kind (Ref it)) (Identifier (Ref it)) result ∨ withheld (Identifier (Ref it)) issues.
Proof.
  intros Hty Hho H. unfold filterCompatible in H. apply bind_Ok_inv in H as (entries & He & H).
  apply bind_Ok_inv in H as ([res iss] & H & E). injection E as -> <-. apply compat_entries_spec in He.
  set (l := asset_loop _ entries) in *. destruct (asset_loop_spec (S (length entries)) entries) as [Hw Hc];
    [pose proof (live_length entries); lia|]. fold l in Hw, Hc.
  assert (∀ c, c ∈ l → lookupType (ci_typ c) = Ok (r_Kind (Ref (ci_item c)))) as Hl by (intros c; by apply (entries_typed st t items entries)).
  apply (compat_result_spec _ [] []) in H as (H1 & H2 & H3); [|constructor]. cbn [app] in H1. split.
  - intros it (c & Hin & [Hel (payload & canonical & Hcan & Hcar & Hp & Hconf)])%H1.
    destruct (entry_bytes st t items entries l c canonical it Hho He Hw Hin Hcar) as (b & Hb & Htok & Hsame).
    exists b, (ci_typ c), payload, canonical. pose proof (carries_same _ _ _ Hcar) as (Hid' & _). rewrite Hid'. split_and!; [done..| |].
    + intros ref id Href Hid. rewrite Hp in Hid; [|intros Ht; rewrite Ht, activation_assets in Href; by apply elem_of_nil in Href].
      unfold closed in Hc. rewrite Forall_forall in Hc. destruct (asset_found _ _ _ _ (Hc c Hin Hel) Href Hid) as (a & Ha & Hea & Hia & Hk).
      rewrite <-Hia, <-Hk. apply H3; [done|done|]. intros Ht. specialize (Hl a Ha). rewrite Ht, activation_kind, Hk in Hl. done.
    + intros Ht v Hv. specialize (Hconf Ht). rewrite Forall_forall in Hconf. destruct (Hconf v Hv) as (d & Hd & Hid & Hk & Hde).
      assert (ci_typ d ≠ Act) as Hne by (intros E; specialize (Hl d Hd); by rewrite E, activation_kind, Hk in Hl).
      rewrite <-Hid, <-Hk. apply H3; auto.
  - intros it Hit. apply (entry_of st t items entries l it Hty He Hw) in Hit as (c & Hin & <- & <-). destruct (H2 c Hin) as [?|(i & Hi & ?)]; [by left|].
    right. exists i. split; [by rewrite stable_sort_perm|done].
Qed.
End Closed.
End Delivery.

(** An activation of two configurations; one of them needs an asset that is there, the other an
    asset that is missing. The first is delivered with its asset, the second is withheld and
    taken out of the activation. *)
Section Sample.
Definition conf (i a : bytes) : json :=
  JObj [(bs "Identifier", JStr i); (bs "Payload", JObj [(bs "Asset", JStr a)]); (bs "Type", JStr (bs "c"))].
Definition sample_documents : list (bytes * json) :=
  [(bs "1", conf (bs "mail") (bs "key")); (bs "2", conf (bs "cal") (bs "lost"));
   (bs "3", JObj [(bs "Identifier", JStr (bs "key")); (bs "Payload", JObj []); (bs "Type", JStr (bs "a"))]);
   (bs "4", JObj [(bs "Identifier", JStr (bs "on"));
                  (bs "Payload", JObj [(bs "StandardConfigurations", JArr [JStr (bs "mail"); JStr (bs "cal")])]);
                  (bs "Type", JStr Act)])].
#[local] Instance table_codec : JsonCodec := {|
  json_decode raw := snd <$> find (λ d, bool_decide (d.1 = raw)) sample_documents;
  json_encode v := Some (match v with JObj ms => (ms ≫= λ '(n, _), n) | _ => [] end);
  Canonicalize raw := Some raw |}.
#[local] Instance table_schema : DdmSchema := {|
  ByID t := if bool_decide (t = Act) then [KindActivation] else if bool_decide (t = bs "a") then [KindAsset] else [KindConfiguration];
  payload_valid _ _ _ := true; availability _ _ _ := []; activation_predicate _ := None;
  AssetReferences t := if bool_decide (t = bs "c") then [mkAssetReference [bs "Asset"] [bs "a"]] else [];
  status_Registry := []; supported_status_items _ := None |}.

Definition sample_item (k : Kind) (i b : bytes) : SnapshotItem := mkItem (mkRef k i (TokenFor b)) (bs "x") (Some b).
Definition sample_items : list SnapshotItem :=
  [sample_item KindConfiguration (bs "mail") (bs "1"); sample_item KindConfiguration (bs "cal") (bs "2");
   sample_item KindAsset (bs "key") (bs "3"); sample_item KindActivation (bs "on") (bs "4")].
Definition sample_target : Target := mkTarget MacOS (New 26 0 0) Support.ChannelDevice true false false true true.

Lemma sample_typed : Forall (typed newState) sample_items.
Proof. repeat constructor; intros canonical env [= <-] [= <-]; vm_compute; reflexivity. Qed.

Lemma sample_honest : Forall (honest newState) sample_items.
Proof. repeat constructor; by intros b [= <-]. Qed.

Lemma delivery_is_closed_witness :
  match filterCompatible newState sample_items sample_target with
  | Ok (result, issues) =>
      Identifier ∘ Ref <$> result = [bs "mail"; bs "key"; bs "on"] ∧ withheld (bs "cal") issues ∧
      (∀ it, it ∈ result → ∃ b typ payload canonical,
         item_canonical newState it = Ok b ∧ ServerToken (Ref it) = TokenFor b ∧ (b = canonical ∨ collision b canonical) ∧
         canonicalDeclaration (Identifier (Ref it)) typ (JObj payload) = Ok canonical ∧
         (∀ ref id, ref ∈ AssetReferences typ → id ∈ referencedStrings (JObj payload) (ar_Path ref) → delivered KindAsset id result) ∧
         (typ = Act → ∀ v, v ∈ configurations payload → delivered KindConfiguration (as_name v) result))
  | Err _ => False
  end.
Proof.
  assert (match filterCompatible newState sample_items sample_target with
          | Ok (result, issues) => bool_decide (Identifier ∘ Ref <$> result = [bs "mail"; bs "key"; bs "on"])
          | Err _ => false end = true) as E by (vm_compute; reflexivity).
  destruct (filterCompatible newState sample_items sample_target) as [[result issues]|] eqn:H; [|discriminate E].
  assert (lookupType Act = Ok KindActivation) as Ha by (vm_compute; reflexivity).
  destruct (delivery_is_closed Ha eq_refl newState sample_items sample_target result issues sample_typed sample_honest H) as [H1 H2].
  apply bool_decide_eq_true in E. split; [exact E|split; [|exact H1]].
  destruct (H2 (sample_item KindConfiguration (bs "cal") (bs "2"))) as [(it & Hit & Hid & _)|Hw];
    [right; left| |exact Hw].
  exfalso. assert (bs "cal" ∉ [bs "mail"; bs "key"; bs "on"]) as Hno by (apply (bool_decide_unpack _); vm_compute; exact I).
  apply Hno. rewrite <-E. apply list_elem_of_fmap. exists it. split; [symmetry; exact Hid|exact Hit].
Defined.
End Sample.
