(* ===== verification/DdmServing.v ===== *)
(** * What is advertised is what is served

    A manifest names declarations with their tokens; the device then fetches them one by
    one, and in between administrators may change declarations. The engine keeps the
    revisions a snapshot names, so until the declaration is deleted every item of the
    manifest can be fetched, and the bytes served are those whose hash was advertised. *)
From S2P Require Import Prelude GoStrings OsVersion Support Mdm Storage Sha256 Json DdmTypes DdmStore DdmDecl DdmEngine DdmInv DdmNotify DdmDelivery.

Section Serving.
Context {JC : JsonCodec} {DS : DdmSchema}.

(** What the registry says of the two generated declarations. *)
Hypothesis subscriptions_kind : lookupType DeclarationTypeManagementStatusSubscriptions = Ok KindConfiguration.
Hypothesis activation_kind : lookupType DeclarationTypeActivationSimple = Ok KindActivation.

(** A relation between identifiers and the bytes that are stored for them: parsed declarations
    and expanded ones have it. *)
Variable R : bytes → bytes → Prop.
Hypothesis parsed_R : ∀ doc target d, parseDeclaration doc target = Ok d → R (d_Identifier d) (Canonical d).
Hypothesis canonical_R : ∀ i typ payload c, canonicalDeclaration i typ payload = Ok c → R i c.
Hypothesis expanded_R : ∀ out c env, Canonicalize out = Some c → splitCanonical c = Ok env → R (env_Identifier env) c.

(** ** Tokens are derived from bytes *)

Definition names_bytes (i t c : bytes) : Prop := t = TokenFor c ∧ R i c.

Definition tokens_derived (st : state) : Prop :=
  ∀ i t v, versions st !! (i, t) = Some v → names_bytes i t (v_Canonical v).

Lemma derived_store d st : names_bytes (d_Identifier d) (d_ServerToken d) (Canonical d) → tokens_derived st → tokens_derived (store_declaration d st).
Proof.
  intros Hd Hst i t v. rewrite store_declaration_versions. destruct (versions st !! (i, t)) eqn:Hv; [intros [= <-]; by eapply Hst|].
  case_decide as E; [|done]. injection E as -> ->. intros [= <-]. exact Hd.
Qed.

Lemma derived_put d b st st' : (∀ d0, d = Some d0 → names_bytes (d_Identifier d0) (d_ServerToken d0) (Canonical d0)) →
  PutDeclaration d st = Ok (b, st') → tokens_derived st → tokens_derived st'.
Proof.
  intros Hd [[_ ->]|(d0 & rec & -> & _ & -> & Erec & _)]%PutDeclaration_inv; [done|]. apply derived_store.
  assert (d_Identifier rec = d_Identifier d0 ∧ d_ServerToken rec = d_ServerToken d0 ∧ Canonical rec = Canonical d0) as (-> & -> & ->) by (by rewrite Erec). by apply Hd.
Qed.

(** A call that writes no revision. *)
Definition fewer_versions (st st' : state) : Prop := ∀ k v, versions st' !! k = Some v → versions st !! k = Some v.
Lemma derived_fewer st st' : fewer_versions st st' → tokens_derived st → tokens_derived st'.
Proof. intros H Hd i t v Hv. by eapply Hd, H. Qed.


(** ** Items of a manifest *)

(** An item stands for a stored declaration, or it is a generated subscription. *)
Inductive item_ok (e : Engine) (st : state) (it : SnapshotItem) : Prop :=
| stored_item d : decls st !! Identifier (Ref it) = Some d → BaseToken it = d_ServerToken d →
    (Expanded it = None → ServerToken (Ref it) = d_ServerToken d) →
    (∀ c, Expanded it = Some c → names_bytes (Identifier (Ref it)) (ServerToken (Ref it)) c) → item_ok e st it
| generated_item c : subs_Enabled e = true → subscriptionReference (Ref it) = true → BaseToken it = [] →
    Expanded it = Some c → names_bytes (Identifier (Ref it)) (ServerToken (Ref it)) c → item_ok e st it.

Lemma expand_ok e id d it st : expand e id d = Ok it → decls st !! d_Identifier d = Some d →
  item_ok e st it ∧ Identifier (Ref it) = d_Identifier d.
Proof.
  intros H Hd.
  assert (∀ it, it = mkItem (declaration_ref d) (d_ServerToken d) None → item_ok e st it ∧ Identifier (Ref it) = d_Identifier d) as Hplain.
  { intros x ->. split; [|done]. by eapply (stored_item _ _ _ d). }
  unfold expand in H. destruct (expander e) as [f|]; [|injection H as <-; by apply Hplain].
  destruct (f id d) as [out|]; [|done]. destruct (_ || _); [injection H as <-; by apply Hplain|].
  destruct (Canonicalize out) as [c|] eqn:Hc; [|done]. case_bool_decide; [injection H as <-; by apply Hplain|].
  destruct (splitCanonical c) as [env|] eqn:Hsp; [|done]. destruct (bool_decide _ || _) eqn:Hi; [done|].
  apply orb_false_iff in Hi as [Hi _]. apply bool_decide_eq_false, dec_stable in Hi. injection H as <-. split; [|done].
  eapply (stored_item _ _ _ d); [done|done|done|]. intros ? [= <-]. split; [done|]. cbn. rewrite <-Hi. by eapply expanded_R.
Qed.

Definition all_stored (st : state) (ds : list Declaration) : Prop := Forall (λ d, decls st !! d_Identifier d = Some d) ds.

Lemma expand_all_ok e id ds st : ∀ its, all_stored st ds → expand_all e id ds = Ok its →
  Forall (item_ok e st) its ∧ Identifier ∘ Ref <$> its = d_Identifier <$> ds.
Proof.
  induction ds as [|d ds IH]; intros its Hds H; cbn in H; [by injection H as <-|].
  apply Forall_cons in Hds as [Hd Hds]. apply bind_Ok_inv in H as (it & He & H). apply bind_Ok_inv in H as (its' & Ha & H).
  injection H as <-. destruct (expand_ok _ _ _ _ _ He Hd) as [Hok Hid]. destruct (IH its' Hds Ha) as [Hoks Hids].
  split; [by constructor|]. cbn. by rewrite Hid, <-Hids.
Qed.

Lemma generated_ok e st identifier typ payload it :
  generatedSubscriptionItem e identifier typ payload = Ok it → subs_Enabled e = true →
  (∀ k, lookupType typ = Ok k → subscriptionReference (mkRef k identifier []) = true) →
  item_ok e st it ∧ Identifier (Ref it) = identifier.
Proof.
  intros H He Hk. unfold generatedSubscriptionItem in H. apply bind_Ok_inv in H as (d & Hd & H). injection H as <-.
  pose proof (parsed_R _ _ _ Hd) as HR. unfold parseDeclaration in Hd. cbn [mbind option_bind decode_envelope] in Hd.
  change (envelope_members true [(bs "Type", JStr typ); (bs "Identifier", JStr identifier); (bs "Payload", payload)] noEnvelope)
    with (Some (mkEnvelope typ identifier [] (Some payload))) in Hd. cbn [env_Type env_Identifier] in Hd.
  go_binds Hd. split; [|done]. eapply generated_item; [done|exact (Hk _ Hb1)|done|done|by split].
Qed.

(** ** The declarations of a manifest are distinct *)

Lemma by_identifier_ok st s : WF st → all_stored st (declarationsByIdentifier s st) ∧
  NoDup (d_Identifier <$> declarationsByIdentifier s st).
Proof.
  intros Hw. unfold declarationsByIdentifier.
  assert (NoDup (sortedKeys s)) as Hn by (unfold sortedKeys; rewrite sort_strings_perm; apply NoDup_elements).
  induction Hn as [|i l Hi _ [IH1 IH2]]; [split; constructor|]. cbn. destruct (decls st !! i) as [d|] eqn:Hd; [|done].
  pose proof (wf_decls st Hw _ _ Hd) as Hid. cbn. split; [constructor; [by rewrite Hid|done]|].
  constructor; [|done]. rewrite Hid, list_elem_of_fmap. intros (d' & E & (j & Hj & Hdj)%list_elem_of_omap).
  apply (wf_decls st Hw) in Hdj. congruence.
Qed.

Definition resolved (st : state) (ds : list Declaration) (seen : gset bytes) : Prop :=
  all_stored st ds ∧ NoDup (d_Identifier <$> ds) ∧ seen = list_to_set (d_Identifier <$> ds).

Lemma resolve_names_ok st names : WF st → ∀ ds seen ds' seen', resolved st ds seen →
  resolve_names st names ds seen = Ok (ds', seen') → resolved st ds' seen'.
Proof.
  intros Hw. induction names as [|n names IH]; intros ds seen ds' seen' Hr H; cbn in H; [by simplify_eq|].
  case_bool_decide as Hn; [by eapply IH|]. destruct (GetDeclaration n st) as [d|x] eqn:Hg.
  - eapply IH, H. destruct Hr as (H1 & H2 & ->). unfold GetDeclaration in Hg. go_binds Hg.
    destruct (decls st !! n) as [d'|] eqn:Hd; [|done]. injection Hg as ->. pose proof (wf_decls st Hw _ _ Hd) as Hid. subst n.
    split_and!.
    + apply Forall_app. split; [done|by apply Forall_singleton].
    + rewrite fmap_app. apply NoDup_app. split_and!; [done| |apply NoDup_singleton]. intros x Hx. set_solver.
    + rewrite fmap_app. set_solver.
  - destruct (Is x ErrNotFound); [by eapply IH|done].
Qed.

Lemma resolve_all_ok st id rs : WF st → ∀ ds seen ds' seen', resolved st ds seen →
  resolve_all st id rs ds seen = Ok (ds', seen') → resolved st ds' seen'.
Proof.
  intros Hw. induction rs as [|r rs IH]; intros ds seen ds' seen' Hr H; cbn in H; [by simplify_eq|].
  destruct (r id) as [names|]; [|done]. apply bind_Ok_inv in H as ([ds1 seen1] & Hn & H).
  eapply IH; [|exact H]. by eapply resolve_names_ok.
Qed.

Lemma subscription_items_ok e id seen st its : subscription_items e id seen st = Ok its →
  Forall (item_ok e st) its ∧ NoDup (Identifier ∘ Ref <$> its) ∧ ∀ i, i ∈ Identifier ∘ Ref <$> its → i ∉ seen.
Proof.
  unfold subscription_items. destruct (subs_Enabled e) eqn:He; cbn [negb orb].
  2:{ intros [= <-]. split_and!; [done|constructor|set_solver]. }
  case_bool_decide as Hs; [intros [= <-]; split_and!; [done|constructor|set_solver]|].
  intros H. apply bind_Ok_inv in H as (it & Hit & H).
  apply (generated_ok e st) in Hit as [Hok Hid]; [|done|intros k; rewrite subscriptions_kind; by intros [= <-]].
  case_bool_decide as Ha.
  - injection H as <-. cbn. rewrite Hid. split_and!; [by repeat constructor|apply NoDup_singleton|].
    intros i Hi%list_elem_of_singleton. by subst.
  - apply bind_Ok_inv in H as (a & Hact & H). injection H as <-.
    apply (generated_ok e st) in Hact as [Hok' Hid']; [|done|intros k; rewrite activation_kind; by intros [= <-]].
    cbn. rewrite Hid, Hid'. split_and!; [by repeat constructor| |].
    + constructor; [|apply NoDup_singleton]. rewrite list_elem_of_singleton. done.
    + intros i Hi. rewrite elem_of_cons, list_elem_of_singleton in Hi. by destruct Hi as [->| ->].
Qed.

(** The compatibility filter keeps this. *)
Lemma item_passed e st it0 it : passed it0 it → item_ok e st it0 → item_ok e st it.
Proof.
  intros (typ & payload & canonical & Hc & [[-> _]| ->]); [done|]. apply canonical_R in Hc.
  intros [d Hl Hb Ht Hx|c He Hs Hb Hx Ht].
  - eapply stored_item; [exact Hl|exact Hb|done|]. by intros c [= <-].
  - eapply generated_item; [exact He|exact Hs|exact Hb|done|by split].
Qed.

Lemma sublist_fmap {A B} (f : A → B) l l' : l `sublist_of` l' → f <$> l `sublist_of` f <$> l'.
Proof. induction 1; cbn; by constructor. Qed.

Lemma all_passed e st l l' : Forall2 passed l l' → Forall (item_ok e st) l →
  Forall (item_ok e st) l' ∧ Identifier ∘ Ref <$> l' = Identifier ∘ Ref <$> l.
Proof.
  induction 1 as [|it0 it l l' Hp _ IH]; intros H; [by split|]. apply Forall_cons in H as [Hi H]. destruct (IH H) as [Hok Hid]. split.
  - constructor; [by eapply item_passed|done].
  - cbn. rewrite <-Hid. f_equal. destruct Hp as (typ & payload & canonical & _ & Hc). by apply carries_same in Hc as [-> _].
Qed.

Lemma filtered_ok e st target items items' findings :
  match target with None => Ok (items, []) | Some t => filterCompatible st items t end = Ok (items', findings) →
  Forall (item_ok e st) items → NoDup (Identifier ∘ Ref <$> items) → Forall (item_ok e st) items' ∧ NoDup (Identifier ∘ Ref <$> items').
Proof.
  destruct target as [t|]; [|by intros [= <- _]]. intros (l & Hl & Hp)%filterCompatible_passed Hok Hn.
  destruct (all_passed e st l items' Hp) as [Hok' ->].
  { rewrite Forall_forall in *. intros x Hx. by eapply Hok, elem_of_sublist. }
  split; [done|]. eapply sublist_NoDup; [exact Hn|by apply sublist_fmap].
Qed.

Lemma manifest_ok e id target st token items findings : WF st → manifestFor e id target st = Ok (token, items, findings) →
  Forall (item_ok e st) items ∧ NoDup (Identifier ∘ Ref <$> items).
Proof.
  intros Hw H. unfold manifestFor in H. apply bind_Ok_inv in H as (static & Hst & H).
  apply bind_Ok_inv in H as ([ds seen] & Hr & H). apply bind_Ok_inv in H as (its & He & H).
  apply bind_Ok_inv in H as (more & Hm & H). apply bind_Ok_inv in H as ([its' fs] & Hf & H). injection H as _ <- _.
  unfold StaticDeclarations in Hst. apply bind_Ok_inv in Hst as (? & _ & [= <-]).
  destruct (by_identifier_ok st (staticIdentifiers (ID id) st) Hw) as [H1 H2].
  apply resolve_all_ok in Hr as (Hs & Hn & ->); [|done|done].
  destruct (expand_all_ok _ _ _ _ _ Hs He) as [Hok Hid]. apply subscription_items_ok in Hm as (Hok' & Hn' & Hd).
  rewrite stable_sort_perm. apply (filtered_ok e st) in Hf; [done|by apply Forall_app|].
  rewrite fmap_app, Hid. apply NoDup_app. split_and!; [done| |done]. intros i Hi Hi'. apply Hd in Hi'. set_solver.
Qed.

(** ** Fetching *)

Lemma find_unique it items : NoDup (Identifier ∘ Ref <$> items) → it ∈ items →
  ∃ n, list_find (is_item (r_Kind (Ref it)) (Identifier (Ref it))) items = Some (n, it).
Proof.
  intros Hn Hin. apply list_elem_of_lookup in Hin as [n Hl]. exists n. apply list_find_Some.
  split_and!; [done|done|]. intros j y Hy Hlt [Hid _]. assert (j = n); [|lia].
  apply (NoDup_lookup (Identifier ∘ Ref <$> items) j n (Identifier (Ref it))); [done|..]; rewrite list_lookup_fmap, ?Hy, ?Hl; cbn; congruence.
Qed.

(** The item can be served: its revision is there, or it carries its bytes. *)
Definition served (e : Engine) (st : state) (it : SnapshotItem) (c : bytes) : Prop :=
  names_bytes (Identifier (Ref it)) (ServerToken (Ref it)) c ∧
  ((BaseToken it ≠ [] ∧ Identifier (Ref it) ≠ [] ∧
    ∃ v, versions st !! (Identifier (Ref it), BaseToken it) = Some v ∧ c = default (v_Canonical v) (Expanded it)) ∨
   (subs_Enabled e = true ∧ subscriptionReference (Ref it) = true ∧ BaseToken it = [] ∧ Expanded it = Some c)).

Lemma item_served e st it : WF st → tokens_derived st → Identifier (Ref it) ≠ [] → item_ok e st it → ∃ c, served e st it c.
Proof.
  intros Hw Hd Hne [d Hl Hb Ht Hx|c He Hs Hb Hx Ht].
  - destruct (wf_current st Hw _ _ Hl) as [v Hv]. pose proof (Hd _ _ _ Hv) as Hv'.
    exists (default (v_Canonical v) (Expanded it)). split.
    + destruct (Expanded it) as [c|] eqn:Ex; cbn; [by apply Hx|]. by rewrite Ht.
    + left. rewrite Hb. split_and!; [destruct Hv' as [-> _]; apply TokenFor_ne|done|eauto].
  - exists c. split; [done|]. by right.
Qed.

Lemma serve_item_served e id it c now st : served e st it c →
  serve_item e id it now st = (RenderDeclaration c (ServerToken (Ref it)), st).
Proof.
  intros [_ [(Hb & Hi & v & Hv & ->)|(He & Hs & Hb & Hx)]]; unfold serve_item.
  - rewrite (bool_decide_false (BaseToken it = [])), andb_false_r by done. unfold serve_version, mbind, act_bind, attempt, query.
    unfold GetDeclarationVersion, validName, reject. rewrite !bool_decide_false by done. cbn [mbind result_bind]. by rewrite Hv.
  - rewrite Hs, Hb, (bool_decide_true ([] = [])) by done. cbn [andb]. by rewrite He, Hx.
Qed.

(** The manifest stands: when declarations are withheld by the target of the enrollment, the
    filter passes the items of the manifest as they are. Otherwise a fetch makes a new one. *)
Definition still_compatible (e : Engine) (id : EnrollmentID) (snap : Snapshot) (st : state) : Prop :=
  match deliveryTarget e id with
  | Ok None => True
  | Ok (Some t) => ∃ items issues, filterCompatible st (sn_Items snap) t = Ok (items, issues) ∧ Ref <$> items = Ref <$> sn_Items snap
  | Err _ => False
  end.

Lemma checked_same e id snap now st : still_compatible e id snap st → checked_snapshot e id snap now st = (Ok snap, st).
Proof.
  unfold still_compatible, checked_snapshot, mbind, act_bind, lift, attempt, query. destruct (deliveryTarget e id) as [[t|]|]; [|done|done].
  intros (items & issues & -> & E). cbn. unfold sameItems. by rewrite bool_decide_true.
Qed.

Lemma Declaration_served e id snap it c now st :
  still_compatible e id snap st → Validate id = Ok tt → ids st !! ID id = Some id → snapshots st !! ID id = Some snap →
  NoDup (Identifier ∘ Ref <$> sn_Items snap) → it ∈ sn_Items snap → served e st it c →
  Engine_Declaration e id (r_Kind (Ref it)) (Identifier (Ref it)) now st = (RenderDeclaration c (ServerToken (Ref it)), st).
Proof.
  intros He Hv Hid Hsn Hn Hin Hs. destruct (find_unique it _ Hn Hin) as [n Hf].
  assert (validID id st = Ok tt) as Hvid by (apply validID_spec; split; [done|]; intros ?; by rewrite Hid; intros [= ->]).
  pose proof (checked_same e id snap now st He) as Hch.
  unfold Engine_Declaration, current_snapshot, engine_validID, validID0, mbind, act_bind, lift, attempt, query, mret, act_ret.
  rewrite Hv. unfold GetSnapshot. rewrite Hvid. cbn [mbind result_bind]. rewrite Hsn, Hch, Hf. by apply serve_item_served.
Qed.

(** ** Administration keeps what snapshots name *)

(** Calls that neither delete the declaration [i] nor replace the snapshot of [key]; stored
    declarations carry the token of their bytes. *)
Definition admin_call (i key : bytes) (c : call) : Prop :=
  match c with
  | CPutDeclaration d => ∀ d0, d = Some d0 → names_bytes (d_Identifier d0) (d_ServerToken d0) (Canonical d0)
  | CDeleteDeclaration j => j ≠ i
  | CPutSnapshot s => ∀ s0, s = Some s0 → ID (sn_ID s0) ≠ key
  | CClearEnrollment id => ID id ≠ key
  | _ => True
  end.

Definition by_calls (i key : bytes) (st st' : state) : Prop := ∃ cs, Forall (admin_call i key) cs ∧ st' = foldl perform st cs.

#[local] Instance by_calls_preorder i key : PreOrder (by_calls i key).
Proof.
  split; [intros st; by exists []|]. intros st st1 st2 (cs & H & ->) (cs' & H' & ->). exists (cs ++ cs').
  rewrite foldl_app. split; [by apply Forall_app|done].
Qed.

Lemma one_call i key c st : admin_call i key c → by_calls i key st (perform st c).
Proof. intros H. exists [c]. split; [by repeat constructor|done]. Qed.

Lemma call_done {A} i key c st (r : dres A) a st' : perform st c = left_by st r → r = Ok (a, st') → admin_call i key c → by_calls i key st st'.
Proof. intros E -> Hc. cbn in E. rewrite <-E. by apply one_call. Qed.

Lemma by_recordAffected i key il ns reason now st u st' : recordAffected il ns reason now st = Ok (u, st') → by_calls i key st st'.
Proof.
  unfold recordAffected. intros H. apply bind_Ok_inv in H as (l & _ & H). case_bool_decide; [by injection H as _ <-|].
  by eapply (call_done i key (CRecordChanges l reason now)).
Qed.

Lemma by_put i key d now st r st' : names_bytes (d_Identifier d) (d_ServerToken d) (Canonical d) → put_declaration_tx d now st = Ok (r, st') → by_calls i key st st'.
Proof.
  intros Hd. unfold put_declaration_tx. set (d' := match GetDeclaration (d_Identifier d) st with Ok _ => _ | Err _ => _ end).
  assert (names_bytes (d_Identifier d') (d_ServerToken d') (Canonical d')) as Hd' by (unfold d'; by destruct (GetDeclaration _ _)).
  clearbody d'. intros H. apply bind_Ok_inv in H as ([[] st1] & Hp & H); cbn [negb] in H;
    (eapply (call_done i key (CPutDeclaration (Some d'))) in Hp; [|done|by intros ? [= <-]]).
  - apply bind_Ok_inv in H as ([u st2] & Hr & H). apply Ok_pair_inv in H as [_ <-]. etransitivity; [done|by eapply by_recordAffected].
  - by apply Ok_pair_inv in H as [_ <-].
Qed.

Lemma parsed_names doc target d : parseDeclaration doc target = Ok d → names_bytes (d_Identifier d) (d_ServerToken d) (Canonical d).
Proof. intros H. split; [by apply (parseDeclaration_derived _ _ _ H)|by eapply parsed_R]. Qed.

Lemma parse_publication_derived e raws : ∀ seen ds, parse_publication e raws seen = Ok ds →
  Forall (λ d, names_bytes (d_Identifier d) (d_ServerToken d) (Canonical d)) ds.
Proof.
  induction raws as [|raw raws IH]; intros seen ds H; cbn in H; [by injection H as <-|].
  apply bind_Ok_inv in H as (d & Hd & H). apply bind_Ok_inv in H as (? & _ & H). apply bind_Ok_inv in H as (? & _ & H).
  apply bind_Ok_inv in H as (ds' & Hds & H). injection H as <-. constructor; [|by eapply IH]. by eapply parsed_names.
Qed.

Lemma by_publish_loop i key name now ds : Forall (λ d, names_bytes (d_Identifier d) (d_ServerToken d) (Canonical d)) ds →
  ∀ st r st', publish_loop name now ds st = Ok (r, st') → by_calls i key st st'.
Proof.
  induction 1 as [|d ds Hd _ IH]; intros st r st' H; cbn in H; [by apply Ok_pair_inv in H as [_ <-]|].
  apply bind_Ok_inv in H as ([[c a] st1] & H1 & H). apply bind_Ok_inv in H as ([[il any] st2] & H2 & H).
  apply Ok_pair_inv in H as [_ <-]. transitivity st1; [|by eapply IH]. unfold publish_one in H1.
  apply bind_Ok_inv in H1 as (d' & Hd' & H1).
  assert (names_bytes (d_Identifier d') (d_ServerToken d') (Canonical d')) as Ht.
  { destruct (GetDeclaration _ _) as [old|x]; [by injection Hd' as <-|]. destruct (Is x ErrNotFound); [by injection Hd' as <-|done]. }
  apply bind_Ok_inv in H1 as ([c' st3] & H3 & H1). apply bind_Ok_inv in H1 as ([a' st4] & H4 & H1). injection H1 as _ _ <-.
  transitivity st3.
  - eapply (call_done i key (CPutDeclaration (Some d'))); [done|done|by intros ? [= <-]].
  - by eapply (call_done i key (CAddSetDeclaration name (d_Identifier d') now)).
Qed.

Lemma by_unpublish_loop i key name keep previous : ∀ st r st', unpublish_loop name keep previous st = Ok (r, st') → by_calls i key st st'.
Proof.
  induction previous as [|j previous IH]; intros st r st' H; cbn in H; [by apply Ok_pair_inv in H as [_ <-]|].
  case_bool_decide; [by eapply IH|]. apply bind_Ok_inv in H as ([b st1] & H1 & H). apply bind_Ok_inv in H as ([b' st2] & H2 & H).
  apply Ok_pair_inv in H as [_ <-]. transitivity st1; [|by eapply IH]. by eapply (call_done i key (CRemoveSetDeclaration name j)).
Qed.

Lemma by_publish i key e name raws now st r st' : PublishSetTx e name raws now st = Ok (r, st') → by_calls i key st st'.
Proof.
  unfold PublishSetTx. intros H. apply bind_Ok_inv in H as (? & _ & H). apply bind_Ok_inv in H as (ds & Hds & H).
  apply bind_Ok_inv in H as (? & _ & H). apply bind_Ok_inv in H as ([created st1] & H1 & H).
  apply bind_Ok_inv in H as (previous & _ & H). apply bind_Ok_inv in H as ([[il any] st2] & H2 & H).
  apply bind_Ok_inv in H as ([removed st3] & H3 & H). apply bind_Ok_inv in H as ([u st4] & H4 & H).
  apply Ok_pair_inv in H as [_ <-]. apply parse_publication_derived in Hds.
  transitivity st1; [by eapply (call_done i key (CPutSet name now))|]. transitivity st2; [|transitivity st3].
  - eapply by_publish_loop, H2. by rewrite stable_sort_perm.
  - by eapply by_unpublish_loop.
  - destruct (_ || _); [by eapply by_recordAffected|by injection H4 as _ <-].
Qed.

(** A change of a membership or of an assignment: a call, and the record of it. *)
Lemma by_membership i key c set op now st : perform st c = left_by st (op st) → admin_call i key c →
  by_calls i key st (setMembership set op now st).2.
Proof.
  intros E Hc. apply (update_state (by_calls i key st)); [done|]. intros b st' H. apply bind_Ok_inv in H as ([b' st1] & Ho & H).
  transitivity st1; [by eapply (call_done i key c)|]. destruct b'; cbn [negb] in H; [|by apply Ok_pair_inv in H as [_ <-]].
  apply bind_Ok_inv in H as ([u st2] & Hr & H). apply Ok_pair_inv in H as [_ <-]. by eapply by_recordAffected.
Qed.

Lemma by_assignment i key c id op now st : perform st c = left_by st (op st) → admin_call i key c →
  by_calls i key st (assignment id op now st).2.
Proof.
  intros E Hc. unfold assignment. apply (lift_state (by_calls i key st)); [done|]. intros _ _.
  apply (update_state (by_calls i key st)); [done|]. intros b st' H. apply bind_Ok_inv in H as ([b' st1] & Ho & H).
  transitivity st1; [by eapply (call_done i key c)|]. destruct b'; cbn [negb] in H; [|by apply Ok_pair_inv in H as [_ <-]].
  apply bind_Ok_inv in H as ([u st2] & Hr & H). apply Ok_pair_inv in H as [_ <-].
  by eapply (call_done i key (CRecordChanges [id] ReasonAssignment now)).
Qed.

(** Every administrative operation is a sequence of such calls. *)
Lemma administer_calls i key now a st : a ≠ ADeleteDeclaration i → by_calls i key st (administer now a st).
Proof.
  intros Ha. destruct a; cbn [administer].
  - unfold Engine_PutDeclaration. apply (lift_state (by_calls i key st)); [done|]. intros d Hd.
    apply (lift_state (by_calls i key st)); [done|]. intros _ _. apply (update_state (by_calls i key st)); [done|].
    intros r st'. apply by_put. apply (parsed_names _ _ _ Hd).
  - apply (update_state (by_calls i key st)); [done|]. intros u st' H. apply bind_Ok_inv in H as ([v st1] & Hr & H).
    transitivity st1; [by eapply by_recordAffected|]. eapply (call_done i key (CDeleteDeclaration i0)); [done|done|]. by intros ->.
  - apply (commit_state (by_calls i key st)); [done|]. intros b st' H. by eapply (call_done i key (CPutSet name now)).
  - apply (update_state (by_calls i key st)); [done|]. intros u st' H. apply bind_Ok_inv in H as ([v st1] & Hr & H).
    transitivity st1; [by eapply by_recordAffected|]. by eapply (call_done i key (CDeleteSet name)).
  - by apply (by_membership i key (CAddSetDeclaration set i0 at_)).
  - by apply (by_membership i key (CRemoveSetDeclaration set i0)).
  - by apply (by_assignment i key (CAssignSet id set)).
  - by apply (by_assignment i key (CUnassignSet id set)).
  - by apply (by_assignment i key (CAssignDeclaration id i0)).
  - by apply (by_assignment i key (CUnassignDeclaration id i0)).
  - apply (update_state (by_calls i key st)); [done|]. intros r st'. apply by_publish.
  - unfold Touch. destruct (existsb _ _); [done|]. case_bool_decide as Hl; [done|]. apply (commit_state (by_calls i key st)); [done|].
    intros u st' H. exact (call_done i key (CRecordChanges l _ now) st _ u st' eq_refl H I).
  - apply (one_call i key CPruneVersions). done.
Qed.

(** What such calls keep: the snapshot, and the revisions of [i] it names. *)
Record keeps (i key : bytes) (st st' : state) : Prop := {
  kp_snapshot : snapshots st' !! key = snapshots st !! key;
  kp_versions : ∀ s it v, snapshots st !! key = Some s → it ∈ sn_Items s → Identifier (Ref it) = i →
    versions st !! (i, BaseToken it) = Some v → versions st' !! (i, BaseToken it) = Some v }.

#[local] Instance keeps_preorder i key : PreOrder (keeps i key).
Proof.
  split; [by split|]. intros a b c [H1 H3] [E1 E3]. split; [congruence|].
  intros s it v Hs Hit Hi Hv. eapply E3; [by rewrite H1|done|done|]. by eapply H3.
Qed.

Lemma perform_snapshot i key st c : admin_call i key c → snapshots (perform st c) !! key = snapshots st !! key.
Proof.
  intros Hc. destruct c; cbn [perform admin_call] in *; try (apply left_by_invariant; [reflexivity|]; intros a st' H); try done.
  - apply PutDeclaration_inv in H as [[_ ->]|(d0 & rec & _ & _ & -> & _)]; [done|]. by rewrite store_declaration_eq.
  - by apply DeleteDeclaration_inv in H as [_ ->].
  - unfold PutSet in H. go_binds H. by destruct (sets st !! n); go_binds H.
  - by apply DeleteSet_inv in H as [_ ->].
  - apply AddSetDeclaration_inv in H as (s & m & _ & _ & _ & ->). by destruct a.
  - by apply RemoveSetDeclaration_inv in H as (m & _ & _ & ->).
  - by apply AssignSet_inv in H as (u & m & _ & _ & _ & ->).
  - by apply UnassignSet_inv in H as (m & _ & ->).
  - by apply AssignDeclaration_inv in H as (u & m & _ & _ & _ & ->).
  - by apply UnassignDeclaration_inv in H as (m & _ & ->).
  - apply PutSnapshot_inv in H as (x & v & -> & _ & _ & ->). cbn. apply lookup_insert_ne. by apply Hc.
  - apply PutStatus_inv in H as [_ [[_ _ _ _ _ _ E] _ _ _ _ _ _]]. by rewrite E.
  - apply RecordChanges_inv in H as [_ H]. destruct (rc_core _ _ _ _ _ H) as [_ _ _ _ _ _ E]. by rewrite E.
  - apply ClearEnrollment_inv in H as (_ & _ & _ & _ & _ & _ & _ & _ & E & _). rewrite E. by apply lookup_delete_ne.
Qed.

Lemma perform_keeps i key st c : admin_call i key c → keeps i key st (perform st c).
Proof.
  intros Hc. split; [by eapply perform_snapshot|]. intros s it v Hs Hit <- Hv. apply perform_version; [done|by intros ->|].
  intros _. by eapply kept_snapshot.
Qed.

Lemma by_calls_keeps i key st st' : by_calls i key st st' → keeps i key st st' ∧ ids_kept st st'.
Proof.
  intros (cs & Hcs & ->). revert st. induction Hcs as [|c cs Hc _ IH]; intros st; cbn; [done|].
  destruct (IH (perform st c)) as [H1 H2]. split; (etransitivity; [|done]); [by apply perform_keeps|apply perform_ids].
Qed.

(** ** Histories *)

(** What happens to a store: administration, devices that ask for their manifest or report
    status, enrollments that leave, notifications that are delivered or fail. *)
Inductive event :=
| EAdmin (a : admin) | ERefresh (e : Engine) (id : EnrollmentID) | EStatus (id : EnrollmentID) (u : StatusUpdate)
| EClear (id : EnrollmentID) | EComplete (seqs : list Z) | EFail (seqs : list Z) (msg : bytes) (at_ : Time).

Definition happens (st : state) (ev : Time * event) : state :=
  let '(now, ev) := ev in
  match ev with
  | EAdmin a => administer now a st
  | ERefresh e id => (refreshSnapshot e id now st).2
  | EStatus id u => perform st (CPutStatus id u)
  | EClear id => (Engine_ClearEnrollment id st).2
  | EComplete seqs => perform st (CCompleteChanges seqs)
  | EFail seqs msg at_ => perform st (CFailChanges seqs msg at_)
  end.

(** The declaration [i] is not deleted, the enrollment [key] neither asks again nor leaves. *)
Definition quiet (i key : bytes) (ev : event) : Prop :=
  match ev with
  | EAdmin (ADeleteDeclaration j) => j ≠ i
  | ERefresh _ id | EClear id => ID id ≠ key
  | _ => True
  end.

Lemma refresh_calls e id now i key st : ID id ≠ key → by_calls i key st (refreshSnapshot e id now st).2.
Proof.
  intros Hk. unfold refreshSnapshot. apply (lift_state (by_calls i key st)); [done|]. intros _ _.
  apply (lift_state (by_calls i key st)); [done|]. intros target _. apply (update_state (by_calls i key st)); [done|].
  intros snap st' H. unfold refresh_tx in H. apply bind_Ok_inv in H as ([[token items] findings] & _ & H).
  apply bind_Ok_inv in H as (at_ & _ & H). apply bind_Ok_inv in H as ([u st1] & Hp & H). apply Ok_pair_inv in H as [_ <-].
  refine (call_done i key (CPutSnapshot _) st _ u st1 eq_refl Hp _). by intros s [= <-].
Qed.

Lemma happens_calls now ev i key st : quiet i key ev → by_calls i key st (happens st (now, ev)).
Proof.
  intros Hq. destruct ev as [a|e id|id u|id|seqs|seqs msg at_]; cbn [happens].
  - apply administer_calls. by intros ->.
  - by apply refresh_calls.
  - by apply one_call.
  - unfold Engine_ClearEnrollment. apply (lift_state (by_calls i key st)); [done|]. intros _ _.
    apply (update_state (by_calls i key st)); [done|]. intros u st' H. by eapply (call_done i key (CClearEnrollment id)).
  - by apply one_call.
  - by apply one_call.
Qed.

Lemma happened_calls evs i key : Forall (quiet i key) evs.*2 → ∀ st, by_calls i key st (foldl happens st evs).
Proof.
  induction evs as [|[now ev] evs IH]; intros H st; [done|]. apply Forall_cons in H as [Hq H].
  transitivity (happens st (now, ev)); [by apply happens_calls|by apply IH].
Qed.

Lemma perform_derived i key st c : admin_call i key c → tokens_derived st → tokens_derived (perform st c).
Proof.
  intros Hc Hd. destruct c; cbn [perform admin_call] in *; try (apply left_by_invariant; [done|]; intros a st' H).
  - by eapply derived_put.
  - apply DeleteDeclaration_inv in H as [_ ->]. eapply derived_fewer; [|done]. intros [k t] v Hv. by apply version_kept in Hv as [? _].
  - eapply derived_fewer; [|done]. intros k v. rewrite PruneVersions_lookup. by case_decide.
  - unfold PutSet in H. go_binds H. by destruct (sets st !! n); go_binds H.
  - by apply DeleteSet_inv in H as [_ ->].
  - apply AddSetDeclaration_inv in H as (s & m & _ & _ & _ & ->). by destruct a.
  - by apply RemoveSetDeclaration_inv in H as (m & _ & _ & ->).
  - by apply AssignSet_inv in H as (u & m & _ & _ & _ & ->).
  - by apply UnassignSet_inv in H as (m & _ & ->).
  - by apply AssignDeclaration_inv in H as (u & m & _ & _ & _ & ->).
  - by apply UnassignDeclaration_inv in H as (m & _ & ->).
  - by apply PutSnapshot_inv in H as (x & v & _ & _ & _ & ->).
  - apply PutStatus_inv in H as [_ [[_ E1 _ _ _ _ _] _ _ _ _ _ _]]. unfold tokens_derived. by rewrite E1.
  - apply RecordChanges_inv in H as [_ H]. destruct (rc_core _ _ _ _ _ H) as [_ E1 _ _ _ _ _]. unfold tokens_derived. by rewrite E1.
  - done.
  - done.
  - apply ClearEnrollment_inv in H as (_ & _ & E1 & _). unfold tokens_derived. by rewrite E1.
Qed.

Lemma by_calls_sound i key st st' : by_calls i key st st' → WF st ∧ tokens_derived st → WF st' ∧ tokens_derived st'.
Proof.
  intros (cs & Hcs & ->). revert st. induction Hcs as [|c cs Hc _ IH]; intros st [Hw Hd]; cbn; [done|].
  apply IH. split; [by apply perform_WF|by eapply perform_derived].
Qed.

(** Every event leaves some declaration and some enrollment alone. *)
Lemma quiet_somewhere ev : ∃ i key, quiet i key ev.
Proof.
  destruct ev as [a|e id|id u|id|seqs|seqs msg at_]; try by exists [], [].
  - destruct a; try by exists [], []. exists (0 :: i), []. intros E. apply (f_equal length) in E. cbn in E. lia.
  - exists [], (0 :: ID id). intros E. apply (f_equal length) in E. cbn in E. lia.
  - exists [], (0 :: ID id). intros E. apply (f_equal length) in E. cbn in E. lia.
Qed.

Definition history (evs : list (Time * event)) : state := foldl happens newState evs.

Lemma history_sound evs : WF (history evs) ∧ tokens_derived (history evs).
Proof.
  unfold history. assert (WF newState ∧ tokens_derived newState) as H by (split; [apply WF_new|]; intros i t v; cbn; by rewrite lookup_empty).
  revert H. generalize newState as st. induction evs as [|[now ev] evs IH]; intros st H; [done|]. apply IH.
  destruct (quiet_somewhere ev) as (i & key & Hq). eapply by_calls_sound; [|exact H]. by apply (happens_calls _ _ i key).
Qed.

Lemma refresh_inv e id now st snap st' : refreshSnapshot e id now st = (Ok snap, st') →
  Validate id = Ok tt ∧ versions st' = versions st ∧ ids st' !! ID id = Some id ∧ snapshots st' !! ID id = Some snap ∧
  Forall (λ it, Identifier (Ref it) ≠ []) (sn_Items snap) ∧
  ∃ target token findings, manifestFor e id target st = Ok (token, sn_Items snap, findings).
Proof.
  intros H. unfold refreshSnapshot, update, commit, Update, engine_validID, validID0, lift, mbind, act_bind in H.
  destruct (Validate id) as [[]|] eqn:Hv; [|done]. destruct (deliveryTarget e id) as [target|]; [|done].
  destruct (refresh_tx e id target now st) as [[snap' st1]|] eqn:Ht; [|done]. cbn in H. injection H as <- <-.
  unfold refresh_tx in Ht. apply bind_Ok_inv in Ht as ([[token items] findings] & Hm & Ht).
  apply bind_Ok_inv in Ht as (at_ & _ & Ht). apply bind_Ok_inv in Ht as ([u st2] & Hp & Ht). injection Ht as <- <-.
  apply PutSnapshot_inv in Hp as (x & v & [= <-] & _ & Hi & ->). cbn in *.
  split_and!; [done|done|apply lookup_insert_eq|apply lookup_insert_eq|done|eauto].
Qed.

Lemma served_kept e it c snap st st' key : keeps (Identifier (Ref it)) key st st' → snapshots st !! key = Some snap →
  it ∈ sn_Items snap → served e st it c → served e st' it c.
Proof.
  intros [_ Hk] Hs Hin [Ht [(Hb & Hi & v & Hv & ->)|H]]; (split; [done|]); [left|by right].
  split_and!; [done|done|]. exists v. split; [|done]. by eapply Hk.
Qed.

(** Every item of the manifest is served, from bytes whose token is the one advertised. *)
Lemma advertised_served e id now evs snap st' evs' it now' :
  refreshSnapshot e id now (history evs) = (Ok snap, st') → it ∈ sn_Items snap →
  Forall (quiet (Identifier (Ref it)) (ID id)) evs'.*2 →
  let later := foldl happens st' evs' in still_compatible e id snap later →
  ∃ c, names_bytes (Identifier (Ref it)) (ServerToken (Ref it)) c ∧
    Engine_Declaration e id (r_Kind (Ref it)) (Identifier (Ref it)) now' later
    = (RenderDeclaration c (ServerToken (Ref it)), later).
Proof.
  intros Hr Hin Hq later He. destruct (history_sound evs) as [Hw Hd]. set (st := history evs) in *.
  apply refresh_inv in Hr as (Hv & Ev & Hid & Hs & Hne & target & token & findings & Hm).
  destruct (manifest_ok _ _ _ _ _ _ _ Hw Hm) as [Hok Hn]. rewrite Forall_forall in Hok, Hne.
  destruct (item_served e st it Hw Hd (Hne _ Hin) (Hok _ Hin)) as [c Hc]. exists c. split; [apply Hc|].
  destruct (by_calls_keeps _ _ _ _ (happened_calls _ _ _ Hq st')) as [Hk Hids]. fold later in Hk, Hids.
  eapply Declaration_served; [done|done|by apply Hids|by rewrite (kp_snapshot _ _ _ _ Hk)|done|done|].
  eapply served_kept; [exact Hk|exact Hs|done|]. destruct Hc as [Ht Hc]. split; [done|]. by rewrite Ev.
Qed.
End Serving.
