(* ===== verification/DdmCodec.v ===== *)
(** * Declarations in canonical JSON

    The JSON text layer of the engine: [encoding/json/v2] reads, [canonjson] writes. With it
    the bytes that are stored are canonical, so they can be split and rendered again, and
    what a device receives reads as the declaration that was stored, with its token. *)
From S2P Require Import Prelude GoStrings OsVersion Support Mdm Storage Sha256 Utf8 Float64 Json Canonjson CanonjsonRead CanonjsonSpec DdmTypes DdmStore DdmDecl DdmEngine DdmInv DdmNotify DdmServing.

(** ** Deciding what can be marshalled *)

Lemma valid_utf8_runes s : valid_utf8 s ↔ Forall scalar (runes_of 0 s) ∧ s = utf8 (runes_of 0 s).
Proof.
  split; [|by exists (runes_of 0 s)]. intros (rs & Hr & ->). by rewrite runes_utf8.
Qed.
#[export] Instance valid_utf8_dec s : Decision (valid_utf8 s).
Proof.
  refine (cast_if (decide (Forall scalar (runes_of 0 s) ∧ s = utf8 (runes_of 0 s)))); by rewrite valid_utf8_runes.
Defined.
#[export] Instance good_dec lvl v : Decision (good lvl v).
Proof. revert v. induction lvl as [|lvl IH]; intros []; cbn; apply _. Defined.

(** The value is encoded and the text canonicalized. Encoding refuses strings that are not
    UTF-8 and repeated names, canonicalization values that are too deep. *)
(* @src devicemanagement/internal/canonjson/canonjson.go - Marshal *)
Definition Marshal_value (v : json) : option bytes :=
  if decide (good MaxDepth v) then match canon v with Ok b => Some b | Err _ => None end else None.

(** [jsontext] nests at most this many containers. *)
Definition maxNestingDepth : nat := Z.to_nat 10000.

#[export] Instance canonjson_codec : JsonCodec := {|
  json_decode raw := match read_text maxNestingDepth raw with Ok v => Some v | Err _ => None end;
  json_encode := Marshal_value;
  Canonicalize raw := match Canonicalize_text raw with Ok b => Some b | Err _ => None end |}.

(** ** Levels *)

Lemma good_mono n m : (n ≤ m)%nat → ∀ v, good n v → good m v.
Proof.
  revert m. induction n as [|n IH]; intros m Hm [] Hg; cbn in Hg; try (by destruct m); (destruct m as [|m]; [lia|]).
  - cbn. eapply Forall_impl; [exact Hg|]. apply IH. lia.
  - destruct Hg as [Hn Hg]. split; [done|]. eapply Forall_impl; [exact Hg|]. intros x [? ?]. split; [done|]. apply (IH m); [lia|done].
Qed.

Definition relevels (P : json → Prop) (f g : jtoken → decoder → result jerr (json * decoder)) : Prop :=
  ∀ t d v d', f t d = Ok (v, d') → P v → g t d = Ok (v, d').

Lemma read_elems_level P f g : relevels P f g → ∀ fuel d l d', read_elems f fuel d = Ok (l, d') → Forall P l →
  read_elems g fuel d = Ok (l, d').
Proof.
  intros Hfg. induction fuel as [|fuel IH]; intros d l d' H Hl; cbn in *; [done|]. destruct (ReadToken d) as [t d1| |]; [|done..].
  case_bool_decide; [done|]. apply bind_Ok_inv in H as ([v d2] & Hv & H). apply bind_Ok_inv in H as ([l' d3] & H3 & H). injection H as <- <-.
  apply Forall_cons in Hl as [Hp Hl]. rewrite (Hfg _ _ _ _ Hv Hp). cbn. by rewrite (IH _ _ _ H3 Hl).
Qed.

Lemma read_members_level P f g : relevels P f g → ∀ fuel d ms d', read_members f fuel d = Ok (ms, d') → Forall (λ m, P m.2) ms →
  read_members g fuel d = Ok (ms, d').
Proof.
  intros Hfg. induction fuel as [|fuel IH]; intros d l d' H Hl; cbn in *; [done|]. destruct (ReadToken d) as [t d1| |]; [|done..].
  destruct t; try done. destruct (ReadToken d1) as [t d2| |]; [|done..].
  apply bind_Ok_inv in H as ([v d3] & Hv & H). apply bind_Ok_inv in H as ([l' d4] & H3 & H). injection H as <- <-.
  apply Forall_cons in Hl as [Hp Hl]. rewrite (Hfg _ _ _ _ Hv Hp). cbn. by rewrite (IH _ _ _ H3 Hl).
Qed.

Lemma read_value_level n : ∀ m, relevels (good m) (read_value n) (read_value m).
Proof.
  induction n as [|n IH]; intros m t d v d' H Hg; destruct t; cbn [read_value] in H; try done; try (by destruct m).
  - apply bind_Ok_inv in H as ([ms d1] & H & [= <- <-]). destruct m as [|m]; [done|]. cbn [read_value].
    rewrite (read_members_level _ _ _ (IH m) _ _ _ _ H); [done|]. destruct Hg as [_ Hg]. eapply Forall_impl; [exact Hg|]. by intros ? [].
  - apply bind_Ok_inv in H as ([l d1] & H & [= <- <-]). destruct m as [|m]; [done|]. cbn [read_value].
    by rewrite (read_elems_level _ _ _ (IH m) _ _ _ _ H).
Qed.

Lemma read_text_level n m src v : read_text n src = Ok v → good m v → read_text m src = Ok v.
Proof.
  unfold read_text. destruct (ReadToken _) as [t d| |]; [|done..]. intros H Hg. apply bind_Ok_inv in H as ([v' d1] & Hv & H).
  assert (v' = v) as -> by (destruct (ReadToken d1); try done; by injection H).
  by rewrite (read_value_level _ _ _ _ _ _ Hv Hg).
Qed.

Lemma MaxDepth_nesting : (MaxDepth ≤ maxNestingDepth)%nat.
Proof. unfold MaxDepth, maxNestingDepth. lia. Qed.

Lemma decode_canon v c : good MaxDepth v → canon v = Ok c → json_decode c = Some (norm v).
Proof.
  intros Hg Hc. pose proof (read_canon v c Hg Hc) as Hr. cbn -[read_text maxNestingDepth].
  rewrite (read_text_level _ maxNestingDepth _ _ Hr); [done|]. eapply good_mono, read_text_good, Hr. apply MaxDepth_nesting.
Qed.

(** The value of a text does not depend on the depth that is allowed. *)
Lemma read_text_det n m src v w : read_text n src = Ok v → read_text m src = Ok w → v = w.
Proof.
  assert (∀ k u, read_text k src = Ok u → read_text (k `max` (n `max` m)) src = Ok u) as Hup.
  { intros k u Hu. eapply read_text_level, good_mono, read_text_good, Hu; [exact Hu|lia]. }
  intros Hv%Hup Hw%Hup. replace (n `max` (n `max` m))%nat with (n `max` m)%nat in Hv by lia.
  replace (m `max` (n `max` m))%nat with (n `max` m)%nat in Hw by lia. congruence.
Qed.

(** Marshalling a value is canonicalizing any text of it. *)
Lemma Marshal_text n src v : read_text n src = Ok v →
  Marshal_value v = match Canonicalize_text src with Ok b => Some b | Err _ => None end.
Proof.
  intros Hr. unfold Marshal_value. destruct (Canonicalize_text src) as [b|] eqn:E.
  - apply Canonicalize_canon in E as (v' & Hv & Hb). rewrite (read_text_det _ _ _ _ _ Hr Hv).
    rewrite decide_True by (by eapply read_text_good). by rewrite Hb.
  - case_decide as Hg; [|done]. destruct (canon v) as [b|] eqn:Hb; [|done].
    rewrite (proj2 (Canonicalize_canon src b)) in E; [done|]. exists v. split; [by eapply read_text_level|done].
Qed.

(** ** Normal values *)

Lemma good_norm lvl : ∀ v, good lvl v → good lvl (norm v).
Proof.
  induction lvl as [|lvl IH]; intros [] Hg; cbn in *; try done.
  - apply Forall_fmap. eapply Forall_impl; [exact Hg|]. exact IH.
  - destruct Hg as [Hn Hg]. rewrite stable_sort_perm. split; [by rewrite <-list_fmap_compose|].
    apply Forall_fmap. eapply Forall_impl; [exact Hg|]. intros m [? ?]. split; [done|]. by apply IH.
Qed.

Lemma MaxDepth_S : ∃ n, MaxDepth = S n.
Proof. by eexists. Qed.

(** A value that can stand inside a document: it is in normal form and it can be printed. *)
Definition inner (v : json) : Prop := ∃ n x b, MaxDepth = S n ∧ good n x ∧ canon x = Ok b ∧ v = norm x.

Lemma inner_spec v : inner v → (∃ n, MaxDepth = S n ∧ good n v) ∧ (∃ b, canon v = Ok b) ∧ norm v = v.
Proof.
  intros (n & x & b & En & Hg & Hb & ->). pose proof (good_norm _ _ Hg) as Hn. split; [eauto|].
  assert (∀ y, good n y → good MaxDepth y) as Hup by (intros y; apply good_mono; lia).
  pose proof (canon_norm _ _ _ Hg Hb) as Hc. split; [eauto|].
  pose proof (read_canon _ _ (Hup _ Hg) Hb) as H1. pose proof (read_canon _ _ (Hup _ Hn) Hc) as H2. congruence.
Qed.

Lemma inner_empty : inner (JObj []).
Proof.
  assert (canon (JObj []) = Ok [123; 125]) as Hc by (vm_compute; reflexivity).
  assert (norm (JObj []) = JObj []) as Hn by (vm_compute; reflexivity).
  assert (∀ n, good (S n) (JObj [])) as Hg by (intros n; split; constructor).
  exists (pred MaxDepth), (JObj []), [123; 125]. split_and!; [done|exact (Hg _)|done|done].
Qed.

Lemma inner_members ms c : good MaxDepth (JObj ms) → canon (JObj ms) = Ok c →
  ∃ ms', norm (JObj ms) = JObj ms' ∧ Forall (λ m, inner m.2) ms'.
Proof.
  destruct MaxDepth_S as [k Ek]. rewrite Ek. intros [_ Hg] Hc. eexists. split; [reflexivity|]. rewrite stable_sort_perm. apply Forall_fmap.
  rewrite canon_obj in Hc. apply bind_Ok_inv in Hc as (parts & Hp & _). apply canon_members_Forall2 in Hp.
  rewrite Forall_forall in *. intros [n x] Hin. destruct (Hg _ Hin) as [_ Hx].
  apply list_elem_of_lookup in Hin as [i Hi]. destruct (Forall2_lookup_l _ _ _ _ _ Hp Hi) as (p & _ & b & Hb & _).
  by exists k, x, b.
Qed.

(** ** Envelopes of canonical bytes *)

Record renderable (env : declarationEnvelope) : Prop := {
  rd_type : valid_utf8 (env_Type env);
  rd_identifier : valid_utf8 (env_Identifier env);
  rd_payload : inner (payload_of env) }.

Lemma as_string_valid v s : inner v → as_string v = Some s → valid_utf8 s.
Proof. intros [(n & _ & Hg) _]%inner_spec. destruct v; try done; cbn; intros [= <-]; [apply valid_nil|by destruct n]. Qed.

Lemma members_renderable strict ms : Forall (λ m, inner m.2) ms → ∀ e env, renderable e →
  envelope_members strict ms e = Some env → renderable env.
Proof.
  induction 1 as [|[n v] ms Hv _ IH]; intros e env He H; cbn in H; [by injection H as <-|]. destruct He as [H1 H2 H3]. cbn in Hv.
  repeat case_bool_decide.
  1-3: destruct (as_string v) as [s|] eqn:Hs; [|done]; cbn [mbind option_bind] in H; refine (IH _ _ _ H); split; cbn; eauto using as_string_valid.
  - eapply IH, H. by split.
  - destruct strict; [done|]. eapply IH, H. by split.
Qed.

Lemma canon_split v c env : good MaxDepth v → canon v = Ok c → splitCanonical c = Ok env → renderable env.
Proof.
  intros Hg Hc. unfold splitCanonical. rewrite (decode_canon _ _ Hg Hc). cbn [mbind option_bind].
  destruct (decode_envelope false (norm v)) as [e|] eqn:E; [|done]. intros [= <-].
  assert (renderable noEnvelope) as H0 by (split; [apply valid_nil|apply valid_nil|apply inner_empty]).
  destruct v as [| | | | |ms]; try done; [by injection E as <-|]. destruct (inner_members ms c Hg Hc) as (ms' & En & Hin).
  rewrite En in E. by eapply members_renderable.
Qed.

(** ** Rendering *)

(** The document a device receives. *)
Definition served_document (env : declarationEnvelope) (token : bytes) : json :=
  JObj [(bs "Identifier", JStr (env_Identifier env)); (bs "Payload", payload_of env);
        (bs "ServerToken", JStr token); (bs "Type", JStr (env_Type env))].

Lemma document_marshals env token : renderable env → valid_utf8 token →
  ∃ body, Marshal_value (served_document env token) = Some body ∧ json_decode body = Some (served_document env token).
Proof.
  intros [H1 H2 ((k & Ek & Hg) & (b & Hb) & Hn)%inner_spec] Ht. set (w := served_document env token).
  assert (good MaxDepth w) as Hw.
  { rewrite Ek. split; [apply (bool_decide_unpack _); vm_compute; exact I|].
    assert (∀ s, valid_utf8 s → good k (JStr s)) as Hs by (intros s; by destruct k).
    repeat (apply Forall_cons; split; [split; [apply (bool_decide_unpack _); vm_compute; exact I|by try apply Hs]|]). constructor. }
  assert (norm w = w) as Hnw.
  { unfold w, served_document. cbn [norm fmap list_fmap fst snd]. rewrite Hn. done. }
  assert (∃ body, canon w = Ok body) as [body Hbody].
  { unfold w, served_document. rewrite canon_obj. cbn [canon_members]. rewrite Hb. cbn. eauto. }
  exists body. split.
  - unfold Marshal_value. by rewrite decide_True, Hbody.
  - rewrite <-Hnw. by apply decode_canon.
Qed.

Lemma ascii_text_valid s : Forall (λ c, 0 ≤ c < 128) s → valid_utf8 s.
Proof.
  induction 1 as [|c s Hc _ IH]; [apply valid_nil|]. change (valid_utf8 ([c] ++ s)). apply valid_app; [by apply ascii_valid|done].
Qed.

Lemma TokenFor_valid c : valid_utf8 (TokenFor c).
Proof.
  apply ascii_text_valid. destruct (Sum256_spec c) as [_ Hb]. destruct (hex_spec (Sum256 c) Hb) as [Hx _].
  eapply Forall_impl; [exact Hx|]. unfold is_hex. lia.
Qed.

(** The bytes stored for a declaration: the document of an envelope with its identifier. *)
Definition document_of (i c : bytes) : Prop := ∃ env, splitCanonical c = Ok env ∧ env_Identifier env = i ∧ renderable env.

Lemma document_renders i c token : document_of i c → valid_utf8 token →
  ∃ env body, splitCanonical c = Ok env ∧ env_Identifier env = i ∧
    RenderDeclaration c token = Ok body ∧ json_decode body = Some (served_document env token).
Proof.
  intros (env & Hs & Hi & Hr) Ht. destruct (document_marshals env token Hr Ht) as (body & Hm & Hd). exists env, body.
  split_and!; [done|done| |done]. unfold RenderDeclaration. rewrite Hs. cbn [mbind result_bind].
  change (json_encode ?v) with (Marshal_value v). fold (served_document env token). by rewrite Hm.
Qed.

Lemma canonical_document i typ payload c : canonicalDeclaration i typ payload = Ok c → document_of i c.
Proof.
  unfold canonicalDeclaration. change (json_encode ?v) with (Marshal_value v). unfold Marshal_value.
  case_decide as Hg; [|done]. destruct (canon _) as [b|] eqn:Hc; [|done]. intros [= <-]. pose proof (decode_canon _ _ Hg Hc) as Hd.
  assert (∃ e, splitCanonical b = Ok e ∧ env_Identifier e = i) as (e & He & Hi).
  { unfold splitCanonical. rewrite Hd. cbn [norm fmap list_fmap fst snd]. eexists. split; reflexivity. }
  exists e. split_and!; [done|done|by eapply canon_split].
Qed.

Lemma parsed_document {DS : DdmSchema} doc target d : parseDeclaration doc target = Ok d → document_of (d_Identifier d) (Canonical d).
Proof.
  unfold parseDeclaration. destruct (_ ≫= _) as [env|]; [|done]. intros H.
  apply bind_Ok_inv in H as (? & _ & H). apply bind_Ok_inv in H as (? & _ & H). apply bind_Ok_inv in H as (? & _ & H).
  apply bind_Ok_inv in H as (? & _ & H). apply bind_Ok_inv in H as (c & Hc & H). injection H as <-. by eapply canonical_document.
Qed.

Lemma expanded_document out c env : Canonicalize out = Some c → splitCanonical c = Ok env → document_of (env_Identifier env) c.
Proof.
  intros H Hs. assert (Canonicalize_text out = Ok c) as Hc by (cbn -[Canonicalize_text] in H; destruct (Canonicalize_text out); congruence).
  apply Canonicalize_canon in Hc as (v & Hv & Hc). apply read_text_good in Hv. exists env. split_and!; [done|done|by eapply canon_split].
Qed.

(** ** What is advertised is what is served *)

Section Advertised.
Context {DS : DdmSchema}.
Hypothesis subscriptions_kind : lookupType DeclarationTypeManagementStatusSubscriptions = Ok KindConfiguration.
Hypothesis activation_kind : lookupType DeclarationTypeActivationSimple = Ok KindActivation.

(** C22 A device that got its manifest fetches every item of it, as advertised, under three
    conditions: the declaration of the item is not deleted meanwhile; the enrollment neither
    asks for another manifest nor leaves; and, if the engine withholds declarations by the
    target of the enrollment, the target still passes the manifest as it is (otherwise the
    fetch makes a new one). Whatever administrators, other devices and notifications do
    besides, the answer is a document, it reads as the declaration with the identifier asked
    for and the token that was advertised, and that token is the hash of the bytes it was
    rendered from. *)
Theorem advertised_is_served e id now evs snap st' evs' it now' :
  refreshSnapshot e id now (history evs) = (Ok snap, st') → it ∈ sn_Items snap →
  Forall (quiet (Identifier (Ref it)) (ID id)) evs'.*2 →
  let later := foldl happens st' evs' in still_compatible e id snap later →
  ∃ c env body, ServerToken (Ref it) = TokenFor c ∧ splitCanonical c = Ok env ∧ env_Identifier env = Identifier (Ref it) ∧
    Engine_Declaration e id (r_Kind (Ref it)) (Identifier (Ref it)) now' later = (Ok body, later) ∧
    json_decode body = Some (served_document env (ServerToken (Ref it))).
Proof.
  intros Hr Hin Hq later Hcomp.
  destruct (advertised_served subscriptions_kind activation_kind document_of (λ doc t d, parsed_document doc t d) canonical_document expanded_document
              e id now evs snap st' evs' it now' Hr Hin Hq Hcomp) as (c & [Ht Hc] & E).
  assert (valid_utf8 (ServerToken (Ref it))) as Hv by (rewrite Ht; apply TokenFor_valid).
  destruct (document_renders _ _ _ Hc Hv) as (env & body & Hs & Hi & Hb & Hd). exists c, env, body.
  split_and!; [done|done|done| |done]. by rewrite <-Hb.
Qed.

(** Without targets the manifest always stands. *)
Lemma unfiltered_stands e id snap st : enrollmentTarget e = None → still_compatible e id snap st.
Proof. unfold still_compatible, deliveryTarget. by intros ->. Qed.
End Advertised.

(** A small schema: everything but the simple activation is a configuration. *)
#[local] Instance two_kinds : DdmSchema := {|
  ByID t := if bool_decide (t = DeclarationTypeActivationSimple) then [KindActivation] else [KindConfiguration];
  payload_valid _ _ _ := true; availability _ _ _ := []; activation_predicate _ := None;
  AssetReferences _ := []; status_Registry := []; supported_status_items _ := None |}.

Definition sample_release : Target := mkTarget MacOS (New 26 0 0) Support.ChannelDevice true false false true true.
Definition sample_engine : Engine := mkEngine [] None sample_release (Some (λ _, Ok sample_release)) false [] [].

(** An engine that withholds by target. A device gets its manifest with the first revision of
    [a]; then the declaration is replaced,
    unassigned, and old versions are pruned; the device still fetches the first. *)
Definition first_text : bytes := jtext "{'Type': 'com.example.test', 'Identifier': 'a', 'Payload': {'On': true, 'Name': 'x'}}".
Definition second_text : bytes := jtext "{'Type': 'com.example.test', 'Identifier': 'a'}".
Definition first_stored : bytes := jtext "{'Identifier':'a','Payload':{'Name':'x','On':true},'Type':'com.example.test'}".
Definition before_events : list (Time * event) :=
  [(1, EAdmin (APutDeclaration sample_engine first_text)); (2, EAdmin (AAssignDeclaration sample_device (bs "a")))].
Definition after_events : list (Time * event) :=
  [(4, EAdmin (APutDeclaration sample_engine second_text)); (5, EAdmin (AUnassignDeclaration sample_device (bs "a")));
   (6, EAdmin APruneVersions)].
Definition first_token : bytes := TokenFor first_stored.
Definition first_item : SnapshotItem := mkItem (mkRef KindConfiguration (bs "a") first_token) first_token None.

Lemma advertised_is_served_witness :
  let '(_, st') := refreshSnapshot sample_engine sample_device 3 (history before_events) in
  ∃ c env body, first_token = TokenFor c ∧ splitCanonical c = Ok env ∧ env_Identifier env = bs "a" ∧
    (Engine_Declaration sample_engine sample_device KindConfiguration (bs "a") 7 (foldl happens st' after_events)).1 = Ok body ∧
    json_decode body = Some (served_document env first_token).
Proof.
  assert (match (refreshSnapshot sample_engine sample_device 3 (history before_events)).1 with Ok s => sn_Items s | Err _ => [] end = [first_item]) as Hi
    by (vm_compute; reflexivity).
  assert (lookupType DeclarationTypeManagementStatusSubscriptions = Ok KindConfiguration) as Hs by (vm_compute; reflexivity).
  assert (lookupType DeclarationTypeActivationSimple = Ok KindActivation) as Ha by (vm_compute; reflexivity).
  assert (match refreshSnapshot sample_engine sample_device 3 (history before_events) with
          | (Ok snap, st') =>
              match filterCompatible (foldl happens st' after_events) (sn_Items snap) sample_release with
              | Ok (items, _) => bool_decide (Ref <$> items = Ref <$> sn_Items snap) | Err _ => false end
          | _ => false end = true) as Hf by (vm_compute; reflexivity).
  destruct (refreshSnapshot sample_engine sample_device 3 (history before_events)) as [[snap|] st'] eqn:Hr; [|discriminate Hi].
  assert (first_item ∈ sn_Items snap) as Hin by (cbn in Hi; rewrite Hi; by left).
  destruct (advertised_is_served Hs Ha sample_engine sample_device 3 before_events snap st' after_events first_item 7
              Hr Hin) as (c & env & body & Hc & He & Hid & E & Hd); [by repeat constructor| |].
  { unfold still_compatible. cbn [deliveryTarget enrollmentTarget sample_engine].
    destruct (filterCompatible (foldl happens st' after_events) (sn_Items snap) sample_release) as [[items issues]|] eqn:Ef; [|discriminate Hf].
    exists items, issues. split; [reflexivity|]. by apply bool_decide_eq_true in Hf. }
  exists c, env, body. split_and!; [exact Hc|exact He|exact Hid|exact (f_equal fst E)|exact Hd].
Defined.
