(* ===== verification/DdmReports.v ===== *)
(** * What a status report leaves

    The rows a report stores are the last it names for each declaration, with the time each
    was first reported; a report that carries the declarations item replaces the rows, a
    full report replaces the values. Two further theorems show behaviours that the code
    does not mean: a page of rows that ends inside an enrollment hides the enrollment's
    other rows, and a report that spells the declarations item in two ways is refused. *)
From S2P Require Import Prelude GoStrings OsVersion Support Mdm Storage Sha256 Json DdmTypes DdmStore DdmDecl DdmEngine DdmStatus DdmInv.

(** ** Rows *)

(** The last of [l] under the key [q]. *)
Definition last_with {A K} `{EqDecision K} (key : A → K) (q : K) (l : list A) : option A := last (filter (λ x, key x = q) l).

Lemma last_with_snoc {A K} `{EqDecision K} (key : A → K) q l x :
  last_with key q (l ++ [x]) = if decide (key x = q) then Some x else last_with key q l.
Proof.
  unfold last_with. rewrite filter_app, filter_cons, filter_nil. case_decide; [by rewrite last_snoc|by rewrite app_nil_r].
Qed.

Lemma last_with_None {A K} `{EqDecision K} (key : A → K) q l : last_with key q l = None ↔ q ∉ key <$> l.
Proof.
  unfold last_with. rewrite last_None, list_elem_of_fmap. split.
  - intros H (x & -> & Hx). assert (x ∈ filter (λ y, key y = key x) l) as Hf by (by apply list_elem_of_filter). rewrite H in Hf. by apply elem_of_nil in Hf.
  - intros H. apply filter_none, Forall_forall. intros x Hx Hk. apply H. eauto.
Qed.

(** What a row becomes: it keeps the time of the stored one. *)
Definition stamped (at_ : Time) (old : option DeclarationStatus) (d : DeclarationStatus) : DeclarationStatus :=
  d <| FirstSeen := match old with Some cur => FirstSeen cur | None => at_ end |> <| LastSeen := at_ |>.
Definition stamped_value (at_ : Time) (old : option StatusValue) (v : StatusValue) : StatusValue :=
  v <| sv_FirstSeen := match old with Some cur => sv_FirstSeen cur | None => at_ end |> <| sv_LastSeen := at_ |>.

Lemma upsert_lookup at_ ds rows q :
  foldl (upsert_declaration at_) rows ds !! q =
  match last_with status_key q ds with Some d => Some (stamped at_ (rows !! q) d) | None => rows !! q end.
Proof.
  induction ds as [|d ds IH] using rev_ind; [done|]. rewrite foldl_snoc, last_with_snoc. unfold upsert_declaration at 1.
  destruct (decide (status_key d = q)) as [<-|Hne]; [|by rewrite lookup_insert_ne].
  rewrite lookup_insert_eq, IH. f_equal. unfold stamped. by destruct (last_with _ _ ds), (rows !! status_key d).
Qed.

Lemma upsert_value_lookup at_ vs rows q :
  foldl (upsert_value at_) rows vs !! q =
  match last_with Path q vs with Some v => Some (stamped_value at_ (rows !! q) v) | None => rows !! q end.
Proof.
  induction vs as [|v vs IH] using rev_ind; [done|]. rewrite foldl_snoc, last_with_snoc. unfold upsert_value at 1.
  destruct (decide (Path v = q)) as [<-|Hne]; [|by rewrite lookup_insert_ne].
  rewrite lookup_insert_eq, IH. f_equal. unfold stamped_value. by destruct (last_with _ _ vs), (rows !! Path v).
Qed.

(** A map restricted to the keys of a list. *)
Lemma restrict_lookup {K A} `{Countable K} (m : gmap K A) (l : list K) q :
  filter (λ '(k, _), k ∈ (list_to_set l : gset K)) m !! q = if decide (q ∈ l) then m !! q else None.
Proof.
  case_decide as Hq.
  - destruct (m !! q) as [x|] eqn:E; [apply map_lookup_filter_Some; by rewrite elem_of_list_to_set|by apply map_lookup_filter_None; left].
  - apply map_lookup_filter_None. right. intros x _. by rewrite elem_of_list_to_set.
Qed.

Definition rows_of (id : EnrollmentID) (st : state) : gmap (Kind * bytes) DeclarationStatus := default ∅ (statusDecls st !! ID id).
Definition values_of (id : EnrollmentID) (st : state) : gmap bytes StatusValue := default ∅ (statusValues st !! ID id).

(** After a report the stored state of a declaration is the last the report names for it, with
    the time it was first reported; what the report does not name is kept, unless the report
    carries the declarations item, which replaces them all. The values at status paths are
    replaced in the same way by a full report. The rows of other enrollments and everything
    that is not status are untouched. *)
Theorem PutStatus_rows id u st out st' : PutStatus id u st = Ok (out, st') →
  (∀ q, rows_of id st' !! q =
     match last_with status_key q (Declarations u) with
     | Some d => Some (stamped (ReceivedAt u) (rows_of id st !! q) d)
     | None => if HasDeclarations u then None else rows_of id st !! q
     end) ∧
  (∀ p, values_of id st' !! p =
     match last_with Path p (Values u) with
     | Some v => Some (stamped_value (ReceivedAt u) (values_of id st !! p) v)
     | None => if FullReport u then None else values_of id st !! p
     end) ∧
  (∀ other, ID other ≠ ID id → rows_of other st' = rows_of other st ∧ values_of other st' = values_of other st) ∧
  same_core st st' ∧ changes st' = changes st.
Proof.
  intros [_ [Hcore _ Hd Hv Hc _]]%PutStatus_inv. unfold rows_of, values_of. rewrite Hd, Hv. split_and!; [| | |done|done].
  - intros q. rewrite lookup_insert_eq. cbn [default from_option Datatypes.id]. unfold status_rows_after.
    destruct (HasDeclarations u); [rewrite restrict_lookup; case_decide as Hq|]; rewrite ?upsert_lookup.
    + destruct (last_with _ _ _) eqn:E; [done|]. by apply last_with_None in E.
    + by apply last_with_None in Hq as ->.
    + done.
  - intros q. rewrite lookup_insert_eq. cbn [default from_option Datatypes.id]. unfold status_values_after.
    destruct (FullReport u); [rewrite restrict_lookup; case_decide as Hq|]; rewrite ?upsert_value_lookup.
    + destruct (last_with _ _ _) eqn:E; [done|]. by apply last_with_None in E.
    + by apply last_with_None in Hq as ->.
    + done.
  - intros other Ho. by rewrite !lookup_insert_ne.
Qed.

(** ** Samples *)

Definition phone : EnrollmentID := mkID ChannelDevice (bs "P") [].
Definition row (kind identifier : bytes) (active : bool) : DeclarationStatus :=
  mkDStatus kind identifier (bs "t") active (bs "valid") None 0 0.
Definition report_at (at_ : Time) (ds : list DeclarationStatus) : StatusUpdate := mkUpdate [] at_ false true ds [] [] 0.

Lemma PutStatus_rows_witness :
  let st := performed [CPutStatus phone (report_at 3 [row KindAsset (bs "a") false; row KindAsset (bs "b") true])] in
  match PutStatus phone (report_at 5 [row KindAsset (bs "a") false; row KindAsset (bs "a") true]) st with
  | Ok (_, st') =>
      rows_of phone st' !! (KindAsset, bs "a") = Some ((row KindAsset (bs "a") true) <| FirstSeen := 3 |> <| LastSeen := 5 |>) ∧
      rows_of phone st' !! (KindAsset, bs "b") = None
  | Err _ => False
  end.
Proof.
  intros st. destruct (PutStatus phone _ st) as [[out st']|] eqn:H; [|vm_compute in H; discriminate H].
  destruct (PutStatus_rows phone _ st out st' H) as [Hr _]. rewrite !Hr. split; vm_compute; reflexivity.
Defined.

(** ** Paging of the rows of an identifier *)

(** A device reports the same identifier as a configuration and as an asset. *)
Definition two_kinds : state :=
  performed [CPutStatus phone (report_at 3 [row KindAsset (bs "a") true; row KindConfiguration (bs "a") true])].

(** Pages of one row: the first page ends between the two rows of the device, and its cursor
    names the device, so the page that follows is empty and the listing ends. The second row
    is served on no page, though a larger page shows both. *)
Theorem status_page_skips :
  ∃ first, DeclarationStatusByIdentifier (bs "a") (mkPage [] 1) two_kinds = Ok (mkPageResult [first] (bs "P")) ∧
    DeclarationStatusByIdentifier (bs "a") (mkPage (bs "P") 1) two_kinds = Ok (mkPageResult [] []) ∧
    match DeclarationStatusByIdentifier (bs "a") (mkPage [] 2) two_kinds with
    | Ok all => length (Items all) = 2%nat ∧ NextCursor all = []
    | Err _ => False
    end.
Proof. eexists. split_and!; vm_compute; repeat split. Qed.

(** ** One item spelled in two ways *)

(** Values stand for their own texts here: [decode_rows] reads a string as the identifier of
    one configuration. *)
Section TwoSpellings.
#[local] Instance strings_codec : JsonCodec := {|
  json_decode raw := Some (JStr raw); json_encode v := match v with JStr s => Some s | _ => Some [] end; Canonicalize raw := Some raw |}.
#[local] Instance strings_status : StatusSchema := {|
  isStatusItem p := bool_decide (p = StatusItemDeclarations);
  decode_report _ := None;
  decode_rows v := match v with JStr s => Some ([], [mkStatusRow s [] true (bs "valid") []], [], []) | _ => None end;
  checkStatusStructure _ := Ok tt |}.

(** [{"management": {"declarations": a}, "management.declarations": b}] *)
Definition two_spellings : json :=
  JObj [(bs "management", JObj [(bs "declarations", JStr (bs "a"))]); (StatusItemDeclarations, JStr (bs "b"))].

(** Both reach the item of the declarations. The second resets the rows but not their order,
    so the rows handed to the store have one without identifier, and the store refuses the
    whole report. *)
Theorem two_spellings_refused :
  ∃ w, w_all 7 ∅ (walk [] two_spellings) (mkWalker [] ∅ [] false) = Ok w ∧
    map st_Identifier (w_declarations w) = [[]; bs "b"] ∧
    ∀ id body full keep st, validID id st = Ok tt →
      PutStatus id (mkUpdate body 7 full (w_hasDeclarations w) (w_declarations w) (w_values w) [] keep) st = Err [ErrInvalid].
Proof.
  eexists. split; [vm_compute; reflexivity|]. split; [vm_compute; reflexivity|].
  intros id body full keep st Hv. unfold PutStatus. rewrite Hv. reflexivity.
Qed.
End TwoSpellings.
