(* ===== verification/ServiceBase.v ===== *)
(** * The device service: errors, effects and configuration [server/service]

    The service stands between the transports and the store: it authorizes requests, runs
    hooks, changes the store and publishes events. Its operations make several store calls
    and can fail between them, so an operation is a [srv]: a result and the world it
    leaves. The world is the store, the events published so far and the number of clock
    readings. Contexts and log lines are not modelled, and a hook is what it decides. *)
From S2P Require Import Prelude GoStrings OsVersion Support Validation Mdm Storage Replacement InMem.

(** ** Errors *)

(* @src server/service/service.go 28-39 Code *)
Inductive Code :=
| CodeInternal | CodeBadRequest | CodeForbidden | CodeUnknownEnrollment | CodeNotImplemented | CodeGone | CodeUnavailable.
#[export] Instance Code_eq_dec : EqDecision Code.
Proof. solve_decision. Defined.

(** What [errors.Is] recognises in an error; errors of callbacks may carry one of their own. *)
(* @src server/service/service.go 73-85 sentinel errors *)
Inductive sentinel :=
| ErrUnknownEnrollment | ErrCertRequired | ErrCertMismatch | ErrReenrollDenied | ErrNoHandler | ErrInvalidMessage
| ErrHookVeto | ErrCertReused | ErrUnsupportedTarget | ErrUserNotManaged | ErrUserAuthRequired | ErrNoChallenge
| ErrBadDigest | ErrCapture | ErrConfig | OutOfFuel | IsStorage (e : serr) | IsMdm (e : merr) | IsForeign (n : nat).
#[export] Instance sentinel_eq_dec : EqDecision sentinel.
Proof. solve_decision. Defined.

(** A chain of errors: the code of the outermost [*Error] in it, if there is one. *)
(* @src server/service/service.go 42-45 Error *)
Record error := mkError { err_Code : option Code; err_Is : list sentinel }.
#[export] Instance error_eq_dec : EqDecision error.
Proof. solve_decision. Defined.
Definition plain (l : list sentinel) : error := mkError None l.
Definition errors_Is (e : error) (s : sentinel) : bool := bool_decide (s ∈ err_Is e).

(* @src server/service/service.go - CodeOf *)
Definition CodeOf (e : error) : Code :=
  if errors_Is e ErrCapture then CodeUnavailable else default CodeInternal (err_Code e).

(* @src server/service/service.go - wrapCode *)
Definition wrapCode (c : Code) (e : error) : error := mkError (Some c) (err_Is e).

(* @src server/service/service.go - codeForStorage *)
Definition codeForStorage (e : serr) : Code :=
  match e with
  | ErrNotFound => CodeUnknownEnrollment
  | ErrInvalid => CodeBadRequest
  | ErrConflict | ErrDisabled => CodeForbidden
  | ErrCanceled => CodeInternal
  end.

(** A storage error as the service reports it. *)
Definition storageError (e : serr) : error := wrapCode (codeForStorage e) (plain [IsStorage e]).
Definition internal (e : serr) : error := wrapCode CodeInternal (plain [IsStorage e]).

(** ** Events *)

(* @src devicemanagement/mdmprotocol/event/event.go 16-48 event types *)
Inductive EventType :=
| IdentityRejected | CertificateStatusRejected | Enrolled | Reenrolled | TokenUpdated | CheckedOut | CertRotated
| CommandQueued | CommandSent | CommandRejected | CommandResult | BootstrapTokenSet | CertReuseDenied
| EnrollmentImported | UserAuthenticated | UserAuthFailed.
#[export] Instance EventType_eq_dec : EqDecision EventType.
Proof. solve_decision. Defined.
(** The detail an event carries. *)
Inductive EventData :=
| NoData | DAuthenticate (m : Authenticate) | DTokenUpdate (m : TokenUpdate) | DCommand (c : Command)
| DResponse (r : Response) | DHash (h : bytes) | DHolders (l : list CertAssociation) | DUser (u : bytes)
| DRejected (uuid requestType reason : bytes) | DID (id : EnrollmentID).
(* @src devicemanagement/mdmprotocol/event/event.go 78-89 Event *)
Record Event := mkEvent { ev_Type : EventType; ev_At : Time; ev_Enrollment : EnrollmentID; ev_Actor : bytes; ev_Data : EventData }.

(** ** The world *)

Record world := mkWorld { w_store : Store; w_events : list Event; w_tick : nat }.
#[export] Instance world_eta : Eta world := λ w, mkWorld (w_store w) (w_events w) (w_tick w).

Definition srv (A : Type) : Type := world → result error A * world.
#[export] Instance srv_ret : MRet srv := λ A a w, (Ok a, w).
#[export] Instance srv_bind : MBind srv := λ A B f m w,
  match m w with (Ok a, w') => f a w' | (Err e, w') => (Err e, w') end.

Definition fail {A} (e : error) : srv A := λ w, (Err e, w).
Definition lift {A} (r : result error A) : srv A := λ w, (r, w).
(** The early return [if c { return e }]. *)
Definition guard (c : bool) (e : error) : srv unit := λ w, (if c then Err e else Ok tt, w).
(** A call that reads the store, with its error as a value. *)
Definition ask {A} (f : Store → result serr A) : srv (result serr A) := λ w, (Ok (f (w_store w)), w).
(** A call that may change the store. *)
Definition call {A} (f : Store → result serr (A * Store)) : srv (result serr A) := λ w,
  match f (w_store w) with
  | Ok (a, s') => (Ok (Ok a), w <| w_store := s' |>)
  | Err e => (Ok (Err e), w)
  end.
(** The result of a store call, or its error as [report] wraps it. *)
Definition orelse {A} (r : result serr A) (report : serr → error) : srv A := λ w,
  (match r with Ok a => Ok a | Err e => Err (report e) end, w).
(** The error of an operation as a value. *)
Definition attempt {A} (m : srv A) : srv (result error A) := λ w, let '(r, w') := m w in (Ok r, w').
(** A reading of a clock. *)
Definition tick (clock : nat → Time) : srv Time := λ w, (Ok (clock (w_tick w)), w <| w_tick := S (w_tick w) |>).

Lemma srv_bind_Ok {A B} (m : srv A) (f : A → srv B) w b w' :
  (m ≫= f) w = (Ok b, w') → ∃ a w1, m w = (Ok a, w1) ∧ f a w1 = (Ok b, w').
Proof. unfold mbind, srv_bind. destruct (m w) as [[a|] w1]; [eauto|done]. Qed.

Definition emit (e : Event) : srv unit := λ w, (Ok tt, w <| w_events := w_events w ++ [e] |>).

(** ** Configuration *)

(* @src server/service/service.go 88-99 PinMode *)
Inductive PinMode := PinEnforce | PinWarn | PinOff.
#[export] Instance PinMode_eq_dec : EqDecision PinMode.
Proof. solve_decision. Defined.

(* @src server/service/service.go 102-108 DMResponse *)
Record DMResponse := mkDMResponse { dm_Body : bytes; dm_ContentType : bytes; dm_Status : Z }.
(* @src devicemanagement/schema/checkin/types.gen.go 189-220 ReturnToServiceResponse *)
Record ReturnToServiceResponse := mkRTS {
  rts_PreserveDataPlan : option bool; rts_Enabled : bool; rts_WiFiProfileData : bytes; rts_MDMProfileData : bytes;
  rts_BootstrapToken : bytes; rts_ShouldRetryEnrollment : option bool }.
#[export] Instance RTS_eta : Eta ReturnToServiceResponse := λ r,
  mkRTS (rts_PreserveDataPlan r) (rts_Enabled r) (rts_WiFiProfileData r) (rts_MDMProfileData r) (rts_BootstrapToken r)
    (rts_ShouldRetryEnrollment r).
Definition noRTS : ReturnToServiceResponse := mkRTS None false [] [] [] None.

(* @src devicemanagement/mdmprotocol/dmhook/dmhook.go 10-23 Call *)
Record Call := mkCall {
  cl_Op : bytes; cl_Request : option Request; cl_Checkin : option Checkin; cl_Response : option Response;
  cl_Command : option Command; cl_Authenticate : option AuthenticateResult }.
#[export] Instance Call_eta : Eta Call := λ c,
  mkCall (cl_Op c) (cl_Request c) (cl_Checkin c) (cl_Response c) (cl_Command c) (cl_Authenticate c).
(** [Before] may veto; a hook that implements [Completer] may fail a successful check-in. What
    [After] observes has no effect here. *)
(* @src devicemanagement/mdmprotocol/dmhook/dmhook.go 36-51 Hook *)
Record Hook := mkHook { Before : Call → result error unit; Complete : option (Call → result error unit) }.

(** Handlers and policies answer from their own state. [UserAuthenticate] may use the store. *)
(* @src server/service/service.go 174-234 Config *)
Record Config := mkConfig {
  cfg_ObserveResult : option (EnrollmentID → Response → Time → result error unit);
  cfg_ObserveEnrollment : option (EnrollmentID → result error unit);
  cfg_ObserveAuthenticate : option (Request → Checkin → Time → result error unit);
  cfg_ObserveCertificate : option (EnrollmentID → Certificate → Time → result error unit);
  cfg_EnableReplacements : bool;
  cfg_Bus : bool;
  cfg_Clock : nat → Time;
  cfg_Wall : nat → Time;
  cfg_Hooks : list Hook;
  cfg_CertificateStatus : option (option Certificate → result error unit);
  cfg_Pinning : PinMode;
  cfg_Reenroll : option (Request → Enrollment → result error unit);
  cfg_CertReuse : option (Request → list CertAssociation → result error unit);
  cfg_RequireUserAuth : bool;
  cfg_ValidateTargets : option bool;
  cfg_DeclarativeManagement : option (Request → Checkin → bytes → bytes → result error DMResponse);
  cfg_GetToken : option (Request → bytes → result error bytes);
  cfg_UserAuthenticate : option (Request → UserAuthenticate → srv UserAuthenticateResponse);
  cfg_ReturnToService : option (Request → result error (option ReturnToServiceResponse)) }.

(* @src server/service/service.go 249-270 Core *)
Record Core := mkCore {
  observeResult : option (EnrollmentID → Response → Time → result error unit);
  observeEnrollment : option (EnrollmentID → result error unit);
  observeAuthenticate : option (Request → Checkin → Time → result error unit);
  observeCertificate : option (EnrollmentID → Certificate → Time → result error unit);
  has_replacements : bool;
  has_bus : bool;
  clock : nat → Time;
  wall : nat → Time;
  hooks : list Hook;
  certificateStatus : option (option Certificate → result error unit);
  pinning : PinMode;
  reenroll : Request → Enrollment → result error unit;
  reuse : Request → list CertAssociation → result error unit;
  requireUserAuth : bool;
  validateTargets : bool;
  dm : option (Request → Checkin → bytes → bytes → result error DMResponse);
  getToken : option (Request → bytes → result error bytes);
  userAuthenticate : Request → UserAuthenticate → srv UserAuthenticateResponse;
  returnToService : option (Request → result error (option ReturnToServiceResponse)) }.

(* @src server/service/service.go - AllowReenroll *)
Definition AllowReenroll (_ : Request) (_ : Enrollment) : result error unit := Ok tt.
(* @src server/service/service.go - DenyReenroll *)
Definition DenyReenroll (_ : Request) (_ : Enrollment) : result error unit := Err (plain [ErrReenrollDenied]).
(* @src server/service/service.go - AllowCertReuse *)
Definition AllowCertReuse (_ : Request) (_ : list CertAssociation) : result error unit := Ok tt.
(* @src server/service/service.go - DenyCertReuse *)
Definition DenyCertReuse (_ : Request) (_ : list CertAssociation) : result error unit := Err (plain [ErrCertReused]).
(* @src server/service/service.go - acceptAllUsers *)
Definition acceptAllUsers (_ : Request) (_ : UserAuthenticate) : srv UserAuthenticateResponse :=
  mret (mkUserAuthResponse (Some []) None).

(** The store is given, and it is a replacement store. *)
(* @src server/service/service.go - New *)
Definition Core_New (cfg : Config) : Core :=
  mkCore (cfg_ObserveResult cfg) (cfg_ObserveEnrollment cfg) (cfg_ObserveAuthenticate cfg) (cfg_ObserveCertificate cfg)
    (cfg_EnableReplacements cfg) (cfg_Bus cfg) (cfg_Clock cfg) (cfg_Wall cfg) (cfg_Hooks cfg) (cfg_CertificateStatus cfg)
    (cfg_Pinning cfg) (default DenyReenroll (cfg_Reenroll cfg)) (default DenyCertReuse (cfg_CertReuse cfg))
    (cfg_RequireUserAuth cfg) (default true (cfg_ValidateTargets cfg)) (cfg_DeclarativeManagement cfg) (cfg_GetToken cfg)
    (default acceptAllUsers (cfg_UserAuthenticate cfg)) (cfg_ReturnToService cfg).

(** The bus is in process: it takes the event, and errors of handlers are only logged. *)
(* @src server/service/service.go - Core.publish *)
Definition publish (c : Core) (t : EventType) (id : EnrollmentID) (actor : bytes) (data : EventData) : srv unit :=
  if negb (has_bus c) then mret tt
  else now ← tick (clock c); emit (mkEvent t now id actor data).

(* @src server/service/service.go - Core.runHooks *)
Fixpoint runHooks (hs : list Hook) (cl : Call) : srv unit :=
  match hs with
  | [] => mret tt
  | h :: hs' =>
      match Before h cl with
      | Err e => fail (wrapCode CodeForbidden (plain (ErrHookVeto :: err_Is e)))
      | Ok _ => runHooks hs' cl
      end
  end.

(** A callback that may be missing. *)
Definition observe (r : option (result error unit)) (report : error → error) : srv unit := λ w,
  (match r with Some (Err e) => Err (report e) | _ => Ok tt end, w).

Definition actor_device : bytes := bs "device".
Definition actor_server : bytes := bs "server".
Definition actor_admin : bytes := bs "admin".
