(* ===== verification/Service.v ===== *)
(** * The device service: [server/service]

    Check-ins, connections, queueing and migration, each as the code composes it from
    authorization, hooks, store calls and events. The generated command schema, the
    profile inspector and the property list encoder are the class [CommandSchema]. *)
From S2P Require Import Prelude GoStrings OsVersion Support Validation Mdm Storage Replacement InMem ServiceBase.

(** The answers that are encoded as property lists. *)
Inductive CheckinResponse :=
| GetBootstrapTokenResponse (token : bytes) | ReturnToServiceAnswer (r : ReturnToServiceResponse)
| GetTokenResponse (data : bytes) | UserAuthenticateAnswer (r : UserAuthenticateResponse).

Class CommandSchema := {
  commands_Support : bytes → option Entry;
  ValidateInto : bytes → Collector → Collector;
  InstallProfile_Payload : bytes → option bytes;
  profile_has_error : bytes → Target → bool;
  plist_Marshal : CheckinResponse → option bytes }.

(** [support.Target{}] *)
Definition noTarget : Target := mkTarget [] (OsVersion.New 0 0 0) [] false false false false false.

(** ** Command validation *)

Section Service.
Context {PD : PlistDecoder} {CC : CommandCodec} {CS : CommandSchema}.

(* @src server/service/commandvalidation.go - validateInstallProfileContents *)
Definition install_profile_ok (cmd : Command) (t : Target) : bool :=
  match Payload cmd ≫= InstallProfile_Payload with
  | None => true
  | Some profile => negb (profile_has_error profile t)
  end.

(** Every refusal is [storage.ErrInvalid]. *)
(* @src server/service/commandvalidation.go - validatedCommand *)
Definition validatedCommand (cmd : option Command) : result serr Command :=
  match cmd with
  | None => Err ErrInvalid
  | Some cmd =>
      match DecodeCommand (CmdRaw cmd) with
      | Err _ => Err ErrInvalid
      | Ok decoded =>
          if bool_decide (UUID decoded ≠ UUID cmd) || bool_decide (RequestType decoded ≠ RequestType cmd) then Err ErrInvalid
          else match Payload decoded with
               | None => Ok decoded
               | Some p =>
                   if negb (Collector_ok (ValidateInto p (Collector_New noTarget))) then Err ErrInvalid
                   else if negb (install_profile_ok decoded noTarget) then Err ErrInvalid
                   else Ok decoded
               end
      end
  end.

(** ** Targets *)

(* @src server/service/service.go - deviceChannelOf *)
Definition deviceChannelOf (c : Channel) : Channel :=
  if c =? ChannelUserEnrollmentUser then ChannelUserEnrollmentDevice else Mdm.ChannelDevice.

(* @src server/service/service.go - targetFor *)
Definition targetFor (s : Store) (e : Enrollment) : result serr Target :=
  device ← (if IsUser (IDChannel (e_ID e))
            then Get s (mkID (deviceChannelOf (IDChannel (e_ID e))) (ParentID (e_ID e)) [])
            else Ok e);
  let os := OSFromProduct (ProductName (e_Device device)) in
  let version := match Parse (OSVersion (e_Device device)) with Ok v => v | Err _ => OsVersion.New 0 0 0 end in
  let caps := e_Capabilities device in
  let t channel shared user := mkTarget os version channel (bool_decide (cap_Supervised caps = CapabilityTrue)) shared user
             (bool_decide (cap_DEP caps = CapabilityTrue)) (bool_decide (cap_UserApproved caps = CapabilityTrue)) in
  let ch := IDChannel (e_ID e) in
  Ok (if ch =? Mdm.ChannelDevice then
        t Support.ChannelDevice
          (bool_decide (os = IOS) &&
           negb (bool_decide (Items (List s (mkEnrollmentQuery ChannelSharedIPadUser None (ID (e_ID e)) []) (mkPage [] 1)) = [])))
          false
      else if ch =? Mdm.ChannelUser then t Support.ChannelUser false false
      else if ch =? ChannelSharedIPadUser then t Support.ChannelUser true false
      else if ch =? ChannelUserEnrollmentDevice then t Support.ChannelDevice false true
      else if ch =? ChannelUserEnrollmentUser then t Support.ChannelUser false true
      else t Support.ChannelDevice false false).

(* @src server/service/service.go - EnrollmentTarget *)
Definition EnrollmentTarget (s : Store) (id : EnrollmentID) : result serr Target := e ← Get s id; targetFor s e.

(* @src server/service/service.go - targetCheck *)
Record targetCheck := mkTargetCheck {
  keep : list EnrollmentID;
  unsupported : gmap EnrollmentID error;
  tc_warnings : gmap EnrollmentID (list AvailabilityIssue) }.

Definition unsupportedTarget : error := plain [ErrUnsupportedTarget].

(** The verdict on one enrollment: the availability report, or none when it is unsupported. *)
(* @src server/service/service.go 493-522 Core.checkTargets *)
Definition target_verdict (entry : Entry) (cmd : Command) (t : Target) : option (list AvailabilityIssue) :=
  if (bool_decide (TOS t = []) || IsZero (TVersion t)) && bool_decide (RequestType cmd ≠ bs "DeviceInformation")
     && bool_decide (RequestType cmd ≠ bs "SecurityInfo") then None
  else
    let col := Collector_Support [] true (Some entry) (Collector_New t) in
    let col := match Payload cmd with
               | Some p => if Collector_ok col then ValidateInto p col else col
               | None => col
               end in
    if negb (Collector_ok col) then None
    else if bool_decide (Payload cmd ≠ None) && negb (install_profile_ok cmd t) then None
    else Some (Availability col).

(* @src server/service/service.go 480-525 Core.checkTargets *)
Fixpoint check_loop (s : Store) (entry : Entry) (cmd : Command) (ids : list EnrollmentID) (check : targetCheck) : result serr targetCheck :=
  match ids with
  | [] => Ok check
  | id :: ids' =>
      match Get s id with
      | Err ErrNotFound => check_loop s entry cmd ids' (mkTargetCheck (keep check ++ [id]) (unsupported check) (tc_warnings check))
      | Err e => Err e
      | Ok e =>
          target ← targetFor s e;
          check_loop s entry cmd ids'
            match target_verdict entry cmd target with
            | None => mkTargetCheck (keep check) (<[id := unsupportedTarget]> (unsupported check)) (tc_warnings check)
            | Some issues =>
                mkTargetCheck (keep check ++ [id]) (unsupported check)
                  (if bool_decide (issues = []) then tc_warnings check else <[id := issues]> (tc_warnings check))
            end
      end
  end.

(* @src server/service/service.go - Core.checkTargets *)
Definition checkTargets (c : Core) (s : Store) (ids : list EnrollmentID) (cmd : Command) : result serr targetCheck :=
  if negb (validateTargets c) then Ok (mkTargetCheck ids ∅ ∅)
  else match commands_Support (RequestType cmd) with
       | None => Ok (mkTargetCheck ids ∅ ∅)
       | Some entry => check_loop s entry cmd ids (mkTargetCheck [] ∅ ∅)
       end.

(** ** Queueing *)

(** [storage.EnqueueResult] with the reasons of the service and the warnings it adds. *)
(* @src devicemanagement/storage/storage.go 173-180 EnqueueResult *)
Record Enqueued := mkEnqueued {
  q_Queued : list EnrollmentID;
  q_Skipped : gmap EnrollmentID error;
  q_Warnings : gmap EnrollmentID (list AvailabilityIssue) }.

(* @src server/service/service.go 419-427 Core.enqueue *)
Fixpoint publish_queued (c : Core) (cmd : Command) (ids : list EnrollmentID) : srv unit :=
  match ids with
  | [] => mret tt
  | id :: ids' => _ ← publish c CommandQueued id actor_admin (DCommand cmd); publish_queued c cmd ids'
  end.

(* @src server/service/service.go - Core.enqueue *)
Definition enqueue (c : Core) (ids : list EnrollmentID) (cmd : option Command) (o : EnqueueOptions) : srv Enqueued :=
  _ ← runHooks (hooks c) (mkCall (bs "enqueue") None None None cmd None);
  cmd ← orelse (validatedCommand cmd) (λ e, wrapCode CodeBadRequest (plain [IsStorage e]));
  now ← (if time_is_zero (o_Now o) then tick (clock c) else mret (o_Now o));
  check ← (r ← ask (λ s, checkTargets c s ids cmd); orelse r internal);
  res ← (if bool_decide (keep check ≠ []) || bool_decide (unsupported check = ∅) then
           w ← tick (wall c);
           r ← call (λ s, Enqueue s (keep check) (Some cmd) (mkEnqueueOptions (o_DedupeKey o) now) w);
           orelse r storageError
         else mret (mkEnqueueResult [] ∅));
  _ ← publish_queued c cmd (Queued res);
  mret (mkEnqueued (Queued res) (unsupported check ∪ ((λ e, plain [IsStorage e]) <$> Skipped res))
          (filter (λ '(id, _), id ∈ Queued res) (tc_warnings check))).

(** A bus in process runs the operation directly. *)
(* @src server/service/transaction.go - Core.Enqueue *)
Definition Core_Enqueue (c : Core) (ids : list EnrollmentID) (cmd : option Command) (o : EnqueueOptions) : srv Enqueued :=
  enqueue c ids cmd o.

(** ** Authorization *)

(* @src server/service/checkin.go - Core.authorizeRequest *)
Definition authorizeRequest (c : Core) (r : Request) (checkout : bool) : srv unit :=
  let id := rq_ID r in
  e ← (x ← ask (λ s, Get s (Device id)); orelse x storageError);
  _ ← guard (negb checkout && disabled e) (wrapCode CodeForbidden (plain [IsStorage ErrDisabled]));
  _ ← (if IsUser (IDChannel id) then
         child ← ask (λ s, Get s id);
         match child with
         | Err x => guard (bool_decide (x ≠ ErrNotFound)) (internal x)
         | Ok child => guard (negb checkout && disabled child) (wrapCode CodeForbidden (plain [IsStorage ErrDisabled]))
         end
       else mret tt);
  if bool_decide (pinning c = PinOff) then mret tt
  else match rq_Certificate r with
       | None => guard (bool_decide (pinning c = PinEnforce)) (wrapCode CodeForbidden (plain [ErrCertRequired]))
       | Some cert =>
           let hash := Fingerprint cert in
           pinned ← ask (λ s, CertHashOf s id);
           match pinned with
           | Err ErrNotFound => fail (wrapCode CodeUnknownEnrollment (plain [ErrUnknownEnrollment]))
           | Err x => fail (internal x)
           | Ok pinned =>
               if bool_decide (pinned = []) || bool_decide (pinned ≠ hash) then
                 if bool_decide (pinning c = PinWarn) then mret tt
                 else _ ← publish c IdentityRejected id actor_device NoData; fail (wrapCode CodeForbidden (plain [ErrCertMismatch]))
               else mret tt
           end
       end.

(* @src server/service/checkin.go - Core.authorize *)
Definition authorize (c : Core) (r : Request) : srv unit := authorizeRequest c r false.

(* @src server/service/resources.go - Core.AuthorizeResource *)
Definition AuthorizeResource (c : Core) (r : option Request) : srv unit :=
  match r ≫= (λ r, cert ← rq_Certificate r; match Validate (rq_ID r) with Ok _ => Some (r, cert) | Err _ => None end) with
  | None => fail (plain [ErrInvalidMessage])
  | Some (r, cert) =>
      _ ← observe ((λ f, f (Some cert)) <$> certificateStatus c) id;
      now ← tick (clock c);
      _ ← guard ((now <? NotBefore cert) || negb (now <? CertNotAfter cert)) (plain [ErrInvalidMessage]);
      let enabled id :=
        e ← (x ← ask (λ s, Get s id); orelse x (λ e, plain [IsStorage e]));
        guard (negb (Enabled e) || disabled e) (plain [IsStorage ErrDisabled]) in
      _ ← enabled (Device (rq_ID r));
      _ ← enabled (rq_ID r);
      pin ← (x ← ask (λ s, CertHashOf s (rq_ID r)); orelse x (λ e, plain [IsStorage e]));
      guard (bool_decide (pin = []) || bool_decide (pin ≠ Fingerprint cert)) (plain [ErrInvalidMessage])
  end.

(** ** Enrollment *)

(* @src server/service/checkin.go - Core.otherHolders *)
Definition otherHolders (s : Store) (id : EnrollmentID) (hash : bytes) : result serr (list CertAssociation) :=
  history ← CertHashHistory s hash;
  Ok (filter (λ a, ID (a_ID a) ≠ ID (Device id)) history).

Definition requestHash (r : Request) : bytes := match rq_Certificate r with Some cert => Fingerprint cert | None => [] end.

(** Whether the identity presented replaces another one, if the policy lets it. *)
(* @src server/service/checkin.go 217-225 Core.authenticate *)
Definition reenrolled (c : Core) (r : Request) (existing : option Enrollment) : srv bool :=
  match existing with
  | Some e =>
      if bool_decide (CertHash e ≠ []) && bool_decide (requestHash r ≠ []) && bool_decide (CertHash e ≠ requestHash r)
         && bool_decide (pinning c ≠ PinOff) then
        match reenroll c r e with
        | Err x => fail (wrapCode CodeForbidden (plain (ErrReenrollDenied :: err_Is x)))
        | Ok _ => mret true
        end
      else mret false
  | None => mret false
  end.

(** Whether others have used the certificate, if the policy lets it be used again. *)
(* @src server/service/checkin.go 226-241 Core.authenticate *)
Definition reused (c : Core) (r : Request) : srv bool :=
  if bool_decide (requestHash r ≠ []) && bool_decide (pinning c ≠ PinOff) then
    others ← (x ← ask (λ s, otherHolders s (rq_ID r) (requestHash r)); orelse x internal);
    if bool_decide (others = []) then mret false
    else match reuse c r others with
         | Ok _ => mret true
         | Err x =>
             _ ← publish c CertReuseDenied (rq_ID r) actor_device (DHolders others);
             fail (wrapCode CodeForbidden (if errors_Is x ErrCertReused then x else plain (ErrCertReused :: err_Is x)))
         end
  else mret false.

(* @src server/service/checkin.go - Core.authenticate *)
Definition authenticate (c : Core) (r : Request) (ck : Checkin) (m : Authenticate) : srv AuthenticateResult :=
  let id := rq_ID r in
  _ ← guard (IsUser (IDChannel id)) (wrapCode CodeBadRequest (plain [ErrInvalidMessage]));
  _ ← guard (bool_decide (rq_Certificate r = None) && bool_decide (pinning c = PinEnforce))
        (wrapCode CodeForbidden (plain [ErrCertRequired]));
  now ← tick (clock c);
  existing ← (x ← ask (λ s, Get s id);
              match x with
              | Ok e => mret (Some e)
              | Err ErrNotFound => mret None
              | Err e => fail (internal e)
              end);
  rotated ← reenrolled c r existing;
  allowReuse ← reused c r;
  let expected := match existing with Some e => CertHash e | None => [] end in
  result ← (x ← call (λ s, AuthenticateEnrollment s false id
                            (mkAuthChange expected (requestHash r) allowReuse rotated (Some m) (ck_Raw ck) now));
            match x with
            | Ok a => mret a
            | Err ErrConflict => fail (wrapCode CodeForbidden (plain [ErrCertMismatch; IsStorage ErrConflict]))
            | Err e => fail (storageError e)
            end);
  let reset := if negb (Known result) then
                 match existing with
                 | None => true
                 | Some e => bool_decide (requestHash r = []) || bool_decide (CertHash e ≠ requestHash r)
                 end
               else ResetDone result in
  _ ← (if rotated && reset then publish c CertRotated id actor_device (DHash expected) else mret tt);
  _ ← (if bool_decide (existing = None) && reset then publish c Enrolled id actor_device (DAuthenticate m)
       else publish c Reenrolled id actor_device (DAuthenticate m));
  mret (mkAuthResult (Known result) reset).

(** A user must have completed the handshake before its first token. *)
(* @src server/service/checkin.go 291-300 Core.tokenUpdate *)
Definition userAuthCompleted (c : Core) (id : EnrollmentID) : srv unit :=
  if requireUserAuth c && (IDChannel id =? Mdm.ChannelUser) then
    x ← ask (λ s, UserAuth s id);
    match x with
    | Err ErrNotFound => fail (wrapCode CodeForbidden (plain [ErrUserAuthRequired]))
    | Err e => fail (internal e)
    | Ok st => guard (bool_decide (AuthToken st = [])) (wrapCode CodeForbidden (plain [ErrUserAuthRequired]))
    end
  else mret tt.

(* @src server/service/checkin.go - Core.tokenUpdate *)
Definition tokenUpdate (c : Core) (r : Request) (ck : Checkin) (m : TokenUpdate) : srv unit :=
  let id := rq_ID r in
  push ← lift match PushFromTokenUpdate (Some m) with
              | Ok p => Ok p | Err e => Err (wrapCode CodeBadRequest (plain [IsMdm e])) end;
  now ← tick (clock c);
  _ ← authorize c r;
  _ ← (if IsUser (IDChannel id) then
         _ ← userAuthCompleted c id;
         x ← ask (λ s, Get s id);
         match x with
         | Err ErrNotFound => y ← call (λ s, UpsertAuthenticate s id None (ck_Raw ck) now); orelse y storageError
         | Err e => fail (internal e)
         | Ok _ => mret tt
         end
       else mret tt);
  _ ← (y ← call (λ s, StoreTokenUpdate s id push (Some m) (ck_Raw ck) now); orelse y storageError);
  publish c TokenUpdated id actor_device (DTokenUpdate m).

(* @src server/service/checkin.go - Core.checkOut *)
Definition checkOut (c : Core) (r : Request) : srv unit :=
  _ ← authorizeRequest c r true;
  now ← tick (clock c);
  _ ← (y ← call (λ s, Disable s (rq_ID r) now); orelse y storageError);
  publish c CheckedOut (rq_ID r) actor_device NoData.

(** ** Tokens and answers *)

(* @src server/service/checkin.go - CheckinResult *)
Record CheckinResult := mkCheckinResult { cr_Body : bytes; cr_ContentType : bytes; cr_Status : Z }.
Definition noResult : CheckinResult := mkCheckinResult [] [] 0.
(* @src server/service/checkin.go 27-27 ContentTypePlist *)
Definition ContentTypePlist : bytes := bs "application/xml; charset=utf-8".

(* @src server/service/checkin.go - plistResult *)
Definition plistResult (v : CheckinResponse) : srv CheckinResult :=
  match plist_Marshal v with
  | Some body => mret (mkCheckinResult body ContentTypePlist 0)
  | None => fail (wrapCode CodeInternal (plain []))
  end.

(* @src server/service/checkin.go - Core.setBootstrapToken *)
Definition setBootstrapToken (c : Core) (r : Request) (token : bytes) : srv unit :=
  _ ← authorize c r;
  now ← tick (clock c);
  _ ← (y ← call (λ s, StoreBootstrapToken s (rq_ID r) token now); orelse y storageError);
  publish c BootstrapTokenSet (rq_ID r) actor_device NoData.

(** The stored token, or none. *)
Definition stored_token (r : Request) : srv bytes :=
  x ← ask (λ s, BootstrapToken s (rq_ID r));
  match x with
  | Ok tok => mret tok
  | Err ErrNotFound => mret []
  | Err e => fail (storageError e)
  end.

(* @src server/service/checkin.go - Core.getBootstrapToken *)
Definition getBootstrapToken (c : Core) (r : Request) : srv CheckinResult :=
  _ ← authorize c r;
  tok ← stored_token r;
  plistResult (GetBootstrapTokenResponse tok).

(* @src server/service/checkin.go - Core.handleReturnToService *)
Definition handleReturnToService (c : Core) (r : Request) : srv CheckinResult :=
  _ ← authorize c r;
  match returnToService c with
  | None => plistResult (ReturnToServiceAnswer noRTS)
  | Some handler =>
      match handler r with
      | Err e => fail (wrapCode (CodeOf e) e)
      | Ok None => plistResult (ReturnToServiceAnswer noRTS)
      | Ok (Some resp) =>
          resp ← (if rts_Enabled resp && bool_decide (rts_BootstrapToken resp = []) then
                    tok ← stored_token r;
                    mret (if bool_decide (tok = []) then resp else resp <| rts_BootstrapToken := tok |>)
                  else mret resp);
          plistResult (ReturnToServiceAnswer resp)
      end
  end.

(* @src server/service/checkin.go - Core.handleGetToken *)
Definition handleGetToken (c : Core) (r : Request) (serviceType : bytes) : srv CheckinResult :=
  _ ← authorize c r;
  match getToken c with
  | None => fail (wrapCode CodeNotImplemented (plain [ErrNoHandler]))
  | Some handler =>
      match handler r serviceType with
      | Err e => fail (wrapCode (CodeOf e) e)
      | Ok data => plistResult (GetTokenResponse data)
      end
  end.

(* @src server/service/checkin.go - Core.handleUserAuthenticate *)
Definition handleUserAuthenticate (c : Core) (r : Request) (m : UserAuthenticate) : srv CheckinResult :=
  _ ← authorize c r;
  x ← attempt (userAuthenticate c r m);
  match x with
  | Err e => fail (if errors_Is e ErrUserNotManaged then wrapCode CodeGone e else wrapCode (CodeOf e) e)
  | Ok resp => plistResult (UserAuthenticateAnswer resp)
  end.

(* @src server/service/checkin.go - Core.handleDeclarativeManagement *)
Definition handleDeclarativeManagement (c : Core) (r : Request) (ck : Checkin) (endpoint data : bytes) : srv CheckinResult :=
  _ ← authorize c r;
  match dm c with
  | None => fail (wrapCode CodeNotImplemented (plain [ErrNoHandler]))
  | Some handler =>
      match handler r ck endpoint data with
      | Err e => fail (wrapCode (CodeOf e) e)
      | Ok resp => mret (mkCheckinResult (dm_Body resp) (dm_ContentType resp) (dm_Status resp))
      end
  end.
End Service.
