(* ===== verification/ServiceFlow.v ===== *)
(** * Check-ins and connections: [server/service]

    The two device operations as a whole: certificate status, hooks, the replacement
    handshake, dispatch, completion and observers; and the connection that stores a result
    and selects the next command that is still eligible. *)
From S2P Require Import Prelude GoStrings OsVersion Support Validation Mdm Storage Replacement InMem ServiceBase Service.

Section Flow.
Context {PD : PlistDecoder} {CC : CommandCodec} {CS : CommandSchema}.

(** ** Identity replacement *)

(** A change with only what the service sets. *)
Definition change (op : ReplacementOp) (id hash : bytes) (raw : bytes) (token : option ReplacementToken)
  (resp : option Response) (now : Time) : ReplacementChange :=
  mkChange [] 0 [] op id hash [] [] [] now None raw token resp.

(** The attempt of the device, and the fingerprint presented. *)
(* @src server/service/replacement.go - Core.replacement *)
Definition replacement (c : Core) (r : Request) : srv (option (Replacement * bytes)) :=
  match has_replacements c, rq_Certificate r with
  | true, Some cert =>
      now ← tick (clock c);
      x ← call (λ s, TransitionReplacement s false (Device (rq_ID r)) (change OpRead [] [] [] None None now));
      match x with
      | Err ErrNotFound => mret None
      | Err e => fail (internal e)
      | Ok x => mret ((λ x, (x, Fingerprint cert)) <$> x)
      end
  | _, _ => mret None
  end.

(* @src server/service/replacement.go - Core.transitionReplacement *)
Definition transitionReplacement (c : Core) (r : Request) (ch : Time → ReplacementChange) : srv (option Replacement) :=
  now ← tick (clock c);
  x ← (y ← call (λ s, TransitionReplacement s false (Device (rq_ID r)) (ch now)); orelse y storageError);
  _ ← match x with
      | Some a => if bool_decide (r_State a = ReplacementCommitted)
                  then publish c CertRotated (Device (rq_ID r)) actor_device (DHash (OldHash a)) else mret tt
      | None => mret tt
      end;
  mret x.

Definition is_authenticate (m : Message) : bool := match m with MAuthenticate _ => true | _ => false end.
Definition mismatch : error := wrapCode CodeForbidden (plain [ErrCertMismatch]).

(** Whether the message belongs to the handshake, which then has taken it. *)
(* @src server/service/replacement.go - Core.replacementCheckin *)
Definition replacementCheckin (c : Core) (r : Request) (ck : Checkin) (m : Message) : srv bool :=
  x ← replacement c r;
  match x with
  | None => mret false
  | Some (x, hash) =>
      let user := IsUser (IDChannel (rq_ID r)) in
      if bool_decide (r_State x ≠ ReplacementPending) then
        if bool_decide (hash = CandidateHash x) then
          if bool_decide (r_State x ≠ ReplacementCommitted) then fail mismatch
          else mret (is_authenticate m && negb user)
        else mret false
      else if bool_decide (hash = OldHash x) then mret (is_authenticate m && negb user)
      else if bool_decide (CandidateHash x = []) || bool_decide (hash ≠ CandidateHash x) then fail mismatch
      else
        match m with
        | MAuthenticate _ =>
            if user then fail mismatch
            else _ ← transitionReplacement c r (change OpAuthenticate (r_ID x) hash (ck_Raw ck) None None); mret true
        | MTokenUpdate t =>
            _ ← (if requireUserAuth c && (IDChannel (rq_ID r) =? Mdm.ChannelUser) then
                   s ← ask (λ s, UserAuth s (rq_ID r));
                   guard match s with Ok st => bool_decide (AuthToken st = []) | Err _ => true end
                     (wrapCode CodeForbidden (plain [ErrUserAuthRequired]))
                 else mret tt);
            _ ← transitionReplacement c r (change OpToken (r_ID x) hash [] (Some (mkRToken (rq_ID r) (Some t) (ck_Raw ck))) None);
            mret true
        | _ => fail mismatch
        end
  end.

(** [Some] when the handshake has taken the connection, with the command to send. *)
(* @src server/service/replacement.go - Core.replacementConnect *)
Definition replacementConnect (c : Core) (r : Request) (resp : Response) : srv (option (option Command)) :=
  x ← replacement c r;
  match x with
  | None => mret None
  | Some (x, hash) =>
      if bool_decide (r_State x ≠ ReplacementPending) then mret None
      else if bool_decide (hash ≠ OldHash x) && (bool_decide (CandidateHash x = []) || bool_decide (hash ≠ CandidateHash x))
      then fail mismatch
      else if IsUser (IDChannel (rq_ID r)) then mret (if bool_decide (hash = CandidateHash x) then Some None else None)
      else
        let deliver :=
          if Acknowledged x || bool_decide (hash ≠ OldHash x) then mret (Some None)
          else
            y ← transitionReplacement c r (change OpDeliver (r_ID x) hash [] None None);
            match y with
            | Some y =>
                _ ← publish c CommandSent (rq_ID r) actor_server (DCommand (r_Command y));
                mret (Some (Some (r_Command y)))
            | None => mret (Some None)
            end in
        if IsIdle resp then deliver
        else if bool_decide (rsp_CommandUUID resp ≠ UUID (r_Command x)) then
          _ ← guard (bool_decide (hash ≠ OldHash x)) mismatch;
          now ← tick (clock c);
          y ← call (λ s, StoreResult s (rq_ID r) (Some resp) now);
          _ ← match y with
              | Ok _ | Err ErrNotFound => mret tt
              | Err e => fail (storageError e)
              end;
          deliver
        else
          _ ← transitionReplacement c r (change OpResult (r_ID x) hash [] None (Some resp));
          _ ← publish c CommandResult (rq_ID r) actor_device (DResponse resp);
          mret (Some None)
  end.

(** ** Check-ins *)

(** The answer, and what hooks learn of an authentication. *)
(* @src server/service/checkin.go - Core.dispatchCheckin *)
Definition dispatchCheckin (c : Core) (r : Request) (ck : Checkin) (m : Message)
  : srv (option CheckinResult * option AuthenticateResult) :=
  let quiet (m : srv unit) := _ ← m; mret (None, None) in
  let answer (m : srv CheckinResult) := res ← m; mret (Some res, None) in
  match m with
  | MAuthenticate m => a ← authenticate c r ck m; mret (None, Some a)
  | MTokenUpdate m => quiet (tokenUpdate c r ck m)
  | MCheckOut => quiet (checkOut c r)
  | MSetBootstrapToken token => quiet (setBootstrapToken c r token)
  | MGetBootstrapToken => answer (getBootstrapToken c r)
  | MGetToken t => answer (handleGetToken c r t)
  | MUserAuthenticate m => answer (handleUserAuthenticate c r m)
  | MDeclarativeManagement endpoint data => answer (handleDeclarativeManagement c r ck endpoint data)
  | MReturnToService => answer (handleReturnToService c r)
  end.

(** The completers, in order, until one fails. *)
(* @src server/service/checkin.go 62-71 Core.checkin *)
Fixpoint complete_all (hs : list Hook) (cl : Call) : srv unit :=
  match hs with
  | [] => mret tt
  | h :: hs' =>
      match Complete h with
      | Some f => match f cl with Err e => fail (wrapCode CodeInternal e) | Ok _ => complete_all hs' cl end
      | None => complete_all hs' cl
      end
  end.

(** The revocation check that comes first. *)
(* @src server/service/checkin.go 42-47 Core.checkin *)
Definition check_status (c : Core) (id : EnrollmentID) (cert : option Certificate) : srv unit :=
  match certificateStatus c with
  | None => mret tt
  | Some f =>
      match f cert with
      | Ok _ => mret tt
      | Err e => _ ← publish c CertificateStatusRejected id actor_device NoData; fail (wrapCode CodeForbidden e)
      end
  end.

Definition invalidMessage : error := wrapCode CodeBadRequest (plain [ErrInvalidMessage]).

(* @src server/service/checkin.go - Core.checkin *)
Definition checkin (c : Core) (r : option Request) (ck : option Checkin) : srv CheckinResult :=
  match r, ck, ck ≫= ck_Message with
  | Some r, Some ck, Some m =>
      let r := mkRequest (ck_ID ck) (ck_Enrollment ck) (rq_Certificate r) in
      _ ← check_status c (rq_ID r) (rq_Certificate r);
      let cl := mkCall (bs "checkin:" ++ ck_Type ck) (Some r) (Some ck) None None None in
      _ ← runHooks (hooks c) cl;
      handled ← replacementCheckin c r ck m;
      '(res, cl) ← (if (handled : bool) then mret (None, cl <| cl_Op := bs "replacement:" ++ ck_Type ck |>)
                    else '(res, a) ← dispatchCheckin c r ck m; mret (res, cl <| cl_Authenticate := a |>));
      _ ← complete_all (hooks c) cl;
      mret (default noResult res)
  | _, _, _ => fail invalidMessage
  end.

(* @src server/service/transaction.go - Core.Checkin *)
Definition Core_Checkin (c : Core) (r : option Request) (ck : option Checkin) : srv CheckinResult :=
  if match ck with
     | Some ck => bool_decide (ck_Type ck ∈ [bs "DeclarativeManagement"; bs "GetToken"; bs "ReturnToService"])
     | None => false
     end
  then checkin c r ck
  else
    out ← checkin c r ck;
    match r, ck with
    | Some r, Some ck =>
        let r := mkRequest (ck_ID ck) (ck_Enrollment ck) (rq_Certificate r) in
        _ ← match observeAuthenticate c, ck_Message ck with
            | Some f, Some (MAuthenticate _) => now ← tick (clock c); lift (f r ck now)
            | _, _ => mret tt
            end;
        _ ← observe ((λ f, f (rq_ID r)) <$> observeEnrollment c) id;
        _ ← match observeCertificate c, rq_Certificate r with
            | Some f, Some cert => now ← tick (clock c); lift (f (rq_ID r) cert now)
            | _, _ => mret tt
            end;
        mret out
    | _, _ => mret out
    end.

(** ** Connections *)

(** Commands in the queue that are not finished. *)
Definition open_count (id : EnrollmentID) (s : Store) : nat :=
  match enrollments s !! ID id with
  | Some r => length (filter (λ q, Terminal (qState q) = false) (queue r))
  | None => 0
  end.

Definition rejected (cmd : Command) (reason : bytes) : EventData := DRejected (UUID cmd) (RequestType cmd) reason.

(** Ineligible work is cleared and reported, and the loop goes on. *)
(* @src server/service/connect.go 140-164 Core.nextEligible *)
Definition discard (c : Core) (id : EnrollmentID) (cmd : Command) (reason : bytes) (again : srv (result serr (option Command)))
  : srv (result serr (option Command)) :=
  w ← tick (wall c);
  y ← call (λ s, ClearCommand s id (UUID cmd) w);
  match y with
  | Err e => mret (Err e)
  | Ok _ => _ ← publish c CommandRejected id actor_server (rejected cmd reason); again
  end.

(** Every round delivers or clears a command; [OutOfFuel] stands for a loop that has not ended. *)
(* @src server/service/connect.go - Core.nextEligible *)
Fixpoint next_loop (c : Core) (fuel : nat) (id : EnrollmentID) (skipNotNow : bool) (now : Time) : srv (result serr (option Command)) :=
  match fuel with
  | O => fail (plain [OutOfFuel])
  | S fuel' =>
      x ← call (λ s, Next s id skipNotNow now);
      match x with
      | Err e => mret (Err e)
      | Ok None => mret (Ok None)
      | Ok (Some cmd) =>
          match validatedCommand (Some cmd) with
          | Err _ => discard c id cmd (bs "invalid-command") (next_loop c fuel' id skipNotNow now)
          | Ok decoded =>
              check ← ask (λ s, checkTargets c s [id] decoded);
              match check with
              | Err e => mret (Err e)
              | Ok check =>
                  match unsupported check !! id with
                  | Some _ => discard c id cmd (bs "unsupported-target") (next_loop c fuel' id skipNotNow now)
                  | None => mret (Ok (Some cmd))
                  end
              end
          end
      end
  end.

(* @src server/service/connect.go - Core.nextEligible *)
Definition nextEligible (c : Core) (id : EnrollmentID) (skipNotNow : bool) (now : Time) : srv (result serr (option Command)) :=
  λ w, next_loop c (S (open_count id (w_store w))) id skipNotNow now w.

(** Storing a result; an unknown command is only logged. *)
(* @src server/service/connect.go 62-89 Core.connect *)
Definition store_result (c : Core) (r : Request) (resp : Response) (now : Time) : srv unit :=
  x ← call (λ s, StoreResult s (rq_ID r) (Some resp) now);
  _ ← match x with
      | Ok _ => observe ((λ f, f (rq_ID r) resp now) <$> observeResult c) (wrapCode CodeInternal)
      | Err ErrNotFound => mret tt
      | Err e => fail (storageError e)
      end;
  publish c CommandResult (rq_ID r) actor_device (DResponse resp).

(* @src server/service/connect.go - Core.connect *)
Definition connect (c : Core) (r : Request) (resp : Response) : srv (option Command) :=
  handled ← replacementConnect c r resp;
  match handled with
  | Some cmd => mret cmd
  | None =>
      _ ← authorize c r;
      now ← tick (clock c);
      _ ← (if IsIdle resp then mret tt else store_result c r resp now);
      cmd ← (x ← nextEligible c (rq_ID r) (bool_decide (rsp_Status resp = StatusNotNow)) now; orelse x storageError);
      _ ← (x ← call (λ s, TouchLastSeen s (rq_ID r) now); orelse x storageError);
      _ ← observe ((λ f, f (rq_ID r)) <$> observeEnrollment c) (wrapCode CodeInternal);
      _ ← observe (f ← observeCertificate c; cert ← rq_Certificate r; Some (f (rq_ID r) cert now)) id;
      _ ← match cmd with Some cmd => publish c CommandSent (rq_ID r) actor_server (DCommand cmd) | None => mret tt end;
      mret cmd
  end.

(* @src server/service/connect.go - Core.handleConnect *)
Definition handleConnect (c : Core) (r : option Request) (resp : option Response) : srv (option Command) :=
  match r, resp with
  | Some r, Some resp =>
      let r := mkRequest (rsp_ID resp) (rsp_Enrollment resp) (rq_Certificate r) in
      _ ← check_status c (rq_ID r) (rq_Certificate r);
      _ ← runHooks (hooks c) (mkCall (bs "connect") (Some r) None (Some resp) None None);
      connect c r resp
  | _, _ => fail invalidMessage
  end.

(* @src server/service/transaction.go - Core.Connect *)
Definition Core_Connect (c : Core) (r : option Request) (resp : option Response) : srv (option Command) := handleConnect c r resp.

(** ** Migration *)

(* @src server/service/migrate.go - Core.ExportEnrollments *)
Definition ExportEnrollments (c : Core) (p : Page) : srv (PageResult EnrollmentExport) :=
  _ ← runHooks (hooks c) (mkCall (bs "export") None None None None None);
  x ← ask (λ s, Export s p); orelse x storageError.

(* @src server/service/migrate.go - Core.importEnrollment *)
Definition importEnrollment (c : Core) (rec : EnrollmentExport) : srv unit :=
  _ ← runHooks (hooks c) (mkCall (bs "import") None None None None None);
  _ ← (x ← call (λ s, Import s rec); orelse x storageError);
  let id := e_ID (x_Enrollment rec) in
  publish c EnrollmentImported id actor_admin (DID id).
(* @src server/service/migrate.go - Core.ImportEnrollment *)
Definition ImportEnrollment (c : Core) (rec : EnrollmentExport) : srv unit := importEnrollment c rec.
End Flow.
