(* ===== verification/ServiceUserAuth.v ===== *)
(** * The user handshake: [server/service/userauth.go]

    A user channel authenticates in two messages: the first is answered with a challenge
    that is stored, the second carries a digest response (RFC 2617) that is checked against
    it and answered with a token. The property list of a message and the deployment's
    verifier are parameters; the verifier from stored HA1 values is defined here. *)
From S2P Require Import Prelude GoStrings Mdm Storage InMem Sha256 PredEval ServiceBase.

(** ** MD5

    The digest of crypto/md5, which the HTTP Digest handshake of user channels asks for.
    RFC 1321: four rounds of sixteen steps over blocks of sixteen little-endian words. *)

Definition md5_K : list Z :=
  [3614090360; 3905402710; 606105819; 3250441966; 4118548399; 1200080426; 2821735955; 4249261313;
   1770035416; 2336552879; 4294925233; 2304563134; 1804603682; 4254626195; 2792965006; 1236535329;
   4129170786; 3225465664; 643717713; 3921069994; 3593408605; 38016083; 3634488961; 3889429448;
   568446438; 3275163606; 4107603335; 1163531501; 2850285829; 4243563512; 1735328473; 2368359562;
   4294588738; 2272392833; 1839030562; 4259657740; 2763975236; 1272893353; 4139469664; 3200236656;
   681279174; 3936430074; 3572445317; 76029189; 3654602809; 3873151461; 530742520; 3299628645;
   4096336452; 1126891415; 2878612391; 4237533241; 1700485571; 2399980690; 4293915773; 2240044497;
   1873313359; 4264355552; 2734768916; 1309151649; 4149444226; 3174756917; 718787259; 3951481745].
Definition md5_shifts : list Z :=
  mjoin [mjoin (replicate 4 [7; 12; 17; 22]); mjoin (replicate 4 [5; 9; 14; 20]);
         mjoin (replicate 4 [4; 11; 16; 23]); mjoin (replicate 4 [6; 10; 15; 21])].

Record md5_state := mkMd5 { ma : Z; mb : Z; mc : Z; md : Z }.
Definition md5_init : md5_state := mkMd5 0x67452301 0xefcdab89 0x98badcfe 0x10325476.

Definition rotl (n x : Z) : Z := Z.lor (w32 (Z.shiftl x n)) (Z.shiftr x (32 - n)).
Definition not32 (x : Z) : Z := Z.lxor x 0xffffffff.

(** The function and the word of step [i]. *)
Definition md5_mix (i : nat) (s : md5_state) : Z * nat :=
  let '(mkMd5 a b c d) := s in
  if (i <? 16)%nat then (Z.lor (Z.land b c) (Z.land (not32 b) d), i)
  else if (i <? 32)%nat then (Z.lor (Z.land d b) (Z.land (not32 d) c), ((5 * i + 1) mod 16)%nat)
  else if (i <? 48)%nat then (Z.lxor b (Z.lxor c d), ((3 * i + 5) mod 16)%nat)
  else (Z.lxor c (Z.lor b (not32 d)), ((7 * i) mod 16)%nat).

Definition md5_step (ws : list Z) (s : md5_state) (i : nat) : md5_state :=
  let '(f, g) := md5_mix i s in
  let x := w32 (ma s + f + nth i md5_K 0 + nth g ws 0) in
  mkMd5 (md s) (w32 (mb s + rotl (nth i md5_shifts 0) x)) (mb s) (mc s).

(** Little-endian words. *)
Definition get_le (l : bytes) : Z := foldr (λ b a, b + 256 * a) 0 l.
Fixpoint put_le (n : nat) (z : Z) : bytes :=
  match n with O => [] | S n' => z mod 256 :: put_le n' (z / 256) end.
Fixpoint md5_words (n : nat) (l : bytes) : list Z :=
  match n with O => [] | S n' => get_le (take 4 l) :: md5_words n' (drop 4 l) end.

Definition md5_block (s : md5_state) (block : bytes) : md5_state :=
  let r := foldl (md5_step (md5_words 16 block)) s (seq 0 64) in
  mkMd5 (w32 (ma s + ma r)) (w32 (mb s + mb r)) (w32 (mc s + mc r)) (w32 (md s + md r)).
Fixpoint md5_blocks (n : nat) (s : md5_state) (l : bytes) : md5_state :=
  match n with O => s | S n' => md5_blocks n' (md5_block s (take 64 l)) (drop 64 l) end.

Definition md5_pad (m : bytes) : bytes :=
  m ++ [128] ++ replicate (Z.to_nat ((55 - Z.of_nat (length m)) mod 64)) 0 ++ put_le 8 (8 * Z.of_nat (length m)).

(** [md5.Sum] *)
Definition md5_Sum (m : bytes) : bytes :=
  let p := md5_pad m in
  let s := md5_blocks (length p / 64) md5_init p in
  put_le 4 (ma s) ++ put_le 4 (mb s) ++ put_le 4 (mc s) ++ put_le 4 (md s).

Example md5_empty : hex_EncodeToString (md5_Sum []) = bs "d41d8cd98f00b204e9800998ecf8427e".
Proof. vm_compute. reflexivity. Qed.
Example md5_alphabet : hex_EncodeToString (md5_Sum (bs "abcdefghijklmnopqrstuvwxyz")) = bs "c3fcd3d76192e4007dfb496cca67e13b".
Proof. vm_compute. reflexivity. Qed.
Example md5_two_blocks :
  hex_EncodeToString (md5_Sum (bs "12345678901234567890123456789012345678901234567890123456789012345678901234567890"))
  = bs "57edf4a22be3c955ac49da2e2107b67a".
Proof. vm_compute. reflexivity. Qed.

Lemma put_le_length n : ∀ z, length (put_le n z) = n.
Proof. induction n as [|n IH]; intros z; cbn; [done|]. by rewrite IH. Qed.
Lemma put_le_bytes n : ∀ z, Forall (λ b, 0 ≤ b < 256) (put_le n z).
Proof. induction n as [|n IH]; intros z; cbn; [constructor|]. constructor; [by apply Z.mod_pos_bound|apply IH]. Qed.
Lemma md5_Sum_spec m : length (md5_Sum m) = 16%nat ∧ Forall (λ b, 0 ≤ b < 256) (md5_Sum m).
Proof. unfold md5_Sum. rewrite !length_app, !put_le_length. split; [done|]. by repeat apply Forall_app_2; apply put_le_bytes. Qed.

(** ** Digest parameters *)

Definition is_blank (c : Z) : bool := (c =? 32) || (c =? 9).
Definition trim_blanks (s : bytes) : bytes := (span is_blank s).2.

(** [strings.IndexByte] as a split: what comes before the first [c], and after it. *)
Fixpoint cut_at (c : Z) (s : bytes) : option (bytes * bytes) :=
  match s with
  | [] => None
  | d :: s' => if d =? c then Some ([], s') else '(w, r) ← cut_at c s'; Some (d :: w, r)
  end.

Definition badDigest : error := plain [ErrBadDigest].

Section Digest.
Context {UC : UnicodeCase}.

(** The value after [=], and the rest: it is empty or starts with a comma. *)
(* @src server/service/userauth.go 163-182 parseDigestParams *)
Definition digest_value (s : bytes) : result error (bytes * bytes) :=
  let rest := trim_blanks s in
  if has_prefix rest [34] then
    match cut_at 34 (drop 1 rest) with
    | None => Err badDigest
    | Some (val, after) =>
        let after := trim_blanks after in
        if bool_decide (after ≠ []) && negb (has_prefix after [44]) then Err badDigest else Ok (val, after)
    end
  else
    match cut_at 44 rest with
    | Some (val, after) => Ok (trim_space val, 44 :: after)
    | None => Ok (trim_space rest, [])
    end.

(** One round per parameter. *)
(* @src server/service/userauth.go 153-186 parseDigestParams *)
Fixpoint digest_loop (fuel : nat) (s : bytes) (out : gmap bytes bytes) : result error (gmap bytes bytes) :=
  match s with
  | [] => Ok out
  | _ =>
      match fuel with
      | O => Err (plain [OutOfFuel])
      | S fuel' =>
          match cut_at 61 s with
          | None => Err badDigest
          | Some (k, after) =>
              let key := to_lower (trim_space k) in
              if bool_decide (key = []) then Err badDigest
              else
                '(val, rest) ← digest_value after;
                digest_loop fuel' (trim_space (if has_prefix rest [44] then drop 1 rest else rest)) (<[key := val]> out)
          end
      end
  end.

(** [strings.EqualFold] of seven bytes with an ASCII word: a longer rune would leave fewer. *)
(* @src server/service/userauth.go - parseDigestParams *)
Definition parseDigestParams (s : bytes) : result error (gmap bytes bytes) :=
  let s := trim_space s in
  let s := if (7 <=? length s)%nat && bool_decide (ascii_lower (take 7 s) = bs "digest ") then trim_space (drop 7 s) else s in
  digest_loop (S (length s)) s ∅.

(** [p[k]] *)
Definition param (p : gmap bytes bytes) (k : string) : bytes := default [] (p !! bs k).

(** ** Verification *)

(* @src server/service/userauth.go 50-59 VerifyInput *)
Record VerifyInput := mkVerifyInput { vi_UserID : bytes; vi_Realm : bytes; vi_Challenge : bytes; vi_DigestResponse : bytes }.

(* @src server/service/userauth.go - checkDigestParams *)
Definition checkDigestParams (p : gmap bytes bytes) (i : VerifyInput) : result error unit :=
  _ ← reject (existsb (λ k, bool_decide (default [] (p !! k) = [])) [bs "username"; bs "realm"; bs "nonce"; bs "uri"; bs "response"]) badDigest;
  _ ← reject (bool_decide (param p "realm" ≠ vi_Realm i)) badDigest;
  ch ← parseDigestParams (vi_Challenge i);
  _ ← reject (bool_decide (param ch "nonce" = []) || bool_decide (param p "nonce" ≠ param ch "nonce")) badDigest;
  if bool_decide (param p "qop" = []) then Ok tt
  else
    _ ← reject (bool_decide (param p "qop" ≠ bs "auth")) badDigest;
    reject (bool_decide (param p "nc" = []) || bool_decide (param p "cnonce" = [])) badDigest.

(* @src server/service/userauth.go - md5hex *)
Definition md5hex (s : bytes) : bytes := hex_EncodeToString (md5_Sum s).

(** Texts joined by colons. *)
Fixpoint colons (l : list bytes) : bytes :=
  match l with [] => [] | [x] => x | x :: l' => x ++ 58 :: colons l' end.

(* @src server/service/userauth.go - expectedDigest *)
Definition expectedDigest (h1 : bytes) (p : gmap bytes bytes) : bytes :=
  let ha2 := md5hex (bs "POST:" ++ param p "uri") in
  if bool_decide (param p "qop" = []) then md5hex (colons [h1; param p "nonce"; ha2])
  else md5hex (colons [h1; param p "nonce"; param p "nc"; param p "cnonce"; param p "qop"; ha2]).

(** A verdict and an error, which the code returns together. *)
Definition verdict : Type := bool * option error.

(* @src server/service/userauth.go - HA1Verifier *)
Definition HA1Verifier (ha1 : bytes → bytes → result error bytes) (i : VerifyInput) : verdict :=
  match parseDigestParams (vi_DigestResponse i) with
  | Err e => (false, Some e)
  | Ok p =>
      match checkDigestParams p i with
      | Err e => (false, Some e)
      | Ok _ =>
          match ha1 (param p "username") (vi_Realm i) with
          | Err e => (false, Some e)
          | Ok h1 =>
              if bool_decide (h1 = []) then (false, None)
              else (bool_decide (expectedDigest h1 p = to_lower (param p "response")), None)
          end
      end
  end.
End Digest.

(** ** The handshake *)

(* @src server/service/userauth.go 45-46 defaults *)
Definition DefaultUserAuthRealm : bytes := bs "mdm".
Definition DefaultUserAuthChallengeTTL : Z := 5 * Minute.

(** [d_Rand k n] is the [n] bytes read by the [k]-th reading, or its failure. *)
(* @src server/service/userauth.go 194-211 DigestUserAuth *)
Record DigestUserAuth := mkDigestUserAuth {
  d_Verifier : Request → VerifyInput → verdict;
  d_Realm : bytes;
  d_ChallengeTTL : Z;
  d_Manage : option (Request → UserAuthenticate → result error unit);
  d_Clock : nat → Time;
  d_Bus : bool;
  d_Rand : nat → nat → option bytes;
  d_Marshal : UserAuthenticate → option bytes }.

(* @src server/service/userauth.go - DigestUserAuth.realm *)
Definition realm (d : DigestUserAuth) : bytes := if bool_decide (d_Realm d = []) then DefaultUserAuthRealm else d_Realm d.
(* @src server/service/userauth.go - DigestUserAuth.ttl *)
Definition ttl (d : DigestUserAuth) : Z := if d_ChallengeTTL d <=? 0 then DefaultUserAuthChallengeTTL else d_ChallengeTTL d.

(* @src server/service/userauth.go - DigestUserAuth.random *)
Definition random (d : DigestUserAuth) (n : nat) : srv bytes := λ w,
  (match d_Rand d (w_tick w) n with Some b => Ok (hex_EncodeToString b) | None => Err (wrapCode CodeInternal (plain [])) end,
   w <| w_tick := S (w_tick w) |>).

(* @src server/service/userauth.go - DigestUserAuth.publish *)
Definition digest_publish (d : DigestUserAuth) (t : EventType) (id : EnrollmentID) (user : bytes) : srv unit :=
  if negb (d_Bus d) then mret tt else now ← tick (d_Clock d); emit (mkEvent t now id actor_device (DUser user)).

Definition quoted (s : bytes) : bytes := 34 :: s ++ [34].
Definition challenge_text (realm nonce : bytes) : bytes :=
  bs "Digest realm=" ++ quoted realm ++ bs ", nonce=" ++ quoted nonce ++ bs ", qop=" ++ quoted (bs "auth") ++ bs ", algorithm=MD5".

(* @src server/service/userauth.go - DigestUserAuth.challenge *)
Definition digest_challenge (d : DigestUserAuth) (r : Request) (m : UserAuthenticate) (raw : bytes) : srv UserAuthenticateResponse :=
  _ ← match d_Manage d with
      | None => mret tt
      | Some f =>
          match f r m with
          | Ok _ => mret tt
          | Err e => fail (wrapCode (if errors_Is e ErrUserNotManaged then CodeGone else CodeInternal) e)
          end
      end;
  nonce ← random d 16;
  let challenge := challenge_text (realm d) nonce in
  now ← tick (d_Clock d);
  _ ← (x ← call (λ s, StoreUserAuthChallenge s (rq_ID r) challenge raw now); orelse x storageError);
  mret (mkUserAuthResponse (Some challenge) None).

(** The stored state, when a challenge is waiting for an answer. *)
(* @src server/service/userauth.go - DigestUserAuth.outstanding *)
Definition outstanding (id : EnrollmentID) (s : Store) : result serr (option UserAuthState) :=
  match UserAuth s id with
  | Err ErrNotFound => Ok None
  | Err e => Err e
  | Ok st => Ok (if bool_decide (Challenge st = []) then None else Some st)
  end.

(* @src server/service/userauth.go - DigestUserAuth.reject *)
Definition digest_reject (d : DigestUserAuth) (r : Request) (m : UserAuthenticate) : srv UserAuthenticateResponse :=
  _ ← (x ← call (λ s, ClearUserAuth s (rq_ID r)); orelse x storageError);
  _ ← digest_publish d UserAuthFailed (rq_ID r) (um_UserID m);
  mret (mkUserAuthResponse None (Some [])).

(* @src server/service/userauth.go - DigestUserAuth.verify *)
Definition digest_verify (d : DigestUserAuth) (r : Request) (m : UserAuthenticate) (raw : bytes) : srv UserAuthenticateResponse :=
  now ← tick (d_Clock d);
  st ← (x ← ask (outstanding (rq_ID r)); orelse x storageError);
  match st with
  | None => mret (mkUserAuthResponse None (Some []))
  | Some st =>
      if ttl d <? now - ChallengeAt st then digest_reject d r m
      else
        let '(ok, err) := d_Verifier d r (mkVerifyInput (um_UserID m) (realm d) (Challenge st) (um_DigestResponse m)) in
        match err with
        | Some e => if errors_Is e ErrBadDigest then mret tt else fail (wrapCode CodeInternal e)
        | None => mret tt
        end ≫= λ _,
        if negb ok then digest_reject d r m
        else
          token ← random d 32;
          _ ← (x ← call (λ s, StoreUserAuthToken s (rq_ID r) token raw now); orelse x storageError);
          _ ← digest_publish d UserAuthenticated (rq_ID r) (um_UserID m);
          mret (mkUserAuthResponse None (Some token))
  end.

(** The store and the verifier are configured. *)
(* @src server/service/userauth.go - DigestUserAuth.Handle *)
Definition DigestUserAuth_Handle (d : DigestUserAuth) (r : Request) (m : UserAuthenticate) : srv UserAuthenticateResponse :=
  _ ← guard (negb (IsUser (IDChannel (rq_ID r)))) (wrapCode CodeBadRequest (plain [ErrInvalidMessage]));
  match d_Marshal d m with
  | None => fail (wrapCode CodeInternal (plain []))
  | Some raw => if bool_decide (um_DigestResponse m = []) then digest_challenge d r m raw else digest_verify d r m raw
  end.

#[local] Instance ascii_case : UnicodeCase := {| unicode_lower s := s |}.
(** Single quotes stand for double ones. *)
Definition quotes (s : string) : bytes := (λ c, if c =? 39 then 34 else c) <$> bs s.
Example digest_sample :
  parseDigestParams (quotes " digest Username='ab, c' , uri=/x,  qop = auth,nc=1")
  = Ok (list_to_map [(bs "username", bs "ab, c"); (bs "uri", bs "/x"); (bs "qop", bs "auth"); (bs "nc", bs "1")]).
Proof. vm_compute. reflexivity. Qed.
Example digest_refusals :
  parseDigestParams <$> [bs "Digest abc"; bs " =1"; quotes "a='x"; quotes "a='x' b"] = replicate 4 (Err badDigest).
Proof. vm_compute. reflexivity. Qed.
