(* ===== verification/ServiceSafety.v ===== *)
(** * What the service guarantees its callers

    The certificate is the identity of a device. Every history of requests keeps it
    exclusive, and a request that presents another certificate than the one pinned, or the
    candidate of a running replacement, is refused before it changes or reads anything. *)
From S2P Require Import Prelude GoStrings OsVersion Support Mdm Storage Replacement InMem InMemQueue InMemRegistry InMemSafety Validation ServiceBase Service ServiceFlow ServiceUserAuth.

(** ** The service runs the store

    Every operation of the service is a sequence of store calls that respects the contract
    of the store, whatever hooks, policies and handlers decide and wherever it fails. So the
    theorems about runs of the store hold of every history of requests. *)

Section Runs.
Context {PD : PlistDecoder} {PC : PushCertParser} {CC : CommandCodec} {CS : CommandSchema}.

(** ** Operations as runs *)

Definition runs {A} (m : srv A) : Prop := ∀ w, ∃ os, Forall op_ok os ∧ w_store (m w).2 = run (w_store w) os.

(** What leaves the store alone. *)
Definition reads {A} (m : srv A) : Prop := ∀ w, w_store (m w).2 = w_store w.
Lemma runs_reads {A} (m : srv A) : reads m → runs m.
Proof. intros H w. exists []. split; [constructor|]. apply H. Qed.

Lemma runs_bind {A B} (m : srv A) (f : A → srv B) : runs m → (∀ a, runs (f a)) → runs (m ≫= f).
Proof.
  intros Hm Hf w. destruct (Hm w) as (os & Hos & E). unfold mbind, srv_bind. destruct (m w) as [[a|e] w']; cbn in E; [|by exists os].
  destruct (Hf a w') as (os' & Hos' & E'). exists (os ++ os'). rewrite run_app, <-E. split; [by apply Forall_app|done].
Qed.
Lemma runs_call {A} (f : Store → result serr (A * Store)) o : op_ok o → (∀ s, exec s o = after s (f s)) → runs (call f).
Proof.
  intros Ho E w. exists [o]. split; [by repeat constructor|]. cbn. rewrite E. unfold call, after. by destruct (f (w_store w)) as [[]|].
Qed.

Lemma reads_ret {A} (a : A) : reads (mret a : srv A). Proof. done. Qed.
Lemma reads_fail {A} e : reads (fail e : srv A). Proof. done. Qed.
Lemma reads_lift {A} (r : result error A) : reads (lift r). Proof. done. Qed.
Lemma reads_guard b e : reads (guard b e). Proof. done. Qed.
Lemma reads_ask {A} (f : Store → result serr A) : reads (ask f). Proof. done. Qed.
Lemma reads_orelse {A} (r : result serr A) g : reads (orelse r g). Proof. done. Qed.
Lemma reads_tick cl : reads (tick cl). Proof. done. Qed.
Lemma reads_emit e : reads (emit e). Proof. done. Qed.
Lemma reads_observe r g : reads (observe r g). Proof. done. Qed.
Lemma reads_bind {A B} (m : srv A) (f : A → srv B) : reads m → (∀ a, reads (f a)) → reads (m ≫= f).
Proof.
  intros Hm Hf w. specialize (Hm w). unfold mbind, srv_bind. destruct (m w) as [[a|e] w']; cbn in *; [|done]. by rewrite Hf.
Qed.
End Runs.

Create HintDb srv.
#[export] Hint Resolve reads_ret reads_fail reads_lift reads_guard reads_ask reads_orelse reads_tick reads_emit reads_observe : srv.

(** Follow the structure of an operation down to its calls. *)
Ltac srv_reads :=
  repeat first
    [ solve [auto with srv nocore]
    | apply reads_bind; [|intros ?]
    | progress case_match ].
Ltac srv_runs :=
  repeat first
    [ solve [auto with srv nocore]
    | apply runs_reads; solve [srv_reads]
    | apply runs_bind; [|intros ?]
    | progress case_match ].

Section Contract.
Context {PD : PlistDecoder} {PC : PushCertParser} {CC : CommandCodec} {CS : CommandSchema}.

Lemma reads_publish c t id a d : reads (publish c t id a d).
Proof. unfold publish. srv_reads. Qed.
Hint Resolve reads_publish : srv.
Lemma reads_runHooks hs cl : reads (runHooks hs cl).
Proof. induction hs; cbn; srv_reads. Qed.
Hint Resolve reads_runHooks : srv.
Lemma reads_complete hs cl : reads (complete_all hs cl).
Proof. induction hs; cbn; srv_reads. Qed.
Hint Resolve reads_complete : srv.
Lemma reads_authorize c r b : reads (authorizeRequest c r b).
Proof. unfold authorizeRequest. srv_reads. Qed.
Hint Resolve reads_authorize : srv.
Lemma reads_queued c cmd ids : reads (publish_queued c cmd ids).
Proof. induction ids; cbn; srv_reads. Qed.
Hint Resolve reads_queued : srv.
Lemma reads_status c id cert : reads (check_status c id cert).
Proof. unfold check_status. srv_reads. Qed.
Hint Resolve reads_status : srv.
Lemma reads_plist v : reads (plistResult v).
Proof. unfold plistResult. srv_reads. Qed.
Hint Resolve reads_plist : srv.
Lemma reads_random d n : reads (random d n).
Proof. done. Qed.
Hint Resolve reads_random : srv.
Lemma reads_digest_publish d t id u : reads (digest_publish d t id u).
Proof. unfold digest_publish. srv_reads. Qed.
Hint Resolve reads_digest_publish : srv.

(** ** The calls *)

Lemma runs_AuthenticateEnrollment id ch : runs (call (λ s, AuthenticateEnrollment s false id ch)).
Proof. by apply (runs_call _ (DoAuthenticateEnrollment false id ch)). Qed.
Lemma runs_UpsertAuthenticate id m raw t : runs (call (λ s, UpsertAuthenticate s id m raw t)).
Proof. by apply (runs_call _ (DoUpsertAuthenticate id m raw t)). Qed.
Lemma runs_StoreTokenUpdate id p m raw t : runs (call (λ s, StoreTokenUpdate s id p m raw t)).
Proof. by apply (runs_call _ (DoStoreTokenUpdate id p m raw t)). Qed.
Lemma runs_Disable id t : runs (call (λ s, Disable s id t)).
Proof. by apply (runs_call _ (DoDisable id t)). Qed.
Lemma runs_TouchLastSeen id t : runs (call (λ s, TouchLastSeen s id t)).
Proof. by apply (runs_call _ (DoTouchLastSeen id t)). Qed.
Lemma runs_Enqueue ids cmd o t : runs (call (λ s, Enqueue s ids cmd o t)).
Proof. by apply (runs_call _ (DoEnqueue ids cmd o t)). Qed.
Lemma runs_Next id b t : runs (call (λ s, Next s id b t)).
Proof. by apply (runs_call _ (DoNext id b t)). Qed.
Lemma runs_StoreResult id resp t : runs (call (λ s, StoreResult s id resp t)).
Proof. by apply (runs_call _ (DoStoreResult id resp t)). Qed.
Lemma runs_ClearCommand id u t : runs (call (λ s, ClearCommand s id u t)).
Proof. by apply (runs_call _ (DoClearCommand id u t)). Qed.
Lemma runs_StoreBootstrapToken id tok t : runs (call (λ s, StoreBootstrapToken s id tok t)).
Proof. by apply (runs_call _ (DoStoreBootstrapToken id tok t)). Qed.
Lemma runs_StoreUserAuthChallenge id ch raw t : runs (call (λ s, StoreUserAuthChallenge s id ch raw t)).
Proof. by apply (runs_call _ (DoStoreUserAuthChallenge id ch raw t)). Qed.
Lemma runs_StoreUserAuthToken id tok raw t : runs (call (λ s, StoreUserAuthToken s id tok raw t)).
Proof. by apply (runs_call _ (DoStoreUserAuthToken id tok raw t)). Qed.
Lemma runs_ClearUserAuth id : runs (call (λ s, ClearUserAuth s id)).
Proof. by apply (runs_call _ (DoClearUserAuth id)). Qed.
Hint Resolve runs_AuthenticateEnrollment runs_UpsertAuthenticate runs_StoreTokenUpdate runs_Disable runs_TouchLastSeen runs_Enqueue runs_Next runs_StoreResult runs_ClearCommand runs_StoreBootstrapToken runs_StoreUserAuthChallenge runs_StoreUserAuthToken runs_ClearUserAuth : srv.

(** A replacement transition that begins nothing; its token is of a valid channel. *)
Lemma runs_transition id op aid hash raw tok resp now :
  (∀ t, tok = Some t → Validate (rt_ID t) = Ok tt) →
  runs (call (λ s, TransitionReplacement s false id (change op aid hash raw tok resp now))).
Proof. intros Ht. by apply (runs_call _ (DoTransitionReplacement false id (change op aid hash raw tok resp now))). Qed.

Lemma runs_Import rec : import_ok rec → runs (call (λ s, Import s rec)).
Proof. intros H. by apply (runs_call _ (DoImport rec)). Qed.

(** ** The operations *)

Lemma runs_enqueue c ids cmd o : runs (Core_Enqueue c ids cmd o).
Proof. unfold Core_Enqueue, enqueue. srv_runs. Qed.

Lemma runs_authenticate c r ck m : runs (authenticate c r ck m).
Proof. unfold authenticate, reenrolled, reused. srv_runs. Qed.

Lemma runs_tokenUpdate c r ck m : runs (tokenUpdate c r ck m).
Proof. unfold tokenUpdate, authorize, userAuthCompleted. srv_runs. Qed.

Lemma runs_checkOut c r : runs (checkOut c r).
Proof. unfold checkOut. srv_runs. Qed.

Lemma runs_setBootstrapToken c r tok : runs (setBootstrapToken c r tok).
Proof. unfold setBootstrapToken, authorize. srv_runs. Qed.

Lemma reads_stored_token r : reads (stored_token r).
Proof. unfold stored_token. srv_reads. Qed.
Hint Resolve reads_stored_token : srv.

Lemma runs_transitionReplacement c r op aid hash raw tok resp :
  (∀ t, tok = Some t → Validate (rt_ID t) = Ok tt) →
  runs (transitionReplacement c r (change op aid hash raw tok resp)).
Proof. intros Ht. unfold transitionReplacement. srv_runs. by apply runs_transition. Qed.
#[local] Opaque transitionReplacement.

Lemma runs_replacement c r : runs (replacement c r).
Proof. unfold replacement. srv_runs. by apply runs_transition. Qed.
Hint Resolve runs_replacement : srv.

Lemma runs_replacementCheckin c r ck m : Validate (rq_ID r) = Ok tt → runs (replacementCheckin c r ck m).
Proof.
  intros Hv. unfold replacementCheckin. srv_runs; apply runs_transitionReplacement; intros t [= <-]; done.
Qed.

Lemma runs_replacementConnect c r resp : runs (replacementConnect c r resp).
Proof. unfold replacementConnect. srv_runs; by apply runs_transitionReplacement. Qed.
Hint Resolve runs_replacementConnect : srv.

Lemma runs_next_loop c fuel id b now : runs (next_loop c fuel id b now).
Proof. induction fuel as [|fuel IH]; cbn [next_loop]; unfold discard; srv_runs. Qed.

Lemma runs_nextEligible c id b now : runs (nextEligible c id b now).
Proof. intros w. apply runs_next_loop. Qed.
Hint Resolve runs_nextEligible : srv.

Lemma runs_connect c r resp : runs (Core_Connect c r resp).
Proof. unfold Core_Connect, handleConnect, connect, authorize, store_result. srv_runs. Qed.

(** The handler of user authentication uses the store as well. *)
Lemma runs_digest d r m : runs (DigestUserAuth_Handle d r m).
Proof. unfold DigestUserAuth_Handle, digest_challenge, digest_verify, digest_reject. srv_runs. Qed.

Hint Resolve runs_authenticate runs_tokenUpdate runs_checkOut runs_setBootstrapToken : srv.
(** The configured handler acts on the store through its operations, as [runs_digest] shows of
    the one the service comes with. *)
Definition handler_ok (c : Core) : Prop := ∀ r m, runs (userAuthenticate c r m).

Lemma runs_attempt {A} (m : srv A) : runs m → runs (attempt m).
Proof. intros H w. destruct (H w) as (os & Hos & E). exists os. split; [done|]. unfold attempt. by destruct (m w). Qed.

Lemma runs_dispatch c r ck m : handler_ok c → runs (dispatchCheckin c r ck m).
Proof.
  intros Hh. assert (∀ m, runs (attempt (userAuthenticate c r m))) as Hu by (intros; apply runs_attempt, Hh).
  unfold dispatchCheckin, getBootstrapToken, handleGetToken, handleReturnToService, handleUserAuthenticate, handleDeclarativeManagement, authorize.
  destruct m; srv_runs.
Qed.

Lemma runs_checkin c r ck : handler_ok c → (∀ k, ck = Some k → Validate (ck_ID k) = Ok tt) → runs (Core_Checkin c r ck).
Proof.
  intros Hh Hv. assert (runs (checkin c r ck)) as Hc.
  { unfold checkin. destruct r as [r|]; [|srv_runs]. destruct ck as [ck|]; [|srv_runs]. cbn [mbind option_bind].
    destruct (ck_Message ck) as [m|]; [|srv_runs].
    assert (runs (replacementCheckin c (mkRequest (ck_ID ck) (ck_Enrollment ck) (rq_Certificate r)) ck m)) by (apply runs_replacementCheckin; by apply Hv).
    srv_runs. by apply runs_dispatch. }
  unfold Core_Checkin. srv_runs.
Qed.

Lemma runs_import c rec : import_ok rec → runs (ImportEnrollment c rec).
Proof. intros H. unfold ImportEnrollment, importEnrollment. srv_runs. by apply runs_Import. Qed.
End Contract.

(** ** Histories *)

(** What arrives at the service, each with the core that takes it. *)
Inductive request :=
| RCheckin (r : option Request) (ck : option Checkin)
| RConnect (r : option Request) (resp : option Response)
| REnqueue (ids : list EnrollmentID) (cmd : option Command) (o : EnqueueOptions)
| RImport (rec : EnrollmentExport)
| RResource (r : option Request)
| RExport (p : Page).

Section Histories.
Context {PD : PlistDecoder} {PC : PushCertParser} {CC : CommandCodec} {CS : CommandSchema}.

Definition serve (c : Core) (w : world) (q : request) : world :=
  match q with
  | RCheckin r ck => (Core_Checkin c r ck w).2
  | RConnect r resp => (Core_Connect c r resp w).2
  | REnqueue ids cmd o => (Core_Enqueue c ids cmd o w).2
  | RImport rec => (ImportEnrollment c rec w).2
  | RResource r => (AuthorizeResource c r w).2
  | RExport p => (ExportEnrollments c p w).2
  end.

(** A check-in was decoded, so its identity is valid; an import that pins a certificate has
    it in its history. Without that the store accepts a pin that no history row protects, and
    exclusivity can be lost ([InMemSamples.import_without_history_shares_certificate]). *)
Definition request_ok (q : request) : Prop :=
  match q with
  | RCheckin _ ck => ∀ k, ck = Some k → Validate (ck_ID k) = Ok tt
  | RImport rec => import_ok rec
  | _ => True
  end.

Definition start : world := mkWorld New [] 0.

Lemma reads_resource c r : reads (AuthorizeResource c r).
Proof. unfold AuthorizeResource. srv_reads. Qed.
Lemma reads_export c p : reads (ExportEnrollments c p).
Proof. unfold ExportEnrollments. apply reads_bind; [apply reads_runHooks|]. intros ?. srv_reads. Qed.

Lemma serve_runs c w q : handler_ok c → request_ok q → ∃ os, Forall op_ok os ∧ w_store (serve c w q) = run (w_store w) os.
Proof.
  intros Hh Hq. destruct q as [r ck|r resp|ids cmd o|rec|r|p]; cbn [serve].
  - by apply runs_checkin.
  - by apply runs_connect.
  - by apply runs_enqueue.
  - by apply runs_import.
  - apply runs_reads, reads_resource.
  - apply runs_reads, reads_export.
Qed.

Lemma history_runs c qs : ∀ w, handler_ok c → Forall request_ok qs →
  ∃ os, Forall op_ok os ∧ w_store (foldl (serve c) w qs) = run (w_store w) os.
Proof.
  induction qs as [|q qs IH]; intros w Hh Hqs; [by exists []|]. apply Forall_cons in Hqs as [Hq Hqs].
  destruct (serve_runs c w q Hh Hq) as (os & Hos & E). destruct (IH (serve c w q) Hh Hqs) as (os' & Hos' & E').
  exists (os ++ os'). rewrite run_app, <-E. split; [by apply Forall_app|done].
Qed.

Lemma history_wf c qs : handler_ok c → Forall request_ok qs → WF (w_store (foldl (serve c) start qs)).
Proof.
  intros Hh Hqs. destruct (history_runs c qs start Hh Hqs) as (os & Hos & ->). apply run_wf; [apply WF_New|done].
Qed.

(** C6 The certificate of an enrollment is its own in every history of requests in which
    check-ins carry identities that were validated when they were decoded, every import that
    pins a certificate lists it in the certificate history it brings, and the handler of user
    authentication acts on the store through its operations only. Whatever devices and
    administrators send besides, in any order and through any hooks, policies and observers,
    and wherever requests fail: two enrollments pinned to one certificate are the same
    device, which the certificate index finds, and no user channel is pinned. *)
Theorem service_certificate_exclusive c qs id1 id2 e1 e2 :
  handler_ok c → Forall request_ok qs →
  let s := w_store (foldl (serve c) start qs) in
  Get s id1 = Ok e1 → Get s id2 = Ok e2 → CertHash e1 = CertHash e2 → CertHash e1 ≠ [] →
  id1 = id2 ∧ IsUser (IDChannel id1) = false ∧ EnrollmentByCertHash s (CertHash e1) = Ok id1.
Proof.
  intros Hh Hqs s H1 H2 He Hne. pose proof (history_wf c qs Hh Hqs) as Hw. fold s in Hw.
  destruct (wf_exclusive s id1 id2 e1 e2) as [-> Hu]; [done..|]. split_and!; [done..|].
  apply wf_index; eauto.
Qed.
End Histories.

(** ** Refusal *)

(** Equal but for the attempt of [id], which reading may record as expired, once its time is
    over. *)
Record same_but_expiry (id : EnrollmentID) (s s' : Store) : Prop := {
  sb_store : s' <| replacements := replacements s |> = s;
  sb_others : ∀ k, k ≠ ID id → replacements s' !! k = replacements s !! k;
  sb_attempt : replacements s' !! ID id = replacements s !! ID id ∨
    ∃ x now, replacements s !! ID id = Some x ∧ replacements s' !! ID id = CloneReplacement (Some (expire now x)) }.

Lemma clone_expire t x y : CloneReplacement (Some x) = Some y → CloneReplacement (Some (expire t y)) = CloneReplacement (Some (expire t x)).
Proof. intros [= <-]. unfold expire, expiry, setf; cbn. by destruct (_ && _). Qed.
Lemma expire_expire t t' x : expire t' (expire t x) = expire t x ∨ expire t' (expire t x) = expire t' x.
Proof.
  assert (expire t x = x ∨ r_State (expire t x) = ReplacementExpired) as [->|E] by (unfold expire; destruct (_ && _); auto); [by right|left].
  unfold expire at 1. by rewrite E, bool_decide_false.
Qed.

#[export] Instance same_but_expiry_refl id : Reflexive (same_but_expiry id).
Proof. intros s. split; [by destruct s|done|by left]. Qed.
#[export] Instance same_but_expiry_trans id : Transitive (same_but_expiry id).
Proof.
  intros s1 s2 s3 [A1 A2 A3] [B1 B2 B3]. split.
  - destruct s1, s2, s3. injection A1 as A1. injection B1 as B1. by subst.
  - intros k Hk. by rewrite B2, A2.
  - destruct B3 as [->|(y & t' & Hy & Hy')]; [done|]. destruct A3 as [E|(x & t & Hx & Hx')]; [right; exists y, t'; by rewrite <-E|].
    right. rewrite Hy in Hx'. pose proof (clone_expire t' _ _ (eq_sym Hx')) as Hc. rewrite Hy', Hc.
    destruct (expire_expire t t' x) as [->| ->]; eauto.
Qed.

(** The operation fails and leaves the store as it was, but for an attempt of [id] found to be
    expired. *)
Definition refused {A} (id : EnrollmentID) (m : srv A) (w : world) : Prop :=
  (∃ e, (m w).1 = Err e) ∧ same_but_expiry id (w_store w) (w_store (m w).2).
Definition keeps {A} (id : EnrollmentID) (m : srv A) : Prop := ∀ w, same_but_expiry id (w_store w) (w_store (m w).2).

Section Steps.
Context {A B : Type} (id : EnrollmentID).
Implicit Types (m : srv A) (f : A → srv B) (w : world).

Lemma keeps_reads m : reads m → keeps id m.
Proof. intros H w. by rewrite H. Qed.
Lemma refused_fail e w : refused id (fail e : srv A) w.
Proof. split; [by eexists|done]. Qed.
Lemma refused_stop m f w : refused id m w → refused id (m ≫= f) w.
Proof. intros [[e He] Hs]. unfold refused, mbind, srv_bind. destruct (m w) as [[a|] w']; cbn in *; [done|]. split; [by eexists|done]. Qed.
(** What comes after an operation that keeps the store. *)
Lemma refused_bind m f w :
  keeps id m → (∀ a w', m w = (Ok a, w') → same_but_expiry id (w_store w) (w_store w') → refused id (f a) w') → refused id (m ≫= f) w.
Proof.
  intros Hk Hf. specialize (Hk w). unfold refused, mbind, srv_bind in *. destruct (m w) as [[a|e] w'] eqn:E; cbn in Hk.
  - destruct (Hf a w' eq_refl Hk) as [He Hs]. split; [done|]. by etrans.
  - split; [by eexists|done].
Qed.
Lemma refused_next m f w a w' :
  m w = (Ok a, w') → same_but_expiry id (w_store w) (w_store w') → refused id (f a) w' → refused id (m ≫= f) w.
Proof. intros E Hs [He Hf]. unfold refused, mbind, srv_bind. rewrite E. split; [done|]. by etrans. Qed.
(** What comes after an operation that reads only. *)
Lemma refused_reads m f w :
  reads m → (∀ a w', w_store w' = w_store w → refused id (f a) w') → refused id (m ≫= f) w.
Proof.
  intros Hr Hf. apply refused_bind; [by apply keeps_reads|]. intros a w' E _. apply Hf. specialize (Hr w). by rewrite E in Hr.
Qed.
End Steps.

Section Refusal.
Context {PD : PlistDecoder} {PC : PushCertParser} {CC : CommandCodec} {CS : CommandSchema}.

(** The certificate presented is not the pin of the device. *)
Definition unpinned (s : Store) (r : Request) : Prop :=
  ∀ cert e, rq_Certificate r = Some cert → Get s (Device (rq_ID r)) = Ok e → CertHash e ≠ Fingerprint cert.
(** Nor does it take part in a replacement of the device. *)
Definition stranger (s : Store) (r : Request) : Prop :=
  unpinned s r ∧
  ∀ cert x, rq_Certificate r = Some cert → replacements s !! ID (Device (rq_ID r)) = Some x →
    OldHash x ≠ Fingerprint cert ∧ CandidateHash x ≠ Fingerprint cert.

Lemma same_Get i s s' id : same_but_expiry i s s' → Get s' id = Get s id.
Proof. intros [<- _ _]. done. Qed.
Lemma unpinned_same i s s' r : same_but_expiry i s s' → unpinned s r → unpinned s' r.
Proof. intros Hs Hu cert e Hc Hg. eapply Hu; [done|]. by rewrite <-(same_Get _ _ _ _ Hs). Qed.

Lemma CertHashOf_inv s id h : CertHashOf s id = Ok h → ∃ e, Get s (Device id) = Ok e ∧ CertHash e = h.
Proof.
  unfold CertHashOf, deviceRecordLocked. intros H. apply bind_Ok_inv in H as (r & Hr & [= <-]).
  destruct (Validate id); [|done]. destruct (match enrollments s !! ID id with Some _ => _ | _ => _ end); [done|].
  exists (Enr r). split; [|done]. apply Get_spec. eauto.
Qed.

(** Past a step that keeps the store, the certificate is still not the pin. *)
Lemma refused_unpinned {A B} i (m : srv A) (f : A → srv B) r w :
  keeps i m → unpinned (w_store w) r → (∀ a w', unpinned (w_store w') r → refused i (f a) w') → refused i (m ≫= f) w.
Proof. intros Hk Hu Hf. apply refused_bind; [done|]. intros a w' _ Hs. by eapply Hf, unpinned_same. Qed.

Lemma refused_authorize i c r b w : pinning c = PinEnforce → unpinned (w_store w) r → refused i (authorizeRequest c r b) w.
Proof.
  intros Hp Hu. unfold authorizeRequest. rewrite Hp. cbn [bool_decide decide_rel].
  do 3 (apply (refused_unpinned _ _ _ r); [apply keeps_reads; srv_reads|done|]; clear w Hu; intros ? w Hu).
  rewrite bool_decide_false by done. destruct (rq_Certificate r) as [cert|] eqn:Hc; [|apply refused_fail].
  apply refused_bind; [apply keeps_reads; srv_reads|]. intros pinned w' [= <- <-] _.
  destruct (CertHashOf _ _) as [h|[]] eqn:Hh; try apply refused_fail.
  apply CertHashOf_inv in Hh as (e & Hg & <-). rewrite (bool_decide_true (CertHash e ≠ _)) by eauto. rewrite orb_true_r.
  rewrite bool_decide_false by done. apply refused_bind; [apply keeps_reads, reads_publish|]. intros. apply refused_fail.
Qed.

#[local] Arguments Fingerprint : simpl never.
#[local] Arguments TransitionReplacement : simpl never.

(** Reading the attempt of the device changes the table of attempts only. *)
Lemma read_attempt s id now x s' :
  TransitionReplacement s false id (change OpRead [] [] [] None None now) = Ok (x, s') →
  same_but_expiry id s s' ∧ ∀ y, x = Some y → ∃ z, replacements s !! ID id = Some z ∧ OldHash y = OldHash z ∧ CandidateHash y = CandidateHash z.
Proof.
  unfold TransitionReplacement. intros H. go_binds H. destruct a0 as [b r]. go_binds H.
  unfold AdvanceReplacement in Hb2. cbn in Hb2. destruct (time_is_zero now); [done|]. injection Hb2 as <- <-. cbn in Hb3. injection Hb3 as <-.
  split.
  - split; [by destruct s|intros k Hk|]; unfold setf; cbn.
    + destruct (replacements s !! ID id); cbn; by rewrite ?lookup_insert_ne, ?lookup_delete_ne.
    + destruct (replacements s !! ID id) as [z|] eqn:Hz; cbn; [right|left; by rewrite lookup_delete_eq].
      exists z, now. rewrite lookup_insert_eq. split; [done|]. exact (eq_trans eq_refl (clone_expire now z _ eq_refl)).
  - intros y. destruct (replacements s !! ID id) as [z|]; [|done]. cbn. intros [= <-]. exists z.
    unfold expire. by destruct (_ && _).
Qed.

Lemma keeps_replacement c r : keeps (Device (rq_ID r)) (replacement c r).
Proof.
  intros w. unfold replacement. destruct (has_replacements c); [|done]. destruct (rq_Certificate r); [|done].
  unfold mbind, srv_bind, tick, call. cbn.
  destruct (TransitionReplacement _ _ _ _) as [[x s']|[]] eqn:E; cbn; try done. by apply read_attempt in E as [? _].
Qed.
Lemma replacement_inv c r w x h w' : replacement c r w = (Ok (Some (x, h)), w') →
  ∃ cert z, rq_Certificate r = Some cert ∧ h = Fingerprint cert ∧ replacements (w_store w) !! ID (Device (rq_ID r)) = Some z ∧
    OldHash x = OldHash z ∧ CandidateHash x = CandidateHash z.
Proof.
  unfold replacement. destruct (has_replacements c); [|done]. destruct (rq_Certificate r) as [cert|]; [|done].
  unfold mbind, srv_bind, tick, call. cbn.
  destruct (TransitionReplacement _ _ _ _) as [[y s']|[]] eqn:E; cbn; try done. intros [= Hx <-].
  destruct y as [y|]; [|done]. injection Hx as -> <-. apply read_attempt in E as [_ E]. destruct (E _ eq_refl) as (z & ? & ? & ?). by exists cert, z.
Qed.

(** The handshake takes no message of a stranger. *)
Lemma stranger_replacement c r ck m w : stranger (w_store w) r →
  refused (Device (rq_ID r)) (replacementCheckin c r ck m) w ∨
  ∃ w', replacementCheckin c r ck m w = (Ok false, w') ∧ same_but_expiry (Device (rq_ID r)) (w_store w) (w_store w').
Proof.
  intros [_ Hs]. pose proof (keeps_replacement c r w) as Hk. unfold replacementCheckin, refused, mbind, srv_bind.
  destruct (replacement c r w) as [[[[x h]|]|e] w'] eqn:E; cbn in Hk; [|by eauto|left; split; [by eexists|done]].
  apply replacement_inv in E as (cert & z & Hc & -> & Hz & Ho & Hd). destruct (Hs _ _ Hc Hz) as [H1 H2].
  rewrite (bool_decide_false (_ = CandidateHash x)), (bool_decide_false (_ = OldHash x)), (bool_decide_true (_ ≠ CandidateHash x)), orb_true_r by congruence.
  case_bool_decide; [right; eauto|]. left. split; [by eexists|done].
Qed.
Lemma stranger_connect c r resp w : stranger (w_store w) r →
  refused (Device (rq_ID r)) (replacementConnect c r resp) w ∨
  ∃ w', replacementConnect c r resp w = (Ok None, w') ∧ same_but_expiry (Device (rq_ID r)) (w_store w) (w_store w').
Proof.
  intros [_ Hs]. pose proof (keeps_replacement c r w) as Hk. unfold replacementConnect, refused, mbind, srv_bind.
  destruct (replacement c r w) as [[[[x h]|]|e] w'] eqn:E; cbn in Hk; [|by eauto|left; split; [by eexists|done]].
  apply replacement_inv in E as (cert & z & Hc & -> & Hz & Ho & Hd). destruct (Hs _ _ Hc Hz) as [H1 H2].
  rewrite (bool_decide_true (_ ≠ OldHash x)), (bool_decide_true (_ ≠ CandidateHash x)), orb_true_r by congruence.
  case_bool_decide; [right; eauto|]. left. split; [by eexists|done].
Qed.

(** A device whose pin the policy does not let go. *)
Definition held (c : Core) (s : Store) (r : Request) : Prop :=
  reenroll c = DenyReenroll ∧ ∃ e, Get s (Device (rq_ID r)) = Ok e ∧ CertHash e ≠ [].

Lemma held_same i c s s' r : same_but_expiry i s s' → held c s r → held c s' r.
Proof. intros Hs (? & e & ? & ?). split; [done|]. exists e. by rewrite (same_Get _ _ _ _ Hs). Qed.

Lemma refused_authenticate i c r ck m w : pinning c = PinEnforce → unpinned (w_store w) r → held c (w_store w) r →
  refused i (authenticate c r ck m) w.
Proof.
  intros Hp Hu (Hd & e & Hg & Hne). unfold authenticate.
  destruct (IsUser (IDChannel (rq_ID r))) eqn:Hch; [apply refused_stop, refused_fail|]. rewrite (Device_of_device _ Hch) in Hg.
  apply refused_bind; [apply keeps_reads; srv_reads|]. intros ? w1 [= _ <-] _.
  destruct (rq_Certificate r) as [cert|] eqn:Hc.
  2:{ rewrite Hp. apply refused_stop. split; [by eexists|done]. }
  apply refused_bind; [apply keeps_reads; srv_reads|]. intros ? w2 [= _ <-] _.
  apply refused_bind; [apply keeps_reads; srv_reads|]. intros ? w3 [= _ <-] _.
  apply refused_bind; [apply keeps_reads; srv_reads|]. intros existing w4. unfold mbind at 1, srv_bind, ask. cbn [w_store setf]. unfold setf at 1; cbn [w_store].
  rewrite Hg. intros [= <- <-] _. apply refused_stop. unfold reenrolled, requestHash. rewrite Hc, Hp, Hd.
  rewrite !bool_decide_true; [apply refused_fail|done| |apply Fingerprint_ne|done].
  eapply Hu; [done|]. by rewrite Device_of_device.
Qed.

Lemma refused_dispatch i c r ck m w : pinning c = PinEnforce → unpinned (w_store w) r →
  is_authenticate m = false ∨ held c (w_store w) r → refused i (dispatchCheckin c r ck m) w.
Proof.
  intros Hp Hu Hm. assert (∀ w, unpinned (w_store w) r → refused i (authorize c r) w) as Ha by (intros; by apply refused_authorize).
  unfold dispatchCheckin, checkOut, setBootstrapToken, getBootstrapToken, handleGetToken, handleUserAuthenticate,
    handleDeclarativeManagement, handleReturnToService.
  destruct m; try (by do 2 apply refused_stop; auto using refused_authorize).
  - destruct Hm as [|Hm]; [done|]. by apply refused_stop, refused_authenticate.
  - clear Hm. apply refused_stop. unfold tokenUpdate. do 2 (apply (refused_unpinned _ _ _ r); [apply keeps_reads; srv_reads|done|]; clear w Hu; intros ? w Hu).
    by apply refused_stop, Ha.
Qed.

Lemma refused_checkin c r ck m w :
  let r' := mkRequest (ck_ID ck) (ck_Enrollment ck) (rq_Certificate r) in
  pinning c = PinEnforce → ck_Message ck = Some m → stranger (w_store w) r' →
  is_authenticate m = false ∨ held c (w_store w) r' → refused (Device (ck_ID ck)) (checkin c (Some r) (Some ck)) w.
Proof.
  intros r' Hp Hm Hs Hh. unfold checkin. cbn [mbind option_bind]. rewrite Hm. fold r'.
  apply refused_reads; [apply reads_status|]. intros ? w1 E1. rewrite <-E1 in Hs, Hh.
  apply refused_reads; [apply reads_runHooks|]. intros ? w2 E2. rewrite <-E2 in Hs, Hh.
  destruct (stranger_replacement c r' ck m w2 Hs) as [H|(w3 & H & Hk)]; [by apply refused_stop|].
  eapply refused_next; [exact H|done|]. apply refused_stop, refused_stop, refused_dispatch; [done|by eapply unpinned_same, Hs|].
  destruct Hh as [|Hh]; [by left|right; by eapply held_same].
Qed.

End Refusal.
