(* ===== verification/ServiceDelivery.v ===== *)
(** * What the service queues and delivers

    A command is judged when it is queued and again when it is selected, since the target
    may have changed. The selection loop ends, delivers only what the target supports, and
    discards only what it does not; queueing keeps to the targets that support a command. *)
From S2P Require Import Prelude GoStrings OsVersion Support Mdm Storage Replacement InMem InMemQueue InMemDelivery InMemSafety Validation ServiceBase Service ServiceFlow ServiceSafety.

(** ** Stores that differ in their queues *)

Definition same_rows (s s' : Store) : Prop := Enr <$> enrollments s' = Enr <$> enrollments s.
#[export] Instance same_rows_refl : Reflexive same_rows.
Proof. done. Qed.
#[export] Instance same_rows_trans : Transitive same_rows.
Proof. intros s1 s2 s3 H1 H2. unfold same_rows in *. congruence. Qed.

Lemma same_rows_row s s' k : same_rows s s' → Enr <$> enrollments s' !! k = Enr <$> enrollments s !! k.
Proof. intros H. by rewrite <-!lookup_fmap, H. Qed.
Lemma same_rows_put s k r r' : enrollments s !! k = Some r → Enr r' = Enr r → same_rows s (put_record k r' s).
Proof.
  intros Hr He. apply map_eq. intros k'. rewrite !lookup_fmap, lookup_put_record. case_decide as E; [|done].
  subst. rewrite Hr. cbn. by rewrite He.
Qed.

Lemma Get_row s id :
  Get s id = match Validate id with
             | Err _ => Err ErrInvalid
             | Ok _ => match Enr <$> enrollments s !! ID id with
                       | Some e => if bool_decide (e_ID e ≠ id) then Err ErrNotFound else Ok e
                       | None => Err ErrNotFound
                       end
             end.
Proof. unfold Get, get. destruct (Validate id); [|done]. destruct (enrollments s !! ID id); [|done]. cbn. by case_bool_decide. Qed.
Lemma same_rows_Get s s' id : same_rows s s' → Get s' id = Get s id.
Proof. intros H. by rewrite !Get_row, (same_rows_row _ _ _ H). Qed.

(** The keys of the rows a query selects. *)
Lemma listed_key s q p k :
  k ∈ (map_to_list (filter (λ '(id, r), list_matches q p id r = true) (enrollments s))).*1 ↔
  ∃ e, Enr <$> enrollments s !! k = Some e ∧ list_matches q p k (mkRecord e []) = true.
Proof.
  rewrite list_elem_of_fmap. split.
  - intros ([k' r] & -> & [Hr Hm]%elem_of_map_to_list%map_lookup_filter_Some). exists (Enr r). cbn. by rewrite Hr.
  - intros (e & He & Hm). apply fmap_Some in He as (r & Hr & ->). exists (k, r). split; [done|].
    by apply elem_of_map_to_list, map_lookup_filter_Some.
Qed.
Lemma same_rows_List s s' q p : same_rows s s' → List s' q p = List s q p.
Proof.
  intros H. unfold List.
  assert (sort_strings (map_to_list (filter (λ '(id, r), list_matches q p id r = true) (enrollments s'))).*1
          = sort_strings (map_to_list (filter (λ '(id, r), list_matches q p id r = true) (enrollments s))).*1) as ->.
  { apply sort_strings_unique; [|apply sort_strings_sorted]. rewrite sort_strings_perm.
    apply NoDup_Permutation; [apply NoDup_fst_map_to_list..|]. intros k. rewrite !listed_key. by rewrite (same_rows_row _ _ _ H). }
  destruct (page_of _ _) as [page next]. f_equal. induction page as [|k page IH]; cbn; [done|].
  by rewrite (same_rows_row _ _ _ H), IH.
Qed.

Section Delivery.
Context {PD : PlistDecoder} {PC : PushCertParser} {CC : CommandCodec} {CS : CommandSchema}.

Lemma same_rows_target s s' e : same_rows s s' → targetFor s' e = targetFor s e.
Proof. intros H. unfold targetFor. rewrite !(same_rows_List _ _ _ _ H). by rewrite (same_rows_Get _ _ _ H). Qed.
Lemma same_rows_loop s s' entry cmd ids : same_rows s s' → ∀ chk, check_loop s' entry cmd ids chk = check_loop s entry cmd ids chk.
Proof.
  intros H. induction ids as [|id ids IH]; intros chk; cbn; [done|]. rewrite (same_rows_Get _ _ _ H).
  destruct (Get s id) as [e|[]]; [|by rewrite ?IH..]. rewrite (same_rows_target _ _ _ H). destruct (targetFor s e); cbn; [|done]. by rewrite IH.
Qed.
Lemma same_rows_check c s s' ids cmd : same_rows s s' → checkTargets c s' ids cmd = checkTargets c s ids cmd.
Proof. intros H. unfold checkTargets. destruct (negb _); [done|]. destruct (commands_Support _); [|done]. by apply same_rows_loop. Qed.

(** ** Selection *)

(** Whether a queued command may still go to the enrollment: it is valid, and the target supports it. *)
Definition deliverable_to (c : Core) (s : Store) (id : EnrollmentID) (cmd : Command) : result serr bool :=
  match validatedCommand (Some cmd) with
  | Err _ => Ok false
  | Ok decoded => check ← checkTargets c s [id] decoded; Ok (bool_decide (unsupported check !! id = None))
  end.
Lemma same_rows_deliverable c s s' id cmd : same_rows s s' → deliverable_to c s' id cmd = deliverable_to c s id cmd.
Proof. intros H. unfold deliverable_to. destruct (validatedCommand _); [|done]. by rewrite (same_rows_check _ _ _ _ _ H). Qed.

Lemma deliverable_open skip now q : deliverable skip now q = true → open q.
Proof. unfold open. destruct (Terminal (qState q)) eqn:E; [|done]. by rewrite closed_deliverable. Qed.

(** [Next] hands out the first deliverable entry and marks it. *)
Lemma Next_inv s id skip now cmd s1 : Next s id skip now = Ok (Some cmd, s1) →
  ∃ r pre q post, get s id = Ok r ∧ queue r = pre ++ q :: post ∧ open q ∧ qCommand q = cmd ∧
    s1 = put_record (ID id) (r <| queue := pre ++ mark_sent now q :: post |>) s.
Proof.
  unfold Next. intros H. go_binds H. destruct (activeRecord_inv _ _ _ Hb) as (Hg & _).
  pose proof (update_first_spec (deliverable skip now) (mark_sent now) (queue a)) as Hu.
  destruct (update_first _ _ _) as [[q qs]|]; [|done]. destruct Hu as (pre & post & Hq & -> & _ & Hd). simplify_eq.
  exists a, pre, q, post. split_and!; [done..|by eapply deliverable_open|done|done].
Qed.
Lemma clear_selects_uuid u q : u ≠ [] → clear_selects (mkClearFilter u [] [] 0) q = bool_decide (open q ∧ UUID (qCommand q) = u).
Proof.
  intros Hu. apply eq_bool_prop_intro. rewrite bool_decide_spec. unfold clear_selects, open. cbn [f_States f_RequestType f_CommandUUID f_Before].
  rewrite (bool_decide_false ([] ≠ [])), (bool_decide_true (u ≠ [])) by naive_solver.
  destruct (Terminal (qState q)); cbn; [naive_solver|]. case_bool_decide; cbn; naive_solver.
Qed.
Lemma ClearCommand_inv s id u wt n s' : ClearCommand s id u wt = Ok (n, s') →
  ∃ r, get s id = Ok r ∧ u ≠ [] ∧
    s' = put_record (ID id) (r <| queue := (λ q, if bool_decide (open q ∧ UUID (qCommand q) = u)
           then q <| qState := StateCleared |> <| CompletedAt := wt |> else q) <$> queue r |>) s.
Proof.
  unfold ClearCommand, Clear. case_bool_decide as Hu; [done|]. intros H. go_binds H. exists a. split_and!; [done..|].
  f_equal. unfold setf; cbn [Enr]. f_equal. apply list_fmap_ext. intros _ q _. by rewrite clear_selects_uuid.
Qed.

(** An entry whose command was discarded, or is another one. *)
Definition discards (cmd : Command) (q : QueuedCommand) : Prop := open q ∧ UUID (qCommand q) = UUID cmd.
Definition purged (cmd : Command) (q q' : QueuedCommand) : Prop :=
  qCommand q' = qCommand q ∧ (discards cmd q → qState q' = StateCleared) ∧ (¬ discards cmd q → q' = q).

Lemma purged_map cmd wt qs : Forall2 (purged cmd) qs
  ((λ q, if bool_decide (open q ∧ UUID (qCommand q) = UUID cmd) then q <| qState := StateCleared |> <| CompletedAt := wt |> else q) <$> qs).
Proof. induction qs as [|q qs IH]; cbn; constructor; [|done]. unfold purged, discards. case_bool_decide; naive_solver. Qed.

Lemma Next_Clear s id skip now cmd s1 wt n s2 :
  Next s id skip now = Ok (Some cmd, s1) → ClearCommand s1 id (UUID cmd) wt = Ok (n, s2) →
  same_rows s s2 ∧ (∀ k, k ≠ ID id → enrollments s2 !! k = enrollments s !! k) ∧
  Forall2 (purged cmd) (queue_at s (ID id)) (queue_at s2 (ID id)) ∧
  Exists (discards cmd) (queue_at s (ID id)).
Proof.
  intros (r & pre & q & post & Hg & Hq & Ho & Hc & ->)%Next_inv (r1 & Hg1 & Hu & ->)%ClearCommand_inv.
  destruct (get_inv _ _ _ Hg) as (_ & Hr & _). destruct (get_inv _ _ _ Hg1) as (_ & Hr1 & _).
  rewrite lookup_put_record, decide_True in Hr1 by done. injection Hr1 as <-.
  split_and!.
  - etrans; [apply (same_rows_put s _ _ (r <| queue := pre ++ mark_sent now q :: post |>) Hr); done|].
    eapply same_rows_put; [by rewrite lookup_put_record, decide_True|done].
  - intros k Hk. by rewrite !lookup_put_record, !decide_False.
  - rewrite (queue_at_Some _ _ _ Hr). erewrite queue_at_Some by (by rewrite lookup_put_record, decide_True).
    unfold setf; cbn [queue]. rewrite Hq, fmap_app, fmap_cons. apply Forall2_app; [apply purged_map|]. constructor; [|apply purged_map].
    cbn. rewrite bool_decide_true by (split; [done|by rewrite <-Hc]). unfold purged, discards. cbn. naive_solver congruence.
  - rewrite (queue_at_Some _ _ _ Hr), Hq. apply Exists_app; right. left. by split; [|rewrite Hc].
Qed.

(** What the loop does to an entry: nothing; or it is discarded with its command; or it is
    the one that was selected, or on which the loop failed. *)
Definition settled (bad : list Command) (res : result serr (option Command)) (q q' : QueuedCommand) : Prop :=
  qCommand q' = qCommand q ∧
  (q' = q ∨ open q ∧ (qState q' = StateCleared ∧ UUID (qCommand q) ∈ UUID <$> bad ∨
                      qState q' = StateSent ∧ (res = Ok (Some (qCommand q)) ∨ ∃ e, res = Err e))).
Definition rejection (id : EnrollmentID) (cmd : Command) (ev : Event) : Prop :=
  ev_Type ev = CommandRejected ∧ ev_Enrollment ev = id ∧ ∃ reason, ev_Data ev = rejected cmd reason.

Record selected (c : Core) (id : EnrollmentID) (skip : bool) (now : Time) (w : world)
    (res : result serr (option Command)) (w' : world) (bad : list Command) : Prop := {
  sel_bad : Forall (λ cmd, cmd ∈ qCommand <$> queue_at (w_store w) (ID id) ∧ deliverable_to c (w_store w) id cmd = Ok false) bad;
  sel_rows : same_rows (w_store w) (w_store w');
  sel_others : ∀ k, k ≠ ID id → enrollments (w_store w') !! k = enrollments (w_store w) !! k;
  sel_queue : Forall2 (settled bad res) (queue_at (w_store w) (ID id)) (queue_at (w_store w') (ID id));
  sel_events : ∃ evs, w_events w' = w_events w ++ evs ∧ if has_bus c then Forall2 (rejection id) bad evs else evs = [];
  sel_result : match res with
               | Ok (Some cmd) => cmd ∈ qCommand <$> queue_at (w_store w) (ID id) ∧ deliverable_to c (w_store w) id cmd = Ok true
               | Ok None => Forall (λ q, deliverable skip now q = false) (queue_at (w_store w') (ID id))
               | Err _ => True
               end }.

Lemma settled_same bad res qs : Forall2 (settled bad res) qs qs.
Proof. apply Forall_Forall2_diag, Forall_true. intros q. split; auto. Qed.
Lemma no_events c (l : list Event) id : ∃ evs, l = l ++ evs ∧ if has_bus c then Forall2 (rejection id) [] evs else evs = [].
Proof. exists []. rewrite app_nil_r. split; [done|]. by destruct (has_bus c). Qed.

(** The loop ends without touching anything. *)
Lemma selected_idle c id skip now w res :
  match res with Ok (Some _) => False | Ok None => Next (w_store w) id skip now = Ok (None, w_store w) | Err _ => True end →
  selected c id skip now w res w [].
Proof.
  intros Hr. split; [constructor|done|done|apply settled_same|apply no_events|]. destruct res as [[]|]; [done| |done].
  unfold Next in Hr. go_binds Hr. destruct (activeRecord_inv _ _ _ Hb) as ((_ & Ha & _)%get_inv & _).
  pose proof (update_first_spec (deliverable skip now) (mark_sent now) (queue a)) as Hu.
  destruct (update_first _ _ _) as [[]|]; [done|]. by rewrite (queue_at_Some _ _ _ Ha).
Qed.

(** The loop ends with the entry that [Next] has marked. *)
Lemma selected_stop c id skip now w cmd s1 res k :
  Next (w_store w) id skip now = Ok (Some cmd, s1) →
  match res with Ok (Some cmd') => cmd' = cmd ∧ deliverable_to c (w_store w) id cmd = Ok true | Ok None => False | Err _ => True end →
  selected c id skip now w res (mkWorld s1 (w_events w) k) [].
Proof.
  intros (r & pre & q & post & Hg & Hq & Ho & Hc & ->)%Next_inv Hr. destruct (get_inv _ _ _ Hg) as (_ & Hr0 & _).
  assert (cmd ∈ qCommand <$> queue_at (w_store w) (ID id)) as Hin.
  { rewrite (queue_at_Some _ _ _ Hr0), Hq, fmap_app, fmap_cons, Hc. set_solver. }
  split; cbn [w_store w_events]; [constructor| | | |apply no_events|].
  - by apply (same_rows_put _ _ _ (r <| queue := pre ++ mark_sent now q :: post |>) Hr0).
  - intros k' Hk. by rewrite lookup_put_record, decide_False.
  - rewrite (queue_at_Some _ _ _ Hr0). erewrite queue_at_Some by (by rewrite lookup_put_record, decide_True).
    unfold setf; cbn [queue]. rewrite Hq. apply Forall2_app; [apply settled_same|]. constructor; [|apply settled_same].
    split; [done|]. right. split; [done|]. right. split; [done|]. destruct res as [[cmd'|]|]; [|done|by eauto]. left. destruct Hr as [-> _]. by rewrite Hc.
  - destruct res as [[cmd'|]|]; [|done..]. by destruct Hr as [-> ?].
Qed.

(** The loop goes on after it has discarded a command. *)
Lemma purged_settled cmd bad res q q1 q2 : purged cmd q q1 → settled bad res q1 q2 → settled (cmd :: bad) res q q2.
Proof.
  intros (Hc & Hd & Hn) (Hc2 & H). split; [congruence|]. destruct (decide (discards cmd q)) as [Hq|Hq].
  - right. destruct Hq as [Ho Hu]. split; [done|]. left. destruct H as [->|[Ho1 _]].
    + split; [by apply Hd|]. rewrite fmap_cons, Hu. by left.
    + unfold open in Ho1. rewrite Hd in Ho1 by done. by vm_compute in Ho1.
  - rewrite (Hn Hq) in *. destruct H as [|(Ho & [[H1 H2]|H])]; [by left| |].
    + right. split; [done|]. left. split; [done|]. rewrite fmap_cons. by right.
    + right. auto.
Qed.

Lemma selected_discard c id skip now w cmd w2 res w' bad evs :
  same_rows (w_store w) (w_store w2) → (∀ k, k ≠ ID id → enrollments (w_store w2) !! k = enrollments (w_store w) !! k) →
  Forall2 (purged cmd) (queue_at (w_store w) (ID id)) (queue_at (w_store w2) (ID id)) →
  Exists (discards cmd) (queue_at (w_store w) (ID id)) → cmd ∈ qCommand <$> queue_at (w_store w) (ID id) →
  deliverable_to c (w_store w) id cmd = Ok false →
  w_events w2 = w_events w ++ evs → (if has_bus c then Forall2 (rejection id) [cmd] evs else evs = []) →
  selected c id skip now w2 res w' bad → selected c id skip now w res w' (cmd :: bad).
Proof.
  intros Hs Ho Hq Hex Hin Hbad He Hev [B R O Q (evs' & E & Ev) F].
  assert (qCommand <$> queue_at (w_store w2) (ID id) = qCommand <$> queue_at (w_store w) (ID id)) as Hqc.
  { clear -Hq. induction Hq as [|q q1 qs qs1 [H _] _ IH]; [done|]. cbn. by rewrite H, IH. }
  split.
  - constructor; [done|]. eapply Forall_impl; [exact B|]. intros x. by rewrite Hqc, (same_rows_deliverable _ _ _ _ _ Hs).
  - by etrans.
  - intros k Hk. by rewrite O, Ho.
  - clear -Hq Q. revert Q. generalize (queue_at (w_store w') (ID id)). induction Hq as [|q q1 qs qs1 H _ IH]; intros l Hl.
    + apply Forall2_nil_inv_l in Hl as ->. constructor.
    + apply Forall2_cons_inv_l in Hl as (q2 & l' & H2 & Hl & ->). constructor; [by eapply purged_settled|by apply IH].
  - exists (evs ++ evs'). rewrite E, He, app_assoc. split; [done|]. destruct (has_bus c); [|by subst].
    change (cmd :: bad) with ([cmd] ++ bad). by apply Forall2_app.
  - destruct res as [[cmd'|]|]; [|done..]. by rewrite <-Hqc, <-(same_rows_deliverable _ _ _ _ _ Hs).
Qed.

Lemma open_count_queue id s : open_count id s = length (filter open (queue_at s (ID id))).
Proof. unfold open_count, queue_at. by destruct (enrollments s !! ID id). Qed.
(** Every discarded command leaves fewer open ones. *)
Lemma purged_decreases cmd qs qs' : Forall2 (purged cmd) qs qs' →
  (length (filter open qs') ≤ length (filter open qs))%nat ∧ (Exists (discards cmd) qs → (length (filter open qs') < length (filter open qs))%nat).
Proof.
  induction 1 as [|q q' qs qs' (Hc & Hd & Hn) _ [IH1 IH2]]; [split; [done|by intros ?%Exists_nil]|].
  rewrite Exists_cons. destruct (decide (discards cmd q)) as [Hq|Hq].
  - rewrite (filter_cons_True open q) by apply Hq. rewrite filter_cons_False by (unfold open; rewrite Hd by done; by vm_compute). cbn. lia.
  - rewrite (Hn Hq), !filter_cons. destruct (decide (open q)); cbn; (split; [lia|]); intros [?|?%IH2]; (done || lia).
Qed.

(** A round that discards. *)
Lemma discard_spec c id skip now cmd reason again w s1 :
  Next (w_store w) id skip now = Ok (Some cmd, s1) → deliverable_to c (w_store w) id cmd = Ok false →
  (∀ w2, (open_count id (w_store w2) < open_count id (w_store w))%nat →
     ∃ res w' bad, again w2 = (Ok res, w') ∧ selected c id skip now w2 res w' bad) →
  ∃ res w' bad, discard c id cmd reason again (mkWorld s1 (w_events w) (w_tick w)) = (Ok res, w') ∧ selected c id skip now w res w' bad.
Proof.
  intros Hn Hbad Hagain. unfold discard, mbind, srv_bind, tick, call. cbn [w_store w_tick setf].
  destruct (ClearCommand _ _ _ _) as [[n s2]|e] eqn:Hc.
  2:{ do 3 eexists. split; [reflexivity|]. unfold setf; cbn. by apply (selected_stop _ _ _ _ _ cmd). }
  destruct (Next_Clear _ _ _ _ _ _ _ _ _ Hn Hc) as (H1 & H2 & H3 & H4).
  assert (∃ w2, publish c CommandRejected id actor_server (rejected cmd reason)
                  (mkWorld s2 (w_events w) (S (w_tick w))) = (Ok tt, w2) ∧
                w_store w2 = s2 ∧ ∃ evs, w_events w2 = w_events w ++ evs ∧ if has_bus c then Forall2 (rejection id) [cmd] evs else evs = [])
    as (w2 & E & Es & evs & Ev & Hev).
  { unfold publish. destruct (has_bus c); cbn; eexists; (split; [reflexivity|]); (split; [done|]).
    - eexists. split; [reflexivity|]. constructor; [|constructor]. split; [done|]. split; [done|]. by eexists.
    - exists []. by rewrite app_nil_r. }
  destruct (Hagain w2) as (res & w' & bad & Ea & Hsel).
  { rewrite !open_count_queue, Es. by apply (purged_decreases cmd). }
  exists res, w', (cmd :: bad). split; [unfold setf; cbn; by rewrite E|]. rewrite <-Es in H1, H2, H3. eapply selected_discard; try done.
  apply Next_inv in Hn as (r & pre & q & post & (_ & Hr & _)%get_inv & Hq & _ & Hcq & _).
  rewrite (queue_at_Some _ _ _ Hr), Hq, fmap_app, fmap_cons, Hcq. set_solver.
Qed.

(** The loop from any world, with fuel beyond the number of open commands. *)
Lemma next_loop_spec c id skip now fuel : ∀ w, (open_count id (w_store w) < fuel)%nat →
  ∃ res w' bad, next_loop c fuel id skip now w = (Ok res, w') ∧ selected c id skip now w res w' bad.
Proof.
  induction fuel as [|fuel IH]; intros w Hf; [lia|]. cbn [next_loop]. unfold mbind at 1, srv_bind, call at 1.
  destruct (Next (w_store w) id skip now) as [[[cmd|] s1]|e] eqn:Hn.
  2:{ assert (s1 = w_store w) as -> by (unfold Next in Hn; apply bind_Ok_inv in Hn as (? & _ & Hn); destruct (update_first _ _ _) as [[]|]; congruence).
      assert (w <| w_store := w_store w |> = w) as -> by (by destruct w). exists (Ok None), w, []. split; [reflexivity|]. by apply selected_idle. }
  2:{ exists (Err e), w, []. split; [reflexivity|]. by apply selected_idle. }
  assert (w <| w_store := s1 |> = mkWorld s1 (w_events w) (w_tick w)) as -> by done.
  assert (deliverable_to c s1 id cmd = deliverable_to c (w_store w) id cmd) as Hsame.
  { apply same_rows_deliverable. apply Next_inv in Hn as (r & pre & q & post & (_ & Hr & _)%get_inv & _ & _ & _ & ->).
    by apply (same_rows_put _ _ _ (r <| queue := pre ++ mark_sent now q :: post |>) Hr). }
  assert (∀ w2, (open_count id (w_store w2) < open_count id (w_store w))%nat → (open_count id (w_store w2) < fuel)%nat) by lia.
  unfold deliverable_to at 1 in Hsame. destruct (validatedCommand (Some cmd)) as [decoded|].
  2:{ eapply discard_spec; eauto. }
  unfold mbind at 1, ask at 1. cbn [w_store]. destruct (checkTargets c s1 [id] decoded) as [check|e]; cbn in Hsame.
  2:{ do 3 eexists. split; [reflexivity|]. by apply (selected_stop _ _ _ _ _ cmd). }
  destruct (unsupported check !! id).
  - eapply discard_spec; eauto.
  - do 3 eexists. split; [reflexivity|]. by apply (selected_stop _ _ _ _ _ cmd).
Qed.

(** C18 The selection of the next command ends, for every queue and schema. It hands out a
    command of the queue that is valid and that the target supports now; it comes back
    empty only when nothing is deliverable. Every command it discards is one that is
    invalid or unsupported, and each is reported once; no other entry, row or enrollment
    changes, but for the entry of the selected command, which is marked sent. *)
Theorem nextEligible_spec c id skip now w :
  ∃ res w' bad, nextEligible c id skip now w = (Ok res, w') ∧ selected c id skip now w res w' bad.
Proof. apply next_loop_spec. lia. Qed.

(** ** Queueing *)

Lemma validatedCommand_again cmd d : validatedCommand cmd = Ok d → validatedCommand (Some d) = Ok d.
Proof.
  unfold validatedCommand. destruct cmd as [cmd|]; [|done]. destruct (DecodeCommand (CmdRaw cmd)) as [d'|] eqn:E; [|done].
  intros H. assert (d' = d) as -> by (repeat case_match; congruence). destruct (DecodeCommand_raw _ _ E) as [-> _]. rewrite E.
  destruct (_ || _); [done|]. rewrite !bool_decide_false by naive_solver. done.
Qed.

(** A target is kept when it would be kept on its own. *)
Lemma check_loop_keep s entry cmd ids id : ∀ chk chk',
  check_loop s entry cmd ids chk = Ok chk' → id ∈ keep chk' →
  id ∈ keep chk ∨ id ∈ ids ∧ ∃ chk1, check_loop s entry cmd [id] (mkTargetCheck [] ∅ ∅) = Ok chk1 ∧ unsupported chk1 !! id = None.
Proof.
  induction ids as [|j ids IH]; intros chk chk'; cbn [check_loop]; [intros [= ->]; auto|].
  destruct (Get s j) as [e|[]] eqn:Hg; try done.
  - destruct (targetFor s e) as [t|] eqn:Ht; [|done]. cbn [mbind result_bind]. intros H Hk.
    destruct (IH _ _ H Hk) as [Hin|(? & ?)]; [|set_solver].
    destruct (target_verdict entry cmd t) as [issues|] eqn:Hv; cbn in Hin; [|auto].
    apply elem_of_app in Hin as [|Hj%list_elem_of_singleton]; [auto|]. subst j. right. split; [set_solver|].
    eexists. rewrite Hg. cbn [mbind result_bind]. rewrite Ht. cbn [mbind result_bind]. rewrite Hv. split; [done|]. cbn. apply lookup_empty.
  - intros H Hk. destruct (IH _ _ H Hk) as [Hin|(? & ?)]; [|set_solver]. cbn in Hin.
    apply elem_of_app in Hin as [|Hj%list_elem_of_singleton]; [auto|]. subst j. right. split; [set_solver|].
    eexists. rewrite Hg. split; [done|]. cbn. apply lookup_empty.
Qed.
Lemma checkTargets_keep c s ids cmd chk id : checkTargets c s ids cmd = Ok chk → id ∈ keep chk →
  id ∈ ids ∧ ∃ chk1, checkTargets c s [id] cmd = Ok chk1 ∧ unsupported chk1 !! id = None.
Proof.
  unfold checkTargets. destruct (negb _); [intros [= <-]; cbn; eauto|]. destruct (commands_Support _); [|intros [= <-]; cbn; eauto].
  intros H Hk. destruct (check_loop_keep _ _ _ _ _ _ _ H Hk) as [?%not_elem_of_nil|?]; done.
Qed.
(** Every target is kept or reported. *)
Lemma check_loop_all s entry cmd ids : ∀ chk chk', check_loop s entry cmd ids chk = Ok chk' →
  (∀ id, id ∈ keep chk ∨ is_Some (unsupported chk !! id) → id ∈ keep chk' ∨ is_Some (unsupported chk' !! id)) ∧
  (∀ id, id ∈ ids → id ∈ keep chk' ∨ is_Some (unsupported chk' !! id)).
Proof.
  induction ids as [|j ids IH]; intros chk chk'; cbn [check_loop]; [intros [= ->]; split; [auto|by intros ? ?%not_elem_of_nil]|].
  assert (∀ chk1, (∀ id, id = j ∨ id ∈ keep chk ∨ is_Some (unsupported chk !! id) → id ∈ keep chk1 ∨ is_Some (unsupported chk1 !! id)) →
    check_loop s entry cmd ids chk1 = Ok chk' →
    (∀ id, id ∈ keep chk ∨ is_Some (unsupported chk !! id) → id ∈ keep chk' ∨ is_Some (unsupported chk' !! id)) ∧
    (∀ id, id ∈ j :: ids → id ∈ keep chk' ∨ is_Some (unsupported chk' !! id))) as Hstep.
  { intros chk1 Hc H. destruct (IH _ _ H) as [H1 H2]. split; [auto|]. intros id [->|]%elem_of_cons; auto. }
  destruct (Get s j) as [e|[]]; try done.
  - destruct (targetFor s e); [|done]. cbn [mbind result_bind]. apply Hstep. intros id Hid.
    destruct (target_verdict _ _ _); cbn; [set_solver|]. destruct (decide (id = j)) as [->|]; [right; by rewrite lookup_insert_eq|].
    rewrite lookup_insert_ne by done. naive_solver.
  - apply Hstep. cbn. set_solver.
Qed.
Lemma checkTargets_all c s ids cmd chk id : checkTargets c s ids cmd = Ok chk → id ∈ ids → id ∈ keep chk ∨ is_Some (unsupported chk !! id).
Proof.
  unfold checkTargets. destruct (negb _); [intros [= <-]; cbn; auto|]. destruct (commands_Support _); [|intros [= <-]; cbn; auto].
  intros [_ H]%check_loop_all. auto.
Qed.

(** The store's part: what was queued, for whom, and what it left alone. *)
Record enqueued (s s' : Store) (ids qd : list EnrollmentID) (skipped skipped' : gmap EnrollmentID serr) (entry : QueuedCommand) : Prop := {
  en_sub : qd ⊆ ids;
  en_active : ∀ id, id ∈ qd → ∃ e, Get s id = Ok e;
  en_all : ∀ id, id ∈ ids → id ∈ qd ∨ is_Some (skipped' !! id);
  en_old : ∀ id, is_Some (skipped !! id) → is_Some (skipped' !! id);
  en_rows : same_rows s s';
  en_queue : ∀ k, queue_at s' k = queue_at s k ++ replicate (length (filter (λ id, ID id = k) qd)) entry }.

Lemma enqueue_one_queue cmd o now s res id :
  let '(s', res') := enqueue_one cmd o now (s, res) id in
  ∃ qd, Queued res' = Queued res ++ qd ∧
    enqueued s s' [id] qd (Skipped res) (Skipped res') (mkQueued cmd StatePending (o_DedupeKey o) now 0 0 0 0 0 None).
Proof.
  unfold enqueue_one. set (entry := mkQueued _ _ _ _ _ _ _ _ _ _).
  assert (∀ e, ∃ qd, Queued res = Queued res ++ qd ∧ enqueued s s [id] qd (Skipped res) (<[id := e]> (Skipped res)) entry) as Hskip.
  { intros e. exists []. rewrite app_nil_r. split; [done|]. split; [set_solver|by intros ? ?%not_elem_of_nil| | |done|].
    - intros j ->%list_elem_of_singleton. right. by rewrite lookup_insert_eq.
    - intros j Hj. destruct (decide (id = j)) as [->|]; [by rewrite lookup_insert_eq|by rewrite lookup_insert_ne].
    - intros k. cbn. by rewrite app_nil_r. }
  destruct (activeRecord s id) as [r|e] eqn:Ha; [|apply Hskip]. destruct (_ && _); [apply Hskip|]. cbn [Queued Skipped].
  apply activeRecord_inv in Ha as [Hg _]. destruct (get_inv _ _ _ Hg) as (_ & Hr & _).
  exists [id]. split; [done|]. split; [done| |set_solver|done| |].
  - intros j ->%list_elem_of_singleton. exists (Enr r). apply Get_spec. eauto.
  - by apply (same_rows_put _ _ _ (r <| queue := queue r ++ [entry] |>) Hr).
  - intros k. unfold queue_at. rewrite lookup_put_record. case_decide as E.
    + rewrite filter_cons_True by done. subst k. by rewrite Hr.
    + rewrite filter_cons_False by done. cbn. by rewrite app_nil_r.
Qed.

Lemma enqueue_fold cmd o now ids : ∀ s res,
  let '(s', res') := foldl (enqueue_one cmd o now) (s, res) ids in
  ∃ qd, Queued res' = Queued res ++ qd ∧
    enqueued s s' ids qd (Skipped res) (Skipped res') (mkQueued cmd StatePending (o_DedupeKey o) now 0 0 0 0 0 None).
Proof.
  set (entry := mkQueued _ _ _ _ _ _ _ _ _ _). induction ids as [|id ids IH]; intros s res; cbn [foldl].
  { exists []. rewrite app_nil_r. split; [done|]. split; try done; [by intros ? ?%not_elem_of_nil..|]. intros k. cbn. by rewrite app_nil_r. }
  pose proof (enqueue_one_queue cmd o now s res id) as H1. destruct (enqueue_one cmd o now (s, res) id) as [s1 res1].
  specialize (IH s1 res1). destruct (foldl _ _ _) as [s' res']. destruct H1 as (qd1 & E1 & [A1 B1 C1 D1 R1 Q1]), IH as (qd2 & E2 & [A2 B2 C2 D2 R2 Q2]).
  exists (qd1 ++ qd2). rewrite E2, E1, app_assoc. split; [done|]. split.
  - set_solver.
  - intros j [|Hj]%elem_of_app; [auto|]. rewrite <-(same_rows_Get _ _ _ R1). auto.
  - intros j [->|Hj]%elem_of_cons; rewrite elem_of_app.
    + destruct (C1 id) as [|?]; [set_solver|auto|auto].
    + destruct (C2 j Hj); auto.
  - auto.
  - by etrans.
  - intros k. rewrite Q2, Q1, filter_app, length_app, replicate_add, app_assoc. done.
Qed.
Lemma Enqueue_inv s ids cmd o wt res s' : Enqueue s ids (Some cmd) o wt = Ok (res, s') →
  enqueued s s' ids (Queued res) ∅ (Skipped res) (mkQueued cmd StatePending (o_DedupeKey o) (if time_is_zero (o_Now o) then wt else o_Now o) 0 0 0 0 0 None).
Proof.
  unfold Enqueue. intros H. apply bind_Ok_inv in H as (_ & _ & H). set (now := if time_is_zero _ then _ else _) in *.
  pose proof (enqueue_fold cmd o now ids s (mkEnqueueResult [] ∅)) as Hf. destruct (foldl _ _ _) as [s1 res1]. injection H as -> ->.
  destruct Hf as (qd & E & H). cbn in *. by rewrite E.
Qed.

Definition queued_event (cmd : Command) (id : EnrollmentID) (ev : Event) : Prop :=
  ev_Type ev = CommandQueued ∧ ev_Enrollment ev = id ∧ ev_Data ev = DCommand cmd.

Lemma publish_queued_spec c cmd ids : ∀ w, ∃ w', publish_queued c cmd ids w = (Ok tt, w') ∧ w_store w' = w_store w ∧
  ∃ evs, w_events w' = w_events w ++ evs ∧ if has_bus c then Forall2 (queued_event cmd) ids evs else evs = [].
Proof.
  induction ids as [|id ids IH]; intros w; cbn [publish_queued].
  { exists w. split_and!; [done..|]. exists []. rewrite app_nil_r. split; [done|]. by destruct (has_bus c). }
  unfold mbind, srv_bind, publish. destruct (has_bus c) eqn:Hb; cbn [negb].
  - unfold mbind, srv_bind, tick, emit. match goal with |- context [publish_queued c cmd ids ?w0] => destruct (IH w0) as (w' & E & Es & evs & Ev & Hev) end.
    exists w'. split_and!; [done..|]. eexists. rewrite Ev. unfold setf; cbn [w_events]. rewrite <-app_assoc. split; [reflexivity|].
    cbn. constructor; [by split_and!|done].
  - destruct (IH w) as (w' & E & Es & evs & Ev & Hev). exists w'. cbn. eauto.
Qed.

Lemma runHooks_world hs cl w r w' : runHooks hs cl w = (r, w') → w' = w.
Proof. induction hs as [|h hs IH]; cbn; [by intros [= _ ->]|]. destruct (Before h cl); [done|]. by intros [= _ ->]. Qed.

(** C19 Queueing through the service: when it succeeds the command was valid, every id given
    is queued or skipped, each queued one names an enrollment that supports the command,
    so that the selection would deliver it, its queue grows by one pending entry of that
    command at the end, no other queue and no row changes, and one event per queued
    id is published, in order. *)
Theorem Core_Enqueue_spec c ids cmd o w res w' :
  Core_Enqueue c ids cmd o w = (Ok res, w') →
  ∃ d entry, validatedCommand cmd = Ok d ∧ qCommand entry = d ∧ qState entry = StatePending ∧ DedupeKey entry = o_DedupeKey o ∧
    (∀ id, id ∈ q_Queued res → id ∈ ids ∧ (∃ e, Get (w_store w) id = Ok e) ∧ deliverable_to c (w_store w) id d = Ok true) ∧
    (∀ id, id ∈ ids → id ∈ q_Queued res ∨ is_Some (q_Skipped res !! id)) ∧
    (∀ k, queue_at (w_store w') k = queue_at (w_store w) k ++ replicate (length (filter (λ id, ID id = k) (q_Queued res))) entry) ∧
    same_rows (w_store w) (w_store w') ∧
    ∃ evs, w_events w' = w_events w ++ evs ∧ if has_bus c then Forall2 (queued_event d) (q_Queued res) evs else evs = [].
Proof.
  unfold Core_Enqueue, enqueue. intros H.
  apply srv_bind_Ok in H as (u0 & w1 & ->%runHooks_world & H). apply srv_bind_Ok in H as (d & w1 & H1 & H).
  unfold orelse in H1. destruct (validatedCommand cmd) as [d'|] eqn:Hv; [|done]. injection H1 as -> <-.
  apply srv_bind_Ok in H as (now & w1 & H1 & H).
  assert (w_store w1 = w_store w ∧ w_events w1 = w_events w) as [Es1 Ee1] by (destruct (time_is_zero _); by injection H1 as _ <-). clear H1.
  apply srv_bind_Ok in H as (check & w2 & H1 & H). apply srv_bind_Ok in H1 as (rc & w3 & [= <- <-] & H1).
  rewrite Es1 in H1. unfold orelse in H1. destruct (checkTargets c (w_store w) ids d) as [check'|] eqn:Hcheck; [|done]. injection H1 as -> <-.
  apply srv_bind_Ok in H as (res0 & w2 & H1 & H). apply srv_bind_Ok in H as (u & w3 & H2 & [= <- <-]).
  destruct (publish_queued_spec c d (Queued res0) w2) as (w4 & E4 & Es4 & evs & Ev & Hev). rewrite E4 in H2. injection H2 as _ <-.
  set (entry now := mkQueued d StatePending (o_DedupeKey o) now 0 0 0 0 0 None).
  assert (∃ at_, enqueued (w_store w) (w_store w2) (keep check) (Queued res0) ∅ (Skipped res0) (entry at_) ∧ w_events w2 = w_events w)
    as (at_ & [A B C _ R Q] & Ee2).
  { destruct (_ || _) eqn:Hkeep.
    - apply srv_bind_Ok in H1 as (wt & w5 & [= <- <-] & H1). apply srv_bind_Ok in H1 as (x & w6 & H1 & H2). unfold call in H1.
      unfold setf in H1; cbn [w_store] in H1. rewrite Es1 in H1.
      destruct (Enqueue _ _ _ _ _) as [[x' s6]|] eqn:He; [|by injection H1 as <- <-]. injection H1 as <- <-. unfold orelse in H2. injection H2 as -> <-.
      eexists. split; [exact (Enqueue_inv _ _ _ _ _ _ _ He)|done].
    - injection H1 as <- <-. exists 0. rewrite Es1. apply orb_false_iff in Hkeep as [Hk%bool_decide_eq_false _]. apply dec_stable in Hk.
      split; [|done]. rewrite Hk. split; try done; [by intros ? ?%not_elem_of_nil..|]. intros k. cbn. by rewrite app_nil_r. }
  exists d, (entry at_). split_and!; [done..| | | | |]; cbn [q_Queued q_Skipped].
  - intros id Hid. destruct (checkTargets_keep _ _ _ _ _ id Hcheck) as (Hin & chk1 & Hc1 & Hn); [by apply A|].
    split_and!; [done|by apply B|]. unfold deliverable_to. rewrite (validatedCommand_again _ _ Hv), Hc1. cbn. by rewrite Hn.
  - intros id Hid. destruct (checkTargets_all _ _ _ _ _ id Hcheck Hid) as [[Hq|[e He]]%C|[e He]]; [by left|right..].
    + apply lookup_union_is_Some. right. rewrite lookup_fmap, He. by eexists.
    + apply lookup_union_is_Some. left. by eexists.
  - intros k. by rewrite Es4.
  - by rewrite Es4.
  - exists evs. by rewrite Ev, Ee2.
Qed.
End Delivery.
