(* ===== verification/ServiceHandshake.v ===== *)
(** * What the user handshake guarantees

    The challenge that is issued parses back to its realm and nonce, the parser ends on
    every text, and the verifier accepts exactly the digest of that nonce. A challenge is
    answered once: after an answer none is outstanding, and a token is handed out only for
    an answer in time that the verifier accepted. *)
From S2P Require Import Prelude GoStrings Sha256 ServiceUserAuth PredEval Mdm Storage Replacement InMem InMemQueue ServiceBase.

(** ** The parser ends *)

Lemma strip_first_shorter es s s' : Forall (λ e, e ≠ []) es → strip_first es s = Some s' → (length s' ≤ length s)%nat.
Proof.
  induction 1 as [|e es He _ IH]; cbn; [done|]. destruct (has_prefix s e); [intros [= <-]; rewrite length_drop; lia|done].
Qed.
Lemma trim_fuel_length es n : Forall (λ e, e ≠ []) es → ∀ s, (length (trim_fuel es n s) ≤ length s)%nat.
Proof.
  intros Hes. induction n as [|n IH]; intros s; cbn; [done|]. destruct (strip_first es s) as [s'|] eqn:E; [|done].
  etrans; [apply IH|]. by eapply strip_first_shorter.
Qed.
Lemma trim_space_length s : (length (trim_space s) ≤ length s)%nat.
Proof.
  unfold trim_space, trim_right. rewrite length_reverse. etrans; [apply trim_fuel_length|]; [by repeat constructor|].
  rewrite length_reverse. apply trim_fuel_length. by repeat constructor.
Qed.
Lemma trim_blanks_length s : (length (trim_blanks s) ≤ length s)%nat.
Proof.
  unfold trim_blanks. induction s as [|c s IH]; cbn; [done|]. destruct (is_blank c); [|done].
  destruct (span is_blank s). cbn in *. lia.
Qed.
Lemma cut_at_spec c s w r : cut_at c s = Some (w, r) ↔ s = w ++ c :: r ∧ c ∉ w.
Proof.
  revert w. induction s as [|d s IH]; intros w; cbn.
  - split; [done|]. intros [H _]. by destruct w.
  - destruct (Z.eqb_spec d c) as [->|Hd].
    + split; [intros [= <- <-]; split; [done|by apply not_elem_of_nil]|]. intros [E Hn]. destruct w as [|x w]; [by injection E as ->|].
      injection E as -> _. set_solver.
    + destruct (cut_at c s) as [[w' r']|] eqn:E; cbn.
      * split.
        -- intros [= <- <-]. destruct (proj1 (IH w') eq_refl) as [-> Hn]. split; [done|]. set_solver.
        -- intros [E' Hn]. destruct w as [|x w]; [by injection E'|]. injection E' as -> ->.
           assert (Some (w', r') = Some (w, r)) as [= -> ->] by (apply IH; set_solver). done.
      * split; [done|]. intros [E' Hn]. destruct w as [|x w]; [by injection E'|]. injection E' as -> ->.
        assert (None = Some (w, r)) by (apply IH; set_solver). done.
Qed.

Section Parse.
Context {UC : UnicodeCase}.

Lemma digest_value_length s v r : digest_value s = Ok (v, r) → (length r ≤ length s)%nat.
Proof.
  unfold digest_value. pose proof (trim_blanks_length s) as H. set (rest := trim_blanks s) in *. destruct (has_prefix rest [34]).
  - destruct (cut_at 34 (drop 1 rest)) as [[w a]|] eqn:E; [|done]. apply cut_at_spec in E as [E _].
    pose proof (trim_blanks_length a). apply (f_equal length) in E. rewrite length_drop, length_app in E. cbn in E.
    destruct (_ && _); [done|]. intros [= _ <-]. lia.
  - destruct (cut_at 44 rest) as [[w a]|] eqn:E; [|intros [= _ <-]; cbn; lia]. apply cut_at_spec in E as [E _].
    intros [= _ <-]. apply (f_equal length) in E. rewrite length_app in E. cbn in *. lia.
Qed.
Lemma digest_value_err s e : digest_value s = Err e → e = badDigest.
Proof. unfold digest_value. repeat case_match; congruence. Qed.

(** Every round takes at least the equals sign, so the length of the text is enough fuel. *)
Lemma digest_loop_total fuel : ∀ s out e, (length s < fuel)%nat → digest_loop fuel s out = Err e → e = badDigest.
Proof.
  induction fuel as [|fuel IH]; intros s out e Hf; [lia|]. destruct s as [|c s]; [done|]. cbn [digest_loop].
  destruct (cut_at 61 (c :: s)) as [[k after]|] eqn:E; [|congruence]. apply cut_at_spec in E as [E _].
  case_bool_decide; [congruence|]. destruct (digest_value after) as [[v rest]|e'] eqn:Ev; cbn [mbind result_bind].
  2:{ intros [= <-]. by eapply digest_value_err. }
  apply IH. pose proof (digest_value_length _ _ _ Ev). apply (f_equal length) in E. rewrite length_app in E. cbn in E, Hf.
  pose proof (trim_space_length (if has_prefix rest [44] then drop 1 rest else rest)).
  assert (Nat.le (length (if has_prefix rest [44] then drop 1 rest else rest)) (length rest)) by (destruct (has_prefix rest [44]); rewrite ?length_drop; lia). lia.
Qed.
Lemma parseDigestParams_total s e : parseDigestParams s = Err e → e = badDigest.
Proof. unfold parseDigestParams. apply digest_loop_total. lia. Qed.

(** ** The challenge parses back *)

Lemma trim_space_blank c s d t : c :: s = t ++ [d] → is_graph c → is_graph d → trim_space (32 :: c :: s) = c :: s.
Proof.
  intros E Hc Hd. by rewrite <-(trim_space_graph c s d t E Hc Hd) at 2.
Qed.

(** A parameter in quotes, with more to come. *)
Lemma digest_loop_quoted fuel k v next c d out :
  61 ∉ k → trim_space k = k → to_lower k ≠ [] → 34 ∉ v → head next = Some c → last next = Some d → is_graph c → is_graph d →
  digest_loop (S fuel) (k ++ 61 :: 34 :: v ++ 34 :: 44 :: 32 :: next) out = digest_loop fuel next (<[to_lower k := v]> out).
Proof.
  intros Hk Ht Hl Hv Hh Hlast Hc Hd. destruct next as [|x rest']; [done|]. injection Hh as ->. apply last_Some in Hlast as [t E].
  assert (cut_at 61 (k ++ 61 :: 34 :: v ++ 34 :: 44 :: 32 :: c :: rest') = Some (k, 34 :: v ++ 34 :: 44 :: 32 :: c :: rest')) as Hcut by (by apply cut_at_spec).
  assert (digest_value (34 :: v ++ 34 :: 44 :: 32 :: c :: rest') = Ok (v, 44 :: 32 :: c :: rest')) as Hval.
  { unfold digest_value. assert (trim_blanks (34 :: v ++ 34 :: 44 :: 32 :: c :: rest') = 34 :: v ++ 34 :: 44 :: 32 :: c :: rest') as -> by done.
    change (has_prefix (34 :: v ++ 34 :: 44 :: 32 :: c :: rest') [34]) with true. cbv beta zeta iota.
    assert (cut_at 34 (drop 1 (34 :: v ++ 34 :: 44 :: 32 :: c :: rest')) = Some (v, 44 :: 32 :: c :: rest')) as -> by (by apply cut_at_spec). done. }
  assert (k ≠ []) by (by intros ->). destruct k as [|k0 k]; [done|]. cbn [app digest_loop] in *. rewrite Hcut, Ht, bool_decide_false by done. rewrite Hval. cbn [mbind result_bind].
  change (has_prefix (44 :: 32 :: c :: rest') [44]) with true. cbn [drop]. by rewrite (trim_space_blank _ _ _ _ E).
Qed.

Lemma challenge_parses realm nonce : 34 ∉ realm → 34 ∉ nonce →
  parseDigestParams (challenge_text realm nonce) =
  Ok (list_to_map [(bs "algorithm", bs "MD5"); (bs "qop", bs "auth"); (bs "nonce", nonce); (bs "realm", realm)]).
Proof.
  intros Hr Hn. unfold parseDigestParams.
  set (tail := bs "qop=" ++ quoted (bs "auth") ++ bs ", algorithm=MD5").
  set (s1 := bs "nonce" ++ 61 :: 34 :: nonce ++ 34 :: 44 :: 32 :: tail).
  set (s0 := bs "realm" ++ 61 :: 34 :: realm ++ 34 :: 44 :: 32 :: s1).
  assert (challenge_text realm nonce = bs "Digest " ++ s0) as ->.
  { unfold challenge_text, s0, s1, tail, quoted. cbn. by rewrite <-!app_assoc. }
  assert (last s1 = Some 53) as L1 by (unfold s1; by rewrite last_app, !last_cons, last_app, !last_cons).
  assert (last s0 = Some 53) as L0 by (unfold s0; by rewrite last_app, !last_cons, last_app, !last_cons, L1).
  destruct (proj1 (last_Some _ _) L0) as [t0 E0], (proj1 (last_Some _ _) L1) as [t1 E1].
  assert (trim_space (bs "Digest " ++ s0) = bs "Digest " ++ s0) as ->.
  { apply (trim_space_graph _ _ 53 (bs "Digest " ++ t0)); [by rewrite E0|done..]. }
  cbv zeta. rewrite bool_decide_true by done. change (drop 7 (bs "Digest " ++ s0)) with s0.
  assert ((7 <=? length (bs "Digest " ++ s0))%nat = true) as -> by reflexivity. cbn [andb].
  assert (trim_space s0 = s0) as -> by (by apply (trim_space_graph _ _ 53 t0)).
  destruct (length s0) as [|[|[|n]]] eqn:Hlen; [discriminate Hlen..|].
  assert (∀ out, digest_loop (S (S n)) tail out = Ok (<[bs "algorithm" := bs "MD5"]> (<[bs "qop" := bs "auth"]> out))) as Htail.
  { intros out. assert (digest_loop (S n) (bs "algorithm=MD5") (<[to_lower (bs "qop") := bs "auth"]> out)
                        = Ok (<[bs "algorithm" := bs "MD5"]> (<[bs "qop" := bs "auth"]> out))) as <- by (cbn; by destruct n).
    apply (digest_loop_quoted (S n) (bs "qop") (bs "auth") (bs "algorithm=MD5") 97 53); try done; by eapply bool_decide_unpack; vm_compute. }
  assert (∀ out, digest_loop (S (S (S n))) s1 out = digest_loop (S (S n)) tail (<[bs "nonce" := nonce]> out)) as Hs1.
  { intros out. apply (digest_loop_quoted _ (bs "nonce") nonce tail 113 53); try done; by eapply bool_decide_unpack; vm_compute. }
  unfold s0. rewrite (digest_loop_quoted _ (bs "realm") realm s1 110 53), Hs1, Htail; try done; by eapply bool_decide_unpack; vm_compute.
Qed.

(** ** The verifier *)

(** A response in order for the challenge with this nonce. *)
Record in_order (p : gmap bytes bytes) (realm nonce : bytes) : Prop := {
  io_username : param p "username" ≠ [];
  io_realm : param p "realm" = realm ∧ realm ≠ [];
  io_nonce : param p "nonce" = nonce ∧ nonce ≠ [];
  io_uri : param p "uri" ≠ [];
  io_response : param p "response" ≠ [];
  io_qop : param p "qop" = [] ∨ param p "qop" = bs "auth" ∧ param p "nc" ≠ [] ∧ param p "cnonce" ≠ [] }.

Lemma checkDigestParams_spec p user realm nonce resp : 34 ∉ realm → 34 ∉ nonce →
  match checkDigestParams p (mkVerifyInput user realm (challenge_text realm nonce) resp) with
  | Ok _ => in_order p realm nonce
  | Err e => e = badDigest ∧ ¬ in_order p realm nonce
  end.
Proof.
  intros Hr Hn. unfold checkDigestParams. cbn [vi_Realm vi_Challenge]. rewrite challenge_parses by done.
  assert (param (list_to_map [(bs "algorithm", bs "MD5"); (bs "qop", bs "auth"); (bs "nonce", nonce); (bs "realm", realm)]) "nonce" = nonce) as Hnonce by done.
  destruct (existsb _ _) eqn:He; cbn [reject mbind result_bind].
  { split; [done|]. intros []. apply existsb_exists in He as (k & Hin & Hk%bool_decide_eq_true). unfold param in *. clear Hnonce.
    destruct Hin as [<-|[<-|[<-|[<-|[<-|[]]]]]]; [done|destruct io_realm0|destruct io_nonce0|done..]; congruence. }
  assert (∀ k, k ∈ [bs "username"; bs "realm"; bs "nonce"; bs "uri"; bs "response"] → default [] (p !! k) ≠ []) as Hne.
  { intros k Hk H. apply not_true_iff_false in He. apply He, existsb_exists. exists k. split; [by apply list_elem_of_In|]. by apply bool_decide_eq_true. }
  destruct (decide (param p "realm" = realm)) as [Hre|Hre];
    [rewrite (bool_decide_false (param p "realm" ≠ realm)) by auto|rewrite (bool_decide_true (param p "realm" ≠ realm)) by done; cbn [reject mbind result_bind]; split; [done|]; intros []; naive_solver].
  cbn [reject mbind result_bind]. rewrite Hnonce.
  destruct (bool_decide (nonce = []) || bool_decide (param p "nonce" ≠ nonce)) eqn:Hno; cbn [reject mbind result_bind].
  { split; [done|]. intros []. apply orb_true_iff in Hno as [?%bool_decide_eq_true|?%bool_decide_eq_true]; naive_solver. }
  apply orb_false_iff in Hno as [Hn0%bool_decide_eq_false Hn1%bool_decide_eq_false]. apply dec_stable in Hn1.
  assert (param p "qop" = [] ∨ param p "qop" = bs "auth" ∧ param p "nc" ≠ [] ∧ param p "cnonce" ≠ [] → in_order p realm nonce) as Hok.
  { intros Hq. split; [apply (Hne (bs "username"))| |done|apply (Hne (bs "uri"))|apply (Hne (bs "response"))|done]; [set_solver| |set_solver..].
    split; [done|]. rewrite <-Hre. apply (Hne (bs "realm")). set_solver. }
  destruct (decide (param p "qop" = [])) as [Hq|Hq]; [rewrite bool_decide_true by done; by apply Hok; left|rewrite (bool_decide_false (param p "qop" = [])) by done].
  destruct (decide (param p "qop" = bs "auth")) as [Hqa|Hqa];
    [rewrite (bool_decide_false (param p "qop" ≠ bs "auth")) by auto
    |rewrite (bool_decide_true (param p "qop" ≠ bs "auth")) by done; cbn [reject mbind result_bind]; split; [done|]; intros [_ _ _ _ _ [?|[? _]]]; done].
  cbn [reject mbind result_bind]. destruct (_ || _) eqn:Hnc; cbn [reject].
  - split; [done|]. intros [_ _ _ _ _ [?|(? & ? & ?)]]; [done|]. by apply orb_true_iff in Hnc as [?%bool_decide_eq_true|?%bool_decide_eq_true].
  - apply orb_false_iff in Hnc as [?%bool_decide_eq_false ?%bool_decide_eq_false]. apply Hok. auto.
Qed.

(** C21 For the challenge that was issued with a realm and a nonce, the verifier accepts a
    response exactly when it parses to parameters that are in order for that realm and
    nonce, the user named in it is known, and the digest is the one computed from the
    user's secret; what it refuses otherwise is a bad digest, never a failure of the
    server, unless the lookup of the user fails itself. *)
Theorem HA1Verifier_spec ha1 user realm nonce resp : 34 ∉ realm → 34 ∉ nonce →
  let i := mkVerifyInput user realm (challenge_text realm nonce) resp in
  ((HA1Verifier ha1 i).1 = true ↔
     ∃ p h1, parseDigestParams resp = Ok p ∧ in_order p realm nonce ∧ ha1 (param p "username") realm = Ok h1 ∧ h1 ≠ [] ∧
       to_lower (param p "response") = expectedDigest h1 p) ∧
  (∀ e, (HA1Verifier ha1 i).2 = Some e → (HA1Verifier ha1 i).1 = false ∧ (e = badDigest ∨ ∃ u, ha1 u realm = Err e)).
Proof.
  intros Hr Hn i. unfold HA1Verifier. change (vi_DigestResponse i) with resp. change (vi_Realm i) with realm.
  destruct (parseDigestParams resp) as [p|e] eqn:Hp; cbn [fst snd].
  2:{ apply parseDigestParams_total in Hp as ->. split; [split; [done|]; by intros (? & ? & ? & _)|]. intros e [= <-]. auto. }
  pose proof (checkDigestParams_spec p user realm nonce resp Hr Hn) as Hc. fold i in Hc.
  destruct (checkDigestParams p i) as [u|e]; cbn [fst snd].
  2:{ destruct Hc as [-> Hc]. split; [split; [done|]; by intros (? & ? & [= <-] & ? & _)|]. intros e [= <-]. auto. }
  destruct (ha1 (param p "username") realm) as [h1|e] eqn:Hh; cbn [fst snd].
  2:{ split; [split; [done|]; intros (? & ? & [= <-] & _ & Hh' & _); congruence|]. intros e' [= <-]. eauto. }
  case_bool_decide as Hh1; cbn [fst snd].
  { split; [|done]. split; [done|]. intros (? & ? & [= <-] & _ & Hh' & Hne & _). congruence. }
  split; [|done]. rewrite bool_decide_eq_true. split; [intros He; by exists p, h1|]. intros (? & ? & [= <-] & _ & Hh' & _ & He). congruence.
Qed.
End Parse.

(** ** One answer per challenge *)

(** Changing what is stored for one user keeps it a target, if the state stays its own. *)
Lemma target_update s id o :
  userAuthTargetLocked s id = Ok tt → (∀ st, o = Some st → ua_ID st = id) →
  userAuthTargetLocked (s <| userAuth := partial_alter (λ _, o) (ID id) (userAuth s) |>) id = Ok tt.
Proof.
  unfold userAuthTargetLocked. destruct (Validate id); [|done]. destruct (negb _); [done|]. cbn [reject mbind result_bind].
  change (enrollments (s <| userAuth := _ |>)) with (enrollments s).
  destruct (match enrollments s !! ID id with Some _ => _ | None => false end); [done|]. cbn [reject mbind result_bind].
  assert (∀ f, userAuth (s <| userAuth := f |>) = f) as Hua by done. rewrite Hua, lookup_partial_alter_eq.
  intros H Ho. apply bind_Ok_inv in H as (? & _ & H).
  assert (match o with Some existing => bool_decide (ua_ID existing ≠ id) | None => false end = false) as ->.
  { destruct o as [st|]; [|done]. apply bool_decide_eq_false. intros Hne. by destruct Hne; apply Ho. }
  exact H.
Qed.
Lemma target_own s id st : userAuthTargetLocked s id = Ok tt → userAuth s !! ID id = Some st → ua_ID st = id.
Proof.
  unfold userAuthTargetLocked. intros H Hst. rewrite Hst in H. destruct (Validate id); [|done]. destruct (negb _); [done|]. cbn [reject mbind result_bind] in H.
  apply bind_Ok_inv in H as (? & _ & H). apply bind_Ok_inv in H as (? & H & _). by case_bool_decide.
Qed.

Lemma ClearUserAuth_after s id u s' : ClearUserAuth s id = Ok (u, s') → UserAuth s' id = Err ErrNotFound.
Proof.
  unfold ClearUserAuth. intros H. apply bind_Ok_inv in H as ([] & Ht & [= <- <-]). unfold UserAuth.
  assert (userAuthTargetLocked (s <| userAuth := delete (ID id) (userAuth s) |>) id = Ok tt) as -> by (by apply (target_update s id None)).
  cbn [mbind result_bind]. unfold setf; cbn [userAuth]. by rewrite lookup_delete_eq.
Qed.
Lemma StoreUserAuthToken_after s id tok raw now u s' : StoreUserAuthToken s id tok raw now = Ok (u, s') →
  ∃ st, UserAuth s' id = Ok st ∧ Challenge st = [] ∧ AuthToken st = tok ∧ TokenAt st = now.
Proof.
  unfold StoreUserAuthToken. intros H. apply bind_Ok_inv in H as (? & _ & H). apply bind_Ok_inv in H as ([] & Ht & H).
  destruct (userAuth s !! ID id) as [st|] eqn:Hst; [|done]. pose proof (target_own _ _ _ Ht Hst) as Hid. cbv zeta in H.
  set (st' := st <| AuthToken := _ |> <| TokenAt := _ |> <| Challenge := _ |> <| ChallengeAt := _ |> <| DigestRaw := _ |>) in H.
  assert (UserAuth (s <| userAuth := <[ID id := st']> (userAuth s) |>) id = Ok st') as Hu.
  { unfold UserAuth. assert (userAuthTargetLocked (s <| userAuth := <[ID id := st']> (userAuth s) |>) id = Ok tt) as ->
      by (apply (target_update s id (Some st') Ht); by intros ? [= <-]). cbn [mbind result_bind]. unfold setf; cbn [userAuth]. by rewrite lookup_insert_eq. }
  exists st'. apply Ok_pair_inv in H as [_ <-]. by split_and!.
Qed.

Definition noToken : UserAuthenticateResponse := mkUserAuthResponse None (Some []).

Lemma outstanding_none s id : UserAuth s id = Err ErrNotFound → outstanding id s = Ok None.
Proof. unfold outstanding. by intros ->. Qed.
Lemma outstanding_done s id st : UserAuth s id = Ok st → Challenge st = [] → outstanding id s = Ok None.
Proof. unfold outstanding. intros -> ->. done. Qed.
Lemma outstanding_inv s id st : outstanding id s = Ok (Some st) → UserAuth s id = Ok st ∧ Challenge st ≠ [].
Proof. unfold outstanding. destruct (UserAuth s id) as [st'|[]]; try done. case_bool_decide; [done|]. by intros [= ->]. Qed.

Lemma digest_publish_store d t id u w r w' : digest_publish d t id u w = (r, w') → w_store w' = w_store w.
Proof. unfold digest_publish. destruct (negb _); [by intros [= _ <-]|]. unfold mbind, srv_bind, tick, emit. by intros [= _ <-]. Qed.

(** A refusal takes the challenge back. *)
Lemma digest_reject_inv d r m w resp w' : digest_reject d r m w = (Ok resp, w') →
  resp = noToken ∧ outstanding (rq_ID r) (w_store w') = Ok None.
Proof.
  unfold digest_reject. intros H. apply srv_bind_Ok in H as (u & w1 & H1 & H). apply srv_bind_Ok in H as (u2 & w2 & H2%digest_publish_store & [= <- <-]).
  split; [done|]. rewrite H2. apply srv_bind_Ok in H1 as (x & w3 & H1 & H3). unfold call in H1.
  destruct (ClearUserAuth _ _) as [[? s']|] eqn:E; [|by injection H1 as <- <-]. injection H1 as <- <-. unfold orelse in H3. injection H3 as _ <-.
  by eapply outstanding_none, ClearUserAuth_after.
Qed.

(** What the second message achieves. *)
Lemma digest_verify_inv d r m raw w resp w' : digest_verify d r m raw w = (Ok resp, w') →
  outstanding (rq_ID r) (w_store w') = Ok None ∧
  (resp = noToken ∨
   ∃ st tok err st', resp = mkUserAuthResponse None (Some tok) ∧ UserAuth (w_store w) (rq_ID r) = Ok st ∧ Challenge st ≠ [] ∧
     d_Clock d (w_tick w) - ChallengeAt st ≤ ttl d ∧
     d_Verifier d r (mkVerifyInput (um_UserID m) (realm d) (Challenge st) (um_DigestResponse m)) = (true, err) ∧
     UserAuth (w_store w') (rq_ID r) = Ok st' ∧ AuthToken st' = tok).
Proof.
  unfold digest_verify. intros H. apply srv_bind_Ok in H as (now & w1 & [= <- <-] & H).
  apply srv_bind_Ok in H as (o & w2 & H1 & H). apply srv_bind_Ok in H1 as (x & w3 & [= <- <-] & H1). unfold orelse, setf in H1; cbn [w_store] in H1.
  destruct (outstanding (rq_ID r) (w_store w)) as [o'|] eqn:Ho; [|done]. injection H1 as -> <-.
  destruct o as [st|]; [|injection H as <- <-; split; [done|by left]]. apply outstanding_inv in Ho as [Hu Hc].
  destruct (Z.ltb_spec (ttl d) (d_Clock d (w_tick w) - ChallengeAt st)) as [|Ht].
  { apply digest_reject_inv in H as [-> ?]. auto. }
  destruct (d_Verifier d r _) as [ok err] eqn:Hv. apply srv_bind_Ok in H as (u & w3 & H1 & H).
  assert (w_store w3 = w_store w) as E3 by (destruct err as [e|]; [destruct (errors_Is _ _)|]; by injection H1 as _ <-).
  destruct ok; cbn [negb] in H; [|apply digest_reject_inv in H as [-> ?]; auto].
  apply srv_bind_Ok in H as (tok & w4 & H2 & H). apply srv_bind_Ok in H as (u2 & w5 & H3 & H).
  apply srv_bind_Ok in H as (u4 & w6 & H4%digest_publish_store & [= <- <-]).
  assert (w_store w4 = w_store w) as E4 by (unfold random in H2; injection H2 as _ <-; done).
  apply srv_bind_Ok in H3 as (x & w7 & H3 & H5). unfold call in H3.
  destruct (StoreUserAuthToken _ _ _ _ _) as [[? s']|] eqn:E; [|by injection H3 as <- <-]. injection H3 as <- <-. unfold orelse in H5. injection H5 as _ <-.
  destruct (StoreUserAuthToken_after _ _ _ _ _ _ _ E) as (st' & Hu' & Hc' & Ha & _). rewrite H4. cbn. split; [by eapply outstanding_done|].
  right. by exists st, tok, err, st'.
Qed.

(** C20 A challenge is answered once. After a digest response that the handler answers, no
    challenge is outstanding, so that any further response, the same one included, gets an
    empty token and changes nothing. A token is handed out only for a challenge that was
    outstanding, in time, with a response the verifier accepted, and it is the token the
    store then has for the user. *)
Theorem handshake_one_shot d r m w resp w' :
  um_DigestResponse m ≠ [] → DigestUserAuth_Handle d r m w = (Ok resp, w') →
  outstanding (rq_ID r) (w_store w') = Ok None ∧
  (∀ m' raw, um_DigestResponse m' ≠ [] → d_Marshal d m' = Some raw →
     ∃ w2, DigestUserAuth_Handle d r m' w' = (Ok noToken, w2) ∧ w_store w2 = w_store w' ∧ w_events w2 = w_events w') ∧
  (∀ tok, ur_AuthToken resp = Some tok → tok ≠ [] →
   ∃ st err st', UserAuth (w_store w) (rq_ID r) = Ok st ∧ Challenge st ≠ [] ∧ d_Clock d (w_tick w) - ChallengeAt st ≤ ttl d ∧
     d_Verifier d r (mkVerifyInput (um_UserID m) (realm d) (Challenge st) (um_DigestResponse m)) = (true, err) ∧
     UserAuth (w_store w') (rq_ID r) = Ok st' ∧ AuthToken st' = tok).
Proof.
  intros Hm. unfold DigestUserAuth_Handle. destruct (negb (IsUser _)) eqn:Hu; [done|]. unfold mbind at 1, srv_bind, guard. cbn.
  destruct (d_Marshal d m) as [raw|]; [|done]. rewrite bool_decide_false by done. intros H%digest_verify_inv.
  destruct H as [Ho Ht]. split_and!; [done| |].
  - intros m' raw' Hm' Hr'. unfold mbind at 1, srv_bind. cbn. rewrite Hr', bool_decide_false by done. unfold digest_verify, mbind, srv_bind, tick, ask, orelse, setf.
    cbn [w_store w_tick]. rewrite Ho. by eexists.
  - intros tok Htok Hne. destruct Ht as [->|(st & tok' & err & st' & -> & ? & ? & ? & ? & ? & ?)]; [by injection Htok as <-|].
    injection Htok as <-. by exists st, err, st'.
Qed.
