(* ===== verification/ServiceSamples.v ===== *)
(** * A concrete history of the service

    Two devices enroll, commands are queued and fetched, a stranger tries a device's
    identity, a user answers a challenge. The theorems of the service are applied to it. *)
From S2P Require Import Prelude GoStrings OsVersion Support Mdm Storage Replacement InMem InMemQueue InMemDelivery InMemRegistry InMemSafety Sha256 Validation PredEval ServiceBase Service ServiceFlow ServiceUserAuth ServiceSafety ServiceDelivery ServiceHandshake.

#[local] Instance plain_decoder : PlistDecoder := {|
  unmarshal_head _ := None; response_known _ := false; unmarshal_payload _ _ := None |}.
#[local] Instance plain_pushcert : PushCertParser := {|
  pushcert_Parse _ _ := None; pushcert_Validate _ _ _ _ := false; pushcert_PEM _ := None |}.
(** The wire form of a command is its UUID; those that start with x are of a type no system supports. *)
#[local] Instance plain_codec : CommandCodec := {|
  RequestTypeName p := p; payload_fields _ := Some ∅; marshal_command u _ := Some u;
  command_head raw := Some (raw, if has_prefix raw (bs "x") then bs "Obsolete" else bs "DeviceInformation");
  command_known _ := false; command_payload _ _ := None |}.
#[local] Instance plain_schema : CommandSchema := {|
  commands_Support t := if bool_decide (t = bs "Obsolete") then Some (mkEntry t ∅) else None;
  ValidateInto _ col := col; InstallProfile_Payload _ := None; profile_has_error _ _ := false; plist_Marshal _ := Some [] |}.
#[local] Instance plain_case : UnicodeCase := {| unicode_lower s := s |}.

Definition coreS (targets : bool) : Core := Core_New
  (mkConfig None None None None true true (λ k, 100 + Z.of_nat k) (λ k, 500 + Z.of_nat k) [] None PinEnforce None None false
     (Some targets) None None None None).

Definition devS (n : string) : EnrollmentID := mkID Mdm.ChannelDevice (bs n) [].
Definition keysS (n : string) : IdentityKeys := mkKeys (bs n) [] [] [] [] [].
Definition certS (n : string) : Certificate := mkCertificate (bs n) 0 1000.
Definition fromS (n cert : string) : option Request := Some (mkRequest (devS n) (keysS n) (Some (certS cert))).
Definition checkinS (n typ : string) (m : Message) : option Checkin := Some (mkCheckin (bs typ) (Some m) (keysS n) (devS n) (bs "raw")).
Definition authenticateS (n cert : string) : request :=
  RCheckin (fromS n cert) (checkinS n "Authenticate"
    (MAuthenticate (mkAuthenticate (bs "Mac") (bs "MacBook") (bs "M") (bs "Authenticate") (bs "topic") None None (Some (bs "15.1")) None (Some (bs "Mac15,3")) None None None))).
Definition tokenS (n cert : string) : request :=
  RCheckin (fromS n cert) (checkinS n "TokenUpdate"
    (MTokenUpdate (mkTokenUpdate false (bs "TokenUpdate") (bs "topic") (bs n) [] [] None None [] (bs "tok") (bs "magic") [] None))).
Definition commandS (n typ : string) : option Command := Some (mkCommand (bs n) (bs typ) None (bs n)).
Definition idleS (n : string) : option Response := Some (mkResponse (keysS n) (devS n) [] StatusIdle [] None []).

(** Two devices enroll; the second tries the first one's certificate before its own. *)
Definition historyS : list request :=
  [authenticateS "A" "ca"; tokenS "A" "ca"; authenticateS "B" "ca"; authenticateS "B" "cb"; tokenS "B" "cb";
   authenticateS "A" "cb"].
#[local] Notation worldS := (foldl (serve (coreS true)) start historyS).

Example history_outcome :
  (λ n, CertHash <$> (match Get (w_store worldS) (devS n) with Ok e => Some e | Err _ => None end)) <$> ["A"; "B"]%string
  = [Some (Fingerprint (certS "ca")); Some (Fingerprint (certS "cb"))].
Proof. vm_compute. reflexivity. Qed.

Lemma handler_sample b : handler_ok (coreS b).
Proof. intros r m. apply runs_reads. done. Qed.
Lemma history_sample : Forall request_ok historyS.
Proof. repeat (apply Forall_cons_2; [intros k [= <-]; vm_compute; reflexivity|]). apply Forall_nil_2. Qed.

Lemma service_certificate_exclusive_witness :
  ∃ e, Get (w_store worldS) (devS "A") = Ok e ∧ CertHash e ≠ [] ∧ EnrollmentByCertHash (w_store worldS) (CertHash e) = Ok (devS "A").
Proof.
  destruct (Get (w_store worldS) (devS "A")) as [e|] eqn:H; [|vm_compute in H; discriminate H].
  assert (CertHash e ≠ []) as Hne by (vm_compute in H; injection H as <-; vm_compute; discriminate).
  exists e. split; [reflexivity|]. split; [exact Hne|].
  pose proof (service_certificate_exclusive (coreS true) historyS (devS "A") (devS "A") e e (handler_sample true) history_sample) as T.
  cbv zeta in T. apply T; [exact H|exact H|reflexivity|exact Hne].
Defined.


(** Without target checks an obsolete command gets queued; it is discarded when it is selected. *)
Definition queuedS : world := (Core_Enqueue (coreS true) [devS "A"; devS "C"] (commandS "c1" "DeviceInformation") (mkEnqueueOptions [] 0)
  (Core_Enqueue (coreS false) [devS "A"] (commandS "x1" "Obsolete") (mkEnqueueOptions [] 0) worldS).2).2.
Example selection :
  match nextEligible (coreS true) (devS "A") false 900 queuedS with
  | (Ok (Ok (Some cmd)), w) => Some (UUID cmd, qState <$> queue_at (w_store w) (bs "A"), ev_Type <$> drop 5 (w_events w))
  | _ => None
  end = Some (bs "c1", [StateCleared; StateSent], [CommandQueued; CommandQueued; CommandRejected]).
Proof. vm_compute. reflexivity. Qed.

Lemma Core_Enqueue_spec_witness :
  ∃ res w', Core_Enqueue (coreS true) [devS "A"; devS "C"] (commandS "c1" "DeviceInformation") (mkEnqueueOptions [] 0) worldS = (Ok res, w') ∧
    same_rows (w_store worldS) (w_store w').
Proof.
  set (out := Core_Enqueue _ _ _ _ _). assert (match out.1 with Ok _ => true | Err _ => false end = true) as Hok by (vm_compute; reflexivity).
  destruct out as [[res|] w'] eqn:H; [|discriminate Hok]. clear Hok.
  exists res, w'. split; [reflexivity|].
  destruct (Core_Enqueue_spec _ _ _ _ _ _ _ H) as (d & entry & _ & _ & _ & _ & _ & _ & _ & Hr & _). exact Hr.
Defined.

(** A user of the first device, whose secret is known to the handler. *)
Definition usrS : EnrollmentID := mkID Mdm.ChannelUser (bs "A:501") (bs "A").
Definition requestS : Request := mkRequest usrS (mkKeys (bs "A") (bs "501") (bs "ada") [] [] []) (Some (certS "ca")).
Definition ha1S (user realm : bytes) : result error bytes := Ok (md5hex (colons [user; realm; bs "secret"])).
Definition digestS : DigestUserAuth :=
  mkDigestUserAuth (λ _, HA1Verifier ha1S) [] 0 None (λ k, 100 + Z.of_nat k) true (λ k n, Some (repeat (Z.of_nat k) n)) (λ _, Some (bs "raw")).
Definition nonceS : bytes := hex_EncodeToString (repeat (Z.of_nat (w_tick worldS)) 16).
Definition responseS : bytes :=
  quotes "username='ada', realm='mdm', uri='/mdm', nonce='" ++ nonceS ++ quotes "', response='"
  ++ md5hex (colons [md5hex (bs "ada:mdm:secret"); nonceS; md5hex (bs "POST:/mdm")]) ++ quotes "'".
Definition challengedS : world := (DigestUserAuth_Handle digestS requestS (mkUserAuthenticate (bs "501") []) worldS).2.

Lemma handshake_one_shot_witness :
  ∃ tok w', DigestUserAuth_Handle digestS requestS (mkUserAuthenticate (bs "501") responseS) challengedS = (Ok (mkUserAuthResponse None (Some tok)), w') ∧
    tok ≠ [] ∧ outstanding usrS (w_store w') = Ok None.
Proof.
  set (out := DigestUserAuth_Handle _ _ _ _).
  assert (match out.1 with Ok (mkUserAuthResponse None (Some (_ :: _))) => true | _ => false end = true) as Hok by (vm_compute; reflexivity).
  assert (um_DigestResponse (mkUserAuthenticate (bs "501") responseS) ≠ []) as Hne by (vm_compute; discriminate).
  destruct out as [[[[] [[|c tok]|]]|] w'] eqn:H; try discriminate Hok.
  unfold out in H. destruct (handshake_one_shot digestS requestS (mkUserAuthenticate (bs "501") responseS) challengedS _ w' Hne H) as (Ho & _ & _).
  exists (c :: tok), w'. split; [reflexivity|]. split; [discriminate|exact Ho].
Defined.

Lemma HA1Verifier_spec_witness :
  (HA1Verifier ha1S (mkVerifyInput (bs "501") (bs "mdm") (challenge_text (bs "mdm") nonceS) responseS)).1 = true ∧
  ∃ p h1, parseDigestParams responseS = Ok p ∧ in_order p (bs "mdm") nonceS ∧ ha1S (param p "username") (bs "mdm") = Ok h1 ∧ h1 ≠ [] ∧
    to_lower (param p "response") = expectedDigest h1 p.
Proof.
  assert ((HA1Verifier ha1S (mkVerifyInput (bs "501") (bs "mdm") (challenge_text (bs "mdm") nonceS) responseS)).1 = true) as H by (vm_compute; reflexivity).
  split; [exact H|]. refine (proj1 (proj1 (HA1Verifier_spec ha1S (bs "501") (bs "mdm") nonceS responseS _ _)) H); eapply bool_decide_unpack; vm_compute; exact I.
Defined.
