(* ===== verification/Base64.v ===== *)
(** * Base64 for URLs without padding: [encoding/base64.RawURLEncoding]

    The encoder and the decoder the code uses for cursors, random identifiers and the
    fields of signed requests; decoding what was encoded gives it back. *)
From S2P Require Import Prelude GoStrings Sha256.

Definition b64_digit (n : Z) : Z :=
  if n <? 26 then 65 + n else if n <? 52 then 71 + n else if n <? 62 then n - 4 else if n =? 62 then 45 else 95.
Definition b64_value (c : Z) : option Z :=
  if (65 <=? c) && (c <=? 90) then Some (c - 65)
  else if (97 <=? c) && (c <=? 122) then Some (c - 71)
  else if (48 <=? c) && (c <=? 57) then Some (c + 4)
  else if c =? 45 then Some 62 else if c =? 95 then Some 63 else None.

(** Three bytes are four digits; one or two bytes at the end are two or three. *)
Fixpoint b64_encode (l : bytes) : bytes :=
  match l with
  | a :: b :: c :: l' =>
      let v := a * 65536 + b * 256 + c in
      b64_digit (v / 262144) :: b64_digit (v / 4096 mod 64) :: b64_digit (v / 64 mod 64) :: b64_digit (v mod 64) :: b64_encode l'
  | [a; b] => let v := a * 65536 + b * 256 in [b64_digit (v / 262144); b64_digit (v / 4096 mod 64); b64_digit (v / 64 mod 64)]
  | [a] => let v := a * 65536 in [b64_digit (v / 262144); b64_digit (v / 4096 mod 64)]
  | [] => []
  end.

Fixpoint b64_bytes (l : list Z) : option bytes :=
  match l with
  | a :: b :: c :: d :: l' =>
      let v := a * 262144 + b * 4096 + c * 64 + d in
      r ← b64_bytes l'; Some (v / 65536 :: v / 256 mod 256 :: v mod 256 :: r)
  | [a; b; c] => let v := a * 262144 + b * 4096 + c * 64 in Some [v / 65536; v / 256 mod 256]
  | [a; b] => let v := a * 262144 + b * 4096 in Some [v / 65536]
  | [a] => None
  | [] => Some []
  end.
(** Line breaks are skipped; every other byte must be a digit. *)
Definition b64_decode (s : bytes) : option bytes :=
  mapM b64_value (filter (λ c, c ≠ 10 ∧ c ≠ 13) s) ≫= b64_bytes.

Example b64_sample : b64_encode (bs "any carnal pleas") = bs "YW55IGNhcm5hbCBwbGVhcw" ∧ b64_decode (bs "YW55IGNhcm5hbCBwbGVhcw") = Some (bs "any carnal pleas") ∧
  b64_decode (bs "YW5") = Some (bs "an") ∧ b64_decode (bs "A") = None ∧ b64_decode (bs "A=") = None.
Proof. vm_compute. auto. Qed.

Lemma b64_digit_spec n : 0 ≤ n < 64 → b64_value (b64_digit n) = Some n ∧ b64_digit n ≠ 10 ∧ b64_digit n ≠ 13.
Proof.
  intros H. assert (forallb (λ k, let n := Z.of_nat k in bool_decide (b64_value (b64_digit n) = Some n) && negb (b64_digit n =? 10) && negb (b64_digit n =? 13)) (seq 0 64) = true) as E by (vm_compute; reflexivity).
  rewrite forallb_forall in E. specialize (E (Z.to_nat n)). rewrite in_seq, Z2Nat.id in E by lia. cbv zeta in E.
  specialize (E ltac:(lia)). bool_hyps. done.
Qed.

(** Digits of a number below their base. *)
Lemma b64_decode_digits (ds : list Z) : Forall (λ n, 0 ≤ n < 64) ds → b64_decode (b64_digit <$> ds) = b64_bytes ds.
Proof.
  intros H. unfold b64_decode.
  assert (filter (λ c, c ≠ 10 ∧ c ≠ 13) (b64_digit <$> ds) = b64_digit <$> ds) as ->.
  { induction H as [|d ds Hd _ IH]; [done|]. cbn [fmap list_fmap]. rewrite filter_cons_True by apply (b64_digit_spec d Hd). by f_equal. }
  assert (mapM b64_value (b64_digit <$> ds) = Some ds) as ->; [|done].
  induction H as [|d ds Hd _ IH]; [done|]. cbn. rewrite (proj1 (b64_digit_spec d Hd)), IH. done.
Qed.

(** The digits of an encoding. *)
Fixpoint b64_digits (l : bytes) : list Z :=
  match l with
  | a :: b :: c :: l' => let v := a * 65536 + b * 256 + c in v / 262144 :: v / 4096 mod 64 :: v / 64 mod 64 :: v mod 64 :: b64_digits l'
  | [a; b] => let v := a * 65536 + b * 256 in [v / 262144; v / 4096 mod 64; v / 64 mod 64]
  | [a] => let v := a * 65536 in [v / 262144; v / 4096 mod 64]
  | [] => []
  end.

(** Induction by three bytes. *)
Lemma three_ind (P : bytes → Prop) :
  P [] → (∀ a, P [a]) → (∀ a b, P [a; b]) → (∀ a b c l, P l → P (a :: b :: c :: l)) → ∀ l, P l.
Proof.
  intros H0 H1 H2 H3. fix IH 1. intros [|a [|b [|c l]]]; [done|apply H1|apply H2|]. apply H3, IH.
Qed.

Lemma b64_encode_digits l : b64_encode l = b64_digit <$> b64_digits l.
Proof. induction l as [|a|a b|a b c l IH] using three_ind; cbn; [done..|]. by rewrite IH. Qed.

Lemma b64_digits_spec l : Forall is_byte l → Forall (λ n, 0 ≤ n < 64) (b64_digits l) ∧ b64_bytes (b64_digits l) = Some l.
Proof.
  intros Hl.
  induction l as [|a|a b|a b c l IH] using three_ind; cbn [b64_digits b64_bytes]; [by split| | |].
  - apply Forall_cons in Hl as [Ha _]. unfold is_byte in Ha. split; [repeat (apply Forall_cons; split); [Z.div_mod_to_equations; lia..|constructor]|].
    f_equal. f_equal. Z.div_mod_to_equations; lia.
  - apply Forall_cons in Hl as [Ha [Hb _]%Forall_cons]. unfold is_byte in *. split; [repeat (apply Forall_cons; split); [Z.div_mod_to_equations; lia..|constructor]|].
    do 2 f_equal; [|f_equal]; Z.div_mod_to_equations; lia.
  - apply Forall_cons in Hl as [Ha [Hb [Hc Hl]%Forall_cons]%Forall_cons]. destruct (IH Hl) as [Hd ->]. unfold is_byte in *. cbn [mbind option_bind].
    set (v := a * 65536 + b * 256 + c). assert (0 ≤ v < 16777216) as Hv by (unfold v; lia).
    assert (v / 262144 * 262144 + v / 4096 mod 64 * 4096 + v / 64 mod 64 * 64 + v mod 64 = v) as -> by (clearbody v; Z.div_mod_to_equations; lia).
    split; [do 4 (apply Forall_cons; split; [clearbody v; Z.div_mod_to_equations; lia|]); done|].
    do 2 f_equal; [|f_equal; [|f_equal]]; unfold v; Z.div_mod_to_equations; lia.
Qed.
Lemma b64_decode_encode l : Forall is_byte l → b64_decode (b64_encode l) = Some l.
Proof. rewrite b64_encode_digits. intros Hl. destruct (b64_digits_spec l Hl) as [Hd E]. by rewrite b64_decode_digits. Qed.

(** Distinct bytes have distinct texts. *)
Lemma b64_encode_inj l l' : Forall is_byte l → Forall is_byte l' → b64_encode l = b64_encode l' → l = l'.
Proof. intros H H' E. apply b64_decode_encode in H, H'. congruence. Qed.

#[global] Arguments b64_decode : simpl never.
#[global] Arguments b64_encode : simpl never.
