(* ===== verification/Jose.v ===== *)
(** * Signed requests: [pki/acme/jose]

    Keys in JSON Web Key form, the flattened JWS of an ACME request, its protected header and
    its verification. Elliptic curves, RSA and the digests are the class [Crypto].

    The theorems: exactly the signatures that lack up to three leading zero bytes are
    completed; what a handler reads of a request is determined by the octets its signature
    covers; a usable key survives the trip through its JWK, so a key has one thumbprint
    however its JWK is spelled. *)
From S2P Require Import Prelude GoStrings Sha256 Utf8 Json Canonjson Base64.

(* @src devicemanagement/pki/acme/jose/jws.go 51-57 errors *)
Inductive jose_err := ErrParse | ErrAlgorithm | ErrSignature | ErrKey | ErrHeader.
#[export] Instance jose_err_eq_dec : EqDecision jose_err.
Proof. solve_decision. Defined.
Definition or_err {A} (e : jose_err) (o : option A) : result jose_err A := match o with Some a => Ok a | None => Err e end.

(** ** Keys *)

Inductive Curve := P256 | P384 | P521 | OtherCurve (name : bytes).
#[export] Instance Curve_eq_dec : EqDecision Curve.
Proof. solve_decision. Defined.
Inductive Hash := SHA256 | SHA384 | SHA512.

(** A public key of the kinds the code tells apart. [point] is what [Bytes] returns of an
    ECDSA key: its uncompressed point, or an error. *)
Inductive PublicKey := ECDSA (c : Curve) (point : option bytes) | RSA (N E : Z) | OtherKey (k : bytes).
#[export] Instance PublicKey_eq_dec : EqDecision PublicKey.
Proof. solve_decision. Defined.

(** [crypto/ecdsa], [crypto/rsa] and the digests. *)
Class Crypto := {
  on_curve : Curve → bytes → bool;
  ecdsa_Verify : Curve → option bytes → bytes → Z → Z → bool;
  VerifyPKCS1v15 : Z → Z → Hash → bytes → bytes → bool;
  digest : Hash → bytes → bytes }.

(* @src devicemanagement/pki/acme/jose/jwk.go 17-31 kty, crv and the RSA minimum *)
Definition keyTypeEC : bytes := bs "EC".
Definition keyTypeRSA : bytes := bs "RSA".
Definition curveP256 : bytes := bs "P-256".
Definition curveP384 : bytes := bs "P-384".
Definition curveP521 : bytes := bs "P-521".
Definition minRSABits : Z := 2048.

(* @src devicemanagement/pki/acme/jose/jwk.go 41-48 JWK *)
Record JWK := mkJWK { Kty : bytes; Crv : bytes; kX : bytes; kY : bytes; kN : bytes; kE : bytes }.
#[export] Instance JWK_eq_dec : EqDecision JWK.
Proof. solve_decision. Defined.

(* @src devicemanagement/pki/acme/jose/jwk.go - curveByName *)
Definition curveByName (name : bytes) : option (Curve * nat) :=
  if bool_decide (name = curveP256) then Some (P256, 32%nat)
  else if bool_decide (name = curveP384) then Some (P384, 48%nat)
  else if bool_decide (name = curveP521) then Some (P521, 66%nat) else None.
(* @src devicemanagement/pki/acme/jose/jwk.go - curveName *)
Definition curveName (c : Curve) : option (bytes * nat) :=
  match c with
  | P256 => Some (curveP256, 32%nat)
  | P384 => Some (curveP384, 48%nat)
  | P521 => Some (curveP521, 66%nat)
  | OtherCurve _ => None
  end.

(** [big.Int.Bytes]: big-endian, without leading zeros. *)
Definition BitLen (n : Z) : Z := if n =? 0 then 0 else Z.log2 (Z.abs n) + 1.
Definition big_Bytes (n : Z) : bytes := put_be (Z.to_nat ((BitLen n + 7) / 8)) (Z.abs n).

(* @src devicemanagement/pki/acme/jose/jwk.go - checkRSASize *)
Definition checkRSASize (N : Z) : result jose_err unit :=
  _ ← reject (N <=? 0) ErrKey;
  reject (BitLen N <? minRSABits) ErrKey.

(* @src devicemanagement/pki/acme/jose/jwk.go - JWKFromPublic *)
Definition JWKFromPublic (pub : PublicKey) : result jose_err JWK :=
  match pub with
  | ECDSA c point =>
      '(name, size) ← or_err ErrKey (curveName c);
      encoded ← or_err ErrKey point;
      Ok (mkJWK keyTypeEC name (b64_encode (take size (drop 1 encoded))) (b64_encode (drop (1 + size) encoded)) [] [])
  | RSA N E =>
      _ ← checkRSASize N;
      _ ← reject (E <=? 0) ErrKey;
      Ok (mkJWK keyTypeRSA [] [] [] (b64_encode (big_Bytes N)) (b64_encode (big_Bytes E)))
  | OtherKey _ => Err ErrKey
  end.

(* @src devicemanagement/pki/acme/jose/jwk.go - JWK.ecPublic *)
Definition ecPublic `{Crypto} (k : JWK) : result jose_err PublicKey :=
  '(curve, size) ← or_err ErrKey (curveByName (Crv k));
  x ← or_err ErrKey (b64_decode (kX k));
  y ← or_err ErrKey (b64_decode (kY k));
  _ ← reject (negb (length x =? size)%nat || negb (length y =? size)%nat) ErrKey;
  let point := 4 :: x ++ y in
  _ ← reject (negb (on_curve curve point)) ErrKey;
  Ok (ECDSA curve (Some point)).

(* @src devicemanagement/pki/acme/jose/jwk.go - JWK.rsaPublic *)
Definition rsaPublic (k : JWK) : result jose_err PublicKey :=
  n ← or_err ErrKey (b64_decode (kN k));
  e ← or_err ErrKey (b64_decode (kE k));
  _ ← reject (bool_decide (n = [])) ErrKey;
  _ ← reject ((length e =? 0)%nat || (4 <? length e)%nat) ErrKey;
  let N := get_be n in
  let E := get_be e in
  _ ← checkRSASize N;
  _ ← reject ((E <? 3) || (E mod 2 =? 0)) ErrKey;
  Ok (RSA N E).

(* @src devicemanagement/pki/acme/jose/jwk.go - JWK.Public *)
Definition Public `{Crypto} (k : JWK) : result jose_err PublicKey :=
  if bool_decide (Kty k = keyTypeEC) then ecPublic k
  else if bool_decide (Kty k = keyTypeRSA) then rsaPublic k
  else Err ErrKey.

(** The members of a struct as [json.Marshal] writes them. *)
Definition json_struct (fields : list (string * bytes)) : bytes :=
  [123] ++ mjoin (imap (λ i '(n, v), (if (i =? 0)%nat then [] else [44]) ++ appendString [] (bs n) ++ [58] ++ appendString [] v) fields) ++ [125].
(* @src devicemanagement/pki/acme/jose/jwk.go - JWK.Thumbprint *)
Definition Thumbprint `{Crypto} (k : JWK) : result jose_err bytes :=
  pub ← Public k;
  canonical ← JWKFromPublic pub;
  let encoded :=
    if bool_decide (Kty canonical = keyTypeEC)
    then json_struct [("crv"%string, Crv canonical); ("kty"%string, Kty canonical); ("x"%string, kX canonical); ("y"%string, kY canonical)]
    else json_struct [("e"%string, kE canonical); ("kty"%string, Kty canonical); ("n"%string, kN canonical)] in
  Ok (b64_encode (Sum256 encoded)).

(** ** Requests *)

(* @src devicemanagement/pki/acme/jose/jws.go 23-33 algorithms *)
Definition algorithms : list bytes := [bs "ES256"; bs "ES384"; bs "ES512"; bs "RS256"; bs "RS384"; bs "RS512"].
(* @src devicemanagement/pki/acme/jose/jws.go 44-44 MaxBody *)
Definition MaxBody : Z := 262144.

(* @src devicemanagement/pki/acme/jose/jws.go 63-69 Header *)
Record Header := mkHeader { Algorithm : bytes; KeyID : bytes; h_JWK : option JWK; h_Nonce : bytes; h_URL : bytes }.
(* @src devicemanagement/pki/acme/jose/jws.go 79-88 JWS *)
Record JWS := mkJWS { j_Header : Header; j_Payload : bytes; Protected : bytes; Signature : bytes; signingInput : bytes }.

(** What the decoder fills in. *)
(* @src devicemanagement/pki/acme/jose/jws.go 93-99 flattened *)
Record flattened := mkFlattened { f_Protected : option bytes; f_Payload : option bytes; f_Signature : option bytes; f_header : bool; f_signatures : bool }.
Definition read_flattened (ms : members) : option flattened :=
  if negb (known ["protected"; "payload"; "signature"; "header"; "signatures"]%string ms) then None
  else
    p ← string_pointer ms "protected"; l ← string_pointer ms "payload"; s ← string_pointer ms "signature";
    Some (mkFlattened p l s (present ms "header") (present ms "signatures")).
Definition read_JWK (v : json) : option JWK :=
  ms ← object v;
  kty ← string_field ms "kty"; crv ← string_field ms "crv"; x ← string_field ms "x"; y ← string_field ms "y"; n ← string_field ms "n"; e ← string_field ms "e";
  Some (mkJWK kty crv x y n e).
(* @src devicemanagement/pki/acme/jose/jws.go 105-113 protectedHeader *)
Record protectedHeader := mkProtected {
  Alg : option bytes; Kid : option bytes; ph_JWK : option JWK; ph_Nonce : option bytes; ph_URL : option bytes; B64 : option bool; Crit : bool }.
Definition read_protected (ms : members) : option protectedHeader :=
  alg ← string_pointer ms "alg"; kid ← string_pointer ms "kid"; jwk ← pointer read_JWK (member (bs "jwk") ms); nonce ← string_pointer ms "nonce";
  url ← string_pointer ms "url"; b64 ← pointer a_bool (member (bs "b64") ms);
  Some (mkProtected alg kid jwk nonce url b64 (present ms "crit")).

Definition empty_or_nil (s : option bytes) : bool := match s with None | Some [] => true | _ => false end.

(* @src devicemanagement/pki/acme/jose/jws.go - parseProtected *)
Definition parseProtected `{Crypto} (raw : bytes) : result jose_err Header :=
  p ← or_err ErrHeader (into read_protected raw);
  _ ← reject (bool_decide (B64 p = Some false)) ErrHeader;
  _ ← reject (Crit p) ErrHeader;
  alg ← or_err ErrHeader (Alg p);
  _ ← reject (bool_decide (alg ∉ algorithms)) ErrAlgorithm;
  _ ← reject (Bool.eqb (bool_decide (Kid p = None)) (bool_decide (ph_JWK p = None))) ErrHeader;
  _ ← reject (bool_decide (Kid p = Some [])) ErrHeader;
  _ ← reject (empty_or_nil (ph_URL p)) ErrHeader;
  _ ← reject (empty_or_nil (ph_Nonce p)) ErrHeader;
  _ ← match ph_JWK p with Some k => _ ← Public k; Ok tt | None => Ok tt end;
  Ok (mkHeader alg (default [] (Kid p)) (ph_JWK p) (default [] (ph_Nonce p)) (default [] (ph_URL p))).

(* @src devicemanagement/pki/acme/jose/jws.go - Parse *)
Definition Parse `{Crypto} (body : bytes) : result jose_err JWS :=
  _ ← reject (MaxBody <? Z.of_nat (length body)) ErrParse;
  f ← or_err ErrParse (into read_flattened body);
  _ ← reject (f_signatures f) ErrParse;
  _ ← reject (f_header f) ErrParse;
  _ ← reject (empty_or_nil (f_Protected f)) ErrParse;
  payload64 ← or_err ErrParse (f_Payload f);
  _ ← reject (empty_or_nil (f_Signature f)) ErrParse;
  let protected64 := default [] (f_Protected f) in
  protectedJSON ← or_err ErrParse (b64_decode protected64);
  payload ← or_err ErrParse (b64_decode payload64);
  signature ← or_err ErrParse (b64_decode (default [] (f_Signature f)));
  header ← parseProtected protectedJSON;
  Ok (mkJWS header payload protected64 signature (protected64 ++ [46] ++ payload64)).

(* @src devicemanagement/pki/acme/jose/jws.go - JWS.PayloadIsEmpty *)
Definition PayloadIsEmpty (j : JWS) : bool := bool_decide (j_Payload j = []).

(* @src devicemanagement/pki/acme/jose/jws.go - hashFor *)
Definition hashFor (alg : bytes) : result jose_err Hash :=
  if bool_decide (alg ∈ [bs "ES256"; bs "RS256"]) then Ok SHA256
  else if bool_decide (alg ∈ [bs "ES384"; bs "RS384"]) then Ok SHA384
  else if bool_decide (alg ∈ [bs "ES512"; bs "RS512"]) then Ok SHA512
  else Err ErrAlgorithm.
(* @src devicemanagement/pki/acme/jose/jws.go - curveForAlg *)
Definition curveForAlg (alg : bytes) : option (bytes * nat) :=
  if bool_decide (alg = bs "ES256") then Some (curveP256, 32%nat)
  else if bool_decide (alg = bs "ES384") then Some (curveP384, 48%nat)
  else if bool_decide (alg = bs "ES512") then Some (curveP521, 66%nat)
  else None.

(* @src devicemanagement/pki/acme/jose/jws.go 315-315 maxOmittedZeroBytes *)
Definition maxOmittedZeroBytes : nat := 3.
(** [copy] into zeroed slices of [size] bytes. *)
(* @src devicemanagement/pki/acme/jose/jws.go - candidateSplits *)
Definition candidateSplits (sig : bytes) (size : nat) : list (bytes * bytes) :=
  let want := (2 * size)%nat in
  if (length sig =? want)%nat then [(take size sig, drop size sig)]
  else if (want <? length sig)%nat || (length sig <? want - maxOmittedZeroBytes)%nat then []
  else
    let deficit := (want - length sig)%nat in
    (λ fromR,
      let rLen := (size - fromR)%nat in
      (replicate fromR 0 ++ take rLen sig, replicate (deficit - fromR) 0 ++ drop rLen sig)) <$> seq 0 (deficit + 1).

(* @src devicemanagement/pki/acme/jose/jws.go - JWS.verifyECDSA *)
Definition verifyECDSA `{Crypto} (j : JWS) (pub : PublicKey) (dg wantCurve : bytes) (size : nat) : result jose_err unit :=
  match pub with
  | ECDSA c point =>
      '(haveCurve, _) ← or_err ErrKey (curveName c);
      _ ← reject (bool_decide (haveCurve ≠ wantCurve)) ErrAlgorithm;
      if existsb (λ '(r, s), ecdsa_Verify c point dg (get_be r) (get_be s)) (candidateSplits (Signature j) size)
      then Ok tt else Err ErrSignature
  | _ => Err ErrAlgorithm
  end.
(* @src devicemanagement/pki/acme/jose/jws.go - JWS.verifyRSA *)
Definition verifyRSA `{Crypto} (j : JWS) (pub : PublicKey) (h : Hash) (dg : bytes) : result jose_err unit :=
  match pub with
  | RSA N E =>
      _ ← checkRSASize N;
      reject (negb (VerifyPKCS1v15 N E h dg (Signature j))) ErrSignature
  | _ => Err ErrAlgorithm
  end.
(* @src devicemanagement/pki/acme/jose/jws.go - JWS.Verify *)
Definition Verify `{Crypto} (j : JWS) (pub : PublicKey) : result jose_err unit :=
  _ ← reject (bool_decide (signingInput j = [])) ErrParse;
  h ← hashFor (Algorithm (j_Header j));
  let dg := digest h (signingInput j) in
  match curveForAlg (Algorithm (j_Header j)) with
  | Some (wantCurve, size) => verifyECDSA j pub dg wantCurve size
  | None => verifyRSA j pub h dg
  end.

(** ** Signatures that lack leading zeros *)

(** Zeros dropped from the front of [r] and of [s], three at most. *)
Definition completes (sig : bytes) (size : nat) (r s : bytes) : Prop :=
  ∃ a b r' s', (a + b ≤ maxOmittedZeroBytes)%nat ∧ r = replicate a 0 ++ r' ∧ s = replicate b 0 ++ s' ∧ sig = r' ++ s' ∧
    length r = size ∧ length s = size.

(** A signature is completed to exactly the pairs of full width it can come from by
    dropping up to three leading zero bytes, and no other pair is tried. *)
Theorem candidateSplits_spec sig size r s : (3 ≤ size)%nat → (r, s) ∈ candidateSplits sig size ↔ completes sig size r s.
Proof.
  intros Hs. unfold candidateSplits, completes, maxOmittedZeroBytes.
  destruct (Nat.eqb_spec (length sig) (2 * size)) as [E|E]; [|destruct ((2 * size <? length sig)%nat || (length sig <? 2 * size - 3)%nat) eqn:E'].
  - rewrite list_elem_of_singleton. split.
    + intros [= -> ->]. exists 0%nat, 0%nat, (take size sig), (drop size sig). rewrite take_drop, length_take, length_drop. cbn. repeat split; lia.
    + intros (a & b & r' & s' & Hab & -> & -> & -> & Hr & Hs'). rewrite !length_app, length_replicate in *.
      assert (a = 0 ∧ b = 0)%nat as [-> ->] by lia. cbn in *. by rewrite take_app_length', drop_app_length' by lia.
  - split; [by intros ?%not_elem_of_nil|]. intros (a & b & r' & s' & Hab & -> & -> & -> & Hr & Hs'). rewrite !length_app, length_replicate in *.
    apply orb_true_iff in E' as [H%Nat.ltb_lt|H%Nat.ltb_lt]; lia.
  - apply orb_false_iff in E' as [H1%Nat.ltb_ge H2%Nat.ltb_ge]. rewrite list_elem_of_fmap. split.
    + intros (i & [= -> ->] & Hi%elem_of_seq). eexists i, (2 * size - length sig - i)%nat, _, _. rewrite take_drop, !length_app, !length_replicate, length_take, length_drop.
      repeat split; lia.
    + intros (a & b & r' & s' & Hab & -> & -> & -> & Hr & Hs'). rewrite !length_app, length_replicate in *. exists a. split; [|apply elem_of_seq; lia].
      rewrite take_app_length', drop_app_length' by lia. do 3 f_equal. lia.
Qed.

(** ** What the signature covers *)

Lemma or_err_Ok {A} e (o : option A) a : or_err e o = Ok a → o = Some a.
Proof. destruct o; cbn; congruence. Qed.

Lemma b64_decode_no_dot s l : b64_decode s = Some l → 46 ∉ s.
Proof.
  unfold b64_decode. intros (ds & H%mapM_Some_1 & _)%bind_Some Hin.
  assert (46 ∈ filter (λ c, c ≠ 10 ∧ c ≠ 13) s) as Hf by (apply list_elem_of_filter; done).
  apply list_elem_of_lookup in Hf as [i Hi]. eapply Forall2_lookup_l in H as (y & _ & Hy); [|exact Hi]. done.
Qed.

Lemma app_dot_inj (p p' l l' : bytes) : 46 ∉ p → 46 ∉ p' → p ++ [46] ++ l = p' ++ [46] ++ l' → p = p' ∧ l = l'.
Proof.
  revert p'. induction p as [|c p IH]; intros [|c' p']; cbn; rewrite ?not_elem_of_cons; [naive_solver..|].
  intros [_ Hp] [_ Hp'] [= -> E]. destruct (IH p' Hp Hp' E) as [-> ->]. done.
Qed.

(** The texts a request was read from. *)
Lemma Parse_parts `{Crypto} body j : Parse body = Ok j → ∃ p l raw,
  signingInput j = p ++ [46] ++ l ∧ Protected j = p ∧ b64_decode p = Some raw ∧ parseProtected raw = Ok (j_Header j) ∧ b64_decode l = Some (j_Payload j).
Proof.
  unfold Parse. intros H'. go_binds H'. cbn. repeat match goal with H : or_err _ _ = Ok _ |- _ => apply or_err_Ok in H end. eauto 10.
Qed.

(** C34 Everything a handler may read of a parsed request, the protected header and the
    payload, is a function of the octets the signature covers: requests with the same
    signing input agree on both, whatever else their bodies hold. *)
Theorem Parse_covered `{Crypto} b1 b2 j1 j2 :
  Parse b1 = Ok j1 → Parse b2 = Ok j2 → signingInput j1 = signingInput j2 → j_Header j1 = j_Header j2 ∧ j_Payload j1 = j_Payload j2.
Proof.
  intros (p & l & raw & E & _ & Hp & Hh & Hl)%Parse_parts (p' & l' & raw' & E' & _ & Hp' & Hh' & Hl')%Parse_parts Es.
  rewrite E, E' in Es. apply app_dot_inj in Es as [-> ->]; [|by eapply b64_decode_no_dot..]. split; congruence.
Qed.

(** Exactly one of the two ways to name a key is used, and the algorithm, the nonce and the
    URL are there. *)
Lemma Parse_header `{Crypto} body j : Parse body = Ok j →
  let h := j_Header j in
  Algorithm h ∈ algorithms ∧ h_Nonce h ≠ [] ∧ h_URL h ≠ [] ∧
  match h_JWK h with Some k => KeyID h = [] ∧ ∃ pub, Public k = Ok pub | None => KeyID h ≠ [] end.
Proof.
  intros (p & l & raw & _ & _ & _ & Hh & _)%Parse_parts. unfold parseProtected in Hh. apply bind_Ok_inv in Hh as (q & _ & Hh).
  destruct q as [alg kid jwk nonce url b64 crit]. cbn in Hh. go_binds Hh. cbn. bool_hyps.
  destruct url as [[]|], nonce as [[]|]; try done. rewrite <-Hh. cbn. split; [done|]. do 2 (split; [done|]).
  destruct jwk as [k|], kid as [[]|]; try done. split; [done|].
  match goal with H : (_ ≫= _) = Ok _ |- _ => apply bind_Ok_inv in H as (pub & ? & _) end. eauto.
Qed.

(** ** Keys and their JWK *)

Lemma b64_value_range c v : b64_value c = Some v → 0 ≤ v < 64.
Proof. unfold b64_value. intros. repeat case_match; simplify_eq; bool_hyps; lia. Qed.

Lemma four_ind (P : list Z → Prop) :
  P [] → (∀ a, P [a]) → (∀ a b, P [a; b]) → (∀ a b c, P [a; b; c]) → (∀ a b c d l, P l → P (a :: b :: c :: d :: l)) → ∀ l, P l.
Proof. intros H0 H1 H2 H3 H4. fix IH 1. intros [|a [|b [|c [|d l]]]]; [done|apply H1|apply H2|apply H3|]. apply H4, IH. Qed.

Lemma b64_bytes_bytes ds : ∀ l, Forall (λ v, 0 ≤ v < 64) ds → b64_bytes ds = Some l → Forall is_byte l.
Proof.
  unfold is_byte. induction ds as [|a|a b|a b c|a b c d ds IH] using four_ind; intros l Hd H; cbn in H; simplify_eq; decompose_Forall_hyps; try done.
  - repeat constructor; Z.div_mod_to_equations; lia.
  - repeat constructor; Z.div_mod_to_equations; lia.
  - apply bind_Some in H as (r & Hr & H). simplify_eq. repeat (constructor; [Z.div_mod_to_equations; lia|]). by apply IH.
Qed.
Lemma b64_decode_bytes s l : b64_decode s = Some l → Forall is_byte l.
Proof.
  unfold b64_decode. intros (ds & H%mapM_Some_1 & E)%bind_Some. eapply b64_bytes_bytes; [|exact E].
  clear E. induction H as [|c v cs vs Hv _ IH]; [constructor|]. constructor; [by eapply b64_value_range|done].
Qed.

Lemma BitLen_spec n : 0 < n → 2 ^ (BitLen n - 1) ≤ n < 2 ^ BitLen n.
Proof.
  intros H. unfold BitLen. destruct (Z.eqb_spec n 0); [lia|]. rewrite Z.abs_eq by lia.
  replace (Z.log2 n + 1 - 1) with (Z.log2 n) by lia. apply Z.log2_spec in H. by rewrite <-Z.add_1_r in H.
Qed.
Lemma big_Bytes_get n : 0 < n → get_be (big_Bytes n) = n.
Proof.
  intros H. pose proof (BitLen_spec n H) as [_ Hb]. assert (0 < BitLen n) by (unfold BitLen; destruct (Z.eqb_spec n 0); [lia|]; pose proof (Z.log2_nonneg (Z.abs n)); lia).
  unfold big_Bytes. rewrite get_put_be, Z.abs_eq by lia. apply Z.mod_small. split; [lia|].
  replace 256 with (2 ^ 8) by done. rewrite <-Z.pow_mul_r by lia. eapply Z.lt_le_trans; [exact Hb|]. apply Z.pow_le_mono_r; [lia|]. Z.div_mod_to_equations; lia.
Qed.
Lemma big_Bytes_length n k : 0 < n → n < 256 ^ Z.of_nat k → (1 ≤ length (big_Bytes n) ≤ k)%nat.
Proof.
  intros H Hk. pose proof (BitLen_spec n H) as [Hb _]. assert (1 ≤ BitLen n) by (unfold BitLen; destruct (Z.eqb_spec n 0); [lia|]; pose proof (Z.log2_nonneg (Z.abs n)); lia).
  unfold big_Bytes. rewrite put_be_length. replace 256 with (2 ^ 8) in Hk by done. rewrite <-Z.pow_mul_r in Hk by lia.
  assert (BitLen n - 1 < 8 * Z.of_nat k) by (apply (Z.pow_lt_mono_r_iff 2); lia). Z.div_mod_to_equations; lia.
Qed.
Lemma get_be_lt l k : Forall is_byte l → (length l ≤ k)%nat → get_be l < 256 ^ Z.of_nat k.
Proof.
  intros Hl Hk. eapply Z.lt_le_trans; [|apply Z.pow_le_mono_r with (b := Z.of_nat (length l)); lia]. clear Hk.
  induction l as [|x l IH] using rev_ind; [done|]. apply Forall_app in Hl as [Hl [Hx _]%Forall_cons]. unfold get_be, is_byte in *. rewrite foldl_app, length_app. cbn.
  specialize (IH Hl). replace (Z.of_nat (length l + 1)) with (Z.succ (Z.of_nat (length l))) by lia. rewrite Z.pow_succ_r by lia. lia.
Qed.

Lemma ec_roundtrip `{Crypto} k pub : ecPublic k = Ok pub → ∃ k', JWKFromPublic pub = Ok k' ∧ Public k' = Ok pub.
Proof.
  unfold ecPublic. intros E. destruct (curveByName (Crv k)) as [[c size]|] eqn:Hc; [|done]. cbn in E. go_binds E.
  rename a into x, a0 into y. repeat match goal with H : or_err _ _ = Ok _ |- _ => apply or_err_Ok, b64_decode_bytes in H end. bool_hyps.
  apply Nat.eqb_eq in H0, H1.
  assert (∃ name, curveName c = Some (name, size) ∧ curveByName name = Some (c, size)) as (name & Hn & Hn').
  { clear -Hc. unfold curveByName in Hc. repeat case_match; inversion Hc; subst; eexists; split; reflexivity. }
  unfold JWKFromPublic. rewrite Hn. cbn. eexists. split; [done|].
  rewrite drop_0, take_app_length', drop_app_length' by done. unfold Public. cbn. unfold ecPublic. cbn. rewrite Hn'. cbn.
  rewrite !b64_decode_encode by done. cbn. rewrite H0, H1, Nat.eqb_refl. cbn. by rewrite Hb2.
Qed.

Lemma rsa_roundtrip `{Crypto} k pub : rsaPublic k = Ok pub → ∃ k', JWKFromPublic pub = Ok k' ∧ Public k' = Ok pub.
Proof.
  unfold rsaPublic. intros E. go_binds E. rename a into n, a0 into e.
  repeat match goal with H : or_err _ _ = Ok _ |- _ => apply or_err_Ok, b64_decode_bytes in H end. bool_hyps.
  destruct a1. assert (Hsize : checkRSASize (get_be n) = Ok tt) by done.
  assert (0 < get_be n) by (unfold checkRSASize in Hsize; go_binds Hsize; bool_hyps; lia).
  assert (get_be e < 256 ^ Z.of_nat 4) as He by (apply get_be_lt; [done|apply Nat.ltb_ge; done]).
  unfold JWKFromPublic. rewrite Hsize. cbn [mbind result_bind]. destruct (Z.leb_spec (get_be e) 0); [lia|]. cbn. eexists. split; [done|].
  assert (He' := big_Bytes_length (get_be e) 4 ltac:(lia) He).
  assert (big_Bytes (get_be n) ≠ []) by (intros E; pose proof (big_Bytes_get (get_be n) ltac:(lia)) as E'; rewrite E in E'; cbn in E'; lia).
  unfold Public. rewrite bool_decide_false, bool_decide_true by done. unfold rsaPublic. cbn [kN kE].
  rewrite !b64_decode_encode by apply put_be_bytes. cbn [or_err mbind result_bind]. rewrite bool_decide_false by done. cbn [reject mbind result_bind].
  rewrite (proj2 (Nat.eqb_neq _ 0)), (proj2 (Nat.ltb_ge 4 _)) by lia. cbn [orb reject mbind result_bind].
  rewrite !big_Bytes_get by lia. rewrite Hsize. cbn [mbind result_bind].
  rewrite (proj2 (Z.ltb_ge _ 3)), (proj2 (Z.eqb_neq _ 0)) by lia. done.
Qed.

(** C35 A key that a JWK decodes to is written back as a JWK that decodes to the same key,
    and JWKs of one key, however their coordinates and integers are spelled, have one
    thumbprint: a key is one account. *)
Theorem JWK_roundtrip `{Crypto} k pub : Public k = Ok pub →
  (∃ k', JWKFromPublic pub = Ok k' ∧ Public k' = Ok pub) ∧ ∃ t, ∀ k2, Public k2 = Ok pub → Thumbprint k2 = Ok t.
Proof.
  intros H'. assert (∃ k', JWKFromPublic pub = Ok k' ∧ Public k' = Ok pub) as (k' & Hk & Hp).
  { unfold Public in H'. case_match; [by eapply ec_roundtrip|]. case_match; [by eapply rsa_roundtrip|done]. }
  split; [eauto|]. eexists. intros k2 H2. unfold Thumbprint. rewrite H2. cbn [mbind result_bind]. rewrite Hk. done.
Qed.

(** ** Samples *)

(** A group in which every point is a key and a signature is the digest itself. *)
Definition sampleCrypto : Crypto := {|
  on_curve _ _ := true;
  ecdsa_Verify _ _ d r s := bool_decide (r = get_be d) && (s =? 1);
  VerifyPKCS1v15 _ _ _ d sig := bool_decide (sig = d);
  digest _ m := take 32 (m ++ replicate 32 0) |}.
Definition sampleJWK : JWK := mkJWK keyTypeEC curveP256 (b64_encode (replicate 32 7)) (b64_encode (replicate 32 9)) [] [].

Lemma candidateSplits_spec_witness : (1 :: replicate 31 5, 0 :: replicate 31 6) ∈ candidateSplits (1 :: replicate 31 5 ++ replicate 31 6) 32.
Proof.
  apply candidateSplits_spec; [lia|]. exists 0%nat, 1%nat, (1 :: replicate 31 5), (replicate 31 6). repeat split; done || (unfold maxOmittedZeroBytes; lia).
Defined.

Lemma JWK_roundtrip_witness : ∃ k', JWKFromPublic (ECDSA P256 (Some (4 :: replicate 32 7 ++ replicate 32 9))) = Ok k' ∧ Public (H := sampleCrypto) k' = Ok (ECDSA P256 (Some (4 :: replicate 32 7 ++ replicate 32 9))).
Proof. apply (JWK_roundtrip (H := sampleCrypto) sampleJWK). vm_compute. reflexivity. Defined.

(** Two bodies for one signing input: the second has another signature, and its members in
    another order. *)
Definition sampleProtected : bytes := b64_encode (jtext "{'alg':'ES256','kid':'https://x/acme/account/1','nonce':'n','url':'https://x/acme/new-order'}").
Definition sampleBody (sig : bytes) : bytes :=
  jtext "{'protected':'" ++ sampleProtected ++ jtext "','payload':'e30','signature':'" ++ sig ++ jtext "'}".
Definition otherBody : bytes :=
  jtext "{'signature':'AAAA', 'payload':'e30', 'protected':'" ++ sampleProtected ++ jtext "'}".
Definition parsed (r : result jose_err JWS) : JWS := match r with Ok j => j | Err _ => mkJWS (mkHeader [] [] None [] []) [] [] [] [] end.
Lemma Parse_covered_witness :
  let j := parsed (Parse (H := sampleCrypto) (sampleBody (bs "AQID"))) in let j' := parsed (Parse (H := sampleCrypto) otherBody) in
  Signature j ≠ Signature j' ∧ j_Header j = j_Header j' ∧ j_Payload j = bs "{}" ∧ j_Payload j = j_Payload j'.
Proof.
  intros j j'. assert (j_Header j = j_Header j' ∧ j_Payload j = j_Payload j') as [? ?].
  { apply (Parse_covered (H := sampleCrypto) (sampleBody (bs "AQID")) otherBody); vm_compute; reflexivity. }
  split_and!; [by vm_compute|done|vm_compute; reflexivity|done].
Defined.
