(* ===== verification/Attest.v ===== *)
(** * Device attestations: [pki/acme/attest]

    Reading Apple's attestation object (with the CBOR decoder of [internal/cbor]), the device
    properties its leaf certificate carries, and its verification. [crypto/x509] is the class
    [X509].

    The theorems: the properties are those of the last extension with their identifier, and
    an attestation verifies only when its chain does, at the given time, when it was made for
    the given freshness code, and, when a key was given, when it covers that key. *)
From S2P Require Import Prelude GoStrings Sha256 Cbor Jose.

(* @src devicemanagement/pki/acme/attest/attest.go 27-49 errors *)
Inductive att_err := ErrFormat | ErrNoAttestation | ErrChain | ErrFreshness | ErrKeyMismatch | ErrExtension | ErrOptions.
#[export] Instance att_err_eq_dec : EqDecision att_err.
Proof. solve_decision. Defined.

(* @src devicemanagement/pki/acme/attest/attest.go 18-23 format and limit *)
Definition FormatApple : bytes := bs "apple".
Definition MaxChain : nat := 10.

(** What the code reads of an [x509.Certificate]. *)
Record x509cert := mkX509 {
  x_Raw : bytes; x_Extensions : list (list Z * bytes); x_PublicKey : PublicKey; x_SerialNumber : Z; x_NotAfter : Time }.

(** [crypto/x509], and the embedded root. [chain_verifies roots intermediates leaf now]. *)
Class X509 := {
  ParseCertificate : bytes → option x509cert;
  chain_verifies : list x509cert → list x509cert → x509cert → Time → bool;
  MarshalPKIXPublicKey : PublicKey → option bytes;
  AppleAnchors : list x509cert }.

(* @src devicemanagement/pki/acme/attest/attest.go 54-85 object identifiers *)
Definition apple_oid (a b : Z) : list Z := [1; 2; 840; 113635; 100; 8; a; b].
Definition OIDSerialNumber := apple_oid 9 1.
Definition OIDUDID := apple_oid 9 2.
Definition OIDSoftwareUpdateDeviceID := apple_oid 9 4.
Definition OIDOSVersion := apple_oid 10 1.
Definition OIDSEPOSVersion := apple_oid 10 2.
Definition OIDLLBVersion := apple_oid 10 3.
Definition OIDFreshness := apple_oid 11 1.
Definition OIDSIPStatus := apple_oid 13 1.
Definition OIDSecureBoot := apple_oid 13 2.
Definition OIDKextsAllowed := apple_oid 13 3.

(* @src devicemanagement/pki/acme/attest/attest.go 98-114 Properties *)
Record Properties := mkProperties {
  pr_SerialNumber : bytes; pr_UDID : bytes; SoftwareUpdateDeviceID : bytes; pr_OSVersion : bytes; SEPOSVersion : bytes;
  LLBVersion : bytes; SecureBoot : bytes; SIPEnabled : option bool; KextsAllowed : option bool; Freshness : bytes }.
#[export] Instance Properties_eta : Eta Properties := λ p,
  mkProperties (pr_SerialNumber p) (pr_UDID p) (SoftwareUpdateDeviceID p) (pr_OSVersion p) (SEPOSVersion p) (LLBVersion p) (SecureBoot p)
    (SIPEnabled p) (KextsAllowed p) (Freshness p).
#[export] Instance Properties_eq_dec : EqDecision Properties.
Proof. solve_decision. Defined.
Definition noProperties : Properties := mkProperties [] [] [] [] [] [] [] None None [].
(* @src devicemanagement/pki/acme/attest/attest.go - Properties.Identified *)
Definition Properties_Identified (p : Properties) : bool := bool_decide (pr_SerialNumber p ≠ []) || bool_decide (pr_UDID p ≠ []).

(* @src devicemanagement/pki/acme/attest/attest.go 124-136 Attestation *)
Record Attestation := mkAttestation { at_Format : bytes; at_Chain : list x509cert; at_Properties : Properties; at_Raw : bytes }.

(** A DER integer of at most eight bytes in its shortest form, and what follows it: what
    [asn1.Unmarshal] accepts for an [int]. *)
Definition asn1_int (v : bytes) : option (Z * bytes) :=
  match v with
  | 2 :: l :: d =>
      let n := Z.to_nat l in
      let c := take n d in
      if (1 <=? l) && (l <=? 8) && (l <=? Z.of_nat (length d))
         && negb match c with
                 | a :: b :: _ => ((a =? 0) && (b <? 128)) || ((a =? 255) && (128 <=? b))
                 | _ => false
                 end
      then Some (get_be c - (if 128 <=? match c with a :: _ => a | [] => 0 end then 256 ^ l else 0), drop n d)
      else None
  | _ => None
  end.

(* @src devicemanagement/pki/acme/attest/attest.go - extensionInt *)
Definition extensionInt (value : bytes) : result att_err (option Z) :=
  if bool_decide (value = []) then Ok None
  else match asn1_int value with
  | None => Err ErrExtension
  | Some (n, rest) => if bool_decide (rest ≠ []) then Err ErrExtension else Ok (Some n)
  end.

(** The [switch] over one extension. *)
(* @src devicemanagement/pki/acme/attest/attest.go 235-272 properties *)
Definition property (p : Properties) (ext : list Z * bytes) : result att_err Properties :=
  let '(oid, value) := ext in
  if bool_decide (oid = OIDSerialNumber) then Ok (p <| pr_SerialNumber := value |>)
  else if bool_decide (oid = OIDUDID) then Ok (p <| pr_UDID := value |>)
  else if bool_decide (oid = OIDSoftwareUpdateDeviceID) then Ok (p <| SoftwareUpdateDeviceID := value |>)
  else if bool_decide (oid = OIDOSVersion) then Ok (p <| pr_OSVersion := value |>)
  else if bool_decide (oid = OIDSEPOSVersion) then Ok (p <| SEPOSVersion := value |>)
  else if bool_decide (oid = OIDLLBVersion) then Ok (p <| LLBVersion := value |>)
  else if bool_decide (oid = OIDSecureBoot) then Ok (p <| SecureBoot := value |>)
  else if bool_decide (oid = OIDFreshness) then Ok (p <| Freshness := value |>)
  else if bool_decide (oid = OIDSIPStatus) then
    n ← extensionInt value;
    Ok match n with Some n => p <| SIPEnabled := Some (n =? 0) |> | None => p end
  else if bool_decide (oid = OIDKextsAllowed) then
    n ← extensionInt value;
    Ok match n with Some n => p <| KextsAllowed := Some (negb (n =? 0)) |> | None => p end
  else Ok p.
Fixpoint properties_loop (p : Properties) (exts : list (list Z * bytes)) : result att_err Properties :=
  match exts with
  | [] => Ok p
  | e :: exts' => p ← property p e; properties_loop p exts'
  end.
(* @src devicemanagement/pki/acme/attest/attest.go - properties *)
Definition properties (leaf : x509cert) : result att_err Properties := properties_loop noProperties (x_Extensions leaf).

Section Attest.
Context {xs : X509}.

(** Both callers refuse an empty chain first. *)
(* @src devicemanagement/pki/acme/attest/attest.go - fromDER *)
Definition fromDER (ders : list bytes) : result att_err Attestation :=
  _ ← reject (MaxChain <? length ders)%nat ErrFormat;
  match mapM ParseCertificate ders with
  | None => Err ErrFormat
  | Some [] => Err ErrFormat
  | Some (leaf :: chain) => props ← properties leaf; Ok (mkAttestation FormatApple (leaf :: chain) props [])
  end.

(* @src devicemanagement/pki/acme/attest/attest.go 149-157 object and appleStatement *)
Definition object_type : gtype := GStruct [field "Format" "fmt" GString; field "AttStmt" "attStmt" GRaw].
Definition statement_type : gtype := GStruct [field "X5C" "x5c" (GSlice (GSlice (GUint 8)))].
Definition byte_slices (v : gval) : list bytes :=
  match v with
  | VSlice (Some l) => (λ b, match b with VBytes (Some b) => b | _ => [] end) <$> l
  | _ => []
  end.

(* @src devicemanagement/pki/acme/attest/attest.go - ParseObject *)
Definition ParseObject (raw : bytes) : result att_err Attestation :=
  match Wellformed raw with
  | Err _ => Err ErrFormat
  | Ok _ =>
      match Unmarshal raw (Some (object_type, zero object_type)) with
      | Ok (VStruct [(_, VString format); (_, VRaw stmt)]) =>
          _ ← reject (bool_decide (format ≠ FormatApple)) ErrFormat;
          x5c ← (if bool_decide (default [] stmt = []) then Ok []
                 else match Unmarshal (default [] stmt) (Some (statement_type, zero statement_type)) with
                      | Ok (VStruct [(_, chain)]) => Ok (byte_slices chain)
                      | _ => Err ErrFormat
                      end);
          _ ← reject (bool_decide (x5c = [])) ErrNoAttestation;
          a ← fromDER x5c;
          Ok (mkAttestation (at_Format a) (at_Chain a) (at_Properties a) raw)
      | _ => Err ErrFormat
      end
  end.

(* @src devicemanagement/pki/acme/attest/attest.go - ParseChain *)
Definition ParseChain (ders : list bytes) : result att_err Attestation :=
  _ ← reject (bool_decide (ders = [])) ErrNoAttestation; fromDER ders.

(* @src devicemanagement/pki/acme/attest/attest.go 296-313 VerifyOptions *)
Record VerifyOptions := mkVerifyOptions { vo_Anchors : list x509cert; vo_Now : Time; vo_Freshness : bytes; vo_PublicKey : option PublicKey }.

(** [a.Leaf] is the first certificate; an attestation the parsers return has one. *)
(* @src devicemanagement/pki/acme/attest/attest.go - Attestation.verifyChain *)
Definition verifyChain (a : Attestation) (o : VerifyOptions) : result att_err unit :=
  let roots := if bool_decide (length (vo_Anchors o) = 0%nat) then AppleAnchors else vo_Anchors o in
  match at_Chain a with
  | leaf :: intermediates => reject (negb (chain_verifies roots intermediates leaf (vo_Now o))) ErrChain
  | [] => Err ErrChain
  end.
(* @src devicemanagement/pki/acme/attest/attest.go - sameKey *)
Definition sameKey (attested requested : PublicKey) : result att_err unit :=
  match MarshalPKIXPublicKey attested, MarshalPKIXPublicKey requested with
  | Some a, Some b => reject (bool_decide (a ≠ b)) ErrKeyMismatch
  | _, _ => Err ErrKeyMismatch
  end.
(* @src devicemanagement/pki/acme/attest/attest.go - Attestation.Verify *)
Definition Attestation_Verify (a : Attestation) (o : VerifyOptions) : result att_err unit :=
  _ ← reject (bool_decide (vo_Freshness o = [])) ErrOptions;
  _ ← verifyChain a o;
  _ ← reject (bool_decide (Freshness (at_Properties a) ≠ vo_Freshness o)) ErrFreshness;
  match vo_PublicKey o, at_Chain a with
  | Some key, leaf :: _ => sameKey (x_PublicKey leaf) key
  | _, _ => Ok tt
  end.
(* @src devicemanagement/pki/acme/attest/attest.go - FreshnessForToken *)
Definition FreshnessForToken (token : bytes) : bytes := Sum256 token.

(** What a parsed object consists of. *)
Lemma ParseObject_Ok raw a : ParseObject raw = Ok a →
  at_Raw a = raw ∧ ∃ leaf chain, at_Chain a = leaf :: chain ∧ (length chain < MaxChain)%nat ∧ properties leaf = Ok (at_Properties a).
Proof.
  unfold ParseObject. intros Hp. repeat (case_match; try done); go_binds Hp; bool_hyps; try congruence. split; [done|]. cbn.
  match goal with H : fromDER _ = Ok _ |- _ => unfold fromDER in H; go_binds H; rename H into Hd end.
  destruct (mapM ParseCertificate _) as [[|leaf chain]|] eqn:E; [done| |done]. go_binds Hd. exists leaf, chain. split_and!; [done| |done].
  apply mapM_Some_1, Forall2_length in E. cbn in E. match goal with H : (_ <? _)%nat = false |- _ => apply Nat.ltb_ge in H; lia end.
Qed.

(** An attestation verifies exactly when a freshness code was asked for and is the one its
    leaf carries, its chain reaches the anchors at the given time, and the key, when one was
    given, is the attested one. *)
Lemma Attestation_Verify_spec a o leaf chain : at_Chain a = leaf :: chain →
  Attestation_Verify a o = Ok tt ↔
  vo_Freshness o ≠ [] ∧ Freshness (at_Properties a) = vo_Freshness o ∧
  chain_verifies (if bool_decide (length (vo_Anchors o) = 0%nat) then AppleAnchors else vo_Anchors o) chain leaf (vo_Now o) = true ∧
  ∀ key, vo_PublicKey o = Some key → ∃ spki, MarshalPKIXPublicKey (x_PublicKey leaf) = Some spki ∧ MarshalPKIXPublicKey key = Some spki.
Proof.
  intros Hc. unfold Attestation_Verify, verifyChain. rewrite Hc. split.
  - intros Hv. go_binds Hv. bool_hyps. split_and!; [done..|].
    intros key Hk. rewrite Hk in Hv. unfold sameKey in Hv. destruct (MarshalPKIXPublicKey (x_PublicKey leaf)) as [s1|] eqn:E1, (MarshalPKIXPublicKey key) as [s2|] eqn:E2; try done.
    apply reject_Ok_inv in Hv. bool_hyps. exists s1. split; congruence.
  - intros (Hf & Hf' & -> & Hk). rewrite (bool_decide_false (vo_Freshness o = [])) by done. cbn. rewrite (bool_decide_false (Freshness _ ≠ _)) by (intros E; by apply E). cbn.
    destruct (vo_PublicKey o) as [key|]; [|done]. destruct (Hk key eq_refl) as (spki & H1 & H2). unfold sameKey. rewrite H1, H2. by rewrite bool_decide_false by (intros E; by apply E).
Qed.
End Attest.
