(* ===== verification/AcmeTypes.v ===== *)
(** * ACME records, problems and policies: [pki/acme]

    What the ACME server stores, the problem documents it answers with, and the policies
    that decide whether a device is issued a certificate. Of an error the model keeps what
    [errors.Is] and [errors.As] can find in it: details, subproblems and causes that are no
    problems are texts for clients and logs. *)
From S2P Require Import Prelude GoStrings Jose Attest.

(** ** Problems *)

(** [p_causes] are the types of the problems among the wrapped causes. *)
(* @src devicemanagement/pki/acme/problem.go 54-65 Problem *)
Record Problem := mkProblem { p_Type : bytes; p_Status : Z; p_causes : list bytes }.
#[export] Instance Problem_eq_dec : EqDecision Problem.
Proof. solve_decision. Defined.

(* @src devicemanagement/pki/acme/problem.go 16-49 problem types *)
Definition ProblemAccountDoesNotExist : bytes := bs "accountDoesNotExist".
Definition ProblemBadCSR : bytes := bs "badCSR".
Definition ProblemBadNonce : bytes := bs "badNonce".
Definition ProblemBadPublicKey : bytes := bs "badPublicKey".
Definition ProblemBadSignatureAlgorithm : bytes := bs "badSignatureAlgorithm".
Definition ProblemBadAttestationStatement : bytes := bs "badAttestationStatement".
Definition ProblemMalformed : bytes := bs "malformed".
Definition ProblemOrderNotReady : bytes := bs "orderNotReady".
Definition ProblemRejectedIdentifier : bytes := bs "rejectedIdentifier".
Definition ProblemUnauthorized : bytes := bs "unauthorized".
Definition ProblemUnsupportedIdentifier : bytes := bs "unsupportedIdentifier".
Definition ProblemServerInternal : bytes := bs "serverInternal".
Definition ProblemBadRevocationReason : bytes := bs "badRevocationReason".
Definition ProblemAlreadyRevoked : bytes := bs "alreadyRevoked".
Definition ProblemRateLimited : bytes := bs "rateLimited".

(** Every type that is not listed is a bad request, as most of the listed ones are. *)
(* @src devicemanagement/pki/acme/problem.go 101-117 problemStatus *)
Definition problemStatus (kind : bytes) : Z :=
  if bool_decide (kind = ProblemRateLimited) then 429
  else if bool_decide (kind = ProblemOrderNotReady) then 403
  else if bool_decide (kind = ProblemUnauthorized) then 401
  else if bool_decide (kind = ProblemServerInternal) then 500
  else 400.

(* @src devicemanagement/pki/acme/problem.go - NewProblem *)
Definition NewProblem (kind : bytes) : Problem := mkProblem kind (problemStatus kind) [].
(* @src devicemanagement/pki/acme/problem.go - Problem.Terminal *)
Definition Terminal (p : Problem) : bool := p_Status p <? 500.
(** [errors.Is(p, NewProblem(kind))] *)
(* @src devicemanagement/pki/acme/problem.go - Problem.Is *)
Definition Problem_Is (p : Problem) (kind : bytes) : bool := bool_decide (kind ∈ p_Type p :: p_causes p).

(** The storage errors, a problem, or any other error. *)
(* @src devicemanagement/pki/acme/store.go 13-24 storage errors *)
Inductive aerr := ErrNotFound | ErrConflict | ErrInvalid | EProblem (p : Problem) | EOther.
#[export] Instance aerr_eq_dec : EqDecision aerr.
Proof. solve_decision. Defined.

Definition problems_in (e : aerr) : list bytes := match e with EProblem p => p_Type p :: p_causes p | _ => [] end.
(* @src devicemanagement/pki/acme/problem.go - WrapProblem *)
Definition WrapProblem (kind : bytes) (e : aerr) : Problem := mkProblem kind (problemStatus kind) (problems_in e).
(* @src devicemanagement/pki/acme/problem.go - AsProblem *)
Definition AsProblem (e : aerr) : Problem := match e with EProblem p => p | _ => WrapProblem ProblemServerInternal e end.

(** ** Records *)

(* @src devicemanagement/pki/acme/acme.go 14-28 identifier, challenge and statuses *)
Definition IdentifierPermanent : bytes := bs "permanent-identifier".
Definition ChallengeDeviceAttest : bytes := bs "device-attest-01".
Definition StatusPending : bytes := bs "pending".
Definition StatusProcessing : bytes := bs "processing".
Definition StatusReady : bytes := bs "ready".
Definition StatusValid : bytes := bs "valid".
Definition StatusInvalid : bytes := bs "invalid".
Definition StatusExpired : bytes := bs "expired".

(* @src devicemanagement/pki/acme/acme.go 31-34 Identifier *)
Record Identifier := mkIdentifier { id_Type : bytes; id_Value : bytes }.
#[export] Instance Identifier_eq_dec : EqDecision Identifier.
Proof. solve_decision. Defined.

(* @src devicemanagement/pki/acme/acme.go 42-69 Binding *)
Record Binding := mkBinding {
  RequireAttestation : bool; b_Serial : bytes; b_UDID : bytes; MDMUDID : bytes; b_EnrollmentID : bytes;
  CommonName : bytes; Organization : list bytes; AllowUnidentified : bool; b_NotAfter : Time }.
#[export] Instance Binding_eq_dec : EqDecision Binding.
Proof. solve_decision. Defined.

(* @src devicemanagement/pki/acme/acme.go - Binding.Identified *)
Definition Binding_Identified (b : Binding) : bool := bool_decide (b_Serial b ≠ []) || bool_decide (b_UDID b ≠ []).
(* @src devicemanagement/pki/acme/acme.go - Binding.EnrollmentUDID *)
Definition EnrollmentUDID (b : Binding) : bytes := if bool_decide (MDMUDID b ≠ []) then MDMUDID b else b_UDID b.

(* @src devicemanagement/pki/acme/acme.go 84-93 Account *)
Record Account := mkAccount {
  ac_ID : bytes; ac_Thumbprint : bytes; ac_Key : JWK; ac_Status : bytes; Contact : list bytes; ac_CreatedAt : Time }.

(* @src devicemanagement/pki/acme/acme.go 96-109 Order *)
Record Order := mkOrder {
  o_CSRHash : bytes; o_ID : bytes; o_AccountID : bytes; o_Identifier : Identifier; o_Binding : Binding; o_Status : bytes;
  o_AuthzID : bytes; o_CertificateID : bytes; o_Expires : Time; o_Error : option Problem; o_CreatedAt : Time }.
#[export] Instance Order_eta : Eta Order := λ o,
  mkOrder (o_CSRHash o) (o_ID o) (o_AccountID o) (o_Identifier o) (o_Binding o) (o_Status o) (o_AuthzID o) (o_CertificateID o)
    (o_Expires o) (o_Error o) (o_CreatedAt o).

(* @src devicemanagement/pki/acme/acme.go 112-120 Authorization *)
Record Authorization := mkAuthz {
  a_ID : bytes; a_OrderID : bytes; a_AccountID : bytes; a_Identifier : Identifier; a_Status : bytes; a_ChallengeID : bytes; a_Expires : Time }.
#[export] Instance Authorization_eta : Eta Authorization := λ a,
  mkAuthz (a_ID a) (a_OrderID a) (a_AccountID a) (a_Identifier a) (a_Status a) (a_ChallengeID a) (a_Expires a).

(** A nil attestation is the empty one: the code looks at its length only. *)
(* @src devicemanagement/pki/acme/acme.go 123-140 Challenge *)
Record Challenge := mkChallenge {
  c_ID : bytes; c_AuthzID : bytes; c_AccountID : bytes; c_Type : bytes; c_Token : bytes; c_Status : bytes;
  c_Attestation : bytes; c_ValidatedAt : Time; c_Error : option Problem }.
#[export] Instance Challenge_eta : Eta Challenge := λ c,
  mkChallenge (c_ID c) (c_AuthzID c) (c_AccountID c) (c_Type c) (c_Token c) (c_Status c) (c_Attestation c) (c_ValidatedAt c) (c_Error c).

(* @src devicemanagement/pki/acme/acme.go 144-157 Certificate *)
Record Certificate := mkCertificate {
  PendingRegistration : bool; ct_ID : bytes; ct_OrderID : bytes; ct_AccountID : bytes; ct_Serial : bytes; ChainPEM : bytes;
  ct_Device : Properties; ct_Binding : Binding; ct_NotAfter : Time; IssuedAt : Time }.
#[export] Instance Certificate_eta : Eta Certificate := λ c,
  mkCertificate (PendingRegistration c) (ct_ID c) (ct_OrderID c) (ct_AccountID c) (ct_Serial c) (ChainPEM c) (ct_Device c) (ct_Binding c)
    (ct_NotAfter c) (IssuedAt c).

(* @src devicemanagement/pki/acme/acme.go 161-164 Nonce *)
Record Nonce := mkNonce { n_Value : bytes; n_IssuedAt : Time }.
(* @src devicemanagement/pki/acme/acme.go 172-176 CertificateQuery *)
Record CertificateQuery := mkCertificateQuery { q_DeviceSerial : bytes; q_UDID : bytes; q_AccountID : bytes }.

(** ** Policies *)

(* @src devicemanagement/pki/acme/policy.go 14-25 Decision *)
Record Decision := mkDecision {
  d_Account : option Account; d_Order : Order; d_Binding : Binding; d_Identifier : Identifier; d_Attestation : option Attestation }.
(* @src devicemanagement/pki/acme/policy.go - Decision.Properties *)
Definition Decision_Properties (d : Decision) : Properties := match d_Attestation d with Some a => at_Properties a | None => noProperties end.

Definition Policy : Type := Decision → result aerr unit.
Definition unauthorized : aerr := EProblem (NewProblem ProblemUnauthorized).

(* @src devicemanagement/pki/acme/policy.go - AllowAll *)
Definition AllowAll : Policy := λ _, Ok tt.
(* @src devicemanagement/pki/acme/policy.go - AllowSerials *)
Definition AllowSerials (serials : list bytes) : Policy := λ d,
  let serial := pr_SerialNumber (Decision_Properties d) in
  reject (bool_decide (serial = []) || bool_decide (serial ∉ serials)) unauthorized.
(* @src devicemanagement/pki/acme/policy.go - DeviceLookup.Authorize *)
Definition DeviceLookup (lookup : bytes → result aerr bool) : Policy := λ d,
  let serial := pr_SerialNumber (Decision_Properties d) in
  _ ← reject (bool_decide (serial = [])) unauthorized;
  match lookup serial with
  | Err e => Err (EProblem (WrapProblem ProblemServerInternal e))
  | Ok found => reject (negb found) unauthorized
  end.
(* @src devicemanagement/pki/acme/policy.go - RequireSecureBoot *)
Definition RequireSecureBoot (allowed : list bytes) : Policy := λ d,
  let got := SecureBoot (Decision_Properties d) in
  reject (bool_decide (got = []) || bool_decide (got ∉ allowed)) unauthorized.
(* @src devicemanagement/pki/acme/policy.go - RequireSIP *)
Definition RequireSIP : Policy := λ d, reject (bool_decide (SIPEnabled (Decision_Properties d) ≠ Some true)) unauthorized.
(* @src devicemanagement/pki/acme/policy.go - Chain *)
Fixpoint Chain (policies : list Policy) : Policy := λ d,
  match policies with
  | [] => Ok tt
  | p :: ps => _ ← p d; Chain ps d
  end.

(** The policies that ask for something of the device refuse one that sent no attestation. *)
Lemma policies_need_attestation a o b i :
  let d := mkDecision a o b i None in
  (∀ l, AllowSerials l d = Err unauthorized) ∧ (∀ f, DeviceLookup f d = Err unauthorized) ∧
  (∀ l, RequireSecureBoot l d = Err unauthorized) ∧ RequireSIP d = Err unauthorized.
Proof. by split_and!; intros; vm_compute. Qed.
Lemma Chain_Ok ps d : Chain ps d = Ok tt ↔ Forall (λ p : Policy, p d = Ok tt) ps.
Proof.
  induction ps as [|p ps IH]; cbn; [by split|]. rewrite Forall_cons, <-IH. destruct (p d) as [[]|]; cbn; [naive_solver|]. split; [done|]. by intros [? _].
Qed.
