(* ===== verification/AcmeStore.v ===== *)
(** * The ACME store: [storage/acme/inmem]

    The tables, the calls of a transaction, transactions with rollback, nonces, pages and
    pruning. Deep copies are the values themselves. *)
From S2P Require Import Prelude GoStrings Storage Base64 Jose Attest AcmeTypes.

(* @src devicemanagement/storage/acme/inmem/inmem.go 35-50 state *)
Record state := mkState {
  accounts : gmap bytes Account;
  thumbprints : gmap bytes bytes;
  orders : gmap bytes Order;
  authzs : gmap bytes Authorization;
  challenges : gmap bytes Challenge;
  certs : gmap bytes Certificate;
  claims : gmap bytes bytes;
  nonces : gmap bytes Nonce }.
#[export] Instance state_eta : Eta state := λ s,
  mkState (accounts s) (thumbprints s) (orders s) (authzs s) (challenges s) (certs s) (claims s) (nonces s).
(* @src devicemanagement/storage/acme/inmem/inmem.go - newState *)
Definition newState : state := mkState ∅ ∅ ∅ ∅ ∅ ∅ ∅ ∅.

(** ** Transactions *)

(** A callback works on the state and on what lies outside the store (the clock, the random
    source): [E]. *)
Definition tx (E A : Type) : Type := E * state → result aerr A * (E * state).
#[export] Instance tx_ret E : MRet (tx E) := λ A a w, (Ok a, w).
#[export] Instance tx_bind E : MBind (tx E) := λ A B f m w,
  match m w with (Ok a, w') => f a w' | (Err e, w') => (Err e, w') end.
Definition tx_lift {E A} (r : result aerr A) : tx E A := λ w, (r, w).
Definition tx_read {E A} (f : state → result aerr A) : tx E A := λ w, (f w.2, w).
Definition tx_put {E} (f : state → state) : tx E unit := λ w, (Ok tt, (w.1, f w.2)).

(** A failure puts the state back. *)
(* @src devicemanagement/storage/acme/inmem/inmem.go - Store.Update *)
Definition Update {E A} (fn : tx E A) : tx E A := λ w,
  match fn w with
  | (Ok a, w') => (Ok a, w')
  | (Err e, w') => (Err e, (w'.1, w.2))
  end.

(** ** Reads *)

(* @src devicemanagement/storage/acme/inmem/inmem.go - validID *)
Definition validID (id : bytes) : result aerr unit := reject (bool_decide (id = [])) ErrInvalid.
Definition found {A} (o : option A) : result aerr A := match o with Some a => Ok a | None => Err ErrNotFound end.

(* @src devicemanagement/storage/acme/inmem/inmem.go - tx.GetAccount *)
Definition GetAccount (id : bytes) (s : state) : result aerr Account := _ ← validID id; found (accounts s !! id).
(* @src devicemanagement/storage/acme/inmem/inmem.go - tx.AccountByThumbprint *)
Definition AccountByThumbprint (thumbprint : bytes) (s : state) : result aerr Account :=
  _ ← validID thumbprint; id ← found (thumbprints s !! thumbprint); GetAccount id s.
(* @src devicemanagement/storage/acme/inmem/inmem.go - tx.GetOrder *)
Definition GetOrder (id : bytes) (s : state) : result aerr Order := _ ← validID id; found (orders s !! id).
(* @src devicemanagement/storage/acme/inmem/inmem.go - tx.GetAuthorization *)
Definition GetAuthorization (id : bytes) (s : state) : result aerr Authorization := _ ← validID id; found (authzs s !! id).
(* @src devicemanagement/storage/acme/inmem/inmem.go - tx.GetChallenge *)
Definition GetChallenge (id : bytes) (s : state) : result aerr Challenge := _ ← validID id; found (challenges s !! id).
(* @src devicemanagement/storage/acme/inmem/inmem.go - tx.GetCertificate *)
Definition GetCertificate (id : bytes) (s : state) : result aerr Certificate := _ ← validID id; found (certs s !! id).

(** ** Pages *)

(* @src devicemanagement/storage/acme/inmem/inmem.go - encodeCursor *)
Definition encodeCursor (id : bytes) : bytes := b64_encode id.
(* @src devicemanagement/storage/acme/inmem/inmem.go - decodeCursor *)
Definition decodeCursor (c : bytes) : result aerr bytes :=
  if bool_decide (c = []) then Ok []
  else match b64_decode c with Some b => Ok b | None => Err ErrInvalid end.

(** The loop over the sorted ids: skipped up to the cursor, taken up to the limit. *)
(* @src devicemanagement/storage/acme/inmem/inmem.go 502-513 page *)
Fixpoint page_loop {T} (after : option bytes) (limit : nat) (load : bytes → T) (ids : list bytes) (out : list T) (last : bytes) : PageResult T :=
  match ids with
  | [] => mkPageResult out []
  | id :: ids' =>
      if match after with Some a => bytes_leb id a | None => false end then page_loop after limit load ids' out last
      else if (length out =? limit)%nat then mkPageResult out (encodeCursor last)
      else page_loop after limit load ids' (out ++ [load id]) id
  end.
(* @src devicemanagement/storage/acme/inmem/inmem.go - page *)
Definition page {T} (ids : list bytes) (p : Page) (load : bytes → T) : result aerr (PageResult T) :=
  after ← decodeCursor (Cursor p);
  let limit := if Limit p <=? 0 then DefaultPageSize else Limit p in
  Ok (page_loop (if bool_decide (Cursor p = []) then None else Some after) (Z.to_nat limit) load ids [] []).

(** The rows of a table a filter selects, by id. *)
Definition rows_where {T} (m : gmap bytes T) (f : T → bool) (p : Page) : result aerr (PageResult (option T)) :=
  page (sort_strings (map_to_list (filter (λ '(_, r), f r = true) m)).*1) p (λ id, m !! id).
Definition loaded {T} (r : result aerr (PageResult (option T))) : result aerr (PageResult T) :=
  p ← r; Ok (mkPageResult (omap id (Items p)) (NextCursor p)).

(* @src devicemanagement/storage/acme/inmem/inmem.go - tx.ListOrders *)
Definition ListOrders (accountID : bytes) (p : Page) (s : state) : result aerr (PageResult Order) :=
  _ ← validID accountID; loaded (rows_where (orders s) (λ o, bool_decide (o_AccountID o = accountID)) p).
(* @src devicemanagement/storage/acme/inmem/inmem.go - matches *)
Definition matches (c : Certificate) (q : CertificateQuery) : bool :=
  negb (bool_decide (q_DeviceSerial q ≠ []) && bool_decide (pr_SerialNumber (ct_Device c) ≠ q_DeviceSerial q))
  && negb (bool_decide (q_UDID q ≠ []) && bool_decide (pr_UDID (ct_Device c) ≠ q_UDID q))
  && negb (bool_decide (q_AccountID q ≠ []) && bool_decide (ct_AccountID c ≠ q_AccountID q)).
(* @src devicemanagement/storage/acme/inmem/inmem.go - tx.ListCertificates *)
Definition ListCertificates (q : CertificateQuery) (p : Page) (s : state) : result aerr (PageResult Certificate) :=
  loaded (rows_where (certs s) (λ c, matches c q) p).

(** ** Writes *)

Section Writes.
Context {E : Type}.

(* @src devicemanagement/storage/acme/inmem/inmem.go - tx.PutAccount *)
Definition PutAccount (a : Account) : tx E unit :=
  _ ← tx_lift (validID (ac_ID a));
  _ ← tx_lift (validID (ac_Thumbprint a));
  _ ← tx_read (λ s, match thumbprints s !! ac_Thumbprint a with Some owner => reject (bool_decide (owner ≠ ac_ID a)) ErrConflict | None => Ok tt end);
  tx_put (λ s,
    let s := match accounts s !! ac_ID a with
             | Some prev => if bool_decide (ac_Thumbprint prev ≠ ac_Thumbprint a)
                            then s <| thumbprints := delete (ac_Thumbprint prev) (thumbprints s) |> else s
             | None => s
             end in
    s <| accounts := <[ac_ID a := a]> (accounts s) |> <| thumbprints := <[ac_Thumbprint a := ac_ID a]> (thumbprints s) |>).
(* @src devicemanagement/storage/acme/inmem/inmem.go - tx.PutOrder *)
Definition PutOrder (o : Order) : tx E unit :=
  _ ← tx_lift (validID (o_ID o));
  _ ← tx_lift (validID (o_AccountID o));
  tx_put (λ s, s <| orders := <[o_ID o := o]> (orders s) |>).
(* @src devicemanagement/storage/acme/inmem/inmem.go - tx.PutAuthorization *)
Definition PutAuthorization (a : Authorization) : tx E unit :=
  _ ← tx_lift (validID (a_ID a));
  tx_put (λ s, s <| authzs := <[a_ID a := a]> (authzs s) |>).
(* @src devicemanagement/storage/acme/inmem/inmem.go - tx.PutChallenge *)
Definition PutChallenge (c : Challenge) : tx E unit :=
  _ ← tx_lift (validID (c_ID c));
  tx_put (λ s, s <| challenges := <[c_ID c := c]> (challenges s) |>).
(* @src devicemanagement/storage/acme/inmem/inmem.go - tx.PutCertificate *)
Definition PutCertificate (c : Certificate) : tx E unit :=
  _ ← tx_lift (validID (ct_ID c));
  tx_put (λ s, s <| certs := <[ct_ID c := c]> (certs s) |>).
(* @src devicemanagement/storage/acme/inmem/inmem.go - tx.ClaimIdentifier *)
Definition ClaimIdentifier (identifier orderID : bytes) : tx E unit :=
  _ ← tx_lift (validID identifier);
  _ ← tx_lift (validID orderID);
  _ ← tx_read (λ s, reject (bool_decide (is_Some (claims s !! identifier))) ErrConflict);
  tx_put (λ s, s <| claims := <[identifier := orderID]> (claims s) |>).

(* @src devicemanagement/storage/acme/inmem/inmem.go - Store.UpdateOrder *)
Definition UpdateOrder {A} (id : bytes) (fn : tx E A) : tx E A :=
  Update (_ ← tx_read (GetOrder id); fn).
End Writes.

(** ** Nonces and pruning *)

(* @src devicemanagement/storage/acme/inmem/inmem.go - Store.PutNonce *)
Definition PutNonce (n : Nonce) (s : state) : result aerr unit * state :=
  match validID (n_Value n) with
  | Err e => (Err e, s)
  | Ok _ => (Ok tt, s <| nonces := <[n_Value n := n]> (nonces s) |>)
  end.
(* @src devicemanagement/storage/acme/inmem/inmem.go - Store.TakeNonce *)
Definition TakeNonce (value : bytes) (s : state) : result aerr Nonce * state :=
  match _ ← validID value; found (nonces s !! value) with
  | Err e => (Err e, s)
  | Ok n => (Ok n, s <| nonces := delete value (nonces s) |>)
  end.

(* @src devicemanagement/storage/acme/inmem/inmem.go - expired *)
Definition expired (exp before : Time) : bool := negb (time_is_zero exp) && (exp <? before).
(* @src devicemanagement/storage/acme/inmem/inmem.go - state.removeAuthorization *)
Definition removeAuthorization (id : bytes) (s : state) : Z * state :=
  match authzs s !! id with
  | None => (0, s)
  | Some a =>
      let s' := s <| authzs := delete id (authzs s) |> in
      match challenges s !! a_ChallengeID a with
      | Some _ => (2, s' <| challenges := delete (a_ChallengeID a) (challenges s) |>)
      | None => (1, s')
      end
  end.
(** One round of the two loops. *)
(* @src devicemanagement/storage/acme/inmem/inmem.go 561-567 Store.Prune *)
Definition prune_order (before : Time) (acc : Z * state) (entry : bytes * Order) : Z * state :=
  let '(n, s) := acc in let '(id, o) := entry in
  if negb (expired (o_Expires o) before) then (n, s)
  else let '(k, s') := removeAuthorization (o_AuthzID o) (s <| orders := delete id (orders s) |>) in (n + 1 + k, s').
(* @src devicemanagement/storage/acme/inmem/inmem.go 568-572 Store.Prune *)
Definition prune_authz (before : Time) (acc : Z * state) (entry : bytes * Authorization) : Z * state :=
  let '(n, s) := acc in let '(id, a) := entry in
  if expired (a_Expires a) before then let '(k, s') := removeAuthorization id s in (n + k, s') else (n, s).
(** Ranging over a map while deleting from it meets the entries still there, so the
    second loop looks at each id again. *)
(* @src devicemanagement/storage/acme/inmem/inmem.go - Store.Prune *)
Definition Prune (before : Time) (s : state) : Z * state :=
  let old := filter (λ '(_, n), n_IssuedAt n < before) (nonces s) in
  let s := s <| nonces := filter (λ '(_, n), ¬ n_IssuedAt n < before) (nonces s) |> in
  let acc := foldl (prune_order before) (Z.of_nat (size old), s) (map_to_list (orders s)) in
  foldl (prune_authz before) acc (map_to_list (authzs acc.2)).
