(* ===== verification/AcmeBase.v ===== *)
(** * Requests as programs: what the ACME server runs on

    The server's surroundings (its configuration, the clock, the random source, the policies,
    the certificate authority, the registries) are the class [Acme]. A request is a program:
    a finite tree of actions, each of them one access to the shared world that nothing
    interrupts: a call of the store, a transaction, a reading of the clock, a draw from the
    random source, a call of a policy or of a registry. Between two actions of one request
    any number of actions of other requests may happen. *)
From S2P Require Import Prelude GoStrings Storage Base64 Json Jose Attest AcmeTypes AcmeStore.

(** ** Certificates and registries *)

(* @src devicemanagement/pki/revocation/registry.go 35-43 Provenance *)
Record Provenance := mkProvenance {
  pv_UDID : bytes; pv_Serial : bytes; pv_EnrollmentID : bytes; pv_Source : bytes; pv_AccountID : bytes; pv_Identifiers : list bytes; EnrollmentReference : bytes }.
(** Of a certificate request, what the code reads; [csr_Valid] is [CheckSignature]. *)
Record CSR := mkCSR { csr_Raw : bytes; csr_PublicKey : PublicKey; csr_Valid : bool }.
Record Name := mkName { n_CommonName : bytes; n_Organization : list bytes }.
(** The fields of the issuance policy the server sets; [cp_Rest] stands for the others. *)
(* @src devicemanagement/pki/ca/ca.go 34-70 Policy *)
Record CAPolicy := mkCAPolicy { cp_Subject : option Name; cp_OtherNames : list bytes; cp_NotAfter : Time; cp_Rest : bytes }.
(** [ca.ErrPolicy] and [ca.ErrCSR], or any other error. *)
Inductive sign_err := SignRefused | SignFailed.
(* @src devicemanagement/pki/revocation/registry.go 60-71 Certificate *)
Record RevRecord := mkRevRecord { rr_Issuer : bytes; rr_Serial : bytes; rr_Provenance : Provenance }.
(** [revocation.ErrUnknown], [revocation.ErrRevoked], or any other error. *)
Inductive rev_err := RevUnknown | RevRevoked | RevOther.
(* @src devicemanagement/pki/revocation/registry.go - ValidReason *)
Definition ValidReason (reason : Z) : bool := bool_decide (reason ∈ [0; 1; 2; 3; 4; 5; 9; 10]).

(** The optional issuer registry; its answers depend on when it is asked. *)
(* @src devicemanagement/pki/acme/revoke.go 20-28 Revocations *)
Record Registry := mkRegistry {
  rv_Register : nat → x509cert → Provenance → result rev_err unit;
  ByCertificate : nat → x509cert → result rev_err RevRecord;
  Revoke : nat → bytes → Z → Z → result rev_err unit }.

(** The configuration after [New], and the code the server calls. The first argument of a
    call that may answer differently at another time is the moment of the call; a reading of
    the clock inside a transaction has a number as well. [rand i n] is the [i]-th draw from
    the random source, of [n] bytes, or an error. *)
(* @src devicemanagement/pki/acme/server.go 51-107 Config *)
Class Acme := {
  acme_crypto :: Crypto;
  acme_x509 :: X509;
  BaseURL : bytes;
  cfg_Prefix : bytes;
  Signer_Sign : nat → Provenance → CSR → CAPolicy → result sign_err x509cert;
  Signer_Chain : list x509cert;
  cfg_Register : option (nat → Provenance → x509cert → result aerr unit);
  cfg_CAPolicy : CAPolicy;
  Identifiers_Verify : nat → bytes → result aerr Binding;
  Authorize : nat → Policy;
  AllowUnattested : bool;
  AuthorizeUnattested : option (nat → Policy);
  Anchors : list x509cert;
  Revocations : option Registry;
  Clock : nat → nat → Time;
  Bus : bool;
  NonceTTL : Z;
  OrderTTL : Z;
  cfg_MaxBody : Z;
  rand : nat → nat → option bytes;
  ParseCertificateRequest : bytes → option CSR;
  PermanentIdentifier : bytes → option bytes;
  pem_Encode : bytes → bytes;
  pem_Decode : bytes → option bytes }.

(** ** The world *)

(** What happened outside the store, for the record: events, calls of the registries, and
    three facts no program reads: which request took a nonce, stored one, and created an order. *)
Inductive entry :=
| Published (kind : bytes) (subject : bytes)
| Registered (m : nat) (p : Provenance) (c : x509cert)
| Recorded (m : nat) (p : Provenance) (c : x509cert)
| Revoked (m : nat) (issuer : bytes) (serial : Z) (reason : Z)
| NonceStored (value : bytes)
| NonceTaken (t : nat) (value : bytes)
| OrderCreated (o : Order) (a : Authorization) (c : Challenge).

(** Who made each draw so far, the record, and the moment: the number of actions so far. *)
Record outside := mkOutside { drawn : list nat; log : list entry; moment : nat }.
#[export] Instance outside_eta : Eta outside := λ o, mkOutside (drawn o) (log o) (moment o).
Definition world : Type := outside * state.
Definition world0 : world := (mkOutside [] [] 0, newState).
Definition note (e : entry) (w : world) : world := (w.1 <| log := e :: log w.1 |>, w.2).

(** ** Programs *)

(** [f t w] is the action of request [t] in world [w]. *)
Inductive prog (A : Type) : Type :=
| Ret (a : A)
| Fail (p : Problem)
| Act (X : Type) (f : nat → world → X * world) (k : X → prog A).
Arguments Ret {_} _. Arguments Fail {_} _. Arguments Act {_ _} _ _.

Fixpoint prog_bind {A B} (k : A → prog B) (p : prog A) : prog B :=
  match p with
  | Ret a => k a
  | Fail e => Fail e
  | Act f g => Act f (λ x, prog_bind k (g x))
  end.
#[export] Instance prog_mret : MRet prog := @Ret.
#[export] Instance prog_mbind : MBind prog := @prog_bind.

(** The outcome of a program as a value: an error that is looked at instead of returned. *)
Fixpoint attempt {A} (p : prog A) : prog (result Problem A) :=
  match p with
  | Ret a => Ret (Ok a)
  | Fail e => Ret (Err e)
  | Act f g => Act f (λ x, attempt (g x))
  end.
Definition lift {A} (r : result Problem A) : prog A := match r with Ok a => Ret a | Err p => Fail p end.

(** One action of request [t]; the moment passes. *)
Definition act {A} (t : nat) (p : prog A) (w : world) : prog A * world :=
  match p with
  | Act f k => let '(x, w') := f t w in (k x, (w'.1 <| moment := S (moment w.1) |>, w'.2))
  | _ => (p, w)
  end.

(** ** Actions *)

Definition do {X} (f : nat → world → X * world) : prog X := Act f Ret.
Definition read {A} (f : state → result aerr A) : prog (result aerr A) := do (λ _ w, (f w.2, w)).
Definition transact {A} (fn : nat → tx outside A) : prog (result aerr A) := do (λ t w, fn t w).
Definition at_moment {A} (f : nat → A) : prog A := do (λ _ w, (f (moment w.1), w)).

Section Actions.
Context {env : Acme}.

Definition now : prog Time := at_moment (λ m, Clock m 0).
Definition tx_note (e : entry) : tx outside unit := λ w, (Ok tt, note e w).
Definition tx_now (k : nat) : tx outside Time := λ w, (Ok (Clock (moment w.1) k), w).
(** A draw counts even when it fails. *)
Definition draw_bytes (n : nat) (t : nat) (w : world) : option bytes * world :=
  (rand (length (drawn w.1)) n, (w.1 <| drawn := drawn w.1 ++ [t] |>, w.2)).

(* @src devicemanagement/pki/acme/server.go - newID *)
Definition newID (t : nat) (w : world) : option bytes * world :=
  let '(b, w') := draw_bytes 16 t w in (b64_encode <$> b, w').
(* @src devicemanagement/pki/acme/server.go - newToken *)
Definition newToken (t : nat) (w : world) : option bytes * world :=
  let '(b, w') := draw_bytes 32 t w in (b64_encode <$> b, w').

(** A failure to publish is only logged. *)
(* @src devicemanagement/pki/acme/server.go - Server.publish *)
Definition publish (kind subject : bytes) : prog unit :=
  if Bus then do (λ _ w, (tt, note (Published kind subject) w)) else Ret tt.

(* @src devicemanagement/pki/acme/server.go - Server.url *)
Definition url (parts : list bytes) : bytes := BaseURL ++ cfg_Prefix ++ mjoin parts.
End Actions.
