(* ===== verification/AcmeServer.v ===== *)
(** * The ACME handlers: [pki/acme]

    Every endpoint as a program: authentication of the signed request, accounts, orders,
    authorizations, the device-attest-01 challenge, finalization with its receipt, the
    certificate download and revocation. Of a response the model keeps the status, the
    [Location], the nonce and the body. The texts of problems, the other headers, and
    [event.Run] over a publisher that is no coordinator add nothing to it. *)
From S2P Require Import Prelude GoStrings Sha256 Storage Base64 Json Jose Attest AcmeTypes AcmeStore AcmeBase.

(** ** Requests and responses *)

Record request := mkRequest {
  r_ContentType : bytes; r_Body : option bytes; r_URI : bytes; r_id : bytes; r_cursor : bytes; r_HEAD : bool }.
(* @src devicemanagement/pki/acme/server.go 209-217 exchange *)
Record exchange := mkExchange { e_req : request; e_jws : JWS; e_account : option Account }.
(* @src devicemanagement/pki/acme/server.go 223-232 keyMode *)
Inductive keyMode := allowJWK | requireKID | allowEitherKey.

(* @src devicemanagement/pki/acme/handlers.go 176-184 orderBody *)
Record OrderBody := mkOrderBody {
  ob_Status : bytes; ob_Expires : Time; ob_Identifiers : list Identifier; ob_Authorizations : list bytes; ob_Finalize : bytes;
  ob_Certificate : bytes; ob_Error : option Problem }.
(* @src devicemanagement/pki/acme/handlers.go 326-333 challengeBody *)
Record ChallengeBody := mkChallengeBody {
  cb_Type : bytes; cb_URL : bytes; cb_Status : bytes; cb_Token : bytes; cb_Validated : option Time; cb_Error : option Problem }.
(* @src devicemanagement/pki/acme/handlers.go 18-28 directoryBody *)
Inductive Body :=
| BEmpty
| BDirectory (newNonce newAccount newOrder revokeCert : bytes)
| BAccount (status : bytes) (contact : list bytes) (orders : bytes)
| BOrders (orders : list bytes) (next : option bytes)
| BOrder (o : OrderBody)
| BAuthorization (status : bytes) (expires : Time) (i : Identifier) (challenges : list ChallengeBody)
| BChallenge (c : ChallengeBody)
| BChain (pem : bytes)
| BProblem (p : Problem).
Record response := mkResponse { rs_Status : Z; rs_Location : bytes; rs_Nonce : option bytes; rs_Body : Body }.
Definition write (status : Z) (location : bytes) (b : Body) : response := mkResponse status location None b.

Section Server.
Context {env : Acme}.

Definition pathNewNonce := bs "/new-nonce".
Definition pathNewAccount := bs "/new-account".
Definition pathNewOrder := bs "/new-order".
Definition pathAccount := bs "/account/".
Definition pathOrder := bs "/order/".
Definition pathAuthz := bs "/authz/".
Definition pathChallenge := bs "/challenge/".
Definition pathCert := bs "/cert/".
Definition ContentTypeJOSE := bs "application/jose+json".

Definition problem {A} (kind : bytes) : prog A := Fail (NewProblem kind).
Definition wrapped {A} (kind : bytes) (e : aerr) : prog A := Fail (WrapProblem kind e).
Definition guard (b : bool) (kind : bytes) : prog unit := if b then problem kind else Ret tt.
(** A row that must be there; a row that may be missing is a client's mistake. *)
Definition got {A} (r : result aerr A) : prog A := match r with Ok a => Ret a | Err e => wrapped ProblemServerInternal e end.
Definition found_or {A} (kind : bytes) (r : result aerr A) : prog A :=
  match r with Ok a => Ret a | Err ErrNotFound => problem kind | Err e => wrapped ProblemServerInternal e end.

(** ** Authentication *)

(** The two calls on nonces, with their record. *)
Definition take_nonce (value : bytes) (t : nat) (w : world) : result aerr Nonce * world :=
  match TakeNonce value w.2 with
  | (Ok n, s) => (Ok n, note (NonceTaken t value) (w.1, s))
  | (Err e, s) => (Err e, (w.1, s))
  end.
Definition put_nonce (n : Nonce) (_ : nat) (w : world) : bool * world :=
  match PutNonce n w.2 with
  | (Ok _, s) => (true, note (NonceStored (n_Value n)) (w.1, s))
  | (Err _, s) => (false, (w.1, s))
  end.

(* @src devicemanagement/pki/acme/server.go - Server.consumeNonce *)
Definition consumeNonce (value : bytes) : prog unit :=
  _ ← guard (bool_decide (value = [])) ProblemBadNonce;
  r ← do (take_nonce value);
  n ← found_or ProblemBadNonce r;
  at_ ← now;
  guard (NonceTTL <? Z.min max_int64 (at_ - n_IssuedAt n)) ProblemBadNonce.

Definition jwk_error : aerr := EOther.
(* @src devicemanagement/pki/acme/server.go - Server.keyFor *)
Definition keyFor (mode : keyMode) (h : Header) : prog (PublicKey * option Account) :=
  if match mode with allowJWK => true | allowEitherKey => bool_decide (h_JWK h ≠ None) | requireKID => false end then
    match h_JWK h with
    | None => problem ProblemMalformed
    | Some k => match Public k with Ok key => Ret (key, None) | Err _ => wrapped ProblemBadPublicKey jwk_error end
    end
  else
    _ ← guard (bool_decide (KeyID h = [])) ProblemMalformed;
    let prefix := url [pathAccount] in
    let id := drop (length prefix) (KeyID h) in
    _ ← guard (negb (has_prefix (KeyID h) prefix) || bool_decide (id = []) || contains id (bs "/")) ProblemAccountDoesNotExist;
    r ← read (GetAccount id);
    account ← found_or ProblemAccountDoesNotExist r;
    _ ← guard (bool_decide (ac_Status account ≠ StatusValid)) ProblemUnauthorized;
    match Public (ac_Key account) with
    | Ok key => Ret (key, Some account)
    | Err _ => wrapped ProblemServerInternal jwk_error
    end.

(* @src devicemanagement/pki/acme/server.go - Server.authenticate *)
Definition authenticate (req : request) (mode : keyMode) : prog exchange :=
  _ ← guard (negb (has_prefix (r_ContentType req) ContentTypeJOSE)) ProblemMalformed;
  body ← match r_Body req with Some b => Ret (take (Z.to_nat (cfg_MaxBody + 1)) b) | None => wrapped ProblemMalformed EOther end;
  _ ← guard (cfg_MaxBody <? Z.of_nat (length body)) ProblemMalformed;
  jws ← match Parse body with
        | Ok j => Ret j
        | Err ErrAlgorithm => wrapped ProblemBadSignatureAlgorithm EOther
        | Err _ => wrapped ProblemMalformed EOther
        end;
  _ ← guard (bool_decide (h_URL (j_Header jws) ≠ BaseURL ++ r_URI req)) ProblemMalformed;
  _ ← consumeNonce (h_Nonce (j_Header jws));
  '(key, account) ← keyFor mode (j_Header jws);
  _ ← match Verify jws key with Ok _ => Ret tt | Err _ => wrapped ProblemUnauthorized EOther end;
  Ret (mkExchange req jws account).

(* @src devicemanagement/pki/acme/server.go - Server.mintNonce *)
Definition mintNonce : prog (option bytes) :=
  buf ← do (draw_bytes 16);
  match buf with
  | None => Ret None
  | Some b =>
      let value := b64_encode b in
      at_ ← now;
      r ← do (put_nonce (mkNonce value at_));
      Ret (if (r : bool) then Some value else None)
  end.

(** [json.Marshal] of a problem and of the bodies above does not fail. *)
(* @src devicemanagement/pki/acme/server.go - Server.fail *)
Definition fail (p : Problem) : response := write (p_Status p) [] (BProblem p).
Definition respond (nonce : option bytes) (r : result Problem response) : prog response :=
  let rs := match r with Ok rs => rs | Err p => fail p end in
  Ret (mkResponse (rs_Status rs) (rs_Location rs) nonce (rs_Body rs)).
(* @src devicemanagement/pki/acme/server.go - Server.plain *)
Definition plain_endpoint (fn : prog response) : prog response :=
  nonce ← mintNonce; r ← attempt fn; respond nonce r.
(* @src devicemanagement/pki/acme/server.go - Server.signed *)
Definition signed (req : request) (fn : exchange → prog response) (mode : keyMode) : prog response :=
  nonce ← mintNonce; r ← attempt (e ← authenticate req mode; fn e); respond nonce r.

Definition accountID (e : exchange) : bytes := match e_account e with Some a => ac_ID a | None => [] end.

(* @src devicemanagement/pki/acme/handlers.go - exchange.decode *)
Definition decode {A} (e : exchange) (target : bytes → option A) : prog A :=
  _ ← guard (PayloadIsEmpty (e_jws e)) ProblemMalformed;
  match target (j_Payload (e_jws e)) with Some a => Ret a | None => wrapped ProblemMalformed EOther end.

(** ** Directory and accounts *)

(* @src devicemanagement/pki/acme/revoke.go - Server.revocationURL *)
Definition revocationURL : bytes := match Revocations with None => [] | Some _ => url [bs "/revoke-cert"] end.
(* @src devicemanagement/pki/acme/handlers.go - Server.directory *)
Definition directory : prog response :=
  Ret (write 200 [] (BDirectory (url [pathNewNonce]) (url [pathNewAccount]) (url [pathNewOrder]) revocationURL)).
(* @src devicemanagement/pki/acme/handlers.go - Server.newNonce *)
Definition newNonce (req : request) : prog response := Ret (write (if r_HEAD req then 200 else 204) [] BEmpty).

(* @src devicemanagement/pki/acme/handlers.go 54-58 accountRequest *)
Record accountRequest := mkAccountRequest { aq_Contact : list bytes; TermsOfServiceAgreed : bool; OnlyReturnExisting : bool }.
Definition read_accountRequest (ms : members) : option accountRequest :=
  contact ← plain [] (a_list (plain [] a_string)) (member (bs "contact") ms);
  terms ← bool_field ms "termsOfServiceAgreed"; existing ← bool_field ms "onlyReturnExisting";
  Some (mkAccountRequest contact terms existing).

(* @src devicemanagement/pki/acme/handlers.go - Server.accountBody *)
Definition accountBody (a : Account) : Body := BAccount (ac_Status a) (Contact a) (url [pathAccount; ac_ID a; bs "/orders"]).

(* @src devicemanagement/pki/acme/handlers.go - Server.newAccount *)
Definition newAccount (e : exchange) : prog response :=
  req ← decode e (into read_accountRequest);
  match h_JWK (j_Header (e_jws e)) with
  | None => wrapped ProblemBadPublicKey jwk_error
  | Some key =>
  match Thumbprint key with
  | Err _ => wrapped ProblemBadPublicKey jwk_error
  | Ok thumbprint =>
      existing ← read (AccountByThumbprint thumbprint);
      match existing with
      | Ok a => Ret (write 200 (url [pathAccount; ac_ID a]) (accountBody a))
      | Err ErrNotFound =>
          _ ← guard (OnlyReturnExisting req) ProblemAccountDoesNotExist;
          id ← do newID;
          match id with
          | None => wrapped ProblemServerInternal EOther
          | Some id =>
              created ← now;
              let account := mkAccount id thumbprint key StatusValid (aq_Contact req) created in
              r ← transact (λ _, Update (PutAccount account));
              match r with
              | Ok _ => Ret (write 201 (url [pathAccount; id]) (accountBody account))
              | Err ErrConflict =>
                  winner ← read (AccountByThumbprint thumbprint);
                  a ← got winner;
                  Ret (write 200 (url [pathAccount; ac_ID a]) (accountBody a))
              | Err err => wrapped ProblemServerInternal err
              end
          end
      | Err err => wrapped ProblemServerInternal err
      end
  end
  end.

(* @src devicemanagement/pki/acme/handlers.go - Server.account *)
Definition account (e : exchange) : prog response :=
  _ ← guard (bool_decide (r_id (e_req e) ≠ accountID e)) ProblemUnauthorized;
  _ ← guard (negb (PayloadIsEmpty (e_jws e))) ProblemMalformed;
  match e_account e with Some a => Ret (write 200 [] (accountBody a)) | None => problem ProblemUnauthorized end.

(* @src devicemanagement/pki/acme/handlers.go - Server.accountOrders *)
Definition accountOrders (e : exchange) : prog response :=
  _ ← guard (bool_decide (r_id (e_req e) ≠ accountID e)) ProblemUnauthorized;
  r ← read (ListOrders (accountID e) (mkPage (r_cursor (e_req e)) 0));
  res ← got r;
  let next := if bool_decide (NextCursor res ≠ [])
              then Some (url [pathAccount; accountID e; bs "/orders"] ++ bs "?cursor=" ++ NextCursor res) else None in
  Ret (write 200 [] (BOrders ((λ o, url [pathOrder; o_ID o]) <$> Items res) next)).

(** ** Orders *)

(* @src devicemanagement/pki/acme/handlers.go 169-173 orderRequest *)
Record orderRequest := mkOrderRequest { oq_Identifiers : list Identifier; oq_NotBefore : bytes; oq_NotAfter : bytes }.
Definition read_Identifier (v : json) : option Identifier :=
  ms ← object v; t ← string_field ms "type"; v ← string_field ms "value"; Some (mkIdentifier t v).
Definition read_orderRequest (ms : members) : option orderRequest :=
  ids ← plain [] (a_list read_Identifier) (member (bs "identifiers") ms);
  nb ← string_field ms "notBefore"; na ← string_field ms "notAfter";
  Some (mkOrderRequest ids nb na).

(* @src devicemanagement/pki/acme/handlers.go - Server.orderBody *)
Definition orderBody (o : Order) : OrderBody :=
  mkOrderBody (o_Status o) (o_Expires o) [o_Identifier o] [url [pathAuthz; o_AuthzID o]] (url [pathOrder; o_ID o; bs "/finalize"])
    (if bool_decide (o_Status o = StatusValid) && bool_decide (o_CertificateID o ≠ []) then url [pathCert; o_CertificateID o] else [])
    (o_Error o).

Definition drawn_or_fail (d : nat → world → option bytes * world) : prog bytes :=
  v ← do d; match v with Some v => Ret v | None => wrapped ProblemServerInternal EOther end.

(** The transaction of a new order: the claim and the three records go in together. *)
(* @src devicemanagement/pki/acme/handlers.go 252-263 Server.newOrder *)
Definition create_order (value : bytes) (o : Order) (a : Authorization) (c : Challenge) : tx outside unit :=
  Update (_ ← ClaimIdentifier value (o_ID o);
          _ ← PutChallenge c;
          _ ← PutAuthorization a;
          _ ← PutOrder o;
          tx_note (OrderCreated o a c)).

(* @src devicemanagement/pki/acme/handlers.go - Server.newOrder *)
Definition newOrder (e : exchange) : prog response :=
  req ← decode e (into read_orderRequest);
  match oq_Identifiers req with
  | [id] =>
      _ ← guard (bool_decide (id_Type id ≠ IdentifierPermanent)) ProblemUnsupportedIdentifier;
      _ ← guard (bool_decide (id_Value id = [])) ProblemMalformed;
      _ ← guard (bool_decide (oq_NotBefore req ≠ []) || bool_decide (oq_NotAfter req ≠ [])) ProblemMalformed;
      verified ← at_moment (λ m, Identifiers_Verify m (id_Value id));
      match verified with
      | Err err => Fail (AsProblem err)
      | Ok binding =>
          at_ ← now;
          let expires := at_ + OrderTTL in
          orderID ← drawn_or_fail newID;
          authzID ← drawn_or_fail newID;
          challengeID ← drawn_or_fail newID;
          token ← drawn_or_fail newToken;
          let order := mkOrder [] orderID (accountID e) id binding StatusPending authzID [] expires None at_ in
          let authz := mkAuthz authzID orderID (accountID e) id StatusPending challengeID expires in
          let challenge := mkChallenge challengeID authzID (accountID e) ChallengeDeviceAttest token StatusPending [] 0 None in
          r ← transact (λ _, create_order (id_Value id) order authz challenge);
          match r with
          | Ok _ => Ret (write 201 (url [pathOrder; orderID]) (BOrder (orderBody order)))
          | Err ErrConflict => wrapped ProblemRejectedIdentifier ErrConflict
          | Err err => wrapped ProblemServerInternal err
          end
      end
  | _ => problem ProblemMalformed
  end.

(* @src devicemanagement/pki/acme/handlers.go - Server.loadOrder *)
Definition loadOrder (e : exchange) : prog Order :=
  r ← read (GetOrder (r_id (e_req e)));
  o ← found_or ProblemMalformed r;
  _ ← guard (bool_decide (o_AccountID o ≠ accountID e)) ProblemUnauthorized;
  Ret o.

(** ** Authorizations *)

(* @src devicemanagement/pki/acme/handlers.go - Server.challengeBody *)
Definition challengeBody (c : Challenge) : ChallengeBody :=
  mkChallengeBody (c_Type c) (url [pathChallenge; c_ID c]) (c_Status c) (c_Token c)
    (if time_is_zero (c_ValidatedAt c) then None else Some (c_ValidatedAt c)) (c_Error c).
(* @src devicemanagement/pki/acme/handlers.go - Server.authzStatus *)
Definition authzStatus (a : Authorization) : prog bytes :=
  if bool_decide (a_Status a = StatusPending) then at_ ← now; Ret (if a_Expires a <? at_ then StatusExpired else a_Status a)
  else Ret (a_Status a).
(* @src devicemanagement/pki/acme/handlers.go - Server.authorization *)
Definition authorization (e : exchange) : prog response :=
  r ← read (GetAuthorization (r_id (e_req e)));
  authz ← found_or ProblemMalformed r;
  _ ← guard (bool_decide (a_AccountID authz ≠ accountID e)) ProblemUnauthorized;
  r ← read (GetChallenge (a_ChallengeID authz));
  challenge ← got r;
  status ← authzStatus authz;
  Ret (write 200 [] (BAuthorization status (a_Expires authz) (a_Identifier authz) [challengeBody challenge])).

End Server.
