(* ===== verification/AcmeIssue.v ===== *)
(** * Challenges, finalization and revocation: [pki/acme]

    The trust decision of the device-attest-01 challenge, the issuance of a certificate with
    its receipt, the registration that makes the certificate downloadable, order polls that
    resume it, the download, and revocation; then the router and the pruning of the store. *)
From S2P Require Import Prelude GoStrings Sha256 Storage Base64 Json Jose Attest AcmeTypes AcmeStore AcmeBase AcmeServer.

Section Issue.
Context {env : Acme}.

(** ** The challenge *)

(* @src devicemanagement/pki/acme/handlers.go 384-386 challengeRequest *)
Definition read_challengeRequest (src : bytes) : option (option bytes) :=
  v ← text src; pointer (λ v, ms ← object v; string_field ms "attObj") v.

(** The attestation object, empty when none was sent. *)
(* @src devicemanagement/pki/acme/handlers.go - Server.attestationFrom *)
Definition attestationFrom (e : exchange) : prog bytes :=
  req ← decode e read_challengeRequest;
  match req with
  | None => problem ProblemMalformed
  | Some attObj =>
      if bool_decide (attObj = []) then
        if AllowUnattested || bool_decide (is_Some AuthorizeUnattested) then Ret [] else problem ProblemMalformed
      else match b64_decode attObj with Some raw => Ret raw | None => wrapped ProblemMalformed EOther end
  end.

(* @src devicemanagement/pki/acme/handlers.go - Server.matchBinding *)
Definition matchBinding (o : Order) (a : Attestation) : result Problem unit :=
  let p := at_Properties a in
  let b := o_Binding o in
  let bad := NewProblem ProblemBadAttestationStatement in
  _ ← reject (bool_decide (b_Serial b ≠ []) && bool_decide (b_Serial b ≠ pr_SerialNumber p)) bad;
  _ ← reject (bool_decide (b_UDID b ≠ []) && bool_decide (b_UDID b ≠ pr_UDID p)) bad;
  reject (negb (Binding_Identified b) && negb (Properties_Identified p) && negb (AllowUnidentified b)) bad.

(** [e.account] is set: every endpoint that gets here requires an account. *)
Definition decision (e : exchange) (o : Order) (a : option Attestation) : Decision :=
  mkDecision (e_account e) o (o_Binding o) (o_Identifier o) a.
Definition AttestationRejected := bs "acme.attestation.rejected".
(* @src devicemanagement/pki/acme/handlers.go - Server.authorize *)
Definition authorize (e : exchange) (o : Order) (a : option Attestation) : prog unit :=
  _ ← guard (RequireAttestation (o_Binding o) && bool_decide (a = None)) ProblemBadAttestationStatement;
  r ← at_moment (λ m, Authorize m (decision e o a));
  match r with
  | Ok _ => Ret tt
  | Err err =>
      let p := AsProblem err in
      _ ← (if Terminal p then publish AttestationRejected (id_Value (o_Identifier o)) else Ret tt);
      Fail p
  end.
(* @src devicemanagement/pki/acme/handlers.go - Server.authorizeUnattested *)
Definition authorizeUnattested (e : exchange) (o : Order) : prog unit :=
  _ ← (if AllowUnattested then Ret tt
       else match AuthorizeUnattested with
            | None => problem ProblemBadAttestationStatement
            | Some policy =>
                r ← at_moment (λ m, policy m (decision e o None));
                match r with Ok _ => Ret tt | Err err => Fail (AsProblem err) end
            end);
  authorize e o None.

(** No attestation was sent, or the object says that there is none. *)
Definition unattested (raw : bytes) (r : result att_err Attestation) : bool :=
  bool_decide (raw = []) || match r with Err ErrNoAttestation => true | _ => false end.
(* @src devicemanagement/pki/acme/handlers.go - Server.validate *)
Definition validate (e : exchange) (c : Challenge) (o : Order) (raw : bytes) : prog unit :=
  let parsed := ParseObject raw in
  if unattested raw parsed then authorizeUnattested e o
  else match parsed with
  | Err _ => wrapped ProblemBadAttestationStatement EOther
  | Ok a =>
      at_ ← now;
      match Attestation_Verify a (mkVerifyOptions Anchors at_ (FreshnessForToken (c_Token c)) None) with
      | Err _ => _ ← publish AttestationRejected (id_Value (o_Identifier o)); wrapped ProblemBadAttestationStatement EOther
      | Ok _ =>
          match matchBinding o a with
          | Err p => _ ← publish AttestationRejected (id_Value (o_Identifier o)); Fail p
          | Ok _ => authorize e o (Some a)
          end
      end
  end.

(** The transaction: the three records are written only while all three are pending;
    otherwise the caller goes on with what is stored. *)
(* @src devicemanagement/pki/acme/handlers.go 624-653 Server.saveTriple *)
Definition save_triple_tx (c : Challenge) (a : Authorization) (o : Order) : tx outside (bool * (Challenge * Authorization * Order)) :=
  UpdateOrder (o_ID o) (
    current ← tx_read (GetOrder (o_ID o));
    currentAuthz ← tx_read (GetAuthorization (o_AuthzID current));
    currentChallenge ← tx_read (GetChallenge (a_ChallengeID currentAuthz));
    if bool_decide (o_Status current ≠ StatusPending) || bool_decide (a_Status currentAuthz ≠ StatusPending)
       || bool_decide (c_Status currentChallenge ≠ StatusPending)
    then mret (false, (currentChallenge, currentAuthz, current))
    else
      _ ← PutChallenge c;
      _ ← PutAuthorization a;
      _ ← PutOrder o;
      mret (true, (c, a, o))).
(* @src devicemanagement/pki/acme/handlers.go - Server.saveTriple *)
Definition saveTriple (c : Challenge) (a : Authorization) (o : Order) : prog (bool * (Challenge * Authorization * Order)) :=
  r ← transact (λ _, save_triple_tx c a o);
  got r.

(* @src devicemanagement/pki/acme/handlers.go - Server.settleChallenge *)
Definition settleChallenge {A} (c : Challenge) (a : Authorization) (o : Order) (p : Problem) : prog A :=
  if negb (Terminal p) then Fail p
  else
    _ ← saveTriple (c <| c_Status := StatusInvalid |> <| c_Error := Some p |>) (a <| a_Status := StatusInvalid |>)
          (o <| o_Status := StatusInvalid |> <| o_Error := Some p |>);
    Fail p.

Definition ACMEChallengeValid := bs "acme.challenge.valid".
(* @src devicemanagement/pki/acme/handlers.go - Server.challenge *)
Definition challenge (e : exchange) : prog response :=
  r ← read (GetChallenge (r_id (e_req e)));
  c ← found_or ProblemMalformed r;
  _ ← guard (bool_decide (c_AccountID c ≠ accountID e)) ProblemUnauthorized;
  if PayloadIsEmpty (e_jws e) || bool_decide (c_Status c ≠ StatusPending)
  then Ret (write 200 [] (BChallenge (challengeBody c)))
  else
    r ← read (GetAuthorization (c_AuthzID c));
    authz ← got r;
    r ← read (GetOrder (a_OrderID authz));
    order ← got r;
    at_ ← now;
    _ ← guard (a_Expires authz <? at_) ProblemMalformed;
    raw ← attempt (attestationFrom e);
    match raw with
    | Err p => settleChallenge c authz order p
    | Ok raw =>
        v ← attempt (validate e c order raw);
        match v with
        | Err p => settleChallenge c authz order p
        | Ok _ =>
            at_ ← now;
            saved ←
              saveTriple (c <| c_Status := StatusValid |> <| c_ValidatedAt := at_ |> <| c_Attestation := raw |> <| c_Error := None |>)
                (authz <| a_Status := StatusValid |>) (order <| o_Status := StatusReady |>);
            let '(changed, (c', _, order')) := saved in
            _ ← (if (changed : bool) then publish ACMEChallengeValid (id_Value (o_Identifier order')) else Ret tt);
            Ret (write 200 [] (BChallenge (challengeBody c')))
        end
    end.

(** ** The key *)

(* @src devicemanagement/pki/acme/handlers.go - Server.challengeOf *)
Definition challengeOf (o : Order) : prog Challenge :=
  r ← read (GetAuthorization (o_AuthzID o));
  authz ← got r;
  r ← read (GetChallenge (a_ChallengeID authz));
  got r.
(* @src devicemanagement/pki/acme/handlers.go - Server.checkKey *)
Definition checkKey (e : exchange) (o : Order) (key : PublicKey) : prog unit :=
  c ← challengeOf o;
  let parsed := ParseObject (c_Attestation c) in
  if unattested (c_Attestation c) parsed then
    _ ← guard (negb AllowUnattested && bool_decide (¬ is_Some AuthorizeUnattested)) ProblemUnauthorized;
    authorizeUnattested e o
  else match parsed with
  | Err _ => wrapped ProblemServerInternal EOther
  | Ok a =>
      at_ ← now;
      match Attestation_Verify a (mkVerifyOptions Anchors at_ (FreshnessForToken (c_Token c)) (Some key)) with
      | Err ErrKeyMismatch => wrapped ProblemBadCSR EOther
      | Err _ => wrapped ProblemBadAttestationStatement EOther
      | Ok _ => authorize e o (Some a)
      end
  end.

(** ** The receipt *)

(* @src devicemanagement/pki/acme/issuance.go - issuanceProvenance *)
Definition issuanceProvenance (o : Order) : Provenance :=
  mkProvenance (EnrollmentUDID (o_Binding o)) (b_Serial (o_Binding o)) (b_EnrollmentID (o_Binding o)) (bs "acme") (o_AccountID o)
    [id_Type (o_Identifier o) ++ bs ":" ++ id_Value (o_Identifier o)] [].
(* @src devicemanagement/pki/acme/issuance.go - encodeChain *)
Definition encodeChain (leaf : x509cert) (issuers : list x509cert) : bytes := (leaf :: issuers) ≫= (λ c, pem_Encode (x_Raw c)).

Definition first_name (names : list bytes) : bytes := default [] (head (filter (λ n, n ≠ []) names)).
(** What is asked of the signer; the second reading of the clock in this transaction checks
    the deadline. *)
(* @src devicemanagement/pki/acme/issuance.go 146-166 Server.signReceipt *)
Definition receipt_policy (o : Order) (at_ : Time) : result aerr CAPolicy :=
  match PermanentIdentifier (id_Value (o_Identifier o)) with
  | None => Err (EProblem (WrapProblem ProblemServerInternal EOther))
  | Some otherName =>
      let subject := mkName (first_name [CommonName (o_Binding o); b_Serial (o_Binding o); id_Value (o_Identifier o)]) (Organization (o_Binding o)) in
      let p := mkCAPolicy (Some subject) (cp_OtherNames cfg_CAPolicy ++ [otherName]) (cp_NotAfter cfg_CAPolicy) (cp_Rest cfg_CAPolicy) in
      let deadline := b_NotAfter (o_Binding o) in
      if time_is_zero deadline then Ok p
      else if deadline <=? at_ then Err (EProblem (NewProblem ProblemRejectedIdentifier))
      else Ok (mkCAPolicy (cp_Subject p) (cp_OtherNames p) deadline (cp_Rest p))
  end.
(* @src devicemanagement/pki/acme/issuance.go - Server.signReceipt *)
Definition signReceipt (t : nat) (o : Order) (csr : CSR) (c : Challenge) : tx outside Certificate :=
  at_ ← tx_now 1;
  policy ← tx_lift (receipt_policy o at_);
  signed_ ← (λ w, (match Signer_Sign (moment w.1) (issuanceProvenance o) csr policy with
                   | Ok cert => Ok cert
                   | Err SignRefused => Err (EProblem (WrapProblem ProblemBadCSR EOther))
                   | Err SignFailed => Err (EProblem (WrapProblem ProblemServerInternal EOther))
                   end, w)) : tx outside x509cert;
  let device := match ParseObject (c_Attestation c) with Ok a => at_Properties a | Err _ => noProperties end in
  id ← (λ w, match newID t w with
             | (Some id, w') => (Ok id, w')
             | (None, w') => (Err (EProblem (WrapProblem ProblemServerInternal EOther)), w')
             end) : tx outside bytes;
  issued_at ← tx_now 2;
  mret (mkCertificate true id (o_ID o) (o_AccountID o) (itoa (x_SerialNumber signed_)) (encodeChain signed_ Signer_Chain) device (o_Binding o)
          (x_NotAfter signed_) issued_at).

Definition not_ready : aerr := EProblem (NewProblem ProblemOrderNotReady).
(** The transaction under the order's lock: an existing receipt is used again, a ready order
    gets one. *)
(* @src devicemanagement/pki/acme/issuance.go 37-89 Server.issue *)
Definition issue_tx (t : nat) (o : Order) (c : Challenge) (csr : CSR) : tx outside (Order * Certificate) :=
  let csrHash := hex_EncodeToString (Sum256 (csr_Raw csr)) in
  UpdateOrder (o_ID o) (
    current ← tx_read (GetOrder (o_ID o));
    if bool_decide (o_AccountID current ≠ o_AccountID o) || bool_decide (o_Identifier current ≠ o_Identifier o)
       || bool_decide (o_AuthzID current ≠ o_AuthzID o) || bool_decide (o_Binding current ≠ o_Binding o)
    then tx_lift (Err ErrConflict)
    else if bool_decide (o_Status current = StatusValid) || bool_decide (o_Status current = StatusProcessing) then
      _ ← tx_lift (reject (bool_decide (o_CertificateID current = [])) not_ready);
      _ ← tx_lift (reject (bool_decide (o_Status current = StatusProcessing) && bool_decide (o_CSRHash current ≠ csrHash)) (EProblem (NewProblem ProblemBadCSR)));
      cert ← tx_read (GetCertificate (o_CertificateID current));
      mret (current, cert)
    else
      _ ← tx_lift (reject (bool_decide (o_Status current ≠ StatusReady)) not_ready);
      at_ ← tx_now 0;
      _ ← tx_lift (reject (o_Expires current <=? at_) not_ready);
      authz ← tx_read (GetAuthorization (o_AuthzID current));
      stored ← tx_read (GetChallenge (a_ChallengeID authz));
      _ ← tx_lift (reject (bool_decide (a_Status authz ≠ StatusValid) || bool_decide (c_Status stored ≠ StatusValid)
                           || bool_decide (c_Attestation stored ≠ c_Attestation c) || bool_decide (c_Token stored ≠ c_Token c)) not_ready);
      record ← signReceipt t current csr stored;
      let current' := current <| o_Status := StatusProcessing |> <| o_CSRHash := csrHash |> <| o_CertificateID := ct_ID record |> <| o_Error := None |> in
      _ ← PutCertificate record;
      _ ← PutOrder current';
      mret (current', record)).

(** The transaction that ends an issuance: the certificate becomes downloadable and the order
    valid; [changed] says that this request did it. *)
(* @src devicemanagement/pki/acme/issuance.go 223-251 Server.storeReceipt *)
Definition store_receipt_tx (o : Order) (ct : Certificate) : tx outside (Order * bool) :=
  UpdateOrder (o_ID o) (
    current ← tx_read (GetOrder (o_ID o));
    _ ← tx_lift (reject (bool_decide (o_CertificateID current ≠ ct_ID ct) || bool_decide (o_CSRHash current ≠ o_CSRHash o)) ErrConflict);
    if bool_decide (o_Status current = StatusValid) then mret (current, false)
    else
      _ ← tx_lift (reject (bool_decide (o_Status current ≠ StatusProcessing)) not_ready);
      at_ ← tx_now 0;
      _ ← tx_lift (reject (o_Expires current <=? at_) not_ready);
      at_ ← tx_now 1;
      _ ← tx_lift (reject (ct_NotAfter ct <=? at_) not_ready);
      _ ← PutCertificate (ct <| PendingRegistration := false |>);
      let current' := current <| o_Status := StatusValid |> in
      _ ← PutOrder current';
      mret (current', true)).

Definition ACMEIssued := bs "acme.issued".
(** A call of a registry is recorded when it succeeds. *)
Definition register_call (p : Provenance) (cert : x509cert) : prog unit :=
  match cfg_Register with
  | None => Ret tt
  | Some reg =>
      r ← do (λ _ w, match reg (moment w.1) p cert with
                     | Ok _ => (Ok tt, note (Registered (moment w.1) p cert) w)
                     | Err err => (Err err, w)
                     end);
      got r
  end.
Definition record_call (p : Provenance) (cert : x509cert) : prog unit :=
  match Revocations with
  | None => Ret tt
  | Some reg =>
      r ← do (λ _ w, match rv_Register reg (moment w.1) cert p with
                     | Ok _ => (Ok tt, note (Recorded (moment w.1) p cert) w)
                     | Err _ => (Err EOther, w)
                     end);
      got r
  end.
(** [registerReceipt] is [storeReceipt] inside [event.Run]. *)
(* @src devicemanagement/pki/acme/issuance.go - Server.storeReceipt *)
Definition storeReceipt (o : Order) (ct : Certificate) (cert : x509cert) : prog Order :=
  let provenance := issuanceProvenance o in
  _ ← register_call provenance cert;
  _ ← record_call provenance cert;
  r ← transact (λ _, store_receipt_tx o ct);
  match r with
  | Err err => Fail (AsProblem err)
  | Ok (current, changed) => _ ← (if (changed : bool) then publish ACMEIssued (ct_ID ct) else Ret tt); Ret current
  end.

(* @src devicemanagement/pki/acme/issuance.go - Server.completeReceipt *)
Definition completeReceipt (e : exchange) (o : Order) (ct : Certificate) : prog Order :=
  _ ← guard (bool_decide (ct_OrderID ct ≠ o_ID o) || bool_decide (ct_AccountID ct ≠ o_AccountID o)) ProblemServerInternal;
  at_ ← now;
  _ ← guard (o_Expires o <=? at_) ProblemOrderNotReady;
  at_ ← now;
  _ ← guard (ct_NotAfter ct <=? at_) ProblemOrderNotReady;
  match pem_Decode (ChainPEM ct) with
  | None => problem ProblemServerInternal
  | Some der =>
      match ParseCertificate der with
      | None => wrapped ProblemServerInternal EOther
      | Some cert => _ ← checkKey e o (x_PublicKey cert); storeReceipt o ct cert
      end
  end.

(* @src devicemanagement/pki/acme/issuance.go - Server.issue *)
Definition issue (e : exchange) (o : Order) (csr : CSR) : prog (Order * Certificate) :=
  c ← challengeOf o;
  r ← transact (λ t, issue_tx t o c csr);
  match r with
  | Err err => Fail (AsProblem err)
  | Ok (order, cert) =>
      if negb (PendingRegistration cert) then Ret (order, cert)
      else order' ← completeReceipt e order cert; Ret (order', cert)
  end.

(** ** Finalization and polls *)

(* @src devicemanagement/pki/acme/handlers.go 661-663 finalizeRequest *)
Definition read_finalizeRequest (ms : members) : option bytes := string_field ms "csr".
(* @src devicemanagement/pki/acme/handlers.go - parseCSR *)
Definition parseCSR (encoded : bytes) : result Problem CSR :=
  _ ← reject (bool_decide (encoded = [])) (NewProblem ProblemBadCSR);
  match b64_decode encoded with
  | None => Err (WrapProblem ProblemBadCSR EOther)
  | Some der =>
      match ParseCertificateRequest der with
      | None => Err (WrapProblem ProblemBadCSR EOther)
      | Some csr => _ ← reject (negb (csr_Valid csr)) (WrapProblem ProblemBadCSR EOther); Ok csr
      end
  end.

(* @src devicemanagement/pki/acme/handlers.go 807-824 Server.settleOrder *)
Definition settle_order_tx (o : Order) (p : Problem) : tx outside unit :=
  UpdateOrder (o_ID o) (
    current ← tx_read (GetOrder (o_ID o));
    if bool_decide (o_Status current ≠ o_Status o) || bool_decide (o_CertificateID current ≠ []) then mret tt
    else PutOrder (current <| o_Status := StatusInvalid |> <| o_Error := Some p |>)).
(* @src devicemanagement/pki/acme/handlers.go - Server.settleOrder *)
Definition settleOrder {A} (o : Order) (p : Problem) : prog A :=
  if negb (Terminal p) || Problem_Is p ProblemBadCSR then Fail p
  else
    r ← transact (λ _, settle_order_tx o p);
    _ ← got r;
    Fail p.

(** The status a finalization may start from. *)
(* @src devicemanagement/pki/acme/handlers.go 672-689 Server.finalize *)
Definition finalizable (o : Order) : bool :=
  bool_decide (o_Status o = StatusReady)
  || (bool_decide (o_Status o = StatusProcessing) && bool_decide (o_CertificateID o ≠ []) && bool_decide (o_CSRHash o ≠ [])).
(* @src devicemanagement/pki/acme/handlers.go - Server.finalize *)
Definition finalize (e : exchange) : prog response :=
  o ← loadOrder e;
  if bool_decide (o_Status o = StatusValid) then Ret (write 200 [] (BOrder (orderBody o)))
  else
    _ ← guard (negb (finalizable o)) ProblemOrderNotReady;
    at_ ← now;
    _ ← guard (o_Expires o <? at_) ProblemOrderNotReady;
    encoded ← decode e (into read_finalizeRequest);
    r ← attempt (csr ← lift (parseCSR encoded); _ ← checkKey e o (csr_PublicKey csr); issue e o csr);
    match r with
    | Err p => settleOrder o p
    | Ok (order, _) => Ret (write 200 (url [pathOrder; o_ID o]) (BOrder (orderBody order)))
    end.

(* @src devicemanagement/pki/acme/handlers.go - Server.order *)
Definition order (e : exchange) : prog response :=
  o ← loadOrder e;
  o ← (if bool_decide (o_Status o = StatusProcessing) && bool_decide (o_CertificateID o ≠ []) then
         r ← read (GetCertificate (o_CertificateID o));
         record ← got r;
         completeReceipt e o record
       else Ret o);
  Ret (write 200 [] (BOrder (orderBody o))).

(* @src devicemanagement/pki/acme/handlers.go - Server.certificate *)
Definition certificate (e : exchange) : prog response :=
  r ← read (GetCertificate (r_id (e_req e)));
  record ← found_or ProblemMalformed r;
  _ ← guard (bool_decide (ct_AccountID record ≠ accountID e)) ProblemUnauthorized;
  _ ← guard (PendingRegistration record) ProblemOrderNotReady;
  Ret (write 200 [] (BChain (ChainPEM record))).

(** ** Revocation *)

(** The orders of one page that still grant their identifier. *)
(* @src devicemanagement/pki/acme/revoke.go 117-127 Server.authorizedForAll *)
Fixpoint remaining_after (account : bytes) (os : list Order) (remaining : list bytes) : prog (list bytes) :=
  match os with
  | [] => Ret remaining
  | o :: os' =>
      r ← read (GetAuthorization (o_AuthzID o));
      a ← got r;
      valid ← (if bool_decide (a_AccountID a ≠ account) || bool_decide (a_Status a ≠ StatusValid) then Ret false
               else at_ ← now; Ret (at_ <? a_Expires a));
      let value := id_Type (a_Identifier a) ++ bs ":" ++ id_Value (a_Identifier a) in
      remaining_after account os' (if (valid : bool) then filter (λ s, s ≠ value) remaining else remaining)
  end.
(** One page after another; [fuel] bounds the pages. *)
(* @src devicemanagement/pki/acme/revoke.go 111-135 Server.authorizedForAll *)
Fixpoint authorized_pages (fuel : nat) (account : bytes) (cursor : bytes) (remaining : list bytes) : prog unit :=
  match fuel with
  | O => problem ProblemUnauthorized
  | S fuel' =>
      r ← read (ListOrders account (mkPage cursor 0));
      page ← got r;
      remaining ← remaining_after account (Items page) remaining;
      if bool_decide (remaining = []) then Ret tt
      else if bool_decide (NextCursor page = []) then problem ProblemUnauthorized
      else authorized_pages fuel' account (NextCursor page) remaining
  end.
(* @src devicemanagement/pki/acme/revoke.go - Server.authorizedForAll *)
Definition authorizedForAll (fuel : nat) (e : exchange) (identifiers : list bytes) : prog unit :=
  _ ← guard (bool_decide (identifiers = [])) ProblemUnauthorized;
  authorized_pages fuel (accountID e) [] identifiers.

Definition read_revocation (ms : members) : option (bytes * Z) :=
  c ← string_field ms "certificate"; r ← int_field ms "reason"; Some (c, r).
Definition CertificateRevoked := bs "certificate.revoked".
(* @src devicemanagement/pki/acme/revoke.go - Server.revokeCertificate *)
Definition revokeCertificate (fuel : nat) (reg : Registry) (e : exchange) : prog response :=
  match into read_revocation (j_Payload (e_jws e)) with
  | None => problem ProblemMalformed
  | Some (encoded, reason) =>
      _ ← guard (negb (ValidReason reason)) ProblemBadRevocationReason;
      match b64_decode encoded with
      | None => problem ProblemMalformed
      | Some der =>
      match ParseCertificate der with
      | None => problem ProblemMalformed
      | Some cert =>
          r ← at_moment (λ m, ByCertificate reg m cert);
          match r with
          | Err RevUnknown => problem ProblemUnauthorized
          | Err _ => wrapped ProblemServerInternal EOther
          | Ok record =>
              let pv := rr_Provenance record in
              _ ← match h_JWK (j_Header (e_jws e)) with
                  | Some k =>
                      match Public k with
                      | Err _ => problem ProblemBadPublicKey
                      | Ok pub =>
                          match MarshalPKIXPublicKey pub with
                          | None => problem ProblemBadPublicKey
                          | Some a => guard (bool_decide (MarshalPKIXPublicKey (x_PublicKey cert) ≠ Some a)) ProblemUnauthorized
                          end
                      end
                  | None =>
                      match e_account e with
                      | None => problem ProblemUnauthorized
                      | Some a =>
                          if bool_decide (pv_AccountID pv ≠ ac_ID a) || bool_decide (pv_Source pv ≠ bs "acme")
                          then authorizedForAll fuel e (pv_Identifiers pv) else Ret tt
                      end
                  end;
              r ← do (λ _ w, match Revoke reg (moment w.1) (rr_Issuer record) (x_SerialNumber cert) reason with
                             | Ok _ => (Ok tt, note (Revoked (moment w.1) (rr_Issuer record) (x_SerialNumber cert) reason) w)
                             | Err err => (Err err, w)
                             end);
              match r with
              | Ok _ => _ ← publish CertificateRevoked (rr_Serial record); Ret (write 200 [] BEmpty)
              | Err RevRevoked => problem ProblemAlreadyRevoked
              | Err _ => wrapped ProblemServerInternal EOther
              end
          end
      end
      end
  end.

(** ** The router *)

Inductive endpoint :=
| EDirectory | ENewNonce | ENewAccount | ENewOrder | EAccount | EAccountOrders | EOrder | EFinalize | EAuthorization | EChallenge
| ECertificate | ERevoke (fuel : nat) | EOther_.
(* @src devicemanagement/pki/acme/server.go - Server.Handler *)
Definition serve (ep : endpoint) (req : request) : prog response :=
  match ep with
  | EDirectory => plain_endpoint directory
  | ENewNonce => plain_endpoint (newNonce req)
  | ENewAccount => signed req newAccount allowJWK
  | ENewOrder => signed req newOrder requireKID
  | EAccount => signed req account requireKID
  | EAccountOrders => signed req accountOrders requireKID
  | EOrder => signed req order requireKID
  | EFinalize => signed req finalize requireKID
  | EAuthorization => signed req authorization requireKID
  | EChallenge => signed req challenge requireKID
  | ECertificate => signed req certificate requireKID
  | ERevoke fuel =>
      match Revocations with
      | Some reg => signed req (revokeCertificate fuel reg) allowEitherKey
      | None => plain_endpoint (problem ProblemMalformed)
      end
  | EOther_ => plain_endpoint (problem ProblemMalformed)
  end.

(** The sweeper. *)
Definition sweep (before : Time) : prog response :=
  n ← do (λ _ w, let '(n, s) := Prune before w.2 in (n, (w.1, s))); Ret (mkResponse n [] None BEmpty).
End Issue.
