(* ===== verification/AcmeInv.v ===== *)
(** * The invariant of the ACME server

    What holds of the world between any two actions: how the stored orders, authorizations
    and challenges descend from the records an order was created with, why a valid challenge
    and a certificate are there, that an order has at most one certificate, that a nonce is
    taken at most once. And the guarantee: what an action of a request may change. *)
From S2P Require Import Prelude GoStrings Storage Sha256 Base64 Jose Attest AcmeTypes AcmeStore AcmeBase AcmeServer AcmeIssue.

(** ** Requests that run at the same time

    Schedules of the actions of any number of requests, and a rely-guarantee logic for them: an
    invariant of the world, a guarantee for what an action of a request may do to it, and for
    a program the outcomes it can have when actions of other requests, bound by their
    guarantees, happen between its own. [run_sound]: what the logic proves of each request
    alone holds in every schedule of all of them. *)

(** ** Schedules *)

(** The world, and what is left of every request; a schedule names the request that acts. *)
Definition config (A : Type) : Type := world * (nat → prog A).
Definition step {A} (c : config A) (t : nat) : config A :=
  let '(p, w) := act t (c.2 t) c.1 in (w, λ u, if decide (u = t) then p else c.2 u).
Definition run {A} (schedule : list nat) (c : config A) : config A := foldl step c schedule.

Definition tick (m : nat) (w : world) : world := (w.1 <| moment := S m |>, w.2).

Section Logic.
Context (Inv : world → Prop) (G : nat → world → world → Prop).

(** A change by a request other than [t]. *)
Definition others (t : nat) (w w' : world) : Prop := ∃ u, u ≠ t ∧ Inv w ∧ Inv w' ∧ G u w w'.

(** The outcomes of [p] as request [t] satisfy [Q], its actions keep the invariant and the
    guarantee. *)
Fixpoint sat {A} (t : nat) (p : prog A) (w : world) (Q : result Problem A → world → Prop) : Prop :=
  match p with
  | Ret a => Q (Ok a) w
  | Fail e => Q (Err e) w
  | Act f k => ∀ w1, rtc (others t) w w1 → Inv w1 →
      let w2 := tick (moment w1.1) (f t w1).2 in
      Inv w2 ∧ G t w1 w2 ∧ sat t (k (f t w1).1) w2 Q
  end.
Definition triple {A} (t : nat) (P : world → Prop) (p : prog A) (Q : result Problem A → world → Prop) : Prop :=
  ∀ w, Inv w → P w → sat t p w Q.

(** *** Soundness *)

Definition ok {A} (Q : nat → result Problem A → world → Prop) (c : config A) : Prop :=
  Inv c.1 ∧ ∀ t, ∃ w, rtc (others t) w c.1 ∧ sat t (c.2 t) w (Q t).

Lemma step_ok {A} Q (c : config A) t : ok Q c → ok Q (step c t).
Proof.
  destruct c as [w ps]. intros [Hi H]. unfold step. cbn in *. destruct (H t) as (w0 & Hr & Hs). unfold act.
  destruct (ps t) as [a|e|X f k] eqn:E; cbn.
  - split; [done|]. intros u. cbn. destruct (decide (u = t)) as [->|]; [|done]. exists w0. by rewrite <-E in Hs |- *.
  - split; [done|]. intros u. cbn. destruct (decide (u = t)) as [->|]; [|done]. exists w0. by rewrite <-E in Hs |- *.
  - destruct (Hs w Hr Hi) as (Hi' & Hg & Hk). destruct (f t w) as [x w'] eqn:Ef. cbn in *. split; [done|]. intros u. cbn. destruct (decide (u = t)) as [->|Hu].
    + exists (tick (moment w.1) w'). split; [apply rtc_refl|done].
    + destruct (H u) as (wu & Hru & Hsu). exists wu. split; [|done]. eapply rtc_r; [exact Hru|]. exists t. done.
Qed.

(** Every schedule: the invariant holds at its end, and a request that has finished has an
    outcome its proof allows. *)
Lemma run_sound {A} (Q : nat → result Problem A → world → Prop) w (ps : nat → prog A) schedule :
  Inv w → (∀ t, sat t (ps t) w (Q t)) →
  let c := run schedule (w, ps) in
  Inv c.1 ∧ ∀ t, ∃ w1, rtc (others t) w1 c.1 ∧ match c.2 t with Ret a => Q t (Ok a) w1 | Fail e => Q t (Err e) w1 | Act _ _ => True end.
Proof.
  intros Hi Hs c. assert (ok Q c) as [Hi' H].
  { unfold c, run. assert (ok Q (w, ps)) as H by (split; [done|]; intros t; exists w; split; [apply rtc_refl|apply Hs]).
    revert H. generalize (w, ps). induction schedule as [|t s IH]; intros c0 H0; [done|]. cbn. by apply IH, step_ok. }
  split; [done|]. intros t. destruct (H t) as (w1 & Hr & Hq). exists w1. split; [done|]. by destruct (c.2 t).
Qed.

(** *** What lasts *)

(** Facts that no action can undo, and facts that the actions of the others cannot. [quiet]
    actions change neither the store nor the record. *)
Definition quiet (w w' : world) : Prop := w'.2 = w.2 ∧ log w'.1 = log w.1 ∧ drawn w.1 `prefix_of` drawn w'.1.
Class Persistent (P : world → Prop) := persistent u w w' : Inv w → Inv w' → G u w w' → P w → P w'.
Class Stable (t : nat) (P : world → Prop) := stable w w' : Inv w → Inv w' → others t w w' ∨ quiet w w' → P w → P w'.

Class QuietG := quiet_G u w w' : quiet w w' → G u w w'.
Context {quietG : QuietG}.
#[global] Instance Persistent_Stable t P : Persistent P → Stable t P | 10.
Proof. intros HP w w' Hi Hi' [(u & _ & _ & _ & Hg)|Hq]; [by apply (HP u w)|]. apply (HP 0%nat w); [done..|]. by apply quiet_G. Qed.
#[global] Instance Stable_pure t (φ : Prop) : Stable t (λ _, φ).
Proof. by intros w w'. Qed.
#[global] Instance Stable_and t P Q : Stable t P → Stable t Q → Stable t (λ w, P w ∧ Q w).
Proof. intros HP HQ' w w' Hi Hi' Hs [? ?]. split; [by apply (HP w)|by apply (HQ' w)]. Qed.
#[global] Instance Persistent_pure (φ : Prop) : Persistent (λ _, φ).
Proof. by intros u w w'. Qed.
#[global] Instance Persistent_and P Q : Persistent P → Persistent Q → Persistent (λ w, P w ∧ Q w).
Proof. intros HP HQ' u w w' Hi Hi' Hg [? ?]. split; [by apply (HP u w)|by apply (HQ' u w)]. Qed.
#[global] Instance Persistent_exist {A} (P : A → world → Prop) : (∀ a, Persistent (P a)) → Persistent (λ w, ∃ a, P a w).
Proof. intros HP u w w' Hi Hi' Hg [a ?]. exists a. by apply (HP a u w). Qed.

#[global] Instance Persistent_impl (φ : Prop) P : Persistent P → Persistent (λ w, φ → P w).
Proof. intros HP u w w' Hi Hi' Hg H Hφ. apply (HP u w); auto. Qed.

Lemma stable_rtc t P w w' : Stable t P → rtc (others t) w w' → P w → P w'.
Proof. intros HP. induction 1 as [|w w1 w' H _ IH]; [done|]. intros Hw. apply IH. destruct H as (u & ? & ? & ? & ?). apply (HP w); [done..| |done]. left. by exists u. Qed.

(** *** Rules *)

Lemma sat_mono {A} t (p : prog A) : ∀ w (Q Q' : result Problem A → world → Prop),
  (∀ r w', Q r w' → Q' r w') → sat t p w Q → sat t p w Q'.
Proof.
  induction p as [a|e|X f k IH]; cbn; intros w Q Q' HQ H; [by apply HQ..|]. intros w1 Hr Hi. destruct (H w1 Hr Hi) as (? & ? & ?). split_and!; [done..|]. by eapply IH.
Qed.
Lemma sat_bind {A B} t (p : prog A) (k : A → prog B) Q : ∀ w,
  sat t p w (λ r w', match r with Ok a => sat t (k a) w' Q | Err e => Q (Err e) w' end) → sat t (p ≫= k) w Q.
Proof.
  induction p as [a|e|X f g IH]; cbn; intros w H; [done..|]. intros w1 Hr Hi. destruct (H w1 Hr Hi) as (? & ? & ?). split_and!; [done..|]. by apply IH.
Qed.
Lemma sat_attempt {A} t (p : prog A) Q : ∀ w, sat t p w (λ r w', Q (Ok r) w') → sat t (attempt p) w Q.
Proof.
  induction p as [a|e|X f g IH]; cbn; intros w H; [done..|]. intros w1 Hr Hi. destruct (H w1 Hr Hi) as (? & ? & ?). split_and!; [done..|]. by apply IH.
Qed.
Lemma sat_frame {A} t F `{!Persistent F} (p : prog A) Q : ∀ w, Inv w → F w → sat t p w Q → sat t p w (λ r w', (F w' ∧ Inv w') ∧ Q r w').
Proof.
  induction p as [a|e|X f g IH]; cbn; intros w Hi HF H; [done..|]. intros w1 Hr Hi1. destruct (H w1 Hr Hi1) as (? & Hg & ?). split_and!; [done..|].
  apply IH; [done| |done]. apply (persistent (P := F) t w1); [done..|]. eapply (stable_rtc t F); [by apply Persistent_Stable|done..].
Qed.

Lemma triple_pre {A} t (P P' : world → Prop) (p : prog A) Q : (∀ w, P' w → P w) → triple t P p Q → triple t P' p Q.
Proof. intros HP H w Hi Hw. apply H; auto. Qed.
Lemma triple_post {A} t P (p : prog A) (Q Q' : result Problem A → world → Prop) : (∀ r w, Q r w → Q' r w) → triple t P p Q → triple t P p Q'.
Proof. intros HQ H w Hi Hw. eapply sat_mono; [|by apply H]. auto. Qed.
Lemma triple_pure {A} t (φ : Prop) P (p : prog A) Q : (φ → triple t P p Q) → triple t (λ w, φ ∧ P w) p Q.
Proof. intros H w Hi [Hφ Hw]. by apply H. Qed.

(** A program before another, with the facts that last through it. *)
Lemma triple_bind {A B} t F P (p : prog A) (k : A → prog B) R Q `{!Persistent F} :
  triple t P p R → (∀ a, triple t (λ w, F w ∧ R (Ok a) w) (k a) Q) → (∀ e w, R (Err e) w → F w → Q (Err e) w) → triple t (λ w, F w ∧ P w) (p ≫= k) Q.
Proof.
  intros Hp Hk He w Hi [HF HP]. apply sat_bind. eapply sat_mono; [|apply (sat_frame t F); [done..|by apply Hp]].
  intros [a|e] w' [[? ?] ?]; [apply Hk; eauto|by apply He].
Qed.
Lemma triple_attempt {A} t P (p : prog A) Q : triple t P p (λ r w', Q (Ok r) w') → triple t P (attempt p) Q.
Proof. intros H w Hi Hw. by apply sat_attempt, H. Qed.

(** One action. [R] is what it establishes; the rest of the program may use it. *)
Lemma triple_act {A X} t P (f : nat → world → X * world) (k : X → prog A) (R : X → world → Prop) Q `{!Stable t P} :
  (∀ w, Inv w → P w → let w' := tick (moment w.1) (f t w).2 in Inv w' ∧ G t w w' ∧ R (f t w).1 w') →
  (∀ x, triple t (R x) (k x) Q) → triple t P (Act f k) Q.
Proof.
  intros Hf Hk w Hi Hw w1 Hr Hi1. assert (P w1) as Hw1 by (by eapply stable_rtc).
  destruct (Hf w1 Hi1 Hw1) as (? & ? & ?). cbn. split_and!; [done..|]. by apply Hk.
Qed.
End Logic.

Section Invariant.
Context {env : Acme}.

(** ** Draws *)

(** Distinct draws have distinct bytes: what 128 random bits are for. *)
Definition fresh_draws : Prop :=
  (∀ i j n m b, rand i n = Some b → rand j m = Some b → i = j) ∧ (∀ i n b, rand i n = Some b → Forall is_byte b).
(** A text made of the [i]-th draw; one that request [t] drew. *)
Definition drawn_at (i : nat) (x : bytes) : Prop := ∃ n b, rand i n = Some b ∧ x = b64_encode b.
Definition drawn_by (t : nat) (w : world) (x : bytes) : Prop := ∃ i, drawn w.1 !! i = Some t ∧ drawn_at i x.

(** ** Evidence *)

(** The attestation [raw], made for [token], covers [key]. *)
Definition attests (token raw : bytes) (key : option PublicKey) (a : Attestation) : Prop :=
  unattested raw (ParseObject raw) = false ∧ ParseObject raw = Ok a ∧
  ∃ m, Attestation_Verify a (mkVerifyOptions Anchors (Clock m 0) (FreshnessForToken token) key) = Ok tt.
(** The policy accepted the device for what the order asks. *)
Definition allowed (o : Order) (a : option Attestation) : Prop :=
  ∃ m d, Authorize m d = Ok tt ∧ d_Binding d = o_Binding o ∧ d_Identifier d = o_Identifier o ∧ d_Attestation d = a.
(** A device may do without an attestation. *)
Definition excused (o : Order) : Prop :=
  RequireAttestation (o_Binding o) = false ∧ allowed o None ∧
  (AllowUnattested = true ∨ ∃ policy m d, AuthorizeUnattested = Some policy ∧ policy m d = Ok tt ∧
     d_Binding d = o_Binding o ∧ d_Identifier d = o_Identifier o ∧ d_Attestation d = None).
(** The device named by the order's binding vouches for [key] with [raw], or need not. *)
Definition vouched (o : Order) (token raw : bytes) (key : option PublicKey) : Prop :=
  (∃ a, attests token raw key a ∧ matchBinding o a = Ok tt ∧ allowed o (Some a)) ∨
  (unattested raw (ParseObject raw) = true ∧ excused o).
(** A certificate of order [o]: signed for a key that is vouched for, with the identifier of
    the order as its permanent identifier. *)
Definition evidence (o : Order) (token : bytes) (ct : Certificate) : Prop :=
  ∃ raw csr m policy cert,
    csr_Valid csr = true ∧ vouched o token raw (Some (csr_PublicKey csr)) ∧
    receipt_policy o (Clock m 1) = Ok policy ∧ Signer_Sign m (issuanceProvenance o) csr policy = Ok cert ∧
    ChainPEM ct = encodeChain cert Signer_Chain ∧ ct_AccountID ct = o_AccountID o ∧ ct_Binding ct = o_Binding o ∧
    ct_Device ct = match ParseObject raw with Ok a => at_Properties a | Err _ => noProperties end.
(** The registries know the certificate that [ct] holds. *)
Definition registered (w : world) (o : Order) (ct : Certificate) : Prop :=
  ∃ der cert, pem_Decode (ChainPEM ct) = Some der ∧ ParseCertificate der = Some cert ∧
    (cfg_Register ≠ None → ∃ m, Registered m (issuanceProvenance o) cert ∈ log w.1) ∧
    (Revocations ≠ None → ∃ m, Recorded m (issuanceProvenance o) cert ∈ log w.1).

(** ** Descent *)

Definition rank (status : bytes) : nat :=
  if bool_decide (status = StatusPending) then 0
  else if bool_decide (status = StatusReady) then 1
  else if bool_decide (status = StatusProcessing) then 2
  else if bool_decide (status = StatusValid) then 3 else 4.
(** An order stays as it is or moves on; a challenge is settled once; a certificate is
    registered once. *)
Definition order_later (o o' : Order) : Prop := o = o' ∨ (rank (o_Status o) < rank (o_Status o'))%nat.
Definition challenge_later (c c' : Challenge) : Prop := c = c' ∨ (c_Status c = StatusPending ∧ c_Status c' ≠ StatusPending).
Definition cert_later (ct ct' : Certificate) : Prop := ct' = ct ∨ ct' = ct <| PendingRegistration := false |>.

Record order_from (o0 o : Order) : Prop := {
  of_ID : o_ID o = o_ID o0; of_AccountID : o_AccountID o = o_AccountID o0; of_Identifier : o_Identifier o = o_Identifier o0;
  of_Binding : o_Binding o = o_Binding o0; of_AuthzID : o_AuthzID o = o_AuthzID o0; of_Expires : o_Expires o = o_Expires o0;
  of_pending : o_Status o = StatusPending → o = o0;
  of_issued : o_Status o = StatusProcessing ∨ o_Status o = StatusValid → o_CertificateID o ≠ [] }.
Definition authz_from (a0 a : Authorization) : Prop := ∃ status, a = a0 <| a_Status := status |>.
Record challenge_from (c0 c : Challenge) : Prop := {
  cf_ID : c_ID c = c_ID c0; cf_AuthzID : c_AuthzID c = c_AuthzID c0; cf_Token : c_Token c = c_Token c0;
  cf_pending : c_Status c = StatusPending → c = c0 }.

(** The records of a new order. *)
Record linked (o : Order) (a : Authorization) (c : Challenge) : Prop := {
  ln_order : o_Status o = StatusPending; ln_challenge : c_Status c = StatusPending; ln_authz : a_Status a = StatusPending;
  ln_oa : o_AuthzID o = a_ID a; ln_ao : a_OrderID a = o_ID o; ln_ac : a_ChallengeID a = c_ID c; ln_ca : c_AuthzID c = a_ID a }.

Definition birth : Type := Order * Authorization * Challenge.
Definition b_order (b : birth) : Order := b.1.1.
Definition b_authz (b : birth) : Authorization := b.1.2.
Definition b_challenge (b : birth) : Challenge := b.2.
Definition births (w : world) : list birth :=
  omap (λ e, match e with OrderCreated o a c => Some (o, a, c) | _ => None end) (log w.1).
Definition value_of (b : birth) : bytes := id_Value (o_Identifier (b_order b)).
Definition taken (w : world) : list bytes := omap (λ e, match e with NonceTaken _ v => Some v | _ => None end) (log w.1).
(** The texts made of draws that the world refers to. *)
Definition settled (status : bytes) : Prop := status ≠ StatusPending ∧ status ≠ StatusInvalid.

(** ** The invariant *)

Record Inv (w : world) : Prop := {
  inv_order : ∀ id o, orders w.2 !! id = Some o → ∃ b, b ∈ births w ∧ o_ID (b_order b) = id ∧ order_from (b_order b) o;
  inv_authz : ∀ id a, authzs w.2 !! id = Some a → ∃ b, b ∈ births w ∧ a_ID (b_authz b) = id ∧ authz_from (b_authz b) a;
  inv_challenge : ∀ id c, challenges w.2 !! id = Some c → ∃ b, b ∈ births w ∧ c_ID (b_challenge b) = id ∧
    challenge_from (b_challenge b) c ∧ (c_Status c = StatusValid → vouched (b_order b) (c_Token c) (c_Attestation c) None);
  inv_birth : ∀ b, b ∈ births w → linked (b_order b) (b_authz b) (b_challenge b) ∧ claims w.2 !! value_of b = Some (o_ID (b_order b)) ∧
    ∀ x, x ∈ [o_ID (b_order b); a_ID (b_authz b); c_ID (b_challenge b)] → ∃ t, drawn_by t w x;
  inv_unique : NoDup (o_ID ∘ b_order <$> births w) ∧ NoDup (a_ID ∘ b_authz <$> births w) ∧ NoDup (c_ID ∘ b_challenge <$> births w);
  inv_claim : ∀ v id, claims w.2 !! v = Some id → ∃ b, b ∈ births w ∧ o_ID (b_order b) = id ∧ value_of b = v;
  inv_settled : ∀ b o c, b ∈ births w → orders w.2 !! o_ID (b_order b) = Some o → settled (o_Status o) →
    challenges w.2 !! c_ID (b_challenge b) = Some c → c_Status c = StatusValid;
  inv_cert : ∀ id ct, certs w.2 !! id = Some ct → ct_ID ct = id ∧ id ≠ [] ∧ (∃ t, drawn_by t w id) ∧ ∃ b, b ∈ births w ∧
    ct_OrderID ct = o_ID (b_order b) ∧ evidence (b_order b) (c_Token (b_challenge b)) ct ∧
    (PendingRegistration ct = false → registered w (b_order b) ct) ∧
    (∀ o, orders w.2 !! o_ID (b_order b) = Some o → o_CertificateID o = id ∧ (o_Status o = StatusProcessing ∨ o_Status o = StatusValid));
  inv_one_cert : ∀ i j ct ct', certs w.2 !! i = Some ct → certs w.2 !! j = Some ct' → ct_OrderID ct = ct_OrderID ct' → i = j;
  inv_account : ∀ id a, accounts w.2 !! id = Some a → ac_ID a = id ∧ ∃ t, drawn_by t w id;
  inv_nonce : ∀ v n, nonces w.2 !! v = Some n → NonceStored v ∈ log w.1 ∧ v ∉ taken w;
  inv_taken : NoDup (taken w) ∧ (∀ v, v ∈ taken w → NonceStored v ∈ log w.1) ∧ (∀ v, NonceStored v ∈ log w.1 → ∃ t, drawn_by t w v) }.

(** ** The guarantee *)

(** New orders and nonces are made of draws of the request that makes them. *)
Definition made_by (t : nat) (w : world) (e : entry) : Prop :=
  match e with
  | OrderCreated o a c => drawn_by t w (o_ID o) ∧ drawn_by t w (a_ID a) ∧ drawn_by t w (c_ID c)
  | NonceStored v => drawn_by t w v
  | _ => True
  end.
Record G (t : nat) (w w' : world) : Prop := {
  g_log : ∃ new, log w'.1 = new ++ log w.1 ∧ Forall (made_by t w') new;
  g_drawn : drawn w.1 `prefix_of` drawn w'.1;
  g_order : ∀ b o', b ∈ births w → orders w'.2 !! o_ID (b_order b) = Some o' → ∃ o, orders w.2 !! o_ID (b_order b) = Some o ∧ order_later o o';
  g_challenge : ∀ b c', b ∈ births w → challenges w'.2 !! c_ID (b_challenge b) = Some c' →
    ∃ c, challenges w.2 !! c_ID (b_challenge b) = Some c ∧ challenge_later c c';
  g_cert : ∀ id ct, certs w.2 !! id = Some ct → ∃ ct', certs w'.2 !! id = Some ct' ∧ cert_later ct ct';
  g_account : accounts w.2 ⊆ accounts w'.2 ∧ ∀ id a, accounts w'.2 !! id = Some a → accounts w.2 !! id = Some a ∨ drawn_by t w' id }.

#[export] Instance quiet_guaranteed : QuietG G.
Proof.
  intros u w w' (Es & El & Hd). split; rewrite ?Es, ?El; [by exists []|done|intros b o' _ H; exists o'; by split; [|left]|intros b c' _ H; exists c'; by split; [|left]|intros id ct H; exists ct; by split; [|left]|split; [done|auto]].
Qed.

Lemma order_later_trans o1 o2 o3 : order_later o1 o2 → order_later o2 o3 → order_later o1 o3.
Proof. intros [->|?] [->|?]; unfold order_later; auto. right. lia. Qed.
Lemma challenge_later_trans c1 c2 c3 : challenge_later c1 c2 → challenge_later c2 c3 → challenge_later c1 c3.
Proof. intros [->|[? ?]] [->|[? ?]]; unfold challenge_later; auto. Qed.
Lemma cert_later_trans c1 c2 c3 : cert_later c1 c2 → cert_later c2 c3 → cert_later c1 c3.
Proof. destruct c1. intros [->| ->] [->| ->]; unfold cert_later; auto. Qed.

(** ** What a request knows *)

Notation persistent := (Persistent Inv G).

Definition born (b : birth) (w : world) : Prop := b ∈ births w.
Definition saw_order (b : birth) (o : Order) (w : world) : Prop :=
  b ∈ births w ∧ order_from (b_order b) o ∧ ∀ o', orders w.2 !! o_ID (b_order b) = Some o' → order_later o o'.
Definition saw_challenge (b : birth) (c : Challenge) (w : world) : Prop :=
  b ∈ births w ∧ challenge_from (b_challenge b) c ∧ ∀ c', challenges w.2 !! c_ID (b_challenge b) = Some c' → challenge_later c c'.
Definition saw_cert (ct : Certificate) (w : world) : Prop := ∃ ct', certs w.2 !! ct_ID ct = Some ct' ∧ cert_later ct ct'.
Definition saw_account (a : Account) (w : world) : Prop := accounts w.2 !! ac_ID a = Some a.
Definition logged (e : entry) (w : world) : Prop := e ∈ log w.1.
(** An identifier of request [t] that no order has, and a nonce of its that is not stored yet. *)
Definition unused_id (t : nat) (x : bytes) (w : world) : Prop :=
  drawn_by t w x ∧ ∀ b, b ∈ births w → x ∉ [o_ID (b_order b); a_ID (b_authz b); c_ID (b_challenge b)].
Definition unused_account (t : nat) (x : bytes) (w : world) : Prop := drawn_by t w x ∧ accounts w.2 !! x = None.
Definition unused_nonce (t : nat) (v : bytes) (w : world) : Prop := drawn_by t w v ∧ NonceStored v ∉ log w.1.

Lemma births_app w w' new : log w'.1 = new ++ log w.1 →
  births w' = omap (λ e, match e with OrderCreated o a c => Some (o, a, c) | _ => None end) new ++ births w.
Proof. unfold births. intros ->. apply omap_app. Qed.
Lemma births_grow t w w' b : G t w w' → b ∈ births w → b ∈ births w'.
Proof. intros [(new & E & _) _ _ _ _ _] H. rewrite (births_app _ _ _ E). apply elem_of_app. by right. Qed.
Lemma log_grows t w w' e : G t w w' → e ∈ log w.1 → e ∈ log w'.1.
Proof. intros [(new & E & _) _ _ _ _ _] H. rewrite E. apply elem_of_app. by right. Qed.
Lemma drawn_by_prefix t w w' x : drawn w.1 `prefix_of` drawn w'.1 → drawn_by t w x → drawn_by t w' x.
Proof. intros Hp (i & H & Hx). exists i. split; [by eapply prefix_lookup_Some|done]. Qed.

#[export] Instance born_persistent b : persistent (born b).
Proof. intros u w w' _ _ Hg H. by eapply births_grow. Qed.
#[export] Instance logged_persistent e : persistent (logged e).
Proof. intros u w w' _ _ Hg H. by eapply log_grows. Qed.
#[export] Instance saw_order_persistent b o : persistent (saw_order b o).
Proof.
  intros u w w' _ _ Hg (Hb & Hf & H). split_and!; [by eapply births_grow|done|]. intros o2 H2. destruct (g_order _ _ _ Hg b o2 Hb H2) as (o1 & H1 & Hl).
  eapply order_later_trans; [by apply H|done].
Qed.
#[export] Instance saw_challenge_persistent b c : persistent (saw_challenge b c).
Proof.
  intros u w w' _ _ Hg (Hb & Hf & H). split_and!; [by eapply births_grow|done|]. intros c2 H2. destruct (g_challenge _ _ _ Hg b c2 Hb H2) as (c1 & H1 & Hl).
  eapply challenge_later_trans; [by apply H|done].
Qed.
#[export] Instance saw_cert_persistent ct : persistent (saw_cert ct).
Proof.
  intros u w w' _ _ Hg (ct1 & H1 & Hl). destruct (g_cert _ _ _ Hg _ _ H1) as (ct2 & H2 & Hl2). exists ct2. split; [done|]. by eapply cert_later_trans.
Qed.
#[export] Instance saw_account_persistent a : persistent (saw_account a).
Proof. intros u w w' _ _ Hg H. eapply lookup_weaken; [exact H|]. apply Hg. Qed.
End Invariant.
