(* ===== verification/AcmeSteps.v ===== *)
(** * The actions of a request keep the invariant

    One lemma for each action that changes the world: draws, records, nonces, accounts and
    pruning here, the transactions on orders in [AcmeTransactions]. *)
From S2P Require Import Prelude GoStrings Sha256 Storage Base64 Jose Attest AcmeTypes AcmeStore AcmeBase AcmeServer AcmeIssue AcmeInv.

(** The parts of the invariant that are as they were. *)
Ltac inv_same Hi :=
  first [exact (inv_order _ Hi)|exact (inv_authz _ Hi)|exact (inv_challenge _ Hi)|exact (inv_birth _ Hi)|exact (inv_unique _ Hi)|exact (inv_claim _ Hi)
        |exact (inv_settled _ Hi)|exact (inv_cert _ Hi)|exact (inv_one_cert _ Hi)|exact (inv_account _ Hi)|exact (inv_nonce _ Hi)|exact (inv_taken _ Hi)].

Section Steps.
Context {env : Acme} (Hfresh : fresh_draws).

Lemma drawn_at_inj i j x : drawn_at i x → drawn_at j x → i = j.
Proof.
  destruct Hfresh as [Hi Hb]. intros (n & b & Hn & ->) (m & b' & Hm & E). apply b64_encode_inj in E as ->; [|by eapply Hb..]. by eapply Hi.
Qed.
Lemma drawn_by_inj t u w x : drawn_by t w x → drawn_by u w x → t = u.
Proof. intros (i & Hi & Hx) (j & Hj & Hy). assert (i = j) as -> by (by eapply drawn_at_inj). congruence. Qed.

#[export] Instance unused_id_stable t x : Stable Inv G t (unused_id t x).
Proof.
  intros w w' _ _ [(u & Hu & _ & _ & Hg)|(Es & El & Hd)] [Hx Hb].
  - split; [by eapply drawn_by_prefix; [apply Hg|]|]. intros b Hin. destruct (g_log _ _ _ Hg) as (new & E & Hn). rewrite (births_app _ _ _ E), elem_of_app in Hin.
    destruct Hin as [Hin|Hin]; [|by apply Hb]. apply list_elem_of_omap in Hin as (e & He & Hm). destruct e; try done. injection Hm as <-.
    rewrite Forall_forall in Hn. destruct (Hn _ He) as (H1 & H2 & H3). assert (drawn_by t w' x) as Hx' by (by eapply drawn_by_prefix; [apply Hg|]).
    cbn. rewrite !not_elem_of_cons. split_and!; try apply not_elem_of_nil; intros ->; apply Hu; (eapply (drawn_by_inj u t w'); [|exact Hx']; done).
  - split; [by eapply drawn_by_prefix|]. unfold births. by rewrite El.
Qed.
#[export] Instance unused_nonce_stable t v : Stable Inv G t (unused_nonce t v).
Proof.
  intros w w' _ _ [(u & Hu & _ & _ & Hg)|(Es & El & Hd)] [Hv Hl].
  - assert (drawn_by t w' v) as Hv' by (by eapply drawn_by_prefix; [apply Hg|]). split; [done|]. destruct (g_log _ _ _ Hg) as (new & E & Hn). rewrite E, elem_of_app. intros [Hin|Hin]; [|done].
    rewrite Forall_forall in Hn. apply Hu. specialize (Hn _ Hin). by apply (drawn_by_inj u t w' v).
  - split; [by eapply drawn_by_prefix|]. by rewrite El.
Qed.

#[export] Instance unused_account_stable t x : Stable Inv G t (unused_account t x).
Proof.
  intros w w' _ _ [(u & Hu & _ & _ & Hg)|(Es & El & Hd)] [Hx Ha].
  - assert (drawn_by t w' x) as Hx' by (by eapply drawn_by_prefix; [apply Hg|]). split; [done|]. destruct (accounts w'.2 !! x) as [a|] eqn:E; [|done].
    destruct (proj2 (g_account _ _ _ Hg) _ _ E) as [?|?]; [congruence|]. destruct Hu. by apply (drawn_by_inj u t w' x).
  - split; [by eapply drawn_by_prefix|]. by rewrite Es.
Qed.

(** ** Outside the store *)

Lemma Inv_quiet w w' : quiet w w' → Inv w → Inv w'.
Proof.
  destruct w' as [x' s']. intros (Es & El & Hd). cbn in *. subst s'. intros Hi.
  assert (Hb : births (x', w.2) = births w) by (unfold births; cbn; by rewrite El).
  assert (Ht : taken (x', w.2) = taken w) by (unfold taken; cbn; by rewrite El).
  assert (Hm : ∀ t x, drawn_by t w x → drawn_by t (x', w.2) x) by (intros ? ?; by apply drawn_by_prefix).
  constructor; rewrite ?Hb, ?Ht; cbn [fst snd]; rewrite ?El; try inv_same Hi.
  - intros b Hin. destruct (inv_birth _ Hi b Hin) as (? & ? & H). split_and!; [done..|]. intros x Hx. destruct (H x Hx) as [t ?]. eauto.
  - intros id ct H. destruct (inv_cert _ Hi id ct H) as (? & ? & [t ?] & b & ? & ? & ? & Hr & ?). split_and!; eauto. exists b. split_and!; eauto. intros Hp. destruct (Hr Hp) as (der & cert & ? & ? & ? & ?). exists der, cert. cbn. by rewrite El.
  - intros id a H. destruct (inv_account _ Hi id a H) as (? & t & ?). eauto.
  - destruct (inv_taken _ Hi) as (? & ? & H). split_and!; [done..|]. intros v Hv. destruct (H v Hv) as [t ?]. eauto.
Qed.
Lemma quiet_tick m w : quiet w (tick m w).
Proof. done. Qed.
Lemma quiet_trans w1 w2 w3 : quiet w1 w2 → quiet w2 w3 → quiet w1 w3.
Proof. intros (? & ? & ?) (? & ? & ?). split_and!; [congruence..|]. by etrans. Qed.
Lemma Inv_tick m w : Inv w → Inv (tick m w).
Proof. apply Inv_quiet, quiet_tick. Qed.
Lemma G_tick t m w w' : G t w w' → G t w (tick m w').
Proof. intros []. by constructor. Qed.
(** What an action does, once the moment has passed. *)
Lemma keeps_tick t m w w' (R : world → Prop) {HS : Stable Inv G t R} : Inv w' ∧ G t w w' ∧ R w' → Inv (tick m w') ∧ G t w (tick m w') ∧ R (tick m w').
Proof.
  intros (Hi & Hg & HR). split_and!; [by apply Inv_tick|by apply G_tick|]. apply (HS w'); [done|by apply Inv_tick| |done]. right. apply quiet_tick.
Qed.

Lemma quiet_draw n t w : quiet w (draw_bytes n t w).2.
Proof. split_and!; [done..|]. by eexists. Qed.
Lemma draw_unused n t w b : Inv w → (draw_bytes n t w).1 = Some b →
  unused_id t (b64_encode b) (draw_bytes n t w).2 ∧ unused_nonce t (b64_encode b) (draw_bytes n t w).2 ∧ unused_account t (b64_encode b) (draw_bytes n t w).2.
Proof.
  intros Hi Hr. cbn in Hr.
  assert (Hx : drawn_by t (draw_bytes n t w).2 (b64_encode b)).
  { exists (length (drawn w.1)). split; [apply list_lookup_middle; done|]. by exists n, b. }
  assert (Hold : ∀ u, ¬ drawn_by u w (b64_encode b)).
  { intros u (i & Hl & Ha). assert (i = length (drawn w.1)) as -> by (eapply drawn_at_inj; [done|]; by exists n, b). apply lookup_lt_Some in Hl. lia. }
  split_and!; (split; [done|]).
  - intros b0 Hb Hin. destruct (inv_birth _ Hi b0 Hb) as (_ & _ & Hd). destruct (Hd _ Hin) as [u Hu]. by eapply Hold.
  - intros Hv. destruct (inv_taken _ Hi) as (_ & _ & Hd). destruct (Hd _ Hv) as [u Hu]. by eapply Hold.
  - change (accounts w.2 !! b64_encode b = None). destruct (accounts w.2 !! b64_encode b) as [a|] eqn:E; [|done]. destruct (inv_account _ Hi _ _ E) as (_ & u & Hu). by apply Hold in Hu.
Qed.

(** ** Records and nonces *)

Definition births_of (es : list entry) : list birth := omap (λ e, match e with OrderCreated o a c => Some (o, a, c) | _ => None end) es.
(** The tables of orders and certificates are as they were, and no order is created. *)
Record same_orders (w w' : world) : Prop := {
  so_orders : orders w'.2 = orders w.2; so_authzs : authzs w'.2 = authzs w.2; so_challenges : challenges w'.2 = challenges w.2;
  so_certs : certs w'.2 = certs w.2; so_claims : claims w'.2 = claims w.2; so_drawn : drawn w'.1 = drawn w.1 }.
Lemma same_orders_keeps t w w' new :
  same_orders w w' → log w'.1 = new ++ log w.1 → births_of new = [] → Forall (made_by t w') new → Inv w →
  (∀ v n, nonces w'.2 !! v = Some n → NonceStored v ∈ log w'.1 ∧ v ∉ taken w') →
  (NoDup (taken w') ∧ (∀ v, v ∈ taken w' → NonceStored v ∈ log w'.1) ∧ (∀ v, NonceStored v ∈ log w'.1 → ∃ t, drawn_by t w' v)) →
  (∀ id a, accounts w'.2 !! id = Some a → ac_ID a = id ∧ ∃ t, drawn_by t w' id) →
  (accounts w.2 ⊆ accounts w'.2 ∧ ∀ id a, accounts w'.2 !! id = Some a → accounts w.2 !! id = Some a ∨ drawn_by t w' id) →
  Inv w' ∧ G t w w'.
Proof.
  intros [Eo Ea Ec Ect Ecl Ed] El Hnew Hmade Hi Hn Ht Hac Hac'.
  assert (Hb : births w' = births w) by (unfold births_of in Hnew; rewrite (births_app _ _ _ El), Hnew; done).
  assert (Hd : ∀ t x, drawn_by t w' x ↔ drawn_by t w x) by (intros ? ?; unfold drawn_by; by rewrite Ed).
  assert (Hl : ∀ e, e ∈ log w.1 → e ∈ log w'.1) by (intros e He; rewrite El; apply elem_of_app; by right).
  split; constructor; rewrite ?Hb, ?Eo, ?Ea, ?Ec, ?Ect, ?Ecl, ?Ed; try inv_same Hi; try done.
  - intros b Hin. destruct (inv_birth _ Hi b Hin) as (? & ? & H). split_and!; [done..|]. intros x Hx. setoid_rewrite Hd. eauto.
  - intros id ct H. destruct (inv_cert _ Hi id ct H) as (? & ? & [u ?] & b & ? & ? & ? & Hr & ?). split_and!; [done..|exists u; by apply Hd|]. exists b. split_and!; [done..| |done].
    intros Hp. destruct (Hr Hp) as (der & cert & ? & ? & Hreg & Hrec). exists der, cert. split_and!; [done..| |]; intros Hc; [destruct (Hreg Hc) as [m ?]|destruct (Hrec Hc) as [m ?]]; eauto.
  - by exists new.
  - intros b o' _ H. exists o'. by split; [|left].
  - intros b c' _ H. exists c'. by split; [|left].
  - intros id ct H. exists ct. by split; [|left].
Qed.

(** Entries that say nothing of orders and nonces. *)
Definition plain_entry (e : entry) : Prop := match e with Published _ _ | Registered _ _ _ | Recorded _ _ _ | Revoked _ _ _ _ => True | _ => False end.
Lemma note_keeps t e w : plain_entry e → Inv w → Inv (note e w) ∧ G t w (note e w) ∧ logged e (note e w).
Proof.
  intros He Hi. assert (Ht : taken (note e w) = taken w) by (by destruct e).
  assert (Hs : ∀ v, NonceStored v ∈ log (note e w).1 ↔ NonceStored v ∈ log w.1) by (intros v; change (log (note e w).1) with (e :: log w.1); rewrite elem_of_cons; destruct e; naive_solver).
  assert (Inv (note e w) ∧ G t w (note e w)) as [? ?]; [|split_and!; [done..|by left]].
  apply (same_orders_keeps t w (note e w) [e]); [done|done|by destruct e|constructor; [by destruct e|constructor]|done|..].
  - intros v n Hv. rewrite Hs, Ht. by eapply inv_nonce.
  - destruct (inv_taken _ Hi) as (? & H & H'). rewrite Ht. split_and!; [done|..]; intros v; rewrite Hs; [apply H|apply H'].
  - exact (inv_account _ Hi).
  - split; [done|auto].
Qed.

Lemma take_nonce_keeps t v w : Inv w → let '(r, w') := take_nonce v t w in Inv w' ∧ G t w w' ∧ ∀ n, r = Ok n → logged (NonceTaken t v) w'.
Proof.
  intros Hi. unfold take_nonce, TakeNonce. destruct (_ ← validID v; found (nonces w.2 !! v)) as [n|e] eqn:E.
  2:{ destruct w. split_and!; [done| |done]. by apply quiet_guaranteed. }
  apply bind_Ok_inv in E as (_ & _ & E). unfold found in E. destruct (nonces w.2 !! v) as [n'|] eqn:En; [injection E as ->|done].
  destruct (inv_nonce _ Hi v n En) as [Hs Hv]. destruct (inv_taken _ Hi) as (Hnd & Hst & Hdr).
  set (w' := note _ _). assert (Ht : taken w' = v :: taken w) by done.
  assert (Hl : ∀ x, NonceStored x ∈ log w'.1 ↔ NonceStored x ∈ log w.1) by (intros x; change (log w'.1) with (NonceTaken t v :: log w.1); rewrite elem_of_cons; naive_solver).
  assert (Inv w' ∧ G t w w') as [? ?]; [|split_and!; [done..|intros; by left]].
  apply (same_orders_keeps t w w' [NonceTaken t v]); [done|done|done|by repeat constructor|done|..].
  - intros x m Hx. change (delete v (nonces w.2) !! x = Some m) in Hx. apply lookup_delete_Some in Hx as [Hne Hx]. destruct (inv_nonce _ Hi x m Hx). rewrite Hl, Ht, not_elem_of_cons. done.
  - rewrite Ht. split_and!; [by apply NoDup_cons|..]; intros x; rewrite Hl; [|apply Hdr]. intros [->|?]%elem_of_cons; [done|by apply Hst].
  - exact (inv_account _ Hi).
  - split; [done|auto].
Qed.

Lemma put_nonce_keeps t n w : Inv w → unused_nonce t (n_Value n) w → let w' := (put_nonce n t w).2 in Inv w' ∧ G t w w'.
Proof.
  intros Hi [Hd Hu]. unfold put_nonce, PutNonce. destruct (validID (n_Value n)); cbn.
  2:{ destruct w. split; [done|]. by apply quiet_guaranteed. }
  set (w' := note _ _). set (v := n_Value n) in *. assert (Ht : taken w' = taken w) by done. destruct (inv_taken _ Hi) as (Hnd & Hst & Hdr).
  assert (Hl : ∀ x, NonceStored x ∈ log w'.1 ↔ x = v ∨ NonceStored x ∈ log w.1) by (intros x; change (log w'.1) with (NonceStored v :: log w.1); rewrite elem_of_cons; naive_solver).
  apply (same_orders_keeps t w w' [NonceStored v]); [done|done|done|by repeat constructor|done|..].
  - intros x m Hx. change (<[v := n]> (nonces w.2) !! x = Some m) in Hx. rewrite Hl, Ht. apply lookup_insert_Some in Hx as [[<- <-]|[Hne Hx]].
    + split; [by left|]. intros ?%Hst. done.
    + destruct (inv_nonce _ Hi x m Hx). auto.
  - rewrite Ht. split_and!; [done|..]; intros x; rewrite Hl; [intros ?%Hst; auto|]. intros [->|?]; [by exists t|]. destruct (Hdr x) as [u ?]; [done|]. by exists u.
  - exact (inv_account _ Hi).
  - split; [done|auto].
Qed.

(** ** Accounts and pruning *)

Lemma put_account_keeps t a w : Inv w → unused_account t (ac_ID a) w → let w' := (Update (PutAccount a) w).2 in Inv w' ∧ G t w w'.
Proof.
  intros Hi [Hd Hu]. cbv zeta. assert (H : ∃ w', (Update (PutAccount a) w).2 = w' ∧ same_orders w w' ∧ log w'.1 = log w.1 ∧ nonces w'.2 = nonces w.2 ∧
    (accounts w'.2 = accounts w.2 ∨ accounts w'.2 = <[ac_ID a := a]> (accounts w.2))).
  { eexists. split; [done|]. unfold Update, PutAccount, mbind, tx_bind, tx_lift, tx_read, tx_put. repeat (case_match; simplify_eq/=); split_and!; try done; first [by left|by right]. }
  destruct H as (w' & -> & Hs & El & En & Ea).
  assert (Ht : taken w' = taken w) by (unfold taken; by rewrite El).
  assert (Hdr : ∀ u x, drawn_by u w x → drawn_by u w' x) by (intros u x; unfold drawn_by; by rewrite (so_drawn _ _ Hs)).
  apply (same_orders_keeps t w w' []); rewrite ?El, ?En, ?Ht; try done; [apply Hi|..].
  - destruct (inv_taken _ Hi) as (? & ? & H). split_and!; [done..|]. intros v [u Hv]%H. eauto.
  - intros id x Hx. destruct Ea as [Ea|Ea]; rewrite Ea in Hx; [|apply lookup_insert_Some in Hx as [[<- <-]|[_ Hx]]; [eauto|]]; destruct (inv_account _ Hi id x Hx) as (? & u & ?); eauto.
  - destruct Ea as [->| ->]; [auto|]. split; [by apply insert_subseteq|]. intros id x [[<- <-]|[_ ?]]%lookup_insert_Some; auto.
Qed.

(** Rows only disappear, and certificates and claims stay. *)
Record shrinks (s s' : state) : Prop := {
  sh_orders : orders s' ⊆ orders s; sh_authzs : authzs s' ⊆ authzs s; sh_challenges : challenges s' ⊆ challenges s; sh_nonces : nonces s' ⊆ nonces s;
  sh_certs : certs s' = certs s; sh_claims : claims s' = claims s; sh_accounts : accounts s' = accounts s }.
#[local] Instance shrinks_preorder : PreOrder shrinks.
Proof. split; [done|]. intros s1 s2 s3 [] []. split; try congruence; by etrans. Qed.
Lemma removeAuthorization_shrinks id s : shrinks s (removeAuthorization id s).2.
Proof. unfold removeAuthorization. repeat case_match; split; try done; apply delete_subseteq. Qed.
Lemma Prune_shrinks before s : shrinks s (Prune before s).2.
Proof.
  unfold Prune. set (s1 := s <| nonces := _ |>). assert (shrinks s s1) as H1 by (split; try done; apply map_filter_subseteq).
  assert (Hf : ∀ {B} (f : Z * state → B → Z * state) l acc, (∀ a b, shrinks a.2 (f a b).2) → shrinks acc.2 (foldl f acc l).2).
  { intros B f l. induction l as [|x l IH]; intros acc Hstep; [done|]. cbn. etrans; [apply Hstep|by apply IH]. }
  etrans; [exact H1|]. etrans; [|apply Hf].
  - apply (Hf _ (prune_order before) (map_to_list (orders s1)) (_, s1)). intros [n a] [id o]. unfold prune_order. case_match; [done|].
    destruct (removeAuthorization _ _) as [k s'] eqn:E. cbn. transitivity (a <| orders := delete id (orders a) |>); [split; try done; apply delete_subseteq|].
    pose proof (removeAuthorization_shrinks (o_AuthzID o) (a <| orders := delete id (orders a) |>)) as Hr. by rewrite E in Hr.
  - intros [n a] [id x]. unfold prune_authz. case_match; [|done]. destruct (removeAuthorization _ _) as [k s'] eqn:E. cbn.
    pose proof (removeAuthorization_shrinks id a) as Hr. by rewrite E in Hr.
Qed.

Lemma prune_keeps t before w : Inv w → let w' := (w.1, (Prune before w.2).2) in Inv w' ∧ G t w w'.
Proof.
  intros Hi. cbv zeta. pose proof (Prune_shrinks before w.2) as []. set (s' := (Prune before w.2).2) in *. clearbody s'.
  split; constructor; cbn [fst snd]; rewrite ?sh_certs0, ?sh_claims0; try inv_same Hi.
  - intros id o H. apply (inv_order w Hi). by eapply lookup_weaken.
  - intros id a H. apply (inv_authz w Hi). by eapply lookup_weaken.
  - intros id c H. apply (inv_challenge w Hi). by eapply lookup_weaken.
  - intros b o c Hb Ho Hs Hc. by eapply (inv_settled w Hi b o c); [done|eapply lookup_weaken|done|eapply lookup_weaken].
  - intros id ct H. destruct (inv_cert _ Hi id ct H) as (? & ? & ? & b & ? & ? & ? & ? & Ho). split_and!; [done..|]. exists b. split_and!; [done..|].
    intros o Hin. apply Ho. by eapply lookup_weaken.
  - rewrite sh_accounts0. apply (inv_account w Hi).
  - intros v n H. apply (inv_nonce w Hi v n). by eapply lookup_weaken.
  - exists []. by split.
  - done.
  - intros b o' _ H. exists o'. split; [by eapply lookup_weaken|by left].
  - intros b c' _ H. exists c'. split; [by eapply lookup_weaken|by left].
  - intros id ct H. exists ct. by split; [|left].
  - rewrite sh_accounts0. split; [done|auto].
Qed.
End Steps.
