(* ===== verification/AcmeTransactions.v ===== *)
(** * The transactions on orders keep the invariant

    Creating an order, settling its challenge, issuing its certificate, ending the issuance
    and giving the order up: each under the conditions a request has established before. *)
From S2P Require Import Prelude GoStrings Sha256 Storage Base64 Jose Attest AcmeTypes AcmeStore AcmeBase AcmeServer AcmeIssue AcmeInv AcmeSteps.

(** ** Transactions *)

Lemma tx_bind_Ok {E A B} (m : tx E A) (k : A → tx E B) w b w' : (m ≫= k) w = (Ok b, w') → ∃ a w1, m w = (Ok a, w1) ∧ k a w1 = (Ok b, w').
Proof. unfold mbind, tx_bind. destruct (m w) as [[a|e] w1]; [eauto|done]. Qed.
Lemma tx_lift_Ok {E A} (r : result aerr A) (w : E * state) a w' : tx_lift r w = (Ok a, w') → r = Ok a ∧ w' = w.
Proof. unfold tx_lift. by intros [= -> ->]. Qed.
Lemma tx_read_Ok {E A} (f : state → result aerr A) (w : E * state) a w' : tx_read f w = (Ok a, w') → f w.2 = Ok a ∧ w' = w.
Proof. unfold tx_read. by intros [= -> ->]. Qed.
Lemma tx_ret_Ok {E A} (a b : A) (w w' : E * state) : (mret a : tx E A) w = (Ok b, w') → b = a ∧ w' = w.
Proof. unfold mret, tx_ret. by intros [= -> ->]. Qed.
Lemma found_Ok {A} (o : option A) a : found o = Ok a → o = Some a.
Proof. destruct o; cbn; congruence. Qed.
Lemma get_Ok {A} (id : bytes) (o : option A) a : (_ ← validID id; found o) = Ok a → o = Some a.
Proof. intros (_ & _ & H)%bind_Ok_inv. by apply found_Ok. Qed.
Lemma nonempty_id id u : validID id = Ok u → id ≠ [].
Proof. unfold validID. intros H%reject_Ok_inv. by bool_hyps. Qed.

(** [go_tx H]: the calls of a transaction that went well. *)
Ltac go_tx H :=
  lazymatch type of H with
  | (_ ≫= _) _ = (Ok _, _) =>
      let a := fresh "a" in let w1 := fresh "w1" in let H1 := fresh "Ht" in
      apply tx_bind_Ok in H; destruct H as (a & w1 & H1 & H); go_tx H1; cbv beta in H; go_tx H
  | tx_lift _ _ = (Ok _, _) =>
      let E := fresh "E" in apply tx_lift_Ok in H; destruct H as [H E]; subst;
      lazymatch type of H with
      | reject _ _ = Ok _ => apply reject_Ok_inv in H; bool_hyps
      | validID _ = Ok _ => apply nonempty_id in H
      | _ => idtac
      end
  | tx_read _ _ = (Ok _, _) => let E := fresh "E" in apply tx_read_Ok in H; destruct H as [H E]; subst; try (apply get_Ok in H)
  | tx_put _ _ = (Ok _, _) => unfold tx_put in H; let E := fresh "E" in pose proof (f_equal snd H) as E; cbn [snd] in E; subst; clear H
  | _ => idtac
  end.

Section Outside.
(** What a transaction leaves outside the store, always or when it fails. *)
Definition leaves (w w' : outside * state) : Prop := log w'.1 = log w.1 ∧ drawn w.1 `prefix_of` drawn w'.1.
Definition tquiet {A} (m : tx outside A) : Prop := ∀ w, leaves w (m w).2.
Definition fquiet {A} (m : tx outside A) : Prop := ∀ w e w', m w = (Err e, w') → leaves w w'.

Lemma leaves_trans w1 w2 w3 : leaves w1 w2 → leaves w2 w3 → leaves w1 w3.
Proof. intros [? ?] [? ?]. split; [congruence|by etrans]. Qed.
Lemma tquiet_fquiet {A} (m : tx outside A) : tquiet m → fquiet m.
Proof. intros H w e w' E. specialize (H w). by rewrite E in H. Qed.
Lemma tquiet_bind {A B} (m : tx outside A) (k : A → tx outside B) : tquiet m → (∀ a, tquiet (k a)) → tquiet (m ≫= k).
Proof. intros Hm Hk w. unfold mbind, tx_bind. specialize (Hm w). destruct (m w) as [[a|e] w1]; [|done]. eapply leaves_trans; [exact Hm|apply Hk]. Qed.
Lemma fquiet_bind {A B} (m : tx outside A) (k : A → tx outside B) : tquiet m → (∀ a, fquiet (k a)) → fquiet (m ≫= k).
Proof.
  intros Hm Hk w e w'. unfold mbind, tx_bind. specialize (Hm w). destruct (m w) as [[a|e1] w1] eqn:E; [|by intros [= -> ->]]. intros H. eapply leaves_trans; [exact Hm|by eapply Hk].
Qed.
Lemma tquiet_lift {A} (r : result aerr A) : tquiet (tx_lift r).
Proof. by intros w. Qed.
Lemma tquiet_read {A} (f : state → result aerr A) : tquiet (tx_read f).
Proof. by intros w. Qed.
Lemma tquiet_put (f : state → state) : tquiet (tx_put f).
Proof. by intros w. Qed.
Lemma tquiet_ret {A} (a : A) : tquiet (mret a).
Proof. by intros w. Qed.

Lemma Update_Ok {A} (fn : tx outside A) w a w' : Update fn w = (Ok a, w') → fn w = (Ok a, w').
Proof. unfold Update. destruct (fn w) as [[?|?] ?]; congruence. Qed.
(** A transaction that fails changes nothing. *)
Lemma Update_Err {A} (fn : tx outside A) w e w' : fquiet fn → Update fn w = (Err e, w') → quiet w w'.
Proof.
  intros Hq. unfold Update. destruct (fn w) as [[a|e1] w1] eqn:E; [done|]. intros [= -> <-]. destruct (Hq _ _ _ E) as [? ?]. done.
Qed.
Lemma UpdateOrder_Ok {A} id (fn : tx outside A) w a w' : UpdateOrder id fn w = (Ok a, w') → fn w = (Ok a, w').
Proof. unfold UpdateOrder. intros H%Update_Ok. go_tx H. done. Qed.
Lemma UpdateOrder_Err {A} id (fn : tx outside A) w e w' : fquiet fn → UpdateOrder id fn w = (Err e, w') → quiet w w'.
Proof. intros H. apply Update_Err, fquiet_bind; [apply tquiet_read|done]. Qed.
End Outside.

Ltac tquiet_step := first [apply tquiet_bind; [|intros ?]|apply tquiet_lift|apply tquiet_read|apply tquiet_put|apply tquiet_ret].

Section Transactions.
Context {env : Acme} (Hfresh : fresh_draws).

Lemma tquiet_now k : tquiet (tx_now k).
Proof. by intros w. Qed.
Lemma tquiet_PutOrder o : tquiet (PutOrder o).
Proof. unfold PutOrder. repeat tquiet_step. Qed.
Lemma tquiet_PutAuthorization a : tquiet (PutAuthorization a).
Proof. unfold PutAuthorization. repeat tquiet_step. Qed.
Lemma tquiet_PutChallenge c : tquiet (PutChallenge c).
Proof. unfold PutChallenge. repeat tquiet_step. Qed.
Lemma tquiet_PutCertificate c : tquiet (PutCertificate c).
Proof. unfold PutCertificate. repeat tquiet_step. Qed.

Lemma PutCertificate_Ok ct (w : world) u w' : PutCertificate ct w = (Ok u, w') → ct_ID ct ≠ [] ∧ w' = (w.1, w.2 <| certs := <[ct_ID ct := ct]> (certs w.2) |>).
Proof. unfold PutCertificate. intros H. go_tx H. done. Qed.
Lemma PutOrder_Ok o (w : world) u w' : PutOrder o w = (Ok u, w') → w' = (w.1, w.2 <| orders := <[o_ID o := o]> (orders w.2) |>).
Proof. unfold PutOrder. intros H. go_tx H. done. Qed.

(** ** Births *)

Lemma NoDup_fmap_eq {A B} (f : A → B) l x y : NoDup (f <$> l) → x ∈ l → y ∈ l → f x = f y → x = y.
Proof.
  intros Hnd Hx Hy E. apply list_elem_of_lookup in Hx as [i Hi]. apply list_elem_of_lookup in Hy as [j Hj].
  assert (i = j) as ->; [|congruence]. eapply NoDup_lookup; [exact Hnd|by rewrite list_lookup_fmap, Hi|]. by rewrite list_lookup_fmap, Hj, E.
Qed.
Lemma birth_order w b b' : Inv w → b ∈ births w → b' ∈ births w → o_ID (b_order b) = o_ID (b_order b') → b = b'.
Proof. intros Hi H H' E. destruct (inv_unique _ Hi) as (Hn & _ & _). by eapply (NoDup_fmap_eq (o_ID ∘ b_order)). Qed.
Lemma birth_authz w b b' : Inv w → b ∈ births w → b' ∈ births w → a_ID (b_authz b) = a_ID (b_authz b') → b = b'.
Proof. intros Hi H H' E. destruct (inv_unique _ Hi) as (_ & Hn & _). by eapply (NoDup_fmap_eq (a_ID ∘ b_authz)). Qed.
Lemma birth_challenge w b b' : Inv w → b ∈ births w → b' ∈ births w → c_ID (b_challenge b) = c_ID (b_challenge b') → b = b'.
Proof. intros Hi H H' E. destruct (inv_unique _ Hi) as (_ & _ & Hn). by eapply (NoDup_fmap_eq (c_ID ∘ b_challenge)). Qed.

(** The rows of an order that is known. *)
Lemma order_row w b o : Inv w → b ∈ births w → orders w.2 !! o_ID (b_order b) = Some o → order_from (b_order b) o.
Proof. intros Hi Hb H. destruct (inv_order _ Hi _ _ H) as (b' & Hb' & E & Hf). by rewrite (birth_order w b b') by done. Qed.
Lemma authz_row w b a : Inv w → b ∈ births w → authzs w.2 !! a_ID (b_authz b) = Some a → authz_from (b_authz b) a.
Proof. intros Hi Hb H. destruct (inv_authz _ Hi _ _ H) as (b' & Hb' & E & Hf). by rewrite (birth_authz w b b') by done. Qed.
Lemma challenge_row w b c : Inv w → b ∈ births w → challenges w.2 !! c_ID (b_challenge b) = Some c →
  challenge_from (b_challenge b) c ∧ (c_Status c = StatusValid → vouched (b_order b) (c_Token c) (c_Attestation c) None).
Proof. intros Hi Hb H. destruct (inv_challenge _ Hi _ _ H) as (b' & Hb' & E & Hf). by rewrite (birth_challenge w b b') by done. Qed.

Lemma pending_neq : StatusReady ≠ StatusPending ∧ StatusProcessing ≠ StatusPending ∧ StatusValid ≠ StatusPending ∧ StatusInvalid ≠ StatusPending ∧
  StatusProcessing ≠ StatusReady ∧ StatusValid ≠ StatusReady ∧ StatusInvalid ≠ StatusReady ∧ StatusInvalid ≠ StatusProcessing ∧ StatusInvalid ≠ StatusValid ∧ StatusProcessing ≠ StatusValid.
Proof. by repeat split. Qed.
Lemma rank_pending : rank StatusPending = 0%nat.
Proof. done. Qed.
Lemma ranks : rank StatusReady = 1%nat ∧ rank StatusProcessing = 2%nat ∧ rank StatusValid = 3%nat ∧ rank StatusInvalid = 4%nat.
Proof. done. Qed.
Lemma rank_moved s : s ≠ StatusPending → (0 < rank s)%nat.
Proof. intros H. unfold rank. rewrite bool_decide_false by done. repeat case_match; lia. Qed.
Lemma order_from_new o : o_Status o = StatusPending → order_from o o.
Proof. intros H. split; try done. rewrite H. by intros [?|?]. Qed.
Lemma authz_from_new a : authz_from a a.
Proof. exists (a_Status a). by destruct a. Qed.
Lemma challenge_from_new c : challenge_from c c.
Proof. by split. Qed.

Lemma registered_log w w' o ct : (∀ e, e ∈ log w.1 → e ∈ log w'.1) → registered w o ct → registered w' o ct.
Proof. intros Hl (der & cert & ? & ? & Hreg & Hrec). exists der, cert. split_and!; [done..| |]; intros Hc; [destruct (Hreg Hc) as [m ?]|destruct (Hrec Hc) as [m ?]]; eauto. Qed.

(** ** A new order *)

Lemma create_order_fquiet v o a c : fquiet (_ ← ClaimIdentifier v (o_ID o); _ ← PutChallenge c; _ ← PutAuthorization a; _ ← PutOrder o; tx_note (OrderCreated o a c)).
Proof.
  apply fquiet_bind; [unfold ClaimIdentifier; repeat tquiet_step|intros _]. apply fquiet_bind; [apply tquiet_PutChallenge|intros _].
  apply fquiet_bind; [apply tquiet_PutAuthorization|intros _]. apply fquiet_bind; [apply tquiet_PutOrder|intros _]. by intros w e w'.
Qed.
Lemma create_order_Ok v o a c w u w' : create_order v o a c w = (Ok u, w') →
  claims w.2 !! v = None ∧ w'.1 = w.1 <| log := OrderCreated o a c :: log w.1 |> ∧
  w'.2 = mkState (accounts w.2) (thumbprints w.2) (<[o_ID o := o]> (orders w.2)) (<[a_ID a := a]> (authzs w.2)) (<[c_ID c := c]> (challenges w.2)) (certs w.2)
           (<[v := o_ID o]> (claims w.2)) (nonces w.2).
Proof.
  intros H%Update_Ok. unfold ClaimIdentifier, PutChallenge, PutAuthorization, PutOrder in H. go_tx H. unfold tx_note in H. injection H as _ <-.
  split; [|done]. cbn in *. match goal with H : reject _ _ = Ok _ |- _ => apply reject_Ok_inv in H; bool_hyps; by apply eq_None_not_Some in H end.
Qed.

Lemma create_order_keeps t v o a c w : Inv w → linked o a c → id_Value (o_Identifier o) = v →
  unused_id t (o_ID o) w → unused_id t (a_ID a) w → unused_id t (c_ID c) w →
  let w' := (create_order v o a c w).2 in Inv w' ∧ G t w w'.
Proof.
  intros Hi Hl Hv [Hdo Ho] [Hda Ha] [Hdc Hc]. destruct (create_order v o a c w) as [[u|e] w'] eqn:E; cbn.
  2:{ apply Update_Err in E; [|apply create_order_fquiet]. split; [by eapply Inv_quiet|by apply quiet_guaranteed]. }
  apply create_order_Ok in E as (Hcl & Eo & Es). set (b := (o, a, c) : birth).
  assert (Hb : births w' = b :: births w) by (unfold births; by rewrite Eo).
  assert (Ht : taken w' = taken w) by (unfold taken; by rewrite Eo).
  assert (Hdr : ∀ t x, drawn_by t w' x ↔ drawn_by t w x) by (intros ? ?; unfold drawn_by; by rewrite Eo).
  assert (Hlog : ∀ e, e ∈ log w'.1 ↔ e = OrderCreated o a c ∨ e ∈ log w.1) by (intros e; rewrite Eo; apply elem_of_cons).
  assert (Hne : ∀ b', b' ∈ births w → o_ID o ≠ o_ID (b_order b') ∧ a_ID a ≠ a_ID (b_authz b') ∧ c_ID c ≠ c_ID (b_challenge b')).
  { intros b' Hb'. specialize (Ho b' Hb'). specialize (Ha b' Hb'). specialize (Hc b' Hb'). rewrite !not_elem_of_cons in Ho, Ha, Hc. naive_solver. }
  split; constructor; rewrite ?Hb, ?Ht, ?Es; cbn [orders authzs challenges certs claims nonces].
  - intros id o1 [[<- <-]|[Hid H]]%lookup_insert_Some.
    + exists b. split_and!; [by left|done|]. by apply order_from_new, Hl.
    + destruct (inv_order _ Hi _ _ H) as (b' & ? & ? & ?). exists b'. split_and!; [by right|done..].
  - intros id a1 [[<- <-]|[Hid H]]%lookup_insert_Some.
    + exists b. split_and!; [by left|done|apply authz_from_new].
    + destruct (inv_authz _ Hi _ _ H) as (b' & ? & ? & ?). exists b'. split_and!; [by right|done..].
  - intros id c1 [[<- <-]|[Hid H]]%lookup_insert_Some.
    + exists b. split_and!; [by left|done|apply challenge_from_new|]. rewrite (ln_challenge _ _ _ Hl). done.
    + destruct (inv_challenge _ Hi _ _ H) as (b' & ? & ? & ? & ?). exists b'. split_and!; [by right|done..].
  - intros b' [->|Hb']%elem_of_cons.
    + split_and!; [done|unfold value_of; cbn; rewrite Hv; apply lookup_insert_eq|]. intros x. cbn. rewrite !elem_of_cons. intros [->|[->|[->|[]%not_elem_of_nil]]]; exists t; by apply Hdr.
    + destruct (inv_birth _ Hi b' Hb') as (? & Hcl' & Hx). split_and!; [done| |intros x; setoid_rewrite Hdr; apply Hx]. rewrite lookup_insert_ne; [done|]. congruence.
  - destruct (inv_unique _ Hi) as (H1 & H2 & H3). cbn. split_and!; (apply NoDup_cons; split; [|done]); intros (b' & E & Hb')%list_elem_of_fmap; destruct (Hne b' Hb') as (? & ? & ?); done.
  - intros v' id [[<- <-]|[Hid H]]%lookup_insert_Some; [exists b; by split_and!; [left|..]|]. destruct (inv_claim _ Hi _ _ H) as (b' & ? & ? & ?). exists b'. split_and!; [by right|done..].
  - intros b' o1 c1 [->|Hb']%elem_of_cons; cbn.
    + rewrite lookup_insert_eq. intros [= <-]. rewrite (ln_order _ _ _ Hl). by intros [? ?].
    + destruct (Hne b' Hb') as (? & _ & ?). rewrite !lookup_insert_ne by done. by eapply inv_settled.
  - intros id ct H. destruct (inv_cert _ Hi id ct H) as (? & ? & [u' ?] & b' & Hb' & ? & ? & Hr & Hor). split_and!; [done..|exists u'; by apply Hdr|].
    exists b'. split_and!; [by right|done..| |].
    + intros Hp. eapply registered_log; [|by apply Hr]. intros e He. apply Hlog. by right.
    + destruct (Hne b' Hb') as (? & _ & ?). by rewrite lookup_insert_ne by done.
  - apply Hi.
  - intros id x H. destruct (inv_account _ Hi id x H) as (? & u' & ?). split; [done|]. exists u'. by apply Hdr.
  - intros v' n H. destruct (inv_nonce _ Hi _ _ H). rewrite Hlog. auto.
  - destruct (inv_taken _ Hi) as (? & H1 & H2). split_and!; [done|..]; intros x; rewrite Hlog; [auto|]. intros [?|?]; [done|]. setoid_rewrite Hdr. by apply H2.
  - exists [OrderCreated o a c]. split; [by rewrite Eo|]. constructor; [|constructor]. cbn. by rewrite !Hdr.
  - by rewrite Eo.
  - intros b' o1 Hb'. destruct (Hne b' Hb') as (? & _ & ?). rewrite lookup_insert_ne by done. intros H'. exists o1. by split; [|left].
  - intros b' c1 Hb'. destruct (Hne b' Hb') as (? & _ & ?). rewrite lookup_insert_ne by done. intros H'. exists c1. by split; [|left].
  - intros id ct H. exists ct. by split; [|left].
  - split; [done|auto].
Qed.

(** ** Rewriting the rows of one order *)

(** The rows of order [b], or some of them, get new values, and it may get a certificate;
    nothing else changes. *)
Record rewrites (b : birth) (w w' : world) (o : Order) (a : Authorization) (c : Challenge) (oct : option Certificate) : Prop := {
  rw_outside : leaves w w';
  rw_orders : orders w'.2 = <[o_ID (b_order b) := o]> (orders w.2);
  rw_authzs : authzs w'.2 = authzs w.2 ∨ authzs w'.2 = <[a_ID (b_authz b) := a]> (authzs w.2);
  rw_challenges : challenges w'.2 = challenges w.2 ∧ (∀ c', challenges w.2 !! c_ID (b_challenge b) = Some c' → c' = c) ∨
                  challenges w'.2 = <[c_ID (b_challenge b) := c]> (challenges w.2);
  rw_certs : certs w'.2 = match oct with Some ct => <[ct_ID ct := ct]> (certs w.2) | None => certs w.2 end;
  rw_claims : claims w'.2 = claims w.2; rw_nonces : nonces w'.2 = nonces w.2; rw_accounts : accounts w'.2 = accounts w.2 }.
(** What the new rows must satisfy: the order and its challenge, and the certificate. *)
Record rows_ok (b : birth) (w w' : world) (o : Order) (a : Authorization) (c : Challenge) : Prop := {
  ro_order : order_from (b_order b) o; ro_authz : authz_from (b_authz b) a; ro_challenge : challenge_from (b_challenge b) c;
  ro_vouched : c_Status c = StatusValid → vouched (b_order b) (c_Token c) (c_Attestation c) None;
  ro_settled : settled (o_Status o) → ∀ c1, challenges w'.2 !! c_ID (b_challenge b) = Some c1 → c_Status c1 = StatusValid;
  ro_order_later : ∃ o1, orders w.2 !! o_ID (b_order b) = Some o1 ∧ order_later o1 o;
  ro_challenge_later : challenges w'.2 = challenges w.2 ∨ ∃ c1, challenges w.2 !! c_ID (b_challenge b) = Some c1 ∧ challenge_later c1 c;
  ro_issued : ∀ id ct, certs w'.2 !! id = Some ct → ct_OrderID ct = o_ID (b_order b) →
    o_CertificateID o = id ∧ (o_Status o = StatusProcessing ∨ o_Status o = StatusValid) }.
Record cert_ok (b : birth) (w w' : world) (ct : Certificate) : Prop := {
  co_ID : ct_ID ct ≠ []; co_drawn : ∃ t, drawn_by t w' (ct_ID ct); co_order : ct_OrderID ct = o_ID (b_order b);
  co_evidence : evidence (b_order b) (c_Token (b_challenge b)) ct; co_registered : PendingRegistration ct = false → registered w' (b_order b) ct;
  co_own : ∀ id ct1, certs w.2 !! id = Some ct1 → (id = ct_ID ct ↔ ct_OrderID ct1 = o_ID (b_order b)) ∧ (id = ct_ID ct → cert_later ct1 ct) }.

Lemma rewrites_keeps t b w w' o a c oct : Inv w → b ∈ births w → rewrites b w w' o a c oct → rows_ok b w w' o a c →
  match oct with Some ct => cert_ok b w w' ct | None => True end → Inv w' ∧ G t w w'.
Proof.
  intros Hi Hb [[El Hd] Es Ea Ec Ect Ecl En Eac] [Hfo Hfa Hfc Hv Hset Hlo Hlc Hiss] Hct.
  assert (Ebi : births w' = births w) by (unfold births; by rewrite El). assert (Et : taken w' = taken w) by (unfold taken; by rewrite El).
  assert (Hch : ∀ b' c1, b' ∈ births w → challenges w'.2 !! c_ID (b_challenge b') = Some c1 →
    b' = b ∧ c1 = c ∨ b' ≠ b ∧ challenges w.2 !! c_ID (b_challenge b') = Some c1).
  { intros b' c1 Hb' H. destruct (decide (c_ID (b_challenge b') = c_ID (b_challenge b))) as [E|E].
    - apply (birth_challenge w) in E as ->; [|done..]. left. destruct Ec as [[Ec Hc]|Ec]; rewrite Ec in H; [auto|]. rewrite lookup_insert_eq in H. naive_solver.
    - right. split; [by intros ->|]. destruct Ec as [[Ec _]|Ec]; rewrite Ec in H; [done|]. by rewrite lookup_insert_ne in H by done. }
  assert (Hor : ∀ b' o1, b' ∈ births w → orders w'.2 !! o_ID (b_order b') = Some o1 →
    b' = b ∧ o1 = o ∨ b' ≠ b ∧ orders w.2 !! o_ID (b_order b') = Some o1).
  { intros b' o1 Hb' H. rewrite Es in H. apply lookup_insert_Some in H as [[E <-]|[E H]]; [apply (birth_order w) in E as <-; auto|]. right. split; [by intros ->|done]. }
  assert (Hold : ∀ id ct1, certs w'.2 !! id = Some ct1 → (∃ ct, oct = Some ct ∧ id = ct_ID ct ∧ ct1 = ct) ∨ certs w.2 !! id = Some ct1).
  { intros id ct1 H. rewrite Ect in H. destruct oct as [ct|]; [|by right]. apply lookup_insert_Some in H as [[<- <-]|[_ H]]; [left; eauto|by right]. }
  assert (Hdr : ∀ u x, drawn_by u w x → drawn_by u w' x) by (intros ? ?; by apply drawn_by_prefix).
  split; constructor; rewrite ?Ebi, ?Et, ?Ecl, ?En, ?Eac, ?El; try inv_same Hi; try done.
  - intros id o1 H. rewrite Es in H. apply lookup_insert_Some in H as [[<- <-]|[E H]]; [eauto|by eapply inv_order].
  - intros id a1 H. destruct Ea as [Ea|Ea]; rewrite Ea in H; [by eapply inv_authz|]. apply lookup_insert_Some in H as [[<- <-]|[E H]]; [eauto|by eapply inv_authz].
  - intros id c1 H. destruct Ec as [[Ec _]|Ec]; rewrite Ec in H; [by eapply inv_challenge|]. apply lookup_insert_Some in H as [[<- <-]|[E H]]; [eauto|by eapply inv_challenge].
  - intros b' Hb'. destruct (inv_birth _ Hi b' Hb') as (? & ? & Hx). split_and!; [done..|]. intros x Hin. destruct (Hx x Hin) as [u Hu]. eauto.
  - intros b' o1 c1 Hb' H1 Hs H2. destruct (Hor _ _ Hb' H1) as [[-> ->]|[Hne H1']]; [by eapply Hset|]. destruct (Hch _ _ Hb' H2) as [[Eb' ->]|[Hne' H2']]; [done|by eapply inv_settled].
  - intros id ct H. destruct (Hold _ _ H) as [(ct1 & -> & -> & ->)|H'].
    + destruct Hct as []. split_and!; [done..|]. exists b. split_and!; [done..|]. intros o1 Hin. destruct (Hor _ _ Hb Hin) as [[_ ->]|[? _]]; [by apply (Hiss _ ct1)|done].
    + destruct (inv_cert _ Hi id ct H') as (Eid & ? & [u ?] & b' & Hb' & Eoid & ? & Hr & Hor'). split_and!; [done..|by eauto|].
      exists b'. split_and!; [done..| |].
      * intros Hp. eapply registered_log; [|by apply Hr]. by rewrite El.
      * intros o1 Hin. destruct (Hor _ _ Hb' Hin) as [[-> ->]|[Hne Hin']]; [|by apply Hor']. by apply (Hiss _ ct).
  - intros i j ct ct' H1 H2 E. destruct (Hold _ _ H1) as [(x & -> & -> & ->)|H1'], (Hold _ _ H2) as [(y & Ey & -> & ->)|H2']; simplify_eq; try done.
    + symmetry. apply (co_own _ _ _ _ Hct _ _ H2'). rewrite <-E. apply Hct.
    + apply (co_own _ _ _ _ Hct _ _ H1'). rewrite E. apply Hct.
    + by eapply inv_one_cert.
  - intros id x H. destruct (inv_account _ Hi id x H) as (? & u & ?). eauto.
  - destruct (inv_taken _ Hi) as (? & ? & Hx). split_and!; [done..|]. intros v Hin. destruct (Hx v Hin) as [u Hu]. eauto.
  - by exists [].
  - intros b' o1 Hb' H1. destruct (Hor _ _ Hb' H1) as [[-> ->]|[Hne H1']]; [done|]. exists o1. by split; [|left].
  - intros b' c1 Hb' H1. destruct (Hch _ _ Hb' H1) as [[-> ->]|[Hne H1']]; [|exists c1; by split; [|left]].
    destruct Hlc as [E|?]; [|done]. rewrite E in H1. exists c. by split; [|left].
  - intros id ct H. rewrite Ect. destruct oct as [ct'|]; [|exists ct; by split; [|left]]. destruct (decide (id = ct_ID ct')) as [->|Hne].
    + exists ct'. split; [apply lookup_insert_eq|]. by eapply (co_own _ _ _ _ Hct).
    + exists ct. rewrite lookup_insert_ne by done. by split; [|left].
  - split; [done|auto].
Qed.

Lemma no_cert w b o : Inv w → b ∈ births w → orders w.2 !! o_ID (b_order b) = Some o → o_Status o ≠ StatusProcessing → o_Status o ≠ StatusValid →
  ∀ id ct, certs w.2 !! id = Some ct → ct_OrderID ct ≠ o_ID (b_order b).
Proof.
  intros Hi Hb Ho H1 H2 id ct Hct E. destruct (inv_cert _ Hi _ _ Hct) as (_ & _ & _ & b' & Hb' & E' & _ & _ & Hor).
  assert (b' = b) as -> by (eapply birth_order; [done..|congruence]). destruct (Hor o Ho) as [_ [?|?]]; done.
Qed.

(** ** Settling a challenge *)

Lemma save_triple_tquiet c a o : tquiet (
    current ← tx_read (GetOrder (o_ID o));
    currentAuthz ← tx_read (GetAuthorization (o_AuthzID current));
    currentChallenge ← tx_read (GetChallenge (a_ChallengeID currentAuthz));
    if bool_decide (o_Status current ≠ StatusPending) || bool_decide (a_Status currentAuthz ≠ StatusPending)
       || bool_decide (c_Status currentChallenge ≠ StatusPending)
    then mret (false, (currentChallenge, currentAuthz, current))
    else
      _ ← PutChallenge c;
      _ ← PutAuthorization a;
      _ ← PutOrder o;
      mret (true, (c, a, o))).
Proof. repeat first [tquiet_step|case_match|apply tquiet_PutChallenge|apply tquiet_PutAuthorization|apply tquiet_PutOrder]. Qed.

Lemma save_triple_keeps t b o c' a' o' w : Inv w → saw_order b o w → o_ID o' = o_ID (b_order b) →
  authz_from (b_authz b) a' → challenge_from (b_challenge b) c' → c_Status c' ≠ StatusPending →
  (c_Status c' = StatusValid → vouched (b_order b) (c_Token c') (c_Attestation c') None) → (settled (o_Status o') → c_Status c' = StatusValid) →
  (o = b_order b → order_from (b_order b) o' ∧ o_Status o' ≠ StatusPending) →
  let w' := (save_triple_tx c' a' o' w).2 in Inv w' ∧ G t w w'.
Proof.
  intros Hi (Hb & Hfo & Hlo) Eo Hfa Hfc Hnp Hv Hs Ho'. destruct (save_triple_tx c' a' o' w) as [[r|e] w'] eqn:E; cbn.
  2:{ apply UpdateOrder_Err in E; [|apply tquiet_fquiet, save_triple_tquiet]. split; [by eapply Inv_quiet|by apply quiet_guaranteed]. }
  apply UpdateOrder_Ok in E. go_tx E. rename a into cur, a0 into cura, a1 into curc. rewrite Eo in Ht.
  destruct (_ || _) eqn:Ec; [injection E as _ <-; split; [done|by apply quiet_guaranteed]|]. bool_hyps.
  assert (Hcur : order_from (b_order b) cur) by (by eapply order_row). assert (cur = b_order b) as -> by (by apply Hcur).
  destruct (inv_birth _ Hi b Hb) as (Hl & _ & _). rewrite (ln_oa _ _ _ Hl) in Ht0.
  destruct (authz_row _ _ _ Hi Hb Ht0) as [st ->]. change (a_ChallengeID _) with (a_ChallengeID (b_authz b)) in Ht1. rewrite (ln_ac _ _ _ Hl) in Ht1.
  assert (o = b_order b) as ->.
  { destruct (Hlo _ Ht) as [?|Hr]; [done|]. rewrite (ln_order _ _ _ Hl), rank_pending in Hr. lia. }
  destruct (Ho' eq_refl) as [Hfo' Hnp']. unfold PutChallenge, PutAuthorization, PutOrder in E. go_tx E. injection E as _ <-.
  eapply (rewrites_keeps t b w _ o' a' c' None); [done..| | |done]; split; try done; cbn.
  - by rewrite <-Eo.
  - right. destruct Hfa as [? ->]. done.
  - right. by rewrite <-(cf_ID _ _ Hfc).
  - intros Hset c1 H2. rewrite <-(cf_ID _ _ Hfc) in H2. rewrite lookup_insert_eq in H2. injection H2 as <-. by apply Hs.
  - exists (b_order b). split; [done|]. right. rewrite (ln_order _ _ _ Hl), rank_pending. by apply rank_moved.
  - right. exists curc. split; [done|]. by right.
  - intros id ct Hct E. exfalso. eapply (no_cert w b); [done|done|exact Ht| | |exact Hct|exact E]; by rewrite (ln_order _ _ _ Hl).
Qed.

(** The challenge of an order whose rows a transaction does not write. *)
Definition its_challenge (w : world) (b : birth) : Challenge := default (b_challenge b) (challenges w.2 !! c_ID (b_challenge b)).
Lemma its_challenge_ok w b : Inv w → b ∈ births w → challenge_from (b_challenge b) (its_challenge w b) ∧
  (c_Status (its_challenge w b) = StatusValid → vouched (b_order b) (c_Token (its_challenge w b)) (c_Attestation (its_challenge w b)) None) ∧
  (∀ c, challenges w.2 !! c_ID (b_challenge b) = Some c → c = its_challenge w b).
Proof.
  intros Hi Hb. unfold its_challenge. destruct (challenges w.2 !! _) as [c|] eqn:E; cbn.
  - destruct (challenge_row _ _ _ Hi Hb E). split_and!; [done..|]. congruence.
  - split_and!; [apply challenge_from_new| |done]. destruct (inv_birth _ Hi b Hb) as (Hl & _). by rewrite (ln_challenge _ _ _ Hl).
Qed.

(** ** Giving an order up *)

Lemma settle_order_keeps t b o p w : Inv w → saw_order b o w → o_Status o = StatusReady ∨ o_Status o = StatusProcessing →
  let w' := (settle_order_tx o p w).2 in Inv w' ∧ G t w w'.
Proof.
  intros Hi (Hb & Hfo & Hlo) Hst. destruct (settle_order_tx o p w) as [[r|e] w'] eqn:E; cbn.
  2:{ apply UpdateOrder_Err in E; [split; [by eapply Inv_quiet|by apply quiet_guaranteed]|]. apply tquiet_fquiet. repeat first [tquiet_step|case_match|apply tquiet_PutOrder]. }
  apply UpdateOrder_Ok in E. go_tx E. rename a into cur. rewrite (of_ID _ _ Hfo) in Ht.
  destruct (_ || _) eqn:Ec; [injection E as _ <-; split; [done|by apply quiet_guaranteed]|]. bool_hyps.
  assert (Hcur : order_from (b_order b) cur) by (by eapply order_row).
  assert (o_Status cur = StatusReady) as Hr by (destruct Hst; [congruence|]; exfalso; apply (of_issued _ _ Hcur); [left; congruence|done]).
  unfold PutOrder in E. go_tx E. destruct (its_challenge_ok w b Hi Hb) as (Hf & Hv & Hc). destruct pending_neq as (? & ? & ? & ? & ? & ? & ? & ? & ? & ?).
  eapply (rewrites_keeps t b w _ (cur <| o_Status := StatusInvalid |> <| o_Error := Some p |>) (b_authz b) (its_challenge w b) None); [done..| | |done].
  - split; try done; cbn; [by rewrite <-(of_ID _ _ Hcur)|by left|left; auto].
  - split; try done.
    + destruct Hcur. split; try done. intros [E'|E']; by exfalso; revert E'.
    + apply authz_from_new.
    + intros [_ E']. by exfalso; apply E'.
    + exists cur. split; [done|]. right. rewrite Hr. change (rank StatusReady < rank StatusInvalid)%nat. destruct ranks as (-> & _ & _ & ->). lia.
    + by left.
    + intros id ct Hct E'. exfalso. eapply (no_cert w b); [done|done|exact Ht| | |exact Hct|exact E']; by rewrite Hr.
Qed.

(** ** Issuing *)

(** What the key check finds: no binding is compared here. *)
Definition checked (o : Order) (token raw : bytes) (key : PublicKey) : Prop :=
  (∃ a, attests token raw (Some key) a ∧ allowed o (Some a)) ∨ (unattested raw (ParseObject raw) = true ∧ excused o).
(** The binding was compared when the challenge was settled, on the same attestation. *)
Lemma checked_vouched o token raw key : vouched o token raw None → checked o token raw key → vouched o token raw (Some key).
Proof.
  intros [(a & (Hu & Hp & _) & Hm & _)|[Hu _]] [(a' & (Hu' & Hp' & Hv) & Ha)|[Hu' He]]; [|congruence..|by right].
  left. exists a. assert (a' = a) as -> by congruence. by split_and!; [split_and!|..].
Qed.

Lemma order_from_same o0 o : order_from o0 o → issuanceProvenance o = issuanceProvenance o0 ∧ (∀ at_, receipt_policy o at_ = receipt_policy o0 at_) ∧
  (∀ a, matchBinding o a = matchBinding o0 a).
Proof.
  intros H. unfold issuanceProvenance, receipt_policy, matchBinding. by rewrite (of_AccountID _ _ H), (of_Identifier _ _ H), (of_Binding _ _ H).
Qed.

Lemma signReceipt_tquiet t o csr c : tquiet (signReceipt t o csr c).
Proof.
  unfold signReceipt. repeat first [tquiet_step|apply tquiet_now].
  - by intros w.
  - intros w. unfold newID. destruct (draw_bytes 16 t w) as [[b|] w'] eqn:E; cbn; pose proof (quiet_draw 16 t w) as (_ & ? & ?); by rewrite E in *.
Qed.
Lemma signReceipt_Ok t o csr c w ct w' : Inv w → signReceipt t o csr c w = (Ok ct, w') → ∃ policy cert,
  receipt_policy o (Clock (moment w.1) 1) = Ok policy ∧ Signer_Sign (moment w.1) (issuanceProvenance o) csr policy = Ok cert ∧
  w'.2 = w.2 ∧ leaves w w' ∧ drawn_by t w' (ct_ID ct) ∧ (∀ u, ¬ drawn_by u w (ct_ID ct)) ∧
  ct_OrderID ct = o_ID o ∧ ct_AccountID ct = o_AccountID o ∧ ChainPEM ct = encodeChain cert Signer_Chain ∧ ct_Binding ct = o_Binding o ∧
  PendingRegistration ct = true ∧ ct_Device ct = match ParseObject (c_Attestation c) with Ok a => at_Properties a | Err _ => noProperties end.
Proof.
  intros Hi H. pose proof (signReceipt_tquiet t o csr c w) as Hq. rewrite H in Hq. unfold signReceipt in H. go_tx H.
  unfold tx_now in Ht. injection Ht as <- <-. injection Ht1 as Hs <-. unfold tx_now in Ht3. injection Ht3 as <- <-. injection H as <- <-.
  unfold newID in Ht2. destruct (draw_bytes 16 t w) as [[b|] w1] eqn:E; cbn in Ht2; [|done]. injection Ht2 as <- <-.
  destruct (Signer_Sign _ _ _ _) as [cert|[]] eqn:Es; [|done..]. injection Hs as <-.
  exists a0, cert. unfold draw_bytes in E. injection E as Eb <-. cbn in *. split_and!; try done.
  - exists (length (drawn w.1)). split; [apply list_lookup_middle; done|]. by exists 16%nat, b.
  - intros u (j & Hl & Ha). assert (j = length (drawn w.1)) as -> by (eapply drawn_at_inj; [done|done|]; by exists 16%nat, b). apply lookup_lt_Some in Hl. lia.
Qed.

(** The receipt of a ready order, in its transaction. *)
Lemma receipt_keeps t b w w1 cur stored csr ct hash : Inv w → b ∈ births w → orders w.2 !! o_ID (b_order b) = Some cur → o_Status cur = StatusReady →
  challenges w.2 !! c_ID (b_challenge b) = Some stored → c_Status stored = StatusValid →
  checked (b_order b) (c_Token stored) (c_Attestation stored) (csr_PublicKey csr) → csr_Valid csr = true →
  signReceipt t cur csr stored w = (Ok ct, w1) → ct_ID ct ≠ [] →
  let cur' := cur <| o_Status := StatusProcessing |> <| o_CSRHash := hash |> <| o_CertificateID := ct_ID ct |> <| o_Error := None |> in
  let w' := (w1.1, w1.2 <| certs := <[ct_ID ct := ct]> (certs w1.2) |> <| orders := <[o_ID (b_order b) := cur']> (orders w1.2) |>) in
  Inv w' ∧ G t w w' ∧ saw_order b cur' w' ∧ saw_cert ct w'.
Proof.
  intros Hi Hb Hcur Hr Hst Hsv Hck Hcsr Hsig Hne cur' w'.
  apply signReceipt_Ok in Hsig as (policy & cert & Hpol & Hsign & Es & Hlv & Hdr & Hnew & Eo & Ea & Ech & Ebd & Epr & Edev); [|done].
  assert (Hf : order_from (b_order b) cur) by (by eapply order_row). destruct (order_from_same _ _ Hf) as (Epv & Epol & _).
  destruct (challenge_row _ _ _ Hi Hb Hst) as [Hfc Hv].
  assert (Hf' : order_from (b_order b) cur') by (destruct Hf; split; done).
  assert (Hnc := no_cert w b cur Hi Hb Hcur). rewrite Hr in Hnc. specialize (Hnc ltac:(done) ltac:(done)).
  assert (Hfr : certs w.2 !! ct_ID ct = None).
  { destruct (certs w.2 !! ct_ID ct) as [x|] eqn:E; [|done]. destruct (inv_cert _ Hi _ _ E) as (_ & _ & [u Hu] & _). by apply Hnew in Hu. }
  assert (Inv w' ∧ G t w w') as [? ?].
  { eapply (rewrites_keeps t b w w' cur' (b_authz b) stored (Some ct)); [done|done|..].
    - destruct w1 as [x1 s1]. cbn in Es. subst s1. split; try done; [by left|]. left. split; [done|]. cbn. congruence.
    - destruct w1 as [x1 s1]. cbn in Es. subst s1. split; try done.
      + apply authz_from_new.
      + intros _ c1 Hc1. change (challenges w.2 !! c_ID (b_challenge b) = Some c1) in Hc1. congruence.
      + exists cur. split; [done|]. right. rewrite Hr. change (rank StatusReady < rank StatusProcessing)%nat. destruct ranks as (-> & -> & _). lia.
      + by left.
      + intros id ct1 Hct1 E1. change (<[ct_ID ct := ct]> (certs w.2) !! id = Some ct1) in Hct1. apply lookup_insert_Some in Hct1 as [[<- <-]|[_ H1]]; [split; [done|by left]|]. by apply Hnc in H1.
    - split; try done.
      + by exists t.
      + rewrite Eo. apply Hf.
      + exists (c_Attestation stored), csr, (moment w.1), policy, cert. rewrite <-Epol, <-Epv. split_and!; try done; [|rewrite Ea; apply Hf|rewrite Ebd; apply Hf].
        rewrite <-(cf_Token _ _ Hfc). apply checked_vouched; [by apply Hv|done].
      + congruence.
      + intros id ct1 H1. split; [split|]; [intros ->; congruence|by intros ?%(Hnc _ _ H1)|intros ->; congruence]. }
  split_and!; [done..| |].
  - split_and!; [by eapply births_grow|done|]. intros o' Ho'. change (<[o_ID (b_order b) := cur']> (orders w1.2) !! o_ID (b_order b) = Some o') in Ho'. rewrite lookup_insert_eq in Ho'. injection Ho' as <-. by left.
  - exists ct. split; [|by left]. apply lookup_insert_eq.
Qed.

Lemma Update_fails t {A} (fn : tx outside A) id w e w' : Inv w → tquiet fn → UpdateOrder id fn w = (Err e, w') → Inv w' ∧ G t w w'.
Proof. intros Hi Hq H%UpdateOrder_Err; [|by apply tquiet_fquiet]. split; [by eapply Inv_quiet|by apply quiet_guaranteed]. Qed.

Lemma saw_current b w o : Inv w → b ∈ births w → orders w.2 !! o_ID (b_order b) = Some o → saw_order b o w.
Proof. intros Hi Hb H. split_and!; [done|by eapply order_row|]. intros o' H'. left. congruence. Qed.

Lemma issue_keeps t b o c cK csr w : Inv w → saw_order b o w → saw_challenge b cK w → c_Status cK = StatusValid →
  checked (b_order b) (c_Token cK) (c_Attestation cK) (csr_PublicKey csr) → csr_Valid csr = true →
  let r := issue_tx t o c csr w in Inv r.2 ∧ G t w r.2 ∧ ∀ o' ct, r.1 = Ok (o', ct) → saw_order b o' r.2 ∧ saw_cert ct r.2.
Proof.
  intros Hi (Hb & Hfo & Hlo) (_ & Hfc & Hlc) Hcv Hck Hcsr. destruct (issue_tx t o c csr w) as [[[o' ct]|e] w'] eqn:E; cbv zeta; cbn [fst snd].
  2:{ eapply (Update_fails t) in E; [destruct E; split_and!; done|done|]. repeat first [progress cbv zeta|apply tquiet_now|apply signReceipt_tquiet|apply tquiet_PutOrder|apply tquiet_PutCertificate|tquiet_step|case_match]. }
  unfold issue_tx in E. cbv zeta in E. set (hash := hex_EncodeToString _) in E. clearbody hash. apply UpdateOrder_Ok in E. go_tx E. rename a into cur.
  rewrite (of_ID _ _ Hfo) in Ht. cbv beta in E. destruct (_ || _ || _ || _) in E; [done|].
  destruct (bool_decide (o_Status cur = StatusValid) || _) eqn:Est.
  { go_tx E. injection E as <- <- <-. split_and!; [done|by apply quiet_guaranteed|]. intros o' ct [= <- <-]. split; [by apply saw_current|]. exists a1. split; [|by left].
    destruct (inv_cert _ Hi _ _ Ht2) as (-> & _). done. }
  go_tx E. unfold tx_now in Ht1. injection Ht1 as <- <-.
  destruct (inv_birth _ Hi b Hb) as (Hl & _ & _). assert (Hf : order_from (b_order b) cur) by (by eapply order_row).
  rewrite (of_AuthzID _ _ Hf), (ln_oa _ _ _ Hl) in Ht3. destruct (authz_row _ _ _ Hi Hb Ht3) as [st ->].
  change (a_ChallengeID _) with (a_ChallengeID (b_authz b)) in Ht4. rewrite (ln_ac _ _ _ Hl) in Ht4.
  rename a3 into stored. assert (cK = stored) as ->.
  { destruct (Hlc _ Ht4) as [?|[Hp _]]; [done|]. rewrite Hcv in Hp. by destruct pending_neq as (_ & _ & ? & _). }
  cbv zeta in E. go_tx E. apply tx_ret_Ok in E as [Er ->]. apply PutCertificate_Ok in Ht6 as [Hne ->]. apply PutOrder_Ok in Ht7 as ->.
  change (o_ID (_ <| o_Error := None |>)) with (o_ID cur). rewrite (of_ID _ _ Hf).
  destruct (receipt_keeps t b w w0 cur stored csr a5 hash) as (? & ? & ? & ?); [done..|].
  split_and!; [done..|]. intros o1 ct1 E1%Ok_inv. rewrite Er in E1. pose proof (f_equal fst E1) as E2. pose proof (f_equal snd E1) as E3. cbn [fst snd] in E2, E3. by subst o1 ct1.
Qed.

(** ** Ending an issuance *)

Lemma store_receipt_keeps t b o ct w : Inv w → saw_order b o w → saw_cert ct w → ct_OrderID ct = o_ID o → registered w (b_order b) ct →
  let r := store_receipt_tx o ct w in Inv r.2 ∧ G t w r.2.
Proof.
  intros Hi (Hb & Hfo & Hlo) (ct1 & Hct1 & Hcl) Eor Hreg. destruct (store_receipt_tx o ct w) as [[[o' ch]|e] w'] eqn:E; cbn.
  2:{ eapply (Update_fails t) in E; [done|done|]. repeat first [progress cbv zeta|apply tquiet_now|apply tquiet_PutOrder|apply tquiet_PutCertificate|tquiet_step|case_match]. }
  apply UpdateOrder_Ok in E. go_tx E. rename a into cur. rewrite (of_ID _ _ Hfo) in Ht. bool_hyps.
  destruct (bool_decide (o_Status cur = StatusValid)) eqn:Est; [injection E as _ _ <-; split; [done|by apply quiet_guaranteed]|]. bool_hyps.
  cbv zeta in E. go_tx E. unfold tx_now in Ht1, Ht3. injection Ht1 as _ <-. injection Ht3 as _ <-.
  apply tx_ret_Ok in E as [_ ->]. apply PutCertificate_Ok in Ht5 as [Hne ->]. apply PutOrder_Ok in Ht6 as ->.
  assert (Hf : order_from (b_order b) cur) by (by eapply order_row). assert (Hset : settled (o_Status cur)) by (by rewrite Ht0).
  destruct (inv_cert _ Hi _ _ Hct1) as (Eid & _ & Hdr & b1 & Hb1 & Eo1 & Hev & _ & _).
  assert (Hsame : ct1 <| PendingRegistration := false |> = ct <| PendingRegistration := false |>) by (by destruct Hcl as [->| ->]; destruct ct).
  assert (b1 = b) as ->. { eapply birth_order; [done..|]. rewrite <-Eo1, <-(of_ID _ _ Hfo), <-Eor. by destruct Hcl as [->| ->]. }
  destruct (its_challenge_ok w b Hi Hb) as (Hfc & Hv & Hc).
  change (o_ID (cur <| o_Status := _ |>)) with (o_ID cur). rewrite (of_ID _ _ Hf). rewrite <-Hsame in *.
  assert (Hown : ∀ id ct2, certs w.2 !! id = Some ct2 → ct_OrderID ct2 = o_ID (b_order b) → id = ct_ID ct).
  { intros id ct2 H2 E2. eapply (inv_one_cert _ Hi); [exact H2|exact Hct1|congruence]. }
  eapply (rewrites_keeps t b w _ (cur <| o_Status := StatusValid |>) (b_authz b) (its_challenge w b) (Some (ct1 <| PendingRegistration := false |>))); [done|done|..].
  - split; try done; [by left|]. left. auto.
  - split; try done.
    + destruct Hf. split; try done. intros _. change (o_CertificateID cur ≠ []). rewrite H. change (ct_ID ct1 ≠ []) in Hne. congruence.
    + apply authz_from_new.
    + intros _ c1 Hc1. change (challenges w.2 !! c_ID (b_challenge b) = Some c1) in Hc1. by eapply (inv_settled _ Hi b).
    + exists cur. split; [done|]. right. rewrite Ht0. change (rank StatusProcessing < rank StatusValid)%nat. destruct ranks as (_ & -> & -> & _). lia.
    + by left.
    + intros id ct2 H2 E2. change (<[ct_ID ct1 := ct1 <| PendingRegistration := false |>]> (certs w.2) !! id = Some ct2) in H2.
      split; [|by right]. change (o_CertificateID cur = id). rewrite H. apply lookup_insert_Some in H2 as [[<- <-]|[_ H2]]; [congruence|]. symmetry. by eapply Hown.
  - split; try done.
    + destruct Hdr as [u Hu]. exists u. change (drawn_by u w (ct_ID ct1)). congruence.
    + intros _. destruct Hreg as (der & cert & H1 & H2 & ? & ?). exists der, cert. split_and!; [|done..]. change (pem_Decode (ChainPEM ct1) = Some der). rewrite <-H1. by destruct Hcl as [->| ->].
    + intros id ct2 H2. change (ct_ID (ct1 <| PendingRegistration := false |>)) with (ct_ID ct1). rewrite Eid. split; [split|].
      * intros ->. simplify_eq. done.
      * intros E2. by eapply Hown.
      * intros ->. simplify_eq. by right.
Qed.
End Transactions.
