(* ===== verification/AcmeHandlers.v ===== *)
(** * The handlers, one by one

    What each handler of the ACME server establishes, whatever other requests do meanwhile. *)
From S2P Require Import Prelude GoStrings Storage Sha256 Json Base64 Jose Attest AcmeTypes AcmeStore AcmeBase AcmeServer AcmeIssue AcmeInv AcmeSteps AcmeTransactions.

(** ** Every request keeps the invariant

    The handlers in the logic of [AcmeInv]: what each establishes while any other requests
    run, and what its response says. *)

Section Rules.
Context {env : Acme} (Hfresh : fresh_draws) (t : nat).

(** A program that fails promises nothing else. *)
Definition post {A} (Q : A → world → Prop) : result Problem A → world → Prop := λ r w, match r with Ok a => Q a w | Err _ => True end.
Definition hoare {A} (P : world → Prop) (p : prog A) (Q : A → world → Prop) : Prop := triple Inv G t P p (post Q).
Notation stable := (Stable Inv G t).
Notation persistent := (Persistent Inv G).

(** ** Rules *)

Lemma h_ret {A} P (a : A) (Q : A → world → Prop) : (∀ w, Inv w → P w → Q a w) → hoare P (Ret a) Q.
Proof. intros H w Hi HP. cbn. auto. Qed.
Lemma h_fail {A} P e (Q : A → world → Prop) : hoare P (Fail e) Q.
Proof. by intros w Hi HP. Qed.
Lemma h_pre {A} (P P' : world → Prop) (p : prog A) Q : (∀ w, Inv w → P' w → P w) → hoare P p Q → hoare P' p Q.
Proof. intros H Hp w Hi HP. apply Hp; auto. Qed.
Lemma h_post {A} P (p : prog A) (Q Q' : A → world → Prop) : (∀ a w, Q a w → Q' a w) → hoare P p Q → hoare P p Q'.
Proof. intros H Hp. eapply triple_post; [|exact Hp]. intros [a|e] w; cbn; auto. Qed.
Lemma h_exist {A B} (P : B → world → Prop) (p : prog A) Q : (∀ x, hoare (P x) p Q) → hoare (λ w, ∃ x, P x w) p Q.
Proof. intros H w Hi [x HP]. by eapply H. Qed.
Lemma h_pure {A} (φ : Prop) P (p : prog A) Q : (φ → hoare P p Q) → hoare (λ w, φ ∧ P w) p Q.
Proof. intros H w Hi [? ?]. by apply H. Qed.
(** A program before another, with the facts that last through it. *)
Lemma h_bind {A B} F P R (p : prog A) (k : A → prog B) Q : persistent F → hoare P p R → (∀ a, hoare (λ w, F w ∧ R a w) (k a) Q) → hoare (λ w, F w ∧ P w) (p ≫= k) Q.
Proof. intros HF Hp Hk. eapply (triple_bind Inv G t F P p k (post R)); [exact HF|exact Hp|exact Hk|done]. Qed.
Lemma h_frame {A} F P R (p : prog A) : persistent F → hoare P p R → hoare (λ w, F w ∧ P w) p (λ a w, F w ∧ R a w).
Proof.
  intros HF Hp w Hi [HFw HPw]. eapply (sat_mono Inv G); [|eapply (sat_frame Inv G t F); [done|done|by apply Hp]]. intros [x|] w' [[? ?] ?]; cbn; auto.
Qed.
Lemma h_then {A B} F R (p : prog A) (k : A → prog B) Q : persistent F → hoare (λ _, True) p R → (∀ a, hoare (λ w, F w ∧ R a w) (k a) Q) → hoare F (p ≫= k) Q.
Proof. intros HF Hp Hk. eapply h_pre; [|by eapply (h_bind F (λ _, True))]. done. Qed.
Lemma h_attempt {A B} F P R (p : prog A) (k : result Problem A → prog B) Q : persistent F → hoare P p R →
  (∀ a, hoare (λ w, F w ∧ R a w) (k (Ok a)) Q) → (∀ e, hoare F (k (Err e)) Q) → hoare (λ w, F w ∧ P w) (attempt p ≫= k) Q.
Proof.
  intros HF Hp Hk He. eapply (triple_bind Inv G t F P _ _ (λ r w, match r with Ok (Ok a) => R a w | _ => True end)).
  - exact HF.
  - apply triple_attempt. exact Hp.
  - intros [a|e]; [apply Hk|]. eapply triple_pre; [|apply He]. by intros w [? _].
  - done.
Qed.

Lemma h_guard {A} P b kind (k : prog A) Q : (b = false → hoare P k Q) → hoare P (guard b kind ≫= λ _, k) Q.
Proof. unfold guard. destruct b; intros H; [apply h_fail|]. by apply H. Qed.
Lemma h_got {A B} P (r : result aerr A) (k : A → prog B) Q : (∀ a, r = Ok a → hoare P (k a) Q) → hoare P (got r ≫= k) Q.
Proof. destruct r; intros H; [by apply H|apply h_fail]. Qed.
Lemma h_found {A B} P kind (r : result aerr A) (k : A → prog B) Q : (∀ a, r = Ok a → hoare P (k a) Q) → hoare P (found_or kind r ≫= k) Q.
Proof. destruct r as [a|[]]; intros H; [by apply H|apply h_fail..]. Qed.
Lemma h_lift {A B} P (r : result Problem A) (k : A → prog B) Q : (∀ a, r = Ok a → hoare P (k a) Q) → hoare P (lift r ≫= k) Q.
Proof. destruct r; intros H; [by apply H|apply h_fail]. Qed.

(** *** Actions *)

Lemma h_act {A X} P (R : X → world → Prop) (f : nat → world → X * world) (k : X → prog A) Q : stable P → (∀ x, stable (R x)) →
  (∀ w, Inv w → P w → Inv (f t w).2 ∧ G t w (f t w).2 ∧ R (f t w).1 (f t w).2) → (∀ x, hoare (R x) (k x) Q) → hoare P (do f ≫= k) Q.
Proof.
  intros HP HR Hf Hk. change (hoare P (Act f (λ x, k x)) Q). eapply triple_act; [exact HP| |exact Hk].
  intros w Hi Hw. apply keeps_tick; [apply HR|]. by apply Hf.
Qed.
(** An action that changes something, with the facts that last through it. *)
Lemma h_noisy {A X} F P (R : X → world → Prop) (f : nat → world → X * world) (k : X → prog A) Q : persistent F → stable P → (∀ x, stable (R x)) →
  (∀ w, Inv w → F w → P w → Inv (f t w).2 ∧ G t w (f t w).2 ∧ R (f t w).1 (f t w).2) → (∀ x, hoare (λ w, F w ∧ R x w) (k x) Q) →
  hoare (λ w, F w ∧ P w) (do f ≫= k) Q.
Proof.
  intros HF HP HR Hf Hk. eapply (h_act _ (λ x w, F w ∧ R x w)); [apply _|intros x; apply _| |exact Hk].
  intros w Hi [HFw HPw]. destruct (Hf w Hi HFw HPw) as (Hi' & Hg & HRw). split_and!; [done..| |done]. by apply (HF t w).
Qed.
(** An action that changes neither the store nor the record. *)
Lemma h_quiet {A X} P (R : X → world → Prop) (f : nat → world → X * world) (k : X → prog A) Q : stable P → (∀ x, stable (R x)) →
  (∀ w, quiet w (f t w).2) → (∀ w, Inv w → P w → R (f t w).1 (f t w).2) → (∀ x, hoare (λ w, P w ∧ R x w) (k x) Q) → hoare P (do f ≫= k) Q.
Proof.
  intros HP HR Hq HRf Hk. eapply (h_act _ (λ x w, P w ∧ R x w)); [apply _|intros x; apply _| |exact Hk].
  intros w Hi Hw. assert (Inv (f t w).2) as Hi' by (by (eapply Inv_quiet; [apply Hq|done])). split_and!; [done|by apply quiet_guaranteed| |by apply HRf]. apply (HP w); [done..| |done]. by right.
Qed.
Lemma h_read {A X} P (R : X → world → Prop) (f : state → result aerr X) (k : result aerr X → prog A) Q : stable P → (∀ x, stable (R x)) →
  (∀ w x, Inv w → P w → f w.2 = Ok x → R x w) → (∀ r, hoare (λ w, P w ∧ match r with Ok x => R x w | Err _ => True end) (k r) Q) → hoare P (read f ≫= k) Q.
Proof.
  intros HP HR Hf Hk. eapply (h_quiet P (λ r w, match r with Ok x => R x w | Err _ => True end)); [done|intros [x|e]; [exact (HR x)|apply _]|done| |exact Hk].
  intros w Hi Hw. cbn. destruct (f w.2) eqn:E; [by eapply Hf|done].
Qed.
Lemma h_moment {A X} P (f : nat → X) (k : X → prog A) Q : stable P → (∀ m, hoare P (k (f m)) Q) → hoare P (at_moment f ≫= k) Q.
Proof.
  intros HP Hk. eapply (h_quiet P (λ x _, ∃ m, x = f m)); [done|intros x; apply _|done|intros w _ _; cbn; eauto|].
  intros x w Hi [HPw [m ->]]. by apply Hk.
Qed.
Lemma h_now {A} P (k : Time → prog A) Q : stable P → (∀ m, hoare P (k (Clock m 0)) Q) → hoare P (now ≫= k) Q.
Proof. apply (h_moment P (λ m, Clock m 0)). Qed.
Lemma h_note {A} P e (k : unit → prog A) Q : persistent P → plain_entry e → hoare (λ w, P w ∧ logged e w) (k tt) Q → hoare P (do (λ _ w, (tt, note e w)) ≫= k) Q.
Proof.
  intros HP He Hk. eapply h_pre; [|eapply (h_noisy P (λ _, True) (λ _ w, logged e w)); [done|apply _|intros; apply _| |intros []; exact Hk]]; [done|].
  intros w Hi _ _. by apply note_keeps.
Qed.
Lemma h_publish P kind subject Q : persistent P → (∀ w, Inv w → P w → Q tt w) → hoare P (publish kind subject) Q.
Proof.
  intros HP HQ. unfold publish. destruct Bus; [|by apply h_ret]. change (do ?f) with (do f ≫= Ret). eapply h_note; [done|done|]. apply h_ret. intros w Hi [? _]. by apply HQ.
Qed.
(** A transaction, with the facts that last through it. *)
Lemma h_transact {A B} F P (R : A → world → Prop) (fn : nat → tx outside A) (k : result aerr A → prog B) Q : persistent F → stable P → (∀ x, stable (R x)) →
  (∀ w, Inv w → F w → P w → Inv (fn t w).2 ∧ G t w (fn t w).2 ∧ ∀ x, (fn t w).1 = Ok x → R x (fn t w).2) →
  (∀ r, hoare (λ w, F w ∧ match r with Ok x => R x w | Err _ => True end) (k r) Q) → hoare (λ w, F w ∧ P w) (transact fn ≫= k) Q.
Proof.
  intros HF HP HR Hf Hk. eapply (h_noisy F P (λ r w, match r with Ok x => R x w | Err _ => True end)); [done|done|intros [x|e]; [exact (HR x)|apply _]| |exact Hk].
  intros w Hi HFw HPw. destruct (Hf w Hi HFw HPw) as (? & ? & HRw). split_and!; [done..|]. destruct (fn t w) as [[x|e] w'] eqn:E; [by apply HRw|done].
Qed.
End Rules.

Section Handlers.
Context {env : Acme} (Hfresh : fresh_draws) (t : nat).
Notation stable := (Stable Inv G t).
Notation persistent := (Persistent Inv G).
Notation hoare := (hoare t).
Notation any := (λ _, True).
Notation anything := (λ _ _, True).

(** ** What a row says *)

(** The challenge of a settled order is valid from then on. *)
Definition answered (b : birth) (w : world) : Prop :=
  b ∈ births w ∧ ∀ c, challenges w.2 !! c_ID (b_challenge b) = Some c → c_Status c = StatusValid.
#[local] Instance answered_persistent b : persistent (answered b).
Proof.
  intros u w w' _ _ Hg [Hb H]. split; [by eapply births_grow|]. intros c' Hc'. destruct (g_challenge _ _ _ Hg b c' Hb Hc') as (c & Hc & [->|[Hp _]]); [by apply H|].
  rewrite (H c Hc) in Hp. by destruct pending_neq as (_ & _ & ? & _).
Qed.
#[local] Instance registered_persistent o ct : persistent (λ w, registered w o ct).
Proof. intros u w w' _ _ Hg. apply registered_log. intros e. by apply log_grows with u. Qed.
#[local] Instance saw_order_exist_persistent (P : birth → world → Prop) : (∀ b, persistent (P b)) → persistent (λ w, ∃ b, P b w).
Proof. apply _. Qed.

Lemma read_order w id o : Inv w → GetOrder id w.2 = Ok o → ∃ b, saw_order b o w ∧ (settled (o_Status o) → answered b w).
Proof.
  intros Hi H%get_Ok. destruct (inv_order _ Hi _ _ H) as (b & Hb & <- & Hf). exists b. split; [by apply saw_current|]. intros Hs. split; [done|]. intros c Hc. by eapply inv_settled.
Qed.
Lemma read_challenge w b c : Inv w → b ∈ births w → challenges w.2 !! c_ID (b_challenge b) = Some c → saw_challenge b c w.
Proof. intros Hi Hb H. split_and!; [done|by eapply challenge_row|]. intros c' H'. left. congruence. Qed.
Lemma read_certificate w id ct : Inv w → GetCertificate id w.2 = Ok ct → saw_cert ct w ∧ ∃ b, born b w ∧ ct_OrderID ct = o_ID (b_order b) ∧ ct_AccountID ct = o_AccountID (b_order b) ∧
  (PendingRegistration ct = false → registered w (b_order b) ct).
Proof.
  intros Hi H%get_Ok. destruct (inv_cert _ Hi _ _ H) as (E & _ & _ & b & Hb & Eo & Hev & Hr & _). split; [exists ct; rewrite E; by split; [|left]|].
  exists b. split_and!; try done. destruct Hev as (? & ? & ? & ? & ? & ? & ? & ? & ? & ? & ? & ?). done.
Qed.

Lemma decode_spec {A} e (f : bytes → option A) : hoare any (decode e f) anything.
Proof. unfold decode. apply h_guard. intros _. case_match; [by apply h_ret|apply h_fail]. Qed.

(** ** The trust decision *)

Lemma authorize_spec e o a : hoare any (authorize e o a) (λ _ _, allowed o a ∧ (a = None → RequireAttestation (o_Binding o) = false)).
Proof.
  unfold authorize. apply h_guard. intros Hg. apply h_moment; [apply _|]. intros m. destruct (Authorize m (decision e o a)) as [[]|err] eqn:E.
  - apply h_ret. intros w _ _. split; [by exists m, (decision e o a)|]. intros ->. by rewrite andb_false_iff in Hg; destruct Hg.
  - eapply (h_then t any anything); [apply _| |intros []; apply h_fail]. destruct (Terminal _); [by apply h_publish; [apply _|]|by apply h_ret].
Qed.
Lemma authorizeUnattested_spec e o : hoare any (authorizeUnattested e o) (λ _ _, excused o).
Proof.
  unfold authorizeUnattested. set (φ := AllowUnattested = true ∨ ∃ policy m d, AuthorizeUnattested = Some policy ∧ policy m d = Ok tt ∧
     d_Binding d = o_Binding o ∧ d_Identifier d = o_Identifier o ∧ d_Attestation d = None).
  eapply (h_then t any (λ _ _, φ)); [apply _| |].
  - unfold φ. destruct AllowUnattested; [apply h_ret; auto|]. destruct AuthorizeUnattested as [policy|]; [|apply h_fail]. apply h_moment; [apply _|]. intros m.
    destruct (policy m (decision e o None)) as [[]|err] eqn:E; [|apply h_fail]. apply h_ret. intros w _ _. right. by exists policy, m, (decision e o None).
  - intros x. apply (h_pre t (λ w, φ ∧ True)); [intros w Hi Hx; split; [apply Hx|done]|]. apply h_pure. intros Hx. eapply h_post; [|apply authorize_spec].
    intros x0 w [Ha Hr]. split_and!; [by apply Hr|done..].
Qed.
Lemma validate_spec e c o raw : hoare any (validate e c o raw) (λ _ _, vouched o (c_Token c) raw None).
Proof.
  unfold validate. cbv zeta. destruct (unattested raw (ParseObject raw)) eqn:Hu.
  { eapply h_post; [|apply authorizeUnattested_spec]. intros x w ?. by right. }
  destruct (ParseObject raw) as [a|] eqn:Hp; [|apply h_fail]. apply h_now; [apply _|]. intros m.
  destruct (Attestation_Verify a _) as [[]|] eqn:Hv; [|eapply (h_then t any anything); [apply _|by apply h_publish; [apply _|]|intros []; apply h_fail]].
  destruct (matchBinding o a) as [[]|] eqn:Hm; [|eapply (h_then t any anything); [apply _|by apply h_publish; [apply _|]|intros []; apply h_fail]].
  eapply h_post; [|apply authorize_spec]. intros x w [Ha _]. left. exists a. split_and!; [|done..]. split_and!; [by rewrite Hp|done|by exists m].
Qed.
Lemma vouched_from o0 o token raw key : order_from o0 o → vouched o token raw key → vouched o0 token raw key.
Proof.
  intros Hf. unfold vouched, excused, allowed, matchBinding. by rewrite (of_Binding _ _ Hf), (of_Identifier _ _ Hf).
Qed.
Lemma checked_from o0 o token raw key : order_from o0 o → checked o token raw key → checked o0 token raw key.
Proof. intros Hf. unfold checked, excused, allowed. by rewrite (of_Binding _ _ Hf), (of_Identifier _ _ Hf). Qed.

(** ** The key *)

Definition ready (b : birth) (o : Order) (w : world) : Prop := saw_order b o w ∧ answered b w.
#[local] Instance ready_persistent b o : persistent (ready b o).
Proof. unfold ready. apply _. Qed.
Lemma challengeOf_spec b o : hoare (ready b o) (challengeOf o) (λ c w, saw_challenge b c w ∧ c_Status c = StatusValid).
Proof.
  unfold challengeOf. eapply (h_read t _ (λ a _, a_ChallengeID a = c_ID (b_challenge b))); [apply _|intros; apply _| |].
  - intros w a Hi ((Hb & Hf & _) & _) H%get_Ok. destruct (inv_birth _ Hi b Hb) as (Hl & _). rewrite (of_AuthzID _ _ Hf), (ln_oa _ _ _ Hl) in H.
    destruct (authz_row _ _ _ Hi Hb H) as [st ->]. apply Hl.
  - intros r. apply h_got. intros a ->. apply (h_pre t (λ w, a_ChallengeID a = c_ID (b_challenge b) ∧ ready b o w)); [by intros w _ [? ?]|]. apply h_pure. intros E.
    eapply (h_read t _ (λ c w, saw_challenge b c w ∧ c_Status c = StatusValid)); [apply _|intros; apply _| |].
    + intros w c Hi ((Hb & _) & Ha) H%get_Ok. rewrite E in H. split; [by apply read_challenge|by apply Ha].
    + intros [c|]; [|apply h_fail]. apply h_ret. by intros w _ [_ ?].
Qed.
Lemma checkKey_spec b e o key : hoare (ready b o) (checkKey e o key)
  (λ _ w, ∃ c, saw_challenge b c w ∧ c_Status c = StatusValid ∧ checked (b_order b) (c_Token c) (c_Attestation c) key).
Proof.
  unfold checkKey. apply (h_pre t (λ w, ready b o w ∧ ready b o w)); [by intros w _ ?|].
  eapply (h_bind t); [apply _|apply challengeOf_spec|]. intros c.
  set (F := λ w, order_from (b_order b) o ∧ saw_challenge b c w ∧ c_Status c = StatusValid).
  apply (h_pre t F); [intros w _ [((_ & Hf & _) & _) [? ?]]; done|].
  assert (HF : persistent F) by (unfold F; apply _). cbv zeta.
  assert (Hend : ∀ p : prog unit, hoare any p (λ _ _, checked o (c_Token c) (c_Attestation c) key) →
    hoare F p (λ _ w, ∃ c, saw_challenge b c w ∧ c_Status c = StatusValid ∧ checked (b_order b) (c_Token c) (c_Attestation c) key)).
  { intros p Hp. apply (h_pre t (λ w, F w ∧ True)); [by intros|]. eapply (h_post t _ _ (λ _ w, F w ∧ checked o (c_Token c) (c_Attestation c) key)).
    - intros _ w [(Hf & Hs & Hv) Hc]. exists c. split_and!; [done..|]. by eapply checked_from.
    - by apply h_frame. }
  apply Hend. destruct (unattested (c_Attestation c) (ParseObject (c_Attestation c))) eqn:Hu.
  { apply h_guard. intros _. eapply h_post; [|apply authorizeUnattested_spec]. intros x w ?. by right. }
  destruct (ParseObject (c_Attestation c)) as [a|] eqn:Hp; [|apply h_fail]. apply h_now; [apply _|]. intros m.
  destruct (Attestation_Verify a _) as [[]|[]] eqn:Hv; try apply h_fail.
  eapply h_post; [|apply authorize_spec]. intros x w [Ha _]. left. exists a. split; [|done]. split_and!; [by rewrite Hp|done|by exists m].
Qed.

(** ** Receipts *)

Lemma register_call_spec p cert : hoare any (register_call p cert) (λ _ w, cfg_Register ≠ None → ∃ m, logged (Registered m p cert) w).
Proof.
  unfold register_call. destruct cfg_Register as [reg|]; [|by apply h_ret].
  apply (h_pre t (λ w, True ∧ True)); [done|]. eapply (h_noisy t any any (λ r w, r = Ok tt → ∃ m, logged (Registered m p cert) w)); [apply _|apply _| | |].
  - intros [[]|e]; [|intros w w' _ _ _ _; done]. intros w w' Hi Hi' Hs H _. destruct (H eq_refl) as [m Hm]. exists m.
    by apply (Persistent_Stable Inv G t (logged (Registered m p cert)) _ w w').
  - intros w Hi _ _. destruct (reg (moment w.1) p cert) as [[]|e] eqn:E; cbn.
    + destruct (note_keeps t (Registered (moment w.1) p cert) w) as (? & ? & ?); [done..|]. split_and!; [done..|]. eauto.
    + split_and!; [done|by apply quiet_guaranteed|done].
  - intros [[]|e]; [|apply h_fail]. apply h_ret. intros w _ [_ H] _. by apply H.
Qed.
Lemma record_call_spec p cert : hoare any (record_call p cert) (λ _ w, Revocations ≠ None → ∃ m, logged (Recorded m p cert) w).
Proof.
  unfold record_call. destruct Revocations as [reg|]; [|by apply h_ret].
  apply (h_pre t (λ w, True ∧ True)); [done|]. eapply (h_noisy t any any (λ r w, r = Ok tt → ∃ m, logged (Recorded m p cert) w)); [apply _|apply _| | |].
  - intros [[]|e]; [|intros w w' _ _ _ _; done]. intros w w' Hi Hi' Hs H _. destruct (H eq_refl) as [m Hm]. exists m.
    by apply (Persistent_Stable Inv G t (logged (Recorded m p cert)) _ w w').
  - intros w Hi _ _. destruct (rv_Register reg (moment w.1) cert p) as [[]|e] eqn:E; cbn.
    + destruct (note_keeps t (Recorded (moment w.1) p cert) w) as (? & ? & ?); [done..|]. split_and!; [done..|]. eauto.
    + split_and!; [done|by apply quiet_guaranteed|done].
  - intros [[]|e]; [|apply h_fail]. apply h_ret. intros w _ [_ H] _. by apply H.
Qed.

Lemma storeReceipt_spec b o ct der cert : ct_OrderID ct = o_ID o → pem_Decode (ChainPEM ct) = Some der → ParseCertificate der = Some cert →
  hoare (λ w, ready b o w ∧ saw_cert ct w) (storeReceipt o ct cert) anything.
Proof.
  intros Eo Hpem Hparse. unfold storeReceipt. cbv zeta. eapply (h_then t); [apply _|apply register_call_spec|]. intros [].
  eapply (h_then t); [apply _|apply record_call_spec|]. intros [].
  match goal with |- hoare ?F _ _ => apply (h_pre t (λ w, F w ∧ True)); [done|] end.
  eapply (h_transact t _ any (λ _ _, True)); [apply _|apply _|intros; apply _| |].
  - intros w Hi ((((Hs & _) & Hc) & Hreg) & Hrec) _. assert (Hf : order_from (b_order b) o) by apply Hs. destruct (order_from_same _ _ Hf) as (Epv & _ & _).
    destruct (store_receipt_keeps t b o ct w) as [? ?]; try done. exists der, cert. rewrite <-Epv. split_and!; [done..| |]; intros Hn; [destruct (Hreg Hn) as [m ?]|destruct (Hrec Hn) as [m ?]]; by exists m.
  - intros [[cur []]|e]; [| |apply h_fail]; (eapply (h_pre t any); [done|]); [|by apply h_ret].
    eapply (h_then t any anything); [apply _|by apply h_publish; [apply _|]|]. intros []. by apply h_ret.
Qed.
Lemma completeReceipt_spec b e o ct : hoare (λ w, ready b o w ∧ saw_cert ct w) (completeReceipt e o ct) anything.
Proof.
  unfold completeReceipt. apply h_guard. intros Hg. apply h_now; [apply _|]. intros m. apply h_guard. intros _. apply h_now; [apply _|]. intros m'. apply h_guard. intros _.
  bool_hyps. destruct (pem_Decode (ChainPEM ct)) as [der|] eqn:Hpem; [|apply h_fail]. destruct (ParseCertificate der) as [cert|] eqn:Hparse; [|apply h_fail].
  apply (h_pre t (λ w, (ready b o w ∧ saw_cert ct w) ∧ ready b o w)); [by intros w _ [? ?]|].
  eapply (h_bind t); [apply _|apply checkKey_spec|]. intros []. eapply h_pre; [|by eapply storeReceipt_spec]. by intros w _ [? _].
Qed.
Lemma issue_spec b e o csr : csr_Valid csr = true →
  hoare (λ w, ready b o w ∧ ∃ c, saw_challenge b c w ∧ c_Status c = StatusValid ∧ checked (b_order b) (c_Token c) (c_Attestation c) (csr_PublicKey csr)) (issue e o csr) anything.
Proof.
  intros Hcsr. unfold issue. set (F := λ w, ready b o w ∧ ∃ c, saw_challenge b c w ∧ c_Status c = StatusValid ∧ checked (b_order b) (c_Token c) (c_Attestation c) (csr_PublicKey csr)).
  assert (HF : persistent F) by (unfold F; apply _). apply (h_pre t (λ w, F w ∧ ready b o w)); [by intros w _ [? ?]|].
  eapply (h_bind t); [done|apply challengeOf_spec|]. intros c. apply (h_pre t (λ w, F w ∧ True)); [by intros w _ [? _]|].
  eapply (h_transact t F any (λ '(o', ct) w, saw_order b o' w ∧ saw_cert ct w)); [done|apply _|intros [o' ct]; apply _| |].
  - intros w Hi ((Hs & Ha) & cK & Hsc & Hv & Hck) _. destruct (issue_keeps Hfresh t b o c cK csr w) as (? & ? & Hr); try done. split_and!; [done..|]. intros [o' ct] E. by apply Hr.
  - intros [[o' ct]|err]; [|apply h_fail]. destruct (PendingRegistration ct); [|by apply h_ret]. cbn.
    apply (h_pre t (λ w, True ∧ (ready b o' w ∧ saw_cert ct w))); [intros w _ [[[_ Ha] _] [? ?]]; split; [done|]; split; [by split|done]|].
    eapply (h_bind t); [apply _|apply completeReceipt_spec|]. intros o2. by apply h_ret.
Qed.

(** ** Finalization *)

Lemma settleOrder_spec {A} b o p : o_Status o = StatusReady ∨ o_Status o = StatusProcessing → hoare (saw_order b o) (settleOrder o p) (λ (_ : A) _, False).
Proof.
  intros Hst. unfold settleOrder. case_match; [apply h_fail|]. apply (h_pre t (λ w, saw_order b o w ∧ True)); [done|].
  eapply (h_transact t _ any (λ _ _, True)); [apply _|apply _|intros; apply _| |].
  - intros w Hi Hs _. destruct (settle_order_keeps t b o p w) as [? ?]; done.
  - intros r. apply h_got. intros ? ->. apply h_fail.
Qed.
Lemma loadOrder_spec e : hoare any (loadOrder e) (λ o w, ∃ b, saw_order b o w ∧ (settled (o_Status o) → answered b w)).
Proof.
  unfold loadOrder. eapply (h_read t any (λ o w, ∃ b, saw_order b o w ∧ (settled (o_Status o) → answered b w))); [apply _|intros; apply _|intros; by eapply read_order|].
  intros r. apply h_found. intros o ->. apply h_guard. intros _. apply h_ret. by intros w _ [_ ?].
Qed.

(** A response hands out a chain only of a certificate that is stored for the account that
    asks and known to the registries. *)
Definition served (account pem : bytes) (w : world) : Prop :=
  ∃ ct b, saw_cert ct w ∧ born b w ∧ ChainPEM ct = pem ∧ ct_AccountID ct = account ∧ ct_OrderID ct = o_ID (b_order b) ∧ registered w (b_order b) ct.
#[export] Instance served_persistent account pem : persistent (served account pem).
Proof. unfold served. apply _. Qed.
(** A response of another handler is no chain. *)
Definition bare (rs : response) : Prop := match rs_Body rs with BChain _ | BProblem _ => False | _ => True end.
Definition answer (e : exchange) (rs : response) (w : world) : Prop :=
  match rs_Body rs with BChain pem => ∃ a, e_account e = Some a ∧ served (ac_ID a) pem w | BProblem _ => False | _ => True end.
Lemma bare_answer e rs w : bare rs → answer e rs w.
Proof. unfold bare, answer. by destruct (rs_Body rs). Qed.

Lemma finalize_spec e : hoare any (finalize e) (λ rs _, bare rs).
Proof.
  unfold finalize. eapply (h_then t); [apply _|apply loadOrder_spec|]. intros o. apply (h_pre t (λ w, ∃ b, saw_order b o w ∧ (settled (o_Status o) → answered b w))); [by intros w _ [_ ?]|].
  apply h_exist. intros b. case_bool_decide; [by apply h_ret|]. apply h_guard. intros Hfin. apply negb_false_iff in Hfin.
  assert (Hst : o_Status o = StatusReady ∨ o_Status o = StatusProcessing).
  { unfold finalizable in Hfin. apply orb_true_iff in Hfin as [?|Hx]; bool_hyps; auto. }
  apply (h_pre t (ready b o)). { intros w _ [Hs Ha]. split; [done|]. apply Ha. by destruct Hst as [->| ->]. }
  apply h_now; [apply _|]. intros m. apply h_guard. intros _. eapply (h_then t _ anything); [apply _|apply decode_spec|].
  intros encoded. apply (h_pre t (λ w, ready b o w ∧ ready b o w)); [by intros w _ [? ?]|].
  eapply (h_attempt t _ (ready b o) anything); [apply _| |intros [o' ct]; by apply h_ret|].
  - apply h_lift. intros csr Hcsr. assert (csr_Valid csr = true).
    { unfold parseCSR in Hcsr. apply bind_Ok_inv in Hcsr as (_ & _ & Hcsr). repeat case_match; try done. go_binds Hcsr. by bool_hyps. }
    apply (h_pre t (λ w, ready b o w ∧ ready b o w)); [by intros w _ ?|]. eapply (h_bind t); [apply _|apply checkKey_spec|]. intros []. by apply issue_spec.
  - intros p. eapply h_post; [|eapply h_pre; [|by apply (settleOrder_spec b)]]; [done|by intros w _ [? _]].
Qed.

Lemma order_spec e : hoare any (order e) (λ rs _, bare rs).
Proof.
  unfold order. eapply (h_then t); [apply _|apply loadOrder_spec|]. intros o. apply (h_pre t (λ w, ∃ b, saw_order b o w ∧ (settled (o_Status o) → answered b w))); [by intros w _ [_ ?]|].
  apply h_exist. intros b. eapply (h_pre t (λ w, True ∧ (saw_order b o w ∧ (settled (o_Status o) → answered b w)))); [done|].
  eapply (h_bind t any _ anything); [apply _| |intros o'; by apply h_ret]. case_match eqn:Hc; [|by apply h_ret]. bool_hyps.
  apply (h_pre t (ready b o)). { intros w _ [Hs Ha]. split; [done|]. apply Ha. match goal with Hx : o_Status o = _ |- _ => by rewrite Hx end. }
  eapply (h_read t _ (λ ct w, saw_cert ct w)); [apply _|intros; apply _|intros w ct Hi _ Hct; by apply (read_certificate w (o_CertificateID o))|].
  intros r. apply h_got. intros ct ->. apply completeReceipt_spec.
Qed.

Lemma certificate_spec e a : e_account e = Some a → hoare any (certificate e) (answer e).
Proof.
  intros Ea. unfold certificate. set (R := λ ct w, ∃ b, saw_cert ct w ∧ born b w ∧ ct_OrderID ct = o_ID (b_order b) ∧ (PendingRegistration ct = false → registered w (b_order b) ct)).
  eapply (h_read t any R); [apply _|intros; unfold R; apply _| |].
  - intros w ct Hi _ Hct. destruct (read_certificate w _ _ Hi Hct) as (Hs & b & Hb & Eo & _ & Hr). by exists b.
  - intros r. apply h_found. intros ct ->. apply h_guard. intros Ha. apply h_guard. intros Hp. apply h_ret. intros w _ [_ (b & ? & ? & ? & Hr)]. bool_hyps. exists a. split; [done|]. exists ct, b. unfold accountID in *. rewrite Ea in *. split_and!; auto.
Qed.

(** ** The challenge *)

Lemma saveTriple_spec b o c' a' o' : o_ID o' = o_ID (b_order b) → authz_from (b_authz b) a' → challenge_from (b_challenge b) c' → c_Status c' ≠ StatusPending →
  (c_Status c' = StatusValid → vouched (b_order b) (c_Token c') (c_Attestation c') None) → (settled (o_Status o') → c_Status c' = StatusValid) →
  (o = b_order b → order_from (b_order b) o' ∧ o_Status o' ≠ StatusPending) → hoare (saw_order b o) (saveTriple c' a' o') anything.
Proof.
  intros. unfold saveTriple. apply (h_pre t (λ w, saw_order b o w ∧ True)); [done|].
  eapply (h_transact t _ any (λ _ _, True)); [apply _|apply _|intros; apply _| |].
  - intros w Hi Hs _. destruct (save_triple_keeps t b o c' a' o' w) as [? ?]; done.
  - intros [r|err]; [by apply h_ret|apply h_fail].
Qed.
(** The rows a challenge handler works on. *)
Record at_hand (b : birth) (c : Challenge) (a : Authorization) (o : Order) : Prop := {
  ah_challenge : c = b_challenge b; ah_authz : authz_from (b_authz b) a; ah_order : order_from (b_order b) o; ah_pending : o_Status (b_order b) = StatusPending }.
Lemma settleChallenge_spec {A} b c a o p : at_hand b c a o → hoare (saw_order b o) (settleChallenge c a o p) (λ (_ : A) _, False).
Proof.
  intros [-> [st ->] Hf Hp]. unfold settleChallenge. case_match; [apply h_fail|]. destruct pending_neq as (? & ? & ? & ? & ? & ? & ? & ? & ? & ?).
  apply (h_pre t (λ w, True ∧ saw_order b o w)); [done|]. eapply (h_bind t any _ anything); [apply _| |intros x; apply h_fail]. apply saveTriple_spec; try done.
  - apply Hf.
  - by exists StatusInvalid.
  - intros [_ E]. by exfalso; apply E.
  - intros ->. split; [|done]. destruct Hf. split; try done. intros [E|E]; by exfalso; revert E.
Qed.

Lemma challenge_spec e : hoare any (challenge e) (λ rs _, bare rs).
Proof.
  unfold challenge. eapply (h_read t any (λ c w, ∃ b, saw_challenge b c w)); [apply _|intros; apply _| |].
  { intros w c Hi _ H%get_Ok. destruct (inv_challenge _ Hi _ _ H) as (b & Hb & E & _). exists b. apply read_challenge; [done..|]. by rewrite E. }
  intros r. apply h_found. intros c ->. apply h_guard. intros _. case_match eqn:Hc; [by apply h_ret|]. bool_hyps.
  apply (h_pre t (λ w, ∃ b, saw_challenge b c w)); [by intros w _ [_ ?]|]. apply h_exist. intros b.
  eapply (h_read t _ (λ a _, authz_from (b_authz b) a ∧ c = b_challenge b ∧ linked (b_order b) (b_authz b) (b_challenge b))); [apply _|intros; apply _| |].
  { intros w a Hi (Hb & Hf & _) Ha%get_Ok. destruct (inv_birth _ Hi b Hb) as (Hl & _). rewrite (cf_AuthzID _ _ Hf), (ln_ca _ _ _ Hl) in Ha. split_and!; [by eapply authz_row|by apply Hf|done]. }
  intros r. apply h_got. intros a ->. apply (h_pre t (λ w, (authz_from (b_authz b) a ∧ c = b_challenge b ∧ linked (b_order b) (b_authz b) (b_challenge b)) ∧ born b w)); [by intros w _ [(? & _) ?]|].
  apply h_pure. intros ([st ->] & -> & Hl).
  eapply (h_read t _ (λ o w, saw_order b o w)); [apply _|intros; apply _| |].
  { intros w o Hi Hb Ho%get_Ok. change (a_OrderID _) with (a_OrderID (b_authz b)) in Ho. rewrite (ln_ao _ _ _ Hl) in Ho. by apply saw_current. }
  intros r. apply h_got. intros o ->. apply (h_pre t (λ w, order_from (b_order b) o ∧ saw_order b o w)); [intros w _ [_ Hs]; split; [apply Hs|done]|]. apply h_pure. intros Hf.
  apply h_now; [apply _|]. intros m. apply h_guard. intros _.
  assert (Hah : at_hand b (b_challenge b) ((b_authz b) <| a_Status := st |>) o) by (split; [done|by exists st|done|apply Hl]).
  assert (Hsettle : ∀ p, hoare (saw_order b o) (settleChallenge (b_challenge b) ((b_authz b) <| a_Status := st |>) o p) (λ rs _, bare rs)).
  { intros p. eapply h_post; [|by apply settleChallenge_spec]. done. }
  apply (h_pre t (λ w, saw_order b o w ∧ True)); [done|]. eapply (h_attempt t _ any anything); [apply _| | |done].
  { unfold attestationFrom. eapply (h_then t any anything); [apply _|apply decode_spec|]. intros req. repeat case_match; (by apply h_ret) || apply h_fail. }
  intros raw. apply (h_pre t (λ w, saw_order b o w ∧ True)); [by intros w _ [? _]|]. eapply (h_attempt t); [apply _|apply validate_spec| |done].
  intros []. apply (h_pre t (λ w, vouched o (c_Token (b_challenge b)) raw None ∧ saw_order b o w)); [by intros w _ [? ?]|]. apply h_pure. intros Hv.
  apply h_now; [apply _|]. intros m'. apply (h_pre t (λ w, True ∧ saw_order b o w)); [done|]. eapply (h_bind t any _ anything); [apply _| |].
  { apply saveTriple_spec; try done.
    - apply Hf.
    - by exists StatusValid.
    - intros _. by eapply vouched_from.
    - intros ->. split; [|done]. destruct Hf. split; try done. intros [E|E]; by exfalso; revert E. }
  intros [ch [[c1 a1] o1]]. eapply (h_pre t any); [done|]. eapply (h_then t any anything); [apply _| |intros []; by apply h_ret].
  destruct ch; [by apply h_publish; [apply _|]|by apply h_ret].
Qed.

(** ** New orders *)

#[local] Instance unused_id_stable' x : stable (unused_id t x) := unused_id_stable Hfresh t x.
#[local] Instance unused_account_stable' x : stable (unused_account t x) := unused_account_stable Hfresh t x.
#[local] Instance unused_nonce_stable' v : stable (unused_nonce t v) := unused_nonce_stable Hfresh t v.

Lemma h_newID {A} P (k : bytes → prog A) Q : stable P → (∀ x, hoare (λ w, P w ∧ unused_id t x w) (k x) Q) → hoare P (drawn_or_fail newID ≫= k) Q.
Proof.
  intros HP Hk. change (hoare P (do newID ≫= λ v, match v with Some v => Ret v | None => wrapped ProblemServerInternal EOther end ≫= k) Q).
  eapply (h_quiet t P (λ v w, match v with Some x => unused_id t x w | None => True end)); [done|intros [x|]; apply _|intros w; exact (quiet_draw 16 t w)| |].
  - intros w Hi _. unfold newID. destruct (draw_bytes 16 t w) as [[b|] w'] eqn:E; [|done]. cbn.
    destruct (draw_unused Hfresh 16 t w b Hi) as [Hu _]; [by rewrite E|]. by rewrite E in Hu.
  - intros [x|]; [apply Hk|apply h_fail].
Qed.
Lemma h_newToken {A} P (k : bytes → prog A) Q : stable P → (∀ x, hoare P (k x) Q) → hoare P (drawn_or_fail newToken ≫= k) Q.
Proof.
  intros HP Hk. change (hoare P (do newToken ≫= λ v, match v with Some v => Ret v | None => wrapped ProblemServerInternal EOther end ≫= k) Q).
  eapply (h_quiet t P (λ _ _, True)); [done|intros; apply _|intros w; exact (quiet_draw 32 t w)|done|]. intros [x|]; [|apply h_fail]. eapply h_pre; [|apply Hk]. by intros w _ [? _].
Qed.
Lemma newOrder_spec e : hoare any (newOrder e) (λ rs _, bare rs).
Proof.
  unfold newOrder. eapply (h_then t any anything); [apply _|apply decode_spec|]. intros req. apply (h_pre t any); [done|]. destruct (oq_Identifiers req) as [|id [|]]; [apply h_fail| |apply h_fail].
  apply h_guard. intros _. apply h_guard. intros _. apply h_guard. intros _. apply h_moment; [apply _|]. intros m. destruct (Identifiers_Verify m _) as [binding|]; [|apply h_fail].
  apply h_now; [apply _|]. intros m'. cbv zeta. apply h_newID; [apply _|]. intros oid. apply h_newID; [apply _|]. intros aid. apply h_newID; [apply _|]. intros cid.
  apply h_newToken; [apply _|]. intros token. match goal with |- hoare ?F _ _ => apply (h_pre t (λ w, True ∧ F w)); [done|] end.
  eapply (h_transact t any _ (λ _ _, True)); [apply _|apply _|intros; apply _| |].
  - intros w Hi _ (((_ & Ho) & Ha) & Hc). match goal with |- context [create_order ?v ?o ?a ?c w] => destruct (create_order_keeps t v o a c w) as [? ?]; try done end.
  - intros [[]|[]]; (by apply h_ret) || apply h_fail.
Qed.

(** ** Accounts and the rest *)

Lemma newAccount_spec e : hoare any (newAccount e) (λ rs _, bare rs).
Proof.
  unfold newAccount. eapply (h_then t any anything); [apply _|apply decode_spec|]. intros req. apply (h_pre t any); [done|].
  destruct (h_JWK _) as [key|]; [|apply h_fail]. destruct (Thumbprint key) as [thumb|]; [|apply h_fail].
  eapply (h_read t any (λ _ _, True)); [apply _|intros; apply _|done|]. intros [a|err]; [by apply h_ret|]. destruct err; try apply h_fail. apply (h_pre t any); [done|].
  apply h_guard. intros _. eapply (h_quiet t any (λ v w, match v with Some x => unused_account t x w | None => True end)); [apply _|intros [x|]; apply _|intros w; exact (quiet_draw 16 t w)| |].
  { intros w Hi _. unfold newID. destruct (draw_bytes 16 t w) as [[b|] w'] eqn:E; [|done]. destruct (draw_unused Hfresh 16 t w b Hi) as (_ & _ & Hu); [by rewrite E|]. by rewrite E in Hu. }
  intros [id|]; [|apply h_fail]. apply h_now; [apply _|]. intros m. cbv zeta.
  eapply (h_transact t any (unused_account t id) (λ _ _, True)); [apply _|apply _|intros; apply _| |].
  - intros w Hi _ Hu. destruct (put_account_keeps t (mkAccount id thumb key StatusValid (aq_Contact req) (Clock m 0)) w Hi Hu) as [? ?]. done.
  - intros [u|err]; [by apply h_ret|]. destruct err; try apply h_fail. apply (h_pre t any); [done|].
    eapply (h_read t any (λ _ _, True)); [apply _|intros; apply _|done|]. intros r. apply h_got. intros a ->. by apply h_ret.
Qed.
Lemma account_spec e : hoare any (AcmeServer.account e) (λ rs _, bare rs).
Proof. unfold AcmeServer.account. apply h_guard. intros _. apply h_guard. intros _. case_match; [by apply h_ret|apply h_fail]. Qed.
Lemma accountOrders_spec e : hoare any (accountOrders e) (λ rs _, bare rs).
Proof.
  unfold accountOrders. apply h_guard. intros _. eapply (h_read t any (λ _ _, True)); [apply _|intros; apply _|done|]. intros r. apply h_got. intros res ->. by apply h_ret.
Qed.
Lemma authorization_spec e : hoare any (authorization e) (λ rs _, bare rs).
Proof.
  unfold authorization. eapply (h_read t any (λ _ _, True)); [apply _|intros; apply _|done|]. intros r. apply h_found. intros a ->. apply h_guard. intros _. apply (h_pre t any); [done|].
  eapply (h_read t any (λ _ _, True)); [apply _|intros; apply _|done|]. intros r. apply h_got. intros c ->. apply (h_pre t any); [done|].
  eapply (h_then t any anything); [apply _| |intros st; by apply h_ret]. unfold authzStatus. case_match; [|by apply h_ret]. apply h_now; [apply _|]. intros m. by apply h_ret.
Qed.
Lemma remaining_after_spec account os : ∀ remaining, hoare any (remaining_after account os remaining) anything.
Proof.
  induction os as [|o os IH]; intros remaining; [by apply h_ret|]. cbn [remaining_after].
  eapply (h_read t any (λ _ _, True)); [apply _|intros; apply _|done|]. intros r. apply h_got. intros a ->. apply (h_pre t any); [done|].
  eapply (h_then t any anything); [apply _| |intros v; eapply h_pre; [|apply IH]; done]. case_match; [by apply h_ret|]. apply h_now; [apply _|]. intros m. by apply h_ret.
Qed.
Lemma authorized_pages_spec fuel account : ∀ cursor remaining, hoare any (authorized_pages fuel account cursor remaining) anything.
Proof.
  induction fuel as [|fuel IH]; intros cursor remaining; [apply h_fail|]. cbn [authorized_pages].
  eapply (h_read t any (λ _ _, True)); [apply _|intros; apply _|done|]. intros r. apply h_got. intros page ->. apply (h_pre t any); [done|].
  eapply (h_then t any anything); [apply _|apply remaining_after_spec|]. intros rem. apply (h_pre t any); [done|]. case_match; [by apply h_ret|]. case_match; [apply h_fail|]. apply IH.
Qed.
Lemma revoke_spec fuel reg e : hoare any (revokeCertificate fuel reg e) (λ rs _, bare rs).
Proof.
  unfold revokeCertificate. destruct (into read_revocation _) as [[encoded reason]|]; [|apply h_fail]. apply h_guard. intros _.
  destruct (b64_decode encoded) as [der|]; [|apply h_fail]. destruct (ParseCertificate der) as [cert|]; [|apply h_fail].
  apply h_moment; [apply _|]. intros m. destruct (ByCertificate reg m cert) as [record|[]]; [|apply h_fail..]. cbv zeta.
  eapply (h_then t any anything); [apply _| |].
  { repeat case_match; try apply h_fail; try (by apply h_ret); [unfold guard; case_match; [apply h_fail|by apply h_ret]|].
    unfold authorizedForAll. apply h_guard. intros _. apply authorized_pages_spec. }
  intros []. apply (h_pre t (λ w, True ∧ True)); [done|]. eapply (h_noisy t any any (λ _ _, True)); [apply _|apply _|intros; apply _| |].
  - intros w Hi _ _. destruct (Revoke reg (moment w.1) _ _ _) as [[]|err]; cbn.
    + match goal with |- context [note ?x w] => destruct (note_keeps t x w) as (? & ? & ?); done end.
    + split_and!; [done|by apply quiet_guaranteed|done].
  - intros [[]|[]]; try apply h_fail. apply (h_pre t any); [done|]. eapply (h_then t any anything); [apply _|by apply h_publish; [apply _|]|intros []; by apply h_ret].
Qed.

(** ** Authentication *)

Lemma mintNonce_spec : hoare any mintNonce anything.
Proof.
  unfold mintNonce. eapply (h_quiet t any (λ v w, match v with Some b => unused_nonce t (b64_encode b) w | None => True end)); [apply _|intros [b|]; apply _|apply quiet_draw| |].
  - intros w Hi _. destruct (draw_bytes 16 t w).1 as [b|] eqn:E; [|done]. by destruct (draw_unused Hfresh 16 t w b Hi E) as (_ & ? & _).
  - intros [b|]; [|by apply h_ret]. cbv zeta. apply h_now; [apply _|]. intros m.
    eapply (h_noisy t any _ (λ _ _, True)); [apply _|apply _|intros; apply _| |intros x; by apply h_ret].
    intros w Hi _ Hu. destruct (put_nonce_keeps t (mkNonce (b64_encode b) (Clock m 0)) w) as [? ?]; done.
Qed.
Lemma consumeNonce_spec v : hoare any (consumeNonce v) (λ _ w, logged (NonceTaken t v) w).
Proof.
  unfold consumeNonce. apply h_guard. intros _. apply (h_pre t (λ w, True ∧ True)); [done|].
  eapply (h_noisy t any any (λ r w, match r with Ok _ => logged (NonceTaken t v) w | Err _ => True end)); [apply _|apply _|intros [?|?]; apply _| |].
  - intros w Hi _ _. pose proof (take_nonce_keeps t v w Hi) as H. destruct (take_nonce v t w) as [[n|e] w']; destruct H as (? & ? & H); split_and!; try done. by apply (H n).
  - intros r. apply h_found. intros n ->. apply h_now; [apply _|]. intros m. unfold guard. case_match; [apply h_fail|]. apply h_ret. by intros w _ [_ ?].
Qed.
(** The key a request is checked with: of the account it names, unless it may carry its own. *)
Definition key_of (mode : keyMode) (key : PublicKey) (account : option Account) (w : world) : Prop :=
  match account with Some a => saw_account a w ∧ ac_Status a = StatusValid ∧ Public (ac_Key a) = Ok key | None => mode ≠ requireKID end.
#[local] Instance key_of_persistent mode key account : persistent (key_of mode key account).
Proof. unfold key_of. destruct account; apply _. Qed.
Lemma keyFor_spec mode h : hoare any (keyFor mode h) (λ '(key, account) w, key_of mode key account w).
Proof.
  unfold keyFor. match goal with |- context [if ?b then _ else _] => destruct b eqn:Hm end.
  - assert (mode ≠ requireKID) as Hn by (by intros ->). repeat case_match; try apply h_fail; by apply h_ret.
  - apply h_guard. intros _. cbv zeta. apply h_guard. intros _. eapply (h_read t any saw_account); [apply _|intros; apply _| |].
    { intros w a Hi _ H%get_Ok. destruct (inv_account _ Hi _ _ H) as [E _]. unfold saw_account. by rewrite E. }
    intros r. apply h_found. intros a ->. apply h_guard. intros Hs. destruct (Public (ac_Key a)) eqn:E; [|apply h_fail]. apply h_ret. intros w _ [_ Ha]. bool_hyps. done.
Qed.
(** A request that was let in has taken its nonce, and its signature is one of the key above. *)
Definition let_in (req : request) (mode : keyMode) (e : exchange) (w : world) : Prop :=
  ∃ body key, r_Body req = Some body ∧ Parse (take (Z.to_nat (cfg_MaxBody + 1)) body) = Ok (e_jws e) ∧ Verify (e_jws e) key = Ok tt ∧
    key_of mode key (e_account e) w ∧ logged (NonceTaken t (h_Nonce (j_Header (e_jws e)))) w.
#[export] Instance let_in_persistent req mode e : persistent (let_in req mode e).
Proof. unfold let_in. apply _. Qed.
Lemma authenticate_spec req mode : hoare any (authenticate req mode) (let_in req mode).
Proof.
  unfold authenticate. apply h_guard. intros _. destruct (r_Body req) as [body|] eqn:Hb; [|apply h_fail]. cbn -[consumeNonce keyFor take].
  apply h_guard. intros _. destruct (Parse _) as [j|[]] eqn:Hp; try apply h_fail. cbn -[consumeNonce keyFor take]. apply h_guard. intros _.
  eapply (h_then t any); [apply _|apply consumeNonce_spec|]. intros [].
  apply (h_pre t (logged (NonceTaken t (h_Nonce (j_Header j))))); [by intros w _ [_ ?]|]. eapply (h_then t); [apply _|apply keyFor_spec|]. intros [key acc].
  destruct (Verify j key) as [[]|] eqn:Hv; [|apply h_fail]. apply h_ret. intros w _ [? ?]. by exists body, key.
Qed.

(** ** Responses *)

(** What holds when request [t] has been answered with anything but a problem. *)
Definition responds (req : request) (mode : keyMode) (rs : response) (w : world) : Prop :=
  (∀ p, rs_Body rs ≠ BProblem p) → ∃ e, let_in req mode e w ∧ answer e rs w.
Lemma signed_spec req fn mode : (∀ e, (mode = requireKID → ∃ a, e_account e = Some a) → hoare any (fn e) (answer e)) → hoare any (signed req fn mode) (responds req mode).
Proof.
  intros Hfn. unfold signed. eapply (h_then t any anything); [apply _|apply mintNonce_spec|]. intros nonce. apply (h_pre t (λ w, True ∧ True)); [done|].
  eapply (h_attempt t any any (λ rs w, ∃ e, let_in req mode e w ∧ answer e rs w)); [apply _| | |].
  - eapply (h_then t any); [apply _|apply authenticate_spec|]. intros e.
    apply (h_pre t (λ w, (mode = requireKID → ∃ a, e_account e = Some a) ∧ (let_in req mode e w ∧ True))).
    { intros w _ [_ Hl]. split_and!; [|done..]. intros ->. destruct Hl as (body & key & _ & _ & _ & Hk & _). unfold key_of in Hk. destruct (e_account e); [eauto|done]. }
    apply h_pure. intros Hm. eapply h_post; [|apply h_frame; [apply _|by apply Hfn]]. intros rs w H. by exists e.
  - intros rs. apply h_ret. intros w _ [_ (e & Hl & Ha)] _. exists e. split; [done|]. by destruct rs.
  - intros p. apply h_ret. intros w _ _ H. by destruct (H p).
Qed.
(** The two endpoints that take no signature hand out nothing. *)
Lemma open_spec fn : (∃ status b, fn = Ret (write status [] b) ∧ match b with BEmpty | BDirectory _ _ _ _ => True | _ => False end) →
  hoare any (plain_endpoint fn) (λ rs _, match rs_Body rs with BEmpty | BDirectory _ _ _ _ => True | _ => False end).
Proof.
  intros (status & b & -> & Hb). unfold plain_endpoint. eapply (h_then t any anything); [apply _|apply mintNonce_spec|]. intros nonce. by apply h_ret.
Qed.
End Handlers.
