(* ===== verification/AcmeSafety.v ===== *)
(** * What the ACME server guarantees

    Any number of requests and sweeps of expired records, started on an empty store, their
    actions interleaved by any schedule. Whatever state the server reaches, each client
    identifier has at most one certificate, every certificate is backed by the checks of the
    trust decision, a chain leaves the server only towards the account that owns it and only
    once the registries know it, and a nonce lets in one request. *)
From S2P Require Import Prelude GoStrings Sha256 Storage Base64 Json Jose Attest AcmeTypes AcmeStore AcmeBase AcmeServer AcmeIssue AcmeInv AcmeSteps AcmeTransactions AcmeHandlers.

(** ** The server at work *)

Inductive job := Request (ep : endpoint) (req : request) | Sweep (before : Time).
(** The key a signed endpoint asks for. *)
(* @src devicemanagement/pki/acme/server.go - Server.Handler *)
Definition mode_of (ep : endpoint) : option keyMode :=
  match ep with
  | EDirectory | ENewNonce | EOther_ => None
  | ENewAccount => Some allowJWK
  | ERevoke _ => Some allowEitherKey
  | _ => Some requireKID
  end.
(** A response that is no problem document. *)
Definition succeeds (rs : response) : bool := match rs_Body rs with BProblem _ => false | _ => true end.

Section Safety.
Context {env : Acme}.

Definition job_prog (j : job) : prog response := match j with Request ep req => serve ep req | Sweep before => sweep before end.
Definition start (jobs : nat → job) : config response := (world0, job_prog ∘ jobs).

(** What is true of a job that has finished. *)
Definition finished (t : nat) (j : job) (rs : response) (w : world) : Prop :=
  match j with
  | Sweep _ => True
  | Request ep req => succeeds rs = true →
      match mode_of ep with Some mode => ∃ e, let_in t req mode e w ∧ answer e rs w | None => bare rs end
  end.

Section Jobs.
Context (Hfresh : fresh_draws) (t : nat).

Lemma plain_job ep req fn : mode_of ep = None ∨ (∃ p, fn = Fail p) → (∀ rs, fn = Ret rs → bare rs) → (∃ p, fn = Fail p) ∨ (∃ rs, fn = Ret rs) →
  hoare t (λ _, True) (plain_endpoint fn) (finished t (Request ep req)).
Proof.
  intros Hm Hb Hfn. unfold plain_endpoint. eapply (h_then t _ (λ _ _, True)); [apply _|by apply mintNonce_spec|]. intros nonce.
  destruct Hfn as [[p ->]|[rs ->]]; apply h_ret; intros w _ _; [done|]. intros _. destruct Hm as [->|[p ?]]; [|done]. specialize (Hb rs eq_refl). by destruct rs.
Qed.
Lemma signed_job ep req fn mode : mode_of ep = Some mode → (∀ e, (mode = requireKID → ∃ a, e_account e = Some a) → hoare t (λ _, True) (fn e) (answer e)) →
  hoare t (λ _, True) (signed req fn mode) (finished t (Request ep req)).
Proof.
  intros Hm Hfn. eapply h_post; [|by apply signed_spec]. intros rs w H Hs. rewrite Hm. apply H. intros p E. unfold succeeds in Hs. by rewrite E in Hs.
Qed.
Lemma bare_job ep req fn mode : mode_of ep = Some mode → (∀ e, hoare t (λ _, True) (fn e) (λ rs _, bare rs)) →
  hoare t (λ _, True) (signed req fn mode) (finished t (Request ep req)).
Proof. intros Hm Hfn. apply signed_job; [done|]. intros e _. eapply h_post; [|apply Hfn]. intros rs w. apply bare_answer. Qed.

Lemma job_spec j : hoare t (λ _, True) (job_prog j) (finished t j).
Proof.
  destruct j as [ep req|before].
  2:{ apply (h_pre t (λ _, True ∧ True)); [done|]. eapply (h_noisy t _ _ (λ _ _, True)); [apply _|apply _|intros; apply _| |intros; by apply h_ret].
      intros w Hi _ _. cbn. pose proof (prune_keeps t before w Hi) as [? ?]. destruct (Prune before w.2). done. }
  destruct ep; cbn [job_prog serve].
  - apply plain_job; [by left|by intros rs [= <-]|right; by eexists].
  - apply plain_job; [by left|by intros rs [= <-]|right; by eexists].
  - exact (bare_job ENewAccount req newAccount allowJWK eq_refl (newAccount_spec Hfresh t)).
  - exact (bare_job ENewOrder req newOrder requireKID eq_refl (newOrder_spec Hfresh t)).
  - exact (bare_job EAccount req account requireKID eq_refl (account_spec t)).
  - exact (bare_job EAccountOrders req accountOrders requireKID eq_refl (accountOrders_spec t)).
  - exact (bare_job EOrder req order requireKID eq_refl (order_spec t)).
  - exact (bare_job EFinalize req finalize requireKID eq_refl (finalize_spec Hfresh t)).
  - exact (bare_job EAuthorization req authorization requireKID eq_refl (authorization_spec t)).
  - exact (bare_job EChallenge req challenge requireKID eq_refl (challenge_spec t)).
  - apply signed_job; [done|]. intros e He. destruct He as [a Ha]; [done|]. by eapply certificate_spec.
  - destruct Revocations as [reg|]; [|apply plain_job; [right; by eexists|done|left; by eexists]].
    exact (bare_job (ERevoke fuel) req (revokeCertificate fuel reg) allowEitherKey eq_refl (revoke_spec t fuel reg)).
  - apply plain_job; [by left|done|left; by eexists].
Qed.
End Jobs.

Lemma Inv_world0 : Inv world0.
Proof.
  constructor; try (intros *; intros; by simplify_map_eq); cbn; try (split_and!; try constructor; set_solver); set_solver.
Qed.
#[local] Instance answer_persistent e rs : Persistent Inv G (answer e rs).
Proof. unfold answer. destruct (rs_Body rs); apply _. Qed.
#[local] Instance finished_persistent t j rs : Persistent Inv G (finished t j rs).
Proof. unfold finished. destruct j as [ep req|]; [|apply _]. destruct (mode_of ep); apply _. Qed.

(** Every state the server reaches. *)
Lemma reached jobs schedule : fresh_draws → let c := run schedule (start jobs) in
  Inv c.1 ∧ ∀ t rs, c.2 t = Ret rs → finished t (jobs t) rs c.1.
Proof.
  intros Hfresh c. destruct (run_sound Inv G (λ t r w, match r with Ok rs => finished t (jobs t) rs w | Err _ => True end) world0 (job_prog ∘ jobs) schedule) as [Hi H].
  - apply Inv_world0.
  - intros t. eapply sat_mono; [|apply (job_spec Hfresh t (jobs t)); [apply Inv_world0|done]]. by intros [rs|e] w.
  - split; [done|]. intros t rs E. destruct (H t) as (w1 & Hr & Hq). unfold c in E. unfold start in E. rewrite E in Hq.
    eapply (stable_rtc Inv G t); [apply Persistent_Stable; [apply _|apply finished_persistent]|exact Hr|exact Hq].
Qed.
Lemma letting_in jobs schedule t ep req rs mode : fresh_draws → let c := run schedule (start jobs) in
  jobs t = Request ep req → mode_of ep = Some mode → c.2 t = Ret rs → succeeds rs = true → ∃ e, let_in t req mode e c.1 ∧ answer e rs c.1.
Proof.
  intros Hfresh c Hj Hm Hr Hs. destruct (reached jobs schedule Hfresh) as [_ H]. specialize (H t rs Hr). rewrite Hj in H. cbn in H. rewrite Hm in H. by apply H.
Qed.

(** ** Certificates *)

(** Order [o] was created, with the token [token] for its challenge. *)
Definition created (w : world) (o : Order) (token : bytes) : Prop := ∃ a c, OrderCreated o a c ∈ log w.1 ∧ c_Token c = token.
Lemma created_birth w b : b ∈ births w ↔ OrderCreated (b_order b) (b_authz b) (b_challenge b) ∈ log w.1.
Proof.
  unfold births. rewrite list_elem_of_omap. split.
  - intros (e & He & E). destruct e; try done. injection E as <-. done.
  - intros H. exists (OrderCreated (b_order b) (b_authz b) (b_challenge b)). destruct b as [[]]. done.
Qed.
Lemma created_iff w o token : created w o token ↔ ∃ b, b ∈ births w ∧ b_order b = o ∧ c_Token (b_challenge b) = token.
Proof.
  split.
  - intros (a & c & H & <-). exists (o, a, c). by rewrite created_birth.
  - intros (b & Hb & <- & <-). exists (b_authz b), (b_challenge b). by rewrite <-created_birth.
Qed.

(** C7 In every state that requests and sweeps reach in any interleaving, a client identifier
    has at most one certificate: two stored certificates whose orders were created for the
    same identifier value are the same certificate; and the identifier stays claimed by its
    order for good, whatever is pruned. *)
Theorem one_certificate_per_identifier jobs schedule o o' token token' : fresh_draws → let w := (run schedule (start jobs)).1 in
  created w o token → created w o' token' → id_Value (o_Identifier o) = id_Value (o_Identifier o') →
  claims w.2 !! id_Value (o_Identifier o) = Some (o_ID o) ∧ o = o' ∧
  ∀ id id' ct ct', certs w.2 !! id = Some ct → certs w.2 !! id' = Some ct' → ct_OrderID ct = o_ID o → ct_OrderID ct' = o_ID o' → id = id'.
Proof.
  intros Hfresh w. rewrite !created_iff. intros (b & Hb & <- & _) (b' & Hb' & <- & _) Ev. destruct (reached jobs schedule Hfresh) as [Hi _].
  destruct (inv_birth _ Hi b Hb) as (_ & Hc & _), (inv_birth _ Hi b' Hb') as (_ & Hc' & _). unfold value_of in *. rewrite Ev in Hc |- *. split; [done|].
  assert (o_ID (b_order b) = o_ID (b_order b')) as E by (rewrite Hc in Hc'; by injection Hc').
  assert (b = b') as -> by (by apply (birth_order w)). split; [done|]. intros id id' ct ct' H H' E1 E2. eapply (inv_one_cert _ Hi); [exact H|exact H'|congruence].
Qed.

(** C8 In every state that requests and sweeps reach in any interleaving, each stored
    certificate was signed for an order that was created before, for the key of a certificate
    request whose own signature checks, with the order's identifier as its permanent
    identifier; and the device the order's binding names attested that key over the token of
    the order's challenge and the policy accepted it, unless the binding requires no
    attestation, unattested devices are allowed, and the policy accepted it all the same. *)
Theorem certificates_backed jobs schedule id ct : fresh_draws → let w := (run schedule (start jobs)).1 in
  certs w.2 !! id = Some ct →
  ct_ID ct = id ∧ ∃ o token, created w o token ∧ ct_OrderID ct = o_ID o ∧ evidence o token ct ∧ (PendingRegistration ct = false → registered w o ct).
Proof.
  intros Hfresh w H. destruct (reached jobs schedule Hfresh) as [Hi _]. destruct (inv_cert _ Hi id ct H) as (E & _ & _ & b & Hb & Eo & Hev & Hr & _). split; [done|].
  exists (b_order b), (c_Token (b_challenge b)). split_and!; try done. apply created_iff. by exists b.
Qed.

(** ** Downloads *)

(** C9 In every interleaving, a response with a certificate chain answers a request whose
    signature is one of the key of a valid account, and the chain is of a certificate stored
    for that very account, which the configured registries have been told of. *)
Theorem chain_to_owner jobs schedule t ep req rs pem : fresh_draws → let '(w, progs) := run schedule (start jobs) in
  jobs t = Request ep req → progs t = Ret rs → rs_Body rs = BChain pem →
  ∃ body j a key id ct o token,
    r_Body req = Some body ∧ Parse (take (Z.to_nat (cfg_MaxBody + 1)) body) = Ok j ∧
    accounts w.2 !! ac_ID a = Some a ∧ ac_Status a = StatusValid ∧ Public (ac_Key a) = Ok key ∧ Verify j key = Ok tt ∧
    certs w.2 !! id = Some ct ∧ ChainPEM ct = pem ∧ ct_AccountID ct = ac_ID a ∧ ct_OrderID ct = o_ID o ∧ created w o token ∧ registered w o ct.
Proof.
  intros Hfresh. destruct (run schedule (start jobs)) as [w progs] eqn:Ec. intros Hj Hr Hb. destruct (reached jobs schedule Hfresh) as [Hi Hf].
  specialize (Hf t rs). rewrite Ec in Hf, Hi. cbn [fst snd] in Hf, Hi. specialize (Hf Hr). rewrite Hj in Hf. cbn in Hf. unfold succeeds in Hf. rewrite Hb in Hf. specialize (Hf eq_refl).
  destruct (mode_of ep) as [mode|]; [|unfold bare in Hf; by rewrite Hb in Hf]. destruct Hf as (e & (body & key & Hbody & Hp & Hv & Hk & _) & Ha).
  unfold answer in Ha. rewrite Hb in Ha. destruct Ha as (a & Ea & ct & b & (ct' & Hct & Hl) & Hborn & Epem & Eacc & Eo & Hreg). unfold key_of in Hk. rewrite Ea in Hk. destruct Hk as (Hs & Hst & Hpub).
  exists body, (e_jws e), a, key, (ct_ID ct), ct', (b_order b), (c_Token (b_challenge b)).
  assert (ChainPEM ct' = ChainPEM ct ∧ ct_AccountID ct' = ct_AccountID ct ∧ ct_OrderID ct' = ct_OrderID ct) as (E1 & E2 & E3) by (destruct Hl as [->| ->]; by destruct ct).
  unfold registered in *. rewrite E1, E2, E3. split_and!; try done. apply created_iff. by exists b.
Qed.

(** ** Replay *)

Lemma taken_once w t u v : NoDup (taken w) → NonceTaken t v ∈ log w.1 → NonceTaken u v ∈ log w.1 → t = u.
Proof.
  unfold taken. induction (log w.1) as [|e l IH]; [by intros _ ?%elem_of_nil|]. intros Hn Ht Hu.
  assert (Hin : ∀ x, NonceTaken x v ∈ l → v ∈ omap (λ e, match e with NonceTaken _ v => Some v | _ => None end) l) by (intros x Hx; apply list_elem_of_omap; by exists (NonceTaken x v)).
  apply elem_of_cons in Ht as [<-|Ht], Hu as [E|Hu].
  - by injection E.
  - apply NoDup_cons in Hn as [Hn _]. by destruct Hn; eapply Hin.
  - subst e. apply NoDup_cons in Hn as [Hn _]. by destruct Hn; eapply Hin.
  - apply IH; [|done..]. cbn in Hn. destruct e; try done. by apply NoDup_cons in Hn as [_ ?].
Qed.

(** C10 In every interleaving, a nonce lets in at most one request: two signed requests that
    are answered with anything but a problem and carry the same nonce are the same request. *)
Theorem nonce_lets_in_once jobs schedule t u ep ep' req req' rs rs' body body' j j' : fresh_draws → let '(w, progs) := run schedule (start jobs) in
  jobs t = Request ep req → jobs u = Request ep' req' → mode_of ep ≠ None → mode_of ep' ≠ None →
  progs t = Ret rs → progs u = Ret rs' → succeeds rs = true → succeeds rs' = true →
  r_Body req = Some body → r_Body req' = Some body' →
  Parse (take (Z.to_nat (cfg_MaxBody + 1)) body) = Ok j → Parse (take (Z.to_nat (cfg_MaxBody + 1)) body') = Ok j' →
  h_Nonce (j_Header j) = h_Nonce (j_Header j') → t = u.
Proof.
  intros Hfresh. destruct (run schedule (start jobs)) as [w progs] eqn:Ec. intros Hj Hj' Hm Hm' Hr Hr' Hs Hs' Hb Hb' Hp Hp' En.
  destruct (mode_of ep) as [m|] eqn:Em; [|done]. destruct (mode_of ep') as [m'|] eqn:Em'; [|done].
  pose proof (letting_in jobs schedule t ep req rs m Hfresh) as H. pose proof (letting_in jobs schedule u ep' req' rs' m' Hfresh) as H'. rewrite Ec in H, H'.
  destruct (H Hj Em Hr Hs) as (e & (b1 & k1 & Eb1 & Ep1 & _ & _ & Hl1) & _), (H' Hj' Em' Hr' Hs') as (e' & (b2 & k2 & Eb2 & Ep2 & _ & _ & Hl2) & _).
  assert (b1 = body ∧ b2 = body') as [-> ->] by (split; congruence). rewrite Hp in Ep1. rewrite Hp' in Ep2. injection Ep1 as Ej. injection Ep2 as Ej'. subst j j'.
  destruct (reached jobs schedule Hfresh) as [Hi _]. rewrite Ec in Hi. destruct (inv_taken _ Hi) as (Hnd & _ & _). unfold logged in Hl1, Hl2. rewrite <-En in Hl2.
  by eapply taken_once.
Qed.
End Safety.
