(* ===== verification/AcmeSamples.v ===== *)
(** * A device gets its certificate

    A server with concrete surroundings, and six requests of a device: a nonce, an account,
    an order, the attested challenge, the finalization and the download; two of them run
    interleaved with a sweep. The theorems of [AcmeSafety] applied to this run. *)
From S2P Require Import Prelude GoStrings Sha256 Storage Base64 Json Canonjson Jose Attest AcmeTypes AcmeStore AcmeBase AcmeServer AcmeIssue AcmeInv AcmeSteps AcmeTransactions AcmeHandlers AcmeSafety.

(** The [i]-th draw ends in [i]; there are 256 of them. *)
Definition draw (i n : nat) : option bytes := if (i <? 256)%nat then Some (replicate (n - 1) 0 ++ [Z.of_nat i]) else None.
Definition id_of (i : nat) : bytes := b64_encode (replicate 15 0 ++ [Z.of_nat i]).
Definition tokenA : bytes := b64_encode (replicate 31 0 ++ [7]).

Definition deviceKey : PublicKey := ECDSA P256 (Some (4 :: replicate 32 7 ++ replicate 32 9)).
Definition year : Z := 1000000.
Definition attestedLeaf : x509cert := mkX509 [1] [(OIDSerialNumber, bs "S1"); (OIDFreshness, Sum256 tokenA)] deviceKey 7 year.
Definition issuedLeaf : x509cert := mkX509 [2] [] deviceKey 9 year.
#[local] Instance x509A : X509 := {|
  ParseCertificate der := if bool_decide (der = [1]) then Some attestedLeaf else if bool_decide (der = [2]) then Some issuedLeaf else None;
  chain_verifies _ _ _ _ := true;
  MarshalPKIXPublicKey k := match k with ECDSA _ p => p | _ => None end;
  AppleAnchors := [] |}.
Definition bindingA : Binding := mkBinding true (bs "S1") [] [] [] [] [] false 0.
Definition registryA : Registry := mkRegistry (λ _ _ _, Ok tt) (λ _ _, Err RevUnknown) (λ _ _ _ _, Err RevOther).
#[local] Instance acmeA : Acme := {|
  acme_crypto := sampleCrypto; acme_x509 := x509A; BaseURL := bs "https://x"; cfg_Prefix := bs "/acme";
  Signer_Sign _ _ csr _ := Ok (mkX509 [2] [] (csr_PublicKey csr) 9 year); Signer_Chain := [];
  cfg_Register := Some (λ _ _ _, Ok tt); cfg_CAPolicy := mkCAPolicy None [] 0 [];
  Identifiers_Verify _ v := if bool_decide (v = bs "client-1") then Ok bindingA else Err (EProblem (NewProblem ProblemRejectedIdentifier));
  Authorize _ := AllowSerials [bs "S1"]; AllowUnattested := false; AuthorizeUnattested := None; Anchors := [];
  Revocations := Some registryA; Clock m _ := 100 + Z.of_nat m; Bus := true; NonceTTL := 1000; OrderTTL := 5000; cfg_MaxBody := 65536;
  rand := draw; ParseCertificateRequest der := if bool_decide (der = [3]) then Some (mkCSR [3] deviceKey true) else None;
  PermanentIdentifier v := Some v; pem_Encode b := b; pem_Decode b := match b with [] => None | _ => Some (take 1 b) end |}.

Lemma fresh_drawsA : fresh_draws.
Proof.
  split.
  - intros i j n m b. cbn. unfold draw. destruct (Nat.ltb_spec i 256), (Nat.ltb_spec j 256); try done. intros [= <-] [= E].
    apply (f_equal last) in E. rewrite !last_snoc in E. injection E as E. lia.
  - intros i n b. cbn. unfold draw. destruct (Nat.ltb_spec i 256); [|done]. intros [= <-]. apply Forall_app. split; [by apply Forall_replicate|]. repeat constructor; unfold is_byte; lia.
Qed.

(** ** The requests *)

Definition signed_body (header payload : bytes) : bytes :=
  let p := b64_encode header in let l := b64_encode payload in
  let sig := take 32 (p ++ [46] ++ l ++ replicate 32 0) ++ replicate 31 0 ++ [1] in
  jtext "{'protected':'" ++ p ++ jtext "','payload':'" ++ l ++ jtext "','signature':'" ++ b64_encode sig ++ jtext "'}".
Definition header (key nonce uri : bytes) : bytes :=
  jtext "{'alg':'ES256'," ++ key ++ jtext ",'nonce':'" ++ nonce ++ jtext "','url':'https://x" ++ uri ++ jtext "'}".
Definition by_key : bytes := jtext "'jwk':{'kty':'EC','crv':'P-256','x':'" ++ kX sampleJWK ++ jtext "','y':'" ++ kY sampleJWK ++ jtext "'}".
Definition by_account : bytes := jtext "'kid':'https://x/acme/account/" ++ id_of 2 ++ jtext "'".
Definition requestA (key nonce uri : bytes) (payload : bytes) (id : bytes) : request :=
  mkRequest (bs "application/jose+json") (Some (signed_body (header key nonce uri) payload)) uri id [] false.

(** The attestation statement: one certificate. *)
Definition statement : bytes := [162; 99] ++ bs "fmt" ++ [101] ++ bs "apple" ++ [103] ++ bs "attStmt" ++ [161; 99] ++ bs "x5c" ++ [129; 65; 1].
Definition jobsA (t : nat) : job :=
  match t with
  | 0 => Request ENewNonce (mkRequest [] None (bs "/acme/new-nonce") [] [] true)
  | 1 => Request ENewAccount (requestA by_key (id_of 0) (bs "/acme/new-account") (jtext "{'termsOfServiceAgreed':true}") [])
  | 2 => Request ENewOrder (requestA by_account (id_of 1) (bs "/acme/new-order") (jtext "{'identifiers':[{'type':'permanent-identifier','value':'client-1'}]}") [])
  | 3 => Request EChallenge (requestA by_account (id_of 3) (bs "/acme/challenge/" ++ id_of 6) (jtext "{'attObj':'" ++ b64_encode statement ++ jtext "'}") (id_of 6))
  | 4 => Request EFinalize (requestA by_account (id_of 8) (bs "/acme/order/" ++ id_of 4 ++ bs "/finalize") (jtext "{'csr':'" ++ b64_encode [3%Z] ++ jtext "'}") (id_of 4))
  | 5 => Request ECertificate (requestA by_account (id_of 9) (bs "/acme/cert/" ++ id_of 10) [] (id_of 10))
  | _ => Sweep 0%Z
  end%nat.
Definition scheduleA : list nat :=
  replicate 10 0%nat ++ replicate 20 1%nat ++ replicate 20 2%nat ++ replicate 20 3%nat ++ mjoin (replicate 30 [4; 6]%nat) ++ replicate 20 5%nat.
Notation endA := (run scheduleA (start jobsA)).

(** Every request succeeds. *)
Example all_served :
  ((λ t, match endA.2 t with Ret rs => rs_Status rs | _ => 0 end) <$> seq 0 6) = [200; 201; 201; 200; 200; 200].
Proof. vm_compute. reflexivity. Qed.

(** ** The order *)

Lemma created_first w value id :
  match births w with (o, _, _) :: _ => bool_decide (id_Value (o_Identifier o) = value) && bool_decide (o_ID o = id) | [] => false end = true →
  ∃ o token, created w o token ∧ id_Value (o_Identifier o) = value ∧ o_ID o = id.
Proof.
  destruct (births w) as [|[[o a] c] l] eqn:E; [done|]. intros [H1%bool_decide_eq_true H2%bool_decide_eq_true]%andb_prop. exists o, (c_Token c). split_and!; [|done..].
  apply created_iff. exists (o, a, c). split; [rewrite E; left|done].
Qed.
Lemma createdA : ∃ o token, created endA.1 o token ∧ id_Value (o_Identifier o) = bs "client-1" ∧ o_ID o = id_of 4.
Proof. apply created_first. vm_compute. reflexivity. Qed.

Lemma one_certificate_per_identifier_witness :
  claims endA.1.2 !! bs "client-1" = Some (id_of 4).
Proof.
  destruct createdA as (o & token & Hc & Hv & Hid).
  destruct (one_certificate_per_identifier jobsA scheduleA o o token token fresh_drawsA Hc Hc eq_refl) as (H & _). rewrite <-Hv, <-Hid. exact H.
Defined.

Lemma certificates_backed_witness :
  ∃ ct o token, certs endA.1.2 !! id_of 10 = Some ct ∧ created endA.1 o token ∧ ct_OrderID ct = o_ID o ∧ evidence o token ct.
Proof.
  assert (match certs endA.1.2 !! id_of 10 with Some _ => true | None => false end = true) as Hs by (vm_compute; reflexivity).
  destruct (certs endA.1.2 !! id_of 10) as [ct|] eqn:E; [|discriminate Hs].
  destruct (certificates_backed jobsA scheduleA (id_of 10) ct fresh_drawsA E) as (_ & o & token & Hc & Ho & He & _).
  exists ct, o, token. split; [reflexivity|]. split; [exact Hc|]. split; [exact Ho|exact He].
Defined.

(** ** The download *)

Definition req_of (j : job) : request := match j with Request _ req => req | Sweep _ => mkRequest [] None [] [] [] false end.
Lemma chain_to_owner_witness :
  ∃ rs, endA.2 5%nat = Ret rs ∧ rs_Body rs = BChain [2] ∧ ∃ id ct, certs endA.1.2 !! id = Some ct ∧ ChainPEM ct = [2].
Proof.
  assert (match endA.2 5%nat with Ret rs => match rs_Body rs with BChain pem => bool_decide (pem = [2]) | _ => false end | _ => false end = true) as Hs by (vm_compute; reflexivity).
  destruct (endA.2 5%nat) as [rs|p|X f k] eqn:Er; [|discriminate Hs..]. destruct (rs_Body rs) as [| | | | | | |pem|] eqn:Eb; try discriminate Hs. apply bool_decide_eq_true in Hs as ->.
  exists rs. split; [reflexivity|]. split; [exact Eb|].
  pose proof (chain_to_owner jobsA scheduleA 5 ECertificate (req_of (jobsA 5)) rs [2] fresh_drawsA) as H. destruct endA as [w progs]. cbn [snd] in Er.
  destruct (H eq_refl Er Eb) as (body & j & a & key & id & ct & o & token & _ & _ & _ & _ & _ & _ & Hct & Hpem & _). exists id, ct. split; [exact Hct|exact Hpem].
Defined.

Definition bodyA (t : nat) : bytes := default [] (r_Body (req_of (jobsA t))).
Lemma body5 : r_Body (req_of (jobsA 5)) = Some (bodyA 5).
Proof. vm_compute. reflexivity. Qed.
Lemma nonce_lets_in_once_witness :
  ∃ rs j, endA.2 5%nat = Ret rs ∧ Parse (bodyA 5) = Ok j ∧ h_Nonce (j_Header j) = id_of 9 ∧ 5%nat = 5%nat.
Proof.
  assert (match endA.2 5%nat with Ret rs => succeeds rs | _ => false end = true) as Hs by (vm_compute; reflexivity).
  destruct (endA.2 5%nat) as [rs|p|X f k] eqn:Er; [|discriminate Hs..].
  assert (match Parse (take (Z.to_nat (cfg_MaxBody + 1)) (bodyA 5)) with Ok j => bool_decide (h_Nonce (j_Header j) = id_of 9) | Err _ => false end = true) as Hp by (vm_compute; reflexivity).
  destruct (Parse (take (Z.to_nat (cfg_MaxBody + 1)) (bodyA 5))) as [j|] eqn:Ep; [|discriminate Hp]. apply bool_decide_eq_true in Hp.
  assert (take (Z.to_nat (cfg_MaxBody + 1)) (bodyA 5) = bodyA 5) as Et by (vm_compute; reflexivity).
  exists rs, j. split; [reflexivity|]. rewrite Et in Ep. split; [exact Ep|]. split; [exact Hp|]. rewrite <-Et in Ep.
  pose proof (nonce_lets_in_once jobsA scheduleA 5 5 ECertificate ECertificate (req_of (jobsA 5)) (req_of (jobsA 5)) rs rs (bodyA 5) (bodyA 5) j j fresh_drawsA) as H.
  destruct endA as [w progs]. cbn [snd] in Er. exact (H eq_refl eq_refl ltac:(discriminate) ltac:(discriminate) Er Er Hs Hs body5 body5 Ep Ep eq_refl).
Defined.
