(* ===== verification/StateClient.v ===== *)
(** * Clients of the transactional store

    The callbacks of a transaction as a monad over [txprog], what a callback that commits has
    read and written, following a listing page by page, and values kept as encoded records.
    The components of [pki] are written against the [TxStore] contract with these. *)
From S2P Require Import Prelude GoStrings Sha256 StateStore.

(** ** Callbacks *)

Definition txm (A : Type) : Type := txprog (result terr A).
Definition txm_ret {A} (a : A) : txm A := Return (Ok a).
Definition txm_fail {A} (e : terr) : txm A := Return (Err e).
Fixpoint txp_bind {A B} (f : A → txprog B) (p : txprog A) : txprog B :=
  match p with
  | Return a => f a
  | Now k => Now (λ t, txp_bind f (k t))
  | TGet key k => TGet key (λ r, txp_bind f (k r))
  | TList prefix after limit k => TList prefix after limit (λ r, txp_bind f (k r))
  | TPut r k => TPut r (λ x, txp_bind f (k x))
  | TDelete key k => TDelete key (λ x, txp_bind f (k x))
  end.
#[export] Instance txm_mret : MRet txm := @txm_ret.
#[export] Instance txm_mbind : MBind txm := λ A B f p,
  txp_bind (λ r, match r with Ok a => f a | Err e => Return (Err e) end) p.

Definition t_now : txm Time := Now txm_ret.
Definition t_get (k : bytes) : txm Rec := TGet k Return.
Definition t_put (r : Rec) : txm unit := TPut r Return.
Definition t_list (prefix after : bytes) (limit : Z) : txm (list Rec) := TList prefix after limit Return.
Definition t_lift {A} (r : result terr A) : txm A := Return r.
(** A record that may be missing. *)
Definition t_find (k : bytes) : txm (option Rec) :=
  TGet k (λ r, Return match r with Ok r => Ok (Some r) | Err TNotFound => Ok None | Err e => Err e end).

(** ** What a callback did *)

Section Exec.
Context (cancelled : nat → bool) (clock : Time).
Abbreviation exec p s := (spec_exec cancelled clock p s).

Lemma exec_txp_bind {A B} (f : A → txprog B) p : ∀ s, exec (txp_bind f p) s = let '(a, s') := exec p s in exec (f a) s'.
Proof.
  induction p as [a|k IH|key k IH|pre aft lim k IH|r k IH|key k IH]; intros s; cbn [txp_bind spec_exec]; [done|apply IH|..];
    match goal with |- context [let '(_, _) := ?x in _] => destruct x end; apply IH.
Qed.
Lemma exec_bind {A B} (p : txm A) (f : A → txm B) s b s' :
  exec (p ≫= f) s = (Ok b, s') → ∃ a s1, exec p s = (Ok a, s1) ∧ exec (f a) s1 = (Ok b, s').
Proof.
  unfold mbind, txm_mbind. rewrite exec_txp_bind. destruct (exec p s) as [[a|e] s1]; [|done]. eauto.
Qed.
Lemma exec_ret {A} (a b : A) s s' : exec (txm_ret a) s = (Ok b, s') → a = b ∧ s = s'.
Proof. cbn. intros [= -> ->]. done. Qed.
Lemma exec_lift {A} (r : result terr A) a s s' : exec (t_lift r) s = (Ok a, s') → r = Ok a ∧ s = s'.
Proof. cbn. intros [= -> ->]. done. Qed.
Lemma exec_now t s s' : exec t_now s = (Ok t, s') → t = clock ∧ s = s'.
Proof. cbn. intros [= -> ->]. done. Qed.
Lemma exec_get k r s s' : exec (t_get k) s = (Ok r, s') → smap s !! k = Some r ∧ smap s' = smap s.
Proof.
  cbn. unfold spec_get. destruct (cancelled _); [done|]. destruct (negb _); [done|]. destruct (smap s !! k) eqn:E; [|done]. by intros [= -> <-].
Qed.
Lemma exec_find k o s s' : exec (t_find k) s = (Ok o, s') → smap s !! k = o ∧ smap s' = smap s.
Proof.
  cbn. unfold spec_get. destruct (cancelled _); [done|]. destruct (negb _); [done|]. destruct (smap s !! k) eqn:E; by intros [= <- <-].
Qed.
Lemma exec_put r u s s' : exec (t_put r) s = (Ok u, s') → smap s' = <[Key r := r]> (smap s) ∧ ValidKey (Key r) = true.
Proof.
  cbn. unfold spec_write. destruct (cancelled _); [done|]. destruct (ValidKey (Key r)) eqn:E; [|done]. cbn. by intros [= <- <-].
Qed.
Lemma exec_reads_Ok ks : ∀ s rs s', spec_reads cancelled ks s = (Ok rs, s') → rs = omap (λ k, smap s !! k) ks ∧ smap s' = smap s ∧ length rs = length ks.
Proof.
  induction ks as [|k ks IH]; intros s rs s'; cbn [spec_reads]; [by intros [= <- <-]|]. unfold spec_get.
  destruct (cancelled _); [done|]. destruct (negb _); [done|]. destruct (smap s !! k) as [r|] eqn:E; [|done].
  destruct (spec_reads cancelled ks _) as [[rs'|] s2] eqn:Er; [|done]. intros [= <- <-]. apply IH in Er as (-> & Hs & Hl). cbn in *. rewrite E. cbn. by rewrite Hl.
Qed.
Lemma exec_list pre aft lim rs s s' : exec (t_list pre aft lim) s = (Ok rs, s') →
  rs = omap (λ k, smap s !! k) (take (Z.to_nat lim) (keys_after pre aft (smap s))) ∧ smap s' = smap s ∧
  length rs = length (take (Z.to_nat lim) (keys_after pre aft (smap s))) ∧ 0 < lim ≤ 10000.
Proof.
  cbn [t_list spec_exec]. unfold spec_list. destruct (cancelled _); [done|]. destruct (_ || _) eqn:El; [done|]. apply orb_false_iff in El as [?%Z.leb_gt ?%Z.ltb_ge].
  destruct (spec_reads _ _ _) as [[rs'|] s2] eqn:E; cbn; [|done]. intros [= <- <-]. apply exec_reads_Ok in E as (-> & ? & ?). done.
Qed.
End Exec.

(** An update that succeeds ran its callback to the end; one that fails left the store as
    it was. *)
Lemma spec_update_Ok {A} cancelled clock keys (fn : txm A) m a m' :
  spec_update cancelled clock keys (Some fn) m = (Ok a, m') → ∃ s, spec_exec cancelled clock fn (mkSpec m 1) = (Ok a, s) ∧ smap s = m'.
Proof.
  unfold spec_update. destruct (_ || _); [done|]. destruct (cancelled 0%nat); [done|]. destruct (spec_exec _ _ _ _) as [[x|] s]; [|done].
  destruct (cancelled _); [done|]. intros [= -> <-]. eauto.
Qed.
Lemma spec_update_Err {A} cancelled clock keys (fn : option (txm A)) m e m' : spec_update cancelled clock keys fn m = (Err e, m') → m' = m.
Proof.
  unfold spec_update. destruct fn as [fn|]; [|by intros [= _ <-]]. destruct (_ || _); [by intros [= _ <-]|]. destruct (cancelled 0%nat); [by intros [= _ <-]|].
  destruct (spec_exec _ _ _ _) as [[x|] s]; [|by intros [= _ <-]]. destruct (cancelled _); [by intros [= _ <-]|done].
Qed.

(** Taking a committed callback apart. *)
Ltac tx_inv H :=
  lazymatch type of H with
  | spec_exec _ _ (_ ≫= _) _ = (Ok _, _) =>
      let a := fresh "a" in let s := fresh "s" in let H1 := fresh "Hx" in
      apply exec_bind in H as (a & s & H1 & H); tx_inv H1; tx_inv H
  | spec_exec _ _ (mret _) _ = (Ok _, _) => apply exec_ret in H as [? ?]
  | spec_exec _ _ (t_lift _) _ = (Ok _, _) => apply exec_lift in H as [H ?]
  | spec_exec _ _ t_now _ = (Ok _, _) => apply exec_now in H as [? ?]
  | spec_exec _ _ (t_get _) _ = (Ok _, _) => apply exec_get in H as [H ?]
  | spec_exec _ _ (t_find _) _ = (Ok _, _) => apply exec_find in H as [H ?]
  | spec_exec _ _ (t_put _) _ = (Ok _, _) => apply exec_put in H as [H ?]
  | spec_exec _ _ (t_list _ _ _) _ = (Ok _, _) => apply exec_list in H as (H & ? & ? & ?)
  | _ => idtac
  end.

(** ** Page by page *)

(** A loop over all the records with a prefix, [limit] at a time; [f] is its body. *)
Fixpoint foldM {B} (f : B → Rec → result terr B) (b : B) (rs : list Rec) : result terr B :=
  match rs with
  | [] => Ok b
  | r :: rs' => b ← f b r; foldM f b rs'
  end.
Fixpoint t_pages {B} (fuel : nat) (prefix after : bytes) (limit : Z) (f : B → Rec → result terr B) (b : B) : txm B :=
  match fuel with
  | O => txm_fail (TFail (bs "fuel"))
  | S fuel' =>
      rs ← t_list prefix after limit;
      b ← t_lift (foldM f b rs);
      match last rs with
      | Some r => if Z.of_nat (length rs) <? limit then mret b else t_pages fuel' prefix (Key r) limit f b
      | None => mret b
      end
  end.

Lemma foldM_app {B} (f : B → Rec → result terr B) rs rs' : ∀ b, foldM f b (rs ++ rs') = (b' ← foldM f b rs; foldM f b' rs').
Proof. induction rs as [|r rs IH]; intros b; cbn; [done|]. destruct (f b r); cbn; [apply IH|done]. Qed.

Lemma keys_after_sorted pre aft m : StronglySorted bytes_le (keys_after pre aft m) ∧ NoDup (keys_after pre aft m).
Proof. unfold keys_after. split; [apply sort_strings_sorted|]. rewrite sort_strings_perm. apply NoDup_filter, NoDup_fst_map_to_list. Qed.
Lemma keys_after_next pre aft m front c rest : keys_after pre aft m = front ++ c :: rest → keys_after pre c m = rest.
Proof.
  intros E. destruct (keys_after_sorted pre aft m) as [Hs Hn]. assert (Hin : c ∈ keys_after pre aft m) by (rewrite E; apply elem_of_app; right; left).
  apply keys_after_elem in Hin as (_ & _ & Hc). transitivity (filter (λ k, bytes_ltb c k = true) (keys_after pre aft m)).
  - destruct (keys_after_sorted pre c m) as [Hs' Hn']. apply (StronglySorted_unique bytes_le); [done|by apply filter_sorted|]. apply NoDup_Permutation; [done|by apply NoDup_filter|].
    intros k. rewrite list_elem_of_filter, !keys_after_elem. split; [|naive_solver]. intros (? & ? & Hk). split_and!; try done. by eapply bytes_ltb_trans.
  - rewrite E in Hs, Hn |- *. by apply filter_after_key.
Qed.

Definition rows (prefix : bytes) (m : gmap bytes Rec) : list Rec := omap (λ k, m !! k) (keys_after prefix [] m).
Lemma keys_ok_insert m k v x : keys_ok m → ValidKey k = true → keys_ok (<[k := mkRec k v x]> m).
Proof. intros Hk Hv k' row. rewrite lookup_insert_Some. intros [[<- <-]|[_ ?]]; auto. Qed.
Lemma rows_elem prefix m r : keys_ok m → r ∈ rows prefix m ↔ m !! Key r = Some r ∧ has_prefix (Key r) prefix = true.
Proof.
  intros Hk. unfold rows. rewrite list_elem_of_omap. split.
  - intros (k & (_ & Hp & _)%keys_after_elem & Hr). destruct (Hk k r Hr) as [<- _]. done.
  - intros [Hr Hp]. exists (Key r). split; [|done]. apply keys_after_elem. split_and!; [by eexists|done|].
    destruct (Hk _ _ Hr) as [_ Hv]. unfold ValidKey in Hv. by destruct (Key r).
Qed.

Lemma keys_of_rows m l : keys_ok m → Forall (λ k, is_Some (m !! k)) l → Key <$> omap (λ k, m !! k) l = l.
Proof. intros Hk. induction 1 as [|k l [row Hr] _ IH]; [done|]. cbn. rewrite Hr. cbn. rewrite IH. f_equal. by apply Hk. Qed.
Lemma keys_after_live pre aft m : Forall (λ k, is_Some (m !! k)) (keys_after pre aft m).
Proof. apply Forall_forall. intros k. rewrite keys_after_elem. by intros (? & _). Qed.
(** The last row of a page, and where the next page goes on. *)
Lemma page_last pre aft m n row : keys_ok m → last (omap (λ k, m !! k) (take n (keys_after pre aft m))) = Some row →
  keys_after pre (Key row) m = drop n (keys_after pre aft m).
Proof.
  intros Hk (front & E)%last_Some. set (ks := keys_after pre aft m) in *. apply (keys_after_next pre aft m (Key <$> front)). fold ks. rewrite <-(take_drop n ks) at 1.
  rewrite <-(keys_of_rows m (take n ks)); [|done|apply Forall_take, keys_after_live]. rewrite E, fmap_app, <-app_assoc. done.
Qed.

Section Pages.
Context (cancelled : nat → bool) (clock : Time) {B : Type} (f : B → Rec → result terr B) (pre : bytes) (lim : Z).

(** A loop that ends has seen every record, each once, in order. *)
Lemma t_pages_Ok fuel : ∀ aft b s b' s', keys_ok (smap s) → spec_exec cancelled clock (t_pages fuel pre aft lim f b) s = (Ok b', s') →
  foldM f b (omap (λ k, smap s !! k) (keys_after pre aft (smap s))) = Ok b' ∧ smap s' = smap s.
Proof.
  induction fuel as [|fuel IH]; intros aft b s b' s' Hk H; [done|]. cbn [t_pages] in H. tx_inv H. subst. set (ks := keys_after pre aft (smap s)) in *.
  match goal with H1 : length _ = length (take _ _) |- _ => rename H1 into Hl end.
  match goal with H1 : foldM _ _ _ = Ok _ |- _ => rename H1 into Hf end.
  destruct (last _) as [r|] eqn:Er.
  2:{ apply last_None in Er. tx_inv H. subst. assert (ks = []) as ->; [|by rewrite take_nil in Hf]. rewrite Er in Hl. cbn in Hl. symmetry in Hl. apply length_zero_iff_nil in Hl.
      apply take_nil_inv in Hl as [?|?]; [lia|done]. }
  destruct (Z.ltb_spec (Z.of_nat (length (omap (λ k, smap s !! k) (take (Z.to_nat lim) ks)))) lim) as [Hlt|Hge].
  - tx_inv H. subst. rewrite take_ge in Hf; [done|]. rewrite length_take in Hl. lia.
  - match goal with H1 : smap ?x = smap s |- _ => apply IH in H as [H Hs']; [rewrite H1 in H, Hs'|by rewrite H1] end. split; [|done].
    rewrite (page_last _ _ _ _ _ Hk Er) in H. fold ks in H. rewrite <-(take_drop (Z.to_nat lim) ks), omap_app, foldM_app, Hf. exact H.
Qed.

(** Once there is fuel for every record, more of it changes nothing. *)
Lemma t_pages_fuel fuel : ∀ fuel' aft b s, keys_ok (smap s) → (length (keys_after pre aft (smap s)) < fuel)%nat → (fuel ≤ fuel')%nat →
  spec_exec cancelled clock (t_pages fuel' pre aft lim f b) s = spec_exec cancelled clock (t_pages fuel pre aft lim f b) s.
Proof.
  induction fuel as [|fuel IH]; intros [|fuel'] aft b s Hk Hlen Hle; [lia..|]. cbn [t_pages]. unfold mbind, txm_mbind. rewrite !exec_txp_bind.
  destruct (spec_exec cancelled clock (t_list pre aft lim) s) as [[rs|] s1] eqn:El; [|done]. tx_inv El. rewrite !exec_txp_bind. cbn [t_lift spec_exec]. destruct (foldM f b rs) as [b1|]; [|done].
  destruct (last rs) as [r|] eqn:Er; [|done]. destruct (_ <? _); [done|]. set (ks := keys_after pre aft (smap s)) in *. match goal with H1 : smap s1 = smap s |- _ => rename H1 into Hs1 end.
  apply IH; [by rewrite Hs1| |lia]. rewrite Hs1. rewrite El in Er. rewrite (page_last _ _ _ _ _ Hk Er), length_drop. fold ks.
  destruct (take (Z.to_nat lim) ks) as [|k0 ks'] eqn:Et; [done|]. assert (0 < length ks)%nat by (destruct ks; [by rewrite take_nil in Et|cbn; lia]). lia.
Qed.
(** Without cancellation the loop ends and returns what its body makes of all the records. *)
Lemma t_pages_total fuel : ∀ aft b s b', (∀ n, cancelled n = false) → 0 < lim ≤ 10000 → keys_ok (smap s) → (length (keys_after pre aft (smap s)) < fuel)%nat →
  foldM f b (omap (λ k, smap s !! k) (keys_after pre aft (smap s))) = Ok b' →
  ∃ s', spec_exec cancelled clock (t_pages fuel pre aft lim f b) s = (Ok b', s') ∧ smap s' = smap s.
Proof.
  intros aft b s b' Hc Hlim. revert fuel aft b s b'. induction fuel as [|fuel IH]; intros aft b s b' Hk Hlen Hf; [lia|]. cbn [t_pages]. set (ks := keys_after pre aft (smap s)) in *.
  assert (Hlist : ∃ s1, spec_exec cancelled clock (t_list pre aft lim) s = (Ok (omap (λ k, smap s !! k) (take (Z.to_nat lim) ks)), s1) ∧ smap s1 = smap s).
  { cbn [t_list spec_exec]. unfold spec_list. rewrite Hc, (proj2 (Z.leb_gt _ _)), (proj2 (Z.ltb_ge _ _)) by lia. cbn [orb]. fold ks.
    pose proof (spec_reads_ok cancelled (take (Z.to_nat lim) ks) (mkSpec (smap s) (S (schecks s))) Hc Hk) as Hr.
    pose proof (spec_reads_map cancelled (take (Z.to_nat lim) ks) (mkSpec (smap s) (S (schecks s)))) as Hm.
    destruct (spec_reads _ _ _) as [x s1]. cbn in Hr, Hm. exists s1. rewrite Hr; [done|]. intros k (i & Hi & _)%elem_of_take. apply list_elem_of_lookup_2 in Hi. by apply keys_after_elem in Hi as (? & _). }
  destruct Hlist as (s1 & Hl & Hs1). rewrite <-(take_drop (Z.to_nat lim) ks), omap_app, foldM_app in Hf. apply bind_Ok_inv in Hf as (b1 & Hf1 & Hf2).
  unfold mbind, txm_mbind. rewrite exec_txp_bind, Hl, exec_txp_bind. cbn [t_lift spec_exec]. rewrite Hf1.
  assert (Hdone : drop (Z.to_nat lim) ks = [] → ∃ s', ((Ok b1 : result terr B), s1) = (Ok b', s') ∧ smap s' = smap s) by (intros E; rewrite E in Hf2; injection Hf2 as <-; eauto).
  assert (Hlen2 : length (omap (λ k, smap s !! k) (take (Z.to_nat lim) ks)) = length (take (Z.to_nat lim) ks)) by (tx_inv Hl; done).
  destruct (last _) as [r|] eqn:Er.
  2:{ apply last_None in Er. rewrite Er in Hlen2. symmetry in Hlen2. apply length_zero_iff_nil, take_nil_inv in Hlen2 as [?|E]; [lia|]. apply Hdone. rewrite E. by rewrite drop_nil. }
  destruct (Z.ltb_spec (Z.of_nat (length (omap (λ k, smap s !! k) (take (Z.to_nat lim) ks)))) lim) as [Hlt|Hge].
  { apply Hdone, drop_ge. rewrite Hlen2, length_take in Hlt. lia. }
  pose proof (page_last _ _ _ _ _ Hk Er) as Hnext. fold ks in Hnext. rewrite <-Hs1 in Hnext. destruct (IH (Key r) b1 s1 b') as (s' & He & Hs').
  - by rewrite Hs1.
  - rewrite Hnext, length_drop. rewrite length_take in Hlen2. lia.
  - rewrite Hnext, Hs1. exact Hf2.
  - exists s'. split; [exact He|congruence].
Qed.
Lemma keys_after_size aft m : (length (keys_after pre aft m) ≤ size m)%nat.
Proof. unfold keys_after. rewrite sort_strings_perm. etrans; [apply length_filter|]. rewrite length_fmap. by rewrite length_map_to_list. Qed.
End Pages.

(** ** Encoded values *)

(** [encoding/json] on one type: what it writes it reads back. *)
Class Codec (A : Type) := {
  Marshal : A → option bytes;
  Unmarshal : bytes → option A;
  Unmarshal_Marshal : ∀ a b, Marshal a = Some b → Unmarshal b = Some a }.
Definition ErrEncode : terr := TFail (bs "json: encode").
Definition ErrDecode : terr := TFail (bs "json: decode").
Definition decoded `{Codec A} (r : Rec) : result terr A := match Unmarshal (Value r) with Some a => Ok a | None => Err ErrDecode end.
Definition encoded `{Codec A} (a : A) : result terr bytes := match Marshal a with Some b => Ok b | None => Err ErrEncode end.

Lemma decoded_Ok `{Codec A} r a : decoded r = Ok a → Unmarshal (Value r) = Some a.
Proof. unfold decoded. destruct (Unmarshal _); congruence. Qed.
Lemma encoded_Ok `{Codec A} a b : encoded a = Ok b → Unmarshal b = Some a.
Proof. unfold encoded. destruct (Marshal a) eqn:E; [|done]. intros [= <-]. by apply Unmarshal_Marshal. Qed.

(** The outcome of a run, with the state it leaves by name. *)
Lemma with_state {A S} (p : A * S) a s : s = p.2 → p.1 = a → p = (a, s).
Proof. by destruct p as [x y]; intros -> <-. Qed.

(** The next checks of a context, after one check. *)
Definition later (cancelled : nat → bool) : nat → bool := λ n, cancelled (S n).
