(* ===== verification/Revocation.v ===== *)
(** * The certificate status registry: [pki/revocation]

    Certificates registered at issuance, their revocation, the lookups that authorization
    runs, certificate revocation lists and OCSP responses, over the transactional store.
    [crypto/x509] and the OCSP package are the class [StatusCrypto]; records are JSON. *)
From S2P Require Import Prelude GoStrings Sha256 StateStore StateClient Jose AcmeBase.

(* @src devicemanagement/pki/revocation/registry.go 18-23 errors *)
Definition ErrUnknown : terr := TFail (bs "revocation: unknown certificate or issuer").
Definition ErrRevoked : terr := TFail (bs "revocation: certificate revoked").
Definition ErrExpired : terr := TFail (bs "revocation: certificate outside validity").
Definition ErrInvalid : terr := TFail (bs "revocation: invalid certificate, reason or configuration").

(* @src devicemanagement/pki/revocation/registry.go 26-32 Status *)
Definition Status : Type := bytes.
Definition Issued : Status := bs "issued".
Definition Revoked : Status := bs "revoked".
Definition Unknown : Status := bs "unknown".

(* @src devicemanagement/pki/revocation/registry.go 60-71 Certificate *)
Record Certificate := mkCertificate {
  c_Issuer : bytes; c_Serial : bytes; c_Fingerprint : bytes; c_DER : bytes; c_NotBefore : Time; c_NotAfter : Time;
  c_Status : Status; c_IssuedAt : Time; c_RevokedAt : Time; c_Reason : Z; c_Provenance : Provenance }.
#[export] Instance Certificate_eta : Eta Certificate := λ c,
  mkCertificate (c_Issuer c) (c_Serial c) (c_Fingerprint c) (c_DER c) (c_NotBefore c) (c_NotAfter c) (c_Status c) (c_IssuedAt c)
    (c_RevokedAt c) (c_Reason c) (c_Provenance c).
(* @src devicemanagement/pki/revocation/publication.go 23-28 publication *)
Record publication := mkPublication { p_DER : bytes; p_Number : Z; p_RefreshAt : Time; p_Dirty : bool }.
#[export] Instance publication_eta : Eta publication := λ p, mkPublication (p_DER p) (p_Number p) (p_RefreshAt p) (p_Dirty p).
Definition no_publication : publication := mkPublication [] 0 0 false.

(** What the code reads of an [x509.Certificate]; a nil serial number is [None]. *)
Record xcert := mkXcert {
  xc_Raw : bytes; xc_Serial : option Z; xc_IsCA : bool; xc_CRLSign : bool; xc_SubjectKeyId : bytes; xc_PublicKey : PublicKey;
  xc_NotBefore : Time; xc_NotAfter : Time }.
(** An issuer whose certificate and signer are there. *)
(* @src devicemanagement/pki/revocation/registry.go 75-79 Issuer *)
Record Issuer := mkIssuer { i_Certificate : xcert; i_Signer : PublicKey; CRLTTL : Z; CRLRefresh : Z; OCSPTTL : Z }.

Record crl_entry := mkEntry { ce_Serial : Z; ce_Time : Time; ce_Reason : Z }.
Record RevocationList := mkList { rl_Number : Z; rl_ThisUpdate : Time; rl_NextUpdate : Time; rl_Entries : list crl_entry }.
Inductive OcspStatus := OcspGood | OcspRevoked | OcspUnknown.
Record OcspRequest := mkOcspRequest { oq_Hash : Z; oq_NameHash : bytes; oq_KeyHash : bytes; oq_Serial : Z }.
Record OcspResponse := mkOcspResponse {
  or_Status : OcspStatus; or_Serial : Z; or_ThisUpdate : Time; or_NextUpdate : Time; or_Hash : Z; or_RevokedAt : Time; or_Reason : Z }.

(** Signing takes a draw from the random source. *)
Class StatusCrypto := {
  CheckSignatureFrom : xcert → xcert → bool;
  MarshalPublicKey : PublicKey → option bytes;
  CreateRevocationList : nat → RevocationList → Issuer → result terr bytes;
  ocsp_ParseRequest : bytes → option OcspRequest;
  ocsp_CreateRequest : Z → xcert → Z → option bytes;
  ocsp_CreateResponse : nat → OcspResponse → Issuer → result terr bytes;
  certificate_json :: Codec Certificate;
  publication_json :: Codec publication }.

(* @src devicemanagement/mdmprotocol/cms/cms.go - Fingerprint *)
Definition Fingerprint (cert : xcert) : bytes := hex_EncodeToString (Sum256 (xc_Raw cert)).

(** [big.Int.Text(16)] of a positive number, and [SetString] in base 16. *)
Fixpoint hex_fuel (fuel : nat) (n : Z) (acc : bytes) : bytes :=
  match fuel with
  | O => acc
  | S fuel' => let acc := hex_digit (n mod 16) :: acc in if n / 16 =? 0 then acc else hex_fuel fuel' (n / 16) acc
  end.
Definition Text16 (n : Z) : bytes := hex_fuel (S (Z.to_nat (Z.log2 n))) n [].
Definition hex_value (c : Z) : option Z :=
  if (48 <=? c) && (c <=? 57) then Some (c - 48)
  else if (97 <=? c) && (c <=? 102) then Some (c - 87)
  else if (65 <=? c) && (c <=? 70) then Some (c - 55) else None.
Definition SetString16 (s : bytes) : option Z :=
  let '(neg, ds) := match s with 45 :: ds => (true, ds) | 43 :: ds => (false, ds) | _ => (false, s) end in
  match ds with
  | [] => None
  | _ => vs ← mapM hex_value ds; let v := foldl (λ a d, a * 16 + d) 0 vs in Some (if (neg : bool) then - v else v)
  end.
(** A serial number the registry accepts: positive, at most twenty bytes. *)
Definition serial_ok (n : Z) : bool := (0 <? n) && (length (big_Bytes n) <=? 20)%nat.

(* @src devicemanagement/pki/revocation/registry.go - issuerKey *)
Definition issuerKey (id : bytes) : bytes := bs "pki/issuer/" ++ id.
(* @src devicemanagement/pki/revocation/registry.go - certificatePrefix *)
Definition certificatePrefix (issuer : bytes) : bytes := bs "pki/cert/" ++ issuer ++ bs "/".
(* @src devicemanagement/pki/revocation/registry.go - certKey *)
Definition certKey (issuer serial : bytes) : bytes := certificatePrefix issuer ++ serial.
(* @src devicemanagement/pki/revocation/registry.go - fingerprintKey *)
Definition fingerprintKey (hash : bytes) : bytes := bs "pki/fingerprint/" ++ hash.
(* @src devicemanagement/pki/revocation/registry.go - crlKey *)
Definition crlKey (issuer : bytes) : bytes := bs "pki/crl/" ++ issuer.

Section Registry.
Context {crypto : StatusCrypto}.

(** The issuers by fingerprint: what [New] validates once. *)
(* @src devicemanagement/pki/revocation/registry.go 82-86 Registry *)
Definition Registry : Type := gmap bytes Issuer.

(** A [None] is an issuer without certificate or signer. *)
(* @src devicemanagement/pki/revocation/registry.go 94-114 New *)
Fixpoint new_loop (issuers : list (option Issuer)) (r : Registry) : result terr Registry :=
  match issuers with
  | [] => Ok r
  | None :: _ => Err ErrInvalid
  | Some i :: rest =>
      let c := i_Certificate i in
      _ ← reject (negb (xc_IsCA c) || negb (xc_CRLSign c) || bool_decide (xc_SubjectKeyId c = []) || (CRLTTL i <=? 0) || (CRLRefresh i <=? 0)
                  || (CRLTTL i <=? CRLRefresh i) || (OCSPTTL i <=? 0)) ErrInvalid;
      match MarshalPublicKey (i_Signer i), MarshalPublicKey (xc_PublicKey c) with
      | Some a, Some b =>
          _ ← reject (bool_decide (a ≠ b)) ErrInvalid;
          let id := Fingerprint c in
          _ ← reject (bool_decide (is_Some (r !! id))) ErrInvalid;
          new_loop rest (<[id := i]> r)
      | _, _ => Err (TFail (bs "x509: unsupported public key"))
      end
  end.
(* @src devicemanagement/pki/revocation/registry.go - New *)
Definition New {S} (store : option S) (issuers : list (option Issuer)) : result terr Registry :=
  _ ← reject (bool_decide (store = None ∨ issuers = [])) ErrInvalid;
  new_loop issuers ∅.

(** ** Records *)

(* @src devicemanagement/pki/revocation/registry.go - putJSON *)
Definition putJSON `{Codec A} (key : bytes) (v : A) : txm unit := b ← t_lift (encoded v); t_put (mkRec key b 0).
(** [ErrUnknown] is [None] where the callers tell it apart. *)
(* @src devicemanagement/pki/revocation/registry.go - readCertificate *)
Definition readCertificate (key : bytes) : txm (option Certificate) :=
  r ← t_find key;
  match r with
  | None => mret None
  | Some r => c ← t_lift (decoded r); mret (Some c)
  end.
(* @src devicemanagement/pki/revocation/publication.go - readPublication *)
Definition readPublication (issuer : bytes) : txm publication :=
  r ← t_find (crlKey issuer);
  match r with
  | None => mret no_publication
  | Some r => t_lift (decoded r)
  end.
(** The same read outside a transaction. *)
(* @src devicemanagement/pki/revocation/registry.go 152-163 readCertificate *)
Definition stored_certificate (r : result terr Rec) : result terr Certificate :=
  match r with
  | Ok r => decoded r
  | Err TNotFound => Err ErrUnknown
  | Err e => Err e
  end.

(** ** Registration *)

(* @src devicemanagement/pki/revocation/registry.go 180-202 Registry.Register *)
Definition register_tx (issuer serial hash : bytes) (cert : xcert) (p : Provenance) : txm unit :=
  let key := certKey issuer serial in
  old ← readCertificate key;
  match old with
  | Some old => t_lift (reject (bool_decide (c_Fingerprint old ≠ hash)) ErrInvalid)
  | None =>
      prior ← t_find (fingerprintKey hash);
      _ ← t_lift (reject match prior with Some r => bool_decide (Value r ≠ key) | None => false end ErrInvalid);
      at_ ← t_now;
      _ ← putJSON key (mkCertificate issuer serial hash (xc_Raw cert) (xc_NotBefore cert) (xc_NotAfter cert) Issued at_ 0 0 p);
      t_put (mkRec (fingerprintKey hash) key 0)
  end.
(** What is checked before the store is asked. *)
(* @src devicemanagement/pki/revocation/registry.go 168-179 Registry.Register *)
Definition registrable (r : Registry) (issuer : bytes) (cert : option xcert) : result terr (bytes * xcert) :=
  match r !! issuer, cert with
  | None, _ => Err ErrUnknown
  | Some _, None => Err ErrInvalid
  | Some i, Some cert =>
      match xc_Serial cert with
      | None => Err ErrInvalid
      | Some n =>
          _ ← reject (negb (serial_ok n) || xc_IsCA cert) ErrInvalid;
          _ ← reject (negb (CheckSignatureFrom cert (i_Certificate i))) ErrInvalid;
          Ok (Text16 n, cert)
      end
  end.
(* @src devicemanagement/pki/revocation/registry.go - Registry.Register *)
Definition Register {St} `{!TxStore St} (cancelled : nat → bool) (clock : Time) (r : Registry) (issuer : bytes) (cert : option xcert) (p : Provenance) (s : St)
  : result terr unit * St :=
  match registrable r issuer cert with
  | Err e => (Err e, s)
  | Ok (serial, cert) =>
      let hash := Fingerprint cert in
      store_update cancelled clock [issuerKey issuer; certKey issuer serial; fingerprintKey hash] (Some (register_tx issuer serial hash cert p)) s
  end.

(** ** Lookups *)

(* @src devicemanagement/pki/revocation/registry.go - Registry.Lookup *)
Definition Lookup {St} `{!TxStore St} (cancelled : nat → bool) (r : Registry) (issuer : bytes) (serial : option Z) (s : St) : result terr Certificate :=
  match r !! issuer, serial with
  | Some _, Some n => if serial_ok n then stored_certificate (store_get cancelled (certKey issuer (Text16 n)) s) else Err ErrUnknown
  | _, _ => Err ErrUnknown
  end.
(* @src devicemanagement/pki/revocation/registry.go - Registry.ByCertificate *)
Definition ByCertificate {St} `{!TxStore St} (cancelled : nat → bool) (cert : option xcert) (s : St) : result terr Certificate :=
  match cert with
  | None => Err ErrUnknown
  | Some cert =>
      match store_get cancelled (fingerprintKey (Fingerprint cert)) s with
      | Err TNotFound => Err ErrUnknown
      | Err e => Err e
      | Ok v =>
          c ← stored_certificate (store_get (later cancelled) (Value v) s);
          _ ← reject (bool_decide (c_DER c ≠ xc_Raw cert)) ErrInvalid;
          Ok c
      end
  end.
(* @src devicemanagement/pki/revocation/registry.go - Registry.Check *)
Definition Check_ {St} `{!TxStore St} (cancelled : nat → bool) (now : Time) (cert : option xcert) (s : St) : result terr unit :=
  c ← ByCertificate cancelled cert s;
  _ ← reject (bool_decide (c_Status c = Revoked)) ErrRevoked;
  _ ← reject (bool_decide (c_Status c ≠ Issued)) ErrUnknown;
  reject ((now <? c_NotBefore c) || negb (now <? c_NotAfter c)) ErrExpired.

(** ** Revocation *)

(* @src devicemanagement/pki/revocation/registry.go 276-296 Registry.Revoke *)
Definition revoke_tx (issuer key : bytes) (reason : Z) : txm unit :=
  old ← readCertificate key;
  match old with
  | None => t_lift (Err ErrUnknown)
  | Some c =>
      _ ← t_lift (reject (bool_decide (c_Status c = Revoked)) ErrRevoked);
      at_ ← t_now;
      _ ← putJSON key (c <| c_Status := Revoked |> <| c_RevokedAt := at_ |> <| c_Reason := reason |>);
      crl ← readPublication issuer;
      putJSON (crlKey issuer) (crl <| p_Dirty := true |>)
  end.
(* @src devicemanagement/pki/revocation/registry.go - Registry.Revoke *)
Definition Revoke {St} `{!TxStore St} (cancelled : nat → bool) (clock : Time) (r : Registry) (issuer : bytes) (serial : option Z) (reason : Z) (s : St)
  : result terr unit * St :=
  if negb (ValidReason reason) then (Err ErrInvalid, s)
  else match Lookup cancelled r issuer serial s with
  | Err e => (Err e, s)
  | Ok _ =>
      let key := certKey issuer (Text16 (default 0 serial)) in
      store_update (later cancelled) clock [issuerKey issuer; key] (Some (revoke_tx issuer key reason)) s
  end.

(** ** Publication *)

(** The body of the loop over the certificates of an issuer. *)
(* @src devicemanagement/pki/revocation/publication.go 74-84 Registry.CRL *)
Definition list_entry (now : Time) (entries : list crl_entry) (v : Rec) : result terr (list crl_entry) :=
  c ← decoded v;
  if bool_decide (c_Status c = Revoked) && negb (c_NotAfter c <? now) then
    match SetString16 (c_Serial c) with
    | None => Err ErrInvalid
    | Some serial => Ok (entries ++ [mkEntry serial (c_RevokedAt c) (c_Reason c)])
    end
  else Ok entries.
(** [int64] addition. *)
Definition wrap64 (n : Z) : Z := (n + 2 ^ 63) mod 2 ^ 64 - 2 ^ 63.
Definition outside_validity (c : xcert) (now : Time) : bool := (now <? xc_NotBefore c) || negb (now <? xc_NotAfter c).
Definition next_update (c : xcert) (now ttl : Time) : Time := let next := now + ttl in if xc_NotAfter c <? next then xc_NotAfter c else next.
(** [fuel] bounds the pages of a thousand records. *)
(* @src devicemanagement/pki/revocation/publication.go 53-104 Registry.CRL *)
Definition crl_tx (fuel : nat) (draw : nat) (issuer : bytes) (i : Issuer) : txm bytes :=
  p ← readPublication issuer;
  now ← t_now;
  _ ← t_lift (reject (outside_validity (i_Certificate i) now) ErrExpired);
  if bool_decide (p_DER p ≠ []) && negb (p_Dirty p) && (now <? p_RefreshAt p) then mret (p_DER p)
  else
    entries ← t_pages fuel (certificatePrefix issuer) [] 1000 (list_entry now) [];
    let number := wrap64 (p_Number p + 1) in
    _ ← t_lift (reject (number <=? 0) ErrInvalid);
    der ← t_lift (CreateRevocationList draw (mkList number now (next_update (i_Certificate i) now (CRLTTL i)) entries) i);
    _ ← putJSON (crlKey issuer) (mkPublication der number (now + CRLRefresh i) false);
    mret der.
(* @src devicemanagement/pki/revocation/publication.go - Registry.CRL *)
Definition CRL {St} `{!TxStore St} (cancelled : nat → bool) (clock : Time) (draw : nat) (r : Registry) (issuer : bytes) (s : St) : result terr bytes * St :=
  match r !! issuer with
  | None => (Err ErrUnknown, s)
  | Some i => store_update cancelled clock [issuerKey issuer] (Some (crl_tx (Datatypes.S (size (store_view s))) draw issuer i)) s
  end.

(** The status of a serial number, as far as the store knows it. *)
(* @src devicemanagement/pki/revocation/publication.go 138-152 Registry.OCSP *)
Definition ocsp_status (req : OcspRequest) (now next : Time) (c : option Certificate) : OcspResponse :=
  let resp status at_ reason := mkOcspResponse status (oq_Serial req) now next (oq_Hash req) at_ reason in
  match c with
  | Some c =>
      if bool_decide (c_Status c = Issued) then resp OcspGood 0 0
      else if bool_decide (c_Status c = Revoked) then resp OcspRevoked (c_RevokedAt c) (c_Reason c)
      else resp OcspUnknown 0 0
  | None => resp OcspUnknown 0 0
  end.
(* @src devicemanagement/pki/revocation/publication.go - Registry.OCSP *)
Definition OCSP {St} `{!TxStore St} (cancelled : nat → bool) (now : Time) (draw : nat) (r : Registry) (issuer : bytes) (request : bytes) (s : St) : result terr bytes :=
  match r !! issuer with
  | None => Err ErrUnknown
  | Some i =>
      match ocsp_ParseRequest request with
      | None => Err ErrInvalid
      | Some req =>
      match ocsp_CreateRequest (oq_Serial req) (i_Certificate i) (oq_Hash req) with
      | None => Err ErrInvalid
      | Some expected =>
      match ocsp_ParseRequest expected with
      | None => Err (TFail (bs "ocsp: parse"))
      | Some want =>
          _ ← reject (bool_decide (oq_KeyHash want ≠ oq_KeyHash req) || bool_decide (oq_NameHash want ≠ oq_NameHash req)) ErrUnknown;
          _ ← reject (outside_validity (i_Certificate i) now) ErrExpired;
          let next := next_update (i_Certificate i) now (OCSPTTL i) in
          c ← match Lookup cancelled r issuer (Some (oq_Serial req)) s with
              | Ok c => Ok (Some c)
              | Err e => if bool_decide (e = ErrUnknown) then Ok None else Err e
              end;
          ocsp_CreateResponse draw (ocsp_status req now next c) i
      end
      end
      end
  end.
End Registry.
