(* ===== verification/RevocationSafety.v ===== *)
(** * What the certificate status registry guarantees

    Every change of the registry is one transaction, so whatever replicas do at the same
    time is a sequence of such transactions, with changes of other records and pruning in
    between: [rstep]. In every such history a revocation is final, a revocation list names
    exactly the revoked certificates, and a list number is used for one list. *)
From S2P Require Import Prelude GoStrings StateStore Sha256 Jose AcmeBase StateClient Revocation.

(** ** Serial numbers as text *)

Lemma hex_value_digit n : 0 ≤ n < 16 → hex_value (hex_digit n) = Some n.
Proof.
  intros Hn. unfold hex_digit, hex_value. destruct (Z.ltb_spec n 10).
  - rewrite (proj2 (Z.leb_le 48 _)), (proj2 (Z.leb_le _ 57)) by lia. cbn. f_equal. lia.
  - rewrite (proj2 (Z.leb_gt _ 57)), andb_false_r by lia. rewrite (proj2 (Z.leb_le 97 _)), (proj2 (Z.leb_le _ 102)) by lia. cbn. f_equal. lia.
Qed.
Lemma hex_fuel_spec fuel : ∀ n acc, 0 ≤ n < 16 ^ Z.of_nat fuel → (1 ≤ fuel)%nat →
  ∃ ds vs, hex_fuel fuel n acc = ds ++ acc ∧ ds ≠ [] ∧ Forall is_hex ds ∧ mapM hex_value ds = Some vs ∧ foldl (λ a d, a * 16 + d) 0 vs = n.
Proof.
  induction fuel as [|fuel IH]; intros n acc Hn Hf; [lia|]. cbn [hex_fuel]. pose proof (Z.mod_pos_bound n 16 ltac:(lia)) as Hm.
  assert (Hd := hex_value_digit _ Hm). destruct (Z.eqb_spec (n / 16) 0) as [E|E].
  - exists [hex_digit (n mod 16)], [n mod 16]. split_and!; [done|done|constructor; [by apply hex_digit_hex|constructor]|cbn; by rewrite Hd|].
    cbn. pose proof (Z.div_mod n 16). lia.
  - assert (0 < n / 16) by (assert (0 ≤ n / 16) by (apply Z.div_pos; lia); lia).
    rewrite Nat2Z.inj_succ, Z.pow_succ_r in Hn by lia. assert (n / 16 < 16 ^ Z.of_nat fuel) by (apply Z.div_lt_upper_bound; lia).
    destruct fuel as [|fuel]; [cbn in *; lia|]. destruct (IH (n / 16) (hex_digit (n mod 16) :: acc)) as (ds & vs & -> & Hne & Hh & Hmap & Hv); [lia..|].
    exists (ds ++ [hex_digit (n mod 16)]), (vs ++ [n mod 16]). split_and!.
    + by rewrite <-app_assoc.
    + by destruct ds.
    + apply Forall_app. split; [done|]. constructor; [by apply hex_digit_hex|constructor].
    + apply mapM_Some. apply Forall2_app; [by apply mapM_Some|]. by repeat constructor.
    + rewrite foldl_app, Hv. cbn. pose proof (Z.div_mod n 16). lia.
Qed.
Lemma Text16_spec n : 0 < n → ∃ vs, Text16 n ≠ [] ∧ Forall is_hex (Text16 n) ∧ mapM hex_value (Text16 n) = Some vs ∧ foldl (λ a d, a * 16 + d) 0 vs = n.
Proof.
  intros Hn. destruct (hex_fuel_spec (S (Z.to_nat (Z.log2 n))) n []) as (ds & vs & E & ? & ? & ? & ?).
  - split; [lia|]. rewrite Nat2Z.inj_succ, Z2Nat.id by apply Z.log2_nonneg. destruct (Z.log2_spec n Hn) as [_ H]. eapply Z.lt_le_trans; [exact H|].
    apply Z.pow_le_mono_l. lia.
  - lia.
  - rewrite app_nil_r in E. unfold Text16. rewrite E. by exists vs.
Qed.
Lemma SetString16_Text16 n : 0 < n → SetString16 (Text16 n) = Some n.
Proof.
  intros Hn. destruct (Text16_spec n Hn) as (vs & Hne & Hh & Hm & Hv). destruct (Text16 n) as [|c ds] eqn:E; [done|]. clear E Hne.
  unfold SetString16. assert (is_hex c) as Hc by (by apply Forall_cons in Hh as [? _]). unfold is_hex in Hc.
  assert (match c :: ds with 45 :: ds0 => (true, ds0) | 43 :: ds0 => (false, ds0) | _ => (false, c :: ds) end = (false, c :: ds)) as ->.
  { destruct (decide (c = 45)); [lia|]. destruct (decide (c = 43)); [lia|]. destruct c as [|p|p]; try done. repeat (destruct p as [p|p|]; try done; try lia). }
  rewrite Hm. cbn. by rewrite Hv.
Qed.
Lemma Text16_inj n m : 0 < n → 0 < m → Text16 n = Text16 m → n = m.
Proof. intros Hn Hm E. pose proof (SetString16_Text16 n Hn) as H. rewrite E, SetString16_Text16 in H by done. by injection H. Qed.
Lemma serial_ok_pos n : serial_ok n = true → 0 < n.
Proof. unfold serial_ok. intros [H _]%andb_prop. by apply Z.ltb_lt. Qed.

(** ** Keys *)

Lemma Fingerprint_length c : length (Fingerprint c) = 64%nat.
Proof. unfold Fingerprint. destruct (Sum256_spec (xc_Raw c)) as [Hl Hb]. destruct (hex_spec _ Hb) as [_ ->]. by rewrite Hl. Qed.

Lemma certKey_inj i j s t : length i = length j → certKey i s = certKey j t → i = j ∧ s = t.
Proof.
  unfold certKey, certificatePrefix. intros Hl E. rewrite <-!app_assoc in E. apply app_inv_head in E. apply app_inj_1 in E as [-> E]; [|done]. by injection E.
Qed.
Lemma certKey_prefix i j t : length i = length j → has_prefix (certKey j t) (certificatePrefix i) = true → i = j.
Proof.
  intros Hl (r & E)%has_prefix_spec. symmetry. eapply (certKey_inj j i t r); [done|exact E].
Qed.
Lemma crlKey_inj i j : crlKey i = crlKey j → i = j.
Proof. apply app_inv_head. Qed.
Lemma fingerprintKey_inj i j : fingerprintKey i = fingerprintKey j → i = j.
Proof. apply app_inv_head. Qed.
Definition is_cert (k : bytes) : bool := has_prefix k (bs "pki/cert/").
Definition is_fingerprint (k : bytes) : bool := has_prefix k (bs "pki/fingerprint/").
Definition is_crl (k : bytes) : bool := has_prefix k (bs "pki/crl/").
Definition registry_key (k : bytes) : bool := is_cert k || is_fingerprint k || is_crl k.

Lemma is_cert_certKey i s : is_cert (certKey i s) = true.
Proof. unfold is_cert, certKey, certificatePrefix. rewrite <-app_assoc. apply has_prefix_app. Qed.
Lemma is_fingerprint_key h : is_fingerprint (fingerprintKey h) = true.
Proof. apply has_prefix_app. Qed.
Lemma is_crl_crlKey i : is_crl (crlKey i) = true.
Proof. apply has_prefix_app. Qed.
(** The three kinds of keys are apart. *)
Lemma kinds_apart k : (is_cert k = true → is_fingerprint k = false ∧ is_crl k = false) ∧ (is_fingerprint k = true → is_cert k = false ∧ is_crl k = false) ∧
  (is_crl k = true → is_cert k = false ∧ is_fingerprint k = false).
Proof. split_and!; intros (x & ->)%has_prefix_spec; by split. Qed.
Lemma kinds_ne k k' : (is_cert k ≠ is_cert k' ∨ is_fingerprint k ≠ is_fingerprint k' ∨ is_crl k ≠ is_crl k') → k ≠ k'.
Proof. intros H ->. naive_solver. Qed.
Lemma cert_ne_fingerprint i s h : certKey i s ≠ fingerprintKey h.
Proof. intros E. pose proof (is_cert_certKey i s) as H. rewrite E in H. discriminate H. Qed.
Lemma cert_ne_crl i s j : certKey i s ≠ crlKey j.
Proof. intros E. pose proof (is_cert_certKey i s) as H. rewrite E in H. discriminate H. Qed.
Lemma fingerprint_ne_crl h j : fingerprintKey h ≠ crlKey j.
Proof. intros E. pose proof (is_fingerprint_key h) as H. rewrite E in H. discriminate H. Qed.

(** ** Histories *)

Section History.
Context {crypto : StatusCrypto} (r : Registry).

(** One transaction of the registry, a change of records that are not the registry's, or the
    pruning of records past their deadline. *)
Inductive rstep (m : gmap bytes Rec) : gmap bytes Rec → Prop :=
| step_register cancelled clock issuer cert0 serial cert p :
    registrable r issuer cert0 = Ok (serial, cert) →
    rstep m (spec_update cancelled clock [issuerKey issuer; certKey issuer serial; fingerprintKey (Fingerprint cert)]
               (Some (register_tx issuer serial (Fingerprint cert) cert p)) m).2
| step_revoke cancelled clock issuer i n reason :
    r !! issuer = Some i → serial_ok n = true →
    rstep m (spec_update cancelled clock [issuerKey issuer; certKey issuer (Text16 n)] (Some (revoke_tx issuer (certKey issuer (Text16 n)) reason)) m).2
| step_crl cancelled clock fuel draw issuer i :
    r !! issuer = Some i → rstep m (spec_update cancelled clock [issuerKey issuer] (Some (crl_tx fuel draw issuer i)) m).2
| step_other m' :
    keys_ok m' → (∀ k, registry_key k = true → m' !! k = m !! k) → rstep m m'
| step_prune clock m' :
    m' ⊆ m → (∀ k row, m !! k = Some row → m' !! k = None → expired clock row = true) → rstep m m'.

(** The store before the registry was used, and after any history. *)
Definition reachable (m : gmap bytes Rec) : Prop :=
  ∃ m0, keys_ok m0 ∧ (∀ k, registry_key k = true → m0 !! k = None) ∧ rtc rstep m0 m.

(** ** What a transaction did *)

Lemma readCertificate_inv cancelled clock key o s s' : spec_exec cancelled clock (readCertificate key) s = (Ok o, s') →
  smap s' = smap s ∧ match smap s !! key with Some row => ∃ c, o = Some c ∧ Unmarshal (Value row) = Some c | None => o = None end.
Proof.
  unfold readCertificate. intros H. apply exec_bind in H as (x & s1 & Hx & H). tx_inv Hx. destruct x as [row|]; rewrite Hx.
  - tx_inv H. subst. apply decoded_Ok in Hx0. split; [congruence|]. eauto.
  - tx_inv H. by subst.
Qed.
Definition pub (m : gmap bytes Rec) (issuer : bytes) : option publication :=
  match m !! crlKey issuer with Some row => Unmarshal (Value row) | None => Some no_publication end.
Lemma readPublication_inv cancelled clock issuer p s s' : spec_exec cancelled clock (readPublication issuer) s = (Ok p, s') →
  smap s' = smap s ∧ pub (smap s) issuer = Some p.
Proof.
  unfold readPublication, pub. intros H. apply exec_bind in H as (x & s1 & Hx & H). tx_inv Hx. destruct x as [row|]; rewrite Hx.
  - tx_inv H. subst. apply decoded_Ok in H. split; congruence.
  - tx_inv H. subst. by split.
Qed.
Lemma putJSON_inv `{Codec A} cancelled clock key (v : A) u s s' : spec_exec cancelled clock (putJSON key v) s = (Ok u, s') →
  ∃ b, smap s' = <[key := mkRec key b 0]> (smap s) ∧ Unmarshal b = Some v ∧ ValidKey key = true.
Proof. unfold putJSON. intros Hp. tx_inv Hp. subst. apply encoded_Ok in Hx. eauto. Qed.

Lemma register_inv cancelled clock keys issuer serial hash cert p m u m' :
  spec_update cancelled clock keys (Some (register_tx issuer serial hash cert p)) m = (Ok u, m') →
  (m' = m ∧ ∃ row c, m !! certKey issuer serial = Some row ∧ Unmarshal (Value row) = Some c ∧ c_Fingerprint c = hash) ∨
  (m !! certKey issuer serial = None ∧ (∀ row, m !! fingerprintKey hash = Some row → Value row = certKey issuer serial) ∧
   ∃ b, Unmarshal b = Some (mkCertificate issuer serial hash (xc_Raw cert) (xc_NotBefore cert) (xc_NotAfter cert) Issued clock 0 0 p) ∧
     m' = <[fingerprintKey hash := mkRec (fingerprintKey hash) (certKey issuer serial) 0]> (<[certKey issuer serial := mkRec (certKey issuer serial) b 0]> m) ∧
     ValidKey (certKey issuer serial) = true ∧ ValidKey (fingerprintKey hash) = true).
Proof.
  intros (s & H & <-)%spec_update_Ok. unfold register_tx in H. apply exec_bind in H as (old & s1 & Ho & H). apply readCertificate_inv in Ho as [Hs1 Ho]. cbn [smap] in Hs1, Ho.
  destruct (m !! certKey issuer serial) as [row|] eqn:Erow.
  - destruct Ho as (c & -> & Hc). tx_inv H. subst. apply reject_Ok_inv in H. bool_hyps. left. split; [done|]. eauto.
  - subst old. right. split; [done|]. apply exec_bind in H as (prior & s2 & Hf & H). tx_inv Hf. apply exec_bind in H as (u1 & s3 & Hr & H). tx_inv Hr. apply reject_Ok_inv in Hr.
    apply exec_bind in H as (t & s4 & Ht & H). tx_inv Ht. apply exec_bind in H as (u2 & s5 & Hp & H). apply putJSON_inv in Hp as (b & Hs & Hb & Hv). apply exec_put in H as [H Hv'].
    subst t s3 s4. rewrite Hs1 in Hf. match goal with Hm : smap s2 = smap s1 |- _ => rewrite Hm, Hs1 in Hs end. rewrite Hs in H. split.
    + intros row Hrow. rewrite Hrow in Hf. subst prior. by bool_hyps.
    + exists b. by split_and!.
Qed.

Lemma revoke_inv cancelled clock keys issuer key reason m u m' : key ≠ crlKey issuer →
  spec_update cancelled clock keys (Some (revoke_tx issuer key reason)) m = (Ok u, m') →
  ∃ row c q b b', m !! key = Some row ∧ Unmarshal (Value row) = Some c ∧ c_Status c ≠ Revoked ∧ pub m issuer = Some q ∧
    Unmarshal b = Some (c <| c_Status := Revoked |> <| c_RevokedAt := clock |> <| c_Reason := reason |>) ∧ Unmarshal b' = Some (q <| p_Dirty := true |>) ∧
    m' = <[crlKey issuer := mkRec (crlKey issuer) b' 0]> (<[key := mkRec key b 0]> m) ∧ ValidKey key = true ∧ ValidKey (crlKey issuer) = true.
Proof.
  intros Hne (s & H & <-)%spec_update_Ok. unfold revoke_tx in H. apply exec_bind in H as (old & s1 & Ho & H). apply readCertificate_inv in Ho as [Hs1 Ho]. cbn [smap] in Hs1, Ho.
  destruct (m !! key) as [row|]; [destruct Ho as (c & -> & Hc)|subst old; by tx_inv H].
  apply exec_bind in H as (u1 & s2 & Hr & H). tx_inv Hr. apply reject_Ok_inv in Hr. bool_hyps. apply exec_bind in H as (t & s3 & Ht & H). tx_inv Ht. subst t s2 s3.
  apply exec_bind in H as (u2 & s4 & Hp & H). apply putJSON_inv in Hp as (b & Hb & Hbc & Hv). apply exec_bind in H as (q & s5 & Hq & H). apply readPublication_inv in Hq as [Hs5 Hq].
  apply putJSON_inv in H as (b' & Hb' & Hbq & Hv'). rewrite Hs1 in Hb. rewrite Hs5, Hb in Hb'. rewrite Hb in Hq. unfold pub in Hq. rewrite lookup_insert_ne in Hq by done.
  exists row, c, q, b, b'. split_and!; try done.
Qed.

Lemma crl_inv cancelled clock keys fuel draw issuer i m der m' : keys_ok m →
  spec_update cancelled clock keys (Some (crl_tx fuel draw issuer i)) m = (Ok der, m') →
  ∃ q, pub m issuer = Some q ∧
  ((m' = m ∧ der = p_DER q ∧ p_DER q ≠ [] ∧ p_Dirty q = false ∧ clock < p_RefreshAt q) ∨
   ∃ entries b, foldM (list_entry clock) [] (rows (certificatePrefix issuer) m) = Ok entries ∧ 0 < wrap64 (p_Number q + 1) ∧
     CreateRevocationList draw (mkList (wrap64 (p_Number q + 1)) clock (next_update (i_Certificate i) clock (CRLTTL i)) entries) i = Ok der ∧
     Unmarshal b = Some (mkPublication der (wrap64 (p_Number q + 1)) (clock + CRLRefresh i) false) ∧
     m' = <[crlKey issuer := mkRec (crlKey issuer) b 0]> m ∧ ValidKey (crlKey issuer) = true).
Proof.
  intros Hk (s & H & <-)%spec_update_Ok. unfold crl_tx in H. apply exec_bind in H as (q & s1 & Hq & H). apply readPublication_inv in Hq as [Hs1 Hq]. cbn [smap] in Hs1, Hq.
  apply exec_bind in H as (t & s2 & Ht & H). tx_inv Ht. apply exec_bind in H as (u & s3 & Hv & H). tx_inv Hv. subst t s2 s3. exists q. split; [done|].
  case_match eqn:Hc.
  - tx_inv H. subst s1 der. bool_hyps. left. split_and!; (done || lia).
  - apply exec_bind in H as (entries & s4 & He & H). apply t_pages_Ok in He as [He Hs4]; [|by rewrite Hs1].
    apply exec_bind in H as (u1 & s5 & Hn & H). tx_inv Hn. apply reject_Ok_inv in Hn. bool_hyps. apply exec_bind in H as (d & s6 & Hd & H). tx_inv Hd. apply exec_bind in H as (u2 & s7 & Hp & H).
    apply putJSON_inv in Hp as (b & Hb & Hbq & Hvk). tx_inv H. subst s4 s5 s7 d. right. exists entries, b. rewrite Hs1 in He. rewrite Hs4, Hs1 in Hb. split_and!; (done || lia).
Qed.

(** ** The invariant *)

(** Row [e] of a list made at [now]: a certificate of the issuer, revoked, and not expired then. *)
Definition revoked_row (m : gmap bytes Rec) (issuer : bytes) (now : Time) (e : crl_entry) : Prop :=
  ∃ row c, m !! certKey issuer (Text16 (ce_Serial e)) = Some row ∧ serial_ok (ce_Serial e) = true ∧ Unmarshal (Value row) = Some c ∧
    c_Status c = Revoked ∧ now ≤ c_NotAfter c ∧ ce_Time e = c_RevokedAt c ∧ ce_Reason e = c_Reason c.
(** The list that publication [p] holds is complete. *)
Definition published (m : gmap bytes Rec) (issuer : bytes) (i : Issuer) (p : publication) : Prop :=
  ∃ draw now entries, CreateRevocationList draw (mkList (p_Number p) now (next_update (i_Certificate i) now (CRLTTL i)) entries) i = Ok (p_DER p) ∧
    p_RefreshAt p = now + CRLRefresh i ∧ ∀ e, e ∈ entries ↔ revoked_row m issuer now e.

Record cert_ok (m : gmap bytes Rec) (k : bytes) (row : Rec) : Prop := {
  co_immortal : ExpiresAt row = 0;
  co_row : ∃ issuer i n c, r !! issuer = Some i ∧ serial_ok n = true ∧ k = certKey issuer (Text16 n) ∧ Unmarshal (Value row) = Some c ∧ c_Serial c = Text16 n ∧
    (c_Status c = Issued ∨ c_Status c = Revoked) ∧ m !! fingerprintKey (c_Fingerprint c) = Some (mkRec (fingerprintKey (c_Fingerprint c)) k 0) }.
Record crl_ok (m : gmap bytes Rec) (k : bytes) (row : Rec) : Prop := {
  lo_immortal : ExpiresAt row = 0;
  lo_row : ∃ issuer i p, r !! issuer = Some i ∧ k = crlKey issuer ∧ Unmarshal (Value row) = Some p ∧ 0 ≤ p_Number p ≤ max_int64 ∧
    (p_DER p ≠ [] → p_Dirty p = false → published m issuer i p) }.
Record RInv (m : gmap bytes Rec) : Prop := {
  ri_keys : keys_ok m;
  ri_cert : ∀ k row, m !! k = Some row → is_cert k = true → cert_ok m k row;
  ri_fingerprint : ∀ k row, m !! k = Some row → is_fingerprint k = true → ExpiresAt row = 0;
  ri_crl : ∀ k row, m !! k = Some row → is_crl k = true → crl_ok m k row }.

(** What a history keeps: the index, every revoked certificate as it is, and the numbers. *)
Definition keeps_number (q q' : publication) : Prop := p_Number q < p_Number q' ∨ (p_Number q = p_Number q' ∧ p_DER q = p_DER q').
Record grows (m m' : gmap bytes Rec) : Prop := {
  gr_fingerprint : ∀ k row, is_fingerprint k = true → m !! k = Some row → m' !! k = Some row;
  gr_cert : ∀ k row c, is_cert k = true → m !! k = Some row → Unmarshal (Value row) = Some c →
    ∃ row' c', m' !! k = Some row' ∧ Unmarshal (Value row') = Some c' ∧ c_Fingerprint c' = c_Fingerprint c ∧ (c_Status c = Revoked → c' = c);
  gr_crl : ∀ issuer q, r !! issuer ≠ None → pub m issuer = Some q → ∃ q', pub m' issuer = Some q' ∧ keeps_number q q' }.
#[export] Instance grows_preorder : PreOrder grows.
Proof.
  split.
  - intros m. split; [done| |]; [intros k row c _ H H'; by exists row, c|intros issuer q _ H; exists q; split; [done|by right]].
  - intros m1 m2 m3 [F1 C1 L1] [F2 C2 L2]. split; [auto| |].
    + intros k row c Hk H Hc. destruct (C1 k row c Hk H Hc) as (r2 & c2 & H2 & Hc2 & E2 & S2), (C2 k r2 c2 Hk H2 Hc2) as (r3 & c3 & H3 & Hc3 & E3 & S3).
      exists r3, c3. split_and!; [done..|congruence|]. intros Hs. pose proof (S2 Hs) as ->. by apply S3.
    + intros issuer q Hr Hq. destruct (L1 issuer q Hr Hq) as (q2 & Hq2 & K2), (L2 issuer q2 Hr Hq2) as (q3 & Hq3 & K3). exists q3. split; [done|].
      unfold keeps_number in *. destruct K2 as [?|[? ?]], K3 as [?|[? ?]]; [left; lia..|right; split; congruence].
Qed.

Lemma revoked_row_ext m m' issuer now e : (∀ n, serial_ok n = true → m' !! certKey issuer (Text16 n) = m !! certKey issuer (Text16 n)) →
  revoked_row m' issuer now e ↔ revoked_row m issuer now e.
Proof. intros H. unfold revoked_row. split; intros (row & c & Hr & Hs & ?); exists row, c; [rewrite H in Hr by done|rewrite H by done]; done. Qed.
Lemma published_ext m m' issuer i p : (∀ now e, revoked_row m' issuer now e ↔ revoked_row m issuer now e) → published m issuer i p → published m' issuer i p.
Proof. intros H (draw & now & entries & ? & ? & He). exists draw, now, entries. split_and!; [done..|]. intros e. by rewrite H. Qed.

(** Records that are not the registry's do not matter. *)
Lemma frame_ok m m' : keys_ok m' → (∀ k, registry_key k = true → m' !! k = m !! k) → RInv m → RInv m' ∧ grows m m'.
Proof.
  intros Hk Hs Hi. assert (Hc : ∀ k, is_cert k = true → m' !! k = m !! k) by (intros k E; apply Hs; unfold registry_key; by rewrite E).
  assert (Hf : ∀ k, is_fingerprint k = true → m' !! k = m !! k) by (intros k E; apply Hs; unfold registry_key; by rewrite E, orb_true_r).
  assert (Hl : ∀ k, is_crl k = true → m' !! k = m !! k) by (intros k E; apply Hs; unfold registry_key; by rewrite E, orb_true_r).
  split; split; [done|..].
  - intros k row H Ek. rewrite Hc in H by done. destruct (ri_cert _ Hi k row H Ek) as [? (issuer & i & n & c & ? & ? & ? & ? & ? & ? & Hfp)]. split; [done|].
    exists issuer, i, n, c. split_and!; try done. by rewrite Hf by apply is_fingerprint_key.
  - intros k row H Ek. rewrite Hf in H by done. by eapply (ri_fingerprint _ Hi).
  - intros k row H Ek. rewrite Hl in H by done. destruct (ri_crl _ Hi k row H Ek) as [? (issuer & i & p & ? & ? & ? & ? & Hp)]. split; [done|].
    exists issuer, i, p. split_and!; try done; try tauto. intros Hd1 Hd2. eapply published_ext; [|by apply Hp]. intros now e. apply revoked_row_ext. intros n _. apply Hc, is_cert_certKey.
  - intros k row E H. by rewrite Hf.
  - intros k row c E H Hu. exists row, c. by rewrite Hc.
  - intros issuer q _ Hq. exists q. unfold pub in *. rewrite Hl by apply is_crl_crlKey. split; [done|by right].
Qed.

(** Issuers are named by their fingerprints, all of one length. *)
Definition named (issuers : Registry) : Prop := ∀ id i, issuers !! id = Some i → id = Fingerprint (i_Certificate i).
Context (Hnamed : named r).
Lemma same_length i j x y : r !! i = Some x → r !! j = Some y → length i = length j.
Proof. intros ->%Hnamed ->%Hnamed. by rewrite !Fingerprint_length. Qed.

Lemma registrable_inv issuer cert0 serial cert : registrable r issuer cert0 = Ok (serial, cert) →
  ∃ i n, r !! issuer = Some i ∧ cert0 = Some cert ∧ xc_Serial cert = Some n ∧ serial_ok n = true ∧ serial = Text16 n.
Proof.
  unfold registrable. destruct (r !! issuer) as [i|]; [|done]. destruct cert0 as [x|]; [|done]. destruct (xc_Serial x) as [n|] eqn:En; [|done]. intros H. go_binds H. bool_hyps.
  exists i, n. by split_and!.
Qed.

Lemma register_ok cancelled clock keys issuer i n cert p m u m' : r !! issuer = Some i → serial_ok n = true →
  spec_update cancelled clock keys (Some (register_tx issuer (Text16 n) (Fingerprint cert) cert p)) m = (Ok u, m') → RInv m → RInv m' ∧ grows m m'.
Proof.
  intros Hi0 Hn H Hi. apply register_inv in H as [[-> _]|(Hnone & Hprior & b & Hb & -> & Hv1 & Hv2)]; [by split|].
  set (hash := Fingerprint cert) in *. set (k0 := certKey issuer (Text16 n)) in *. set (m1 := <[k0 := _]> m). set (m' := <[fingerprintKey hash := _]> m1).
  assert (Hfp : ∀ k row, m !! k = Some row → is_fingerprint k = true → m' !! k = Some row).
  { intros k row H E. unfold m', m1. destruct (decide (k = fingerprintKey hash)) as [->|Hne].
    - rewrite lookup_insert_eq. destruct (ri_keys _ Hi _ _ H) as [Ek _]. pose proof (ri_fingerprint _ Hi _ _ H E) as Ex. pose proof (Hprior _ H) as Ev. destruct row; cbn in *. by subst.
    - rewrite lookup_insert_ne, lookup_insert_ne; [done| |done]. intros <-. pose proof (proj1 (kinds_apart k0) (is_cert_certKey _ _)) as [E' _]. congruence. }
  assert (Hcert : ∀ k row, m !! k = Some row → is_cert k = true → m' !! k = Some row).
  { intros k row H E. unfold m', m1. rewrite lookup_insert_ne, lookup_insert_ne; [done|..]; intros <-; [congruence|discriminate E]. }
  assert (Hcrl : ∀ j, m' !! crlKey j = m !! crlKey j).
  { intros j. unfold m', m1. rewrite lookup_insert_ne, lookup_insert_ne; [done|apply cert_ne_crl|apply fingerprint_ne_crl]. }
  assert (Hrows : ∀ j now e, revoked_row m' j now e ↔ revoked_row m j now e).
  { intros j now e. unfold revoked_row. split; intros (row & c & Hr & Hs & Hu & Hst & ?); exists row, c; [|split; [by apply Hcert; [|apply is_cert_certKey]|done]].
    unfold m', m1 in Hr. rewrite lookup_insert_ne in Hr by (intros E; by apply (cert_ne_fingerprint j (Text16 (ce_Serial e)) hash)).
    apply lookup_insert_Some in Hr as [[_ <-]|[_ Hr]]; [|done]. cbn in Hu. rewrite Hb in Hu. injection Hu as <-. discriminate Hst. }
  split; split.
  - apply keys_ok_insert; [|done]. apply keys_ok_insert; [|done]. apply Hi.
  - intros k row H E. unfold m' in H. rewrite lookup_insert_ne in H by (intros <-; discriminate E). unfold m1 in H. apply lookup_insert_Some in H as [[<- <-]|[_ H]].
    + split; [done|]. exists issuer, i, n. eexists. split_and!; [done..|exact Hb|done|by left|]. cbn. apply lookup_insert_eq.
    + destruct (ri_cert _ Hi k row H E) as [? (j & i' & n' & c & ? & ? & ? & ? & ? & ? & Hf)]. split; [done|]. exists j, i', n', c. split_and!; try done. by apply Hfp; [|apply is_fingerprint_key].
  - intros k row H E. unfold m', m1 in H. apply lookup_insert_Some in H as [[_ <-]|[_ H]]; [done|]. apply lookup_insert_Some in H as [[_ <-]|[_ H]]; [done|]. by eapply (ri_fingerprint _ Hi).
  - intros k row H E. apply has_prefix_spec in E as E'. destruct E' as (j & Ej). assert (k = crlKey j) as -> by done. rewrite Hcrl in H.
    destruct (ri_crl _ Hi _ row H E) as [? (j' & i' & q & ? & ? & ? & ? & Hp)]. split; [done|]. exists j', i', q. split_and!; try done; try tauto. intros Hd1 Hd2. eapply published_ext; [|by apply Hp]. intros. apply Hrows.
  - intros k row E H. by apply Hfp.
  - intros k row c E H Hu. exists row, c. split_and!; [by apply Hcert|done..].
  - intros j q _ Hq. exists q. unfold pub in *. rewrite Hcrl. split; [done|by right].
Qed.

Lemma pub_number m issuer q : RInv m → pub m issuer = Some q → 0 ≤ p_Number q ≤ max_int64.
Proof.
  intros Hi. unfold pub. destruct (m !! crlKey issuer) as [row|] eqn:E; [|by intros [= <-]]. intros Hq.
  destruct (ri_crl _ Hi _ _ E (is_crl_crlKey _)) as [_ (? & ? & p & _ & _ & Hp & ? & _)]. by simplify_eq.
Qed.
Lemma same_issuer i j n : r !! i ≠ None → r !! j ≠ None → certKey i (Text16 n) = certKey j (Text16 n) ∨ (∃ n', certKey i (Text16 n) = certKey j (Text16 n')) → i = j.
Proof.
  intros Hi Hj H. assert (length i = length j) as Hl by (destruct (r !! i) eqn:E, (r !! j) eqn:E'; try done; by eapply same_length).
  destruct H as [H|[n' H]]; by apply certKey_inj in H as [? _].
Qed.

Lemma revoke_ok cancelled clock keys issuer i n reason m u m' : r !! issuer = Some i → serial_ok n = true →
  spec_update cancelled clock keys (Some (revoke_tx issuer (certKey issuer (Text16 n)) reason)) m = (Ok u, m') → RInv m → RInv m' ∧ grows m m'.
Proof.
  intros Hi0 Hn H Hi. apply revoke_inv in H as (row0 & c0 & q0 & b & b' & Hrow0 & Hc0 & Hst0 & Hq0 & Hb & Hb' & -> & Hv1 & Hv2); [|apply cert_ne_crl].
  set (k0 := certKey issuer (Text16 n)) in *. set (m1 := <[k0 := _]> m). set (m' := <[crlKey issuer := _]> m1).
  assert (Hfp : ∀ k, is_fingerprint k = true → m' !! k = m !! k).
  { intros k E. unfold m', m1. rewrite lookup_insert_ne, lookup_insert_ne; [done|..]; intros <-; [|discriminate E]. pose proof (proj1 (kinds_apart k0) (is_cert_certKey _ _)) as [E' _]. congruence. }
  assert (Hcert : ∀ k, is_cert k = true → m' !! k = m1 !! k). { intros k E. unfold m'. apply lookup_insert_ne. intros <-. discriminate E. }
  assert (Hrows : ∀ j now e, r !! j ≠ None → j ≠ issuer → revoked_row m' j now e ↔ revoked_row m j now e).
  { intros j now e Hj Hne. apply revoked_row_ext. intros n' _. rewrite Hcert by apply is_cert_certKey. apply lookup_insert_ne. intros E. destruct Hne. symmetry.
    apply (same_issuer issuer j n); [by rewrite Hi0|done|eauto]. }
  pose proof (pub_number _ _ _ Hi Hq0) as Hnum.
  split; split.
  - apply keys_ok_insert; [|done]. apply keys_ok_insert; [|done]. apply Hi.
  - intros k row H E. rewrite Hcert in H by done. unfold m1 in H. apply lookup_insert_Some in H as [[<- <-]|[_ H]].
    + destruct (ri_cert _ Hi k0 row0 Hrow0 E) as [? (j & i' & n' & c & ? & ? & ? & Hc & ? & ? & Hf)]. rewrite Hc0 in Hc. injection Hc as <-. split; [done|].
      exists j, i', n'. eexists. split_and!; [done..|exact Hb|done|by right|]. rewrite Hfp by apply is_fingerprint_key. exact Hf.
    + destruct (ri_cert _ Hi k row H E) as [? (j & i' & n' & c & ? & ? & ? & ? & ? & ? & Hf)]. split; [done|]. exists j, i', n', c. split_and!; try done. by rewrite Hfp by apply is_fingerprint_key.
  - intros k row H E. rewrite Hfp in H by done. by eapply (ri_fingerprint _ Hi).
  - intros k row H E. unfold m' in H. apply lookup_insert_Some in H as [[<- <-]|[Hne H]].
    + split; [done|]. exists issuer, i. eexists. split_and!; [done..|exact Hb'|apply Hnum|apply Hnum|]. intros _ Hd. by destruct q0.
    + unfold m1 in H. rewrite lookup_insert_ne in H by (intros <-; pose proof (proj1 (kinds_apart k0) (is_cert_certKey _ _)) as [_ E']; congruence).
      destruct (ri_crl _ Hi _ row H E) as [? (j & i' & q & Hj & -> & ? & ? & Hp)]. split; [done|]. exists j, i', q. split_and!; try done; try tauto. intros Hd1 Hd2.
      eapply published_ext; [|by apply Hp]. intros now e. apply Hrows; [by rewrite Hj|]. by intros ->.
  - intros k row E H. by rewrite Hfp.
  - intros k row c E H Hu. rewrite Hcert by done. unfold m1. destruct (decide (k = k0)) as [->|Hne].
    + assert (c = c0) as -> by congruence. rewrite lookup_insert_eq. eexists _, _. split_and!; [done|exact Hb|by destruct c0|]. intros Hs. by destruct Hst0.
    + rewrite lookup_insert_ne by done. by exists row, c.
  - intros j q Hj Hq. destruct (decide (j = issuer)) as [->|Hne].
    + unfold pub, m'. rewrite lookup_insert_eq. eexists. split; [exact Hb'|]. right. assert (q = q0) as -> by congruence. by destruct q0.
    + exists q. unfold pub in *. unfold m', m1. rewrite !lookup_insert_ne; [split; [done|by right]|apply cert_ne_crl|]. intros E. by apply crlKey_inj in E.
Qed.

(** The list that is made covers the rows there are. *)
Lemma entries_exact m issuer i now entries : RInv m → r !! issuer = Some i → foldM (list_entry now) [] (rows (certificatePrefix issuer) m) = Ok entries →
  ∀ e, e ∈ entries ↔ revoked_row m issuer now e.
Proof.
  intros Hi Hr H. assert (Hgen : ∀ rs acc out, foldM (list_entry now) acc rs = Ok out → ∀ e, e ∈ out ↔ e ∈ acc ∨
    ∃ row c, row ∈ rs ∧ Unmarshal (Value row) = Some c ∧ c_Status c = Revoked ∧ now ≤ c_NotAfter c ∧ SetString16 (c_Serial c) = Some (ce_Serial e) ∧ ce_Time e = c_RevokedAt c ∧ ce_Reason e = c_Reason c).
  { induction rs as [|row rs IH]; intros acc out Hf e; cbn in Hf; [injection Hf as <-; set_solver|]. apply bind_Ok_inv in Hf as (acc' & Ha & Hf). rewrite (IH _ _ Hf).
    unfold list_entry in Ha. apply bind_Ok_inv in Ha as (c & Hc%decoded_Ok & Ha). case_match eqn:Ec.
    - bool_hyps. destruct (SetString16 (c_Serial c)) as [sn|] eqn:Es; [|done]. injection Ha as <-. rewrite elem_of_app, list_elem_of_singleton. setoid_rewrite elem_of_cons. split.
      + intros [[?| ->]|(row' & c' & ? & ?)]; [by left|right; exists row, c; cbn; split_and!; (done || lia || by left)|right; exists row', c'; naive_solver].
      + intros [?|(row' & c' & [->|?] & Hu & ? & ? & Hn & ? & ?)]; [by left; left| |right; exists row', c'; naive_solver]. rewrite Hc in Hu. injection Hu as <-.
        left. right. destruct e; cbn in *. congruence.
    - injection Ha as <-. setoid_rewrite elem_of_cons. split; [naive_solver|]. intros [?|(row' & c' & [->|?] & Hu & Hs & Hna & ?)]; [by left| |right; exists row', c'; naive_solver].
      rewrite Hc in Hu. injection Hu as <-. rewrite bool_decide_true in Ec by done. cbn in Ec. bool_hyps. lia. }
  intros e. rewrite (Hgen _ _ _ H e). unfold revoked_row. split.
  - intros [?%elem_of_nil|(row & c & Hrow & Hu & Hs & Hna & Hn & ? & ?)]; [done|]. apply rows_elem in Hrow as [Hm Hp]; [|apply Hi].
    assert (is_cert (Key row) = true) as Hk. { apply has_prefix_spec in Hp as [x ->]. unfold certificatePrefix. rewrite <-!app_assoc. apply has_prefix_app. }
    destruct (ri_cert _ Hi _ _ Hm Hk) as [_ (j & i' & n & c' & Hj & Hok & Ek & Hc' & Es & _)]. rewrite Hu in Hc'. injection Hc' as <-. rewrite Es, SetString16_Text16 in Hn by by apply serial_ok_pos. injection Hn as <-.
    assert (issuer = j) as <-. { rewrite Ek in Hp. eapply certKey_prefix; [by eapply same_length|exact Hp]. }
    exists row, c. rewrite <-Ek. by split_and!.
  - intros (row & c & Hm & Hok & Hu & Hs & Hna & ? & ?). right. exists row, c. destruct (ri_cert _ Hi _ _ Hm (is_cert_certKey _ _)) as [_ (j & i' & n & c' & Hj & Hok' & Ek & Hc' & Es & _)].
    rewrite Hu in Hc'. injection Hc' as <-. apply certKey_inj in Ek as [_ Et]; [|by eapply same_length]. apply Text16_inj in Et as <-; [|by apply serial_ok_pos..].
    split_and!; try done; [|by rewrite Es, SetString16_Text16 by by apply serial_ok_pos]. destruct (ri_keys _ Hi _ _ Hm) as [Ekey _]. apply rows_elem; [apply Hi|]. rewrite Ekey. split; [done|]. apply has_prefix_app.
Qed.

Lemma wrap64_next n : 0 ≤ n ≤ max_int64 → 0 < wrap64 (n + 1) → wrap64 (n + 1) = n + 1 ∧ n < max_int64.
Proof.
  unfold wrap64, max_int64. intros Hn. destruct (decide (n = 9223372036854775807)) as [->|]; [by vm_compute|]. rewrite Z.mod_small by lia. lia.
Qed.
Lemma crl_step_ok cancelled clock keys fuel draw issuer i m der m' : r !! issuer = Some i →
  spec_update cancelled clock keys (Some (crl_tx fuel draw issuer i)) m = (Ok der, m') → RInv m → RInv m' ∧ grows m m'.
Proof.
  intros Hr H Hi. apply crl_inv in H as (q0 & Hq0 & [(-> & _)|(entries & b & He & Hpos & Hder & Hb & -> & Hv)]); [by split| |apply Hi].
  pose proof (pub_number _ _ _ Hi Hq0) as Hnum. destruct (wrap64_next _ Hnum Hpos) as [Hw Hmax]. rewrite Hw in *. set (m' := <[crlKey issuer := _]> m).
  assert (Hcert : ∀ k, is_cert k = true → m' !! k = m !! k) by (intros k E; apply lookup_insert_ne; intros <-; discriminate E).
  assert (Hfp : ∀ k, is_fingerprint k = true → m' !! k = m !! k) by (intros k E; apply lookup_insert_ne; intros <-; discriminate E).
  assert (Hrows : ∀ j now e, revoked_row m' j now e ↔ revoked_row m j now e) by (intros; apply revoked_row_ext; intros; apply Hcert, is_cert_certKey).
  split; split.
  - apply keys_ok_insert; [apply Hi|done].
  - intros k row H E. rewrite Hcert in H by done. destruct (ri_cert _ Hi k row H E) as [? (j & i' & n' & c & ? & ? & ? & ? & ? & ? & Hf)]. split; [done|].
    exists j, i', n', c. split_and!; try done. by rewrite Hfp by apply is_fingerprint_key.
  - intros k row H E. rewrite Hfp in H by done. by eapply (ri_fingerprint _ Hi).
  - intros k row H E. unfold m' in H. apply lookup_insert_Some in H as [[<- <-]|[Hne H]].
    + split; [done|]. exists issuer, i. eexists. split_and!; [done..|exact Hb|cbn; lia|cbn; lia|]. intros _ _. exists draw, clock, entries. split_and!; [done..|].
      intros e. rewrite Hrows. by apply (entries_exact m issuer i clock).
    + destruct (ri_crl _ Hi _ row H E) as [? (j & i' & q & Hj & -> & ? & ? & Hp)]. split; [done|]. exists j, i', q. split_and!; try done; try tauto. intros Hd1 Hd2.
      eapply published_ext; [|by apply Hp]. intros now e. apply Hrows.
  - intros k row E H. by rewrite Hfp.
  - intros k row c E H Hu. rewrite Hcert by done. by exists row, c.
  - intros j q Hj Hq. destruct (decide (j = issuer)) as [->|Hne].
    + unfold pub, m'. rewrite lookup_insert_eq. eexists. split; [exact Hb|]. left. assert (q = q0) as -> by congruence. cbn. lia.
    + exists q. unfold pub in *. unfold m'. rewrite lookup_insert_ne; [split; [done|by right]|]. intros E. by apply crlKey_inj in E.
Qed.

Lemma prune_ok clock m m' : m' ⊆ m → (∀ k row, m !! k = Some row → m' !! k = None → expired clock row = true) → RInv m → RInv m' ∧ grows m m'.
Proof.
  intros Hsub Hex Hi. apply frame_ok; [|intros k Hk|done].
  - intros k row H. apply (ri_keys _ Hi). by eapply lookup_weaken.
  - destruct (m !! k) as [row|] eqn:E; [|by eapply lookup_weaken_None].
    assert (ExpiresAt row = 0) as Hx.
    { unfold registry_key in Hk. apply orb_true_iff in Hk as [[Hk|Hk]%orb_true_iff|Hk]; [by apply (ri_cert _ Hi k row E)|by apply (ri_fingerprint _ Hi k row E)|by apply (ri_crl _ Hi k row E)]. }
    destruct (m' !! k) as [row'|] eqn:E'; [rewrite (lookup_weaken _ _ _ _ E' Hsub) in E; congruence|].
    pose proof (Hex k row E E') as Hexp. unfold expired in Hexp. by rewrite Hx in Hexp.
Qed.

Lemma rstep_ok m m' : rstep m m' → RInv m → RInv m' ∧ grows m m'.
Proof.
  intros H Hi. destruct H as [c t issuer cert0 serial cert p H|c t issuer i n reason Hr Hn|c t fuel draw issuer i Hr|m' Hk Hs|clock m' Hsub Hex].
  - destruct (registrable_inv _ _ _ _ H) as (i & n & Hr & _ & _ & Hn & ->). destruct (spec_update _ _ _ _ _) as [[u|e] m'] eqn:E; [by eapply register_ok|]. apply spec_update_Err in E as ->. by split.
  - destruct (spec_update _ _ _ _ _) as [[u|e] m'] eqn:E; [by eapply revoke_ok|]. apply spec_update_Err in E as ->. by split.
  - destruct (spec_update _ _ _ _ _) as [[u|e] m'] eqn:E; [by eapply crl_step_ok|]. apply spec_update_Err in E as ->. by split.
  - by apply frame_ok.
  - by eapply prune_ok.
Qed.
Lemma history_ok m m' : rtc rstep m m' → RInv m → RInv m' ∧ grows m m'.
Proof.
  induction 1 as [m|m1 m2 m3 H _ IH]; intros Hi; [by split|]. destruct (rstep_ok _ _ H Hi) as [Hi2 G12]. destruct (IH Hi2) as [? ?]. split; [done|by etrans].
Qed.
Lemma reachable_ok m : reachable m → RInv m.
Proof.
  intros (m0 & Hk & Hn & H). apply (history_ok m0 m H). split; [done|..]; intros k row Hr E; exfalso; rewrite Hn in Hr; try done; unfold registry_key; by rewrite E, ?orb_true_r.
Qed.
End History.

(** The entries of rows that can be read. *)
Definition list_all {crypto : StatusCrypto} (now : Time) (rs : list Rec) : list crl_entry :=
  omap (λ row, c ← (Unmarshal (Value row) : option Certificate);
    if bool_decide (c_Status c = Revoked) && negb (c_NotAfter c <? now) then serial ← SetString16 (c_Serial c); Some (mkEntry serial (c_RevokedAt c) (c_Reason c)) else None) rs.
Lemma fold_all {crypto : StatusCrypto} now rs : Forall (λ row, ∃ c n, Unmarshal (Value row) = Some c ∧ SetString16 (c_Serial c) = Some n) rs → foldM (list_entry now) [] rs = Ok (list_all now rs).
Proof.
  intros Hall. change (list_all now rs) with ([] ++ list_all now rs). generalize (@nil crl_entry). induction Hall as [|row rs (c & n & Hc & Hn) _ IH]; intros acc; [by rewrite app_nil_r|].
  cbn [foldM]. assert (list_entry now acc row = Ok (acc ++ list_all now [row])) as ->.
  { unfold list_entry, decoded, list_all. cbn. rewrite Hc. cbn. destruct (bool_decide _ && _); cbn; [by rewrite Hn|by rewrite app_nil_r]. }
  cbn [mbind result_bind]. rewrite IH, <-app_assoc. do 2 f_equal. unfold list_all. by rewrite <-omap_app.
Qed.

(** ** The guarantees *)

Section Guarantees.
Context {crypto : StatusCrypto} {St : Type} `{!TxStore St}.

Lemma new_loop_ok issuers : ∀ r0 r, new_loop issuers r0 = Ok r →
  (∀ id i, r0 !! id = Some i → id = Fingerprint (i_Certificate i) ∧ 0 < CRLRefresh i) → ∀ id i, r !! id = Some i → id = Fingerprint (i_Certificate i) ∧ 0 < CRLRefresh i.
Proof.
  induction issuers as [|[i|] issuers IH]; intros r0 r H H0; cbn in H; [by injection H as <-| |done]. apply bind_Ok_inv in H as (u & Hv & H). apply reject_Ok_inv in Hv. bool_hyps.
  destruct (MarshalPublicKey _); [|done]. destruct (MarshalPublicKey _); [|done]. apply bind_Ok_inv in H as (u1 & _ & H). apply bind_Ok_inv in H as (u2 & _ & H).
  apply (IH _ _ H). intros id i' Hl. apply (lookup_insert_Some (r0 : gmap bytes Issuer)) in Hl as [[<- <-]|[_ ?]]; [|by eapply H0]. split; [done|lia].
Qed.
Lemma New_ok (s : option St) issuers r : New s issuers = Ok r → ∀ id i, r !! id = Some i → id = Fingerprint (i_Certificate i) ∧ 0 < CRLRefresh i.
Proof. unfold New. intros H. apply bind_Ok_inv in H as (u & _ & H). apply (new_loop_ok _ _ _ H). done. Qed.
Lemma New_named (s : option St) issuers r : New s issuers = Ok r → named r.
Proof. intros H id i Hi. by apply (New_ok s issuers r H id i). Qed.

(** A call is the transaction it makes, or nothing. *)
Lemma Register_view cancelled clock r issuer cert p (s : St) : ∃ fn : option (txm unit), 
  let '(x, s') := Register cancelled clock r issuer cert p s in
  (fn = None ∧ store_view s' = store_view s ∧ (∀ u, x ≠ Ok u)) ∨
  ∃ serial c, fn = Some (register_tx issuer serial (Fingerprint c) c p) ∧ registrable r issuer cert = Ok (serial, c) ∧
    (x, store_view s') = spec_update cancelled clock [issuerKey issuer; certKey issuer serial; fingerprintKey (Fingerprint c)] fn (store_view s).
Proof.
  unfold Register. destruct (registrable r issuer cert) as [[serial c]|e] eqn:E; [|exists None; by left].
  exists (Some (register_tx issuer serial (Fingerprint c) c p)). pose proof (store_update_spec cancelled clock [issuerKey issuer; certKey issuer serial; fingerprintKey (Fingerprint c)] (Some (register_tx issuer serial (Fingerprint c) c p)) s) as H.
  destruct (store_update _ _ _ _ s) as [x s']. right. by exists serial, c.
Qed.
Lemma Register_step cancelled clock r issuer cert p (s s' : St) x : Register cancelled clock r issuer cert p s = (x, s') → rtc (rstep r) (store_view s) (store_view s').
Proof.
  intros H. destruct (Register_view cancelled clock r issuer cert p s) as [fn Hv]. rewrite H in Hv. destruct Hv as [(_ & -> & _)|(serial & c & -> & Hr & Hv)]; [done|].
  apply rtc_once. replace (store_view s') with (x, store_view s').2 by done. rewrite Hv. by eapply step_register.
Qed.
Lemma Revoke_view cancelled clock r issuer serial reason (s s' : St) x : Revoke cancelled clock r issuer serial reason s = (x, s') →
  (s' = s ∧ ∀ u, x ≠ Ok u) ∨ ∃ i n, r !! issuer = Some i ∧ serial = Some n ∧ serial_ok n = true ∧
    (x, store_view s') = spec_update (later cancelled) clock [issuerKey issuer; certKey issuer (Text16 n)] (Some (revoke_tx issuer (certKey issuer (Text16 n)) reason)) (store_view s).
Proof.
  unfold Revoke, Lookup. destruct (negb _); [intros [= <- <-]; by left|]. destruct (r !! issuer) as [i|]; [|intros [= <- <-]; by left]. destruct serial as [n|]; [|intros [= <- <-]; by left].
  destruct (serial_ok n) eqn:En; [|intros [= <- <-]; by left]. destruct (stored_certificate _); [|intros [= <- <-]; by left]. change (default 0 (Some n)) with n. cbv zeta. intros E.
  pose proof (store_update_spec (later cancelled) clock [issuerKey issuer; certKey issuer (Text16 n)] (Some (revoke_tx issuer (certKey issuer (Text16 n)) reason)) s) as H. rewrite E in H. right. by exists i, n.
Qed.
Lemma Revoke_step cancelled clock r issuer serial reason (s s' : St) x : Revoke cancelled clock r issuer serial reason s = (x, s') → rtc (rstep r) (store_view s) (store_view s').
Proof.
  intros [[-> _]|(i & n & Hr & -> & Hn & Hv)]%Revoke_view; [done|]. apply rtc_once. replace (store_view s') with (x, store_view s').2 by done. rewrite Hv. by eapply step_revoke.
Qed.
Lemma CRL_view cancelled clock draw r issuer (s s' : St) x : CRL cancelled clock draw r issuer s = (x, s') →
  (s' = s ∧ ∀ u, x ≠ Ok u) ∨ ∃ i, r !! issuer = Some i ∧
    (x, store_view s') = spec_update cancelled clock [issuerKey issuer] (Some (crl_tx (S (size (store_view s))) draw issuer i)) (store_view s).
Proof.
  unfold CRL. destruct (r !! issuer) as [i|]; [|intros [= <- <-]; by left]. intros E. right. exists i. split; [done|].
  pose proof (store_update_spec cancelled clock [issuerKey issuer] (Some (crl_tx (S (size (store_view s))) draw issuer i)) s) as H. by rewrite E in H.
Qed.
Lemma CRL_step cancelled clock draw r issuer (s s' : St) x : CRL cancelled clock draw r issuer s = (x, s') → rtc (rstep r) (store_view s) (store_view s').
Proof.
  intros [[-> _]|(i & Hr & Hv)]%CRL_view; [done|]. apply rtc_once. replace (store_view s') with (x, store_view s').2 by done. rewrite Hv. by eapply step_crl.
Qed.

Lemma get_row cancelled k (s : St) row : (∀ n, cancelled n = false) → keys_ok (store_view s) → store_view s !! k = Some row → store_get cancelled k s = Ok row.
Proof. intros Hc Hk H. rewrite store_get_spec. unfold spec_get. cbn. rewrite Hc. destruct (Hk _ _ H) as [_ ->]. cbn. by rewrite H. Qed.
Lemma reachable_rtc r m m' : reachable r m → rtc (rstep r) m m' → reachable r m'.
Proof. intros (m0 & Hm1 & Hm2 & Hm3) Hrt. exists m0. split_and!; [done..|]. by etrans. Qed.

(** What is in the store once a certificate is registered, and once it is revoked. *)
Definition indexed (m : gmap bytes Rec) (issuer : bytes) (n : Z) (hash : bytes) : Prop :=
  ∃ row c, m !! certKey issuer (Text16 n) = Some row ∧ Unmarshal (Value row) = Some c ∧ c_Fingerprint c = hash ∧
    m !! fingerprintKey hash = Some (mkRec (fingerprintKey hash) (certKey issuer (Text16 n)) 0).
Lemma Register_indexed cancelled clock r issuer x n p (s s' : St) : named r → reachable r (store_view s) → xc_Serial x = Some n →
  Register cancelled clock r issuer (Some x) p s = (Ok tt, s') → indexed (store_view s') issuer n (Fingerprint x).
Proof.
  intros Hn Hreach Hs H. destruct (Register_view cancelled clock r issuer (Some x) p s) as [fn Hv]. rewrite H in Hv. destruct Hv as [(_ & _ & Hv)|(serial & c & -> & Hr & Hv)]; [by destruct (Hv tt)|].
  destruct (registrable_inv _ _ _ _ _ Hr) as (i & n' & Hi & [= <-] & Hs' & Hok & ->). rewrite Hs in Hs'. injection Hs' as <-. symmetry in Hv. pose proof (reachable_ok r Hn _ Hreach) as Hinv.
  apply register_inv in Hv as [[-> (row & c & Hrow & Hc & Hf)]|(_ & _ & b & Hb & -> & _)].
  - exists row, c. split_and!; try done. destruct (ri_cert _ _ Hinv _ _ Hrow (is_cert_certKey _ _)) as [_ (? & ? & ? & c' & _ & _ & _ & Hc' & _ & _ & Hfp)]. rewrite Hc in Hc'. injection Hc' as <-. by rewrite Hf in Hfp.
  - eexists _, _. split_and!; [rewrite lookup_insert_ne by (intros E; by apply (cert_ne_fingerprint issuer (Text16 n) (Fingerprint x))); apply lookup_insert_eq|exact Hb|done|apply lookup_insert_eq].
Qed.
Lemma indexed_grows r m m' issuer n hash : grows r m m' → indexed m issuer n hash → indexed m' issuer n hash.
Proof.
  intros [F C _] (row & c & Hrow & Hc & Hh & Hf). destruct (C _ row c (is_cert_certKey _ _) Hrow Hc) as (row' & c' & Hrow' & Hc' & Hh' & _). exists row', c'.
  split_and!; [done|done|congruence|]. by apply F; [apply is_fingerprint_key|].
Qed.

(** C11 A revocation is final. Once a certificate is registered and, any time later, revoked,
    then after any further history of the registry and of the other users of the store, with
    any number of replicas: the registry reports the revocation with its first time and
    reason, revoking again fails, and the certificate never passes a check. *)
Theorem revocation_final (s00 : option St) issuers r issuer x n p reason (s0 s1 s2 s3 s4 : St) c1 t1 c2 t2 c :
  New s00 issuers = Ok r → reachable r (store_view s0) → xc_Serial x = Some n →
  Register c1 t1 r issuer (Some x) p s0 = (Ok tt, s1) → rtc (rstep r) (store_view s1) (store_view s2) →
  Revoke c2 t2 r issuer (Some n) reason s2 = (Ok tt, s3) → rtc (rstep r) (store_view s3) (store_view s4) → (∀ k, c k = false) →
  (∃ cert, Lookup c r issuer (Some n) s4 = Ok cert ∧ c_Status cert = Revoked ∧ c_RevokedAt cert = t2 ∧ c_Reason cert = reason) ∧
  (∀ c3 t3 reason', (Revoke c3 t3 r issuer (Some n) reason' s4).1 ≠ Ok tt) ∧
  ∀ now, ∃ e, Check_ c now (Some x) s4 = Err e.
Proof.
  intros Hnew Hreach Hser Hreg H12 Hrev H34 Hc. pose proof (New_named _ _ _ Hnew) as Hn.
  pose proof (Register_indexed _ _ _ _ _ _ _ _ _ Hn Hreach Hser Hreg) as Hix. pose proof (reachable_ok r Hn _ (reachable_rtc _ _ _ Hreach (Register_step _ _ _ _ _ _ _ _ _ Hreg))) as Hi1.
  destruct (history_ok r Hn _ _ H12 Hi1) as [Hi2 G12]. pose proof (indexed_grows _ _ _ _ _ _ G12 Hix) as Hix2. destruct (history_ok r Hn _ _ (Revoke_step _ _ _ _ _ _ _ _ _ Hrev) Hi2) as [Hi3 G23].
  destruct (history_ok r Hn _ _ H34 Hi3) as [Hi4 G34]. pose proof (indexed_grows _ _ _ _ _ _ G34 (indexed_grows _ _ _ _ _ _ G23 Hix2)) as (row4 & c4 & Hrow4 & Hc4 & Hh4 & Hf4).
  apply Revoke_view in Hrev as [[_ Hno]|(i & n' & Hr & [= <-] & Hok & Hv)]; [by destruct (Hno tt)|]. symmetry in Hv.
  apply revoke_inv in Hv as (row2 & cr & q & b & b' & _ & _ & _ & _ & Hb & _ & Hv & _); [|apply cert_ne_crl].
  assert (Hrow3 : store_view s3 !! certKey issuer (Text16 n) = Some (mkRec (certKey issuer (Text16 n)) b 0)).
  { rewrite Hv, lookup_insert_ne by (intros E; by apply (cert_ne_crl issuer (Text16 n) issuer)). apply lookup_insert_eq. }
  destruct (gr_cert _ _ _ G34 _ _ _ (is_cert_certKey _ _) Hrow3 Hb) as (row & cert & Hrow & Hcert & _ & Hsame). pose proof (Hsame ltac:(by destruct cr)) as ->.
  rewrite Hrow4 in Hrow. injection Hrow as <-. rewrite Hc4 in Hcert. injection Hcert as Hcert. assert (Hstatus : c_Status c4 = Revoked) by (rewrite Hcert; by destruct cr). split_and!.
  - exists c4. split_and!; [|done|rewrite Hcert; by destruct cr|rewrite Hcert; by destruct cr]. unfold Lookup. rewrite Hr, Hok, (get_row c _ _ row4 Hc (ri_keys _ _ Hi4) Hrow4). cbn. unfold decoded. by rewrite Hc4.
  - intros c3 t3 reason' E. destruct (Revoke c3 t3 r issuer (Some n) reason' s4) as [x5 s5] eqn:E5. cbn in E. subst x5. apply Revoke_view in E5 as [[_ Hno]|(i' & n' & _ & [= <-] & _ & Hv5)]; [by destruct (Hno tt)|].
    symmetry in Hv5. apply revoke_inv in Hv5 as (row5 & c5 & _ & _ & _ & Hrow5 & Hc5 & Hst & _); [|apply cert_ne_crl]. apply Hst. congruence.
  - intros now. unfold Check_, ByCertificate. rewrite (get_row c _ _ _ Hc (ri_keys _ _ Hi4) Hf4). cbn [Value]. rewrite (get_row (later c) _ _ row4 (λ k, Hc (S k)) (ri_keys _ _ Hi4) Hrow4). cbn [stored_certificate]. unfold decoded. rewrite Hc4. cbn [mbind result_bind].
    destruct (reject _ ErrInvalid); cbn [mbind result_bind]; [|by eexists]. rewrite Hstatus. by eexists.
Qed.

(** C12 A revocation list is exact when it is served. After any history, the list returned was
    signed by the issuer at a time less than the refresh interval ago, and its entries are
    exactly the certificates of the issuer that are revoked now and had not expired at that
    time, each with the time and the reason of its revocation: nothing revoked since is
    missing from a cached list. *)
Theorem CRL_exact (s00 : option St) issuers r issuer (s s' : St) cancelled clock draw der :
  New s00 issuers = Ok r → reachable r (store_view s) → CRL cancelled clock draw r issuer s = (Ok der, s') →
  ∃ i number now entries draw', r !! issuer = Some i ∧
    CreateRevocationList draw' (mkList number now (next_update (i_Certificate i) now (CRLTTL i)) entries) i = Ok der ∧
    clock < now + CRLRefresh i ∧ ∀ e, e ∈ entries ↔ revoked_row (store_view s) issuer now e.
Proof.
  intros Hnew Hreach Hcrl. pose proof (New_named _ _ _ Hnew) as Hn. pose proof (reachable_ok r Hn _ Hreach) as Hi.
  apply CRL_view in Hcrl as [[_ Hno]|(i & Hr & Hv)]; [by destruct (Hno der)|]. symmetry in Hv. apply crl_inv in Hv as (q & Hq & Hcase); [|apply Hi].
  destruct Hcase as [(_ & -> & Hne & Hd & Hlt)|(entries & b & He & _ & Hder & _)].
  - unfold pub in Hq. destruct (store_view s !! crlKey issuer) as [row|] eqn:E; [|by injection Hq as <-].
    destruct (ri_crl _ _ Hi _ _ E (is_crl_crlKey _)) as [_ (j & i' & q' & Hj & Ej & Hq' & _ & Hp)]. apply crlKey_inj in Ej as <-. assert (q' = q ∧ i' = i) as [-> ->] by (split; congruence).
    destruct (Hp Hne Hd) as (draw' & now & entries & Hder & Hre & He). exists i, (p_Number q), now, entries, draw'. split_and!; [done..| |done]. lia.
  - exists i, (wrap64 (p_Number q + 1)), clock, entries, draw. split_and!; [done..| |]; [destruct (New_ok _ _ _ Hnew _ _ Hr); lia|]. by apply (entries_exact r Hn _ issuer i clock).
Qed.

(** A list of an issuer as it is signed: what [der] encodes carries the number [n]. *)
Definition signed_list (i : Issuer) (n : Z) (der : bytes) : Prop :=
  ∃ draw now entries, CreateRevocationList draw (mkList n now (next_update (i_Certificate i) now (CRLTTL i)) entries) i = Ok der.

(** What is served is the stored list, signed with the stored number. *)
Lemma CRL_signed (s00 : option St) issuers r issuer (s s' : St) c t d der :
  New s00 issuers = Ok r → reachable r (store_view s) → CRL c t d r issuer s = (Ok der, s') →
  ∃ i q, r !! issuer = Some i ∧ pub (store_view s') issuer = Some q ∧ p_DER q = der ∧ signed_list i (p_Number q) der.
Proof.
  intros Hnew Hreach Hcrl. pose proof (reachable_ok r (New_named _ _ _ Hnew) _ Hreach) as Hi.
  apply CRL_view in Hcrl as [[_ Hno]|(i & Hr & Hv)]; [by destruct (Hno der)|]. exists i. symmetry in Hv.
  apply crl_inv in Hv as (q & Hq & [(-> & -> & Hne & Hd & _)|(entries & b & _ & _ & Hder & Hb & -> & _)]); [| |apply Hi].
  - exists q. split_and!; [done..|]. unfold pub in Hq. destruct (store_view s !! crlKey issuer) as [row|] eqn:E; [|by injection Hq as <-].
    destruct (ri_crl _ _ Hi _ _ E (is_crl_crlKey _)) as [_ (j & i' & q' & Hj & Ej & Hq' & _ & Hp)]. apply crlKey_inj in Ej as <-.
    assert (q' = q ∧ i' = i) as [-> ->] by (split; congruence). destruct (Hp Hne Hd) as (draw & now & entries & Hder & _). by exists draw, now, entries.
  - eexists. unfold pub. rewrite lookup_insert_eq. split_and!; [done|exact Hb|done|]. by exists d, t, entries.
Qed.

(** C13 A list number is never used for two lists: of two lists served of an issuer, any
    history apart, each is signed with a number within int64, and the later has the larger
    number, or both are the same list. *)
Theorem CRL_numbers (s00 : option St) issuers r issuer (s s1 s2 s3 : St) c t d der c' t' d' der' :
  New s00 issuers = Ok r → reachable r (store_view s) → CRL c t d r issuer s = (Ok der, s1) →
  rtc (rstep r) (store_view s1) (store_view s2) → CRL c' t' d' r issuer s2 = (Ok der', s3) →
  ∃ i n n', r !! issuer = Some i ∧ signed_list i n der ∧ signed_list i n' der' ∧ 0 ≤ n ∧ n' ≤ max_int64 ∧
    (n < n' ∨ (n = n' ∧ der = der')).
Proof.
  intros Hnew Hreach H1 H12 H3. pose proof (New_named _ _ _ Hnew) as Hn.
  pose proof (reachable_rtc _ _ _ Hreach (CRL_step _ _ _ _ _ _ _ _ H1)) as Hr1. pose proof (reachable_rtc _ _ _ Hr1 H12) as Hr2. pose proof (reachable_rtc _ _ _ Hr2 (CRL_step _ _ _ _ _ _ _ _ H3)) as Hr3.
  destruct (CRL_signed _ _ _ _ _ _ _ _ _ _ Hnew Hreach H1) as (i & q & Hi & Hq & Hd & Hs).
  destruct (CRL_signed _ _ _ _ _ _ _ _ _ _ Hnew Hr2 H3) as (i' & q' & Hi' & Hq' & Hd' & Hs'). assert (i' = i) as -> by congruence.
  assert (rtc (rstep r) (store_view s1) (store_view s3)) as H13 by (etrans; [exact H12|by eapply CRL_step]).
  destruct (history_ok r Hn _ _ H13 (reachable_ok r Hn _ Hr1)) as [_ G13]. destruct (gr_crl _ _ _ G13 issuer q) as (q2 & Hq2 & Hk); [by rewrite Hi|done|].
  rewrite Hq' in Hq2. injection Hq2 as <-.
  pose proof (pub_number r _ _ _ (reachable_ok r Hn _ Hr1) Hq) as Hn1. pose proof (pub_number r _ _ _ (reachable_ok r Hn _ Hr3) Hq') as Hn3.
  exists i, (p_Number q), (p_Number q'). split_and!; try done; try lia. unfold keeps_number in Hk. rewrite <-Hd, <-Hd'. exact Hk.
Qed.

Lemma fingerprint_valid (c : xcert) : ValidKey (issuerKey (Fingerprint c)) = true ∧ ValidKey (crlKey (Fingerprint c)) = true.
Proof.
  assert (Hh : Forall is_hex (Fingerprint c)) by (unfold Fingerprint; destruct (Sum256_spec (xc_Raw c)) as [_ Hb]; by destruct (hex_spec _ Hb)).
  assert (Hg : forallb (λ c, negb ((c <? 33) || (126 <? c))) (Fingerprint c) = true).
  { apply forallb_forall. intros x Hx%list_elem_of_In. rewrite Forall_forall in Hh. specialize (Hh x Hx). unfold is_hex in Hh. apply negb_true_iff, orb_false_iff. split; [apply Z.ltb_ge|apply Z.ltb_ge]; lia. }
  pose proof (Fingerprint_length c) as Hl. unfold ValidKey, issuerKey, crlKey. rewrite !forallb_app, Hg, !length_app, Hl. done.
Qed.

(** A revocation list is always to be had: after any history, within the validity of the
    issuer and unless the call is cancelled, the signer fails, or the numbers run out, the
    registry answers with a list, however many certificates there are. *)
Theorem CRL_served (s00 : option St) issuers r issuer i (s : St) cancelled clock draw :
  New s00 issuers = Ok r → reachable r (store_view s) → r !! issuer = Some i → (∀ n, cancelled n = false) →
  outside_validity (i_Certificate i) clock = false → (∀ l, ∃ der, CreateRevocationList draw l i = Ok der) → (∀ p : publication, ∃ b, Marshal p = Some b) →
  (∀ q, pub (store_view s) issuer = Some q → p_Number q < max_int64) →
  ∃ der s', CRL cancelled clock draw r issuer s = (Ok der, s').
Proof.
  intros Hnew Hreach Hr Hc Hval Hsign Henc Hnum. pose proof (New_named _ _ _ Hnew) as Hn. pose proof (reachable_ok r Hn _ Hreach) as Hi. set (m := store_view s) in *.
  unfold CRL. rewrite Hr. fold m. set (fn := crl_tx _ _ _ _). pose proof (store_update_spec cancelled clock [issuerKey issuer] (Some fn) s) as Hu.
  destruct (store_update cancelled clock [issuerKey issuer] (Some fn) s) as [x s']. fold m in Hu.
  enough (∃ der m', spec_update cancelled clock [issuerKey issuer] (Some fn) m = (Ok der, m')) as (der & m' & E) by (rewrite E in Hu; injection Hu as -> _; eauto).
  clear Hu x s'. destruct (fingerprint_valid (i_Certificate i)) as [Hv1 Hv2]. rewrite <-(Hn _ _ Hr) in Hv1, Hv2.
  unfold spec_update. rewrite (bool_decide_false ([issuerKey issuer] = [])) by done. cbn [forallb]. rewrite Hv1, Hc. cbn [andb negb orb].
  enough (∃ der st, spec_exec cancelled clock fn (mkSpec m 1) = (Ok der, st)) as (der & st & ->) by (rewrite Hc; eauto).
  unfold fn, crl_tx, mbind, txm_mbind.
  assert (∃ q, pub m issuer = Some q) as [q Hq].
  { unfold pub. destruct (m !! crlKey issuer) as [row|] eqn:E; [|eauto]. destruct (ri_crl _ _ Hi _ _ E (is_crl_crlKey _)) as [_ (? & ? & p & _ & _ & Hp & _)]. eauto. }
  assert (∃ st, spec_exec cancelled clock (readPublication issuer) (mkSpec m 1) = (Ok q, st) ∧ smap st = m) as (st1 & Hrd & Hst1).
  { unfold readPublication, mbind, txm_mbind. rewrite exec_txp_bind. cbn [t_find spec_exec]. unfold spec_get. cbn [smap schecks]. rewrite Hc, Hv2. cbn [negb]. unfold pub in Hq.
    destruct (m !! crlKey issuer) as [row|]; [|injection Hq as <-; cbn; eauto]. cbn [t_lift spec_exec]. unfold decoded. rewrite Hq. cbn. eauto. }
  rewrite exec_txp_bind, Hrd, exec_txp_bind. cbn [t_now spec_exec txm_ret]. rewrite exec_txp_bind. cbn [t_lift spec_exec]. rewrite Hval. cbn [reject].
  case_match; [cbn; eauto|]. rewrite exec_txp_bind.
  destruct (t_pages_total cancelled clock (list_entry clock) (certificatePrefix issuer) 1000 (S (size m)) [] [] st1 (list_all clock (rows (certificatePrefix issuer) m))) as (st2 & Hpg & Hst2).
  - done.
  - lia.
  - rewrite Hst1. apply Hi.
  - rewrite Hst1. pose proof (keys_after_size (certificatePrefix issuer) [] m). lia.
  - rewrite Hst1. apply fold_all. apply Forall_forall. intros row Hrow. fold (rows (certificatePrefix issuer) m) in Hrow. apply rows_elem in Hrow as [Hm Hp]; [|apply Hi].
    assert (is_cert (Key row) = true) as Hk. { apply has_prefix_spec in Hp as [y ->]. unfold certificatePrefix. rewrite <-!app_assoc. apply has_prefix_app. }
    destruct (ri_cert _ _ Hi _ _ Hm Hk) as [_ (? & ? & n & c & _ & Hok & _ & Hcu & Hs & _)]. exists c, n. split; [done|]. rewrite Hs. by apply SetString16_Text16, serial_ok_pos.
  - rewrite Hpg, exec_txp_bind. cbn [t_lift spec_exec]. pose proof (pub_number r _ _ _ Hi Hq) as Hb. assert (wrap64 (p_Number q + 1) = p_Number q + 1) as ->.
    { specialize (Hnum q Hq). unfold wrap64, max_int64 in *. rewrite Z.mod_small by lia. lia. }
    rewrite (proj2 (Z.leb_gt _ _)) by lia. cbn [reject]. rewrite exec_txp_bind. cbn [t_lift spec_exec]. match goal with |- context [CreateRevocationList draw ?l i] => destruct (Hsign l) as [der ->] end.
    rewrite exec_txp_bind. unfold putJSON, mbind, txm_mbind. rewrite exec_txp_bind. cbn [t_lift spec_exec]. unfold encoded. match goal with |- context [Marshal ?p] => destruct (Henc p) as [b ->] end.
    cbn [t_put spec_exec]. unfold spec_write. cbn [Key]. rewrite Hc, Hv2. cbn. eauto.
Qed.
End Guarantees.

(** ** The registry runs: one issuer, two certificates, one revoked *)

(** ** A codec: fields one after the other, byte strings with their length *)

Definition put_bytes (b : bytes) : bytes := Z.of_nat (length b) :: b.
Definition take_bytes (s : bytes) : option (bytes * bytes) :=
  match s with n :: s => Some (take (Z.to_nat n) s, drop (Z.to_nat n) s) | [] => None end.
Definition take_int (s : bytes) : option (Z * bytes) := match s with z :: s => Some (z, s) | [] => None end.
Fixpoint take_many (n : nat) (s : bytes) : option (list bytes * bytes) :=
  match n with
  | O => Some ([], s)
  | S n => x ← take_bytes s; let '(b, s) := (x : bytes * bytes) in y ← take_many n s; let '(bl, s) := (y : list bytes * bytes) in Some (b :: bl, s)
  end.
Lemma take_put b s : take_bytes (put_bytes b ++ s) = Some (b, s).
Proof. unfold take_bytes, put_bytes. cbn. by rewrite Nat2Z.id, take_app_length, drop_app_length. Qed.
Lemma take_int_put z s : take_int ([z] ++ s) = Some (z, s).
Proof. done. Qed.
Lemma take_many_put l : ∀ s, take_many (length l) (concat (put_bytes <$> l) ++ s) = Some (l, s).
Proof.
  induction l as [|b l IH]; intros s; [done|]. rewrite fmap_cons. cbn [length take_many concat]. rewrite <-app_assoc, take_put. cbn [mbind option_bind]. by rewrite IH.
Qed.

Definition put_provenance (p : Provenance) : bytes :=
  put_bytes (pv_UDID p) ++ put_bytes (pv_Serial p) ++ put_bytes (pv_EnrollmentID p) ++ put_bytes (pv_Source p) ++ put_bytes (pv_AccountID p) ++
  [Z.of_nat (length (pv_Identifiers p))] ++ concat (put_bytes <$> pv_Identifiers p) ++ put_bytes (EnrollmentReference p).
Definition take_provenance (s : bytes) : option (Provenance * bytes) :=
  '(a, s) ← take_bytes s; '(b, s) ← take_bytes s; '(c, s) ← take_bytes s; '(d, s) ← take_bytes s; '(e, s) ← take_bytes s;
  '(n, s) ← take_int s; '(l, s) ← take_many (Z.to_nat n) s; '(f, s) ← take_bytes s; Some (mkProvenance a b c d e l f, s).
Definition put_certificate (c : Certificate) : bytes :=
  put_bytes (c_Issuer c) ++ put_bytes (c_Serial c) ++ put_bytes (c_Fingerprint c) ++ put_bytes (c_DER c) ++ [c_NotBefore c] ++ [c_NotAfter c] ++
  put_bytes (c_Status c) ++ [c_IssuedAt c] ++ [c_RevokedAt c] ++ [c_Reason c] ++ put_provenance (c_Provenance c).
Definition take_certificate (s : bytes) : option Certificate :=
  '(i, s) ← take_bytes s; '(n, s) ← take_bytes s; '(h, s) ← take_bytes s; '(d, s) ← take_bytes s; '(nb, s) ← take_int s; '(na, s) ← take_int s;
  '(st, s) ← take_bytes s; '(ia, s) ← take_int s; '(ra, s) ← take_int s; '(re, s) ← take_int s; '(p, s) ← take_provenance s;
  Some (mkCertificate i n h d nb na st ia ra re p).
Definition put_publication (p : publication) : bytes := put_bytes (p_DER p) ++ [p_Number p] ++ [p_RefreshAt p] ++ [Z.b2z (p_Dirty p)].
Definition take_publication (s : bytes) : option publication :=
  '(d, s) ← take_bytes s; '(n, s) ← take_int s; '(t, s) ← take_int s; '(b, s) ← take_int s; Some (mkPublication d n t (b =? 1)).

Ltac take_puts := repeat first [rewrite take_put|rewrite take_int_put|rewrite Nat2Z.id, take_many_put]; cbn [mbind option_bind].
Lemma take_provenance_put p : take_provenance (put_provenance p ++ []) = Some (p, []).
Proof.
  destruct p as [a b c d e l f]. unfold take_provenance, put_provenance. cbn [pv_UDID pv_Serial pv_EnrollmentID pv_Source pv_AccountID pv_Identifiers EnrollmentReference].
  rewrite <-!app_assoc. repeat (progress take_puts). done.
Qed.
#[refine] Instance codec_Certificate : Codec Certificate := {| Marshal c := Some (put_certificate c); Unmarshal := take_certificate |}.
Proof.
  intros [i n h d nb na st ia ra re p] ? [= <-]. unfold take_certificate, put_certificate. cbn [c_Issuer c_Serial c_Fingerprint c_DER c_NotBefore c_NotAfter c_Status c_IssuedAt c_RevokedAt c_Reason c_Provenance].
  repeat (progress take_puts). rewrite <-(app_nil_r (put_provenance _)), take_provenance_put. done.
Defined.
#[refine] Instance codec_publication : Codec publication := {| Marshal p := Some (put_publication p); Unmarshal := take_publication |}.
Proof. intros p ? [= <-]. destruct p as [d n t b]. unfold take_publication, put_publication. cbn [p_DER p_Number p_RefreshAt p_Dirty]. repeat (progress take_puts). by destruct b. Defined.

(** ** An issuer *)

#[local] Instance sampleCrypto : StatusCrypto := {|
  CheckSignatureFrom c p := bool_decide (take 2 (xc_Raw c) = xc_SubjectKeyId p);
  MarshalPublicKey k := match k with OtherKey b => Some b | _ => None end;
  CreateRevocationList draw l i := Ok ([rl_Number l; rl_ThisUpdate l; rl_NextUpdate l] ++ (ce_Serial <$> rl_Entries l));
  ocsp_ParseRequest b := match b with [h; a; c; n] => Some (mkOcspRequest h [a] [c] n) | _ => None end;
  ocsp_CreateRequest n c h := Some ([h] ++ xc_SubjectKeyId c ++ [n]);
  ocsp_CreateResponse draw r i := Ok [match or_Status r with OcspGood => 0 | OcspRevoked => 1 | OcspUnknown => 2 end; or_Serial r; or_RevokedAt r];
  certificate_json := codec_Certificate;
  publication_json := codec_publication |}.

Definition caS : xcert := mkXcert (bs "root") (Some 1) true true (bs "ca") (OtherKey (bs "k")) 0 1000.
Definition issuerS : Issuer := mkIssuer caS (OtherKey (bs "k")) 60 30 10.
Definition idS : bytes := Eval vm_compute in Fingerprint caS.
Definition leafS (n : Z) : xcert := mkXcert (bs "ca" ++ [n]) (Some n) false false [] (OtherKey (bs "d")) 0 500.
Definition provS : Provenance := mkProvenance [] [] (bs "E1") (bs "scep") [] [bs "a"; bs "b"] [].
Definition registryS : result terr Registry := New (Some NewMemory) [Some issuerS].
Definition rS : Registry := Eval vm_compute in match registryS with Ok r => r | Err _ => ∅ end.
Definition never : nat → bool := λ _, false.

Definition s1S : Memory := (Register never 10 rS idS (Some (leafS 300)) provS NewMemory).2.
Definition s2S : Memory := (Register never 11 rS idS (Some (leafS 7)) provS s1S).2.
Definition s3S : Memory := (Revoke never 20 rS idS (Some 300) 4 s2S).2.
Definition s4S : Memory := (CRL never 25 0 rS idS s3S).2.
Definition s5S : Memory := (Revoke never 30 rS idS (Some 7) 1 s4S).2.
Definition s6S : Memory := (CRL never 31 0 rS idS s5S).2.

Example crl_run : CRL never 25 0 rS idS s3S = (Ok [1; 25; 85; 300], s4S).
Proof. apply with_state; [reflexivity|]. vm_compute. reflexivity. Qed.
Example crl_cached : (CRL never 26 0 rS idS s4S).1 = Ok [1; 25; 85; 300].
Proof. vm_compute. reflexivity. Qed.
Example crl_next : CRL never 31 0 rS idS s5S = (Ok [2; 31; 91; 300; 7], s6S).
Proof. apply with_state; [reflexivity|]. vm_compute. reflexivity. Qed.
Example check_run : Check_ never 25 (Some (leafS 7)) s4S = Ok tt ∧ Check_ never 25 (Some (leafS 300)) s4S = Err ErrRevoked ∧
  Check_ never 25 (Some (leafS 8)) s4S = Err ErrUnknown ∧ Check_ never 500 (Some (leafS 7)) s4S = Err ErrExpired.
Proof. split_and!; vm_compute; reflexivity. Qed.
Example ocsp_run : OCSP never 25 0 rS idS [5; 99; 97; 300] s4S = Ok [1; 300; 20] ∧ OCSP never 25 0 rS idS [5; 99; 97; 9] s4S = Ok [2; 9; 0].
Proof. split; vm_compute; reflexivity. Qed.

(** ** The theorems at this run *)

Lemma newS : New (Some NewMemory) [Some issuerS] = Ok rS.
Proof. vm_compute. reflexivity. Qed.
Lemma registerS : Register never 10 rS idS (Some (leafS 300)) provS NewMemory = (Ok tt, s1S).
Proof. apply with_state; [reflexivity|]. vm_compute. reflexivity. Qed.
Lemma register2S : Register never 11 rS idS (Some (leafS 7)) provS s1S = (Ok tt, s2S).
Proof. apply with_state; [reflexivity|]. vm_compute. reflexivity. Qed.
Lemma revokeS : Revoke never 20 rS idS (Some 300) 4 s2S = (Ok tt, s3S).
Proof. apply with_state; [reflexivity|]. vm_compute. reflexivity. Qed.
Lemma revoke2S : Revoke never 30 rS idS (Some 7) 1 s4S = (Ok tt, s5S).
Proof. apply with_state; [reflexivity|]. vm_compute. reflexivity. Qed.
Lemma freshS : reachable rS (store_view NewMemory).
Proof. exists ∅. split_and!; [intros k row Hk; discriminate Hk|done|done]. Qed.
Lemma history12 : rtc (rstep rS) (store_view s1S) (store_view s2S).
Proof. eapply Register_step, register2S. Qed.
Lemma history34 : rtc (rstep rS) (store_view s3S) (store_view s5S).
Proof. etrans; [eapply CRL_step, crl_run|eapply Revoke_step, revoke2S]. Qed.
Lemma reachable3 : reachable rS (store_view s3S).
Proof.
  eapply reachable_rtc; [apply freshS|]. etrans; [eapply Register_step, registerS|]. etrans; [apply history12|]. eapply Revoke_step, revokeS.
Qed.

Lemma revocation_final_witness : ∃ cert, Lookup never rS idS (Some 300) s5S = Ok cert ∧ c_RevokedAt cert = 20.
Proof.
  destruct (revocation_final (Some NewMemory) [Some issuerS] rS idS (leafS 300) 300 provS 4 NewMemory s1S s2S s3S s5S never 10 never 20 never
              newS freshS eq_refl registerS history12 revokeS history34 (λ _, eq_refl)) as [(cert & H & _ & Ht & _) _]. exists cert. exact (conj H Ht).
Defined.
Lemma CRL_exact_witness : ∃ entries, [2; 31; 91; 300; 7] = [2; 31; 91] ++ (ce_Serial <$> entries) ∧ ∀ e, e ∈ entries ↔ revoked_row (store_view s5S) idS 31 e.
Proof.
  destruct (CRL_exact (Some NewMemory) [Some issuerS] rS idS s5S s6S never 31 0 [2; 31; 91; 300; 7] newS (reachable_rtc _ _ _ reachable3 history34) crl_next)
    as (i & number & now & entries & draw & _ & H & _ & He). injection H as _ -> _ Hs. exists entries. split; [by rewrite <-Hs|exact He].
Defined.
Lemma CRL_numbers_witness : ∃ n n', signed_list issuerS n [1; 25; 85; 300] ∧ signed_list issuerS n' [2; 31; 91; 300; 7] ∧ n < n'.
Proof.
  destruct (CRL_numbers (Some NewMemory) [Some issuerS] rS idS s3S s4S s5S s6S never 25 0 [1; 25; 85; 300] never 31 0 [2; 31; 91; 300; 7] newS reachable3 crl_run
              (Revoke_step _ _ _ _ _ _ _ _ _ revoke2S) crl_next) as (i & n & n' & Hi & Hs & Hs' & _ & _ & Hn).
  assert (i = issuerS) as -> by (assert (rS !! idS = Some issuerS) as E by (vm_compute; reflexivity); rewrite E in Hi; by injection Hi).
  exists n, n'. split; [exact Hs|]. split; [exact Hs'|]. destruct Hn as [Hn|[_ E]]; [exact Hn|discriminate E].
Defined.
Lemma pubS q : pub (store_view s3S) idS = Some q → p_Number q < max_int64.
Proof. assert (pub (store_view s3S) idS = Some (mkPublication [] 0 0 true)) as -> by (vm_compute; reflexivity). by intros [= <-]. Qed.
Lemma CRL_served_witness : ∃ der s', CRL never 25 0 rS idS s3S = (Ok der, s').
Proof.
  exact (CRL_served (Some NewMemory) [Some issuerS] rS idS issuerS s3S never 25 0 newS reachable3 ltac:(vm_compute; reflexivity) (λ _, eq_refl) eq_refl
           (λ l, ex_intro _ _ eq_refl) (λ p, ex_intro _ _ eq_refl) pubS).
Defined.
