(* ===== verification/Der.v ===== *)
(** * DER: the part of encoding/asn1 the certificate authority uses

    Reading one tagged value ([asn1.Unmarshal] into a [RawValue]) and object identifiers,
    both ways, with the limits of the package: lengths below two to the thirty-first in
    minimal form, components of identifiers up to the largest [int32]. *)
From S2P Require Import Prelude Sha256.

Record RawValue := mkRaw { rv_Class : Z; rv_Tag : Z; rv_Compound : bool; rv_Bytes : bytes }.
Definition max_int32 : Z := 2 ^ 31 - 1.

(** ** Reading *)

(** [parseBase128Int]: at most five octets, minimal, at most the largest [int32]. *)
Fixpoint read_base128 (shifted : nat) (acc : Z) (s : bytes) : option (Z * bytes) :=
  match s with
  | [] => None
  | b :: s =>
      if (5 <=? shifted)%nat || ((shifted =? 0)%nat && (b =? 128)) then None
      else let acc := acc * 128 + b mod 128 in
           if b <? 128 then if max_int32 <? acc then None else Some (acc, s) else read_base128 (S shifted) acc s
  end.
(** The octets of a long length. *)
Fixpoint read_octets (k : nat) (acc : Z) (s : bytes) : option (Z * bytes) :=
  match k with
  | O => Some (acc, s)
  | S k =>
      match s with
      | [] => None
      | b :: s => if 2 ^ 23 <=? acc then None else let acc := acc * 256 + b in if acc =? 0 then None else read_octets k acc s
      end
  end.
(** [parseTagAndLength]: the tag, its class and form, and the length. *)
Definition read_length (s : bytes) : option (Z * bytes) :=
  match s with
  | [] => None
  | b :: s =>
      if b <? 128 then Some (b, s)
      else if b =? 128 then None
      else match read_octets (Z.to_nat (b - 128)) 0 s with
           | Some (n, s) => if n <? 128 then None else Some (n, s)
           | None => None
           end
  end.
Definition read_tag (s : bytes) : option (Z * bool * Z * bytes) :=
  match s with
  | [] => None
  | b :: s =>
      let low := b mod 32 in
      if low =? 31 then match read_base128 0 0 s with
                        | Some (tag, s) => if tag <? 31 then None else Some (b / 64, Z.testbit b 5, tag, s)
                        | None => None
                        end
      else Some (b / 64, Z.testbit b 5, low, s)
  end.
(** [asn1.Unmarshal] into a [RawValue]: the value and what follows it. *)
Definition read_raw (s : bytes) : option (RawValue * bytes) :=
  match read_tag s with
  | Some (class, compound, tag, s) =>
      match read_length s with
      | Some (n, s) => if Z.of_nat (length s) <? n then None else Some (mkRaw class tag compound (take (Z.to_nat n) s), drop (Z.to_nat n) s)
      | None => None
      end
  | None => None
  end.
(** [parseObjectIdentifier]; [fuel] bounds the components, which take an octet or more. *)
Fixpoint read_arcs (fuel : nat) (s : bytes) : option (list Z) :=
  match fuel, s with
  | _, [] => Some []
  | O, _ => None
  | S fuel, s => match read_base128 0 0 s with Some (v, s) => cons v <$> read_arcs fuel s | None => None end
  end.
Definition read_oid_content (s : bytes) : option (list Z) :=
  match read_base128 0 0 s with
  | Some (v, s) => (λ arcs, (if v <? 80 then [v / 40; v mod 40] else [2; v - 80]) ++ arcs) <$> read_arcs (length s) s
  | None => None
  end.
(** [asn1.Unmarshal] into an [ObjectIdentifier]. *)
Definition read_oid (s : bytes) : option (list Z * bytes) :=
  match read_raw s with
  | Some (v, s) =>
      if bool_decide (rv_Class v = 0) && bool_decide (rv_Tag v = 6) && negb (rv_Compound v)
      then (λ oid, (oid, s)) <$> read_oid_content (rv_Bytes v) else None
  | None => None
  end.

(** ** Writing *)

(** The length octets: short form, or the number of octets and the length without leading
    zeros; an [int] has at most eight octets. *)
Fixpoint length_octets (fuel : nat) (v : Z) (acc : bytes) : bytes :=
  match fuel with
  | O => acc
  | S fuel => if v =? 0 then acc else length_octets fuel (v / 256) (v mod 256 :: acc)
  end.
Definition der_length (n : Z) : bytes := if n <? 128 then [n] else let ls := length_octets 8 n [] in (128 + Z.of_nat (length ls)) :: ls.

Fixpoint base128_loop (fuel : nat) (n : Z) (acc : bytes) : bytes :=
  match fuel with
  | O => acc
  | S fuel => if n <=? 0 then acc else base128_loop fuel (n / 128) ((n mod 128 + if bool_decide (acc = []) then 0 else 128) :: acc)
  end.
Definition base128 (n : Z) : bytes := if n =? 0 then [0] else base128_loop 10 n [].
(** [asn1.Marshal] of an [ObjectIdentifier]. *)
Definition write_oid (oid : list Z) : option bytes :=
  match oid with
  | a :: b :: rest =>
      if (2 <? a) || ((a <? 2) && (40 <=? b)) then None
      else let body := concat (base128 <$> (a * 40 + b) :: rest) in Some (6 :: der_length (Z.of_nat (length body)) ++ body)
  | _ => None
  end.

(** ** What is written reads back *)

Lemma read_octets_app j : ∀ k acc s, read_octets (j + k) acc s = match read_octets j acc s with Some (acc, s) => read_octets k acc s | None => None end.
Proof. induction j as [|j IH]; intros k acc s; cbn; [done|]. destruct s as [|b s]; [done|]. destruct (_ <=? _); [done|]. destruct (_ =? _); [done|]. apply IH. Qed.
Lemma length_octets_spec fuel : ∀ v acc, 0 < v < 256 ^ Z.of_nat fuel → v < 2 ^ 31 →
  ∃ ds, length_octets fuel v acc = ds ++ acc ∧ (1 ≤ length ds)%nat ∧ (length ds ≤ fuel)%nat ∧ ∀ rest, read_octets (length ds) 0 (ds ++ rest) = Some (v, rest).
Proof.
  induction fuel as [|fuel IH]; intros v acc [Hv Hlt] H31; [cbn in Hlt; lia|]. cbn [length_octets]. rewrite (proj2 (Z.eqb_neq v 0)) by lia.
  rewrite Nat2Z.inj_succ, Z.pow_succ_r in Hlt by lia. assert (Hm : 0 ≤ v mod 256 < 256) by (apply Z.mod_pos_bound; lia). pose proof (Z.div_mod v 256 ltac:(lia)) as Hd.
  assert (Hlast : ∀ rest, v / 256 < 2 ^ 23 → read_octets 1 (v / 256) ((v mod 256 :: []) ++ rest) = Some (v, rest)).
  { intros rest H. cbn [read_octets app]. rewrite (proj2 (Z.leb_gt _ _)) by lia. replace (v / 256 * 256 + v mod 256) with v by lia. by rewrite (proj2 (Z.eqb_neq v 0)) by lia. }
  assert (H23 : v / 256 < 2 ^ 23) by (apply Z.div_lt_upper_bound; lia).
  destruct (Z.eq_dec (v / 256) 0) as [E|E].
  - exists [v mod 256]. rewrite E in *. split_and!; [by destruct fuel|cbn; lia|cbn; lia|]. intros rest. by apply Hlast.
  - destruct (IH (v / 256) (v mod 256 :: acc)) as (ds & Hds & H1 & H2 & Hr).
    + split; [|apply Z.div_lt_upper_bound; lia]. assert (0 ≤ v / 256) by (apply Z.div_pos; lia). lia.
    + lia.
    + exists (ds ++ [v mod 256]). rewrite length_app. cbn [length]. split_and!; [by rewrite Hds, <-app_assoc|lia|lia|].
      intros rest. rewrite read_octets_app, <-app_assoc, Hr. by apply Hlast.
Qed.
Lemma read_der_length n rest : 0 ≤ n < 2 ^ 31 → read_length (der_length n ++ rest) = Some (n, rest).
Proof.
  intros Hn. unfold der_length. destruct (Z.ltb_spec n 128); cbn [app read_length]; [by rewrite (proj2 (Z.ltb_lt n 128))|].
  destruct (length_octets_spec 8 n []) as (ds & -> & H1 & H2 & Hr); [cbn; lia|lia|]. rewrite app_nil_r.
  rewrite (proj2 (Z.ltb_ge _ _)), (proj2 (Z.eqb_neq _ _)) by lia. replace (128 + Z.of_nat (length ds) - 128) with (Z.of_nat (length ds)) by lia.
  rewrite Nat2Z.id, Hr. by rewrite (proj2 (Z.ltb_ge n 128)).
Qed.

(** A tag below 31 with its class and form, as one octet. *)
Lemma read_raw_tlv id body rest : 0 ≤ id < 256 → id mod 32 ≠ 31 → Z.of_nat (length body) < 2 ^ 31 →
  read_raw (id :: der_length (Z.of_nat (length body)) ++ body ++ rest) = Some (mkRaw (id / 64) (id mod 32) (Z.testbit id 5) body, rest).
Proof.
  intros _ Ht Hl. unfold read_raw, read_tag. rewrite (proj2 (Z.eqb_neq _ _)) by done. rewrite read_der_length by lia.
  rewrite (proj2 (Z.ltb_ge _ _)) by (rewrite length_app; lia). rewrite Nat2Z.id, take_app_length, drop_app_length. done.
Qed.

(** Octets with the continuation bit, then a last one. *)
Lemma read_base128_more hi : ∀ sh acc s, Forall (λ b, 128 ≤ b < 256) hi → (length hi + sh ≤ 5)%nat → (sh = 0%nat → head hi ≠ Some 128) →
  read_base128 sh acc (hi ++ s) = read_base128 (sh + length hi) (foldl (λ a b, a * 128 + (b - 128)) acc hi) s.
Proof.
  induction hi as [|b hi IH]; intros sh acc s Hf Hl H0; cbn [app foldl length]; [by rewrite Nat.add_0_r|]. apply Forall_cons in Hf as [Hb Hf]. cbn [length] in Hl.
  cbn [read_base128]. rewrite (proj2 (Nat.leb_gt 5 sh)) by lia. cbn [orb].
  assert ((sh =? 0)%nat && (b =? 128) = false) as ->.
  { destruct (Nat.eqb_spec sh 0) as [->|]; [|done]. cbn. apply Z.eqb_neq. intros ->. by apply H0. }
  rewrite (proj2 (Z.ltb_ge b 128)) by lia. rewrite IH; [|done|lia|lia]. replace (b mod 128) with (b - 128); [f_equal; lia|].
  replace b with (b - 128 + 1 * 128) at 2 by lia. rewrite Z_mod_plus, Z.mod_small by lia. done.
Qed.
Lemma base128_loop_spec fuel : ∀ n acc, 0 < n < 128 ^ Z.of_nat fuel → ∃ ds, base128_loop fuel n acc = ds ++ acc ∧ (1 ≤ length ds)%nat ∧
  (∀ k : nat, n < 128 ^ Z.of_nat k → (length ds ≤ k)%nat) ∧
  (acc ≠ [] → Forall (λ b, 128 ≤ b < 256) ds ∧ head ds ≠ Some 128 ∧ foldl (λ a b, a * 128 + (b - 128)) 0 ds = n).
Proof.
  induction fuel as [|fuel IH]; intros n acc [Hn Hlt]; [cbn in Hlt; lia|]. cbn [base128_loop]. rewrite (proj2 (Z.leb_gt n 0)) by lia. rewrite Nat2Z.inj_succ, Z.pow_succ_r in Hlt by lia.
  assert (Hm : 0 ≤ n mod 128 < 128) by (apply Z.mod_pos_bound; lia). pose proof (Z.div_mod n 128 ltac:(lia)) as Hd. set (d := n mod 128 + _).
  destruct (Z.eq_dec (n / 128) 0) as [E|E].
  - exists [d]. rewrite E. split_and!; [destruct fuel; cbn; done|cbn; lia| |].
    + intros k Hk. destruct k; [cbn in Hk; lia|cbn; lia].
    + intros Hacc. subst d. rewrite bool_decide_false by done. split_and!; [repeat constructor; lia|cbn; intros [= Hx]; lia|cbn; lia].
  - assert (0 < n / 128) by (assert (0 ≤ n / 128) by (apply Z.div_pos; lia); lia).
    destruct (IH (n / 128) (d :: acc)) as (ds & Hds & H1 & H2 & H3); [split; [done|apply Z.div_lt_upper_bound; lia]|]. destruct (H3 ltac:(done)) as (Hf & Hh & Hs).
    exists (ds ++ [d]). rewrite length_app. cbn [length]. split_and!; [by rewrite Hds, <-app_assoc|lia| |].
    + intros k Hk. destruct k as [|k]; [cbn in Hk; lia|]. rewrite Nat2Z.inj_succ, Z.pow_succ_r in Hk by lia. specialize (H2 k ltac:(apply Z.div_lt_upper_bound; lia)). lia.
    + intros Hacc. subst d. rewrite bool_decide_false by done. split_and!.
      * apply Forall_app. split; [done|repeat constructor; lia].
      * by destruct ds.
      * rewrite foldl_app, Hs. cbn. lia.
Qed.
Lemma read_base128_write n rest : 0 ≤ n ≤ max_int32 → read_base128 0 0 (base128 n ++ rest) = Some (n, rest).
Proof.
  unfold max_int32. intros Hn. unfold base128. destruct (Z.eqb_spec n 0) as [->|Hne]; [done|]. cbn [base128_loop]. rewrite (proj2 (Z.leb_gt n 0)) by lia. rewrite bool_decide_true by done.
  rewrite Z.add_0_r. assert (Hm : 0 ≤ n mod 128 < 128) by (apply Z.mod_pos_bound; lia). pose proof (Z.div_mod n 128 ltac:(lia)) as Hd.
  assert (Hlast : ∀ sh v, (sh ≤ 4)%nat → v * 128 + n mod 128 = n → (sh = 0%nat → n mod 128 ≠ 128) → read_base128 sh v ((n mod 128) :: rest) = Some (n, rest)).
  { intros sh v Hsh Hv _. cbn [read_base128]. rewrite (proj2 (Nat.leb_gt 5 sh)) by lia. rewrite (proj2 (Z.eqb_neq (n mod 128) 128)), andb_false_r by lia. cbn [orb].
    rewrite Z.mod_mod, (proj2 (Z.ltb_lt _ 128)), Hv by lia. unfold max_int32. by rewrite (proj2 (Z.ltb_ge _ n)) by lia. }
  destruct (Z.eq_dec (n / 128) 0) as [E|E].
  - rewrite E. change (base128_loop 9 0 [n mod 128]) with [n mod 128]. cbn [app]. apply Hlast; lia.
  - change (read_base128 0 0 (base128_loop 9 (n / 128) [n mod 128] ++ rest) = Some (n, rest)). assert (0 < n / 128) by (assert (0 ≤ n / 128) by (apply Z.div_pos; lia); lia).
    destruct (base128_loop_spec 9 (n / 128) [n mod 128]) as (ds & -> & _ & H2 & H3).
    { split; [done|]. apply Z.div_lt_upper_bound; [lia|]. change (n < 128 * 128 ^ 9). lia. }
    destruct (H3 ltac:(done)) as (Hf & Hh & Hs). specialize (H2 4%nat ltac:(apply Z.div_lt_upper_bound; [lia|]; change (n < 128 * 128 ^ 4); lia)).
    rewrite <-app_assoc, read_base128_more; [|done|lia|done]. rewrite Hs. cbn [app]. apply Hlast; lia.
Qed.
Lemma base128_nonempty n : 0 ≤ n → (1 ≤ length (base128 n))%nat.
Proof.
  intros Hn. unfold base128. destruct (Z.eqb_spec n 0); [cbn; lia|]. change 10%nat with (S 9).
  assert (H : ∀ f m acc, acc ≠ [] → (1 ≤ length (base128_loop f m acc))%nat).
  { induction f as [|f IH]; intros m [|x acc] Ha; try done; cbn [base128_loop]; [cbn; lia|]. destruct (m <=? 0); [cbn; lia|by apply IH]. }
  generalize 9%nat as f. intros f. cbn [base128_loop]. rewrite (proj2 (Z.leb_gt n 0)) by lia. by apply H.
Qed.
Lemma read_arcs_write arcs : ∀ fuel, Forall (λ n, 0 ≤ n ≤ max_int32) arcs → (length (concat (base128 <$> arcs)) ≤ fuel)%nat → read_arcs fuel (concat (base128 <$> arcs)) = Some arcs.
Proof.
  induction arcs as [|a arcs IH]; intros fuel Hf Hl; [by destruct fuel|]. apply Forall_cons in Hf as [Ha Hf]. rewrite fmap_cons in *. cbn [concat] in *. rewrite length_app in Hl.
  pose proof (base128_nonempty a ltac:(lia)) as Hne. destruct fuel as [|fuel]; [lia|]. cbn [read_arcs].
  destruct (base128 a ++ concat (base128 <$> arcs)) as [|x l] eqn:E; [apply app_eq_nil in E as [E _]; rewrite E in Hne; cbn in Hne; lia|]. rewrite <-E, read_base128_write by done.
  rewrite IH; [done|done|lia].
Qed.

(** An object identifier the package can write and read. *)
Definition oid_ok (oid : list Z) : Prop :=
  ∃ a b rest, oid = a :: b :: rest ∧ 0 ≤ a ≤ 2 ∧ 0 ≤ b ∧ (a < 2 → b < 40) ∧ a * 40 + b ≤ max_int32 ∧ Forall (λ n, 0 ≤ n ≤ max_int32) rest.
Lemma read_oid_write oid der rest : oid_ok oid → write_oid oid = Some der → Z.of_nat (length der) < 2 ^ 31 → read_oid (der ++ rest) = Some (oid, rest).
Proof.
  intros (a & b & arcs & -> & Ha & Hb & H40 & Hmax & Hf). unfold write_oid. destruct (_ || _); [done|]. set (body := concat (base128 <$> (a * 40 + b) :: arcs)). intros [= <-] Hl.
  unfold read_oid. rewrite <-app_comm_cons, <-app_assoc. assert (Z.of_nat (length body) < 2 ^ 31) by (cbn [length] in Hl; rewrite length_app in Hl; lia).
  rewrite read_raw_tlv by (done || lia). cbn [rv_Class rv_Tag rv_Compound rv_Bytes]. change (bool_decide (6 / 64 = 0) && bool_decide (6 mod 32 = 6) && negb (Z.testbit 6 5)) with true. cbn [fmap].
  unfold read_oid_content. subst body. rewrite fmap_cons. cbn [concat]. rewrite read_base128_write by lia. rewrite read_arcs_write by done. cbn. do 2 f_equal.
  destruct (Z.ltb_spec (a * 40 + b) 80).
  - assert (a < 2) as H2 by lia. specialize (H40 H2). cbn. f_equal; [|f_equal]; Z.div_mod_to_equations; lia.
  - assert (a = 2) as -> by lia. cbn. repeat f_equal. lia.
Qed.
