(* ===== verification/Ca.v ===== *)
(** * The certificate authority: [pki/ca/ca.go]

    Validation of requests against a policy and the signer that holds its key in memory: what
    it puts into a certificate, within which bounds. [crypto/x509] is the class [CaCrypto];
    the random source is a draw given to the operation, the clock an argument. *)
From S2P Require Import Prelude Sha256 Jose Der.

(** ** Subject alternative names of issued certificates: [pki/ca/othername.go]

    The extension is written by hand, since crypto/x509 has no otherName form, and its
    otherName entries are read back by [ParseOtherNames]. The structured values of the known
    forms are opaque bytes here. *)

(** The sentinels of the package, or any other error. *)
(* @src devicemanagement/pki/ca/ca.go 27-31 errors *)
Inductive ca_err := ErrCSR | ErrPolicy | ErrNotFound | CaFail (what : bytes).
#[export] Instance ca_err_eq_dec : EqDecision ca_err.
Proof. solve_decision. Defined.

(* @src devicemanagement/pki/ca/othername.go 24-24 oidSubjectAltName *)
Definition oidSubjectAltName : list Z := [2; 5; 29; 17].
(* @src devicemanagement/pki/ca/othername.go 32-38 identifier octets *)
Definition idSequence : Z := 0x30.
Definition idOtherName : Z := 0xa0.
Definition idExplicitValue : Z := 0xa0.
Definition idRFC822Name : Z := 0x81.
Definition idDNSName : Z := 0x82.
Definition idURI : Z := 0x86.
Definition idIPAddress : Z := 0x87.
(* @src devicemanagement/pki/ca/othername.go 44-44 tagZero *)
Definition tagZero : Z := 0.

(* @src devicemanagement/pki/ca/othername.go - OtherName *)
Record OtherName := mkOtherName { on_ID : list Z; on_Value : bytes }.
(** A URI is the text [String] gives of it; nil is [None]. *)
(* @src devicemanagement/pki/ca/othername.go - SANs *)
Record SANs := mkSANs { OtherNames : list OtherName; DNSNames : list bytes; EmailAddresses : list bytes; IPAddresses : list bytes; URIs : list (option bytes) }.
(** [pkix.Extension]. *)
Record Extension := mkExt { x_Id : list Z; x_Critical : bool; x_Value : bytes }.

(* @src devicemanagement/pki/ca/othername.go - SANs.empty *)
Definition SANs_empty (s : SANs) : bool :=
  match OtherNames s, DNSNames s, EmailAddresses s, IPAddresses s, URIs s with [], [], [], [], [] => true | _, _, _, _, _ => false end.

(* @src devicemanagement/pki/ca/othername.go - tlv *)
Definition tlv (identifier : Z) (body : bytes) : bytes := identifier :: der_length (Z.of_nat (length body)) ++ body.

(* @src devicemanagement/pki/ca/othername.go - OtherName.der *)
Definition OtherName_der (o : OtherName) : result ca_err bytes :=
  _ ← reject (bool_decide (on_ID o = [])) (CaFail (bs "no type"));
  _ ← reject (bool_decide (on_Value o = [])) (CaFail (bs "no value"));
  match write_oid (on_ID o) with
  | None => Err (CaFail (bs "encode type"))
  | Some id => Ok (tlv idOtherName (id ++ tlv idExplicitValue (on_Value o)))
  end.
(** A byte beyond ASCII starts or stands for a rune beyond it. *)
(* @src devicemanagement/pki/ca/othername.go - generalNameString *)
Definition generalNameString (identifier : Z) (value : bytes) : result ca_err bytes :=
  _ ← reject (existsb (λ c, 127 <? c) value) (CaFail (bs "not IA5"));
  Ok (tlv identifier value).
(** [net.IP.To4]. *)
Definition To4 (ip : bytes) : option bytes :=
  if (length ip =? 4)%nat then Some ip
  else if (length ip =? 16)%nat && bool_decide (take 12 ip = replicate 10 0 ++ [255; 255]) then Some (drop 12 ip) else None.
(* @src devicemanagement/pki/ca/othername.go - generalNameIP *)
Definition generalNameIP (ip : bytes) : result ca_err bytes :=
  let octets := default ip (To4 ip) in
  _ ← reject (negb (length octets =? 4)%nat && negb (length octets =? 16)%nat) (CaFail (bs "address length"));
  Ok (tlv idIPAddress octets).
Definition generalNameURI (uri : option bytes) : result ca_err bytes :=
  match uri with None => Err (CaFail (bs "nil URI")) | Some u => generalNameString idURI u end.

(** One of the loops that append to the body. *)
Fixpoint append_names {A} (f : A → result ca_err bytes) (body : bytes) (l : list A) : result ca_err bytes :=
  match l with
  | [] => Ok body
  | a :: l => der ← f a; append_names f (body ++ der) l
  end.
(* @src devicemanagement/pki/ca/othername.go - SANExtension *)
Definition SANExtension (names : SANs) (subjectEmpty : bool) : result ca_err (option Extension) :=
  if SANs_empty names then Ok None
  else
    body ← append_names OtherName_der [] (OtherNames names);
    body ← append_names (generalNameString idDNSName) body (DNSNames names);
    body ← append_names (generalNameString idRFC822Name) body (EmailAddresses names);
    body ← append_names generalNameIP body (IPAddresses names);
    body ← append_names generalNameURI body (URIs names);
    Ok (Some (mkExt oidSubjectAltName subjectEmpty (tlv idSequence body))).

(** ** Reading them back *)

(* @src devicemanagement/pki/ca/othername.go - parseOtherName *)
Definition parseOtherName (der : bytes) : result ca_err OtherName :=
  match read_oid der with
  | None => Err (CaFail (bs "otherName type"))
  | Some (id, rest) =>
      match read_raw rest with
      | None => Err (CaFail (bs "otherName value"))
      | Some (wrapper, trailing) =>
          _ ← reject (bool_decide (trailing ≠ [])) (CaFail (bs "trailing data"));
          _ ← reject (bool_decide (rv_Class wrapper ≠ 2) || bool_decide (rv_Tag wrapper ≠ tagZero) || negb (rv_Compound wrapper)) (CaFail (bs "not explicit"));
          Ok (mkOtherName id (rv_Bytes wrapper))
      end
  end.
(** The loop of [parseSANOtherNames]; each round reads two octets or more. *)
(* @src devicemanagement/pki/ca/othername.go 276-293 parseSANOtherNames *)
Fixpoint san_loop (fuel : nat) (body : bytes) (names : list OtherName) : result ca_err (list OtherName) :=
  match body with
  | [] => Ok names
  | _ =>
      match fuel with
      | O => Err (CaFail (bs "fuel"))
      | S fuel =>
          match read_raw body with
          | None => Err (CaFail (bs "general name"))
          | Some (name, body) =>
              if bool_decide (rv_Class name ≠ 2) || bool_decide (rv_Tag name ≠ tagZero) || negb (rv_Compound name) then san_loop fuel body names
              else other ← parseOtherName (rv_Bytes name); san_loop fuel body (names ++ [other])
          end
      end
  end.
(* @src devicemanagement/pki/ca/othername.go - parseSANOtherNames *)
Definition parseSANOtherNames (der : bytes) : result ca_err (list OtherName) :=
  match read_raw der with
  | None => Err (CaFail (bs "subject alternative names"))
  | Some (seq, rest) =>
      _ ← reject (bool_decide (rest ≠ [])) (CaFail (bs "trailing data"));
      _ ← reject (bool_decide (rv_Class seq ≠ 0) || bool_decide (rv_Tag seq ≠ 16) || negb (rv_Compound seq)) (CaFail (bs "not a sequence"));
      san_loop (length (rv_Bytes seq)) (rv_Bytes seq) []
  end.
(** Of a certificate, its extensions; [None] is a nil certificate. *)
(* @src devicemanagement/pki/ca/othername.go - ParseOtherNames *)
Definition ParseOtherNames (cert : option (list Extension)) : result ca_err (list OtherName) :=
  match cert with
  | None => Err (CaFail (bs "nil certificate"))
  | Some exts =>
      match List.find (λ ext, bool_decide (x_Id ext = oidSubjectAltName)) exts with
      | Some ext => parseSANOtherNames (x_Value ext)
      | None => Ok []
      end
  end.

(** ** Round trip *)

Lemma read_tlv id body rest : 0 ≤ id < 256 → id mod 32 ≠ 31 → Z.of_nat (length (tlv id body)) < 2 ^ 31 →
  read_raw (tlv id body ++ rest) = Some (mkRaw (id / 64) (id mod 32) (Z.testbit id 5) body, rest).
Proof.
  intros Hid Ht Hl. unfold tlv in *. rewrite <-app_comm_cons, <-app_assoc. apply read_raw_tlv; [done..|]. cbn [length] in Hl. rewrite length_app in Hl. lia.
Qed.
Lemma tlv_length id body : (length body < length (tlv id body))%nat.
Proof. unfold tlv. cbn [length]. rewrite length_app. lia. Qed.

Lemma append_names_Ok {A} (f : A → result ca_err bytes) l : ∀ body out, append_names f body l = Ok out → ∃ ds, out = body ++ concat ds ∧ Forall2 (λ a d, f a = Ok d) l ds.
Proof.
  induction l as [|a l IH]; intros body out; cbn; [intros [= <-]; exists []; by rewrite app_nil_r|]. intros H. apply bind_Ok_inv in H as (d & Hd & H). apply IH in H as (ds & -> & Hf).
  exists (d :: ds). split; [by rewrite <-app_assoc|by constructor].
Qed.

(** What the parser makes of one encoded name: an otherName, or nothing it keeps. *)
Definition reads_as (d : bytes) (o : option OtherName) : Prop :=
  d ≠ [] ∧ ∀ rest, ∃ name, read_raw (d ++ rest) = Some (name, rest) ∧
    let skipped := bool_decide (rv_Class name ≠ 2) || bool_decide (rv_Tag name ≠ tagZero) || negb (rv_Compound name) in
    match o with Some o => skipped = false ∧ parseOtherName (rv_Bytes name) = Ok o | None => skipped = true end.
Lemma san_loop_reads ds : ∀ os fuel names, Forall2 reads_as ds os → (length (concat ds) ≤ fuel)%nat → san_loop fuel (concat ds) names = Ok (names ++ omap id os).
Proof.
  induction ds as [|d ds IH]; intros os fuel names Hf Hl; inversion Hf as [|? o ? os' [Hne Hd] Hrest]; subst; [by destruct fuel; cbn; rewrite app_nil_r|].
  cbn [concat] in *. rewrite length_app in Hl. destruct d as [|x d]; [done|]. cbn [length] in Hl. destruct fuel as [|fuel]; [lia|]. cbn [san_loop app]. destruct (Hd (concat ds)) as (name & Hr & Ho).
  cbn [app] in Hr. rewrite Hr. destruct o as [o|].
  - destruct Ho as [-> ->]. cbn [mbind result_bind]. rewrite (IH os') by (done || lia). by rewrite <-app_assoc.
  - rewrite Ho. rewrite (IH os') by (done || lia). done.
Qed.

Lemma plain_reads id value d : In id [idRFC822Name; idDNSName; idURI; idIPAddress] → d = tlv id value → Z.of_nat (length d) < 2 ^ 31 → reads_as d None.
Proof.
  intros Hid -> Hl. split; [done|]. intros rest. destruct Hid as [<-|[<-|[<-|[<-|[]]]]]; (eexists; split; [by apply read_tlv|done]).
Qed.
Lemma other_reads o d : oid_ok (on_ID o) → OtherName_der o = Ok d → Z.of_nat (length d) < 2 ^ 31 → reads_as d (Some o).
Proof.
  intros Hok H Hl. unfold OtherName_der in H. go_binds H. destruct (write_oid (on_ID o)) as [idb|] eqn:Ew; [|done]. apply Ok_inv in H. subst d. split; [done|]. intros rest.
  eexists. split; [by apply read_tlv|]. split; [done|]. unfold parseOtherName. cbn [rv_Bytes].
  pose proof (tlv_length idOtherName (idb ++ tlv idExplicitValue (on_Value o))) as Hlt. rewrite length_app in Hlt.
  erewrite read_oid_write by (done || lia). rewrite <-(app_nil_r (tlv idExplicitValue _)), read_tlv by (done || lia). by destruct o.
Qed.

Lemma reads_plain_all {A} (f : A → result ca_err bytes) l ds : Forall2 (λ a d, f a = Ok d) l ds → Z.of_nat (length (concat ds)) < 2 ^ 31 →
  (∀ a d, f a = Ok d → Z.of_nat (length d) < 2 ^ 31 → reads_as d None) → Forall2 reads_as ds (replicate (length ds) None).
Proof.
  intros H Hl Hf. revert Hl. induction H as [|a d l ds Ha _ IH]; intros Hl; cbn; [constructor|]. cbn [concat] in Hl. rewrite length_app in Hl. constructor; [apply (Hf a); [done|lia]|apply IH; lia].
Qed.
Lemma reads_other_all l ds : Forall (λ o, oid_ok (on_ID o)) l → Forall2 (λ a d, OtherName_der a = Ok d) l ds → Z.of_nat (length (concat ds)) < 2 ^ 31 → Forall2 reads_as ds (Some <$> l).
Proof.
  intros Hok H Hl. revert Hok Hl. induction H as [|a d l ds Ha _ IH]; intros Hok Hl; [constructor|]. apply Forall_cons in Hok as [Ho Hok]. cbn [concat] in Hl. rewrite length_app in Hl.
  rewrite fmap_cons. constructor; [apply other_reads; [done..|lia]|apply IH; [done|lia]].
Qed.
Lemma omap_none n : omap id (replicate n (@None OtherName)) = [].
Proof. by induction n. Qed.

Lemma omap_some (l : list OtherName) : omap id (Some <$> l) = l.
Proof. induction l as [|o l IH]; [done|]. rewrite fmap_cons. cbn. by f_equal. Qed.
Lemma find_san before ext after : Forall (λ x, x_Id x ≠ oidSubjectAltName) before → x_Id ext = oidSubjectAltName →
  List.find (λ ext, bool_decide (x_Id ext = oidSubjectAltName)) (before ++ ext :: after) = Some ext.
Proof. intros Hb He. induction Hb as [|x l Hx _ IH]; cbn; [by rewrite bool_decide_true|by rewrite bool_decide_false]. Qed.
Lemma value_reads identifier value d : In identifier [idRFC822Name; idDNSName; idURI; idIPAddress] → generalNameString identifier value = Ok d →
  Z.of_nat (length d) < 2 ^ 31 → reads_as d None.
Proof. intros Hid H. unfold generalNameString in H. go_binds H. by apply (plain_reads identifier value). Qed.
Lemma ip_reads ip d : generalNameIP ip = Ok d → Z.of_nat (length d) < 2 ^ 31 → reads_as d None.
Proof. intros H. unfold generalNameIP in H. apply bind_Ok_inv in H as (u & _ & H). injection H as <-. eapply plain_reads; [|done]. cbn. tauto. Qed.
Lemma uri_reads u d : generalNameURI u = Ok d → Z.of_nat (length d) < 2 ^ 31 → reads_as d None.
Proof. destruct u as [u|]; [|done]. apply value_reads. cbn. tauto. Qed.

Lemma SAN_parsed names subjectEmpty ext : Forall (λ o, oid_ok (on_ID o)) (OtherNames names) → SANExtension names subjectEmpty = Ok (Some ext) →
  Z.of_nat (length (x_Value ext)) < 2 ^ 31 → x_Id ext = oidSubjectAltName ∧ x_Critical ext = subjectEmpty ∧ parseSANOtherNames (x_Value ext) = Ok (OtherNames names).
Proof.
  intros Hok H Hl. unfold SANExtension in H. destruct (SANs_empty names); [done|]. go_binds H. injection H as <-. split; [done|]. split; [done|]. cbn [x_Value] in Hl.
  repeat match goal with H : append_names _ _ _ = Ok _ |- _ => apply append_names_Ok in H as (? & -> & ?) end.
  unfold parseSANOtherNames. cbn [x_Value]. rewrite <-(app_nil_r (tlv idSequence _)), read_tlv by done. cbn [rv_Class rv_Tag rv_Compound rv_Bytes].
  change (bool_decide (idSequence / 64 ≠ 0) || bool_decide (idSequence mod 32 ≠ 16) || negb (Z.testbit idSequence 5)) with false. cbn [reject mbind result_bind].
  rewrite bool_decide_false by (intros E; by apply E). cbn [reject mbind result_bind].
  rewrite app_nil_l, <-!app_assoc, <-!concat_app in *. match goal with |- san_loop _ (concat ?ds) _ = _ => assert (Z.of_nat (length (concat ds)) < 2 ^ 31) as Hs by (pose proof (tlv_length idSequence (concat ds)); lia) end.
  rewrite !concat_app, !length_app in Hs.
  rewrite (san_loop_reads _ ((Some <$> OtherNames names) ++ replicate (length x2) None ++ replicate (length x1) None ++ replicate (length x0) None ++ replicate (length x) None)).
  - cbn [app]. rewrite !omap_app, !omap_none, !app_nil_r. by rewrite omap_some.
  - repeat apply Forall2_app.
    + by apply reads_other_all; [| |lia].
    + eapply reads_plain_all; [done|lia|]. intros ??. apply value_reads. cbn. tauto.
    + eapply reads_plain_all; [done|lia|]. intros ??. apply value_reads. cbn. tauto.
    + eapply reads_plain_all; [done|lia|]. apply ip_reads.
    + eapply reads_plain_all; [done|lia|]. apply uri_reads.
  - done.
Qed.

(** The otherNames of an issued certificate read back: from the extension written for any
    alternative names, behind any other extensions, [ParseOtherNames] returns exactly the
    otherName entries, in order, whatever names of the usual forms stand with them. *)
Theorem SAN_roundtrip names subjectEmpty ext before after :
  Forall (λ o, oid_ok (on_ID o)) (OtherNames names) → SANExtension names subjectEmpty = Ok (Some ext) → Z.of_nat (length (x_Value ext)) < 2 ^ 31 →
  Forall (λ x, x_Id x ≠ oidSubjectAltName) before →
  x_Critical ext = subjectEmpty ∧ ParseOtherNames (Some (before ++ ext :: after)) = Ok (OtherNames names).
Proof.
  intros Hok H Hl Hb. destruct (SAN_parsed _ _ _ Hok H Hl) as (Hid & Hc & Hp). split; [done|]. unfold ParseOtherNames. by rewrite find_san.
Qed.

(** A permanent identifier, a principal name with a long value, a host name and an address. *)
Definition sansS : SANs :=
  mkSANs [mkOtherName [1; 3; 6; 1; 5; 5; 7; 8; 3] (tlv 0x30 (tlv 12 (bs "UDID-1"))); mkOtherName [1; 3; 6; 1; 4; 1; 311; 20; 2; 3] (tlv 12 (replicate 300 65))]
    [bs "mdm.example"] [] [replicate 10 0 ++ [255; 255; 10; 0; 0; 1]] [Some (bs "urn:x")].
Definition extS : Extension := Eval vm_compute in match SANExtension sansS true with Ok (Some e) => e | _ => mkExt [] false [] end.
Example extS_head : take 4 (x_Value extS) = [0x30; 0x82; 1; 118] ∧ drop (length (x_Value extS) - 13) (x_Value extS) = [0x87; 4; 10; 0; 0; 1; 0x86; 5; 117; 114; 110; 58; 120].
Proof. split; vm_compute; reflexivity. Qed.
Lemma SAN_roundtrip_witness : ParseOtherNames (Some [mkExt [2; 5; 29; 15] true [3]; extS]) = Ok (OtherNames sansS).
Proof.
  refine (proj2 (SAN_roundtrip sansS true extS [mkExt [2; 5; 29; 15] true [3]] [] _ _ _ _)).
  - repeat constructor; do 3 eexists; (split; [reflexivity|]); unfold max_int32; repeat split; try lia; repeat constructor; lia.
  - vm_compute. reflexivity.
  - vm_compute. reflexivity.
  - repeat constructor. discriminate.
Defined.

(** [x509.KeyUsage], the bits the code names. *)
Definition KeyUsageDigitalSignature : Z := 1.
Definition KeyUsageKeyEncipherment : Z := 4.
Definition KeyUsageCertSign : Z := 32.
Definition KeyUsageCRLSign : Z := 64.
(** [pkix.Name]: the common name and the other attributes; [ToRDNSequence] is empty when it
    has none. *)
Record Name := mkName { CommonName : bytes; n_Others : list bytes }.
Definition Name_empty (n : Name) : bool := bool_decide (CommonName n = []) && bool_decide (n_Others n = []).

(** What the code reads of an [x509.CertificateRequest]; [cr_Signed] is [CheckSignature]. *)
Record CertificateRequest := mkRequest {
  cr_Raw : bytes; cr_SPKI : bytes; cr_Subject : Name; cr_PublicKey : PublicKey; cr_Signed : bool;
  cr_DNSNames : list bytes; cr_EmailAddresses : list bytes; cr_IPAddresses : list bytes; cr_URIs : list (option bytes) }.
(** And of an [x509.Certificate]. *)
Record Cert := mkCert {
  ct_Raw : bytes; ct_Serial : Z; ct_IsCA : bool; ct_BasicConstraintsValid : bool; ct_KeyUsage : Z; ct_PublicKey : PublicKey;
  ct_NotBefore : Time; ct_NotAfter : Time }.
(** The template of [x509.CreateCertificate]. *)
Record Template := mkTemplate {
  tp_Serial : Z; tp_Subject : Name; tp_NotBefore : Time; tp_NotAfter : Time; tp_KeyUsage : Z; tp_ExtKeyUsage : list Z; tp_BasicConstraintsValid : bool;
  tp_CRL : list bytes; tp_OCSP : list bytes; tp_Extra : list Extension; tp_SANs : SANs }.

(* @src devicemanagement/pki/ca/ca.go 74-86 KeyKind *)
Inductive KeyKind := KeyRSA2048 | KeyRSA3072 | KeyRSA4096 | KeyECP256 | KeyECP384 | KeyECP521.
#[export] Instance KeyKind_eq_dec : EqDecision KeyKind.
Proof. solve_decision. Defined.
(* @src devicemanagement/pki/ca/ca.go - Policy *)
Record Policy := mkPolicy {
  Validity : Z; NotAfter : Time; Backdate : Z; KeyUsage : Z; ExtKeyUsage : list Z; AllowSANs : bool; MinRSABits : Z; Subject : option Name;
  p_OtherNames : list OtherName; AllowedKeys : list KeyKind; CRLDistributionPoints : list bytes; OCSPServer : list bytes }.
Definition no_policy : Policy := mkPolicy 0 0 0 0 [] false 0 None [] [] [] [].

(* @src devicemanagement/pki/ca/ca.go - KindOf *)
Definition KindOf (pub : PublicKey) : option KeyKind :=
  match pub with
  | RSA N _ =>
      if BitLen N =? 2048 then Some KeyRSA2048
      else if BitLen N =? 3072 then Some KeyRSA3072
      else if BitLen N =? 4096 then Some KeyRSA4096 else None
  | ECDSA P256 _ => Some KeyECP256
  | ECDSA P384 _ => Some KeyECP384
  | ECDSA P521 _ => Some KeyECP521
  | _ => None
  end.
Definition second : Z := 10 ^ 9.
(* @src devicemanagement/pki/ca/ca.go - Policy.withDefaults *)
Definition withDefaults (p : Policy) : Policy :=
  mkPolicy (if Validity p =? 0 then 365 * 24 * 3600 * second else Validity p) (NotAfter p) (if Backdate p =? 0 then 300 * second else Backdate p) (KeyUsage p)
    (match ExtKeyUsage p with [] => [2] | l => l end) (AllowSANs p) (if MinRSABits p =? 0 then 2048 else MinRSABits p) (Subject p) (p_OtherNames p) (AllowedKeys p)
    (CRLDistributionPoints p) (OCSPServer p).

(* @src devicemanagement/pki/ca/ca.go - validateCSR *)
Definition validateCSR (csr : option CertificateRequest) (p : Policy) : result ca_err Z :=
  match csr with
  | None => Err ErrCSR
  | Some csr =>
      _ ← reject (negb (cr_Signed csr)) ErrCSR;
      let p := withDefaults p in
      keyUsage ← match cr_PublicKey csr with
        | RSA N _ =>
            _ ← reject (BitLen N <? MinRSABits p) ErrPolicy;
            Ok (if KeyUsage p =? 0 then Z.lor KeyUsageDigitalSignature KeyUsageKeyEncipherment else KeyUsage p)
        | ECDSA _ _ => Ok (if KeyUsage p =? 0 then KeyUsageDigitalSignature else KeyUsage p)
        | OtherKey _ => Err ErrPolicy
        end;
      _ ← reject (bool_decide (AllowedKeys p ≠ []) && match KindOf (cr_PublicKey csr) with Some kind => bool_decide (kind ∉ AllowedKeys p) | None => true end) ErrPolicy;
      _ ← reject (negb (AllowSANs p) && (bool_decide (cr_DNSNames csr ≠ []) || bool_decide (cr_EmailAddresses csr ≠ []) || bool_decide (cr_IPAddresses csr ≠ [])
                  || bool_decide (cr_URIs csr ≠ []))) ErrPolicy;
      Ok keyUsage
  end.
(* @src devicemanagement/pki/ca/ca.go - ValidateCSR *)
Definition ValidateCSR (csr : option CertificateRequest) (p : Policy) : result ca_err unit := _ ← validateCSR csr p; Ok tt.

(** ** Depots *)

(* @src devicemanagement/pki/ca/ca.go - Depot *)
Class Depot (D : Type) := {
  depot_Put : D → option Cert → result ca_err unit * D;
  depot_Get : D → Z → result ca_err Cert }.
(** Serial numbers stand for their decimal text. *)
(* @src devicemanagement/pki/ca/ca.go - MemoryDepot *)
Record MemoryDepot := mkDepot { certs : gmap Z Cert }.
(* @src devicemanagement/pki/ca/ca.go - NewMemoryDepot *)
Definition NewMemoryDepot : MemoryDepot := mkDepot ∅.
(* @src devicemanagement/pki/ca/ca.go - MemoryDepot.Put *)
Definition MemoryDepot_Put (d : MemoryDepot) (cert : option Cert) : result ca_err unit * MemoryDepot :=
  match cert with
  | None => (Err (CaFail (bs "nil certificate")), d)
  | Some c => (Ok tt, mkDepot (<[ct_Serial c := c]> (certs d)))
  end.
(* @src devicemanagement/pki/ca/ca.go - MemoryDepot.Get *)
Definition MemoryDepot_Get (d : MemoryDepot) (serial : Z) : result ca_err Cert :=
  match certs d !! serial with Some c => Ok c | None => Err ErrNotFound end.
(* @src devicemanagement/pki/ca/ca.go - MemoryDepot.Len *)
Definition MemoryDepot_Len (d : MemoryDepot) : nat := size (certs d).
#[export] Instance MemoryDepot_depot : Depot MemoryDepot := {| depot_Put := MemoryDepot_Put; depot_Get := MemoryDepot_Get |}.

(** ** The signer *)

(** [crypto/x509] with the private keys it signs with; a certificate is made with a draw of
    randomness. *)
Class CaCrypto := {
  MarshalPKIXPublicKey : PublicKey → option bytes;
  CreateCertificate : nat → Template → Cert → PublicKey → PublicKey → option bytes;
  ParseCertificate : bytes → option Cert }.

Section Signer.
Context {crypto : CaCrypto} {D : Type} {depot : Depot D}.

(** A private key stands as its public one. *)
(* @src devicemanagement/pki/ca/ca.go 154-161 Local *)
Record Local := mkLocal { l_cert : Cert; l_chain : list Cert; l_key : PublicKey }.

(* @src devicemanagement/pki/ca/ca.go - NewLocal *)
Definition NewLocal (cert : option Cert) (key : option PublicKey) (chain : list Cert) : result ca_err Local :=
  match cert, key with
  | Some cert, Some key =>
      _ ← reject (negb (ct_IsCA cert) || negb (ct_BasicConstraintsValid cert) || (Z.land (ct_KeyUsage cert) KeyUsageCertSign =? 0)) (CaFail (bs "not a CA"));
      match MarshalPKIXPublicKey (ct_PublicKey cert), MarshalPKIXPublicKey key with
      | None, _ => Err (CaFail (bs "public key"))
      | Some certKey, Some signerKey => _ ← reject (bool_decide (certKey ≠ signerKey)) (CaFail (bs "private key")); Ok (mkLocal cert chain key)
      | Some _, None => Err (CaFail (bs "private key"))
      end
  | _, _ => Err (CaFail (bs "certificate and key are required"))
  end.
(* @src devicemanagement/pki/ca/ca.go - Local.Chain *)
Definition Local_Chain (l : Local) : list Cert := l_cert l :: l_chain l.

(** [rand.Int] below the limit, or the failure of the source. *)
(* @src devicemanagement/pki/ca/ca.go - SerialFrom *)
Definition SerialFrom (draw : Z → option Z) : result ca_err Z :=
  match draw (Z.shiftl 1 127) with None => Err (CaFail (bs "serial")) | Some n => Ok (n + 1) end.

(** The expiry before the bounds of the issuer. *)
(* @src devicemanagement/pki/ca/ca.go 225-228 Local.Sign *)
Definition requested_expiry (p : Policy) (now : Time) : Time :=
  let notAfter := now + Validity p in
  if negb (NotAfter p =? 0) && (NotAfter p <? notAfter) then NotAfter p else notAfter.
(** The alternative names of the template: in an extension built here when there are
    otherNames, or in the fields. *)
(* @src devicemanagement/pki/ca/ca.go 252-277 Local.Sign *)
Definition template_names (csr : CertificateRequest) (p : Policy) (subject : Name) : result ca_err (list Extension * SANs) :=
  let none := mkSANs [] [] [] [] [] in
  let requested others := mkSANs others (cr_DNSNames csr) (cr_EmailAddresses csr) (cr_IPAddresses csr) (cr_URIs csr) in
  match p_OtherNames p with
  | (_ :: _) as others =>
      match SANExtension (if AllowSANs p then requested others else mkSANs others [] [] [] []) (Name_empty subject) with
      | Err _ => Err ErrPolicy
      | Ok (Some ext) => Ok ([ext], none)
      | Ok None => Ok ([], none)
      end
  | [] => Ok ([], if AllowSANs p then requested [] else none)
  end.
(* @src devicemanagement/pki/ca/ca.go - Local.Sign *)
Definition Sign (l : Local) (depot : option D) (draw : Z → option Z) (sig : nat) (now : Time) (csr : option CertificateRequest) (p : Policy)
  : result ca_err Cert * option D :=
  let signed :=
    keyUsage ← validateCSR csr p;
    match csr with
    | None => Err ErrCSR
    | Some csr =>
        let p := withDefaults p in
        serial ← SerialFrom draw;
        let subject := default (cr_Subject csr) (Subject p) in
        let notAfter := requested_expiry p now in
        _ ← reject ((now <? ct_NotBefore (l_cert l)) || negb (now <? ct_NotAfter (l_cert l))) ErrPolicy;
        let notAfter := if ct_NotAfter (l_cert l) <? notAfter then ct_NotAfter (l_cert l) else notAfter in
        _ ← reject (notAfter <=? now) ErrPolicy;
        let notBefore := now - Backdate p in
        let notBefore := if notBefore <? ct_NotBefore (l_cert l) then ct_NotBefore (l_cert l) else notBefore in
        names ← template_names csr p subject;
        let tmpl := mkTemplate serial subject notBefore notAfter keyUsage (ExtKeyUsage p) true (CRLDistributionPoints p) (OCSPServer p) names.1 names.2 in
        match CreateCertificate sig tmpl (l_cert l) (cr_PublicKey csr) (l_key l) with
        | None => Err (CaFail (bs "sign"))
        | Some der => match ParseCertificate der with None => Err (CaFail (bs "parse issued certificate")) | Some cert => Ok cert end
        end
    end in
  match signed, depot with
  | Err e, d => (Err e, d)
  | Ok cert, None => (Ok cert, None)
  | Ok cert, Some d => match depot_Put d (Some cert) with (Err _, d) => (Err (CaFail (bs "depot")), Some d) | (Ok _, d) => (Ok cert, Some d) end
  end.
End Signer.

(** ** What a certificate is made of *)

Lemma validateCSR_inv csr p usage : validateCSR csr p = Ok usage → ∃ req, csr = Some req ∧ cr_Signed req = true ∧
  (AllowedKeys p ≠ [] → ∃ kind, KindOf (cr_PublicKey req) = Some kind ∧ kind ∈ AllowedKeys p) ∧
  (∀ N E, cr_PublicKey req = RSA N E → MinRSABits (withDefaults p) ≤ BitLen N) ∧
  (AllowSANs p = false → cr_DNSNames req = [] ∧ cr_EmailAddresses req = [] ∧ cr_IPAddresses req = [] ∧ cr_URIs req = []).
Proof.
  destruct csr as [req|]; [|done]. unfold validateCSR. intros H. apply bind_Ok_inv in H as (u & Hs & H). apply reject_Ok_inv, negb_false_iff in Hs.
  apply bind_Ok_inv in H as (ku & Hk & H). apply bind_Ok_inv in H as (u2 & Ha & H). apply bind_Ok_inv in H as (u3 & Hn & _). apply reject_Ok_inv in Ha. apply reject_Ok_inv in Hn.
  exists req. split_and!; [done..| | |].
  - intros Hne. change (AllowedKeys (withDefaults p)) with (AllowedKeys p) in Ha. rewrite bool_decide_true in Ha by done. cbn [andb] in Ha.
    destruct (KindOf _) as [kind|]; [|done]. apply bool_decide_eq_false in Ha. exists kind. split; [done|]. by destruct (decide (kind ∈ AllowedKeys p)).
  - intros N E EN. rewrite EN in Hk. apply bind_Ok_inv in Hk as (? & Hk & _). apply reject_Ok_inv in Hk. by apply Z.ltb_ge in Hk.
  - change (AllowSANs (withDefaults p)) with (AllowSANs p) in Hn. intros Hs'. rewrite Hs' in Hn. cbn in Hn. bool_hyps. by split_and!.
Qed.
Lemma SerialFrom_bounds draw n : (∀ m k, draw m = Some k → 0 ≤ k < m) → SerialFrom draw = Ok n → 0 < n ≤ 2 ^ 127.
Proof. intros Hd. unfold SerialFrom. destruct (draw _) as [k|] eqn:E; [|done]. intros [= <-]. apply Hd in E. change (Z.shiftl 1 127) with (2 ^ 127) in E. lia. Qed.

(** The names of a certificate: what the policy says, and what was asked for if it allows. *)
Definition names_of_policy (req : CertificateRequest) (p : Policy) (tmpl : Template) : Prop :=
  tp_Subject tmpl = default (cr_Subject req) (Subject p) ∧
  (AllowSANs p = false → tp_SANs tmpl = mkSANs [] [] [] [] []) ∧
  (p_OtherNames p = [] → tp_Extra tmpl = []) ∧
  (p_OtherNames p ≠ [] → tp_SANs tmpl = mkSANs [] [] [] [] [] ∧
    ∃ ext, tp_Extra tmpl = [ext] ∧ x_Id ext = oidSubjectAltName ∧ x_Critical ext = Name_empty (tp_Subject tmpl) ∧
      (Forall (λ o, oid_ok (on_ID o)) (p_OtherNames p) → Z.of_nat (length (x_Value ext)) < 2 ^ 31 → ParseOtherNames (Some (tp_Extra tmpl)) = Ok (p_OtherNames p))).
Lemma SANExtension_some s e x : SANExtension s e = Ok x → OtherNames s ≠ [] → ∃ ext, x = Some ext ∧ x_Id ext = oidSubjectAltName ∧ x_Critical ext = e.
Proof.
  unfold SANExtension. destruct (SANs_empty s) eqn:E; [unfold SANs_empty in E; by destruct (OtherNames s)|]. intros H _. go_binds H. eexists. by split_and!.
Qed.
Lemma template_names_ok req p names tmpl : template_names req p (tp_Subject tmpl) = Ok names → tp_Subject tmpl = default (cr_Subject req) (Subject p) →
  tp_Extra tmpl = names.1 → tp_SANs tmpl = names.2 → names_of_policy req p tmpl.
Proof.
  intros H Hsub Hx Hs. unfold template_names in H. cbv zeta in H. split; [done|]. destruct (p_OtherNames p) as [|o others] eqn:Eo.
  - apply Ok_inv in H. subst names. cbn in Hx, Hs. split_and!; [|done|done]. intros E. by rewrite E in Hs.
  - match type of H with context [SANExtension ?x _] => assert (OtherNames x = o :: others) as Hs' by (by destruct (AllowSANs p)); set (s := x) in * end.
    destruct (SANExtension s _) as [x|] eqn:Es; [|done]. destruct (SANExtension_some _ _ _ Es ltac:(by rewrite Hs')) as (ext & -> & Hid & Hc). apply Ok_inv in H. subst names. cbn in Hx, Hs.
    split_and!; [done|done|]. intros _. split; [done|]. exists ext. split_and!; [done..|]. intros Hok Hl. rewrite <-Hs' in Hok. destruct (SAN_parsed _ _ _ Hok Es Hl) as (_ & _ & Hp).
    rewrite Hx. cbn. rewrite bool_decide_true by done. by rewrite Hp, Hs'.
Qed.

Section Guarantee.
Context {crypto : CaCrypto} {D : Type} {depot : Depot D}.

(** C15 Whatever a device asks for, a certificate stays within the policy and the issuer, for a
    policy that does not date certificates ahead ([Backdate] is not negative) and a random
    source that draws within its bound. It is made only for a request that is signed, with a key of an approved kind and size; it is
    valid now and at no time outside the validity of the issuer, the lifetime of the policy
    and its absolute deadline; its serial number is positive and fits twenty bytes; subject
    and otherNames are those of the policy, other alternative names are there only if it
    allows them; and the depot has it before it is returned. *)
Theorem Sign_within (l : Local) (d : option D) draw sig now csr p cert d' :
  (∀ m k, draw m = Some k → 0 ≤ k < m) → 0 ≤ Backdate p → Sign l d draw sig now csr p = (Ok cert, d') →
  ∃ req tmpl der, csr = Some req ∧ CreateCertificate sig tmpl (l_cert l) (cr_PublicKey req) (l_key l) = Some der ∧ ParseCertificate der = Some cert ∧
    cr_Signed req = true ∧
    (AllowedKeys p ≠ [] → ∃ kind, KindOf (cr_PublicKey req) = Some kind ∧ kind ∈ AllowedKeys p) ∧
    (∀ N E, cr_PublicKey req = RSA N E → MinRSABits (withDefaults p) ≤ BitLen N) ∧
    (0 < tp_Serial tmpl ∧ (length (big_Bytes (tp_Serial tmpl)) ≤ 20)%nat) ∧
    ct_NotBefore (l_cert l) ≤ tp_NotBefore tmpl ≤ now ∧ now < tp_NotAfter tmpl ≤ ct_NotAfter (l_cert l) ∧
    tp_NotAfter tmpl ≤ now + Validity (withDefaults p) ∧ (NotAfter p ≠ 0 → tp_NotAfter tmpl ≤ NotAfter p) ∧
    names_of_policy req p tmpl ∧
    match d with None => d' = None | Some d => ∃ d1 u, depot_Put d (Some cert) = (Ok u, d1) ∧ d' = Some d1 end.
Proof.
  intros Hdraw Hback H. unfold Sign in H. match type of H with (match ?x with _ => _ end) = _ => destruct x as [c|] eqn:Es; [|done] end.
  assert (Hd : c = cert ∧ match d with None => d' = None | Some d => ∃ d1 u, depot_Put d (Some cert) = (Ok u, d1) ∧ d' = Some d1 end).
  { destruct d as [d|]; [|by injection H as <- <-]. destruct (depot_Put d (Some c)) as [[u|] d1] eqn:Ed; [|done]. injection H as <- <-. split; [done|]. by exists d1, u. }
  destruct Hd as [-> Hd]. apply bind_Ok_inv in Es as (usage & Hv & Es). destruct (validateCSR_inv _ _ _ Hv) as (req & -> & Hsig & Hkeys & Hrsa & _). cbv zeta in Es.
  apply bind_Ok_inv in Es as (serial & Hser & Es). apply bind_Ok_inv in Es as (u & Hval & Es). apply reject_Ok_inv in Hval. bool_hyps.
  apply bind_Ok_inv in Es as (u1 & Hexp & Es). apply reject_Ok_inv, Z.leb_gt in Hexp. apply bind_Ok_inv in Es as (names & Hnames & Es).
  match type of Es with context [CreateCertificate sig ?t _ _ _] => set (tmpl := t) in Es end. destruct (CreateCertificate sig tmpl _ _ _) as [der|] eqn:Ec; [|done]. destruct (ParseCertificate der) as [c|] eqn:Ep; [|done].
  apply Ok_inv in Es. subst c. exists req, tmpl, der. pose proof (SerialFrom_bounds _ _ Hdraw Hser) as Hs.
  assert (Hnb : Backdate (withDefaults p) = Backdate p ∨ Backdate (withDefaults p) = 300 * second) by (unfold withDefaults; cbn; destruct (_ =? _); tauto).
  assert (Hre : requested_expiry (withDefaults p) now ≤ now + Validity (withDefaults p) ∧ (NotAfter p ≠ 0 → requested_expiry (withDefaults p) now ≤ NotAfter p)).
  { unfold requested_expiry. change (NotAfter (withDefaults p)) with (NotAfter p). destruct (Z.eqb_spec (NotAfter p) 0); cbn [negb andb]; [lia|]. destruct (Z.ltb_spec (NotAfter p) (now + Validity (withDefaults p))); lia. }
  change (tp_NotBefore tmpl) with (if now - Backdate (withDefaults p) <? ct_NotBefore (l_cert l) then ct_NotBefore (l_cert l) else now - Backdate (withDefaults p)).
  change (tp_NotAfter tmpl) with (if ct_NotAfter (l_cert l) <? requested_expiry (withDefaults p) now then ct_NotAfter (l_cert l) else requested_expiry (withDefaults p) now). change (tp_Serial tmpl) with serial.
  split_and!; try done; try lia.
  - apply (big_Bytes_length serial 20); [lia|]. change (serial < 256 ^ 20). lia.
  - destruct (Z.ltb_spec (now - Backdate (withDefaults p)) (ct_NotBefore (l_cert l))); lia.
  - unfold second in Hnb. destruct (Z.ltb_spec (now - Backdate (withDefaults p)) (ct_NotBefore (l_cert l))); lia.
  - destruct (Z.ltb_spec (ct_NotAfter (l_cert l)) (requested_expiry (withDefaults p) now)); lia.
  - destruct (Z.ltb_spec (ct_NotAfter (l_cert l)) (requested_expiry (withDefaults p) now)); lia.
  - destruct (Z.ltb_spec (ct_NotAfter (l_cert l)) (requested_expiry (withDefaults p) now)); lia.
  - apply (template_names_ok req (withDefaults p) names tmpl); done.
Qed.
End Guarantee.

(** ** An issuance *)

#[local] Instance sampleCa : CaCrypto := {|
  MarshalPKIXPublicKey k := match k with ECDSA _ p => p | OtherKey b => Some b | RSA _ _ => None end;
  CreateCertificate sig t issuer key signer := Some [tp_Serial t; tp_NotBefore t; tp_NotAfter t; tp_KeyUsage t];
  ParseCertificate b := match b with [n; nb; na; ku] => Some (mkCert b n false true ku (OtherKey []) nb na) | _ => None end |}.
Definition rootS : Cert := mkCert (bs "root") 1 true true (Z.lor KeyUsageCertSign KeyUsageCRLSign) (OtherKey (bs "k")) 0 (10 ^ 18).
Definition signerS : Local := mkLocal rootS [] (OtherKey (bs "k")).
Definition deviceKey : PublicKey := ECDSA P256 (Some (bs "point")).
Definition requestS : CertificateRequest := mkRequest (bs "csr") (bs "point") (mkName (bs "device") []) deviceKey true [] [] [] [].
Definition policyS : Policy := mkPolicy 0 (5 * 10 ^ 15) 0 0 [] false 0 (Some (mkName (bs "UDID-1") [])) [mkOtherName [1; 3; 6; 1; 5; 5; 7; 8; 3] [48; 0]] [KeyECP256; KeyECP384] [] [].
Example NewLocal_run : NewLocal (Some rootS) (Some (OtherKey (bs "k"))) [] = Ok signerS ∧ NewLocal (Some rootS) (Some (OtherKey (bs "x"))) [] = Err (CaFail (bs "private key")).
Proof. split; vm_compute; reflexivity. Qed.
Example Sign_refuses : (Sign signerS (None : option MemoryDepot) (λ _, Some 41) 0 (10 ^ 15) (Some requestS) (mkPolicy 0 0 0 0 [] false 0 None [] [KeyRSA2048] [] [])).1 = Err ErrPolicy
  ∧ (Sign signerS (None : option MemoryDepot) (λ _, Some 41) 0 (6 * 10 ^ 15) (Some requestS) policyS).1 = Err ErrPolicy.
Proof. split; vm_compute; reflexivity. Qed.
Lemma sample_draw m k : (if bool_decide (41 < m) then Some 41 else None) = Some k → 0 ≤ k < m.
Proof. case_bool_decide; [|done]. intros [= <-]. lia. Qed.
Lemma Sign_within_witness : ∃ tmpl, tp_NotAfter tmpl ≤ 5 * 10 ^ 15 ∧ tp_NotBefore tmpl ≤ 10 ^ 15 ∧ names_of_policy requestS policyS tmpl.
Proof.
  destruct (Sign_within signerS (Some NewMemoryDepot) (λ m, if bool_decide (41 < m) then Some 41 else None) 0 (10 ^ 15) (Some requestS) policyS
              (mkCert [42; 999700000000000; 5000000000000000; 1] 42 false true 1 (OtherKey []) 999700000000000 5000000000000000)
              (Some (mkDepot {[42 := mkCert [42; 999700000000000; 5000000000000000; 1] 42 false true 1 (OtherKey []) 999700000000000 5000000000000000]}))
              sample_draw ltac:(vm_compute; discriminate) ltac:(vm_compute; reflexivity))
    as (req & tmpl & der & Hreq & _ & _ & _ & _ & _ & _ & [_ Hnb] & _ & _ & Hna & Hnames & _).
  injection Hreq as <-. exists tmpl. split; [apply Hna; discriminate|]. split; [exact Hnb|exact Hnames].
Defined.
