(* ===== verification/ScepChallenge.v ===== *)
(** * SCEP challenges: [pki/scep/challenge.go]

    The passwords a device presents in its request: a shared secret, single-use challenges
    kept in memory, and challenges that carry their own expiry under HMAC-SHA256, which is
    computed here. The random source is a draw given to the operation. *)
From S2P Require Import Prelude GoStrings Sha256 Base64 Jose Ca.

(** ** HMAC-SHA256 (crypto/hmac, FIPS 198-1) *)

Definition hmac_sha256 (key msg : bytes) : bytes :=
  let k := if (64 <? length key)%nat then Sum256 key else key in
  let k := k ++ replicate (64 - length k) 0 in
  Sum256 ((Z.lxor 0x5c <$> k) ++ Sum256 ((Z.lxor 0x36 <$> k) ++ msg)).
(** RFC 4231, test case 2. *)
Example hmac_rfc4231 : hex_EncodeToString (hmac_sha256 (bs "Jefe") (bs "what do ya want for nothing?")) =
  bs "5bdcc146bf60754e6a042426089575c75a003f089d2739839dec58b964ec3843".
Proof. vm_compute. reflexivity. Qed.

(** [strings.Cut] at a byte, and [fmt.Sscanf] of one integer: spaces but no line break, a
    sign, digits; what follows is ignored. *)
Definition Cut (sep : Z) (s : bytes) : option (bytes * bytes) :=
  match span (λ c, negb (c =? sep)) s with (before, _ :: after) => Some (before, after) | (_, []) => None end.
Fixpoint skip_space (fuel : nat) (s : bytes) : option bytes :=
  match fuel with
  | O => Some s
  | S fuel => match s with 10 :: _ => None | _ => match strip_first space_encodings s with Some s => skip_space fuel s | None => Some s end end
  end.
Definition Sscanf_d (s : bytes) : option Z :=
  match skip_space (length s) s with
  | None => None
  | Some s =>
      let '(sign, s) := match s with 45 :: s => ([45], s) | 43 :: s => ([43], s) | _ => ([], s) end in
      atoi (sign ++ (span is_digit s).1)
  end.

(** ** Errors *)

(* @src devicemanagement/pki/scep/challenge.go 29-29 ErrChallenge *)
Inductive challenge_err := ErrChallenge.

(* @src devicemanagement/pki/scep/challenge.go - StaticChallenge.Verify *)
Definition Static_Verify (s password : bytes) : result challenge_err unit :=
  reject (bool_decide (s = []) || bool_decide (s ≠ password)) ErrChallenge.
(* @src devicemanagement/pki/scep/challenge.go - RenewalOnly.Verify *)
Definition RenewalOnly_Verify (password : bytes) (csr : option CertificateRequest) : result challenge_err unit := Err ErrChallenge.

(** ** Single-use challenges *)

(* @src devicemanagement/pki/scep/challenge.go - OneTimeChallenges *)
Record OneTimeChallenges := mkOneTime { ttl : Z; live : gmap bytes Time }.
(* @src devicemanagement/pki/scep/challenge.go - NewOneTimeChallenges *)
Definition NewOneTimeChallenges (ttl : Z) : OneTimeChallenges := mkOneTime (if ttl <=? 0 then 3600 * second else ttl) ∅.
(* @src devicemanagement/pki/scep/challenge.go - OneTimeChallenges.Issue *)
Definition OneTime_Issue (o : OneTimeChallenges) (draw : bytes) (now : Time) : bytes * OneTimeChallenges :=
  let c := b64_encode draw in
  (c, mkOneTime (ttl o) (<[c := now + ttl o]> (filter (λ '(_, exp), ¬ exp < now) (live o)))).
(* @src devicemanagement/pki/scep/challenge.go - OneTimeChallenges.Verify *)
Definition OneTime_Verify (o : OneTimeChallenges) (password : bytes) (now : Time) : result challenge_err unit * OneTimeChallenges :=
  match live o !! password with
  | None => (Err ErrChallenge, o)
  | Some exp => (reject (exp <? now) ErrChallenge, mkOneTime (ttl o) (delete password (live o)))
  end.
(* @src devicemanagement/pki/scep/challenge.go - OneTimeChallenges.Live *)
Definition OneTime_Live (o : OneTimeChallenges) : nat := size (live o).

(** ** Challenges under a message authentication code *)

(* @src devicemanagement/pki/scep/challenge.go - HMACChallenge *)
Record HMACChallenge := mkHMAC { h_key : bytes; h_ttl : Z }.
(* @src devicemanagement/pki/scep/challenge.go - NewHMACChallenge *)
Definition NewHMACChallenge (key : bytes) (ttl : Z) : option HMACChallenge :=
  if (length key <? 16)%nat then None else Some (mkHMAC key (if ttl <=? 0 then 3600 * second else ttl)).
(** [time.Time.Unix]. *)
Definition Unix (t : Time) : Z := t / second.
(* @src devicemanagement/pki/scep/challenge.go - HMACChallenge.mac *)
Definition HMAC_mac (h : HMACChallenge) (exp : Z) (cn : bytes) : bytes := hmac_sha256 (h_key h) (put_be 8 (exp mod 2 ^ 64) ++ cn).
(* @src devicemanagement/pki/scep/challenge.go - HMACChallenge.Issue *)
Definition HMAC_Issue (h : HMACChallenge) (now : Time) (commonName : bytes) : bytes :=
  let exp := Unix (now + h_ttl h) in
  itoa exp ++ [46] ++ b64_encode (HMAC_mac h exp commonName).
(* @src devicemanagement/pki/scep/challenge.go - HMACChallenge.Verify *)
Definition HMAC_Verify (h : HMACChallenge) (now : Time) (password : bytes) (csr : option CertificateRequest) : result challenge_err unit :=
  match Cut 46 password, csr with
  | Some (expStr, macStr), Some csr =>
      match Sscanf_d expStr, b64_decode macStr with
      | Some exp, Some got =>
          _ ← reject (bool_decide (got ≠ HMAC_mac h exp (CommonName (cr_Subject csr)))) ErrChallenge;
          reject (exp <? Unix now) ErrChallenge
      | _, _ => Err ErrChallenge
      end
  | _, _ => Err ErrChallenge
  end.

(** ** What the verifiers accept *)

(** A history of the single-use challenges: what was issued and what was presented. *)
Inductive event := Issued (draw : bytes) (now : Time) | Presented (password : bytes) (now : Time).
Definition one_step (o : OneTimeChallenges) (e : event) : OneTimeChallenges :=
  match e with Issued draw now => (OneTime_Issue o draw now).2 | Presented password now => (OneTime_Verify o password now).2 end.
Definition after (ttl : Z) (history : list event) : OneTimeChallenges := foldl one_step (NewOneTimeChallenges ttl) history.
Definition concerns (password : bytes) (e : event) : Prop :=
  match e with Issued draw _ => b64_encode draw = password | Presented p _ => p = password end.
(** No later event takes the challenge that expires at [exp] away: none is about it, and at
    no issue has the clock passed its expiry. *)
Definition untouched (password : bytes) (exp : Time) (e : event) : Prop :=
  ¬ concerns password e ∧ match e with Issued _ now => now ≤ exp | Presented _ _ => True end.

Lemma ttl_after t history : ttl (after t history) = ttl (NewOneTimeChallenges t).
Proof.
  unfold after. induction history as [|e history IH] using rev_ind; [done|]. rewrite foldl_app. cbn [foldl]. destruct e as [d now|p now]; cbn; [exact IH|].
  unfold OneTime_Verify. destruct (live _ !! p); [exact IH|exact IH].
Qed.
Lemma after_snoc t history e : after t (history ++ [e]) = one_step (after t history) e.
Proof. unfold after. by rewrite foldl_app. Qed.
Lemma live_after t password exp history : live (after t history) !! password = Some exp ↔
  ∃ before draw now later, history = before ++ Issued draw now :: later ∧ b64_encode draw = password ∧ exp = now + ttl (NewOneTimeChallenges t) ∧ Forall (untouched password exp) later.
Proof.
  induction history as [|e history IH] using rev_ind.
  { cbn. split; [done|]. intros (b & d & n & l & E & _). by destruct b. }
  rewrite after_snoc. pose proof (ttl_after t history) as Ht.
  assert (Hold : untouched password exp e → (∃ before draw now later, history = before ++ Issued draw now :: later ∧ b64_encode draw = password ∧ exp = now + ttl (NewOneTimeChallenges t) ∧ Forall (untouched password exp) later) →
    ∃ before draw now later, history ++ [e] = before ++ Issued draw now :: later ∧ b64_encode draw = password ∧ exp = now + ttl (NewOneTimeChallenges t) ∧ Forall (untouched password exp) later).
  { intros He (b & d & n & l & -> & Hd & Hx & Hl). exists b, d, n, (l ++ [e]). rewrite <-app_assoc. split_and!; try done. apply Forall_app. split; [done|]. by apply Forall_singleton. }
  assert (Hnew : (∃ before draw now later, history ++ [e] = before ++ Issued draw now :: later ∧ b64_encode draw = password ∧ exp = now + ttl (NewOneTimeChallenges t) ∧ Forall (untouched password exp) later) →
    (∃ draw now, e = Issued draw now ∧ b64_encode draw = password ∧ exp = now + ttl (NewOneTimeChallenges t)) ∨
    (untouched password exp e ∧ ∃ before draw now later, history = before ++ Issued draw now :: later ∧ b64_encode draw = password ∧ exp = now + ttl (NewOneTimeChallenges t) ∧ Forall (untouched password exp) later)).
  { intros (b & d & n & l & E & Hd & Hx & Hl). destruct l as [|y l _] using rev_ind.
    - apply app_inj_tail in E as [_ ->]. left. by exists d, n.
    - apply Forall_app in Hl as [Hl [Hy _]%Forall_cons]. rewrite app_comm_cons, app_assoc in E. apply app_inj_tail in E as [-> ->]. right. split; [done|]. by exists b, d, n, l. }
  destruct e as [d now|p now]; cbn [one_step].
  - cbn [OneTime_Issue snd live]. rewrite Ht. destruct (decide (b64_encode d = password)) as [Hd|Hd].
    + rewrite Hd, lookup_insert_eq. split.
      * intros [= <-]. exists history, d, now, []. by split_and!.
      * intros [(d' & n' & [= <- <-] & _ & ->)|[[Hu _] _]]%Hnew; [done|]. by destruct Hu.
    + rewrite lookup_insert_ne by done. rewrite map_lookup_filter_Some. rewrite IH. split.
      * intros [Hh Hle]. apply Hold; [|done]. split; [done|]. lia.
      * intros [(d' & n' & [= <- <-] & Hd' & _)|[[_ Hu] Hh]]%Hnew; [done|]. split; [done|]. cbn in Hu. lia.
  - unfold OneTime_Verify. destruct (decide (p = password)) as [->|Hp].
    + split.
      * destruct (live _ !! password) eqn:E; cbn [snd live]; [by rewrite lookup_delete_eq|by rewrite E].
      * intros [(d' & n' & [=] & _)|[[Hu _] _]]%Hnew. by destruct Hu.
    + assert (live (match live (after t history) !! p with Some exp => (reject (exp <? now) ErrChallenge, mkOneTime (ttl (after t history)) (delete p (live (after t history))))
                    | None => (Err ErrChallenge, after t history) end).2 !! password = live (after t history) !! password) as ->.
      { destruct (live _ !! p); cbn [snd live]; [by rewrite lookup_delete_ne|done]. }
      rewrite IH. split; [by apply Hold|]. intros [(d' & n' & [=] & _)|[_ Hh]]%Hnew. done.
Qed.

(** C16 A challenge lets in one request. After any history of issues and presentations a
    password is accepted exactly when it was issued, its lifetime is not over, and since then
    it was neither presented nor swept; so a challenge that was presented once, with whatever
    outcome, is never accepted again. *)
Theorem one_time_exact t history password now :
  (OneTime_Verify (after t history) password now).1 = Ok tt ↔
  ∃ before draw issued later, history = before ++ Issued draw issued :: later ∧ b64_encode draw = password ∧
    now ≤ issued + ttl (NewOneTimeChallenges t) ∧ Forall (untouched password (issued + ttl (NewOneTimeChallenges t))) later.
Proof.
  unfold OneTime_Verify. split.
  - destruct (live _ !! password) as [exp|] eqn:E; [|done]. cbn. intros H. apply reject_Ok_inv, Z.ltb_ge in H. apply live_after in E as (b & d & n & l & -> & Hd & -> & Hl). exists b, d, n, l. by split_and!.
  - intros (b & d & n & l & Eh & Hd & Hle & Hl). assert (live (after t history) !! password = Some (n + ttl (NewOneTimeChallenges t))) as ->; [|].
    { apply live_after. by exists b, d, n, l. }
    cbn. by rewrite (proj2 (Z.ltb_ge _ _)).
Qed.

Lemma Cut_app sep a b : Forall (λ c, c ≠ sep) a → Cut sep (a ++ sep :: b) = Some (a, b).
Proof.
  intros H. unfold Cut. rewrite span_stop; [done| |cbn; by rewrite Z.eqb_refl].
  apply forallb_forall. intros x Hx%list_elem_of_In. rewrite Forall_forall in H. by apply negb_true_iff, Z.eqb_neq, H.
Qed.
Lemma Sscanf_itoa n : 0 ≤ n ≤ max_int64 → Sscanf_d (itoa n) = Some n.
Proof.
  intros Hn. destruct (itoa_spec n ltac:(lia)) as (Hne & Hd & _). pose proof (atoi_itoa n Hn) as Ha. unfold Sscanf_d.
  assert (Hs : span is_digit (itoa n) = (itoa n, [])) by (rewrite <-(app_nil_r (itoa n)) at 1; by apply span_stop).
  destruct (itoa n) as [|c s] eqn:E; [done|]. assert (48 ≤ c ≤ 57) as Hc by (apply all_digits_Forall, Forall_cons in Hd as [Hc _]; done).
  assert (c = 48 ∨ c = 49 ∨ c = 50 ∨ c = 51 ∨ c = 52 ∨ c = 53 ∨ c = 54 ∨ c = 55 ∨ c = 56 ∨ c = 57) as Hcs by lia. clear E Hne Hd Hc.
  assert (skip_space (length (c :: s)) (c :: s) = Some (c :: s)) as -> by (by destruct_or! Hcs; subst c).
  assert ((match c :: s with 45 :: s => ([45], s) | 43 :: s => ([43], s) | _ => ([], c :: s) end) = ([] : bytes, c :: s)) as -> by (by destruct_or! Hcs; subst c).
  by rewrite Hs.
Qed.
Lemma HMAC_mac_bytes h e cn : Forall is_byte (HMAC_mac h e cn).
Proof. apply Sum256_spec. Qed.

(** A challenge is bound to a subject and to its lifetime: the one issued for a common name
    is accepted for a request exactly when the codes of the two names agree and the expiry it
    carries is not past. In particular it is accepted for its own name until then. *)
Theorem hmac_challenge_exact h issued now cn csr :
  0 ≤ Unix (issued + h_ttl h) ≤ max_int64 →
  HMAC_Verify h now (HMAC_Issue h issued cn) (Some csr) = Ok tt ↔
  HMAC_mac h (Unix (issued + h_ttl h)) (CommonName (cr_Subject csr)) = HMAC_mac h (Unix (issued + h_ttl h)) cn ∧ Unix now ≤ Unix (issued + h_ttl h).
Proof.
  intros He. unfold HMAC_Verify, HMAC_Issue. set (exp := Unix (issued + h_ttl h)) in *. destruct (itoa_spec exp ltac:(lia)) as (_ & Hd & _). cbn [app].
  rewrite Cut_app by (apply all_digits_Forall in Hd; eapply Forall_impl; [exact Hd|]; cbn; lia).
  rewrite Sscanf_itoa, b64_decode_encode by (done || apply HMAC_mac_bytes). split.
  - intros H. go_binds H. apply reject_Ok_inv, Z.ltb_ge in H. bool_hyps. done.
  - intros [-> Hle]. rewrite bool_decide_false by (intros E; by apply E). cbn. by rewrite (proj2 (Z.ltb_ge _ _)).
Qed.
