(* ===== verification/ScepGrants.v ===== *)
(** * SCEP grants and the certificate receipts: [pki/scep/grants.go]

    A grant authorizes one certificate request, by a password drawn at random; it is reserved
    for the first request that presents the password, and the certificate issued for the two
    is kept and returned again. Both are records of the transactional store; the verification
    of a grant reads it in one step and reserves it in another, so what others do to the store
    in between is an argument, [others]. *)
From S2P Require Import Prelude GoStrings Sha256 Base64 StateStore StateClient Jose Ca.

(* @src devicemanagement/pki/scep/grants.go - Grant *)
Record Grant := mkGrant { g_Binding : bytes; g_Admission : bytes; g_ExpiresAt : Time; g_CSRHash : bytes }.
#[export] Instance Grant_eta : Eta Grant := λ g, mkGrant (g_Binding g) (g_Admission g) (g_ExpiresAt g) (g_CSRHash g).

(** [encoding/json] on a grant. The two raw messages are written in compact form, so what is
    read back is the grant in that form; a message that is no JSON text is refused. *)
Class GrantCodec := {
  compact : bytes → bytes;
  grant_Marshal : Grant → option bytes;
  grant_Unmarshal : bytes → option Grant;
  compact_compact : ∀ b, compact (compact b) = compact b;
  grant_law : ∀ g b, grant_Marshal g = Some b → grant_Unmarshal b = Some (mkGrant (compact (g_Binding g)) (compact (g_Admission g)) (g_ExpiresAt g) (g_CSRHash g)) }.

Definition ErrChallenge : terr := TFail (bs "scep: challenge rejected").
(* @src devicemanagement/pki/scep/scep.go 29-29 ErrIssue *)
Definition ErrIssue : terr := TFail (bs "scep: issuance failed").
(** An error of the certificate authority, as an error of this package. *)
Definition of_ca {A} (r : result ca_err A) : result terr A :=
  match r with
  | Ok a => Ok a
  | Err ErrCSR => Err (TFail (bs "ca: invalid certificate signing request"))
  | Err ErrPolicy => Err (TFail (bs "ca: request violates policy"))
  | Err ErrNotFound => Err (TFail (bs "ca: certificate not found"))
  | Err (CaFail w) => Err (TFail w)
  end.
Definition hour : Z := 3600 * second.

(* @src devicemanagement/pki/scep/grants.go - grantHash *)
Definition grantHash (b : bytes) : bytes := hex_EncodeToString (Sum256 b).
(* @src devicemanagement/pki/scep/grants.go - grantKey *)
Definition grantKey (password : bytes) : bytes := bs "scep/grant/" ++ grantHash password.
Definition receiptKey (password raw : bytes) : bytes := bs "scep/certificate/" ++ grantHash password ++ bs "/" ++ grantHash raw.

Section Grants.
Context {codec : GrantCodec} {crypto : CaCrypto}.

(** The configuration: [Authorize] is nil, or what it answers at the moment of the call. *)
(* @src devicemanagement/pki/scep/grants.go 37-41 Grants *)
Record Grants := mkGrants { gs_Store : bool; gs_Policy : Policy; gs_Authorize : option (Grant → CertificateRequest → result terr unit) }.
(* @src devicemanagement/pki/scep/grants.go - Grants.configured *)
Definition configured (g : Grants) : result terr unit := reject (negb (gs_Store g) || match gs_Authorize g with None => true | _ => false end) ErrChallenge.

Definition put_grant (k : bytes) (g : Grant) (expires : Time) : txm unit :=
  raw ← t_lift match grant_Marshal g with Some raw => Ok raw | None => Err ErrEncode end;
  t_put (mkRec k raw expires).
Definition get_grant (r : Rec) : result terr Grant := match grant_Unmarshal (Value r) with Some g => Ok g | None => Err ErrDecode end.

(* @src devicemanagement/pki/scep/grants.go 73-85 Grants.Issue *)
Definition issue_grant_tx (k : bytes) (grant : Grant) : txm unit :=
  now ← t_now;
  _ ← t_lift (reject (negb (now <? g_ExpiresAt grant)) ErrChallenge);
  let limit := now + hour in
  let grant := if limit <? g_ExpiresAt grant then grant <| g_ExpiresAt := limit |> else grant in
  put_grant k grant (g_ExpiresAt grant).
(* @src devicemanagement/pki/scep/grants.go - Grants.Issue *)
Definition Grants_Issue {St} `{!TxStore St} (cancelled : nat → bool) (clock : Time) (draw : bytes) (g : Grants) (grant : Grant) (s : St) : result terr bytes * St :=
  match configured g with
  | Err e => (Err e, s)
  | Ok _ =>
      if bool_decide (g_CSRHash grant ≠ []) || time_is_zero (g_ExpiresAt grant) then (Err ErrChallenge, s)
      else
        let password := b64_encode draw in
        let k := grantKey password in
        match store_update cancelled clock [k] (Some (issue_grant_tx k grant)) s with
        | (Err e, s) => (Err e, s)
        | (Ok _, s) => (Ok password, s)
        end
  end.

(* @src devicemanagement/pki/scep/grants.go 120-148 Grants.Verify *)
Definition reserve_tx (k : bytes) (authorized : Grant) (raw : bytes) : txm unit :=
  r ← t_find k;
  match r with
  | None => t_lift (Err ErrChallenge)
  | Some r =>
      current ← t_lift (get_grant r);
      now ← t_now;
      _ ← t_lift (reject (negb (now <? g_ExpiresAt current) || bool_decide (g_ExpiresAt current ≠ g_ExpiresAt authorized)
                          || bool_decide (g_Binding current ≠ g_Binding authorized) || bool_decide (g_Admission current ≠ g_Admission authorized)) ErrChallenge);
      let hash := grantHash raw in
      _ ← t_lift (reject (bool_decide (g_CSRHash current ≠ []) && bool_decide (g_CSRHash current ≠ hash)) ErrChallenge);
      put_grant (Key r) (current <| g_CSRHash := hash |>) (ExpiresAt r)
  end.
(** What comes before the reservation: the request, the password and the grant it names. *)
(* @src devicemanagement/pki/scep/grants.go 96-119 Grants.Verify *)
Definition authorized_grant {St} `{!TxStore St} (cancelled : nat → bool) (g : Grants) (password : bytes) (csr : option CertificateRequest) (s : St)
  : result terr (CertificateRequest * Grant) :=
  _ ← configured g;
  _ ← reject (bool_decide (password = [])) ErrChallenge;
  _ ← of_ca (ValidateCSR csr (gs_Policy g));
  r ← match store_get cancelled (grantKey password) s with Err TNotFound => Err ErrChallenge | x => x end;
  authorized ← get_grant r;
  match csr, gs_Authorize g with
  | Some csr, Some authorize => _ ← authorize authorized csr; Ok (csr, authorized)
  | _, _ => Err ErrChallenge
  end.
(* @src devicemanagement/pki/scep/grants.go - Grants.Verify *)
Definition Grants_Verify {St} `{!TxStore St} (cancelled cancelled' : nat → bool) (clock : Time) (others : St → St) (g : Grants) (password : bytes) (csr : option CertificateRequest)
  (s : St) : result terr unit * St :=
  match authorized_grant cancelled g password csr s with
  | Err e => (Err e, s)
  | Ok (csr, authorized) => let k := grantKey password in store_update cancelled' clock [k] (Some (reserve_tx k authorized (cr_Raw csr))) (others s)
  end.

(** ** Receipts *)

(** The signer and the callbacks, as they answer at the moment of the call; [Authorize] may
    use the store, and leaves it as the transaction of the receipt finds it. *)
(* @src devicemanagement/pki/scep/grants.go 165-170 CertificateIssuer *)
Record CertificateIssuer (St : Type) := mkIssuer {
  ci_Signer : CertificateRequest → Policy → result ca_err (option Cert);
  ci_Authorize : bytes → option CertificateRequest → St → result terr unit * St;
  ci_Register : Cert → result terr unit }.
Arguments mkIssuer {St} _ _ _.
Arguments ci_Signer {St} _.
Arguments ci_Authorize {St} _.
Arguments ci_Register {St} _.

(* @src devicemanagement/pki/scep/grants.go 195-217 CertificateIssuer.Issue *)
Definition issue_cert_tx (k : bytes) (sign : result ca_err (option Cert)) (csr : CertificateRequest) : txm Cert :=
  r ← t_find k;
  cert ← t_lift match r with
    | Some r => match ParseCertificate (Value r) with Some c => Ok (Some c) | None => Err (TFail (bs "x509: parse")) end
    | None => of_ca sign
    end;
  now ← t_now;
  match cert with
  | None => t_lift (Err ErrIssue)
  | Some cert =>
      _ ← t_lift (reject (ct_IsCA cert || (now <? ct_NotBefore cert) || negb (now <? ct_NotAfter cert)) ErrIssue);
      _ ← t_lift (reject (bool_decide (MarshalPKIXPublicKey (ct_PublicKey cert) ≠ Some (cr_SPKI csr))) ErrIssue);
      _ ← t_put (mkRec k (ct_Raw cert) (ct_NotAfter cert));
      mret cert
  end.
(** The fields are all set. *)
(* @src devicemanagement/pki/scep/grants.go - CertificateIssuer.Issue *)
Definition Issuer_Issue {St} `{!TxStore St} (cancelled : nat → bool) (clock : Time) (i : CertificateIssuer St) (password : bytes) (csr : option CertificateRequest) (policy : Policy)
  (s : St) : result terr Cert * St :=
  match csr with
  | None => (Err (if bool_decide (password = []) then ErrIssue else TFail (bs "ca: invalid certificate signing request")), s)
  | Some req =>
      if bool_decide (password = []) then (Err ErrIssue, s)
      else match of_ca (ValidateCSR csr policy) with
      | Err e => (Err e, s)
      | Ok _ =>
          match ci_Authorize i password csr s with
          | (Err e, s) => (Err e, s)
          | (Ok _, s) =>
              let k := receiptKey password (cr_Raw req) in
              match store_update cancelled clock [k] (Some (issue_cert_tx k (ci_Signer i req policy) req)) s with
              | (Err e, s) => (Err e, s)
              | (Ok cert, s) => match ci_Register i cert with Err e => (Err e, s) | Ok _ => (Ok cert, s) end
              end
          end
      end
  end.
End Grants.
#[global] Arguments mkIssuer {St} _ _ _.
#[global] Arguments ci_Signer {St} _.
#[global] Arguments ci_Authorize {St} _.
#[global] Arguments ci_Register {St} _.
