(* ===== verification/ScepSafety.v ===== *)
(** * What the SCEP grants guarantee

    The store is shared: replicas and other users of it may act between any two steps. A
    history is any sequence of transactions of this component, changes of the records of
    others and prunings up to some time ([gstep]). In every history a grant is worth one
    certificate request, within its hour, and one certificate. *)
From S2P Require Import Prelude GoStrings StateStore Sha256 Base64 Jose StateClient Ca ScepGrants.

Lemma grantHash_length b : length (grantHash b) = 64%nat.
Proof. unfold grantHash. destruct (Sum256_spec b) as [Hl Hb]. destruct (hex_spec _ Hb) as [_ ->]. by rewrite Hl. Qed.
Lemma grantHash_nonempty b : grantHash b ≠ [].
Proof. intros E. pose proof (grantHash_length b) as H. by rewrite E in H. Qed.
Definition scep_key (k : bytes) : bool := has_prefix k (bs "scep/grant/") || has_prefix k (bs "scep/certificate/").
Lemma scep_grantKey p : scep_key (grantKey p) = true.
Proof. unfold scep_key, grantKey. by rewrite has_prefix_app. Qed.
Lemma scep_receiptKey p raw : scep_key (receiptKey p raw) = true.
Proof. unfold scep_key, receiptKey. by rewrite has_prefix_app, orb_true_r. Qed.
Lemma grant_ne_receipt p q raw : grantKey p ≠ receiptKey q raw.
Proof. unfold grantKey, receiptKey. by cbn. Qed.

Section Safety.
Context {codec : GrantCodec} {crypto : CaCrypto}.
(** A parsed certificate keeps the text it was parsed from. *)
Context (raw_law : ∀ b c, ParseCertificate b = Some c → ct_Raw c = b).

(** What can happen to the store, as far as the password [pw] is concerned: no other issue
    draws it, and records are pruned up to [horizon] only. A signer returns certificates that
    parse. *)
Inductive gstep (pw : bytes) (horizon : Time) (m : gmap bytes Rec) : gmap bytes Rec → Prop :=
| g_issue cancelled clock keys password grant :
    grantKey password ≠ grantKey pw → gstep pw horizon m (spec_update cancelled clock keys (Some (issue_grant_tx (grantKey password) grant)) m).2
| g_reserve cancelled clock keys password authorized raw :
    gstep pw horizon m (spec_update cancelled clock keys (Some (reserve_tx (grantKey password) authorized raw)) m).2
| g_receipt cancelled clock keys password csr sign :
    (∀ c, sign = Ok (Some c) → ParseCertificate (ct_Raw c) = Some c) →
    gstep pw horizon m (spec_update cancelled clock keys (Some (issue_cert_tx (receiptKey password (cr_Raw csr)) sign csr)) m).2
| g_other m' : keys_ok m' → (∀ k, scep_key k = true → m' !! k = m !! k) → gstep pw horizon m m'
| g_prune clock m' : clock ≤ horizon → m' ⊆ m → (∀ k row, m !! k = Some row → m' !! k = None → expired clock row = true) → gstep pw horizon m m'.

(** ** What a transaction did *)

Lemma put_grant_inv cancelled clock k g e u s s' : spec_exec cancelled clock (put_grant k g e) s = (Ok u, s') →
  ∃ b, grant_Marshal g = Some b ∧ smap s' = <[k := mkRec k b e]> (smap s) ∧ ValidKey k = true.
Proof. unfold put_grant. intros H. tx_inv H. subst. destruct (grant_Marshal g) as [b|]; [|done]. injection Hx as <-. eauto. Qed.

Lemma issue_grant_inv cancelled clock keys k grant u m m' : spec_update cancelled clock keys (Some (issue_grant_tx k grant)) m = (Ok u, m') →
  ∃ e b, clock < e ∧ e = Z.min (g_ExpiresAt grant) (clock + hour) ∧ grant_Marshal (grant <| g_ExpiresAt := e |>) = Some b ∧ m' = <[k := mkRec k b e]> m ∧ ValidKey k = true.
Proof.
  intros (s & H & <-)%spec_update_Ok. unfold issue_grant_tx in H. apply exec_bind in H as (t & s1 & Ht & H). tx_inv Ht. subst t s1.
  apply exec_bind in H as (u1 & s2 & Hr & H). tx_inv Hr. subst s2. apply reject_Ok_inv, negb_false_iff, Z.ltb_lt in Hr. apply put_grant_inv in H as (b & Hb & Hs & Hv).
  destruct (Z.ltb_spec (clock + hour) (g_ExpiresAt grant)) as [Hl|Hl].
  - exists (clock + hour), b. assert (0 < hour) by done. change (g_ExpiresAt (grant <| g_ExpiresAt := clock + hour |>)) with (clock + hour) in Hs. split_and!; try done; lia.
  - exists (g_ExpiresAt grant), b. split_and!; try done; [lia|]. by destruct grant.
Qed.
Lemma reserve_inv cancelled clock keys k authorized raw u m m' : keys_ok m → spec_update cancelled clock keys (Some (reserve_tx k authorized raw)) m = (Ok u, m') →
  ∃ row cur b, m !! k = Some row ∧ grant_Unmarshal (Value row) = Some cur ∧ clock < g_ExpiresAt cur ∧ g_ExpiresAt cur = g_ExpiresAt authorized ∧
    g_Binding cur = g_Binding authorized ∧ g_Admission cur = g_Admission authorized ∧ (g_CSRHash cur = [] ∨ g_CSRHash cur = grantHash raw) ∧
    grant_Marshal (cur <| g_CSRHash := grantHash raw |>) = Some b ∧ m' = <[k := mkRec k b (ExpiresAt row)]> m ∧ ValidKey k = true.
Proof.
  intros Hk (s & H & <-)%spec_update_Ok. unfold reserve_tx in H. apply exec_bind in H as (x & s1 & Hx & H). tx_inv Hx. destruct x as [row|]; [|by tx_inv H]. cbn [smap] in Hx.
  apply exec_bind in H as (cur & s2 & Hg & H). tx_inv Hg. unfold get_grant in Hg. destruct (grant_Unmarshal (Value row)) as [g|] eqn:Eg; [|done]. injection Hg as ->.
  apply exec_bind in H as (t & s3 & Ht & H). tx_inv Ht. apply exec_bind in H as (u1 & s4 & Hr & H). tx_inv Hr. apply reject_Ok_inv in Hr. bool_hyps.
  apply exec_bind in H as (u2 & s5 & Hr & H). tx_inv Hr. apply reject_Ok_inv in Hr. apply put_grant_inv in H as (b & Hb & Hs & Hv). destruct (Hk _ _ Hx) as [Hkey _]. rewrite Hkey in Hs, Hv. clear Hkey.
  exists row, cur, b. subst. split_and!; try done.
  - apply andb_false_iff in Hr as [Hr|Hr]; bool_hyps; tauto.
  - rewrite Hs. by f_equal.
Qed.
Lemma issue_cert_inv cancelled clock keys k sign csr c m m' : spec_update cancelled clock keys (Some (issue_cert_tx k sign csr)) m = (Ok c, m') →
  match m !! k with Some row => ParseCertificate (Value row) = Some c | None => sign = Ok (Some c) end ∧
  ct_IsCA c = false ∧ ct_NotBefore c ≤ clock < ct_NotAfter c ∧ MarshalPKIXPublicKey (ct_PublicKey c) = Some (cr_SPKI csr) ∧
  m' = <[k := mkRec k (ct_Raw c) (ct_NotAfter c)]> m ∧ ValidKey k = true.
Proof.
  intros (s & H & <-)%spec_update_Ok. unfold issue_cert_tx in H. apply exec_bind in H as (x & s1 & Hx & H). tx_inv Hx. cbn [smap] in Hx.
  apply exec_bind in H as (cert & s2 & Hc & H). tx_inv Hc. apply exec_bind in H as (t & s3 & Ht & H). tx_inv Ht. destruct cert as [cert|]; [|by tx_inv H].
  apply exec_bind in H as (u1 & s4 & Hr & H). tx_inv Hr. apply reject_Ok_inv in Hr. apply exec_bind in H as (u2 & s5 & Hk & H). tx_inv Hk. apply reject_Ok_inv in Hk.
  apply exec_bind in H as (u3 & s6 & Hp & H). tx_inv Hp. tx_inv H. bool_hyps. subst. split_and!; try done.
  - destruct (m !! k) as [row|].
    + destruct (ParseCertificate (Value row)) as [c'|]; [|done]. by injection Hc as ->.
    + destruct sign as [c'|[]]; try done. by injection Hc as ->.
  - rewrite Hp. by f_equal.
Qed.

(** ** The records of one password *)

(** The grant as it is read back, reserved for the request with hash [h] unless that is
    empty. *)
Definition grant_at (m : gmap bytes Rec) (pw : bytes) (b a : bytes) (e : Time) (h : bytes) : Prop :=
  ∃ row, m !! grantKey pw = Some row ∧ grant_Unmarshal (Value row) = Some (mkGrant (compact b) (compact a) e h).
Definition cert_at (m : gmap bytes Rec) (k : bytes) (c : Cert) : Prop :=
  ∃ row, m !! k = Some row ∧ ParseCertificate (Value row) = Some c ∧ ExpiresAt row = ct_NotAfter c.

(** What a history keeps: a grant that is gone stays gone, one that is there keeps its terms
    and its reservation, and a receipt stays until its certificate expires. *)
Record kept (pw : bytes) (horizon : Time) (m m' : gmap bytes Rec) : Prop := {
  kept_keys : keys_ok m → keys_ok m';
  kept_gone : m !! grantKey pw = None → m' !! grantKey pw = None;
  kept_grant : ∀ b a e h, keys_ok m → grant_at m pw b a e h → m' !! grantKey pw = None ∨ ∃ h', grant_at m' pw b a e h' ∧ (h ≠ [] → h' = h);
  kept_cert : ∀ p raw c, cert_at m (receiptKey p raw) c → horizon < ct_NotAfter c → ct_NotAfter c ≠ 0 → cert_at m' (receiptKey p raw) c }.

Lemma kept_refl pw hz m : kept pw hz m m.
Proof. split; try done. intros b a e h _ H. right. eauto. Qed.
(** A record with another key was written. *)
Lemma kept_insert pw hz m k b e : ValidKey k = true → k ≠ grantKey pw → (∀ p raw c, k = receiptKey p raw → cert_at m k c → cert_at (<[k := mkRec k b e]> m) k c) →
  kept pw hz m (<[k := mkRec k b e]> m).
Proof.
  intros Hv Hne Hc. split.
  - intros Hk. by apply keys_ok_insert.
  - by rewrite lookup_insert_ne.
  - intros b0 a e0 h _ (row & Hrow & Hg). right. exists h. split; [|done]. exists row. by rewrite lookup_insert_ne.
  - intros p raw c Hat _ _. destruct (decide (k = receiptKey p raw)) as [E|E]; [|destruct Hat as (row & Hrow & Hx); exists row; by rewrite lookup_insert_ne].
    rewrite <-E in Hat |- *. by eapply Hc.
Qed.
Lemma kept_agree pw hz m m' : keys_ok m' → (∀ k, scep_key k = true → m' !! k = m !! k) → kept pw hz m m'.
Proof.
  intros Hk Hs. split; [done|..].
  - by rewrite Hs by apply scep_grantKey.
  - intros b a e h _ (row & Hrow & Hg). right. exists h. split; [|done]. exists row. by rewrite Hs by apply scep_grantKey.
  - intros p raw c (row & Hrow & Hx) _ _. exists row. by rewrite Hs by apply scep_receiptKey.
Qed.

Lemma gstep_kept pw hz m m' : keys_ok m → gstep pw hz m m' → kept pw hz m m'.
Proof.
  intros Hk H. destruct H as [c t keys p grant Hne|c t keys p authorized raw|c t keys p csr sign Hlaw|m' Hk' Hs|clock m' Hle Hsub Hex].
  - destruct (spec_update _ _ _ _ _) as [[u|e] m'] eqn:E; [|apply spec_update_Err in E as ->; apply kept_refl]. cbn [snd]. apply issue_grant_inv in E as (e & b & _ & _ & _ & -> & Hv).
    apply kept_insert; [done..|]. intros q raw x Ek. by apply grant_ne_receipt in Ek.
  - destruct (spec_update _ _ _ _ _) as [[u|e] m'] eqn:E; [|apply spec_update_Err in E as ->; apply kept_refl]. cbn [snd]. apply reserve_inv in E as (row & cur & b & Hrow & Hcur & _ & _ & _ & _ & Hh & Hb & -> & Hv); [|done].
    destruct (decide (grantKey p = grantKey pw)) as [Ep|Ep]; [|apply kept_insert; [done..|]; intros q rw x Ek; by apply grant_ne_receipt in Ek]. rewrite Ep in *. split.
    + intros _. by apply keys_ok_insert.
    + by rewrite Hrow.
    + intros b0 a e0 h _ (row' & Hrow' & Hg). right. rewrite Hrow in Hrow'. injection Hrow' as <-. rewrite Hcur in Hg. injection Hg as ->. exists (grantHash raw). split.
      * eexists. split; [apply lookup_insert_eq|]. apply grant_law in Hb. cbn in Hb |- *. by rewrite !compact_compact in Hb.
      * cbn in Hh. naive_solver.
    + intros q rw x (row' & Hrow' & Hx) _ _. exists row'. rewrite lookup_insert_ne by apply grant_ne_receipt. done.
  - destruct (spec_update _ _ _ _ _) as [[x|e] m'] eqn:E; [|apply spec_update_Err in E as ->; apply kept_refl]. cbn [snd]. apply issue_cert_inv in E as (Hx & _ & _ & _ & -> & Hv).
    apply kept_insert; [done|by intros Ek%eq_sym%grant_ne_receipt|]. intros q rw c' _ (row & Hrow & Hp & He). rewrite Hrow, Hp in Hx. injection Hx as ->.
    eexists. split; [apply lookup_insert_eq|]. split; [|done]. cbn. by rewrite (raw_law _ _ Hp).
  - by apply kept_agree.
  - split.
    + intros _ k r Hr. apply Hk. by eapply lookup_weaken.
    + intros Hn. apply eq_None_not_Some. intros [r Hr]. eapply lookup_weaken in Hr; [|done]. congruence.
    + intros b a e h _ (row & Hrow & Hg). destruct (m' !! grantKey pw) as [row'|] eqn:E; [|by left]. right. exists h. split; [|done]. exists row'. split; [done|].
      pose proof (lookup_weaken _ _ _ _ E Hsub) as E'. congruence.
    + intros p raw c (row & Hrow & Hp & He) Hh H0. destruct (m' !! receiptKey p raw) as [row'|] eqn:E.
      * exists row'. pose proof (lookup_weaken _ _ _ _ E Hsub) as E'. split_and!; congruence.
      * specialize (Hex _ _ Hrow E). unfold expired, time_is_zero in Hex. bool_hyps. lia.
Qed.
Lemma kept_trans pw hz m1 m2 m3 : keys_ok m1 → kept pw hz m1 m2 → kept pw hz m2 m3 → kept pw hz m1 m3.
Proof.
  intros Hk [K1 N1 G1 C1] [K2 N2 G2 C2]. split; [auto..| |].
  - intros b a e h _ Hg. destruct (G1 _ _ _ _ Hk Hg) as [Hn|(h' & Hg' & Hh)]; [left; auto|]. destruct (G2 _ _ _ _ (K1 Hk) Hg') as [Hn|(h'' & Hg'' & Hh')]; [by left|].
    right. exists h''. split; [done|]. intros Hne. specialize (Hh Hne). subst h'. auto.
  - intros p raw c Hc Hh H0. auto.
Qed.
Lemma history_kept pw hz m m' : rtc (gstep pw hz) m m' → keys_ok m → kept pw hz m m'.
Proof.
  intros H. induction H as [m|m1 m2 m3 H12 _ IH]; intros Hk; [apply kept_refl|]. pose proof (gstep_kept _ _ _ _ Hk H12) as H1. eapply kept_trans; [done..|]. apply IH. by apply H1.
Qed.

(** ** The operations *)

Context {St : Type} {store : TxStore St}.

Lemma update_view {A} cancelled clock keys (fn : txm A) (s s' : St) r : store_update cancelled clock keys (Some fn) s = (r, s') →
  spec_update cancelled clock keys (Some fn) (store_view s) = (r, store_view s').
Proof. intros H. pose proof (store_update_spec cancelled clock keys (Some fn) s) as Hs. by rewrite H in Hs. Qed.

Lemma Grants_Issue_Ok cancelled clock draw g grant (s s' : St) pw : keys_ok (store_view s) → Grants_Issue cancelled clock draw g grant s = (Ok pw, s') →
  pw = b64_encode draw ∧ keys_ok (store_view s') ∧ clock < Z.min (g_ExpiresAt grant) (clock + hour) ∧
  grant_at (store_view s') pw (g_Binding grant) (g_Admission grant) (Z.min (g_ExpiresAt grant) (clock + hour)) [].
Proof.
  intros Hk H. unfold Grants_Issue in H. destruct (configured g); [|done]. destruct (_ || _) eqn:E; [done|]. apply orb_false_iff in E as [Eh _]. apply bool_decide_eq_false in Eh.
  destruct (store_update _ _ _ _ _) as [[u|e] s1] eqn:Eu; [|done]. injection H as <- <-. apply update_view in Eu. apply issue_grant_inv in Eu as (e & b & Hlt & -> & Hb & Hm & Hv). split; [done|]. split; [|split; [done|]].
  - rewrite Hm. by apply keys_ok_insert.
  - eexists. rewrite Hm. split; [apply lookup_insert_eq|]. apply grant_law in Hb. cbn [Value]. rewrite Hb. destruct grant. cbn in *. do 2 f_equal. by destruct (decide (g_CSRHash = [])).
Qed.
Lemma authorized_grant_Ok cancelled g pw csr (s : St) req a : authorized_grant cancelled g pw csr s = Ok (req, a) →
  csr = Some req ∧ ∃ row authorize, store_view s !! grantKey pw = Some row ∧ grant_Unmarshal (Value row) = Some a ∧ gs_Authorize g = Some authorize ∧ authorize a req = Ok tt.
Proof.
  unfold authorized_grant. intros H. apply bind_Ok_inv in H as (? & _ & H). apply bind_Ok_inv in H as (? & _ & H). apply bind_Ok_inv in H as (? & _ & H).
  apply bind_Ok_inv in H as (row & Hg & H). apply bind_Ok_inv in H as (a' & Ha & H). destruct csr as [csr|]; [|done]. destruct (gs_Authorize g) as [authorize|]; [|done].
  apply bind_Ok_inv in H as ([] & Hz & H). injection H as -> ->. split; [done|]. rewrite store_get_spec in Hg. exists row, authorize. split_and!; try done.
  - unfold spec_get in Hg. cbn [smap schecks] in Hg. destruct (cancelled _); [done|]. destruct (negb _); [done|]. cbn [fst] in Hg. destruct (store_view s !! grantKey pw) as [r|]; [|done]. by injection Hg as ->.
  - unfold get_grant in Ha. destruct (grant_Unmarshal _); [|done]. by injection Ha as ->.
Qed.

(** What a successful verification needed and left; the others were a history. *)
Lemma Grants_Verify_Ok hz c c' clock others g pw csr (s s' : St) u : keys_ok (store_view s) → rtc (gstep pw hz) (store_view s) (store_view (others s)) →
  Grants_Verify c c' clock others g pw csr s = (Ok u, s') →
  rtc (gstep pw hz) (store_view s) (store_view s') ∧ ∃ req, csr = Some req ∧ store_view s !! grantKey pw ≠ None ∧ ∀ b a e h, grant_at (store_view s) pw b a e h →
    (∃ authorize, gs_Authorize g = Some authorize ∧ authorize (mkGrant (compact b) (compact a) e h) req = Ok tt) ∧
    clock < e ∧ (h = [] ∨ h = grantHash (cr_Raw req)) ∧ grant_at (store_view s') pw b a e (grantHash (cr_Raw req)).
Proof.
  intros Hk Ho H. unfold Grants_Verify in H. destruct (authorized_grant c g pw csr s) as [[req au]|e] eqn:Ea; [|done]. apply authorized_grant_Ok in Ea as (-> & row & authorize & Hrow & Hau & Hg & Hz).
  destruct (history_kept _ _ _ _ Ho Hk) as [K _ G _]. specialize (K Hk). apply update_view in H.
  assert (Hstep : gstep pw hz (store_view (others s)) (store_view s')).
  { replace (store_view s') with ((Ok u : result terr unit), store_view s').2 by done. rewrite <-H. apply g_reserve. }
  split; [by eapply rtc_r|]. exists req. split; [done|]. split; [by rewrite Hrow|]. intros b a e h (row0 & Hrow0 & Hg0). rewrite Hrow in Hrow0. injection Hrow0 as <-. rewrite Hau in Hg0. injection Hg0 as ->.
  apply reserve_inv in H as (row1 & cur & b1 & Hrow1 & Hcur & Hlt & He & Hb & Hadm & Hh & Hm & Hs & Hv); [|done]. cbn in He, Hb, Hadm.
  assert (grant_at (store_view s) pw b a e h) as Hat by (by exists row). destruct (G _ _ _ _ Hk Hat) as [Hn|(h1 & (row2 & Hrow2 & Hg2) & Hh1)]; [congruence|].
  rewrite Hrow1 in Hrow2. injection Hrow2 as <-. rewrite Hcur in Hg2. injection Hg2 as ->. cbn in Hlt, Hh. split_and!.
  - by exists authorize.
  - done.
  - destruct (decide (h = [])); [by left|right]. rewrite <-(Hh1 n). destruct Hh as [Hh|Hh]; [|done]. by rewrite Hh1 in Hh.
  - eexists. rewrite Hs. split; [apply lookup_insert_eq|]. apply grant_law in Hm. cbn in Hm |- *. by rewrite !compact_compact in Hm.
Qed.

(** A grant is worth one certificate request. Once it is issued, and its password is not
    drawn again, then after any history: a verification succeeds only within the lifetime of
    the grant, one hour at most, and for a request the authorization callback accepted under
    the terms that were issued; and whatever happens in between, two verifications that
    succeed were for the same request, up to collisions of SHA-256. *)
Theorem grant_one_request hz c0 t0 draw g0 grant pw (s0 s1 s2 s3 s4 s5 : St) c1 c1' t1 others1 g1 csr1 c2 c2' t2 others2 g2 csr2 :
  keys_ok (store_view s0) → Grants_Issue c0 t0 draw g0 grant s0 = (Ok pw, s1) → rtc (gstep pw hz) (store_view s1) (store_view s2) →
  rtc (gstep pw hz) (store_view s2) (store_view (others1 s2)) → Grants_Verify c1 c1' t1 others1 g1 pw csr1 s2 = (Ok tt, s3) → rtc (gstep pw hz) (store_view s3) (store_view s4) →
  rtc (gstep pw hz) (store_view s4) (store_view (others2 s4)) → Grants_Verify c2 c2' t2 others2 g2 pw csr2 s4 = (Ok tt, s5) →
  ∃ req1 req2, csr1 = Some req1 ∧ csr2 = Some req2 ∧ grantHash (cr_Raw req1) = grantHash (cr_Raw req2) ∧
    t1 < g_ExpiresAt grant ∧ t2 < g_ExpiresAt grant ∧ t1 < t0 + hour ∧ t2 < t0 + hour ∧
    ∃ authorize h, gs_Authorize g2 = Some authorize ∧
      authorize (mkGrant (compact (g_Binding grant)) (compact (g_Admission grant)) (Z.min (g_ExpiresAt grant) (t0 + hour)) h) req2 = Ok tt.
Proof.
  intros Hk Hi H12 Ho1 Hv1 H34 Ho2 Hv2. apply Grants_Issue_Ok in Hi as (_ & Hk1 & _ & Hat1); [|done]. set (e := Z.min _ _) in Hat1.
  destruct (history_kept _ _ _ _ H12 Hk1) as [K12 N12 G12 _]. specialize (K12 Hk1). apply (Grants_Verify_Ok hz) in Hv1 as (H23 & req1 & -> & Hne1 & Hv1); [|done..].
  destruct (G12 _ _ _ _ Hk1 Hat1) as [Hn|(h2 & Hat2 & _)]; [done|]. destruct (Hv1 _ _ _ _ Hat2) as (_ & Ht1 & _ & Hat3).
  destruct (history_kept _ _ _ _ H23 K12) as [K23 _ _ _]. specialize (K23 K12). destruct (history_kept _ _ _ _ H34 K23) as [K34 N34 G34 _]. specialize (K34 K23).
  apply (Grants_Verify_Ok hz) in Hv2 as (_ & req2 & -> & Hne2 & Hv2); [|done..]. destruct (G34 _ _ _ _ K23 Hat3) as [Hn|(h4 & Hat4 & Hh4)]; [done|]. specialize (Hh4 (grantHash_nonempty _)). subst h4.
  destruct (Hv2 _ _ _ _ Hat4) as ((authorize & Hg & Hz) & Ht2 & Hh & _). exists req1, req2. split_and!; try done; try lia.
  - destruct Hh as [Hh|Hh]; [by apply grantHash_nonempty in Hh|done].
  - by eexists _, _.
Qed.

(** An issuer whose authorization is the verification of grants. Others may use the store while
    it runs ([others]), and between it and the transaction of the receipt ([after]). *)
Definition verifies (hz : Time) (pw : bytes) (i : CertificateIssuer St) (s : St) : Prop :=
  ∃ c c' clock others after g,
    (∀ csr, ci_Authorize i pw csr s = let '(r, s1) := Grants_Verify c c' clock others g pw csr s in (r, after s1)) ∧
    rtc (gstep pw hz) (store_view s) (store_view (others s)) ∧ (∀ s1, rtc (gstep pw hz) (store_view s1) (store_view (after s1))) ∧
    ∀ req policy c, ci_Signer i req policy = Ok (Some c) → ParseCertificate (ct_Raw c) = Some c.

(** The grant is reserved for the request with hash [h], or gone. *)
Definition reserved_or_gone (m : gmap bytes Rec) (pw b a : bytes) (e : Time) (h : bytes) : Prop :=
  m !! grantKey pw = None ∨ grant_at m pw b a e h.
Lemma reserved_kept pw hz m m' b a e h : kept pw hz m m' → keys_ok m → h ≠ [] → reserved_or_gone m pw b a e h → reserved_or_gone m' pw b a e h.
Proof.
  intros [_ N G _] Hk Hne [Hn|Hg]; [left; auto|]. destruct (G _ _ _ _ Hk Hg) as [?|(h' & Hg' & Hh)]; [by left|right]. by rewrite <-(Hh Hne).
Qed.

Lemma Issuer_Issue_Ok hz c clock i pw csr policy (s s' : St) cert : keys_ok (store_view s) → verifies hz pw i s → Issuer_Issue c clock i pw csr policy s = (Ok cert, s') →
  ∃ req, csr = Some req ∧ store_view s !! grantKey pw ≠ None ∧ ct_NotBefore cert ≤ clock < ct_NotAfter cert ∧ MarshalPKIXPublicKey (ct_PublicKey cert) = Some (cr_SPKI req) ∧ ci_Register i cert = Ok tt ∧
    rtc (gstep pw hz) (store_view s) (store_view s') ∧
    cert_at (store_view s') (receiptKey pw (cr_Raw req)) cert ∧
    (∀ c0, cert_at (store_view s) (receiptKey pw (cr_Raw req)) c0 → hz < ct_NotAfter c0 → ct_NotAfter c0 ≠ 0 → cert = c0) ∧
    ∀ b a e h, grant_at (store_view s) pw b a e h → (h = [] ∨ h = grantHash (cr_Raw req)) ∧ reserved_or_gone (store_view s') pw b a e (grantHash (cr_Raw req)).
Proof.
  intros Hk (vc & vc' & vt & others & after & g & Hauth & Ho & Haft & Hsign) H. unfold Issuer_Issue in H. destruct csr as [req|]; [|done]. destruct (bool_decide _); [done|]. destruct (of_ca _) as [vu|]; [|done]. rewrite Hauth in H.
  destruct (Grants_Verify _ _ _ _ _ _ _ _) as [[u|e] s1] eqn:Ev; [|done]. cbn beta iota zeta in H. destruct (store_update _ _ _ _ _) as [[x|e] s2] eqn:Eu; [|done]. destruct (ci_Register i x) as [[]|e] eqn:Er; [|done]. injection H as -> ->.
  apply (Grants_Verify_Ok hz) in Ev as (H1 & req' & [= <-] & Hne & Hv); [|done..]. specialize (Haft s1). set (s2 := after s1) in *. apply update_view in Eu.
  destruct (history_kept _ _ _ _ H1 Hk) as [K1 _ _ C1]. specialize (K1 Hk). pose proof (history_kept _ _ _ _ Haft K1) as Ka. pose proof Ka as [K2 _ _ C2]. specialize (K2 K1).
  assert (Hstep : gstep pw hz (store_view s2) (store_view s')).
  { replace (store_view s') with ((Ok cert : result terr Cert), store_view s').2 by done. rewrite <-Eu. apply g_receipt. intros c'. apply Hsign. }
  pose proof (gstep_kept _ _ _ _ K2 Hstep) as Kb. apply issue_cert_inv in Eu as (Hc & _ & Hval & Hkey & Hm & Hvk).
  assert (Hparse : ParseCertificate (ct_Raw cert) = Some cert).
  { destruct (store_view s2 !! _) as [row|]; [by rewrite (raw_law _ _ Hc)|by eapply Hsign]. }
  exists req. split_and!; try done; try lia.
  - eapply rtc_r; [|exact Hstep]. by etrans.
  - eexists. rewrite Hm. split; [apply lookup_insert_eq|]. done.
  - intros c0 Hc0 Hlt H0. destruct (C2 _ _ _ (C1 _ _ _ Hc0 Hlt H0) Hlt H0) as (row & Hrow & Hp & _). rewrite Hrow in Hc. congruence.
  - intros b a e h Hat. destruct (Hv _ _ _ _ Hat) as (_ & _ & Hh & Hat1). split; [done|].
    eapply reserved_kept; [exact Kb|done|apply grantHash_nonempty|]. eapply reserved_kept; [exact Ka|done|apply grantHash_nonempty|by right].
Qed.

(** C14 A grant is worth one certificate. When certificates are issued under the verification
    of grants, with other users of the store at work between the steps of each, then after any
    history, whatever failures and retries it holds, two issues that succeed for one password
    are for requests with one hash and return the same certificate as long as that is valid;
    it is valid when it is returned, certifies the key of the request, and was registered. *)
Theorem grant_one_certificate hz c0 t0 draw g0 grant pw (s0 s1 s2 s3 s4 s5 : St) c1 t1 i1 csr1 policy1 cert1 c2 t2 i2 csr2 policy2 cert2 :
  keys_ok (store_view s0) → Grants_Issue c0 t0 draw g0 grant s0 = (Ok pw, s1) → rtc (gstep pw hz) (store_view s1) (store_view s2) →
  verifies hz pw i1 s2 → Issuer_Issue c1 t1 i1 pw csr1 policy1 s2 = (Ok cert1, s3) → rtc (gstep pw hz) (store_view s3) (store_view s4) →
  verifies hz pw i2 s4 → Issuer_Issue c2 t2 i2 pw csr2 policy2 s4 = (Ok cert2, s5) →
  ∃ req1 req2, csr1 = Some req1 ∧ csr2 = Some req2 ∧ grantHash (cr_Raw req1) = grantHash (cr_Raw req2) ∧
    (hz < ct_NotAfter cert1 → ct_NotAfter cert1 ≠ 0 → cert2 = cert1) ∧
    ct_NotBefore cert2 ≤ t2 < ct_NotAfter cert2 ∧ MarshalPKIXPublicKey (ct_PublicKey cert2) = Some (cr_SPKI req2) ∧ ci_Register i2 cert2 = Ok tt.
Proof.
  intros Hk Hi H12 Hver1 Hi1 H34 Hver2 Hi2. apply Grants_Issue_Ok in Hi as (_ & Hk1 & _ & Hat1); [|done].
  destruct (history_kept _ _ _ _ H12 Hk1) as [K12 _ G12 _]. specialize (K12 Hk1). apply (Issuer_Issue_Ok hz) in Hi1 as (req1 & -> & Hne1 & _ & _ & _ & H23 & Hc3 & _ & Hg3); [|done..].
  destruct (G12 _ _ _ _ Hk1 Hat1) as [Hn|(h2 & Hat2 & _)]; [done|]. destruct (Hg3 _ _ _ _ Hat2) as [_ Hat3].
  destruct (history_kept _ _ _ _ H23 K12) as [K23 _ _ _]. specialize (K23 K12). pose proof (history_kept _ _ _ _ H34 K23) as K. pose proof K as [K34 _ _ C34]. specialize (K34 K23).
  apply (Issuer_Issue_Ok hz) in Hi2 as (req2 & -> & Hne2 & Hval & Hkey & Hreg & _ & _ & Hsame & Hg5); [|done..].
  destruct (reserved_kept _ _ _ _ _ _ _ _ K K23 (grantHash_nonempty _) Hat3) as [Hn|Hat4]; [done|].
  destruct (Hg5 _ _ _ _ Hat4) as [[Hh|Hh] _]; [by apply grantHash_nonempty in Hh|]. exists req1, req2. split_and!; try done; try lia.
  intros Hlt H0. apply Hsame; [|done..]. assert (receiptKey pw (cr_Raw req2) = receiptKey pw (cr_Raw req1)) as -> by (unfold receiptKey; by rewrite Hh). by apply C34.
Qed.
End Safety.

(** ** The SCEP grants run: one grant, two requests for a certificate *)

#[local] Instance sampleCrypto : CaCrypto := {|
  MarshalPKIXPublicKey k := match k with ECDSA _ p => p | OtherKey b => Some b | RSA _ _ => None end;
  CreateCertificate sig t issuer key signer := Some [tp_Serial t; tp_NotBefore t; tp_NotAfter t; tp_KeyUsage t];
  ParseCertificate b := match b with [n; nb; na; ku] => Some (mkCert b n false true ku (OtherKey (bs "point")) nb na) | _ => None end |}.
Lemma sample_raw b c : ParseCertificate b = Some c → ct_Raw c = b.
Proof. cbn. by destruct b as [|? [|? [|? [|? [|? ?]]]]]; intros [=<-]. Qed.

#[local, refine] Instance sampleCodec : GrantCodec := {|
  compact b := b;
  grant_Marshal g := Some ([g_ExpiresAt g; Z.of_nat (length (g_Binding g)); Z.of_nat (length (g_Admission g))] ++ g_Binding g ++ g_Admission g ++ g_CSRHash g);
  grant_Unmarshal s := match s with
    | e :: nb :: na :: s => let nb := Z.to_nat nb in let na := Z.to_nat na in Some (mkGrant (take nb s) (take na (drop nb s)) e (drop na (drop nb s)))
    | _ => None
    end |}.
Proof.
  - done.
  - intros [b a e h] ? [= <-]. cbn [app g_Binding g_Admission g_ExpiresAt g_CSRHash]. cbn zeta. by rewrite !Nat2Z.id, take_app_length, drop_app_length, take_app_length, drop_app_length.
Defined.

Definition never : nat → bool := λ _, false.
Definition now0 : Time := 10 ^ 15.
Definition minute : Z := 60 * second.
Definition grantA : Grant := mkGrant (bs "D1") (bs "A1") (now0 + 2 * hour) [].
Definition policyA : Policy := mkPolicy 0 0 0 0 [] false 0 None [] [KeyECP256] [] [].
Definition grantsA : Grants := mkGrants true policyA (Some (λ g csr, reject (bool_decide (g_Binding g ≠ bs "D1")) (TFail (bs "device")))).
Definition csrA (raw : bytes) : CertificateRequest := mkRequest raw (bs "point") (mkName (bs "device") []) (ECDSA P256 (Some (bs "point"))) true [] [] [] [].
Definition certA (n : Z) : Cert := mkCert [n; 0; now0 + 100 * hour; 1] n false true 1 (OtherKey (bs "point")) 0 (now0 + 100 * hour).
(** The signer would make another certificate each time it is asked. *)
Definition issuerA (n : Z) (clock : Time) : CertificateIssuer Memory :=
  mkIssuer (λ _ _, Ok (Some (certA n))) (Grants_Verify never never clock (λ s, s) grantsA) (λ _, Ok tt).

Definition pwA : bytes := Eval vm_compute in b64_encode (repeat 7 32).
Definition m1A : Memory := (Grants_Issue never now0 (repeat 7 32) grantsA grantA NewMemory).2.
Definition m2A : Memory := (Issuer_Issue never (now0 + minute) (issuerA 1 (now0 + minute)) pwA (Some (csrA (bs "csr-1"))) policyA m1A).2.
Definition m3A : Memory := (Issuer_Issue never (now0 + 5 * minute) (issuerA 2 (now0 + 5 * minute)) pwA (Some (csrA (bs "csr-1"))) policyA m2A).2.
Lemma issueA : Grants_Issue never now0 (repeat 7 32) grantsA grantA NewMemory = (Ok pwA, m1A).
Proof. apply with_state; [reflexivity|]. vm_compute. reflexivity. Qed.
Lemma first_certificate : Issuer_Issue never (now0 + minute) (issuerA 1 (now0 + minute)) pwA (Some (csrA (bs "csr-1"))) policyA m1A = (Ok (certA 1), m2A).
Proof. apply with_state; [reflexivity|]. vm_compute. reflexivity. Qed.
Lemma same_certificate : Issuer_Issue never (now0 + 5 * minute) (issuerA 2 (now0 + 5 * minute)) pwA (Some (csrA (bs "csr-1"))) policyA m2A = (Ok (certA 1), m3A).
Proof. apply with_state; [reflexivity|]. vm_compute. reflexivity. Qed.
(** Another request does not get the grant, and after an hour none does. *)
Example other_request : (Issuer_Issue never (now0 + 5 * minute) (issuerA 2 (now0 + 5 * minute)) pwA (Some (csrA (bs "csr-2"))) policyA m2A).1 = Err ErrChallenge
  ∧ (Issuer_Issue never (now0 + hour) (issuerA 2 (now0 + hour)) pwA (Some (csrA (bs "csr-1"))) policyA m2A).1 = Err ErrChallenge.
Proof. split; vm_compute; reflexivity. Qed.

Definition mVA : Memory := (Grants_Verify never never (now0 + 5 * minute) (λ s, s) grantsA pwA (Some (csrA (bs "csr-1"))) m1A).2.
Definition mWA : Memory := (Grants_Verify never never (now0 + 6 * minute) (λ s, s) grantsA pwA (Some (csrA (bs "csr-1"))) mVA).2.
Lemma verify2 : Grants_Verify never never (now0 + 5 * minute) (λ s, s) grantsA pwA (Some (csrA (bs "csr-1"))) m1A = (Ok tt, mVA).
Proof. apply with_state; [reflexivity|]. vm_compute. reflexivity. Qed.
Lemma verify3 : Grants_Verify never never (now0 + 6 * minute) (λ s, s) grantsA pwA (Some (csrA (bs "csr-1"))) mVA = (Ok tt, mWA).
Proof. apply with_state; [reflexivity|]. vm_compute. reflexivity. Qed.
Lemma empty_keys : keys_ok (store_view NewMemory).
Proof. intros k r H. discriminate H. Qed.
Lemma verifiesA n clock s : verifies now0 pwA (issuerA n clock) s.
Proof.
  exists never, never, clock, (λ s, s), (λ s, s), grantsA. split; [intros csr; cbn; by destruct (Grants_Verify _ _ _ _ _ _ _ _)|].
  split; [apply rtc_refl|]. split; [intros s1; apply rtc_refl|]. intros req policy c [= <-]. reflexivity.
Qed.

Lemma grant_one_request_witness : ∃ req1 req2, Some (csrA (bs "csr-1")) = Some req1 ∧ Some (csrA (bs "csr-1")) = Some req2 ∧ grantHash (cr_Raw req1) = grantHash (cr_Raw req2).
Proof.
  destruct (grant_one_request sample_raw now0 never now0 (repeat 7 32) grantsA grantA pwA NewMemory m1A m1A mVA mVA mWA never never (now0 + 5 * minute) (λ s, s) grantsA (Some (csrA (bs "csr-1")))
              never never (now0 + 6 * minute) (λ s, s) grantsA (Some (csrA (bs "csr-1")))
              empty_keys issueA (rtc_refl _ _) (rtc_refl _ _) verify2 (rtc_refl _ _) (rtc_refl _ _) verify3) as (req1 & req2 & Hr1 & Hr2 & Hh & _).
  exists req1, req2. exact (conj Hr1 (conj Hr2 Hh)).
Defined.
Lemma grant_one_certificate_witness : certA 1 = certA 1 ∧ now0 + 5 * minute < ct_NotAfter (certA 1).
Proof.
  destruct (grant_one_certificate sample_raw now0 never now0 (repeat 7 32) grantsA grantA pwA NewMemory m1A m1A m2A m2A m3A never (now0 + minute) (issuerA 1 (now0 + minute)) (Some (csrA (bs "csr-1"))) policyA (certA 1)
              never (now0 + 5 * minute) (issuerA 2 (now0 + 5 * minute)) (Some (csrA (bs "csr-1"))) policyA (certA 1)
              empty_keys issueA (rtc_refl _ _) (verifiesA _ _ _) first_certificate (rtc_refl _ _) (verifiesA _ _ _) same_certificate) as (req1 & req2 & _ & _ & _ & Hc & [_ Ht] & _).
  split; [apply Hc; [reflexivity|discriminate]|exact Ht].
Defined.
