(* ===== verification/Crypt.v ===== *)
(** * Values sealed at rest: [storage/crypt/crypt.go]

    A ring of named keys derived with HKDF-SHA256 from the material of a secrets provider, the
    sealed form of a value (magic, name of the key, nonce, AES-GCM output) and its reading.
    AES-GCM is the class [AEAD], the provider a function, the random source a draw. *)
From S2P Require Import Prelude GoStrings Sha256 Base64 Jose Ca ScepChallenge.

(** [secrets.ErrNotFound] is apart from the other errors of a provider. *)
(* @src devicemanagement/storage/crypt/crypt.go 20-35 errors *)
Inductive crypt_err := ErrNoKeyring | ErrUnknownKey | ErrTampered | ErrUnsealed | ErrWeakKey | ErrBadFormat | ErrNoActive | SecretNotFound | CryptFail (what : bytes).

(* @src devicemanagement/storage/crypt/crypt.go 37-60 layout *)
Definition formatVersion : Z := 1.
Definition magicLen : nat := 6.
Definition nonceLen : nat := 12.
Definition tagLen : nat := 16.
Definition keyLen : nat := 32.
Definition minMaterial : nat := 16.
Definition maxNameLen : nat := 255.
Definition hkdfInfo : bytes := bs "go-apple-dm/storage/crypt/v1".
Definition headerLen : nat := magicLen + 1.
Definition magic : bytes := [0] ++ bs "gamc" ++ [formatVersion].

(** [hkdf.Key] over SHA-256 (RFC 5869) for at most one block of output. *)
Definition hkdf_key (secret salt info : bytes) : bytes := take keyLen (hmac_sha256 (hmac_sha256 salt secret) (info ++ [1])).
(** RFC 5869, test case 1, the first block. *)
Example hkdf_rfc5869 : hex_EncodeToString (hkdf_key (replicate 22 11) [0; 1; 2; 3; 4; 5; 6; 7; 8; 9; 10; 11; 12] [240; 241; 242; 243; 244; 245; 246; 247; 248; 249]) =
  bs "3cb25f25faacd57a90434f64d0362f2a2d2d0a90cf1a5a4c5db02d56ecc4c5bf".
Proof. vm_compute. reflexivity. Qed.

(** AES-256-GCM with a derived key: what was sealed opens under the same key, nonce and
    associated data, and sealing adds the tag. *)
Class AEAD := {
  gcm_Seal : bytes → bytes → bytes → bytes → bytes;
  gcm_Open : bytes → bytes → bytes → bytes → option bytes;
  gcm_law : ∀ key nonce plaintext aad, gcm_Open key nonce (gcm_Seal key nonce plaintext aad) aad = Some plaintext;
  gcm_length : ∀ key nonce plaintext aad, length (gcm_Seal key nonce plaintext aad) = (length plaintext + tagLen)%nat }.

Section Ring.
Context {aead : AEAD}.

(* @src devicemanagement/storage/crypt/crypt.go - Keys *)
Record Keys := mkKeys { k_Active : bytes; k_Accepted : list bytes; k_Strict : bool }.
(** A ring holds the derived key of each name. *)
(* @src devicemanagement/storage/crypt/crypt.go - Keyring *)
Record Keyring := mkRing { active : bytes; strict : bool; keys : gmap bytes bytes }.

(* @src devicemanagement/storage/crypt/crypt.go - checkName *)
Definition checkName (name : bytes) : result crypt_err unit :=
  _ ← reject (bool_decide (name = []) || (maxNameLen <? length name)%nat) ErrBadFormat;
  reject (bool_decide (0 ∈ name)) ErrBadFormat.
(** The provider answers with key material, with its sentinel or with another error. *)
Definition Provider : Type := bytes → result crypt_err bytes.
(* @src devicemanagement/storage/crypt/crypt.go - load *)
Definition load (p : Provider) (name : bytes) : result crypt_err bytes :=
  _ ← checkName name;
  match p name with
  | Err SecretNotFound => Err SecretNotFound
  | Err _ => Err (CryptFail (bs "load key"))
  | Ok material =>
      _ ← reject (length material <? minMaterial)%nat ErrWeakKey;
      Ok (hkdf_key material name hkdfInfo)
  end.
(* @src devicemanagement/storage/crypt/crypt.go 109-118 NewKeyring *)
Fixpoint load_all (p : Provider) (names : list bytes) (ks : gmap bytes bytes) : result crypt_err (gmap bytes bytes) :=
  match names with
  | [] => Ok ks
  | name :: names =>
      if bool_decide (is_Some (ks !! name)) then load_all p names ks
      else key ← load p name; load_all p names (<[name := key]> ks)
  end.
(* @src devicemanagement/storage/crypt/crypt.go - NewKeyring *)
Definition NewKeyring (k : Keys) (provider : option Provider) : result crypt_err Keyring :=
  _ ← reject (bool_decide (k_Active k = [])) ErrNoActive;
  match provider with
  | None => Err ErrNoKeyring
  | Some p => ks ← load_all p (k_Active k :: k_Accepted k) ∅; Ok (mkRing (k_Active k) (k_Strict k) ks)
  end.
(* @src devicemanagement/storage/crypt/crypt.go - Keyring.Active *)
Definition Active (k : option Keyring) : bytes := match k with None => [] | Some k => active k end.
(* @src devicemanagement/storage/crypt/crypt.go - Keyring.Strict *)
Definition Strict (k : option Keyring) : bool := match k with None => false | Some k => strict k end.

(** The nonce is the draw, [None] when the source fails; a ring without its active key, which
    [NewKeyring] does not make, would panic. *)
(* @src devicemanagement/storage/crypt/crypt.go - Keyring.Seal *)
Definition Seal (k : option Keyring) (draw : option bytes) (plaintext aad : bytes) : result crypt_err bytes :=
  match k with
  | None => Err ErrNoKeyring
  | Some k =>
      match keys k !! active k, draw with
      | None, _ => Err (CryptFail (bs "panic: nil cipher"))
      | Some _, None => Err (CryptFail (bs "nonce"))
      | Some key, Some nonce =>
          Ok (magic ++ [Z.of_nat (length (active k)) mod 256] ++ active k ++ nonce ++ gcm_Seal key nonce plaintext aad)
      end
  end.

(* @src devicemanagement/storage/crypt/crypt.go - IsSealed *)
Definition IsSealed (b : bytes) : bool := (magicLen <=? length b)%nat && bool_decide (take magicLen b = magic).
(* @src devicemanagement/storage/crypt/crypt.go - KeyName *)
Definition KeyName (b : bytes) : option bytes :=
  if negb (IsSealed b) || (length b <? headerLen)%nat then None
  else let n := Z.to_nat (nth magicLen b 0) in
       if (n =? 0)%nat || (length b <? headerLen + n)%nat then None else Some (take n (drop headerLen b)).
(* @src devicemanagement/storage/crypt/crypt.go - split *)
Definition split (b : bytes) : result crypt_err (bytes * bytes) :=
  match KeyName b with
  | None => Err ErrBadFormat
  | Some name =>
      let rest := drop (headerLen + length name) b in
      _ ← reject (length rest <? nonceLen + tagLen)%nat ErrBadFormat;
      Ok (name, rest)
  end.
(* @src devicemanagement/storage/crypt/crypt.go - Keyring.Open *)
Definition Open (k : option Keyring) (ciphertext aad : bytes) : result crypt_err (bytes * bytes) :=
  match k with
  | None => Err ErrNoKeyring
  | Some k =>
      x ← split ciphertext;
      let '(name, body) := (x : bytes * bytes) in
      match keys k !! name with
      | None => Err ErrUnknownKey
      | Some key =>
          match gcm_Open key (take nonceLen body) (drop nonceLen body) aad with
          | None => Err ErrTampered
          | Some plaintext => Ok (plaintext, name)
          end
      end
  end.
(* @src devicemanagement/storage/crypt/crypt.go - AAD *)
Definition AAD (purpose rowID : bytes) : bytes := purpose ++ [0] ++ rowID.

(** ** Rings *)

Lemma load_all_Ok p names : ∀ ks ks', load_all p names ks = Ok ks' →
  (∀ n k, ks !! n = Some k → ks' !! n = Some k) ∧ (∀ n, n ∈ names → is_Some (ks' !! n)) ∧ (∀ n k, ks' !! n = Some k → ks !! n = Some k ∨ (n ∈ names ∧ load p n = Ok k)).
Proof.
  induction names as [|n names IH]; intros ks ks'; cbn [load_all]; [intros [= <-]; split_and!; [done|by intros n ?%not_elem_of_nil|eauto]|].
  case_bool_decide as Hn.
  - intros H. apply IH in H as (H1 & H2 & H3). split_and!; [done| |].
    + intros m [->|Hm]%elem_of_cons; [|auto]. destruct Hn as [k Hk]. eauto.
    + intros m k Hk. apply H3 in Hk as [Hk|[Hm Hk]]; [by left|]. right. split; [by right|done].
  - intros H. apply bind_Ok_inv in H as (key & Hkey & H). apply IH in H as (H1 & H2 & H3). assert (ks !! n = None) as Hnone by (by apply eq_None_not_Some). split_and!.
    + intros m k Hk. apply H1. rewrite lookup_insert_ne; [done|]. intros ->. congruence.
    + intros m [->|Hm]%elem_of_cons; [|auto]. exists key. apply H1, lookup_insert_eq.
    + intros m k Hk. apply H3 in Hk as [Hk|[Hm Hk]]; [|right; split; [by right|done]].
      destruct (decide (n = m)) as [<-|Hne]; [rewrite lookup_insert_eq in Hk; injection Hk as <-; right; split; [by left|done]|]. rewrite lookup_insert_ne in Hk by done. by left.
Qed.
(** A ring holds exactly the keys the provider gives its names. *)
Lemma NewKeyring_Ok k p r : NewKeyring k (Some p) = Ok r → active r = k_Active k ∧ strict r = k_Strict k ∧
  (∀ n, n ∈ k_Active k :: k_Accepted k → ∃ key, keys r !! n = Some key) ∧ ∀ n key, keys r !! n = Some key → n ∈ k_Active k :: k_Accepted k ∧ load p n = Ok key.
Proof.
  unfold NewKeyring. intros H. apply bind_Ok_inv in H as (u & _ & H). apply bind_Ok_inv in H as (ks & Hks & H). injection H as <-. apply load_all_Ok in Hks as (_ & H2 & H3).
  split_and!; [done..|exact H2|]. intros n key Hk. apply H3 in Hk as [Hk|Hk]; [by rewrite lookup_empty in Hk|exact Hk].
Qed.
Lemma load_name p n key : load p n = Ok key → (1 ≤ length n ≤ maxNameLen)%nat ∧ 0 ∉ n.
Proof.
  unfold load, checkName. intros H. apply bind_Ok_inv in H as (u & Hc & _). apply bind_Ok_inv in Hc as (u' & Hn & H0). apply reject_Ok_inv in Hn, H0. bool_hyps.
  apply Nat.ltb_ge in H1. split; [|done]. destruct n; [done|]. cbn [length] in *. lia.
Qed.

(** The header of a sealed value. *)
Lemma KeyName_sealed name body : (1 ≤ length name ≤ maxNameLen)%nat → KeyName (magic ++ [Z.of_nat (length name) mod 256] ++ name ++ body) = Some name.
Proof.
  intros Hn. unfold maxNameLen in Hn. unfold KeyName. assert (IsSealed (magic ++ [Z.of_nat (length name) mod 256] ++ name ++ body) = true) as -> by done. cbn [negb orb].
  rewrite !length_app. change (length magic) with magicLen. cbn [length]. unfold headerLen, magicLen. rewrite (proj2 (Nat.ltb_ge _ _)) by lia.
  assert (nth 6 (magic ++ [Z.of_nat (length name) mod 256] ++ name ++ body) 0 = Z.of_nat (length name) mod 256) as -> by done. rewrite Z.mod_small, Nat2Z.id by lia.
  rewrite (proj2 (Nat.eqb_neq _ _)), (proj2 (Nat.ltb_ge _ _)) by lia. cbn [orb]. f_equal. change (take (length name) (name ++ body) = name). apply take_app_length.
Qed.
Lemma split_sealed name nonce sealed : (1 ≤ length name ≤ maxNameLen)%nat → length nonce = nonceLen → (tagLen ≤ length sealed)%nat →
  split (magic ++ [Z.of_nat (length name) mod 256] ++ name ++ nonce ++ sealed) = Ok (name, nonce ++ sealed).
Proof.
  intros Hn Hl Hs. unfold split. rewrite KeyName_sealed by done.
  assert (drop (headerLen + length name) (magic ++ [Z.of_nat (length name) mod 256] ++ name ++ nonce ++ sealed) = nonce ++ sealed) as -> by (rewrite <-drop_drop; apply (drop_app_length name)).
  rewrite length_app. by rewrite (proj2 (Nat.ltb_ge _ _)) by lia.
Qed.

(** C17 What was sealed opens, through key rotation. A value sealed by one ring is opened, under
    the same associated data, by every ring made from a provider that still has the same
    material for the name of the key, as the active key or as an accepted one, and opening
    reports that name; and a ring that does not have the name refuses with [ErrUnknownKey]. *)
Theorem sealed_opens_after_rotation k1 p1 r1 k2 p2 r2 nonce plaintext aad b :
  NewKeyring k1 (Some p1) = Ok r1 → NewKeyring k2 (Some p2) = Ok r2 → length nonce = nonceLen → Seal (Some r1) (Some nonce) plaintext aad = Ok b →
  IsSealed b = true ∧ KeyName b = Some (k_Active k1) ∧
  (k_Active k1 ∈ k_Active k2 :: k_Accepted k2 → p2 (k_Active k1) = p1 (k_Active k1) → Open (Some r2) b aad = Ok (plaintext, k_Active k1)) ∧
  (k_Active k1 ∉ k_Active k2 :: k_Accepted k2 → Open (Some r2) b aad = Err ErrUnknownKey).
Proof.
  intros H1 H2 Hl Hs. apply NewKeyring_Ok in H1 as (Ha1 & _ & Hin1 & Hk1), H2 as (Ha2 & _ & Hin2 & Hk2). unfold Seal in Hs. rewrite Ha1 in Hs.
  destruct (keys r1 !! k_Active k1) as [key|] eqn:Ekey; [|done]. apply Ok_inv in Hs. subst b. destruct (Hk1 _ _ Ekey) as [_ Hload]. destruct (load_name _ _ _ Hload) as [Hn _].
  pose proof (gcm_length key nonce plaintext aad) as Hg. split; [done|]. split; [by apply KeyName_sealed|]. unfold Open. rewrite split_sealed by (done || lia). cbn [mbind result_bind]. split.
  - intros Hin Hp. destruct (Hin2 _ Hin) as [key2 Ekey2]. rewrite Ekey2. apply Hk2 in Ekey2 as [_ Ekey2]. assert (load p2 (k_Active k1) = load p1 (k_Active k1)) as E by (unfold load; by rewrite Hp).
    rewrite Ekey2, Hload in E. injection E as ->. rewrite <-Hl, take_app_length, drop_app_length, gcm_law. done.
  - intros Hno. destruct (keys r2 !! k_Active k1) as [key2|] eqn:E; [|done]. by apply Hk2 in E as [? _].
Qed.

(** Associated data names one column and one row. *)
Lemma AAD_inj purpose purpose' row row' : 0 ∉ purpose → 0 ∉ purpose' → AAD purpose row = AAD purpose' row' → purpose = purpose' ∧ row = row'.
Proof.
  unfold AAD. revert purpose'. induction purpose as [|c purpose IH]; intros [|c' purpose'] H H' E; cbn in E.
  - by injection E.
  - injection E as <- _. by destruct H'; left.
  - injection E as -> _. by destruct H; left.
  - injection E as -> E. destruct (IH purpose') as [-> ->]; [by intros ?; apply H; right|by intros ?; apply H'; right|done|done].
Qed.
End Ring.

(** ** Two rings *)

#[local, refine] Instance sampleAEAD : AEAD := {|
  gcm_Seal key nonce plaintext aad := plaintext ++ take tagLen (Sum256 (key ++ nonce ++ aad ++ [0] ++ plaintext));
  gcm_Open key nonce sealed aad :=
    let plaintext := take (length sealed - tagLen) sealed in
    if bool_decide (drop (length sealed - tagLen) sealed = take tagLen (Sum256 (key ++ nonce ++ aad ++ [0] ++ plaintext))) then Some plaintext else None |}.
Proof.
  - intros key nonce plaintext aad. cbv zeta. set (tag := take tagLen (Sum256 (key ++ nonce ++ aad ++ [0] ++ plaintext))).
    assert (length tag = tagLen) as Hl by (subst tag; rewrite length_take; destruct (Sum256_spec (key ++ nonce ++ aad ++ [0] ++ plaintext)) as [-> _]; done).
    rewrite length_app, Hl. replace (length plaintext + tagLen - tagLen)%nat with (length plaintext) by lia. rewrite take_app_length, drop_app_length. by rewrite bool_decide_true.
  - intros key nonce plaintext aad. rewrite length_app, length_take. destruct (Sum256_spec (key ++ nonce ++ aad ++ [0] ++ plaintext)) as [-> _]. done.
Defined.
Definition providerS : Provider := λ n, if bool_decide (n = bs "k1") then Ok (replicate 16 1) else if bool_decide (n = bs "k2") then Ok (replicate 20 2) else Err SecretNotFound.
Definition oldS : Keys := mkKeys (bs "k1") [] false.
Definition newS : Keys := mkKeys (bs "k2") [bs "k1"] true.
Definition ring1S : Keyring := Eval vm_compute in match NewKeyring oldS (Some providerS) with Ok r => r | Err _ => mkRing [] false ∅ end.
Definition ring2S : Keyring := Eval vm_compute in match NewKeyring newS (Some providerS) with Ok r => r | Err _ => mkRing [] false ∅ end.
Definition sealedS : bytes := Eval vm_compute in match Seal (Some ring1S) (Some (replicate 12 9)) (bs "token") (AAD (bs "dep") (bs "row")) with Ok b => b | Err _ => [] end.
Example NewKeyring_refuses : NewKeyring (mkKeys (bs "k3") [] false) (Some providerS) = Err SecretNotFound ∧ NewKeyring oldS None = Err ErrNoKeyring ∧
  NewKeyring (mkKeys [] [] false) None = Err ErrNoActive.
Proof. split_and!; vm_compute; reflexivity. Qed.
Example Open_refuses : Open (Some ring2S) sealedS (AAD (bs "dep") (bs "row2")) = Err ErrTampered ∧ Open (Some ring2S) (bs "<?xml") [] = Err ErrBadFormat ∧ Open None sealedS [] = Err ErrNoKeyring.
Proof. split_and!; vm_compute; reflexivity. Qed.
Lemma sealed_opens_after_rotation_witness : Open (Some ring2S) sealedS (AAD (bs "dep") (bs "row")) = Ok (bs "token", bs "k1").
Proof.
  destruct (sealed_opens_after_rotation oldS providerS ring1S newS providerS ring2S (replicate 12 9) (bs "token") (AAD (bs "dep") (bs "row")) sealedS
              ltac:(vm_compute; reflexivity) ltac:(vm_compute; reflexivity) eq_refl ltac:(vm_compute; reflexivity)) as (_ & _ & H & _).
  apply H; [right; left|reflexivity].
Defined.
