(* ===== verification/AcmeIdentifier.v ===== *)
(** * Client identifiers of the ACME server: [pki/acme/identifier.go]

    Identifiers that carry their binding and expiry under HMAC-SHA256, and a fixed set; either
    is a verifier the server can be configured with. The JSON of the payload is a [Codec]. *)
From S2P Require Import Prelude GoStrings Sha256 Base64 StateStore StateClient AcmeTypes.
From S2P Require ScepChallenge.
Import ScepChallenge (hmac_sha256, Unix, Cut, Cut_app).

(* @src devicemanagement/pki/acme/identifier.go 20-20 MinIdentifierKey *)
Definition MinIdentifierKey : nat := 16.
Definition second : Z := 10 ^ 9.
Definition rejected : aerr := EProblem (NewProblem ProblemRejectedIdentifier).

(* @src devicemanagement/pki/acme/identifier.go - HMACIdentifiers *)
Record HMACIdentifiers := mkIdentifiers { key : bytes; ttl : Z }.
(** [None] is [ErrIdentifierKey]. *)
(* @src devicemanagement/pki/acme/identifier.go - NewHMACIdentifiers *)
Definition NewHMACIdentifiers (key : bytes) (ttl : Z) : option HMACIdentifiers :=
  if (length key <? MinIdentifierKey)%nat then None else Some (mkIdentifiers key (if ttl <=? 0 then 24 * 3600 * second else ttl)).
(* @src devicemanagement/pki/acme/identifier.go - sealed *)
Record sealed := mkSealed { s_Binding : Binding; Expires : Z; Unique : bytes }.

Section Identifiers.
Context `{codec : Codec sealed}.

(* @src devicemanagement/pki/acme/identifier.go - HMACIdentifiers.mac *)
Definition mac (h : HMACIdentifiers) (payload : bytes) : bytes := hmac_sha256 (key h) payload.
(** [draw] is what the random source gives, [None] when it fails. *)
(* @src devicemanagement/pki/acme/identifier.go - HMACIdentifiers.Issue *)
Definition Identifiers_Issue (h : HMACIdentifiers) (draw : option bytes) (now : Time) (b : Binding) : result aerr bytes :=
  match draw with
  | None => Err EOther
  | Some unique =>
      match Marshal (mkSealed b (Unix (now + ttl h)) unique) with
      | None => Err EOther
      | Some payload => Ok (b64_encode payload ++ [46] ++ b64_encode (mac h payload))
      end
  end.
(* @src devicemanagement/pki/acme/identifier.go - HMACIdentifiers.Verify *)
Definition Identifiers_Verify (h : HMACIdentifiers) (now : Time) (identifier : bytes) : result aerr Binding :=
  match Cut 46 identifier with
  | None => Err rejected
  | Some (enc, sig) =>
      match b64_decode enc with
      | None => Err (EProblem (WrapProblem ProblemRejectedIdentifier EOther))
      | Some payload =>
          match b64_decode sig with
          | None => Err (EProblem (WrapProblem ProblemRejectedIdentifier EOther))
          | Some got =>
              _ ← reject (bool_decide (got ≠ mac h payload)) rejected;
              match Unmarshal payload with
              | None => Err (EProblem (WrapProblem ProblemRejectedIdentifier EOther))
              | Some s =>
                  _ ← reject (Expires s * second <? now) rejected;
                  Ok (s_Binding s)
              end
          end
      end
  end.
(* @src devicemanagement/pki/acme/identifier.go - StaticIdentifiers.Verify *)
Definition Static_Verify (s : gmap bytes Binding) (identifier : bytes) : result aerr Binding :=
  match s !! identifier with Some b => Ok b | None => Err rejected end.

(** ** What is minted is what is accepted *)

Lemma b64_encode_no_dot l : Forall is_byte l → Forall (λ c, c ≠ 46) (b64_encode l).
Proof.
  intros Hl. rewrite b64_encode_digits. destruct (b64_digits_spec l Hl) as [Hd _]. apply Forall_fmap. eapply Forall_impl; [exact Hd|]. intros n Hn E. cbn in E.
  destruct (b64_digit_spec n Hn) as [Hv _]. rewrite E in Hv. done.
Qed.
(** The accepted identifiers: a payload under its code, whose expiry is not past. *)
Lemma Identifiers_Verify_Ok h now identifier b : Identifiers_Verify h now identifier = Ok b → ∃ enc sig payload s, Cut 46 identifier = Some (enc, sig) ∧
  b64_decode enc = Some payload ∧ b64_decode sig = Some (mac h payload) ∧ Unmarshal payload = Some s ∧ s_Binding s = b ∧ now ≤ Expires s * second.
Proof.
  unfold Identifiers_Verify. destruct (Cut 46 identifier) as [[enc sig]|]; [|done]. destruct (b64_decode enc) as [payload|] eqn:Ep; [|done]. destruct (b64_decode sig) as [got|] eqn:Eg; [|done]. intros H.
  apply bind_Ok_inv in H as (u & Hr & H). apply reject_Ok_inv in Hr. bool_hyps. destruct (Unmarshal payload) as [s|] eqn:Es; [|done]. apply bind_Ok_inv in H as (u2 & Hr2 & H). apply reject_Ok_inv, Z.ltb_ge in Hr2.
  injection H as <-. exists enc, sig, payload, s. by split_and!; congruence || done.
Qed.

(** An identifier says which device it was minted for. What [Issue] returns for a device is
    verified as its binding up to the second of its expiry and refused after it; identifiers
    minted with different draws differ, even for one device and one second; and whatever
    [Verify] accepts is a payload under its authentication code. *)
Theorem identifier_exact h draw issued b identifier :
  (∀ s payload, Marshal s = Some payload → Forall is_byte payload) → Identifiers_Issue h (Some draw) issued b = Ok identifier →
  (∀ now, Identifiers_Verify h now identifier = if Unix (issued + ttl h) * second <? now then Err rejected else Ok b) ∧
  (∀ draw' issued' b', Identifiers_Issue h (Some draw') issued' b' = Ok identifier → draw' = draw ∧ b' = b) ∧
  ∀ now forged b', Identifiers_Verify h now forged = Ok b' → ∃ enc sig payload s, Cut 46 forged = Some (enc, sig) ∧
    b64_decode enc = Some payload ∧ b64_decode sig = Some (mac h payload) ∧ Unmarshal payload = Some s ∧ s_Binding s = b' ∧ now ≤ Expires s * second.
Proof.
  intros Hbytes H. unfold Identifiers_Issue in H. destruct (Marshal _) as [payload|] eqn:Em; [|done]. apply Ok_inv in H. cbn [app] in H. pose proof (Hbytes _ _ Em) as Hp.
  assert (Hmac : ∀ p, Forall is_byte (mac h p)) by (intros p; apply Sum256_spec). assert (Hcut : Cut 46 identifier = Some (b64_encode payload, b64_encode (mac h payload))).
  { rewrite <-H. by apply Cut_app, b64_encode_no_dot. }
  split_and!; [| |intros now forged b'; apply Identifiers_Verify_Ok].
  - intros now. unfold Identifiers_Verify. rewrite Hcut, !b64_decode_encode, (Unmarshal_Marshal _ _ Em) by done. rewrite bool_decide_false by (intros E; by apply E). cbn. by destruct (_ <? now).
  - intros draw' issued' b' H'. unfold Identifiers_Issue in H'. destruct (Marshal (mkSealed b' _ _)) as [payload'|] eqn:Em'; [|done]. apply Ok_inv in H'. cbn [app] in H'. pose proof (Hbytes _ _ Em') as Hp'.
    rewrite <-H' in Hcut. rewrite Cut_app in Hcut by (by apply b64_encode_no_dot). apply (inj Some) in Hcut. pose proof (f_equal fst Hcut) as E. cbn [fst] in E. apply b64_encode_inj in E as ->; [|done..].
    apply Unmarshal_Marshal in Em, Em'. rewrite Em in Em'. apply (inj Some) in Em'. exact (conj (eq_sym (f_equal Unique Em')) (eq_sym (f_equal s_Binding Em'))).
Qed.
End Identifiers.

(** ** An identifier *)

#[local, refine] Instance sampleCodec : Codec sealed := {|
  Marshal s :=
    if bool_decide (0 ≤ Expires s < 2 ^ 32 ∧ Forall is_byte (b_UDID (s_Binding s)) ∧ Forall is_byte (Unique s) ∧ (length (b_UDID (s_Binding s)) < 256)%nat
                    ∧ s_Binding s = mkBinding true [] (b_UDID (s_Binding s)) [] [] [] [] false 0)
    then Some (put_be 4 (Expires s) ++ [Z.of_nat (length (b_UDID (s_Binding s)))] ++ b_UDID (s_Binding s) ++ Unique s) else None;
  Unmarshal b := match drop 4 b with
    | n :: r => Some (mkSealed (mkBinding true [] (take (Z.to_nat n) r) [] [] [] [] false 0) (get_be (take 4 b)) (drop (Z.to_nat n) r))
    | [] => None
    end |}.
Proof.
  intros [b e u] bytes. cbn [s_Binding Expires Unique]. case_bool_decide as H; [|done]. intros E. apply (inj Some) in E. subst bytes. destruct H as (He & _ & _ & _ & Hb).
  rewrite (drop_app_length' (put_be 4 e) _ 4) by (by rewrite put_be_length). rewrite (take_app_length' (put_be 4 e) _ 4) by (by rewrite put_be_length). cbn [app].
  rewrite Nat2Z.id, take_app_length, drop_app_length, get_put_be, Z.mod_small by done. by rewrite <-Hb.
Defined.
Lemma sample_bytes s payload : Marshal s = Some payload → Forall is_byte payload.
Proof.
  cbn [Marshal sampleCodec]. case_bool_decide as H; [|done]. intros E. apply (inj Some) in E. subst payload. destruct H as (_ & Hu & Hq & Hl & _). apply Forall_app. split; [apply put_be_bytes|]. apply Forall_cons. split; [unfold is_byte; lia|]. by apply Forall_app.
Qed.
Definition bindingI : Binding := mkBinding true [] (bs "UDID-1") [] [] [] [] false 0.
Definition minterI : HMACIdentifiers := mkIdentifiers (replicate 16 5) (60 * second).
Definition identifierI : bytes := Eval vm_compute in match Identifiers_Issue minterI (Some (replicate 12 9)) (10 ^ 12) bindingI with Ok i => i | Err _ => [] end.
Example identifier_tampered : Identifiers_Verify minterI (10 ^ 12) (identifierI ++ bs "A") = Err rejected ∧ Identifiers_Verify minterI (10 ^ 12) (bs "A.A") = Err (EProblem (WrapProblem ProblemRejectedIdentifier EOther)).
Proof. split; vm_compute; reflexivity. Qed.
Lemma identifier_exact_witness : ∀ now, Identifiers_Verify minterI now identifierI = if Unix (10 ^ 12 + ttl minterI) * second <? now then Err rejected else Ok bindingI.
Proof.
  destruct (identifier_exact minterI (replicate 12 9) (10 ^ 12) bindingI identifierI sample_bytes ltac:(vm_compute; reflexivity)) as (H & _). exact H.
Defined.
